(* ===== verification/_CoqProject ===== *)
-Q . S2P
Prelude.v
GoFloat.v
Float64.v
Law.v
RealLib.v
LawSpec.v
Kinematics.v
KinematicsSpec.v
Cycle.v
CycleSpec.v
Rounding.v
Nearest.v
Strconv.v
Utf8.v
Itoa.v
PowTable.v
Decimal.v
Atof.v
Tens.v
EiselSpec.v
ExactSpec.v
DecimalSpec.v
FloatBitsSpec.v
AtofSpec.v
Fold.v
Scanner.v
JsonGrammar.v
ScannerSpec.v
JsonEncode.v
Ftoa.v
Convergents.v
FtoaSpec.v
RyuSpec.v
FtoaRoundtrip.v
JsonDecode.v
JsonDecodeSpec.v
JsonEncodeSpec.v
IndentSpec.v
JsonStream.v
JsonStreamSpec.v
GoStrings.v
Letter.v
Url.v
UrlSpec.v
PathClean.v
Glob.v
GlobSpec.v
PatternSpec.v
Store.v
StoreSpec.v
StoreGlob.v
Handlers.v
Mux.v
MuxSpec.v
JsonRecords.v
JsonTyping.v
JsonRoundtrip.v
JsonFloat.v
HandlersSpec.v
HttpServe.v
HttpSpec.v
RequestSpec.v
StoreConc.v
Float64Spec.v
Service64.v
