(* ===== verification/Prelude.v ===== *)
(** * A verification of cam-follower

    cam-follower (src/cam-follower) is a small HTTP service for cam design: from a motion
    law and a few parameters it computes displacement, velocity, acceleration and jerk of a
    follower along a lift or a whole turn, checks the joints between segments, and keeps
    named recipes and cycles in JSON files.  The repository vendors the Go 1.22 tool chain
    (src/.tools/go); the parts of its standard library the service's behaviour rests on
    are modelled from their sources as well.

    ** The program's parts and the files that model them

    The service (src/cam-follower):
    - internal/law/law.go: [Law], theorems in [LawSpec];
    - internal/kinematics/kinematics.go: [Kinematics], [KinematicsSpec];
    - internal/cycle/cycle.go: [Cycle], [CycleSpec];
    - internal/store/store.go and jsonfile.go: [Store], [StoreSpec]; what its lists find, in
      [StoreGlob]; its operations as interleaved programs of system calls and of calls of
      the mutex, with crashes: [StoreConc];
    - handlers.go, and seed and envOr of main.go: [Handlers], [HandlersSpec];
    - the struct types with their JSON tags: [JsonRecords], [JsonTyping]; the records
      through JSON and back: [JsonRoundtrip], with float64 fields in [JsonFloat];
    - routes of handlers.go as the patterns of a mux, and a request from its line to its
      handler: [HttpServe], [HttpSpec], [RequestSpec];
    - the service with the float64 arithmetic and the codec of the library: [Service64].

    The library (src/.tools/go/src):
    - math (sin.go, trig_reduce.go, dim.go, bits.go, ...) on binary64: [Float64]; rounding
      and its error in [Rounding]; binary64 theorems about the service in [Float64Spec];
    - strconv: atoi.go, itoa.go and part of quote.go in [Strconv] and [Itoa]; atof.go,
      eisel_lemire.go and decimal.go in [Atof], [Decimal] and [PowTable]; ftoa.go and
      ftoaryu.go in [Ftoa].  The reference is [Nearest], rounding to the nearest binary64;
      towards it lead [Tens] (powers of ten and the table), [EiselSpec], [ExactSpec],
      [DecimalSpec] and [FloatBitsSpec] (the three paths of ParseFloat), [AtofSpec]
      (ParseFloat of a text), [Convergents] (how near a mantissa times a power of ten comes
      to an integer), [FtoaSpec] and [RyuSpec] (the digits of AppendFloat) and
      [FtoaRoundtrip] (its texts, and back);
    - unicode/utf8, unicode, strings: [Utf8]; case folding with its tables: [Fold]; letters
      and digits with theirs: [Letter]; searching and cutting of strings: [GoStrings];
    - net/url: escaping, URLs and queries in [Url], theorems in [UrlSpec];
    - path: Clean, and cleanPath of net/http, in [PathClean];
    - path/filepath: match.go with Split and Join in [Glob], theorems in [GlobSpec]; the
      documented grammar of its patterns in [PatternSpec];
    - net/http: pattern.go, mapping.go, routing_tree.go, routing_index.go and the ServeMux of
      server.go in [Mux], theorems in [MuxSpec]; the request line, the checks of the
      connection and serverHandler in [HttpServe];
    - encoding/json: scanner.go in [Scanner], encode.go, indent.go and tables.go in
      [JsonEncode], decode.go, fold.go and utf16 in [JsonDecode] and [Fold], stream.go in
      [JsonStream]; the grammar they are measured against in [JsonGrammar]; theorems in
      [ScannerSpec], [JsonDecodeSpec], [JsonStreamSpec], [JsonTyping], [JsonEncodeSpec]
      and [IndentSpec].

    Shared: this file (errors, results, loops, strings, tactics), [GoFloat] (the interface
    of the arithmetic and its instance at the reals), [RealLib] (derivatives).

    ** How they interact, and how that is modelled

    A request is its request line, its Host headers and its body ([HttpServe.serve_line]).
    The line is cut and its target parsed ([Url]), the path is cleaned ([PathClean]) and
    looked up in the tree of the mux ([Mux]), whose patterns are those of routes.
    [Handlers.routes] says the same on the segments of the path; [mux_refines_routes] shows
    that the mux implements it, so that the theorems about the handlers are stated on it.
    The handler decodes its body (class [BodyDecoder]), asks the store (functions on a file system
    whose calls may fail), calls [Cycle] or [Kinematics], which call [Law], and replies
    with a status and a JSON value.  The numeric packages are written once against the
    class [GoFloat]: at the reals the theorems say what the formulas mean, at binary64
    ([Float64]) what the program computes to the bit.  The store reads and writes records
    through the class [RecordCodec] with the laws [CodecLaws]; [JsonRecords] implements
    codec and body decoder with the modelled encoding/json, and [JsonTyping] proves the
    laws.  The lists of the store call the modelled [filepath.Glob] on the path of the data
    directory, which with the rest of the file system is the class [DataDir].  A Go
    function that returns an error or panics is a [result]; an operation on files is a function [FS -> result * FS], the failures of the calls being part of the
    state; mutation of a struct is a new record.  Integers are Z with wrap-around written
    where the code can wrap; strings are Go strings, byte sequences.

    ** What the theorems show

    - Motion: velocity, acceleration and jerk are the successive derivatives of the
      displacement; the stroke is monotone from 0 to h; closed-form peaks are attained
      bounds; a built turn is complete, smooth where it should be, and located
      everywhere; on binary64 the grids start and end exactly and stay in range.
    - Service: every request is answered once, with a body that agrees with its status, a
      500 only for a list in a directory whose path is a malformed pattern; the answers of
      /lift and /cycle-curve branch by branch, the body empty exactly where a number of it is
      not finite; what a registration stores is served back until a record of the same name
      is registered; only registrations write.
    - Routing: the mux implements the routes; the router finds the most specific pattern of
      all that take a request, and registration rejects exactly the patterns that conflict;
      a request written with escaped segments and an encoded form reaches its handler with
      exactly those; Clean is its reference; queries are read back as they were encoded.
    - Files: [Match] of path/filepath reads the patterns of its documented grammar, and no
      others, and matches what they mean, the first fit of a chunk being enough; [Glob] of a
      list's pattern gives the files of the records.
    - Store: saves are atomic, also under failing calls, partial writes and crashes; under
      concurrency the store is linearizable, never shows a torn record, and no request is
      locked out; lookups and lists are exact; names are safe.
    - encoding/json: the scanner accepts the grammar of RFC 8259 and nothing else;
      [Unmarshal] and [Decode] do what the walk of the syntax tree does, never panic and
      keep the type of their target; a body may arrive in any pieces, the last with or without
      the end of the body, and may break off; what is encoded and
      indented is the pretty-printing of the same tree, and strings are read back.
    - Numbers: ParseFloat of a decimal text is the nearest float64, on each of its paths;
      the text of a float64 has the fewest digits that round to it and is read back as it.
      With that a record survives the disk bit for bit, and what is posted is served.
    - Library: [Atoi], [ParseInt], [AppendInt], [TrimSpace], [DecodeRune] against their
      references.

    ** Bounds and fuel

    Loops that are not structural carry fuel.  String loops take the length of the
    string, every turn consuming a byte.  The binary searches of [Fold] take the length
    of their table plus one, [foldRune] eight turns for orbits of four.  [formatBits]
    takes 65 turns, the size of its buffer.  The decoder takes 3 + 2 n on n bytes;
    [Unmarshal_refines] shows that this suffices for every text.  Nesting is limited to
    10000 as in the source.  The search of the routing tree takes the length of the path
    plus one, every level consuming a byte ([match_answers]); [clean_loop], [parse_segments]
    and [parseQuery_loop] the length of their text ([Clean_refines], [parse_segments_shape],
    [parseQuery_loop_fold]).  The loops of [Match] take the length of the pattern, the chunk
    or the class plus one ([read_pattern_fuel], [read_chunk_fuel], [read_ranges_fuel]), and
    Glob the 10000 levels of the source.  In ParseFloat the loops that scale a decimal take 400 turns
    ([scale_down_big], [scale_up_big] show that these suffice), those of the hexadecimal path 64, the
    width of the mantissa.  In AppendFloat the trimming of digits takes 12 turns for numbers
    below 10^9 ([trim_loop_enough]), the writing of digit pairs 12 for 9 digits
    ([fill_pairs_spec]), of high digits 10 ([high_digits_spec]), and the removal of zeros
    32, the size of the buffer ([trim_end_last]).

    ** Not modelled, and why

    - the rest of net/http: headers other than Host, the framing of bodies, connections and
      timeouts, the body of a redirect, the texts of pattern conflicts; of net/url relative
      references; the listener, signals, flags and logging.  I/O and protocol outside the
      service's code.
    - regexp and sort: only the one character class and the sort of strings that are used,
      where they are used.  In [Store] a file of the data directory is known by its base name,
      whatever the directory's path; only the lists depend on the path, which
      [filepath.Glob] takes for a pattern: [lists_exact] is about a path without magic
      characters and says what can happen with them ([bad_directory] and [magic_directory]
      are examples).  What the system answers to Lstat, and to Readdirnames outside the data
      directory, is a parameter that does not change with the requests.
    - strconv beyond float64: the 32-bit paths, a fixed precision, the formats b and x, and
      Quote.  ParseFloat's theorem is about decimal texts of at most 19 significant digits
      with an exponent of at most five; longer texts, hexadecimal ones and underscores are
      modelled, without a theorem on their value.  The handlers and the codec are written
      against the interfaces [GoStrconv] and [FloatText]; [Strconv64] and [FloatText64] are
      the library's, and [FloatText64_laws] shows that printing a float64 never panics.
    - encoding/json beyond what the service's types reach: reflection itself ([typeFields]
      is given as the field list of each type), Unmarshaler and Marshaler methods,
      interface values, arrays, byte slices, the string tag option, Token.
    - %g and %q inside error messages stay unformatted fragments ([frag]).
    - Fused multiply-add: the service is built for amd64, which has none in Go.
    - The compiler, the runtime and the rest of the tool chain: code that builds the
      service.  Tests, Dockerfile and PROMPT.txt hold no logic of it. *)
From Stdlib Require Import ZArith Lia String Bool List.
Import ListNotations.

Declare Scope go_scope.
Delimit Scope go_scope with go.

(** * Errors *)

(** The operating system's error numbers a file operation can report. *)
Inductive errno :=
  ENOENT | EACCES | EIO | ENOSPC | ENAMETOOLONG | EISDIR | ENOTDIR | EROFS.

(** The sentinel errors the code compares with [errors.Is], and the system's. *)
Inductive sentinel :=
| ErrUnknownLaw        (* law.ErrUnknownLaw *)
| ErrNotFound          (* store.ErrNotFound *)
| ErrNotExist          (* os.ErrNotExist *)
| Errno (e : errno).   (* syscall.Errno *)

(** [a] counts as [b] for [errors.Is]: they are the same error, or [a] is the error
    number ENOENT, whose [Is] method accepts os.ErrNotExist. *)
Definition sentinel_Is (a b : sentinel) : bool :=
  match a, b with
  | ErrUnknownLaw, ErrUnknownLaw => true
  | ErrNotFound, ErrNotFound => true
  | ErrNotExist, ErrNotExist => true
  | Errno ENOENT, ErrNotExist => true
  | Errno ENOENT, Errno ENOENT => true
  | Errno EACCES, Errno EACCES => true
  | Errno EIO, Errno EIO => true
  | Errno ENOSPC, Errno ENOSPC => true
  | Errno ENAMETOOLONG, Errno ENAMETOOLONG => true
  | Errno EISDIR, Errno EISDIR => true
  | Errno ENOTDIR, Errno ENOTDIR => true
  | Errno EROFS, Errno EROFS => true
  | _, _ => false
  end.

(** One piece of a formatted message: literal text or a verb with its operand.
    [FmtW] is the place of the wrapped error ([%w]). *)
Inductive frag (F : Type) :=
| Lit (s : string)
| FmtG (x : F)        (* %g of a float64 *)
| Fmt0f (x : F)       (* %.0f of a float64 *)
| FmtQ (s : string)   (* %q of a string *)
| FmtS (s : string)   (* %s of a string *)
| FmtD (z : Z)        (* %d of an int *)
| FmtW.               (* %w *)
Arguments Lit {F} s.
Arguments FmtG {F} x.
Arguments Fmt0f {F} x.
Arguments FmtQ {F} s.
Arguments FmtS {F} s.
Arguments FmtD {F} z.
Arguments FmtW {F}.

(** A Go [error]: a sentinel, [errors.New] of a text, or [fmt.Errorf] of a format,
    without and with a wrapped error. *)
Inductive error (F : Type) :=
| Sentinel (s : sentinel)
| ErrNew (msg : string)
| Errorf (msg : list (frag F))
| ErrorfW (msg : list (frag F)) (wrapped : error F).
Arguments Sentinel {F} s.
Arguments ErrNew {F} msg.
Arguments Errorf {F} msg.
Arguments ErrorfW {F} msg wrapped.

(** [errors.Is(e, s)] for a sentinel [s]: the chain of wrapped errors meets [s]. *)
Fixpoint errors_Is {F} (e : error F) (s : sentinel) : bool :=
  match e with
  | Sentinel s' => sentinel_Is s' s
  | ErrNew _ => false
  | Errorf _ => false
  | ErrorfW _ e' => errors_Is e' s
  end.

(** * Results *)

(** A Go function returning [(A, error)], or panicking. *)
Inductive result (F A : Type) :=
| Ok (a : A)
| Err (e : error F)
| Panic.
Arguments Ok {F A} a.
Arguments Err {F A} e.
Arguments Panic {F A}.

Definition bind {F A B} (m : result F A) (k : A -> result F B) : result F B :=
  match m with
  | Ok a => k a
  | Err e => Err e
  | Panic => Panic
  end.

Notation "x <- m ;; k" := (bind m (fun x => k))
  (at level 60, m at next level, right associativity) : go_scope.

(** [check err; k] is Go's [if err := ...; err != nil { return err }]. *)
Notation "'check' m ;; k" := (bind m (fun _ => k))
  (at level 60, m at next level, right associativity) : go_scope.

(** Indexing [s[0]]: out of range panics. *)
Definition from_option {F A} (o : option A) : result F A :=
  match o with
  | Some a => Ok a
  | None => Panic
  end.

Fixpoint last_option {A} (l : list A) : option A :=
  match l with
  | [] => None
  | [x] => Some x
  | _ :: l' => last_option l'
  end.

(** A loop that appends one value per element and returns at the first error. *)
Fixpoint mapM {F A B} (f : A -> result F B) (l : list A) : result F (list B) :=
  match l with
  | [] => Ok []
  | x :: l' => bind (f x) (fun y => bind (mapM f l') (fun ys => Ok (y :: ys)))
  end.

(** The indices [0 .. n-1] of a loop [for i := 0; i < n; i++]. *)
Definition range (n : Z) : list Z := map Z.of_nat (seq 0 (Z.to_nat n)).

Definition is_ok {F A} (r : result F A) : bool :=
  match r with Ok _ => true | _ => false end.

(** * Shared lemmas *)

Lemma bind_Ok_inv {F A B} (m : result F A) (k : A -> result F B) b :
  bind m k = Ok b -> exists a, m = Ok a /\ k a = Ok b.
Proof. destruct m; simpl; intros H; try discriminate. eauto. Qed.

Section ResultLemmas.
Context {F A B : Type}.

Lemma mapM_Ok_iff (f : A -> result F B) l ys :
  mapM f l = Ok ys <-> Forall2 (fun x y => f x = Ok y) l ys.
Proof.
  revert ys; induction l as [|x l IH]; intros ys; simpl; split; intros H.
  - inversion H. constructor.
  - inversion H; reflexivity.
  - apply bind_Ok_inv in H as (y & Hy & H).
    apply bind_Ok_inv in H as (zs & Hzs & H).
    inversion H; subst. constructor; [assumption|]. now apply IH.
  - inversion H as [|? y ? zs Hy Hzs]; subst.
    rewrite Hy. simpl. apply IH in Hzs. now rewrite Hzs.
Qed.

Lemma mapM_length (f : A -> result F B) l ys :
  mapM f l = Ok ys -> length ys = length l.
Proof. intros H. apply mapM_Ok_iff in H. symmetry. eapply Forall2_length; eassumption. Qed.

Lemma mapM_nth_error (f : A -> result F B) l ys i x :
  mapM f l = Ok ys -> nth_error l i = Some x ->
  exists y, nth_error ys i = Some y /\ f x = Ok y.
Proof.
  intros H. apply mapM_Ok_iff in H. revert i.
  induction H as [|a b l ys Hab H IH]; intros [|i] Hi; simpl in *; try discriminate.
  - inversion Hi; subst. eauto.
  - eauto.
Qed.

Lemma mapM_total (f : A -> result F B) (g : A -> B) l :
  (forall x, In x l -> f x = Ok (g x)) -> mapM f l = Ok (map g l).
Proof.
  induction l as [|x l IH]; intros H; simpl; [reflexivity|].
  rewrite (H x (or_introl eq_refl)). simpl. rewrite IH; [reflexivity|].
  intros y Hy. apply H. now right.
Qed.

(** A loop whose every step succeeds with a property succeeds with it. *)
Lemma mapM_exists (f : A -> result F B) (P : A -> B -> Prop) l :
  (forall x, In x l -> exists y, f x = Ok y /\ P x y) ->
  exists ys, mapM f l = Ok ys /\ Forall2 P l ys.
Proof.
  induction l as [|x l IH]; intros H; simpl; [eauto|].
  destruct (H x (or_introl eq_refl)) as (y & Hy & Py).
  destruct IH as (ys & Hys & Pys); [intros z Hz; apply H; now right|].
  exists (y :: ys). rewrite Hy. simpl. rewrite Hys. auto.
Qed.
End ResultLemmas.

Lemma Forall2_map_eq {A B C} (f : A -> C) (g : B -> C) l ys :
  Forall2 (fun x y => g y = f x) l ys -> map g ys = map f l.
Proof. induction 1; simpl; congruence. Qed.

Lemma Forall2_Forall_r {A B} (P : A -> B -> Prop) (Q : B -> Prop) l ys :
  (forall x y, P x y -> Q y) -> Forall2 P l ys -> Forall Q ys.
Proof. intros H. induction 1; constructor; eauto. Qed.


Lemma range_length n : length (range n) = Z.to_nat n.
Proof. unfold range. now rewrite length_map, length_seq. Qed.

Lemma range_nth n i : (0 <= i < n)%Z -> nth_error (range n) (Z.to_nat i) = Some i.
Proof.
  intros Hi. unfold range. rewrite nth_error_map, nth_error_seq.
  replace (Z.to_nat i <? Z.to_nat n)%nat with true
    by (symmetry; apply Nat.ltb_lt; lia).
  simpl. f_equal. lia.
Qed.

Lemma range_In n i : In i (range n) <-> (0 <= i < n)%Z.
Proof.
  unfold range. rewrite in_map_iff. split.
  - intros (k & <- & Hk). apply in_seq in Hk. lia.
  - intros Hi. exists (Z.to_nat i). rewrite in_seq. lia.
Qed.

Lemma last_option_app {A} (l : list A) x : last_option (l ++ [x]) = Some x.
Proof.
  induction l as [|y l IH]; [reflexivity|].
  simpl. destruct (l ++ [x]) eqn:E; [now destruct l|assumption].
Qed.

Lemma last_option_In {A} (l : list A) x : last_option l = Some x -> In x l.
Proof.
  induction l as [|y [|z l] IH]; simpl; intros H; try discriminate.
  - inversion H. now left.
  - right. now apply IH.
Qed.

Lemma last_option_cons {A} (a : A) l : exists x, last_option (a :: l) = Some x.
Proof.
  revert a. induction l as [|b l IH]; intros a; [exists a; reflexivity|].
  destruct (IH b) as [x Hx]. exists x. exact Hx.
Qed.

Lemma last_option_nth {A} (l : list A) x :
  nth_error l (length l - 1) = Some x -> last_option l = Some x.
Proof.
  induction l as [|y [|z l] IH]; simpl; intros H; try assumption.
  apply IH. simpl. now rewrite Nat.sub_0_r.
Qed.

(** ** Strings *)

Section Strings.
Local Open Scope string_scope.

Lemma app_char_inj s1 s2 c1 c2 :
  s1 ++ String c1 "" = s2 ++ String c2 "" -> s1 = s2 /\ c1 = c2.
Proof.
  revert s2. induction s1 as [|a s1 IH]; intros [|b s2]; cbn; intros E.
  - injection E as ->. auto.
  - injection E as -> E. destruct s2; discriminate E.
  - injection E as -> E. destruct s1; discriminate E.
  - injection E as -> E. destruct (IH _ E) as [-> ->]. auto.
Qed.

Lemma sapp_assoc (a b c : string) : (a ++ b) ++ c = a ++ (b ++ c).
Proof. induction a as [|x a IH]; cbn; [reflexivity|now rewrite IH]. Qed.

Lemma sapp_nil (a : string) : a ++ "" = a.
Proof. induction a as [|x a IH]; cbn; [reflexivity|now rewrite IH]. Qed.

Lemma sapp_inj_r (a b t : string) : a ++ t = b ++ t -> a = b.
Proof.
  revert a b. induction t as [|c t IH]; intros a b E.
  { rewrite !sapp_nil in E. exact E. }
  change (String c t) with (String c "" ++ t) in E. rewrite <- !sapp_assoc in E.
  apply IH, app_char_inj in E. tauto.
Qed.

Lemma sapp_inj_l (p a b : string) : p ++ a = p ++ b -> a = b.
Proof. induction p as [|c p IH]; cbn; [auto|]. intros E. injection E as E. auto. Qed.

Lemma sapp_length (a b : string) :
  String.length (a ++ b) = (String.length a + String.length b)%nat.
Proof. induction a as [|c a IH]; cbn; [reflexivity|now rewrite IH]. Qed.

Lemma prefix_iff p s : String.prefix p s = true <-> exists t, s = p ++ t.
Proof.
  revert s. induction p as [|c p IH]; intros s; cbn.
  - split; [intros _; now exists s|]. destruct s; reflexivity.
  - destruct s as [|d s]; [split; [discriminate|intros (t & E); discriminate E]|].
    change (String.prefix (String c p) (String d s))
      with (if Ascii.ascii_dec c d then String.prefix p s else false).
    destruct (Ascii.ascii_dec c d) as [->|Hne].
    + rewrite IH. split; intros (t & E); exists t; [now rewrite E|now injection E].
    + split; [discriminate|]. intros (t & E). injection E as E _. now subst.
Qed.

Lemma substring_prefix (a b : string) : String.substring 0 (String.length a) (a ++ b) = a.
Proof. induction a as [|c a IH]; cbn; [now destruct b|now rewrite IH]. Qed.

Lemma substring_0 n s : (String.length s <= n)%nat -> String.substring 0 n s = s.
Proof.
  revert n. induction s as [|c s IH]; intros [|n]; cbn; intros Hn; try reflexivity; try lia.
  f_equal. apply IH. lia.
Qed.

Lemma substring_app u v : String.substring (String.length u) (String.length v) (u ++ v) = v.
Proof.
  induction u as [|c u IH]; cbn; [now apply substring_0|]. exact IH.
Qed.

(** Every string splits at an offset. *)
Lemma string_split k s :
  (k <= String.length s)%nat -> exists u v, s = u ++ v /\ String.length u = k.
Proof.
  revert s. induction k as [|k IH]; intros s Hk; [now exists "", s|].
  destruct s as [|c s]; cbn in Hk; [lia|].
  destruct (IH s) as (u & v & -> & Hu); [lia|].
  exists (String c u), v. cbn. auto.
Qed.

Lemma app_prefix_le p t u v :
  p ++ t = u ++ v -> (String.length p <= String.length u)%nat -> exists n, u = p ++ n.
Proof.
  revert u. induction p as [|c p IH]; intros u E Hl; [now exists u|].
  destruct u as [|d u]; cbn in Hl; [lia|]. injection E as -> E.
  destruct (IH u E) as (n & ->); [lia|]. now exists n.
Qed.
End Strings.

(** * Bit operations as arithmetic *)

Section Bits.
Local Open Scope Z_scope.

Lemma lor_add a b k : 0 <= k -> 0 <= b < 2 ^ k -> Z.lor (a * 2 ^ k) b = a * 2 ^ k + b.
Proof.
  intros Hk Hb.
  assert (Hd : Z.land (a * 2 ^ k) b = 0).
  { apply Z.bits_inj'. intros n Hn. rewrite Z.land_spec, Z.bits_0.
    destruct (Z.ltb_spec n k).
    - rewrite Z.mul_pow2_bits_low by assumption. reflexivity.
    - replace b with (b mod 2 ^ k) by (apply Z.mod_small; exact Hb).
      rewrite Z.mod_pow2_bits_high by lia. apply andb_false_r. }
  rewrite <- Z.lxor_lor by exact Hd. symmetry. apply Z.add_nocarry_lxor. exact Hd.
Qed.

Lemma land_mask c k : 0 <= k -> Z.land c (2 ^ k - 1) = c mod 2 ^ k.
Proof. intros Hk. rewrite <- Z.land_ones by exact Hk. now rewrite Z.ones_equiv. Qed.

End Bits.

(** * Automation *)

(** Split the innermost boolean test of the goal. *)
Ltac case_if :=
  match goal with
  | |- context [if ?b then _ else _] =>
      lazymatch b with context [if _ then _ else _] => fail | _ => destruct b eqn:? end
  end.

Ltac case_if_in H :=
  match type of H with
  | context [if ?b then _ else _] =>
      lazymatch b with context [if _ then _ else _] => fail | _ => destruct b eqn:? end
  end.

(** Turn a successful chain of binds into its steps. *)
Ltac inv_binds :=
  repeat match goal with
  | H : bind _ _ = Ok _ |- _ =>
      let a := fresh "a" in let Ha := fresh "Ha" in
      apply bind_Ok_inv in H as (a & Ha & H)
  | H : Ok _ = Ok _ |- _ => injection H as H; try subst
  | H : Err _ = Ok _ |- _ => discriminate H
  | H : Panic = Ok _ |- _ => discriminate H
  end.

Create HintDb cam discriminated.
Create HintDb replies discriminated.
Create Rewrite HintDb cam.
#[export] Hint Resolve range_In last_option_In : cam.
#[export] Hint Rewrite range_length : cam.
