(* ===== verification/GoFloat.v ===== *)
(** Go's [float64] and the package [math] as the code uses them.

    - [const]: untyped constants, evaluated exactly as the compiler does;
    - [GoFloat]: the interface of operations every numeric definition is
      written against;
    - [Ideal]: the instance at the reals, exact arithmetic;
    - the instance at binary64 is in [Float64]. *)
From Stdlib Require Import ZArith Reals Lra Lia Bool.
From S2P Require Import Prelude.

(** Untyped numeric constants (Go specification, "Constants"). *)
Inductive const :=
| CInt (z : Z)
| CPi                         (* math.Pi *)
| CNeg (a : const)
| CAdd (a b : const)
| CSub (a b : const)
| CMul (a b : const)
| CDiv (a b : const).

Declare Scope const_scope.
Delimit Scope const_scope with const.
Bind Scope const_scope with const.

Definition const_of_Z (z : Z) : const := CInt z.
Definition const_to_Z (c : const) : option Z :=
  match c with CInt z => Some z | _ => None end.
Number Notation const const_of_Z const_to_Z : const_scope.
Infix "+" := CAdd : const_scope.
Infix "-" := CSub : const_scope.
Infix "*" := CMul : const_scope.
Infix "/" := CDiv : const_scope.
Notation "- a" := (CNeg a) : const_scope.
Notation "'math.Pi'" := CPi : const_scope.

(** The operations on [float64] the program uses. *)
Class GoFloat (F : Type) := {
  of_const : const -> F;        (* conversion of a constant to float64 *)
  of_int : Z -> F;              (* float64(i) *)
  fadd : F -> F -> F;
  fsub : F -> F -> F;
  fmul : F -> F -> F;
  fdiv : F -> F -> F;
  fneg : F -> F;
  fltb : F -> F -> bool;
  fleb : F -> F -> bool;
  feqb : F -> F -> bool;
  IsNaN : F -> bool;
  IsInf0 : F -> bool;           (* math.IsInf(x, 0) *)
  Abs : F -> F;
  Max : F -> F -> F;
  Sin : F -> F;
  Cos : F -> F;
}.

Notation "'K' c" := (of_const c%const) (at level 9, c at level 9) : go_scope.
Infix "+" := fadd : go_scope.
Infix "-" := fsub : go_scope.
Infix "*" := fmul : go_scope.
Infix "/" := fdiv : go_scope.
Notation "- x" := (fneg x) : go_scope.
Infix "<?" := fltb : go_scope.
Infix "<=?" := fleb : go_scope.
Notation "x >? y" := (fltb y x) (at level 70, no associativity) : go_scope.
Notation "x >=? y" := (fleb y x) (at level 70, no associativity) : go_scope.
Infix "=?" := feqb : go_scope.

(** * The ideal instance: exact real arithmetic *)

Fixpoint constR (c : const) : R :=
  match c with
  | CInt z => IZR z
  | CPi => PI
  | CNeg a => - constR a
  | CAdd a b => constR a + constR b
  | CSub a b => constR a - constR b
  | CMul a b => constR a * constR b
  | CDiv a b => constR a / constR b
  end.

Definition Rltb (x y : R) : bool := if Rlt_dec x y then true else false.
Definition Rleb (x y : R) : bool := if Rle_dec x y then true else false.
Definition Reqb (x y : R) : bool := if Req_dec_T x y then true else false.

#[export] Instance Ideal : GoFloat R := {
  of_const := constR;
  of_int := IZR;
  fadd := Rplus;
  fsub := Rminus;
  fmul := Rmult;
  fdiv := Rdiv;
  fneg := Ropp;
  fltb := Rltb;
  fleb := Rleb;
  feqb := Reqb;
  IsNaN := fun _ => false;
  IsInf0 := fun _ => false;
  Abs := Rabs;
  Max := Rmax;
  Sin := sin;
  Cos := cos;
}.

Lemma Rltb_spec x y : reflect (x < y)%R (Rltb x y).
Proof. unfold Rltb. destruct (Rlt_dec x y); now constructor. Qed.
Lemma Rleb_spec x y : reflect (x <= y)%R (Rleb x y).
Proof. unfold Rleb. destruct (Rle_dec x y); now constructor. Qed.
Lemma Reqb_spec x y : reflect (x = y) (Reqb x y).
Proof. unfold Reqb. destruct (Req_dec_T x y); now constructor. Qed.

Lemma Rltb_true x y : (x < y)%R -> Rltb x y = true.
Proof. now destruct (Rltb_spec x y). Qed.
Lemma Rltb_false x y : (y <= x)%R -> Rltb x y = false.
Proof. destruct (Rltb_spec x y); [lra|reflexivity]. Qed.
Lemma Rleb_true x y : (x <= y)%R -> Rleb x y = true.
Proof. now destruct (Rleb_spec x y). Qed.
Lemma Rleb_false x y : (y < x)%R -> Rleb x y = false.
Proof. destruct (Rleb_spec x y); [lra|reflexivity]. Qed.
Lemma Reqb_true x y : x = y -> Reqb x y = true.
Proof. now destruct (Reqb_spec x y). Qed.
Lemma Reqb_false x y : x <> y -> Reqb x y = false.
Proof. now destruct (Reqb_spec x y). Qed.
Lemma Rltb_iff x y : Rltb x y = true <-> (x < y)%R.
Proof. destruct (Rltb_spec x y); split; intros; try lra; congruence. Qed.
Lemma Rleb_iff x y : Rleb x y = true <-> (x <= y)%R.
Proof. destruct (Rleb_spec x y); split; intros; try lra; congruence. Qed.

(** Unfold the ideal instance to the operations of [R]. *)
Ltac ideal := cbn [of_const of_int fadd fsub fmul fdiv fneg fltb fleb feqb
                   IsNaN IsInf0 Abs Max Sin Cos Ideal constR const_of_Z orb andb negb] in *.

(** Decide every real comparison of the goal by [lra], splitting where it cannot. *)
Ltac rtest :=
  repeat match goal with
  | |- context [Rltb ?x ?y] =>
      first [ rewrite (Rltb_true x y) by lra | rewrite (Rltb_false x y) by lra
            | destruct (Rltb_spec x y) ]
  | |- context [Rleb ?x ?y] =>
      first [ rewrite (Rleb_true x y) by lra | rewrite (Rleb_false x y) by lra
            | destruct (Rleb_spec x y) ]
  | |- context [Reqb ?x ?y] =>
      first [ rewrite (Reqb_true x y) by lra | rewrite (Reqb_false x y) by lra
            | destruct (Reqb_spec x y) ]
  end; cbn [orb andb negb].
