(* ===== verification/Float64.v ===== *)
(** The binary64 instance of [GoFloat], bit for bit.

    Arithmetic is the kernel's specification of IEEE 754 ([SpecFloat]) at
    precision 53 and maximal exponent 1024, rounding to nearest even, without
    fused multiply-add (GOARCH=amd64, the architecture the Dockerfile builds
    for).  [Sin], [Cos], [Max], [Abs], [IsNaN] and [IsInf] are the functions of
    the Go tool chain's package [math]. *)
From Stdlib Require Import ZArith QArith Qreduction SpecFloat Lia Bool List.
From S2P Require Import Prelude GoFloat.
Import ListNotations.
Local Open Scope Z_scope.

Abbreviation float64 := spec_float.

(** * Constants *)

(** math.Pi, the decimal literal of const.go. *)
Definition Pi : Q :=
  314159265358979323846264338327950288419716939937510582097494459
  # (10 ^ 62)%positive.

Fixpoint constQ (c : const) : Q :=
  match c with
  | CInt z => inject_Z z
  | CPi => Pi
  | CNeg a => - constQ a
  | CAdd a b => constQ a + constQ b
  | CSub a b => constQ a - constQ b
  | CMul a b => constQ a * constQ b
  | CDiv a b => constQ a / constQ b
  end%Q.

(** Nearest binary64 of a rational, ties to even. *)
Definition round_Q (q : Q) : float64 :=
  match Qnum q with
  | Z0 => S754_zero false
  | Zpos n =>
      let '(m, e, l) := SFdiv_core_binary 53 1024 (Zpos n) 0 (Zpos (Qden q)) 0 in
      binary_round_aux 53 1024 false m e l
  | Zneg n =>
      let '(m, e, l) := SFdiv_core_binary 53 1024 (Zpos n) 0 (Zpos (Qden q)) 0 in
      binary_round_aux 53 1024 true m e l
  end.

(** float64(i) for an integer. *)
Definition of_Z (z : Z) : float64 := binary_normalize 53 1024 z 0 false.

(** * Arithmetic *)

Definition add : float64 -> float64 -> float64 := SFadd 53 1024.
Definition sub : float64 -> float64 -> float64 := SFsub 53 1024.
Definition mul : float64 -> float64 -> float64 := SFmul 53 1024.
Definition div : float64 -> float64 -> float64 := SFdiv 53 1024.

(** Every operation below keeps this invariant: a canonical binary64. *)
Definition valid (x : float64) : bool := valid_binary 53 1024 x.

Definition finite (x : float64) : bool :=
  match x with S754_zero _ | S754_finite _ _ _ => true | _ => false end.

(** * Package math *)

Definition lit (c : const) : float64 := round_Q (constQ c).

Definition NaN : float64 := S754_nan.

Definition Inf (sign : Z) : float64 := S754_infinity (negb (0 <=? sign)).

(** 0x1p1023 * (1 + (1 - 0x1p-52)) *)
Definition MaxFloat64 : float64 := S754_finite false 9007199254740991 971.

Definition is_nan (f : float64) : bool := negb (SFeqb f f).

Definition is_inf (f : float64) (sign : Z) : bool :=
  ((0 <=? sign) && SFltb MaxFloat64 f) || ((sign <=? 0) && SFltb f (SFopp MaxFloat64)).

Definition Signbit (f : float64) : bool :=
  match f with
  | S754_zero s | S754_infinity s | S754_finite s _ _ => s
  | S754_nan => false
  end.

Definition abs : float64 -> float64 := SFabs.

Definition max (x y : float64) : float64 :=
  if is_inf x 1 || is_inf y 1 then Inf 1
  else if is_nan x || is_nan y then NaN
  else if SFeqb x (S754_zero false) && SFeqb x y then (if Signbit x then y else x)
  else if SFltb y x then x else y.

(** ** Bit patterns *)

Definition mask64 : Z := 2 ^ 64 - 1.
Definition u64 (z : Z) : Z := Z.land z mask64.
Definition shift : Z := 52.
Definition bias : Z := 1023.
Definition expmask : Z := 0x7FF.

Definition Float64bits (f : float64) : Z :=
  match f with
  | S754_zero s => Z.shiftl (Z.b2z s) 63
  | S754_infinity s => Z.lor (Z.shiftl (Z.b2z s) 63) 0x7FF0000000000000
  | S754_nan => 0x7FF8000000000001
  | S754_finite s m e =>
      if Z.testbit (Zpos m) 52
      then Z.lor (Z.shiftl (Z.b2z s) 63)
                 (Z.lor (Z.shiftl (e + 1075) 52) (Zpos m - 2 ^ 52))
      else Z.lor (Z.shiftl (Z.b2z s) 63) (Zpos m)
  end.

Definition Float64frombits (b : Z) : float64 :=
  let s := Z.testbit b 63 in
  let e := Z.land (Z.shiftr b 52) expmask in
  let m := Z.land b (2 ^ 52 - 1) in
  if e =? 0 then
    match m with Zpos p => S754_finite s p (-1074) | _ => S754_zero s end
  else if e =? expmask then (if m =? 0 then S754_infinity s else S754_nan)
  else match m + 2 ^ 52 with Zpos p => S754_finite s p (e - 1075) | _ => S754_nan end.

(** uint64(x): truncation toward zero (x in range). *)
Definition to_uint64 (x : float64) : Z :=
  match x with
  | S754_finite false m e =>
      u64 (if 0 <=? e then Z.shiftl (Zpos m) e else Z.shiftr (Zpos m) (- e))
  | _ => 0
  end.

(** ** Payne-Hanek reduction *)

Definition reduceThreshold : float64 := lit (536870912)%const.

Definition mPi4 : list Z := [
  0x0000000000000001; 0x45f306dc9c882a53; 0xf84eafa3ea69bb81; 0xb6c52b3278872083;
  0xfca2c757bd778ac3; 0x6e48dc74849ba5c0; 0x0c925dd413a32439; 0xfc3bd63962534e7d;
  0xd1046bea5d768909; 0xd338e04d68befc82; 0x7323ac7306a673e9; 0x3908bf177bf25076;
  0x3ff12fffbc0b301f; 0xde5e2316b414da3e; 0xda6cfd9e4f96136e; 0x9e8c7ecd3cbfd45a;
  0xea4f758fd7cbe2f6; 0x7a0e73ef14a525d4; 0xd7f6bf623f1aba10; 0xac06608df8f6d757].

(** bits.Mul64 and bits.Add64: double-width product and sum with carry. *)
Definition Mul64 (x y : Z) : Z * Z := (Z.shiftr (x * y) 64, u64 (x * y)).
Definition Add64 (x y carry : Z) : Z * Z :=
  (u64 (x + y + carry), Z.shiftr (x + y + carry) 64).

(** bits.LeadingZeros64 *)
Definition LeadingZeros64 (x : Z) : Z := if x =? 0 then 64 else 63 - Z.log2 x.

Definition trigReduce (x : float64) : Z * float64 :=
  let PI4 := lit (math.Pi / 4)%const in
  if SFltb x PI4 then (0, x)
  else
    let ix := Float64bits x in
    let exp := Z.land (Z.shiftr ix shift) expmask - bias - shift in
    let ix := Z.ldiff ix (Z.shiftl expmask shift) in
    let ix := Z.lor ix (Z.shiftl 1 shift) in
    let digit := Z.to_nat ((exp + 61) / 64) in
    let bitshift := (exp + 61) mod 64 in
    let d i := nth i mPi4 0 in
    let z0 := Z.lor (u64 (Z.shiftl (d digit) bitshift))
                    (Z.shiftr (d (1 + digit)%nat) (64 - bitshift)) in
    let z1 := Z.lor (u64 (Z.shiftl (d (1 + digit)%nat) bitshift))
                    (Z.shiftr (d (2 + digit)%nat) (64 - bitshift)) in
    let z2 := Z.lor (u64 (Z.shiftl (d (2 + digit)%nat) bitshift))
                    (Z.shiftr (d (3 + digit)%nat) (64 - bitshift)) in
    let '(z2hi, _) := Mul64 z2 ix in
    let '(z1hi, z1lo) := Mul64 z1 ix in
    let z0lo := u64 (z0 * ix) in
    let '(lo, c) := Add64 z1lo z2hi 0 in
    let '(hi, _) := Add64 z0lo z1hi c in
    let j := Z.shiftr hi 61 in
    let hi := Z.lor (u64 (Z.shiftl hi 3)) (Z.shiftr lo 61) in
    let lz := LeadingZeros64 hi in
    let e := bias - (lz + 1) in
    let hi := Z.lor (u64 (Z.shiftl hi (lz + 1))) (Z.shiftr lo (64 - (lz + 1))) in
    let hi := Z.shiftr hi (64 - shift) in
    let hi := Z.lor hi (u64 (Z.shiftl e shift)) in
    let z := Float64frombits hi in
    let '(j, z) :=
      if Z.land j 1 =? 1 then (Z.land (j + 1) 7, sub z (lit 1%const)) else (j, z) in
    (j, mul z PI4).

(** ** Sine and cosine (Cephes) *)

Abbreviation dec n k := (lit (CDiv (CInt n) (CInt (10 ^ k)))).

Definition sin_coef : list float64 := [
  dec 158962301576546568060 30;
  dec (-250507477628578072866) 28;
  dec 275573136213857245213 26;
  dec (-198412698295895385996) 24;
  dec 833333333332211858878 23;
  dec (-166666666666666307295) 21].

Definition cos_coef : list float64 := [
  dec (-113585365213876817300) 31;
  dec 208757008419747316778 29;
  dec (-275573141792967388112) 27;
  dec 248015872888517045348 25;
  dec (-138888888888730564116) 23;
  dec 416666666666665929218 22].

Definition PI4A : float64 := dec 785398125648498535156 21.
Definition PI4B : float64 := dec 377489470793079817668 28.
Definition PI4C : float64 := dec 269515142907905952645 35.

(** The octant and the reduced argument, shared text of [sin] and [cos]:
    [j] after [j &= 7], and [z]. *)
Definition reduce (x : float64) : Z * float64 :=
  if SFleb reduceThreshold x then trigReduce x
  else
    let j := to_uint64 (mul x (lit (4 / math.Pi)%const)) in
    let y := of_Z j in
    let '(j, y) :=
      if Z.land j 1 =? 1 then (u64 (j + 1), add y (lit 1%const)) else (j, y) in
    let j := Z.land j 7 in
    (j, sub (sub (sub x (mul y PI4A)) (mul y PI4B)) (mul y PI4C)).

(** [(((((c0*zz)+c1)*zz+c2)*zz+c3)*zz+c4)*zz+c5] *)
Definition horner (c : list float64) (zz : float64) : float64 :=
  match c with
  | [] => lit 0%const
  | c0 :: cs => fold_left (fun acc ci => add (mul acc zz) ci) cs c0
  end.

Definition sin_poly (z : float64) : float64 :=
  let zz := mul z z in
  add z (mul (mul z zz) (horner sin_coef zz)).

Definition cos_poly (z : float64) : float64 :=
  let zz := mul z z in
  add (sub (lit 1%const) (mul (lit (1 / 2)%const) zz))
      (mul (mul zz zz) (horner cos_coef zz)).

Definition cos (x : float64) : float64 :=
  if is_nan x || is_inf x 0 then NaN
  else
    let sign := false in
    let x := abs x in
    let '(j, z) := reduce x in
    let '(j, sign) := if 3 <? j then (j - 4, negb sign) else (j, sign) in
    let sign := if 1 <? j then negb sign else sign in
    let y := if (j =? 1) || (j =? 2) then sin_poly z else cos_poly z in
    if sign then SFopp y else y.

Definition sin (x : float64) : float64 :=
  if SFeqb x (S754_zero false) || is_nan x then x
  else if is_inf x 0 then NaN
  else
    let '(x, sign) := if SFltb x (S754_zero false) then (SFopp x, true) else (x, false) in
    let '(j, z) := reduce x in
    let '(j, sign) := if 3 <? j then (j - 4, negb sign) else (j, sign) in
    let y := if (j =? 1) || (j =? 2) then cos_poly z else sin_poly z in
    if sign then SFopp y else y.

#[export] Instance Binary64 : GoFloat float64 := {
  of_const := lit;
  of_int := of_Z;
  fadd := add;
  fsub := sub;
  fmul := mul;
  fdiv := div;
  fneg := SFopp;
  fltb := SFltb;
  fleb := SFleb;
  feqb := SFeqb;
  IsNaN := is_nan;
  IsInf0 := fun x => is_inf x 0;
  Abs := abs;
  Max := max;
  Sin := sin;
  Cos := cos;
}.
