(* ===== verification/Law.v ===== *)
(** Package law (internal/law/law.go): the three dimensionless motion laws.

    [EvalSide] gives displacement and its first three derivatives at a
    dimensionless time; [ClosedPeaks] the closed-form maxima.  The definitions
    are generic in the arithmetic ([GoFloat]); [LawSpec] proves what they mean
    over the reals. *)
From Stdlib Require Import ZArith String Bool List.
From S2P Require Import Prelude GoFloat.
Local Open Scope string_scope.

Definition Cosine : string := "cosine".
Definition Cycloid : string := "cycloid".
Definition Parabolic : string := "parabolic".

Definition ErrUnknownLaw_text : string :=
  "未知规律类型，支持: cosine（余弦）、cycloid（摆线）、parabolic（等加速等减速）".

Definition Known (t : string) : bool :=
  String.eqb t Cosine || String.eqb t Cycloid || String.eqb t Parabolic.

Record Values (F : Type) := mkValues { Y : F; Y1 : F; Y2 : F; Y3 : F }.
Arguments mkValues {F}.
Arguments Y {F} _.
Arguments Y1 {F} _.
Arguments Y2 {F} _.
Arguments Y3 {F} _.

Record Peaks (F : Type) := mkPeaks { V1 : F; V2 : F; V3 : F }.
Arguments mkPeaks {F}.
Arguments V1 {F} _.
Arguments V2 {F} _.
Arguments V3 {F} _.

Section Law.
Context {F : Type} {GF : GoFloat F}.
Local Open Scope go_scope.

Definition evalParabolic (T side : F) : Values F :=
  if (T <? K(1 / 2)) || ((T =? K(1 / 2)) && (side <? K 0)) then
    mkValues (K 2 * T * T) (K 4 * T) (K 4) (K 0)
  else if (T >? K(1 / 2)) || ((T =? K(1 / 2)) && (side >? K 0)) then
    let d := K 1 - T in
    mkValues (K 1 - K 2 * d * d) (K 4 * d) (K(- 4)) (K 0)
  else mkValues (K(1 / 2)) (K 2) (K 4) (K 0).

(** The clamp of [EvalSide]: a NaN passes through. *)
Definition clamp01 (T : F) : F :=
  if T <? K 0 then K 0 else if T >? K 1 then K 1 else T.

Definition EvalSide (tp : string) (T side : F) : result F (Values F) :=
  let T := clamp01 T in
  if String.eqb tp Cosine then
    let p := K(math.Pi) * T in
    Ok (mkValues
          ((K 1 - Cos p) / K 2)
          (K(math.Pi / 2) * Sin p)
          (K(math.Pi * math.Pi / 2) * Cos p)
          (K(- (math.Pi * math.Pi * math.Pi / 2)) * Sin p))
  else if String.eqb tp Cycloid then
    let q := K(2 * math.Pi) * T in
    Ok (mkValues
          (T - Sin q / K(2 * math.Pi))
          (K 1 - Cos q)
          (K(2 * math.Pi) * Sin q)
          (K(4 * math.Pi * math.Pi) * Cos q))
  else if String.eqb tp Parabolic then Ok (evalParabolic T side)
  else Err (Sentinel ErrUnknownLaw).

Definition Eval (tp : string) (T : F) : result F (Values F) := EvalSide tp T (K 0).

Definition ClosedPeaks (tp : string) : result F (Peaks F) :=
  if String.eqb tp Cosine then
    Ok (mkPeaks (K(math.Pi / 2)) (K(math.Pi * math.Pi / 2))
                (K(math.Pi * math.Pi * math.Pi / 2)))
  else if String.eqb tp Cycloid then
    Ok (mkPeaks (K 2) (K(2 * math.Pi)) (K(4 * math.Pi * math.Pi)))
  else if String.eqb tp Parabolic then Ok (mkPeaks (K 2) (K 4) (K 0))
  else Err (Sentinel ErrUnknownLaw).
End Law.

(** * Lemmas that hold in every arithmetic *)

Lemma Known_iff t : Known t = true <-> t = Cosine \/ t = Cycloid \/ t = Parabolic.
Proof.
  unfold Known. rewrite !Bool.orb_true_iff, !String.eqb_eq. tauto.
Qed.

(** Case analysis on a known law. *)
Lemma Known_cases (P : string -> Prop) :
  P Cosine -> P Cycloid -> P Parabolic -> forall t, Known t = true -> P t.
Proof. intros H1 H2 H3 t Ht. apply Known_iff in Ht as [E | [E | E]]; rewrite E; assumption. Qed.

Lemma EvalSide_Known {F} {GF : GoFloat F} tp (T side : F) :
  Known tp = true -> exists w, EvalSide tp T side = Ok w.
Proof. revert tp. apply Known_cases; eexists; reflexivity. Qed.

Lemma EvalSide_unknown {F} {GF : GoFloat F} tp (T side : F) :
  Known tp = false -> EvalSide tp T side = Err (Sentinel ErrUnknownLaw).
Proof.
  unfold Known, EvalSide. intros H.
  apply Bool.orb_false_iff in H as [H H3]. apply Bool.orb_false_iff in H as [H1 H2].
  now rewrite H1, H2, H3.
Qed.

Lemma ClosedPeaks_Known {F} {GF : GoFloat F} tp :
  Known tp = true -> exists p, ClosedPeaks (F := F) tp = Ok p.
Proof. revert tp. apply Known_cases; eexists; reflexivity. Qed.

Lemma ClosedPeaks_unknown {F} {GF : GoFloat F} tp :
  Known tp = false -> ClosedPeaks (F := F) tp = Err (Sentinel ErrUnknownLaw).
Proof.
  unfold Known, ClosedPeaks. intros H.
  apply Bool.orb_false_iff in H as [H H3]. apply Bool.orb_false_iff in H as [H1 H2].
  now rewrite H1, H2, H3.
Qed.

(** The law evaluates exactly on the names [Known] accepts. *)
Lemma EvalSide_ok_iff {F} {GF : GoFloat F} tp (T side : F) :
  is_ok (EvalSide tp T side) = Known tp.
Proof.
  destruct (Known tp) eqn:E.
  - destruct (EvalSide_Known tp T side E) as [w ->]. reflexivity.
  - now rewrite EvalSide_unknown.
Qed.
