(* ===== verification/RealLib.v ===== *)
(** Derivatives and trigonometric bounds over the reals, in the shape the
    closed-form laws need: each differentiation rule is stated for an explicit
    [fun t => ...] so that [derive] can build the derivative of an expression. *)
From Stdlib Require Import Reals Lra Lia.
Local Open Scope R_scope.

Create HintDb deriv discriminated.
Create HintDb deriv_side discriminated.

Section Rules.
Variables (f g : R -> R) (x a b : R).

Lemma D_const c : derivable_pt_lim (fun _ => c) x 0.
Proof. apply (derivable_pt_lim_const c x). Qed.

Lemma D_id : derivable_pt_lim (fun t => t) x 1.
Proof. apply derivable_pt_lim_id. Qed.

Hypothesis Hf : derivable_pt_lim f x a.

Lemma D_opp : derivable_pt_lim (fun t => - f t) x (- a).
Proof. now apply derivable_pt_lim_opp. Qed.

Lemma D_scal c : derivable_pt_lim (fun t => c * f t) x (c * a).
Proof. now apply derivable_pt_lim_scal. Qed.

Lemma D_divc c : derivable_pt_lim (fun t => f t / c) x (a / c).
Proof.
  apply (derivable_pt_lim_ext (fun t => / c * f t)).
  - intros t. unfold Rdiv. ring.
  - replace (a / c) with (/ c * a) by (unfold Rdiv; ring).
    now apply derivable_pt_lim_scal.
Qed.

Lemma D_sin : derivable_pt_lim (fun t => sin (f t)) x (cos (f x) * a).
Proof. apply (derivable_pt_lim_comp f sin); [assumption|apply derivable_pt_lim_sin]. Qed.

Lemma D_cos : derivable_pt_lim (fun t => cos (f t)) x (- sin (f x) * a).
Proof. apply (derivable_pt_lim_comp f cos); [assumption|apply derivable_pt_lim_cos]. Qed.

Lemma D_eq l : a = l -> derivable_pt_lim f x l.
Proof. now intros <-. Qed.

Hypothesis Hg : derivable_pt_lim g x b.

Lemma D_plus : derivable_pt_lim (fun t => f t + g t) x (a + b).
Proof. now apply derivable_pt_lim_plus. Qed.

Lemma D_minus : derivable_pt_lim (fun t => f t - g t) x (a - b).
Proof. now apply derivable_pt_lim_minus. Qed.

Lemma D_mult : derivable_pt_lim (fun t => f t * g t) x (a * g x + f x * b).
Proof. now apply derivable_pt_lim_mult. Qed.
End Rules.

(** The chain rule for an affine change of variable. *)
Lemma D_affine (f : R -> R) k c x l :
  derivable_pt_lim f (k * x + c) l ->
  derivable_pt_lim (fun t => f (k * t + c)) x (k * l).
Proof.
  intros H. rewrite Rmult_comm.
  apply (derivable_pt_lim_comp (fun t => k * t + c) f); [|assumption].
  eapply D_eq; [apply D_plus; [apply D_scal, D_id|apply D_const]|ring].
Qed.

(** A derivative only depends on the function near the point. *)
Lemma D_local (f g : R -> R) x lo hi l :
  lo < x < hi -> (forall t, lo < t < hi -> f t = g t) ->
  derivable_pt_lim g x l -> derivable_pt_lim f x l.
Proof.
  intros Hx He. apply (derivable_pt_lim_locally_ext g f x lo hi); [assumption|].
  intros t Ht. symmetry. now apply He.
Qed.

(** A quadratic bound on the remainder gives the derivative. *)
Lemma D_quadratic (f : R -> R) x l c :
  0 <= c -> (forall h, Rabs (f (x + h) - f x - l * h) <= c * (h * h)) ->
  derivable_pt_lim f x l.
Proof.
  intros Hc H eps Heps.
  assert (Hd : 0 < eps / (c + 1)) by (apply Rdiv_lt_0_compat; lra).
  exists (mkposreal _ Hd). intros h Hh Hlt. simpl in Hlt.
  replace ((f (x + h) - f x) / h - l) with ((f (x + h) - f x - l * h) / h)
    by (field; assumption).
  unfold Rdiv. rewrite Rabs_mult, Rabs_inv.
  pose proof (Rabs_pos_lt h Hh) as Hp.
  apply Rle_lt_trans with (c * Rabs h).
  - apply Rmult_le_reg_r with (Rabs h); [assumption|].
    rewrite Rmult_assoc, Rinv_l by lra. rewrite Rmult_1_r.
    eapply Rle_trans; [apply H|].
    rewrite Rmult_assoc, <- Rabs_mult. rewrite (Rabs_pos_eq (h * h)) by nra. lra.
  - apply Rle_lt_trans with ((c + 1) * Rabs h); [nra|].
    apply Rmult_lt_reg_l with (/ (c + 1)); [apply Rinv_0_lt_compat; lra|].
    rewrite <- Rmult_assoc, Rinv_l by lra. unfold Rdiv in Hlt. lra.
Qed.

(** Build the derivative of an expression and prove it equal to the goal's. *)
Ltac derive_step :=
  match goal with
  | |- derivable_pt_lim (fun t => ?c) _ _ => apply D_const
  | |- derivable_pt_lim (fun t => t) _ _ => apply D_id
  | |- derivable_pt_lim (Rmult ?c) ?x _ =>
      apply (D_scal (fun t => t) x 1)
  | |- derivable_pt_lim (Rminus ?c) ?x _ =>
      apply (D_minus (fun _ => c) (fun t => t) x 0 1)
  | |- derivable_pt_lim (Rplus ?c) ?x _ =>
      apply (D_plus (fun _ => c) (fun t => t) x 0 1)
  | |- derivable_pt_lim sin _ _ => apply derivable_pt_lim_sin
  | |- derivable_pt_lim cos _ _ => apply derivable_pt_lim_cos
  | |- derivable_pt_lim (fun t => - _) _ _ => apply D_opp
  | |- derivable_pt_lim (fun t => _ + _) _ _ => apply D_plus
  | |- derivable_pt_lim (fun t => _ - _) _ _ => apply D_minus
  | |- derivable_pt_lim (fun t => _ * _) _ _ => apply D_mult
  | |- derivable_pt_lim (fun t => _ / ?c) _ _ => apply D_divc
  | |- derivable_pt_lim (fun t => sin _) _ _ => apply D_sin
  | |- derivable_pt_lim (fun t => cos _) _ _ => apply D_cos
  end.

Ltac derive := eapply D_eq; [repeat derive_step|]; cbv beta.

(** * Trigonometric bounds *)

Lemma PI_pos : 0 < PI.
Proof. exact PI_RGT_0. Qed.

Lemma PI_neq0 : PI <> 0.
Proof. pose proof PI_pos. lra. Qed.

Lemma sin_abs_le_1 x : Rabs (sin x) <= 1.
Proof. apply Rabs_le. pose proof (SIN_bound x). lra. Qed.

Lemma cos_abs_le_1 x : Rabs (cos x) <= 1.
Proof. apply Rabs_le. pose proof (COS_bound x). lra. Qed.

(** The sine is 1-Lipschitz. *)
Lemma sin_lipschitz x y : Rabs (sin y - sin x) <= Rabs (y - x).
Proof.
  destruct (MVT_abs sin cos x y) as (c & Hc & _).
  - intros c _. apply derivable_pt_lim_sin.
  - rewrite Hc. pose proof (cos_abs_le_1 c). pose proof (Rabs_pos (y - x)). nra.
Qed.

Lemma sin_increment_le x y : x <= y -> sin y - sin x <= y - x.
Proof.
  intros H. pose proof (sin_lipschitz x y) as L.
  rewrite (Rabs_pos_eq (y - x)) in L by lra.
  pose proof (Rle_abs (sin y - sin x)). lra.
Qed.

Lemma sin_abs_le x : Rabs (sin x) <= Rabs x.
Proof. pose proof (sin_lipschitz 0 x) as L. rewrite sin_0, !Rminus_0_r in L. exact L. Qed.

Lemma one_minus_cos x : 1 - cos x = 2 * (sin (x / 2) * sin (x / 2)).
Proof.
  replace (cos x) with (cos (2 * (x / 2))) by (f_equal; field).
  rewrite cos_2a_sin. ring.
Qed.

Lemma one_minus_cos_le x : 1 - cos x <= x * x / 2.
Proof.
  rewrite one_minus_cos. pose proof (sin_abs_le (x / 2)) as L.
  apply Rsqr_le_abs_1 in L. unfold Rsqr in L. nra.
Qed.

(** [x - sin x] is at most quadratic. *)
Lemma minus_sin_le x : 0 <= x -> x - sin x <= x * x.
Proof.
  intros Hx. destruct (Rle_lt_or_eq_dec 0 x Hx) as [Hp|<-]; [|rewrite sin_0; lra].
  destruct (MVT_cor2 (fun t => t - sin t) (fun t => 1 - cos t) 0 x Hp) as (c & Hc & Hcx).
  - intros c _. derive. ring.
  - rewrite sin_0 in Hc. pose proof (one_minus_cos c) as E.
    pose proof (sin_abs_le (c / 2)) as L. pose proof (sin_abs_le_1 (c / 2)).
    rewrite (Rabs_pos_eq (c / 2)) in L by lra.
    assert (sin (c / 2) * sin (c / 2) <= c / 2).
    { rewrite <- (Rabs_pos_eq (_ * _)) by nra. rewrite Rabs_mult.
      pose proof (Rabs_pos (sin (c / 2))). nra. }
    nra.
Qed.

(** A scaled bounded quantity stays within its scale. *)
Lemma Rabs_scale_le c x : 0 <= c -> Rabs x <= 1 -> Rabs (c * x) <= c.
Proof. intros Hc Hx. rewrite Rabs_mult, (Rabs_pos_eq c) by assumption. nra. Qed.

#[export] Hint Resolve PI_pos PI_neq0 sin_abs_le_1 cos_abs_le_1 Rabs_scale_le : deriv_side.
