(* ===== verification/LawSpec.v ===== *)
(** What package law promises, over the reals: the displacement starts at 0,
    ends at 1 and never decreases; each derivative field is the derivative of
    the one before; the closed-form peaks are the attained maxima; the side
    argument only matters at the parabolic midpoint. *)
From Stdlib Require Import ZArith Reals Lra String Bool List.
From S2P Require Import Prelude GoFloat RealLib Law.
Local Open Scope R_scope.

(** A field of the law as a function of the dimensionless time. *)
Definition curve (f : Values R -> R) (tp : string) (side t : R) : R :=
  match EvalSide tp t side with Ok w => f w | _ => 0 end.

(** * The law on its closed interval *)

Lemma clamp01_inside t : 0 <= t <= 1 -> clamp01 t = t.
Proof. intros H. unfold clamp01. ideal. now rtest. Qed.

Lemma clamp01_below t : t <= 0 -> clamp01 t = 0.
Proof. intros H. unfold clamp01. ideal. rtest; lra. Qed.

Lemma clamp01_above t : 1 <= t -> clamp01 t = 1.
Proof. intros H. unfold clamp01. ideal. rtest; lra. Qed.

Lemma clamp01_range t : 0 <= clamp01 (F := R) t <= 1.
Proof. unfold clamp01. ideal. rtest; lra. Qed.

Lemma clamp01_mono s t : s <= t -> clamp01 (F := R) s <= clamp01 t.
Proof. unfold clamp01. ideal. intros. rtest; lra. Qed.

(** The curves only see the clamped time. *)
Lemma curve_clamp f tp side t : curve f tp side (clamp01 t) = curve f tp side t.
Proof.
  unfold curve, EvalSide. now rewrite (clamp01_inside (clamp01 t)) by apply clamp01_range.
Qed.

Section Closed.
Variables (t side : R).
Hypothesis Ht : 0 <= t <= 1.

Lemma cosine_closed :
  EvalSide Cosine t side =
  Ok (mkValues ((1 - cos (PI * t)) / 2) (PI / 2 * sin (PI * t))
        (PI * PI / 2 * cos (PI * t)) (- (PI * PI * PI / 2) * sin (PI * t))).
Proof. unfold EvalSide. rewrite clamp01_inside by assumption. reflexivity. Qed.

Lemma cycloid_closed :
  EvalSide Cycloid t side =
  Ok (mkValues (t - sin (2 * PI * t) / (2 * PI)) (1 - cos (2 * PI * t))
        (2 * PI * sin (2 * PI * t)) (4 * PI * PI * cos (2 * PI * t))).
Proof. unfold EvalSide. rewrite clamp01_inside by assumption. reflexivity. Qed.

Lemma parabolic_closed :
  EvalSide Parabolic t side = Ok (evalParabolic t side).
Proof. unfold EvalSide. rewrite clamp01_inside by assumption. reflexivity. Qed.
End Closed.

Lemma evalParabolic_left t side :
  t < 1 / 2 \/ (t = 1 / 2 /\ side <= 0) ->
  evalParabolic t side = mkValues (2 * t * t) (4 * t) 4 0.
Proof.
  intros H. unfold evalParabolic. ideal. rtest; try reflexivity; try lra.
  replace t with (1 / 2) by lra. f_equal; lra.
Qed.

Lemma evalParabolic_right t side :
  1 / 2 < t \/ (t = 1 / 2 /\ 0 < side) ->
  evalParabolic t side =
  mkValues (1 - 2 * (1 - t) * (1 - t)) (4 * (1 - t)) (- (4)) 0.
Proof. intros H. unfold evalParabolic. ideal. rtest; try reflexivity; lra. Qed.

(** * The derivatives *)

Ltac field_pi := field; auto with deriv_side.

Lemma cosine_derivatives side T :
  0 < T < 1 ->
  derivable_pt_lim (curve Y Cosine side) T (curve Y1 Cosine side T) /\
  derivable_pt_lim (curve Y1 Cosine side) T (curve Y2 Cosine side T) /\
  derivable_pt_lim (curve Y2 Cosine side) T (curve Y3 Cosine side T).
Proof.
  intros HT. repeat split;
    (eapply D_local; [exact HT
                     |intros t Ht; unfold curve; rewrite cosine_closed by lra; reflexivity|]);
    unfold curve; rewrite cosine_closed by lra; cbn [Y Y1 Y2 Y3];
    derive; field.
Qed.

Lemma cycloid_derivatives side T :
  0 < T < 1 ->
  derivable_pt_lim (curve Y Cycloid side) T (curve Y1 Cycloid side T) /\
  derivable_pt_lim (curve Y1 Cycloid side) T (curve Y2 Cycloid side T) /\
  derivable_pt_lim (curve Y2 Cycloid side) T (curve Y3 Cycloid side T).
Proof.
  intros HT. repeat split;
    (eapply D_local; [exact HT
                     |intros t Ht; unfold curve; rewrite cycloid_closed by lra; reflexivity|]);
    unfold curve; rewrite cycloid_closed by lra; cbn [Y Y1 Y2 Y3];
    derive; field_pi.
Qed.

Lemma curve_parabolic_left f side t :
  0 <= t -> t < 1 / 2 \/ (t = 1 / 2 /\ side <= 0) ->
  curve f Parabolic side t = f (mkValues (2 * t * t) (4 * t) 4 0).
Proof.
  intros H0 H. unfold curve. rewrite parabolic_closed by lra.
  now rewrite evalParabolic_left.
Qed.

Lemma curve_parabolic_right f side t :
  t <= 1 -> 1 / 2 < t \/ (t = 1 / 2 /\ 0 < side) ->
  curve f Parabolic side t =
  f (mkValues (1 - 2 * (1 - t) * (1 - t)) (4 * (1 - t)) (- (4)) 0).
Proof.
  intros H0 H. unfold curve. rewrite parabolic_closed by lra.
  now rewrite evalParabolic_right.
Qed.

Lemma parabolic_derivatives side T :
  0 < T < 1 -> T <> 1 / 2 ->
  derivable_pt_lim (curve Y Parabolic side) T (curve Y1 Parabolic side T) /\
  derivable_pt_lim (curve Y1 Parabolic side) T (curve Y2 Parabolic side T) /\
  derivable_pt_lim (curve Y2 Parabolic side) T (curve Y3 Parabolic side T).
Proof.
  intros HT Hm. destruct (Rtotal_order T (1 / 2)) as [Hl|[Hl|Hl]]; [|contradiction|].
  - repeat split;
      eapply (D_local _ _ T 0 (1 / 2));
      try lra; try (intros t Ht; rewrite curve_parabolic_left by lra; reflexivity);
      rewrite curve_parabolic_left by lra; cbn [Y Y1 Y2 Y3]; derive; field.
  - repeat split;
      eapply (D_local _ _ T (1 / 2) 1);
      try lra; try (intros t Ht; rewrite curve_parabolic_right by lra; reflexivity);
      rewrite curve_parabolic_right by lra; cbn [Y Y1 Y2 Y3]; derive; field.
Qed.

(** At the midpoint the displacement still has a derivative: the two parabolas
    meet with the same slope. *)
Lemma parabolic_mid_derivative side :
  derivable_pt_lim (curve Y Parabolic side) (1 / 2) (curve Y1 Parabolic side (1 / 2)).
Proof.
  set (g t := if Rlt_dec t (1 / 2) then 2 * t * t else 1 - 2 * (1 - t) * (1 - t)).
  apply (D_local _ g _ 0 1); [lra| |].
  - intros t Ht. unfold g. destruct (Rlt_dec t (1 / 2)).
    + now rewrite curve_parabolic_left by lra.
    + destruct (Rle_dec side 0).
      * destruct (Req_dec t (1 / 2)) as [->|].
        { rewrite curve_parabolic_left by lra. simpl. lra. }
        { now rewrite curve_parabolic_right by lra. }
      * now rewrite curve_parabolic_right by lra.
  - replace (curve Y1 Parabolic side (1 / 2)) with 2.
    + apply (D_quadratic _ _ _ 2); [lra|]. intros h. unfold g.
      destruct (Rlt_dec (1 / 2) (1 / 2)); [lra|].
      destruct (Rlt_dec (1 / 2 + h) (1 / 2)); apply Rabs_le; nra.
    + destruct (Rle_dec side 0).
      * rewrite curve_parabolic_left by lra. simpl. lra.
      * rewrite curve_parabolic_right by lra. simpl. lra.
Qed.

Lemma known_velocity_inside tp side T :
  Known tp = true -> 0 < T < 1 ->
  derivable_pt_lim (curve Y tp side) T (curve Y1 tp side T).
Proof.
  intros Hk HT. revert tp Hk. apply Known_cases.
  - apply (cosine_derivatives side T HT).
  - apply (cycloid_derivatives side T HT).
  - destruct (Req_dec T (1 / 2)) as [->|E]; [apply parabolic_mid_derivative|].
    apply (parabolic_derivatives side T HT E).
Qed.

Lemma known_acceleration_jerk tp side T :
  Known tp = true -> 0 < T < 1 -> ~ (tp = Parabolic /\ T = 1 / 2) ->
  derivable_pt_lim (curve Y1 tp side) T (curve Y2 tp side T) /\
  derivable_pt_lim (curve Y2 tp side) T (curve Y3 tp side T).
Proof.
  intros Hk HT. revert tp Hk. apply (Known_cases (fun tp => ~ (tp = Parabolic /\ T = 1 / 2) -> _)).
  - intros _. apply (cosine_derivatives side T HT).
  - intros _. apply (cycloid_derivatives side T HT).
  - intros H. apply (parabolic_derivatives side T HT). auto.
Qed.

(** * The stroke *)

(** Reduce a statement about all times to the closed interval. *)
Lemma curve_inside (P : R -> R -> Prop) f tp side :
  (forall t, 0 <= t <= 1 -> P t (curve f tp side t)) ->
  forall t, P (clamp01 t) (curve f tp side t).
Proof. intros H t. rewrite <- curve_clamp. apply H, clamp01_range. Qed.

Lemma curve_ends tp side :
  Known tp = true ->
  (curve Y tp side 0 = 0 /\ curve Y1 tp side 0 = 0) /\
  (curve Y tp side 1 = 1 /\ curve Y1 tp side 1 = 0).
Proof.
  revert tp. apply Known_cases; unfold curve.
  - rewrite !cosine_closed by lra. cbn [Y Y1].
    rewrite !Rmult_0_r, !Rmult_1_r, cos_0, sin_0, cos_PI, sin_PI. lra.
  - rewrite !cycloid_closed by lra. cbn [Y Y1].
    rewrite !Rmult_0_r, !Rmult_1_r, cos_0, sin_0, cos_2PI, sin_2PI.
    unfold Rdiv. lra.
  - rewrite !parabolic_closed by lra.
    rewrite evalParabolic_left, evalParabolic_right by lra. cbn [Y Y1]. lra.
Qed.

Lemma cosine_mono side s t :
  0 <= s <= t -> t <= 1 -> curve Y Cosine side s <= curve Y Cosine side t.
Proof.
  intros Hs Ht. pose proof PI_pos as HP. unfold curve.
  rewrite !cosine_closed by lra. cbn [Y].
  assert (cos (PI * t) <= cos (PI * s)) by (apply cos_decr_1; nra). lra.
Qed.

Lemma cycloid_mono side s t :
  0 <= s <= t -> t <= 1 -> curve Y Cycloid side s <= curve Y Cycloid side t.
Proof.
  intros Hs Ht. pose proof PI_pos as HP. unfold curve.
  rewrite !cycloid_closed by lra. cbn [Y].
  pose proof (sin_increment_le (2 * PI * s) (2 * PI * t) ltac:(nra)) as H.
  apply Rminus_le. match goal with |- ?d <= 0 => replace d with
    (- ((2 * PI * t - 2 * PI * s - (sin (2 * PI * t) - sin (2 * PI * s))) * / (2 * PI)))
      by (field; lra) end.
  apply Ropp_le_cancel. rewrite Ropp_0, Ropp_involutive.
  apply Rmult_le_pos; [lra|]. left. apply Rinv_0_lt_compat. lra.
Qed.

Lemma parabolic_Y side t :
  0 <= t <= 1 ->
  (t <= 1 / 2 /\ curve Y Parabolic side t = 2 * t * t /\ curve Y1 Parabolic side t = 4 * t) \/
  (1 / 2 <= t /\ curve Y Parabolic side t = 1 - 2 * (1 - t) * (1 - t) /\
   curve Y1 Parabolic side t = 4 * (1 - t)).
Proof.
  intros Ht.
  destruct (Rlt_dec t (1 / 2)); [|destruct (Rlt_dec (1 / 2) t); [|destruct (Rle_dec side 0)]].
  1, 3: left; rewrite !curve_parabolic_left by lra; cbn [Y Y1]; lra.
  all: right; rewrite !curve_parabolic_right by lra; cbn [Y Y1]; lra.
Qed.

Lemma parabolic_mono side s t :
  0 <= s <= t -> t <= 1 -> curve Y Parabolic side s <= curve Y Parabolic side t.
Proof.
  intros Hs Ht.
  destruct (parabolic_Y side s ltac:(lra)) as [(A & -> & _)|(A & -> & _)];
    destruct (parabolic_Y side t ltac:(lra)) as [(B & -> & _)|(B & -> & _)]; nra.
Qed.

Lemma curve_mono tp side s t :
  Known tp = true -> s <= t -> curve Y tp side s <= curve Y tp side t.
Proof.
  intros Hk Hst. rewrite <- (curve_clamp _ _ _ s), <- (curve_clamp _ _ _ t).
  pose proof (clamp01_range s). pose proof (clamp01_range t).
  pose proof (clamp01_mono s t Hst). revert tp Hk.
  apply Known_cases; [apply cosine_mono|apply cycloid_mono|apply parabolic_mono]; lra.
Qed.

Lemma curve_before tp side t :
  Known tp = true -> t <= 0 -> curve Y tp side t = 0 /\ curve Y1 tp side t = 0.
Proof.
  intros Hk Ht. rewrite <- !(curve_clamp _ _ _ t), clamp01_below by assumption.
  apply (curve_ends tp side Hk).
Qed.

Lemma curve_after tp side t :
  Known tp = true -> 1 <= t -> curve Y tp side t = 1 /\ curve Y1 tp side t = 0.
Proof.
  intros Hk Ht. rewrite <- !(curve_clamp _ _ _ t), clamp01_above by assumption.
  apply (curve_ends tp side Hk).
Qed.

Lemma curve_range tp side t : Known tp = true -> 0 <= curve Y tp side t <= 1.
Proof.
  intros Hk. split.
  - destruct (curve_before tp side _ Hk (Rmin_r t 0)) as [<- _].
    apply curve_mono; [assumption|apply Rmin_l].
  - destruct (curve_after tp side _ Hk (Rmax_r t 1)) as [<- _].
    apply curve_mono; [assumption|apply Rmax_l].
Qed.

(** a known law is a stroke: it rests at 0 before the interval, at 1 after
    it (with velocity 0 at both ends), and its displacement never decreases,
    so it stays in [0,1]. *)
Theorem law_stroke tp side :
  Known tp = true ->
  (forall t, t <= 0 -> curve Y tp side t = 0 /\ curve Y1 tp side t = 0) /\
  (forall t, 1 <= t -> curve Y tp side t = 1 /\ curve Y1 tp side t = 0) /\
  (forall s t, s <= t ->
     0 <= curve Y tp side s <= curve Y tp side t /\ curve Y tp side t <= 1).
Proof.
  intros Hk. split; [|split]; intros.
  - now apply curve_before.
  - now apply curve_after.
  - pose proof (curve_mono tp side s t Hk). pose proof (curve_range tp side s Hk).
    pose proof (curve_range tp side t Hk). intuition.
Qed.

Lemma law_stroke_witness :
  Known Cycloid = true /\ curve Y Cycloid 0 2 = 1.
Proof.
  split; [reflexivity|].
  destruct (law_stroke Cycloid 0 eq_refl) as (_ & H & _).
  destruct (H 2) as [E _]; [lra|exact E].
Defined.

(** * Smoothness at the ends *)

(** The second half of the stroke mirrors the first. *)
Lemma curve_symmetric tp side t :
  Known tp = true -> 0 <= t <= 1 -> curve Y tp side (1 - t) = 1 - curve Y tp side t.
Proof.
  intros Hk Ht. revert tp Hk. apply Known_cases.
  - unfold curve. rewrite !cosine_closed by lra. cbn [Y].
    replace (PI * (1 - t)) with (PI - PI * t) by ring.
    rewrite cos_minus, cos_PI, sin_PI. field.
  - unfold curve. rewrite !cycloid_closed by lra. cbn [Y].
    replace (2 * PI * (1 - t)) with (2 * PI - 2 * PI * t) by ring.
    rewrite sin_minus, cos_2PI, sin_2PI. field_pi.
  - destruct (parabolic_Y side t Ht) as [(A & -> & _)|(A & -> & _)];
      destruct (parabolic_Y side (1 - t) ltac:(lra)) as [(B & -> & _)|(B & -> & _)]; nra.
Qed.

(** The displacement leaves its ends quadratically. *)
Lemma curve_quadratic tp side t :
  Known tp = true -> 0 <= t <= 1 -> 0 <= curve Y tp side t <= 16 * (t * t).
Proof.
  intros Hk Ht. split; [now apply curve_range|]. pose proof PI_pos. pose proof PI_4.
  revert tp Hk. apply Known_cases.
  - unfold curve. rewrite cosine_closed by lra. cbn [Y].
    pose proof (one_minus_cos_le (PI * t)).
    assert (PI * PI <= 16) by nra. assert (0 <= t * t) by nra.
    replace (PI * t * (PI * t)) with (PI * PI * (t * t)) in * by ring. nra.
  - unfold curve. rewrite cycloid_closed by lra. cbn [Y].
    pose proof (minus_sin_le (2 * PI * t) ltac:(nra)) as M.
    replace (t - sin (2 * PI * t) / (2 * PI))
      with ((2 * PI * t - sin (2 * PI * t)) / (2 * PI)) by field_pi.
    apply Rle_trans with (2 * PI * t * (2 * PI * t) / (2 * PI)).
    + unfold Rdiv. apply Rmult_le_compat_r; [left; apply Rinv_0_lt_compat; lra|lra].
    + replace (2 * PI * t * (2 * PI * t) / (2 * PI)) with (2 * PI * (t * t)) by field_pi. nra.
  - destruct (parabolic_Y side t Ht) as [(A & -> & _)|(A & -> & _)]; nra.
Qed.

Lemma curve_quadratic_0 tp side h :
  Known tp = true -> Rabs (curve Y tp side h) <= 16 * (h * h).
Proof.
  intros Hk. pose proof (curve_range tp side h Hk). rewrite Rabs_pos_eq by lra.
  destruct (Rle_dec h 0); [destruct (curve_before tp side h Hk) as [-> _]; nra|].
  destruct (Rle_dec h 1); [apply curve_quadratic; [assumption|lra]|nra].
Qed.

Lemma curve_quadratic_1 tp side h :
  Known tp = true -> Rabs (curve Y tp side (1 + h) - 1) <= 16 * (h * h).
Proof.
  intros Hk. destruct (Rle_dec 0 h).
  - destruct (curve_after tp side (1 + h) Hk ltac:(lra)) as [-> _].
    rewrite Rminus_diag, Rabs_R0. nra.
  - pose proof (curve_range tp side (1 + h) Hk). rewrite Rabs_left1 by lra.
    destruct (Rle_dec (- 1) h); [|nra].
    replace (1 + h) with (1 - - h) by ring. rewrite curve_symmetric by (auto || lra).
    pose proof (curve_quadratic tp side (- h) Hk ltac:(lra)). nra.
Qed.

(** Displacement and velocity of a known law fit everywhere, ends included. *)
Lemma known_velocity tp side T :
  Known tp = true -> derivable_pt_lim (curve Y tp side) T (curve Y1 tp side T).
Proof.
  intros Hk.
  destruct (Rtotal_order T 0) as [H0|[H0|H0]].
  - destruct (curve_before tp side T Hk ltac:(lra)) as [_ ->].
    apply (D_local _ (fun _ => 0) T (T - 1) 0); [lra| |apply D_const].
    intros t Ht. apply curve_before; [assumption|lra].
  - subst T. destruct (curve_before tp side 0 Hk ltac:(lra)) as [E ->].
    apply (D_quadratic _ _ _ 16); [lra|]. intros h. rewrite E.
    replace (curve Y tp side (0 + h) - 0 - 0 * h) with (curve Y tp side h)
      by (rewrite Rplus_0_l; ring). now apply curve_quadratic_0.
  - destruct (Rtotal_order T 1) as [H1|[H1|H1]].
    + now apply known_velocity_inside.
    + subst T. destruct (curve_after tp side 1 Hk ltac:(lra)) as [E ->].
      apply (D_quadratic _ _ _ 16); [lra|]. intros h. rewrite E.
      replace (curve Y tp side (1 + h) - 1 - 0 * h) with (curve Y tp side (1 + h) - 1) by ring.
      now apply curve_quadratic_1.
    + destruct (curve_after tp side T Hk ltac:(lra)) as [_ ->].
      apply (D_local _ (fun _ => 1) T 1 (T + 1)); [lra| |apply D_const].
      intros t Ht. apply curve_after; [assumption|lra].
Qed.

(** the fields of a known law are successive derivatives: y' is the
    derivative of y at every time, the ends and the rest before and after the
    stroke included; y'' of y' and y''' of y'' at every inner time but the
    parabolic midpoint. *)
Theorem law_derivatives tp side T :
  Known tp = true ->
  derivable_pt_lim (curve Y tp side) T (curve Y1 tp side T) /\
  (0 < T < 1 -> ~ (tp = Parabolic /\ T = 1 / 2) ->
   derivable_pt_lim (curve Y1 tp side) T (curve Y2 tp side T) /\
   derivable_pt_lim (curve Y2 tp side) T (curve Y3 tp side T)).
Proof. auto using known_velocity, known_acceleration_jerk. Qed.

Lemma law_derivatives_witness :
  Known Parabolic = true /\
  derivable_pt_lim (curve Y1 Parabolic 0) (1 / 4) (curve Y2 Parabolic 0 (1 / 4)).
Proof.
  split; [reflexivity|].
  apply (law_derivatives Parabolic 0 (1 / 4)); [reflexivity|lra|].
  intros [_ H]. lra.
Defined.

(** * Peaks *)

Lemma parabolic_Y23 side t :
  0 <= t <= 1 ->
  Rabs (curve Y2 Parabolic side t) = 4 /\ curve Y3 Parabolic side t = 0.
Proof.
  intros Ht.
  destruct (Rlt_dec t (1 / 2)); [|destruct (Rlt_dec (1 / 2) t); [|destruct (Rle_dec side 0)]].
  1, 3: rewrite !curve_parabolic_left by lra; cbn [Y2 Y3]; rewrite Rabs_pos_eq; lra.
  all: rewrite !curve_parabolic_right by lra; cbn [Y2 Y3]; rewrite Rabs_Ropp, Rabs_pos_eq; lra.
Qed.

(** [f] is bounded by [m] in absolute value and reaches it on the interval. *)
Definition attained_max (f : R -> R) (m : R) : Prop :=
  (forall t, Rabs (f t) <= m) /\ (exists t, 0 <= t <= 1 /\ Rabs (f t) = m).

Lemma attained_max_intro f tp side m t0 :
  (forall t, 0 <= t <= 1 -> Rabs (curve f tp side t) <= m) ->
  0 <= t0 <= 1 -> Rabs (curve f tp side t0) = m ->
  attained_max (curve f tp side) m.
Proof.
  intros H H0 E. split; [|eauto]. intros t.
  apply (curve_inside (fun _ y => Rabs y <= m)). exact H.
Qed.

Lemma half_angle : PI * (1 / 2) = PI / 2.
Proof. lra. Qed.
Lemma quarter_angle : 2 * PI * (1 / 4) = PI / 2.
Proof. lra. Qed.
Lemma whole_half_angle : 2 * PI * (1 / 2) = PI.
Proof. lra. Qed.
Create Rewrite HintDb angle.
#[export] Hint Rewrite half_angle quarter_angle whole_half_angle Rmult_0_r
  sin_PI2 cos_PI2 cos_PI sin_PI cos_0 sin_0 Rmult_1_r : angle.

Ltac peak t0 closed :=
  apply (attained_max_intro _ _ _ _ t0);
  [intros t Ht; unfold curve; rewrite closed by lra; cbn [Y1 Y2 Y3]
  |lra
  |unfold curve; rewrite closed by lra; cbn [Y1 Y2 Y3]; autorewrite with angle].

(** Positivity of the products of [PI] that scale the trigonometric terms. *)
Lemma PI2_pos : 0 < PI * PI / 2.
Proof. pose proof PI_pos. nra. Qed.
Lemma PI3_pos : 0 < PI * PI * PI / 2.
Proof. pose proof PI_pos. assert (0 < PI * PI) by nra. nra. Qed.
Lemma fourPI2_pos : 0 < 4 * PI * PI.
Proof. pose proof PI_pos. nra. Qed.
#[export] Hint Resolve PI2_pos PI3_pos fourPI2_pos : deriv_side.

(** The scaled trigonometric bounds, as one tactic. *)
Ltac trig_bound :=
  pose proof PI_pos; pose proof PI2_pos; pose proof PI3_pos; pose proof fourPI2_pos;
  first [ apply Rabs_scale_le; [lra | auto with deriv_side]
        | rewrite Ropp_mult_distr_l_reverse, Rabs_Ropp;
          apply Rabs_scale_le; [lra | auto with deriv_side]
        | apply Rabs_le ].

Lemma cosine_peaks side :
  attained_max (curve Y1 Cosine side) (PI / 2) /\
  attained_max (curve Y2 Cosine side) (PI * PI / 2) /\
  attained_max (curve Y3 Cosine side) (PI * PI * PI / 2).
Proof.
  pose proof PI_pos. pose proof PI2_pos. pose proof PI3_pos.
  split; [|split].
  - peak (1 / 2) cosine_closed; [trig_bound|]. now rewrite Rabs_pos_eq by lra.
  - peak 0 cosine_closed; [trig_bound|]. now rewrite Rabs_pos_eq by lra.
  - peak (1 / 2) cosine_closed; [trig_bound|]. now rewrite Rabs_Ropp, Rabs_pos_eq by lra.
Qed.

Lemma cycloid_peaks side :
  attained_max (curve Y1 Cycloid side) 2 /\
  attained_max (curve Y2 Cycloid side) (2 * PI) /\
  attained_max (curve Y3 Cycloid side) (4 * PI * PI).
Proof.
  pose proof PI_pos. pose proof fourPI2_pos.
  split; [|split].
  - peak (1 / 2) cycloid_closed.
    + pose proof (COS_bound (2 * PI * t)). apply Rabs_le. lra.
    + rewrite Rabs_pos_eq; lra.
  - peak (1 / 4) cycloid_closed; [trig_bound|]. now rewrite Rabs_pos_eq by lra.
  - peak 0 cycloid_closed; [trig_bound|]. now rewrite Rabs_pos_eq by lra.
Qed.

Lemma parabolic_peaks side :
  attained_max (curve Y1 Parabolic side) 2 /\
  attained_max (curve Y2 Parabolic side) 4 /\
  attained_max (curve Y3 Parabolic side) 0.
Proof.
  assert (B : forall t, 0 <= t <= 1 -> Rabs (curve Y1 Parabolic side t) <= 2).
  { intros t Ht. apply Rabs_le.
    destruct (parabolic_Y side t Ht) as [(A & _ & ->)|(A & _ & ->)]; lra. }
  split; [|split].
  - apply (attained_max_intro _ _ _ _ (1 / 2)); [exact B|lra|].
    destruct (parabolic_Y side (1 / 2) ltac:(lra)) as [(A & _ & ->)|(A & _ & ->)];
      rewrite Rabs_pos_eq; lra.
  - apply (attained_max_intro _ _ _ _ 0); [|lra|].
    + intros t Ht. destruct (parabolic_Y23 side t Ht) as [-> _]. lra.
    + now destruct (parabolic_Y23 side 0 ltac:(lra)).
  - apply (attained_max_intro _ _ _ _ 0); [|lra|].
    + intros t Ht. destruct (parabolic_Y23 side t Ht) as [_ ->]. rewrite Rabs_R0. lra.
    + destruct (parabolic_Y23 side 0 ltac:(lra)) as [_ ->]. apply Rabs_R0.
Qed.

Lemma known_peaks tp side :
  Known tp = true ->
  exists p, ClosedPeaks tp = Ok p /\
    attained_max (curve Y1 tp side) (V1 p) /\
    attained_max (curve Y2 tp side) (V2 p) /\
    attained_max (curve Y3 tp side) (V3 p).
Proof.
  revert tp. apply Known_cases; (eexists; split; [reflexivity|]); cbn [V1 V2 V3]; ideal;
    [apply cosine_peaks|apply cycloid_peaks|apply parabolic_peaks].
Qed.

(** [ClosedPeaks] gives, exactly for the known laws, the maxima of |y'|,
    |y''| and |y'''| over all times, each reached at a time of the interval;
    any other name is the unknown-law error, from [EvalSide] too. *)
Theorem law_peaks_attained tp side :
  if Known tp then
    exists p, ClosedPeaks tp = Ok p /\
      attained_max (curve Y1 tp side) (V1 p) /\
      attained_max (curve Y2 tp side) (V2 p) /\
      attained_max (curve Y3 tp side) (V3 p)
  else ClosedPeaks (F := R) tp = Err (Sentinel ErrUnknownLaw) /\
       forall t, EvalSide tp t side = Err (Sentinel ErrUnknownLaw).
Proof.
  destruct (Known tp) eqn:Hk; [now apply known_peaks|].
  split; [now apply ClosedPeaks_unknown|]. intros t. now apply EvalSide_unknown.
Qed.

(** * The side argument *)

Lemma side_irrelevant tp t s1 s2 :
  Known tp = true -> ~ (tp = Parabolic /\ clamp01 t = 1 / 2) ->
  EvalSide tp t s1 = EvalSide tp t s2.
Proof.
  intros Hk H. apply Known_iff in Hk as [E|[E|E]]; subst tp; [reflexivity|reflexivity|].
  unfold EvalSide. cbn [String.eqb Ascii.eqb Bool.eqb Parabolic Cosine Cycloid].
  f_equal. destruct (Rtotal_order (clamp01 t) (1 / 2)) as [C|[C|C]].
  - now rewrite !evalParabolic_left by lra.
  - exfalso. apply H. auto.
  - now rewrite !evalParabolic_right by lra.
Qed.

(** Displacement and velocity never depend on the side. *)
Lemma curve_side tp s1 s2 t :
  Known tp = true ->
  curve Y tp s1 t = curve Y tp s2 t /\ curve Y1 tp s1 t = curve Y1 tp s2 t.
Proof.
  intros Hk. rewrite <- !(curve_clamp _ _ _ t). pose proof (clamp01_range t) as Hr.
  set (u := clamp01 t) in *.
  destruct (Req_dec u (1 / 2)) as [E|E].
  - apply Known_iff in Hk as [Hk|[Hk|Hk]]; subst tp; [auto|auto|].
    destruct (parabolic_Y s1 u Hr) as [(A & -> & ->)|(A & -> & ->)];
      destruct (parabolic_Y s2 u Hr) as [(B & -> & ->)|(B & -> & ->)]; rewrite E; lra.
  - unfold curve. rewrite (side_irrelevant tp u s1 s2); [auto|assumption|].
    rewrite clamp01_inside by assumption. tauto.
Qed.

(** Only the parabolic midpoint is one-sided: anywhere else the side does
    not change the values of a known law; at the midpoint displacement (1/2)
    and velocity (2) agree on both sides while the acceleration jumps from 4 to
    -4, the default side counting as the left one. *)
Theorem law_side tp t s1 s2 :
  Known tp = true ->
  (~ (tp = Parabolic /\ t = 1 / 2) -> EvalSide tp t s1 = EvalSide tp t s2) /\
  (tp = Parabolic -> t = 1 / 2 ->
   (s1 <= 0 -> EvalSide tp t s1 = Ok (mkValues (1 / 2) 2 4 0)) /\
   (0 < s1 -> EvalSide tp t s1 = Ok (mkValues (1 / 2) 2 (- (4)) 0))).
Proof.
  intros Hk. split.
  - intros H. apply side_irrelevant; [assumption|]. intros [E C]. apply H. split; [assumption|].
    unfold clamp01 in C. ideal. revert C. rtest; lra.
  - intros -> ->. split; intros Hs; rewrite parabolic_closed by lra.
    + rewrite evalParabolic_left by lra. do 2 f_equal; lra.
    + rewrite evalParabolic_right by lra. do 2 f_equal; lra.
Qed.

Lemma law_side_witness :
  Known Parabolic = true /\
  EvalSide Parabolic (1 / 2) 1 = Ok (mkValues (1 / 2) 2 (- (4)) 0).
Proof.
  split; [reflexivity|].
  destruct (law_side Parabolic (1 / 2) 1 1 eq_refl) as [_ H].
  destruct (H eq_refl eq_refl) as [_ H']. apply H'. lra.
Defined.
