(* ===== verification/Kinematics.v ===== *)
(** Package kinematics (internal/kinematics/kinematics.go): from dimensionless
    laws to displacement, velocity, acceleration and jerk of a follower.

    Generic in the arithmetic; [KinematicsSpec] has the theorems. *)
From Stdlib Require Import ZArith Lia String Bool List.
From S2P Require Import Prelude GoFloat.
From S2P Require Law.
Import ListNotations.
Local Open Scope string_scope.
Local Open Scope go_scope.

Definition AngleUnit : string := "degree".
Definition AngleSym : string := "°".
Definition OmegaUnit : string := "degree/s".
Definition DefaultPoints : Z := 361.
Definition MinPoints : Z := 2.
Definition MaxPoints : Z := 200001.

Record Spec (F : Type) := mkSpec {
  Type_ : string;
  H : F;
  Beta : F;
  Omega : F
}.
Arguments mkSpec {F}.
Arguments Type_ {F} _.
Arguments H {F} _.
Arguments Beta {F} _.
Arguments Omega {F} _.

Record Motion (F : Type) := mkMotion {
  Theta : F;
  Time : F;
  S_ : F;
  V_ : F;
  A_ : F;
  J_ : F
}.
Arguments mkMotion {F}.
Arguments Theta {F} _.
Arguments Time {F} _.
Arguments S_ {F} _.
Arguments V_ {F} _.
Arguments A_ {F} _.
Arguments J_ {F} _.

Record scales (F : Type) := mkScales { sc_v : F; sc_a : F; sc_j : F }.
Arguments mkScales {F}.
Arguments sc_v {F} _.
Arguments sc_a {F} _.
Arguments sc_j {F} _.

Record Peaks (F : Type) := mkPeaks { VMax : F; AMax : F; JMax : F }.
Arguments mkPeaks {F}.
Arguments VMax {F} _.
Arguments AMax {F} _.
Arguments JMax {F} _.

Record Seam (F : Type) := mkSeam {
  seam_Theta : F;
  seam_Kind : string;
  Left : Motion F;
  Right : Motion F;
  SCont : bool;
  VCont : bool;
  ACont : bool;
  JCont : bool;
  SJump : bool
}.
Arguments mkSeam {F}.
Arguments seam_Theta {F} _.
Arguments seam_Kind {F} _.
Arguments Left {F} _.
Arguments Right {F} _.
Arguments SCont {F} _.
Arguments VCont {F} _.
Arguments ACont {F} _.
Arguments JCont {F} _.
Arguments SJump {F} _.

Section Kinematics.
Context {F : Type} {GF : GoFloat F}.

Definition FullTurn : F := K 360.
Definition seamRelTol : F := K(1 / 1000000000).
Definition seamAbsFloor : F := K(1 / 1000000000000).

(** [math.IsNaN(x) || math.IsInf(x, 0) || x <= 0] *)
Definition not_positive (x : F) : bool := IsNaN x || IsInf0 x || (x <=? K 0).

Definition Validate (s : Spec F) : result F unit :=
  if negb (Law.Known (Type_ s)) then Err (Sentinel ErrUnknownLaw)
  else if not_positive (H s) then Err (ErrNew "h 必须为正数")
  else if not_positive (Beta s) then Err (ErrNew "β 必须为正数")
  else if Beta s >=? FullTurn then
    Err (Errorf [Lit "β 必须小于一周（"; Fmt0f FullTurn; Lit "°），当前为 ";
                 FmtG (Beta s); Lit "°"])
  else if not_positive (Omega s) then Err (ErrNew "ω 必须为正数")
  else Ok tt.

Definition factor (s : Spec F) : scales F :=
  let o := Omega s / Beta s in
  mkScales (H s * o) (H s * o * o) (H s * o * o * o).

Definition restore (w : Law.Values F) (f : scales F) (spec : Spec F)
    (theta t : F) (returning : bool) : Motion F :=
  let m := mkMotion theta t (H spec * Law.Y w)
             (sc_v f * Law.Y1 w) (sc_a f * Law.Y2 w) (sc_j f * Law.Y3 w) in
  if returning then
    mkMotion (Theta m) (Time m) (H spec - S_ m) (- V_ m) (- A_ m) (- J_ m)
  else m.

Definition Sample (spec : Spec F) (theta0 theta t : F) (returning : bool)
  : result F (Motion F) :=
  check (Validate spec) ;;
  let T := (theta - theta0) / Beta spec in
  w <- Law.Eval (Type_ spec) T ;;
  Ok (restore w (factor spec) spec theta t returning).

Definition SampleSide (spec : Spec F) (theta0 theta t : F) (returning : bool) (side : F)
  : result F (Motion F) :=
  check (Validate spec) ;;
  let T := (theta - theta0) / Beta spec in
  w <- Law.EvalSide (Type_ spec) T side ;;
  Ok (restore w (factor spec) spec theta t returning).

Definition ClosedPeaks (spec : Spec F) : result F (Peaks F) :=
  check (Validate spec) ;;
  p <- Law.ClosedPeaks (Type_ spec) ;;
  let f := factor spec in
  Ok (mkPeaks (sc_v f * Law.V1 p) (sc_a f * Law.V2 p) (sc_j f * Law.V3 p)).

(** One iteration of the loop of [Curve]. *)
Definition curve_point (spec : Spec F) (points i : Z) : result F (Motion F) :=
  let T := of_int i / of_int (points - 1) in
  w <- Law.Eval (Type_ spec) T ;;
  let theta := T * Beta spec in
  Ok (restore w (factor spec) spec theta (T * Beta spec / Omega spec) false).

Definition too_many_points : error F :=
  Errorf [Lit "网格点数超出上限 "; FmtD MaxPoints].

Definition Curve (spec : Spec F) (points : Z) : result F (list (Motion F) * Peaks F) :=
  check (Validate spec) ;;
  let points := if (points <? MinPoints)%Z then MinPoints else points in
  if (points >? MaxPoints)%Z then Err too_many_points
  else
    out <- mapM (curve_point spec points) (range points) ;;
    p <- ClosedPeaks spec ;;
    Ok (out, p).

Definition approxEqual (x y scale : F) : bool :=
  let tol := seamAbsFloor + seamRelTol * scale in
  Abs (x - y) <=? tol.

Definition Join (theta : F) (kind : string) (left right : Motion F) : Seam F :=
  let sScale := Max (Abs (S_ left)) (Abs (S_ right)) in
  let vScale := Max (Abs (V_ left)) (Abs (V_ right)) in
  let aScale := Max (Abs (A_ left)) (Abs (A_ right)) in
  let jScale := Max (Abs (J_ left)) (Abs (J_ right)) in
  let sCont := approxEqual (S_ left) (S_ right) sScale in
  mkSeam theta kind left right sCont
    (approxEqual (V_ left) (V_ right) vScale)
    (approxEqual (A_ left) (A_ right) aScale)
    (approxEqual (J_ left) (J_ right) jScale)
    (negb sCont).

Definition InternalSeams (spec : Spec F) (theta0 : F) : result F (list (Seam F)) :=
  check (Validate spec) ;;
  if negb (String.eqb (Type_ spec) Law.Parabolic) then Ok []
  else
    let tMid := K(1 / 2) * Beta spec / Omega spec in
    let theta := theta0 + Beta spec / K 2 in
    left <- SampleSide spec theta0 theta tMid false (K(- 1)) ;;
    right <- SampleSide spec theta0 theta tMid false (K 1) ;;
    Ok [Join theta "switch" left right].
End Kinematics.

(** * Lemmas that hold in every arithmetic *)

Section Generic.
Context {F : Type} {GF : GoFloat F}.
Implicit Types spec : Spec F.

(** [Validate] accepts exactly this predicate. *)
Definition accepted spec : bool :=
  Law.Known (Type_ spec) && negb (not_positive (H spec))
  && negb (not_positive (Beta spec)) && negb (Beta spec >=? FullTurn)
  && negb (not_positive (Omega spec)).

Lemma Validate_ok_iff spec : Validate spec = Ok tt <-> accepted spec = true.
Proof.
  unfold Validate, accepted.
  destruct (Law.Known (Type_ spec)); simpl; [|easy].
  destruct (not_positive (H spec)); simpl; [easy|].
  destruct (not_positive (Beta spec)); simpl; [easy|].
  destruct (Beta spec >=? FullTurn); simpl; [easy|].
  now destruct (not_positive (Omega spec)).
Qed.

Lemma Validate_Known spec u : Validate spec = Ok u -> Law.Known (Type_ spec) = true.
Proof. unfold Validate. now destruct (Law.Known (Type_ spec)). Qed.

Lemma Validate_no_panic spec : Validate spec <> Panic.
Proof. unfold Validate. repeat case_if; discriminate. Qed.

(** A valid spec always gives a sample. *)
Lemma SampleSide_Ok spec theta0 theta t r side :
  Validate spec = Ok tt ->
  exists w, Law.EvalSide (Type_ spec) ((theta - theta0) / Beta spec) side = Ok w /\
    SampleSide spec theta0 theta t r side = Ok (restore w (factor spec) spec theta t r).
Proof.
  intros Hv. unfold SampleSide. rewrite Hv. simpl.
  destruct (Law.EvalSide_Known (Type_ spec) ((theta - theta0) / Beta spec) side)
    as [w Hw]; [eapply Validate_Known; eassumption|].
  exists w. now rewrite Hw.
Qed.

(** [Sample] is [SampleSide] at side 0. *)
Lemma Sample_side spec theta0 theta t r :
  Sample spec theta0 theta t r = SampleSide spec theta0 theta t r (K 0).
Proof. reflexivity. Qed.

Lemma ClosedPeaks_Ok spec :
  Validate spec = Ok tt -> exists p, ClosedPeaks spec = Ok p.
Proof.
  intros Hv. unfold ClosedPeaks. rewrite Hv. simpl.
  destruct (Law.ClosedPeaks_Known (F := F) (Type_ spec)) as [p Hp];
    [eapply Validate_Known; eassumption|].
  rewrite Hp. simpl. eauto.
Qed.

(** Number of grid points [Curve] uses. *)
Definition grid_points (points : Z) : Z := Z.max MinPoints points.

Lemma curve_point_Ok spec points i :
  Law.Known (Type_ spec) = true -> exists m, curve_point spec points i = Ok m.
Proof.
  intros Hk. unfold curve_point, Law.Eval.
  destruct (Law.EvalSide_Known (Type_ spec) (of_int i / of_int (points - 1)) (K 0) Hk)
    as [w ->]. simpl. eauto.
Qed.

Lemma mapM_curve_Ok spec points l :
  Law.Known (Type_ spec) = true -> exists ms, mapM (curve_point spec points) l = Ok ms.
Proof.
  intros Hk. induction l as [|i l [ms IH]]; simpl; [eauto|].
  destruct (curve_point_Ok spec points i Hk) as [m ->]. simpl. rewrite IH. simpl. eauto.
Qed.
End Generic.

Lemma clamp_points points :
  (if (points <? MinPoints)%Z then MinPoints else points) = grid_points points.
Proof. unfold grid_points, MinPoints. destruct (Z.ltb_spec points 2); lia. Qed.
