(* ===== verification/KinematicsSpec.v ===== *)
(** What package kinematics promises: validation and sampling in every
    arithmetic; over the reals, velocity, acceleration and jerk are the time
    derivatives of the displacement of a follower turned at constant speed, the
    stroke runs from 0 to [h] (or back), and the closed-form peaks bound it. *)
From Stdlib Require Import ZArith Reals Lra Lia String Bool List.
From S2P Require Import Prelude GoFloat RealLib LawSpec Kinematics.
From S2P Require Law.
Import ListNotations.
Local Open Scope R_scope.

(** * Every arithmetic *)

Lemma curve_valid {F} {GF : GoFloat F} (spec : Spec F) (points : Z) :
  Validate spec = Ok tt -> (points <= MaxPoints)%Z ->
  exists out p, Curve spec points = Ok (out, p) /\
    ClosedPeaks spec = Ok p /\
    length out = Z.to_nat (grid_points points) /\
    forall i, (0 <= i < grid_points points)%Z ->
      exists m, nth_error out (Z.to_nat i) = Some m /\
        curve_point spec (grid_points points) i = Ok m.
Proof.
  intros Hv Hp. unfold Curve. rewrite Hv. cbn [bind]. rewrite clamp_points, Z.gtb_ltb.
  unfold grid_points, MinPoints, MaxPoints in *.
  destruct (Z.ltb_spec 200001 (Z.max 2 points)); [lia|].
  destruct (mapM_curve_Ok spec (Z.max 2 points) (range (Z.max 2 points))) as [out Ho];
    [eapply Validate_Known; eassumption|].
  destruct (ClosedPeaks_Ok spec Hv) as [p Hpk]. rewrite Ho. cbn [bind]. rewrite Hpk.
  exists out, p. repeat split.
  - now rewrite (mapM_length _ _ _ Ho), range_length.
  - intros i Hi. apply (mapM_nth_error _ _ _ _ i Ho). now apply range_nth.
Qed.

Lemma curve_rejects {F} {GF : GoFloat F} (spec : Spec F) (points : Z) :
  (forall e, Validate spec = Err e -> Curve spec points = Err e) /\
  (Validate spec = Ok tt -> (MaxPoints < points)%Z -> Curve spec points = Err too_many_points).
Proof.
  unfold Curve. split; [intros e ->; reflexivity|]. intros -> Hp. cbn [bind].
  rewrite clamp_points, Z.gtb_ltb. unfold grid_points, MinPoints, MaxPoints in *.
  destruct (Z.ltb_spec 200001 (Z.max 2 points)); [reflexivity|lia].
Qed.

(** The success branch of [Curve], read backwards. *)
Lemma curve_Ok_inv {F} {GF : GoFloat F} (spec : Spec F) points r :
  Curve spec points = Ok r -> Validate spec = Ok tt /\ (points <= MaxPoints)%Z.
Proof.
  intros Hc. destruct (curve_rejects spec points) as [R1 R2].
  destruct (Validate spec) as [[]|e|] eqn:Hv.
  - split; [reflexivity|]. destruct (Z.leb_spec points MaxPoints); [assumption|].
    rewrite R2 in Hc by (auto || lia). discriminate.
  - rewrite (R1 e eq_refl) in Hc. discriminate.
  - now apply Validate_no_panic in Hv.
Qed.

(** in every arithmetic, [Curve] on any request: the rejections in order,
    then one sample per grid index, at least two of them, with the closed-form
    peaks; it never panics. *)
Theorem curve_outcome {F} {GF : GoFloat F} (spec : Spec F) (points : Z) :
  match Validate spec with
  | Ok _ =>
      if (points >? MaxPoints)%Z then Curve spec points = Err too_many_points
      else exists out p, Curve spec points = Ok (out, p) /\
        ClosedPeaks spec = Ok p /\
        length out = Z.to_nat (grid_points points) /\
        forall i, (0 <= i < grid_points points)%Z ->
          exists m, nth_error out (Z.to_nat i) = Some m /\
            curve_point spec (grid_points points) i = Ok m
  | Err e => Curve spec points = Err e
  | Panic => False
  end.
Proof.
  destruct (curve_rejects spec points) as [R1 R2].
  destruct (Validate spec) as [[]|e|] eqn:Hv.
  - rewrite Z.gtb_ltb. destruct (Z.ltb_spec MaxPoints points); [auto|].
    now apply curve_valid.
  - now apply R1.
  - now apply (Validate_no_panic spec).
Qed.

(** * The reals *)

Lemma not_positive_R x : not_positive x = false <-> 0 < x.
Proof. unfold not_positive. ideal. destruct (Rleb_spec x 0); split; intros; (lra || easy). Qed.

(** A valid specification, over the reals. *)
Lemma Validate_R (s : Spec R) :
  Validate s = Ok tt <->
  Law.Known (Type_ s) = true /\ 0 < H s /\ 0 < Beta s < 360 /\ 0 < Omega s.
Proof.
  rewrite Validate_ok_iff. unfold accepted.
  rewrite !andb_true_iff, !negb_true_iff, !not_positive_R. unfold FullTurn. ideal.
  destruct (Rleb_spec 360 (Beta s)); intuition (try lra; try discriminate).
Qed.

(** A field of the sample as a function of the cam angle. *)
Definition sampled (f : Motion R -> R) (s : Spec R) (theta0 : R) (ret : bool)
    (side theta : R) : R :=
  match SampleSide s theta0 theta 0 ret side with Ok m => f m | _ => 0 end.

Section Valid.
Variable s : Spec R.
Hypothesis Hv : Validate s = Ok tt.

Let Hk : Law.Known (Type_ s) = true.
Proof. now apply Validate_R in Hv. Qed.
Lemma valid_H : 0 < H s.
Proof. now apply Validate_R in Hv. Qed.
Lemma valid_Beta : 0 < Beta s < 360.
Proof. now apply Validate_R in Hv. Qed.
Lemma valid_Omega : 0 < Omega s.
Proof. now apply Validate_R in Hv. Qed.

Definition dimless (theta0 theta : R) : R := (theta - theta0) / Beta s.
Definition speed : R := Omega s / Beta s.

Lemma speed_pos : 0 < speed.
Proof. pose proof valid_Beta. pose proof valid_Omega. apply Rdiv_lt_0_compat; lra. Qed.

(** The sign of a derivative: the return stroke mirrors it. *)
Definition sgn (ret : bool) : R := if ret then -1 else 1.

Lemma SampleSide_val theta0 theta t ret side :
  exists m, SampleSide s theta0 theta t ret side = Ok m /\
    let T := dimless theta0 theta in
    let y f := curve f (Type_ s) side T in
    Theta m = theta /\ Time m = t /\
    S_ m = (if ret then H s - H s * y Law.Y else H s * y Law.Y) /\
    V_ m = sgn ret * (H s * speed * y Law.Y1) /\
    A_ m = sgn ret * (H s * speed * speed * y Law.Y2) /\
    J_ m = sgn ret * (H s * speed * speed * speed * y Law.Y3).
Proof.
  destruct (SampleSide_Ok s theta0 theta t ret side Hv) as (w & Hw & ->).
  eexists. split; [reflexivity|]. cbv zeta. unfold curve, dimless. ideal.
  rewrite Hw. unfold restore, factor, speed, sgn. ideal.
  destruct ret; cbn [Theta Time S_ V_ A_ J_ sc_v sc_a sc_j]; repeat split; ring.
Qed.

Lemma sampled_val theta0 ret side theta :
  let y f := curve f (Type_ s) side (dimless theta0 theta) in
  sampled S_ s theta0 ret side theta =
    (if ret then H s - H s * y Law.Y else H s * y Law.Y) /\
  sampled V_ s theta0 ret side theta = sgn ret * (H s * speed * y Law.Y1) /\
  sampled A_ s theta0 ret side theta = sgn ret * (H s * speed * speed * y Law.Y2) /\
  sampled J_ s theta0 ret side theta = sgn ret * (H s * speed * speed * speed * y Law.Y3).
Proof.
  cbv zeta. unfold sampled.
  destruct (SampleSide_val theta0 theta 0 ret side) as (m & -> & _ & _ & A & B & C & D).
  auto.
Qed.
End Valid.

(** ** Derivatives in time *)

Section Motion.
Variable s : Spec R.
Hypothesis Hv : Validate s = Ok tt.
Variables (theta0 side : R) (ret : bool).

(** The sample at time [t] of a cam that turns at [Omega] from [theta0]. *)
Definition along (f : Motion R -> R) (t : R) : R :=
  sampled f s theta0 ret side (theta0 + Omega s * t).

Lemma dimless_along t : dimless s theta0 (theta0 + Omega s * t) = speed s * t + 0.
Proof. pose proof (valid_Beta s Hv). unfold dimless, speed. field. lra. Qed.

Lemma curve_along f t l :
  derivable_pt_lim (curve f (Type_ s) side) (speed s * t + 0) l ->
  derivable_pt_lim (fun t => curve f (Type_ s) side (dimless s theta0 (theta0 + Omega s * t)))
    t (speed s * l).
Proof.
  intros Hd.
  apply (derivable_pt_lim_ext (fun t => curve f (Type_ s) side (speed s * t + 0))).
  - intros z. now rewrite dimless_along.
  - now apply D_affine.
Qed.

Lemma along_S t l :
  derivable_pt_lim (curve Law.Y (Type_ s) side) (speed s * t + 0) l ->
  derivable_pt_lim (along S_) t (sgn ret * (H s * speed s * l)).
Proof.
  intros Hd. apply curve_along in Hd.
  set (g t := curve Law.Y (Type_ s) side (dimless s theta0 (theta0 + Omega s * t))) in *.
  apply (derivable_pt_lim_ext (fun t => if ret then H s - H s * g t else H s * g t)).
  - intros z. symmetry. apply (sampled_val s Hv theta0 ret side (theta0 + Omega s * z)).
  - unfold sgn. destruct ret.
    + eapply D_eq; [apply D_minus; [apply D_const|apply D_scal; exact Hd]|ring].
    + eapply D_eq; [apply D_scal; exact Hd|ring].
Qed.

(** The derivative of a scaled derivative field. *)
Lemma along_scaled (fm : Motion R -> R) (f : Law.Values R -> R) c t l :
  (forall theta, sampled fm s theta0 ret side theta =
                 sgn ret * (c * curve f (Type_ s) side (dimless s theta0 theta))) ->
  derivable_pt_lim (curve f (Type_ s) side) (speed s * t + 0) l ->
  derivable_pt_lim (along fm) t (sgn ret * (c * speed s * l)).
Proof.
  intros E Hd. apply curve_along in Hd.
  set (g t := curve f (Type_ s) side (dimless s theta0 (theta0 + Omega s * t))) in *.
  apply (derivable_pt_lim_ext (fun t => sgn ret * (c * g t))).
  - intros z. symmetry. apply E.
  - eapply D_eq; [apply D_scal, D_scal; exact Hd|ring].
Qed.

Lemma speed_time t : 0 < Omega s * t < Beta s -> 0 < speed s * t < 1.
Proof.
  intros Ht. pose proof (valid_Beta s Hv).
  replace (speed s * t) with ((Omega s * t) / Beta s) by (unfold speed; field; lra).
  split; [apply Rdiv_lt_0_compat; lra|].
  apply Rmult_lt_reg_r with (Beta s); [lra|].
  unfold Rdiv. rewrite Rmult_assoc, Rinv_l by lra. lra.
Qed.

Lemma along_at fm t : along fm t = sampled fm s theta0 ret side (theta0 + Omega s * t).
Proof. reflexivity. Qed.
End Motion.

(** C1: kinematics: a valid segment turned at its constant speed moves with the
    reported velocity, acceleration and jerk: the velocity is the time
    derivative of the displacement at every time, before and after the segment
    too; inside it acceleration is that of velocity and jerk that of
    acceleration, everywhere but at the parabolic midpoint, on the rise and on
    the return. *)
Theorem sample_is_derivative (s : Spec R) theta0 side ret t :
  Validate s = Ok tt ->
  derivable_pt_lim (along s theta0 side ret S_) t (along s theta0 side ret V_ t) /\
  (0 < Omega s * t < Beta s -> ~ (Type_ s = Law.Parabolic /\ Omega s * t = Beta s / 2) ->
   derivable_pt_lim (along s theta0 side ret V_) t (along s theta0 side ret A_ t) /\
   derivable_pt_lim (along s theta0 side ret A_) t (along s theta0 side ret J_ t)).
Proof.
  intros Hv. pose proof (valid_Beta s Hv) as HB.
  assert (Hk : Law.Known (Type_ s) = true) by now apply Validate_R in Hv.
  pose proof (known_velocity (Type_ s) side (speed s * t + 0) Hk) as D1.
  assert (E : forall f, curve f (Type_ s) side (dimless s theta0 (theta0 + Omega s * t)) =
                        curve f (Type_ s) side (speed s * t + 0))
    by (intros f; now rewrite dimless_along).
  pose proof (fun th => sampled_val s Hv theta0 ret side th) as Val. cbv zeta in Val.
  destruct (Val (theta0 + Omega s * t)) as (_ & EV & EA & EJ).
  rewrite E in EV, EA, EJ.
  split.
  - rewrite along_at, EV. now apply along_S.
  - intros Ht Hm. pose proof (speed_time s Hv t Ht) as HT.
    destruct (known_acceleration_jerk (Type_ s) side (speed s * t + 0) Hk ltac:(lra)) as [D2 D3].
    { intros [Hp Hh]. apply Hm. split; [assumption|].
      replace (Omega s * t) with ((speed s * t + 0) * Beta s)
        by (unfold speed; field; lra). rewrite Hh. field. }
    rewrite !along_at, EA, EJ. split.
    + apply (along_scaled s Hv _ _ _ _ Law.Y1 (H s * speed s)); [apply Val|assumption].
    + apply (along_scaled s Hv _ _ _ _ Law.Y2 (H s * speed s * speed s)); [apply Val|assumption].
Qed.

Definition sample_spec : Spec R := mkSpec Law.Cycloid 10 60 360.

Lemma sample_spec_valid : Validate sample_spec = Ok tt.
Proof. apply Validate_R. cbn [sample_spec Type_ H Beta Omega]. repeat split; try reflexivity; lra. Qed.

Lemma sample_is_derivative_witness :
  Validate sample_spec = Ok tt /\
  derivable_pt_lim (along sample_spec 0 0 true S_) (1 / 10)
    (along sample_spec 0 0 true V_ (1 / 10)).
Proof.
  split; [exact sample_spec_valid|].
  apply (sample_is_derivative sample_spec 0 0 true (1 / 10) sample_spec_valid).
Defined.

(** ** The stroke *)

Section Stroke.
Variable s : Spec R.
Hypothesis Hv : Validate s = Ok tt.

Lemma dimless_le theta0 a b : a <= b -> dimless s theta0 a <= dimless s theta0 b.
Proof.
  intros Hab. pose proof (valid_Beta s Hv). unfold dimless, Rdiv.
  apply Rmult_le_compat_r; [left; apply Rinv_0_lt_compat; lra|lra].
Qed.

Lemma dimless_start theta0 : dimless s theta0 theta0 = 0.
Proof. unfold dimless, Rdiv. ring. Qed.

Lemma dimless_end theta0 : dimless s theta0 (theta0 + Beta s) = 1.
Proof. pose proof (valid_Beta s Hv). unfold dimless. field. lra. Qed.

(** The displacement field of the law, mirrored on the return. *)
Lemma sampled_before theta0 (ret : bool) side theta :
  theta <= theta0 ->
  sampled S_ s theta0 ret side theta = (if ret then H s else 0) /\
  sampled V_ s theta0 ret side theta = 0.
Proof.
  intros Ht. destruct (sampled_val s Hv theta0 ret side theta) as (-> & -> & _).
  apply (dimless_le theta0) in Ht. rewrite dimless_start in Ht.
  assert (Hk : Law.Known (Type_ s) = true) by now apply Validate_R in Hv.
  destruct (curve_before _ side _ Hk Ht) as [-> ->].
  destruct ret; lra.
Qed.

Lemma sampled_after theta0 (ret : bool) side theta :
  theta0 + Beta s <= theta ->
  sampled S_ s theta0 ret side theta = (if ret then 0 else H s) /\
  sampled V_ s theta0 ret side theta = 0.
Proof.
  intros Ht. destruct (sampled_val s Hv theta0 ret side theta) as (-> & -> & _).
  apply (dimless_le theta0) in Ht. rewrite dimless_end in Ht.
  assert (Hk : Law.Known (Type_ s) = true) by now apply Validate_R in Hv.
  destruct (curve_after _ side _ Hk Ht) as [-> ->].
  destruct ret; lra.
Qed.

Lemma sampled_mono theta0 (ret : bool) side a b :
  a <= b ->
  (if ret then sampled S_ s theta0 ret side b <= sampled S_ s theta0 ret side a
   else sampled S_ s theta0 ret side a <= sampled S_ s theta0 ret side b).
Proof.
  intros Hab. apply (dimless_le theta0) in Hab. pose proof (valid_H s Hv) as HH.
  destruct (sampled_val s Hv theta0 ret side a) as (-> & _).
  destruct (sampled_val s Hv theta0 ret side b) as (-> & _).
  assert (Hk : Law.Known (Type_ s) = true) by now apply Validate_R in Hv.
  pose proof (curve_mono _ side _ _ Hk Hab). destruct ret; nra.
Qed.

Lemma sampled_range theta0 ret side theta :
  0 <= sampled S_ s theta0 ret side theta <= H s.
Proof.
  pose proof (valid_H s Hv) as HH.
  destruct (sampled_val s Hv theta0 ret side theta) as (-> & _).
  assert (Hk : Law.Known (Type_ s) = true) by now apply Validate_R in Hv.
  pose proof (curve_range _ side (dimless s theta0 theta) Hk). destruct ret; nra.
Qed.
End Stroke.

(** C14: a valid segment is a monotone stroke: the displacement starts at 0 (at
    [h] on the return) and ends at [h] (at 0), with velocity 0 outside the
    segment, moves in one direction only and never leaves [0, h]. *)
Theorem segment_stroke (s : Spec R) theta0 (ret : bool) side :
  Validate s = Ok tt ->
  (forall theta, theta <= theta0 ->
     sampled S_ s theta0 ret side theta = (if ret then H s else 0) /\
     sampled V_ s theta0 ret side theta = 0) /\
  (forall theta, theta0 + Beta s <= theta ->
     sampled S_ s theta0 ret side theta = (if ret then 0 else H s) /\
     sampled V_ s theta0 ret side theta = 0) /\
  (forall a b, a <= b ->
     if ret then sampled S_ s theta0 ret side b <= sampled S_ s theta0 ret side a
     else sampled S_ s theta0 ret side a <= sampled S_ s theta0 ret side b) /\
  (forall theta, 0 <= sampled S_ s theta0 ret side theta <= H s).
Proof.
  intros Hv. repeat apply conj; intros.
  - now apply sampled_before.
  - now apply sampled_after.
  - now apply sampled_mono.
  - now apply sampled_range.
Qed.

Lemma segment_stroke_witness :
  Validate sample_spec = Ok tt /\ sampled S_ sample_spec 30 true 0 90 = 0.
Proof.
  split; [exact sample_spec_valid|].
  destruct (segment_stroke sample_spec 30 true 0 sample_spec_valid) as (_ & U & _).
  destruct (U 90) as [E _]; [cbn [sample_spec Beta]; lra|exact E].
Defined.

(** ** Peaks *)

Lemma Rabs_sgn (ret : bool) x : Rabs (sgn ret * x) = Rabs x.
Proof.
  unfold sgn. destruct ret; [|now rewrite Rmult_1_l].
  rewrite Rabs_mult, Rabs_left by lra. lra.
Qed.

Section Peaks.
Variable s : Spec R.
Hypothesis Hv : Validate s = Ok tt.

(** A field that is [c] times a law field with an attained maximum has one. *)
Lemma scaled_attained (fm : Motion R -> R) f c m theta0 (ret : bool) side :
  0 <= c ->
  (forall theta, sampled fm s theta0 ret side theta =
                 sgn ret * (c * curve f (Type_ s) side (dimless s theta0 theta))) ->
  attained_max (curve f (Type_ s) side) m ->
  (forall theta, Rabs (sampled fm s theta0 ret side theta) <= c * m) /\
  (exists theta, theta0 <= theta <= theta0 + Beta s /\
     Rabs (sampled fm s theta0 ret side theta) = c * m).
Proof.
  intros Hc E [B (T & HT & A)]. split.
  - intros theta. rewrite E, Rabs_sgn, Rabs_mult, (Rabs_pos_eq c) by assumption.
    apply Rmult_le_compat_l; [assumption|apply B].
  - pose proof (valid_Beta s Hv). exists (theta0 + T * Beta s). split; [nra|].
    rewrite E, Rabs_sgn, Rabs_mult, (Rabs_pos_eq c) by assumption.
    replace (dimless s theta0 (theta0 + T * Beta s)) with T
      by (unfold dimless; field; lra). now rewrite A.
Qed.
End Peaks.

(** [m] bounds a field of the sample at every angle and is reached in the segment. *)
Definition peak (s : Spec R) theta0 ret side (fm : Motion R -> R) (m : R) : Prop :=
  (forall theta, Rabs (sampled fm s theta0 ret side theta) <= m) /\
  (exists theta, theta0 <= theta <= theta0 + Beta s /\
     Rabs (sampled fm s theta0 ret side theta) = m).

Lemma peaks_valid (s : Spec R) theta0 ret side :
  Validate s = Ok tt ->
  exists p, ClosedPeaks s = Ok p /\
    peak s theta0 ret side V_ (VMax p) /\ peak s theta0 ret side A_ (AMax p) /\
    peak s theta0 ret side J_ (JMax p).
Proof.
  intros Hv. assert (Hk : Law.Known (Type_ s) = true) by now apply Validate_R in Hv.
  destruct (known_peaks (Type_ s) side Hk) as (p & Hp & P1 & P2 & P3).
  unfold ClosedPeaks. rewrite Hv. cbn [bind]. rewrite Hp. cbn [bind].
  eexists. split; [reflexivity|]. cbn [VMax AMax JMax].
  pose proof (speed_pos s Hv) as Hs. pose proof (valid_H s Hv) as HH.
  pose proof (fun th => sampled_val s Hv theta0 ret side th) as Val. cbv zeta in Val.
  unfold factor. ideal. cbn [sc_v sc_a sc_j]. fold (speed s).
  assert (P1' : 0 < H s * speed s) by nra.
  assert (P2' : 0 < H s * speed s * speed s) by nra.
  assert (P3' : 0 < H s * speed s * speed s * speed s) by nra.
  split; [|split].
  - apply (scaled_attained s Hv _ Law.Y1); [lra|apply Val|assumption].
  - apply (scaled_attained s Hv _ Law.Y2); [lra|apply Val|assumption].
  - apply (scaled_attained s Hv _ Law.Y3); [lra|apply Val|assumption].
Qed.

(** C13: the closed-form peaks of a valid segment bound velocity, acceleration
    and jerk at every angle, on the rise and on the return, and each is reached
    at an angle of the segment. *)
Theorem closed_peaks_attained (s : Spec R) theta0 ret side :
  Validate s = Ok tt ->
  exists p, ClosedPeaks s = Ok p /\
    peak s theta0 ret side V_ (VMax p) /\ peak s theta0 ret side A_ (AMax p) /\
    peak s theta0 ret side J_ (JMax p).
Proof. apply peaks_valid. Qed.

Lemma closed_peaks_attained_witness :
  Validate sample_spec = Ok tt /\ exists p, ClosedPeaks sample_spec = Ok p.
Proof.
  split; [exact sample_spec_valid|].
  destruct (closed_peaks_attained sample_spec 0 false 0 sample_spec_valid) as (p & Hp & _).
  exists p. exact Hp.
Defined.

(** ** The lift curve *)

Lemma curve_point_R (s : Spec R) n i :
  Validate s = Ok tt -> (2 <= n)%Z -> (0 <= i < n)%Z ->
  exists m, curve_point s n i = Ok m /\
    Theta m = Beta s * (IZR i / IZR (n - 1)) /\ Time m = Theta m / Omega s /\
    S_ m = sampled S_ s 0 false 0 (Theta m) /\ V_ m = sampled V_ s 0 false 0 (Theta m) /\
    A_ m = sampled A_ s 0 false 0 (Theta m) /\ J_ m = sampled J_ s 0 false 0 (Theta m).
Proof.
  intros Hv Hn Hi. pose proof (valid_Beta s Hv) as HB.
  assert (Hk : Law.Known (Type_ s) = true) by now apply Validate_R in Hv.
  unfold curve_point, Law.Eval.
  set (T := of_int i / of_int (n - 1)).
  destruct (Law.EvalSide_Known (Type_ s) T (of_const 0) Hk) as [w Hw].
  change (fdiv (of_int i) (of_int (n - 1))) with T. rewrite Hw. cbn [bind].
  eexists. split; [reflexivity|].
  assert (E : forall f, curve f (Type_ s) 0 (dimless s 0 (Beta s * T)) = f w).
  { intros f. replace (dimless s 0 (Beta s * T)) with T
      by (unfold dimless; field; lra).
    unfold curve. ideal. now rewrite Hw. }
  unfold restore, factor. ideal. cbn [Theta Time S_ V_ A_ J_ sc_v sc_a sc_j].
  rewrite (Rmult_comm T).
  destruct (sampled_val s Hv 0 false 0 (Beta s * T)) as (-> & -> & -> & ->).
  rewrite !E. unfold sgn, speed. repeat split; try ring.
Qed.

(** the lift curve samples the stroke on an equidistant grid that contains
    both ends: point [i] of [n] sits at angle [beta*i/(n-1)] and time
    [theta/omega] and carries the closed-form values there; the first point is
    at rest at 0, the last at rest at [h]; the reported peaks bound them all. *)
Theorem lift_curve_grid (s : Spec R) points out p :
  Curve s points = Ok (out, p) ->
  let n := grid_points points in
  length out = Z.to_nat n /\
  (forall i, (0 <= i < n)%Z -> exists m, nth_error out (Z.to_nat i) = Some m /\
     Theta m = Beta s * (IZR i / IZR (n - 1)) /\ Time m = Theta m / Omega s /\
     S_ m = sampled S_ s 0 false 0 (Theta m) /\
     Rabs (V_ m) <= VMax p /\ Rabs (A_ m) <= AMax p /\ Rabs (J_ m) <= JMax p) /\
  (exists m, nth_error out 0 = Some m /\ Theta m = 0 /\ S_ m = 0 /\ V_ m = 0) /\
  (exists m, last_option out = Some m /\ Theta m = Beta s /\ S_ m = H s /\ V_ m = 0).
Proof.
  intros Hc n. destruct (curve_Ok_inv _ _ _ Hc) as [Hv Hmax].
  destruct (curve_valid s points Hv Hmax) as (out' & p' & Hc' & Hp & Hl & Hi).
  rewrite Hc in Hc'. injection Hc' as <- <-. fold n in Hl, Hi.
  assert (Hn : (2 <= n)%Z) by (unfold n, grid_points, MinPoints; lia).
  assert (Hin : forall i, (0 <= i < n)%Z -> exists m, nth_error out (Z.to_nat i) = Some m /\
     Theta m = Beta s * (IZR i / IZR (n - 1)) /\ Time m = Theta m / Omega s /\
     S_ m = sampled S_ s 0 false 0 (Theta m) /\ V_ m = sampled V_ s 0 false 0 (Theta m) /\
     A_ m = sampled A_ s 0 false 0 (Theta m) /\ J_ m = sampled J_ s 0 false 0 (Theta m)).
  { intros i Hr. destruct (Hi i Hr) as (m & Hm & Hcp).
    destruct (curve_point_R s n i Hv Hn Hr) as (m' & Hm' & R). exists m. split; [assumption|].
    congruence. }
  destruct (peaks_valid s 0 false 0 Hv) as (q & Hq & (PV & _) & (PA & _) & (PJ & _)).
  assert (q = p) by congruence. subst q.
  split; [assumption|]. split; [|split].
  - intros i Hr. destruct (Hin i Hr) as (m & A & B & C & D & EV & EA & EJ).
    exists m. rewrite EV, EA, EJ. auto 10.
  - destruct (Hin 0%Z ltac:(lia)) as (m & A & B & _ & D & E & _). exists m.
    assert (T0 : Theta m = 0) by (rewrite B; unfold Rdiv; ring).
    rewrite T0 in D, E. destruct (sampled_before s Hv 0 false 0 0 (Rle_refl _)) as [U V].
    rewrite <- D in U. rewrite <- E in V. auto.
  - destruct (Hin (n - 1)%Z ltac:(lia)) as (m & A & B & _ & D & E & _). exists m.
    assert (T1 : Theta m = Beta s).
    { rewrite B. field. apply not_0_IZR. lia. }
    rewrite T1 in D, E.
    destruct (sampled_after s Hv 0 false 0 (Beta s) ltac:(lra)) as [U V].
    rewrite <- D in U. rewrite <- E in V. split; [|auto].
    assert (Hlast : (Z.to_nat (n - 1) = length out - 1)%nat) by lia.
    rewrite Hlast in A. now apply last_option_nth.
Qed.

Lemma lift_curve_grid_witness :
  exists out p, Curve sample_spec 3 = Ok (out, p) /\
    exists m, last_option out = Some m /\ Theta m = 60 /\ S_ m = 10.
Proof.
  destruct (curve_valid sample_spec 3 sample_spec_valid ltac:(unfold MaxPoints; lia))
    as (out & p & Hc & _).
  exists out, p. split; [exact Hc|].
  destruct (lift_curve_grid sample_spec 3 out p Hc) as (_ & _ & _ & m & A & B & C & _).
  exists m. auto.
Defined.

(** ** Seams *)

(** The tolerance of the continuity test for two values. *)
Definition seam_tol (x y : R) : R :=
  1 / 1000000000000 + 1 / 1000000000 * Rmax (Rabs x) (Rabs y).

Lemma seam_tol_sym x y : seam_tol x y = seam_tol y x.
Proof. unfold seam_tol. now rewrite Rmax_comm. Qed.

Lemma approxEqual_R x y :
  approxEqual x y (Rmax (Rabs x) (Rabs y)) = true <-> Rabs (x - y) <= seam_tol x y.
Proof.
  unfold approxEqual, seam_tol, seamAbsFloor, seamRelTol. ideal.
  now rewrite Rleb_iff.
Qed.

Lemma seam_tol_pos x y : 0 < seam_tol x y.
Proof.
  unfold seam_tol. pose proof (Rmax_l (Rabs x) (Rabs y)). pose proof (Rabs_pos x). lra.
Qed.

Lemma approxEqual_refl x y :
  x = y -> approxEqual x y (Rmax (Rabs x) (Rabs y)) = true.
Proof.
  intros ->. apply approxEqual_R. rewrite Rminus_diag, Rabs_R0.
  left. apply seam_tol_pos.
Qed.

(** a seam compares the two sides quantity by quantity against the relative
    tolerance 1e-9 plus the absolute floor 1e-12, keeps both sides, flags a
    displacement jump exactly when the displacement is not continuous, and does
    not depend on which side is called left. *)
Theorem join_decides theta kind (l r : Motion R) :
  let sm := Join theta kind l r in
  (SCont sm = true <-> Rabs (S_ l - S_ r) <= seam_tol (S_ l) (S_ r)) /\
  (VCont sm = true <-> Rabs (V_ l - V_ r) <= seam_tol (V_ l) (V_ r)) /\
  (ACont sm = true <-> Rabs (A_ l - A_ r) <= seam_tol (A_ l) (A_ r)) /\
  (JCont sm = true <-> Rabs (J_ l - J_ r) <= seam_tol (J_ l) (J_ r)) /\
  SJump sm = negb (SCont sm) /\ Left sm = l /\ Right sm = r /\
  let sm' := Join theta kind r l in
  SCont sm' = SCont sm /\ VCont sm' = VCont sm /\ ACont sm' = ACont sm /\ JCont sm' = JCont sm.
Proof.
  cbv zeta. unfold Join. cbn [SCont VCont ACont JCont SJump Left Right].
  change (Max (F := R)) with Rmax. change (Abs (F := R)) with Rabs.
  do 4 (split; [apply approxEqual_R|]). repeat split;
    apply eq_true_iff_eq; rewrite !approxEqual_R, seam_tol_sym, Rabs_minus_sym; reflexivity.
Qed.

Lemma SampleSide_parabolic_mid (s : Spec R) theta0 t ret side :
  Validate s = Ok tt -> Type_ s = Law.Parabolic -> side <> 0 ->
  exists m, SampleSide s theta0 (theta0 + Beta s / 2) t ret side = Ok m /\
    S_ m = H s / 2 /\ V_ m = sgn ret * (2 * (H s * speed s)) /\
    A_ m = sgn ret * (- Rabs side / side) * (4 * (H s * speed s * speed s)) /\ J_ m = 0.
Proof.
  intros Hv Hp Hside. pose proof (valid_Beta s Hv) as HB.
  destruct (SampleSide_val s Hv theta0 (theta0 + Beta s / 2) t ret side)
    as (m & Hm & _ & _ & ES & EV & EA & EJ).
  exists m. split; [assumption|].
  replace (dimless s theta0 (theta0 + Beta s / 2)) with (1 / 2) in *
    by (unfold dimless; field; lra).
  rewrite Hp in *. rewrite ES, EV, EA, EJ.
  destruct (Rlt_dec side 0).
  - rewrite !curve_parabolic_left by lra. cbn [Law.Y Law.Y1 Law.Y2 Law.Y3].
    rewrite Rabs_left by assumption. unfold sgn. destruct ret; repeat split; field; assumption.
  - rewrite !curve_parabolic_right by lra. cbn [Law.Y Law.Y1 Law.Y2 Law.Y3].
    rewrite Rabs_pos_eq by lra. unfold sgn. destruct ret; repeat split; field; assumption.
Qed.

Lemma switch_acceleration x :
  0 < x -> (Rabs (x - - x) <= seam_tol x (- x) <-> x <= 1 / (2 * 1000000000000 - 1000)).
Proof.
  intros Hx. unfold seam_tol. rewrite Rabs_Ropp, (Rabs_pos_eq x) by lra.
  rewrite Rmax_left by lra. rewrite Rabs_pos_eq by lra. lra.
Qed.

(** The two sides of a parabolic midpoint, joined. *)
Lemma switch_seam (s : Spec R) theta0 t ret theta kind :
  Validate s = Ok tt -> Type_ s = Law.Parabolic ->
  exists l r,
    SampleSide s theta0 (theta0 + Beta s / 2) t ret (- (1)) = Ok l /\
    SampleSide s theta0 (theta0 + Beta s / 2) t ret 1 = Ok r /\
    A_ l = sgn ret * (4 * (H s * speed s * speed s)) /\ A_ r = - A_ l /\
    let sm := Join theta kind l r in
    SCont sm = true /\ VCont sm = true /\ JCont sm = true /\ SJump sm = false /\
    (ACont sm = true <-> 4 * (H s * speed s * speed s) <= 1 / (2 * 1000000000000 - 1000)).
Proof.
  intros Hv Hp. pose proof (speed_pos s Hv) as Hs. pose proof (valid_H s Hv) as HH.
  destruct (SampleSide_parabolic_mid s theta0 t ret (- (1)) Hv Hp ltac:(lra))
    as (l & Hl & Sl & Vl & Al & Jl).
  destruct (SampleSide_parabolic_mid s theta0 t ret 1 Hv Hp ltac:(lra))
    as (r & Hr & Sr & Vr & Ar & Jr).
  rewrite Rabs_Ropp, Rabs_R1 in Al. rewrite Rabs_R1 in Ar.
  exists l, r. split; [assumption|split; [assumption|]].
  split; [rewrite Al; field|]. split; [rewrite Al, Ar; field|].
  cbv zeta. unfold Join. cbn [SCont VCont ACont JCont SJump].
  change (Max (F := R)) with Rmax. change (Abs (F := R)) with Rabs.
  rewrite !approxEqual_refl by congruence. repeat (split; [reflexivity|]).
  rewrite approxEqual_R, Al, Ar. unfold sgn.
  assert (Hx : 0 < 4 * (H s * speed s * speed s))
    by (assert (0 < H s * speed s) by nra; nra).
  rewrite <- switch_acceleration by assumption.
  set (x := 4 * (H s * speed s * speed s)) in *.
  destruct ret.
  - replace (-1 * (- (1) / - (1)) * x) with (- x) by field.
    replace (-1 * (- (1) / 1) * x) with (- - x) by field.
    rewrite seam_tol_sym, Rabs_minus_sym. now rewrite !Ropp_involutive.
  - replace (1 * (- (1) / - (1)) * x) with x by field.
    replace (1 * (- (1) / 1) * x) with (- x) by field. reflexivity.
Qed.

(** Inside a valid segment only the parabolic law has a seam: at its
    midpoint displacement, velocity and jerk pass the continuity test and the
    acceleration flips sign from 4hω²/β²; the flip is reported as a
    discontinuity exactly when it exceeds the absolute floor of the test. *)
Theorem internal_seams_midpoint (s : Spec R) theta0 :
  Validate s = Ok tt ->
  (Type_ s <> Law.Parabolic -> InternalSeams s theta0 = Ok []) /\
  (Type_ s = Law.Parabolic ->
   exists sm, InternalSeams s theta0 = Ok [sm] /\
     seam_Theta sm = theta0 + Beta s / 2 /\ seam_Kind sm = "switch"%string /\
     A_ (Left sm) = 4 * (H s * speed s * speed s) /\ A_ (Right sm) = - A_ (Left sm) /\
     SCont sm = true /\ VCont sm = true /\ JCont sm = true /\ SJump sm = false /\
     (ACont sm = false <-> 1 / (2 * 1000000000000 - 1000) < 4 * (H s * speed s * speed s))).
Proof.
  intros Hv. split; intros Hp; unfold InternalSeams; rewrite Hv; cbn [bind].
  - apply String.eqb_neq in Hp. now rewrite Hp.
  - rewrite Hp, String.eqb_refl. cbn [negb]. ideal. change (-1) with (- (1)).
    destruct (switch_seam s theta0 (1 / 2 * Beta s / Omega s) false
                (theta0 + Beta s / 2) "switch" Hv Hp)
      as (l & r & -> & -> & Al & Ar & A & B & C & D & E).
    cbn [bind]. eexists. split; [reflexivity|].
    repeat (split; [solve [reflexivity | assumption
                          | cbn [Left Right Join]; rewrite ?Al; unfold sgn; lra]|]).
    rewrite <- not_true_iff_false, E. lra.
Qed.

Lemma internal_seams_midpoint_witness :
  Validate sample_spec = Ok tt /\ InternalSeams sample_spec 0 = Ok [].
Proof.
  split; [exact sample_spec_valid|].
  apply (internal_seams_midpoint sample_spec 0 sample_spec_valid). discriminate.
Defined.
