(* ===== verification/Cycle.v ===== *)
(** Package cycle (internal/cycle/cycle.go): a full turn of the cam assembled
    from rise, outer dwell, return and inner dwell; sampling and joints.

    Generic in the arithmetic; [CycleSpec] has the theorems. *)
From Stdlib Require Import ZArith Lia String Bool List.
From S2P Require Import Prelude GoFloat.
From S2P Require Law Kinematics.
Import ListNotations.
Local Open Scope string_scope.
Local Open Scope go_scope.

Record Config (F : Type) := mkConfig {
  RiseLaw : string;
  ReturnLaw : string;
  H : F;
  RiseAngle : F;
  OuterDwell : F;
  ReturnAngle : F;
  InnerDwell : F;
  Omega : F
}.
Arguments mkConfig {F}.
Arguments RiseLaw {F} _.
Arguments ReturnLaw {F} _.
Arguments H {F} _.
Arguments RiseAngle {F} _.
Arguments OuterDwell {F} _.
Arguments ReturnAngle {F} _.
Arguments InnerDwell {F} _.
Arguments Omega {F} _.

Record Segment (F : Type) := mkSegment {
  Kind : string;
  seg_Law : string;
  Start : F;
  End_ : F;
  Beta : F;
  seg_Spec : Kinematics.Spec F
}.
Arguments mkSegment {F}.
Arguments Kind {F} _.
Arguments seg_Law {F} _.
Arguments Start {F} _.
Arguments End_ {F} _.
Arguments Beta {F} _.
Arguments seg_Spec {F} _.

Record Segments (F : Type) := mkSegments {
  All : list (Segment F);
  TotalAngle : F
}.
Arguments mkSegments {F}.
Arguments All {F} _.
Arguments TotalAngle {F} _.

Record CurveSample (F : Type) := mkCurveSample {
  cs_Segment : string;
  cs_Motion : Kinematics.Motion F
}.
Arguments mkCurveSample {F}.
Arguments cs_Segment {F} _.
Arguments cs_Motion {F} _.

Record Joint (F : Type) := mkJoint {
  LeftSegment : string;
  RightSegment : string;
  joint_Seam : Kinematics.Seam F
}.
Arguments mkJoint {F}.
Arguments LeftSegment {F} _.
Arguments RightSegment {F} _.
Arguments joint_Seam {F} _.

Section Cycle.
Context {F : Type} {GF : GoFloat F}.

Abbreviation FullTurn := (Kinematics.FullTurn (F := F)).

Definition checkMotionAngle (name : string) (b : F) : result F unit :=
  if Kinematics.not_positive b then Err (Errorf [FmtS name; Lit "必须为正数"])
  else if b >=? FullTurn then
    Err (Errorf [FmtS name; Lit "必须小于一周（"; Fmt0f FullTurn; Lit "°）"])
  else Ok tt.

Definition checkDwellAngle (name : string) (b : F) : result F unit :=
  if IsNaN b || IsInf0 b || (b <? K 0) then Err (Errorf [FmtS name; Lit "不能为负"])
  else if b >=? FullTurn then
    Err (Errorf [FmtS name; Lit "必须小于一周（"; Fmt0f FullTurn; Lit "°）"])
  else Ok tt.

(** The sum the validation compares with a full turn. *)
Definition angle_sum (c : Config F) : F :=
  RiseAngle c + OuterDwell c + ReturnAngle c + InnerDwell c.

Definition Validate (c : Config F) : result F unit :=
  if negb (Law.Known (RiseLaw c)) then
    Err (ErrorfW [Lit "升程规律无效："; FmtW] (Sentinel ErrUnknownLaw))
  else if negb (Law.Known (ReturnLaw c)) then
    Err (ErrorfW [Lit "回程规律无效："; FmtW] (Sentinel ErrUnknownLaw))
  else if Kinematics.not_positive (H c) then Err (ErrNew "h 必须为正数")
  else if Kinematics.not_positive (Omega c) then Err (ErrNew "ω 必须为正数")
  else
    check (checkMotionAngle "升程角" (RiseAngle c)) ;;
    check (checkMotionAngle "回程角" (ReturnAngle c)) ;;
    check (checkDwellAngle "远休止角" (OuterDwell c)) ;;
    check (checkDwellAngle "近休止角" (InnerDwell c)) ;;
    let total := angle_sum c in
    if Abs (total - FullTurn) >? K(1 / 1000000000) then
      Err (Errorf [Lit "四段角度之和必须等于一周 "; Fmt0f FullTurn; Lit "°，当前为 ";
                   FmtG total; Lit "°"])
    else Ok tt.

(** The closure [push] of [Build]: the segments so far and the position. *)
Definition push (c : Config F) (kind tp : string) (beta : F)
    (st : list (Segment F) * F) : list (Segment F) * F :=
  let '(segs, pos) := st in
  if beta <=? K 0 then st
  else
    let spec := Kinematics.mkSpec tp (H c) beta (Omega c) in
    ((segs ++ [mkSegment kind tp pos (pos + beta) beta spec])%list, pos + beta).

Definition Build (c : Config F) : result F (Segments F) :=
  check (Validate c) ;;
  let st := ([], K 0) in
  let st := push c "rise" (RiseLaw c) (RiseAngle c) st in
  let st := push c "outer_dwell" "" (OuterDwell c) st in
  let st := push c "return" (ReturnLaw c) (ReturnAngle c) st in
  let st := push c "inner_dwell" "" (InnerDwell c) st in
  Ok (mkSegments (fst st) (snd st)).

Definition isDwell (kind : string) : bool :=
  String.eqb kind "outer_dwell" || String.eqb kind "inner_dwell".

(** [None] is the index panic of [b.All[len(b.All)-1]] on an empty slice. *)
Definition locate (b : Segments F) (theta : F) : option (Segment F) :=
  if theta >=? FullTurn then last_option (All b)
  else
    match find (fun sg => isDwell (Kind sg) && (theta >=? Start sg) && (theta <=? End_ sg))
               (All b) with
    | Some sg => Some sg
    | None =>
        match find (fun sg => (theta >=? Start sg) && (theta <? End_ sg)) (All b) with
        | Some sg => Some sg
        | None => last_option (All b)
        end
    end.

Definition dwellMotion (level theta t : F) : Kinematics.Motion F :=
  Kinematics.mkMotion theta t level (K 0) (K 0) (K 0).

(** [b.All[0].Spec.Omega] *)
Definition turn_omega (b : Segments F) : result F F :=
  sg <- from_option (head (All b)) ;;
  Ok (Kinematics.Omega (seg_Spec sg)).

Definition unknown_kind (kind : string) : error F :=
  Errorf [Lit "未知段类型 "; FmtQ kind].

Definition Point (b : Segments F) (theta : F) : result F (Kinematics.Motion F) :=
  if (theta <? K 0) || (theta >? K(360 + 1 / 1000000000)) then
    Err (Errorf [Lit "转角超出一周范围 [0, "; Fmt0f FullTurn; Lit "°]"])
  else
    let theta := if theta >? FullTurn then FullTurn else theta in
    omega <- turn_omega b ;;
    sg <- from_option (locate b theta) ;;
    if String.eqb (Kind sg) "outer_dwell" then
      Ok (dwellMotion (Kinematics.H (seg_Spec sg)) theta (theta / omega))
    else if String.eqb (Kind sg) "inner_dwell" then
      Ok (dwellMotion (K 0) theta (theta / omega))
    else if String.eqb (Kind sg) "rise" then
      Kinematics.Sample (seg_Spec sg) (Start sg) theta (Start sg / omega) false
    else if String.eqb (Kind sg) "return" then
      Kinematics.Sample (seg_Spec sg) (Start sg) theta (Start sg / omega) true
    else Err (unknown_kind (Kind sg)).

(** One iteration of the loop of [Curve]. *)
Definition curve_point (b : Segments F) (points i : Z) : result F (CurveSample F) :=
  let theta := FullTurn * of_int i / of_int (points - 1) in
  m <- Point b theta ;;
  sg <- from_option (locate b theta) ;;
  Ok (mkCurveSample (Kind sg) m).

Definition Curve (b : Segments F) (points : Z) : result F (list (CurveSample F)) :=
  let points := if (points <? Kinematics.MinPoints)%Z then Kinematics.MinPoints else points in
  if (points >? Kinematics.MaxPoints)%Z then Err Kinematics.too_many_points
  else mapM (curve_point b points) (range points).

Definition sideMotion (b : Segments F) (sg : Segment F) (theta side : F)
  : result F (Kinematics.Motion F) :=
  omega <- turn_omega b ;;
  let tLocal := Start sg / omega in
  if String.eqb (Kind sg) "outer_dwell" then
    Ok (dwellMotion (Kinematics.H (seg_Spec sg)) theta (theta / omega))
  else if String.eqb (Kind sg) "inner_dwell" then
    Ok (dwellMotion (K 0) theta (theta / omega))
  else if String.eqb (Kind sg) "rise" then
    Kinematics.SampleSide (seg_Spec sg) (Start sg) theta tLocal false side
  else if String.eqb (Kind sg) "return" then
    Kinematics.SampleSide (seg_Spec sg) (Start sg) theta tLocal true side
  else Err (unknown_kind (Kind sg)).

(** The joint between two adjacent segments. *)
Definition boundary_joint (b : Segments F) (p : Segment F * Segment F)
  : result F (Joint F) :=
  let '(lsg, rsg) := p in
  lv <- sideMotion b lsg (End_ lsg) (K 1) ;;
  rv <- sideMotion b rsg (Start rsg) (K(- 1)) ;;
  Ok (mkJoint (Kind lsg) (Kind rsg) (Kinematics.Join (End_ lsg) "boundary" lv rv)).

(** The midpoint of a parabolic segment. *)
Definition switch_joint (b : Segments F) (sg : Segment F) : result F (Joint F) :=
  let returning := String.eqb (Kind sg) "return" in
  omega <- turn_omega b ;;
  let theta := Start sg + Beta sg / K 2 in
  let tm := Start sg / omega in
  lv <- Kinematics.SampleSide (seg_Spec sg) (Start sg) theta tm returning (K(- 1)) ;;
  rv <- Kinematics.SampleSide (seg_Spec sg) (Start sg) theta tm returning (K 1) ;;
  Ok (mkJoint (Kind sg) (Kind sg) (Kinematics.Join theta "switch" lv rv)).

(** The joint that closes the turn: 360° against 0°. *)
Definition cyclic_joint (b : Segments F) : result F (Joint F) :=
  last <- from_option (last_option (All b)) ;;
  first <- from_option (head (All b)) ;;
  lv <- sideMotion b last FullTurn (K 1) ;;
  rv <- sideMotion b first (K 0) (K(- 1)) ;;
  Ok (mkJoint (Kind last) (Kind first) (Kinematics.Join FullTurn "cyclic" lv rv)).

Definition Discontinuities (b : Segments F) : result F (list (Joint F)) :=
  bs <- mapM (boundary_joint b) (combine (All b) (tl (All b))) ;;
  ss <- mapM (switch_joint b)
          (filter (fun sg => String.eqb (seg_Law sg) Law.Parabolic) (All b)) ;;
  c <- cyclic_joint b ;;
  Ok (bs ++ ss ++ [c])%list.

Definition HasDisplacementJump (joints : list (Joint F)) : bool :=
  existsb (fun j => Kinematics.SJump (joint_Seam j)) joints.
End Cycle.
