(* ===== verification/CycleSpec.v ===== *)
(** What package cycle promises.

    In every arithmetic: [Build] lays the segments end to end, in order, leaving
    out dwells of angle 0; [locate] always finds one of them; sampling and
    joint checking of a built turn never fail or panic. *)
From Stdlib Require Import ZArith Reals Lra Lia String Bool List.
From S2P Require Import Prelude GoFloat RealLib LawSpec KinematicsSpec Cycle.
From S2P Require Law Kinematics.
Import ListNotations.
Local Open Scope string_scope.

(** * The structure of a built turn *)

Section Structure.
Context {F : Type} {GF : GoFloat F}.
Implicit Types (c : Config F) (b : Segments F) (sg : Segment F).
Local Open Scope go_scope.

Lemma not_positive_false (x : F) :
  Kinematics.not_positive x = false -> (x <=? K 0) = false.
Proof. unfold Kinematics.not_positive. intros E. now apply orb_false_iff in E. Qed.

Lemma checkMotionAngle_ok name (x : F) u :
  checkMotionAngle name x = Ok u ->
  Kinematics.not_positive x = false /\ (x >=? Kinematics.FullTurn) = false.
Proof. unfold checkMotionAngle. repeat case_if; intros; (discriminate || auto). Qed.

Lemma checkDwellAngle_ok name (x : F) u :
  checkDwellAngle name x = Ok u ->
  IsNaN x = false /\ IsInf0 x = false /\ (x <? K 0) = false /\
  (x >=? Kinematics.FullTurn) = false.
Proof.
  unfold checkDwellAngle. repeat case_if; intros; try discriminate.
  match goal with E : (_ || _) = false |- _ =>
    apply orb_false_iff in E as [E ?]; apply orb_false_iff in E as [? ?] end.
  auto.
Qed.

(** What [Validate] has checked when it accepts. *)
Record accepts c : Prop := {
  ok_rise_law : Law.Known (RiseLaw c) = true;
  ok_return_law : Law.Known (ReturnLaw c) = true;
  ok_h : Kinematics.not_positive (H c) = false;
  ok_omega : Kinematics.not_positive (Omega c) = false;
  ok_rise : Kinematics.not_positive (RiseAngle c) = false;
  ok_rise_lt : (RiseAngle c >=? Kinematics.FullTurn) = false;
  ok_return : Kinematics.not_positive (ReturnAngle c) = false;
  ok_return_lt : (ReturnAngle c >=? Kinematics.FullTurn) = false;
  ok_outer : IsNaN (OuterDwell c) = false /\ (OuterDwell c <? K 0) = false;
  ok_inner : IsNaN (InnerDwell c) = false /\ (InnerDwell c <? K 0) = false;
  ok_total : (Abs (angle_sum c - Kinematics.FullTurn) >? K(1 / 1000000000)) = false
}.

Lemma Validate_accepts c u : Validate c = Ok u -> accepts c.
Proof.
  unfold Validate. do 4 (case_if; [intros; discriminate|]).
  intros E. inv_binds. revert E. case_if; [discriminate|]. intros _.
  repeat match goal with E : checkMotionAngle _ _ = Ok _ |- _ =>
    apply checkMotionAngle_ok in E as [? ?] end.
  repeat match goal with E : checkDwellAngle _ _ = Ok _ |- _ =>
    apply checkDwellAngle_ok in E as (? & ? & ? & ?) end.
  repeat match goal with E : negb _ = false |- _ => apply negb_false_iff in E end.
  constructor; auto.
Qed.

Lemma Validate_dwells c u :
  Validate c = Ok u ->
  let fine x := IsNaN x = false /\ IsInf0 x = false /\ (x <? K 0) = false /\
                (x >=? Kinematics.FullTurn) = false in
  fine (OuterDwell c) /\ fine (InnerDwell c).
Proof.
  unfold Validate. do 4 (case_if; [intros; discriminate|]). intros E. inv_binds.
  split; eapply checkDwellAngle_ok; eassumption.
Qed.

Lemma Config_Validate_no_panic c : Validate c <> Panic.
Proof.
  unfold Validate, checkMotionAngle, checkDwellAngle.
  repeat (case_if; cbn [bind]; try discriminate).
Qed.

(** The segment [push] appends. *)
Definition seg c kind tp (pos beta : F) : Segment F :=
  mkSegment kind tp pos (pos + beta) beta (Kinematics.mkSpec tp (H c) beta (Omega c)).

(** A dwell, unless its angle is 0. *)
Definition dwell c kind (pos beta : F) : list (Segment F) :=
  if beta <=? K 0 then [] else [seg c kind "" pos beta].
Definition after (pos beta : F) : F := if beta <=? K 0 then pos else pos + beta.

(** The positions of the segment bounds. *)
Definition p1 c : F := K 0 + RiseAngle c.
Definition p2 c : F := after (p1 c) (OuterDwell c).
Definition p3 c : F := p2 c + ReturnAngle c.
Definition p4 c : F := after (p3 c) (InnerDwell c).

Definition layout c : list (Segment F) :=
  (seg c "rise" (RiseLaw c) (K 0) (RiseAngle c) ::
   dwell c "outer_dwell" (p1 c) (OuterDwell c) ++
   seg c "return" (ReturnLaw c) (p2 c) (ReturnAngle c) ::
   dwell c "inner_dwell" (p3 c) (InnerDwell c))%list.

Lemma push_moves c kind tp beta segs pos :
  (beta <=? K 0) = false ->
  push c kind tp beta (segs, pos) = ((segs ++ [seg c kind tp pos beta])%list, pos + beta).
Proof. unfold push. now intros ->. Qed.

Lemma push_dwell c kind beta segs pos :
  push c kind "" beta (segs, pos) = ((segs ++ dwell c kind pos beta)%list, after pos beta).
Proof. unfold push, dwell, after. case_if; [now rewrite app_nil_r|reflexivity]. Qed.

Lemma Build_accepted c :
  Validate c = Ok tt -> Build c = Ok (mkSegments (layout c) (p4 c)).
Proof.
  intros Hv. pose proof (Validate_accepts c tt Hv) as A.
  unfold Build. rewrite Hv. cbn [bind].
  rewrite push_moves by apply not_positive_false, A.
  rewrite push_dwell.
  rewrite push_moves by apply not_positive_false, A.
  rewrite push_dwell. cbn [fst snd app]. now rewrite <- app_assoc.
Qed.

Lemma Build_inv c b :
  Build c = Ok b -> Validate c = Ok tt /\ b = mkSegments (layout c) (p4 c).
Proof.
  intros Hb. destruct (Validate c) as [[]| |] eqn:Hv.
  - split; [reflexivity|]. rewrite Build_accepted in Hb by assumption. congruence.
  - unfold Build in Hb. now rewrite Hv in Hb.
  - unfold Build in Hb. now rewrite Hv in Hb.
Qed.

(** Segments laid end to end from [pos] to [fin]. *)
Fixpoint contiguous (pos : F) (l : list (Segment F)) (fin : F) : Prop :=
  match l with
  | [] => pos = fin
  | sg :: l' => Start sg = pos /\ End_ sg = pos + Beta sg /\ contiguous (End_ sg) l' fin
  end.

Lemma contiguous_app pos l1 mid l2 fin :
  contiguous pos l1 mid -> contiguous mid l2 fin -> contiguous pos (l1 ++ l2) fin.
Proof.
  revert pos. induction l1 as [|sg l1 IH]; simpl; intros pos H1 H2; [now subst|].
  intuition.
Qed.

Lemma contiguous_dwell c kind pos beta :
  contiguous pos (dwell c kind pos beta) (after pos beta).
Proof. unfold dwell, after. case_if; simpl; auto. Qed.

Lemma layout_contiguous c : contiguous (K 0) (layout c) (p4 c).
Proof.
  unfold layout. simpl. split; [reflexivity|split; [reflexivity|]].
  apply (contiguous_app _ _ (p2 c)); [apply contiguous_dwell|].
  simpl. split; [reflexivity|split; [reflexivity|]]. apply contiguous_dwell.
Qed.

Definition layout_kinds c : list string :=
  ("rise" :: (if OuterDwell c <=? K 0 then [] else ["outer_dwell"]) ++
   "return" :: (if InnerDwell c <=? K 0 then [] else ["inner_dwell"]))%list.

Lemma layout_Kind c : map Kind (layout c) = layout_kinds c.
Proof.
  unfold layout, layout_kinds, dwell. simpl. rewrite map_app. simpl. now repeat case_if.
Qed.

(** The segments of a turn, case by case. *)
Lemma layout_cases c (P : Segment F -> Prop) :
  P (seg c "rise" (RiseLaw c) (K 0) (RiseAngle c)) ->
  ((OuterDwell c <=? K 0) = false -> P (seg c "outer_dwell" "" (p1 c) (OuterDwell c))) ->
  P (seg c "return" (ReturnLaw c) (p2 c) (ReturnAngle c)) ->
  ((InnerDwell c <=? K 0) = false -> P (seg c "inner_dwell" "" (p3 c) (InnerDwell c))) ->
  Forall P (layout c).
Proof.
  intros. unfold layout, dwell. constructor; [assumption|].
  apply Forall_app; split; [case_if; auto|]. constructor; [assumption|]. case_if; auto.
Qed.
End Structure.

(** C18: in every arithmetic, [Build] accepts exactly what [Validate] accepts; the
    turn then consists of the rise, the outer dwell unless its angle is 0, the
    return, the inner dwell unless its angle is 0, in this order, each segment
    starting (to the bit) where the one before ends, from 0 to [TotalAngle],
    with positive angles and the angle, law, lift and speed of the
    configuration in its specification. *)
Theorem build_structure {F} {GF : GoFloat F} (c : Config F) :
  match Validate c with
  | Ok _ => exists b, Build c = Ok b /\
      map Kind (All b) = layout_kinds c /\
      contiguous (of_const 0) (All b) (TotalAngle b) /\
      Forall (fun sg => fleb (Beta sg) (of_const 0) = false /\
                seg_Spec sg = Kinematics.mkSpec (seg_Law sg) (H c) (Beta sg) (Omega c) /\
                (seg_Law sg, Beta sg) =
                  (if String.eqb (Kind sg) "rise" then (RiseLaw c, RiseAngle c)
                   else if String.eqb (Kind sg) "outer_dwell" then ("", OuterDwell c)
                   else if String.eqb (Kind sg) "return" then (ReturnLaw c, ReturnAngle c)
                   else ("", InnerDwell c))) (All b)
  | Err e => Build c = Err e
  | Panic => False
  end.
Proof.
  destruct (Validate c) as [[]|e|] eqn:Hv.
  - exists (mkSegments (layout c) (p4 c)). split; [now apply Build_accepted|].
    pose proof (Validate_accepts c tt Hv) as A.
    split; [apply layout_Kind|]. split; [apply layout_contiguous|].
    apply layout_cases; intros; (split; [|split; reflexivity]); cbn [Beta seg];
      (assumption || apply not_positive_false, A).
  - unfold Build. now rewrite Hv.
  - now apply (Config_Validate_no_panic c).
Qed.

(** * Totality *)

Section Total.
Context {F : Type} {GF : GoFloat F}.
Variable c : Config F.
Hypothesis Hv : Validate c = Ok tt.

Let A : accepts c := Validate_accepts c tt Hv.
Let b : Segments F := mkSegments (layout c) (p4 c).

(** A rise or return specification is valid for package kinematics. *)
Lemma motion_spec_valid tp beta :
  Law.Known tp = true -> Kinematics.not_positive beta = false ->
  fleb Kinematics.FullTurn beta = false ->
  Kinematics.Validate (Kinematics.mkSpec tp (H c) beta (Omega c)) = Ok tt.
Proof.
  intros Hk Hp Hlt. apply Kinematics.Validate_ok_iff. unfold Kinematics.accepted.
  cbn [Kinematics.Type_ Kinematics.H Kinematics.Beta Kinematics.Omega].
  now rewrite Hk, Hp, Hlt, (ok_h c A), (ok_omega c A).
Qed.

Lemma rise_spec_valid :
  Kinematics.Validate (Kinematics.mkSpec (RiseLaw c) (H c) (RiseAngle c) (Omega c)) = Ok tt.
Proof. apply motion_spec_valid; apply A. Qed.

Lemma return_spec_valid :
  Kinematics.Validate (Kinematics.mkSpec (ReturnLaw c) (H c) (ReturnAngle c) (Omega c)) = Ok tt.
Proof. apply motion_spec_valid; apply A. Qed.

Lemma turn_omega_built : turn_omega b = Ok (Omega c).
Proof. reflexivity. Qed.

(** Every segment of the turn can be sampled from either side at any angle. *)
Lemma sideMotion_Ok sg theta side :
  In sg (layout c) -> exists m, sideMotion b sg theta side = Ok m.
Proof.
  revert sg. apply Forall_forall. unfold sideMotion. rewrite turn_omega_built. cbn [bind].
  apply layout_cases; intros; cbn [Kind seg seg_Spec Start];
    cbn [String.eqb Ascii.eqb Bool.eqb].
  - destruct (Kinematics.SampleSide_Ok _ (of_const 0) theta (fdiv (of_const 0) (Omega c)) false
                side rise_spec_valid) as (w & _ & E). eauto.
  - eauto.
  - destruct (Kinematics.SampleSide_Ok _ (p2 c) theta (fdiv (p2 c) (Omega c)) true
                side return_spec_valid) as (w & _ & E). eauto.
  - eauto.
Qed.

Lemma layout_nonempty : exists sg, last_option (layout c) = Some sg.
Proof. apply last_option_cons. Qed.

(** The last segment is the inner dwell, or the return when there is none. *)
Lemma layout_last :
  last_option (layout c) =
  Some (if fleb (InnerDwell c) (of_const 0)
        then seg c "return" (ReturnLaw c) (p2 c) (ReturnAngle c)
        else seg c "inner_dwell" "" (p3 c) (InnerDwell c)).
Proof.
  unfold layout, dwell. repeat case_if; reflexivity.
Qed.

Lemma locate_In theta : exists sg, locate b theta = Some sg /\ In sg (layout c).
Proof.
  destruct layout_nonempty as [l Hl].
  unfold locate. cbn [All b]. destruct (fleb Kinematics.FullTurn theta);
    [exists l; split; [assumption|now apply last_option_In]|].
  destruct (find _ (layout c)) as [sg|] eqn:E; [exists sg; split; [reflexivity|now apply find_some in E]|].
  destruct (find (fun sg => fleb (Start sg) theta && fltb theta (End_ sg)) (layout c))
    as [sg|] eqn:E2; [exists sg; split; [reflexivity|now apply find_some in E2]|].
  exists l; split; [assumption|now apply last_option_In].
Qed.

(** [Point] is the side-0 motion of the located segment. *)
Lemma Point_located theta :
  fltb theta (of_const 0) || fltb (of_const (360 + 1 / 1000000000)) theta = false ->
  let theta' := if fltb Kinematics.FullTurn theta then Kinematics.FullTurn else theta in
  exists sg m, locate b theta' = Some sg /\ In sg (layout c) /\
    sideMotion b sg theta' (of_const 0) = Ok m /\ Point b theta = Ok m.
Proof.
  intros Hr theta'. unfold Point. rewrite Hr. fold theta'.
  destruct (locate_In theta') as (sg & Hl & Hin).
  destruct (sideMotion_Ok sg theta' (of_const 0) Hin) as [m Hm].
  exists sg, m. rewrite turn_omega_built, Hl. cbn [bind from_option].
  repeat (split; [assumption|]). unfold sideMotion in Hm.
  rewrite turn_omega_built in Hm. cbn [bind] in Hm. now rewrite !Kinematics.Sample_side.
Qed.

Lemma boundary_joint_Ok lsg rsg :
  In lsg (layout c) -> In rsg (layout c) ->
  exists lv rv, sideMotion b lsg (End_ lsg) (of_const 1) = Ok lv /\
    sideMotion b rsg (Start rsg) (of_const (-1)) = Ok rv /\
    boundary_joint b (lsg, rsg) =
      Ok (mkJoint (Kind lsg) (Kind rsg) (Kinematics.Join (End_ lsg) "boundary" lv rv)).
Proof.
  intros Hl Hr. destruct (sideMotion_Ok lsg (End_ lsg) (of_const 1) Hl) as [lv Hlv].
  destruct (sideMotion_Ok rsg (Start rsg) (of_const (-1)) Hr) as [rv Hrv].
  exists lv, rv. unfold boundary_joint. rewrite Hlv, Hrv. auto.
Qed.
End Total.

(** * Joints *)

(** The two segments and the kind of a joint. *)
Definition joint_label {F} (j : Joint F) : string * string * string :=
  (LeftSegment j, RightSegment j, Kinematics.seam_Kind (joint_Seam j)).

(** The joints a turn must report: each pair of neighbours, each parabolic
    midpoint, and the closure. *)
Definition joint_labels {F} (sgs : list (Segment F)) : list (string * string * string) :=
  (map (fun p => (Kind (fst p), Kind (snd p), "boundary")) (combine sgs (tl sgs)) ++
   map (fun sg => (Kind sg, Kind sg, "switch"))
     (filter (fun sg => String.eqb (seg_Law sg) Law.Parabolic) sgs) ++
   match last_option sgs, head sgs with
   | Some l, Some f => [(Kind l, Kind f, "cyclic")]
   | _, _ => []
   end)%list.

Section Joints.
Context {F : Type} {GF : GoFloat F}.
Variable c : Config F.
Hypothesis Hv : Validate c = Ok tt.
Let b : Segments F := mkSegments (layout c) (p4 c).

(** Neighbours are members, and meet. *)
Lemma adjacent_meet pos (l : list (Segment F)) fin lsg rsg :
  contiguous pos l fin -> In (lsg, rsg) (combine l (tl l)) ->
  In lsg l /\ In rsg l /\ Start rsg = End_ lsg.
Proof.
  revert pos. induction l as [|a l IH]; intros pos Hc Hin; [destruct Hin|].
  destruct l as [|a' l]; [destruct Hin|]. simpl in Hin. destruct Hin as [E|Hin].
  - injection E as -> ->. simpl in Hc. simpl. tauto.
  - simpl in Hc. destruct Hc as (_ & _ & Hc).
    destruct (IH (End_ a) Hc Hin) as (I1 & I2 & E). simpl in *. tauto.
Qed.

(** A motion segment whose law is parabolic is the rise or the return. *)
Lemma parabolic_segments sg :
  In sg (layout c) -> seg_Law sg = Law.Parabolic ->
  Kinematics.Validate (seg_Spec sg) = Ok tt /\
  Kinematics.Type_ (seg_Spec sg) = Law.Parabolic /\
  Kinematics.Beta (seg_Spec sg) = Beta sg.
Proof.
  intros Hin. pattern sg. revert sg Hin. apply Forall_forall.
  apply layout_cases; cbn [seg seg_Law seg_Spec Beta].
  - intros <-. split; [now apply rise_spec_valid|auto].
  - discriminate.
  - intros <-. split; [now apply return_spec_valid|auto].
  - discriminate.
Qed.

Lemma switch_joint_Ok sg :
  In sg (layout c) -> seg_Law sg = Law.Parabolic ->
  exists lv rv,
    let theta := fadd (Start sg) (fdiv (Beta sg) (of_const 2)) in
    let tm := fdiv (Start sg) (Omega c) in
    let ret := String.eqb (Kind sg) "return" in
    Kinematics.SampleSide (seg_Spec sg) (Start sg) theta tm ret (of_const (-1)) = Ok lv /\
    Kinematics.SampleSide (seg_Spec sg) (Start sg) theta tm ret (of_const 1) = Ok rv /\
    switch_joint b sg =
      Ok (mkJoint (Kind sg) (Kind sg) (Kinematics.Join theta "switch" lv rv)).
Proof.
  intros Hin Hp. destruct (parabolic_segments sg Hin Hp) as (Hs & _ & _). cbv zeta.
  set (theta := fadd (Start sg) (fdiv (Beta sg) (of_const 2))).
  set (tm := fdiv (Start sg) (Omega c)).
  destruct (Kinematics.SampleSide_Ok _ (Start sg) theta tm (String.eqb (Kind sg) "return")
              (of_const (-1)) Hs) as (w & _ & E1).
  destruct (Kinematics.SampleSide_Ok _ (Start sg) theta tm (String.eqb (Kind sg) "return")
              (of_const 1) Hs) as (w' & _ & E2).
  do 2 eexists. split; [exact E1|split; [exact E2|]].
  unfold switch_joint. rewrite (turn_omega_built c). cbn [bind].
  fold theta tm. now rewrite E1, E2.
Qed.

Lemma cyclic_joint_Ok :
  exists l lv rv, last_option (layout c) = Some l /\ In l (layout c) /\
    sideMotion b l Kinematics.FullTurn (of_const 1) = Ok lv /\
    sideMotion b (seg c "rise" (RiseLaw c) (of_const 0) (RiseAngle c)) (of_const 0)
      (of_const (-1)) = Ok rv /\
    cyclic_joint b =
      Ok (mkJoint (Kind l) "rise" (Kinematics.Join Kinematics.FullTurn "cyclic" lv rv)).
Proof.
  destruct (layout_nonempty c) as [l Hl].
  pose proof (last_option_In _ _ Hl) as Hin.
  destruct (sideMotion_Ok c Hv l Kinematics.FullTurn (of_const 1) Hin) as [lv Hlv].
  destruct (sideMotion_Ok c Hv (seg c "rise" (RiseLaw c) (of_const 0) (RiseAngle c))
              (of_const 0) (of_const (-1)) (or_introl eq_refl)) as [rv Hrv].
  exists l, lv, rv. repeat (split; [assumption|]).
  unfold cyclic_joint. cbn [All b]. rewrite Hl. cbn [from_option bind head layout].
  fold b. fold (layout c) in *. unfold b in *. rewrite Hlv. cbn [bind]. rewrite Hrv. reflexivity.
Qed.

(** All joints are computed; a property that holds of each kind holds of all. *)
Lemma Discontinuities_Forall (P : Joint F -> Prop) :
  (forall l r, In (l, r) (combine (layout c) (tl (layout c))) ->
     forall j, boundary_joint b (l, r) = Ok j -> P j) ->
  (forall sg, In sg (layout c) -> seg_Law sg = Law.Parabolic ->
     forall j, switch_joint b sg = Ok j -> P j) ->
  (forall j, cyclic_joint b = Ok j -> P j) ->
  exists js, Discontinuities b = Ok js /\ Forall P js /\
    map joint_label js = joint_labels (layout c).
Proof.
  intros PB PS PC. unfold Discontinuities, joint_labels. cbn [All b].
  destruct (mapM_exists (boundary_joint b)
    (fun p j => joint_label j = (Kind (fst p), Kind (snd p), "boundary") /\ P j)
    (combine (layout c) (tl (layout c)))) as (bs & -> & HB).
  { intros [l r] Hin. destruct (adjacent_meet _ _ _ _ _ (layout_contiguous c) Hin) as (I1 & I2 & _).
    destruct (boundary_joint_Ok c Hv l r I1 I2) as (lv & rv & _ & _ & E).
    eexists. split; [exact E|]. split; [reflexivity|]. eapply PB; eassumption. }
  destruct (mapM_exists (switch_joint b)
    (fun sg j => joint_label j = (Kind sg, Kind sg, "switch") /\ P j)
    (filter (fun sg => String.eqb (seg_Law sg) Law.Parabolic) (layout c))) as (ss & -> & HS).
  { intros sg Hin. apply filter_In in Hin as [Hin Hp]. apply String.eqb_eq in Hp.
    destruct (switch_joint_Ok sg Hin Hp) as (lv & rv & _ & _ & E).
    eexists. split; [exact E|]. split; [reflexivity|]. eapply PS; eassumption. }
  destruct cyclic_joint_Ok as (l & lv & rv & Hl & _ & _ & _ & E).
  rewrite E, Hl. cbn [bind head layout]. eexists. split; [reflexivity|]. split.
  - repeat (apply Forall_app; split).
    + eapply Forall2_Forall_r; [|exact HB]. intros ? ? []. auto.
    + eapply Forall2_Forall_r; [|exact HS]. intros ? ? []. auto.
    + constructor; [now apply PC|constructor].
  - rewrite !map_app. f_equal; [|f_equal].
    + apply Forall2_map_eq. eapply Forall2_impl; [|exact HB]. intros ? ? []. auto.
    + apply Forall2_map_eq. eapply Forall2_impl; [|exact HS]. intros ? ? []. auto.
Qed.
End Joints.

(** C12: in every arithmetic, a built turn can be sampled and checked without
    error or panic: [Point] answers at every angle up to the tolerated 360+1e-9
    and rejects the others, and [Discontinuities] reports one joint per pair of
    neighbouring segments, one per parabolic midpoint and the closing one, in
    this order. *)
Theorem built_turn_total {F} {GF : GoFloat F} (c : Config F) b :
  Build c = Ok b ->
  (forall theta,
     if fltb theta (of_const 0) || fltb (of_const (360 + 1 / 1000000000)) theta
     then exists e, Point b theta = Err e
     else exists m, Point b theta = Ok m) /\
  (exists js, Discontinuities b = Ok js /\ map joint_label js = joint_labels (All b)) /\
  (forall theta, exists sg, locate b theta = Some sg /\ In sg (All b)).
Proof.
  intros Hb. apply Build_inv in Hb as [Hv ->]. split; [|split].
  - intros theta. destruct (_ || _) eqn:E.
    + unfold Point. rewrite E. eauto.
    + destruct (Point_located c Hv theta E) as (sg & m & _ & _ & _ & Hm). eauto.
  - destruct (Discontinuities_Forall c Hv (fun _ => True)) as (js & Hj & _ & Hl); eauto.
  - intros theta. apply locate_In.
Qed.

(** The time of a sample of a segment. *)
Lemma sideMotion_Time {F} {GF : GoFloat F} (c : Config F) sg theta side m :
  Validate c = Ok tt -> In sg (layout c) ->
  sideMotion (mkSegments (layout c) (p4 c)) sg theta side = Ok m ->
  Kinematics.Theta m = theta /\
  Kinematics.Time m = fdiv (if isDwell (Kind sg) then theta else Start sg) (Omega c).
Proof.
  intros Hv. revert sg. unfold sideMotion.
  rewrite turn_omega_built. cbn [bind].
  intros sg Hin. pattern sg. revert sg Hin. apply Forall_forall.
  apply layout_cases; intros; cbn [Kind seg seg_Spec Start] in *;
    cbn [String.eqb Ascii.eqb Bool.eqb] in *; match goal with Q : _ = Ok m |- _ => rename Q into E end;
    cbn [isDwell String.eqb Ascii.eqb Bool.eqb orb]; try (injection E as <-; split; reflexivity).
  - destruct (Kinematics.SampleSide_Ok _ (of_const 0) theta (fdiv (of_const 0) (Omega c)) false
                side (rise_spec_valid c Hv)) as (w & _ & E'). rewrite E' in E.
    injection E as <-. split; reflexivity.
  - destruct (Kinematics.SampleSide_Ok _ (p2 c) theta (fdiv (p2 c) (Omega c)) true
                side (return_spec_valid c Hv)) as (w & _ & E'). rewrite E' in E.
    injection E as <-. split; reflexivity.
Qed.

(** The time of a sample of the turn, in every arithmetic.  In a dwell it is the
    angle over the speed; in the rise and in the return it is the moment the segment
    starts, the same for all its samples: [t_s] of a turn does not advance while the
    follower moves. *)
Theorem turn_time {F} {GF : GoFloat F} (c : Config F) b theta m :
  Build c = Ok b -> Point b theta = Ok m ->
  let theta' := if fltb Kinematics.FullTurn theta then Kinematics.FullTurn else theta in
  exists sg, locate b theta' = Some sg /\
    Kinematics.Theta m = theta' /\
    Kinematics.Time m = fdiv (if isDwell (Kind sg) then theta' else Start sg) (Omega c).
Proof.
  intros Hb Hp theta'. apply Build_inv in Hb as [Hv ->].
  assert (Hr : fltb theta (of_const 0) || fltb (of_const (360 + 1 / 1000000000)) theta = false).
  { unfold Point in Hp. now destruct (_ || _). }
  destruct (Point_located c Hv theta Hr) as (sg & m' & Hl & Hin & Hs & Hm).
  rewrite Hm in Hp. injection Hp as <-. exists sg. split; [exact Hl|].
  exact (sideMotion_Time c sg _ _ _ Hv Hin Hs).
Qed.

(** * The turn over the reals *)

Local Open Scope R_scope.

Lemma Config_Validate_R (c : Config R) :
  Validate c = Ok tt ->
  Law.Known (RiseLaw c) = true /\ Law.Known (ReturnLaw c) = true /\
  0 < H c /\ 0 < Omega c /\ 0 < RiseAngle c < 360 /\ 0 < ReturnAngle c < 360 /\
  0 <= OuterDwell c /\ 0 <= InnerDwell c /\
  Rabs (RiseAngle c + OuterDwell c + ReturnAngle c + InnerDwell c - 360) <= 1 / 1000000000.
Proof.
  intros Hv. destruct (Validate_accepts c tt Hv) as [A1 A2 A3 A4 A5 A6 A7 A8 [_ A9] [_ A10] A11].
  apply not_positive_R in A3, A4, A5, A7. unfold angle_sum, Kinematics.FullTurn in *. ideal.
  destruct (Rleb_spec 360 (RiseAngle c)); [discriminate|].
  destruct (Rleb_spec 360 (ReturnAngle c)); [discriminate|].
  destruct (Rltb_spec (OuterDwell c) 0); [discriminate|].
  destruct (Rltb_spec (InnerDwell c) 0); [discriminate|].
  match type of A11 with Rltb ?x ?y = false => destruct (Rltb_spec x y); [discriminate|] end.
  repeat split; (assumption || lra).
Qed.

Section Turn.
Variable c : Config R.
Hypothesis Hv : Validate c = Ok tt.
Let b : Segments R := mkSegments (layout c) (p4 c).

Lemma after_R (pos beta : R) : 0 <= beta -> after pos beta = pos + beta.
Proof. intros. unfold after. ideal. rtest; lra. Qed.

Lemma positions_R :
  p1 c = RiseAngle c /\ p2 c = RiseAngle c + OuterDwell c /\
  p3 c = RiseAngle c + OuterDwell c + ReturnAngle c /\
  p4 c = RiseAngle c + OuterDwell c + ReturnAngle c + InnerDwell c.
Proof.
  destruct (Config_Validate_R c Hv) as (_ & _ & _ & _ & _ & _ & Ho & Hi & _).
  unfold p4, p3, p2, p1. ideal. rewrite !after_R by assumption. repeat split; ring.
Qed.

(** Displacement and velocity of the turn, one formula for all angles: the
    rise minus the return, both at rest outside their segment. *)
Definition disp (theta : R) : R :=
  H c * (curve Law.Y (RiseLaw c) 0 (theta / RiseAngle c)
         - curve Law.Y (ReturnLaw c) 0
             ((theta - (RiseAngle c + OuterDwell c)) / ReturnAngle c)).

Definition vel (theta : R) : R :=
  Omega c * H c *
  (curve Law.Y1 (RiseLaw c) 0 (theta / RiseAngle c) / RiseAngle c
   - curve Law.Y1 (ReturnLaw c) 0
       ((theta - (RiseAngle c + OuterDwell c)) / ReturnAngle c) / ReturnAngle c).

Lemma ratio_le_0 x y : 0 < y -> x <= 0 -> x / y <= 0.
Proof.
  intros Hy Hx. unfold Rdiv. pose proof (Rinv_0_lt_compat y Hy). nra.
Qed.

Lemma ratio_ge_1 x y : 0 < y -> y <= x -> 1 <= x / y.
Proof.
  intros Hy Hx. unfold Rdiv. apply Rmult_le_reg_r with y; [assumption|].
  rewrite Rmult_assoc, Rinv_l by lra. lra.
Qed.

(** The rise is complete from its end on; the return has not begun before. *)
Lemma rise_done theta :
  RiseAngle c <= theta ->
  curve Law.Y (RiseLaw c) 0 (theta / RiseAngle c) = 1 /\
  curve Law.Y1 (RiseLaw c) 0 (theta / RiseAngle c) = 0.
Proof.
  intros Ht. destruct (Config_Validate_R c Hv) as (K1 & _ & _ & _ & Hr & _).
  apply curve_after; [assumption|]. apply ratio_ge_1; lra.
Qed.

Lemma return_not_begun theta :
  theta <= RiseAngle c + OuterDwell c ->
  curve Law.Y (ReturnLaw c) 0 ((theta - (RiseAngle c + OuterDwell c)) / ReturnAngle c) = 0 /\
  curve Law.Y1 (ReturnLaw c) 0 ((theta - (RiseAngle c + OuterDwell c)) / ReturnAngle c) = 0.
Proof.
  intros Ht. destruct (Config_Validate_R c Hv) as (_ & K2 & _ & _ & _ & Hr & _).
  apply curve_before; [assumption|]. apply ratio_le_0; lra.
Qed.

Lemma return_done theta :
  RiseAngle c + OuterDwell c + ReturnAngle c <= theta ->
  curve Law.Y (ReturnLaw c) 0 ((theta - (RiseAngle c + OuterDwell c)) / ReturnAngle c) = 1 /\
  curve Law.Y1 (ReturnLaw c) 0 ((theta - (RiseAngle c + OuterDwell c)) / ReturnAngle c) = 0.
Proof.
  intros Ht. destruct (Config_Validate_R c Hv) as (_ & K2 & _ & _ & _ & Hr & _).
  apply curve_after; [assumption|]. apply ratio_ge_1; lra.
Qed.

(** The angles at which the motion of a segment is that of the turn. *)
Definition covers (sg : Segment R) (theta : R) : Prop :=
  if String.eqb (Kind sg) "rise" then theta <= RiseAngle c
  else if String.eqb (Kind sg) "outer_dwell" then
    RiseAngle c <= theta <= RiseAngle c + OuterDwell c
  else if String.eqb (Kind sg) "return" then RiseAngle c <= theta
  else RiseAngle c + OuterDwell c + ReturnAngle c <= theta.

Lemma covers_segment sg theta :
  In sg (layout c) -> Start sg <= theta <= End_ sg -> covers sg theta.
Proof.
  destruct positions_R as (P1 & P2 & P3 & P4).
  destruct (Config_Validate_R c Hv) as (_ & _ & _ & _ & Hr & Ht & Ho & Hi & _).
  intros Hin. pattern sg. revert sg Hin. apply Forall_forall.
  apply layout_cases; unfold covers; cbn [seg Kind Start End_ String.eqb Ascii.eqb Bool.eqb];
    rewrite ?P1, ?P2, ?P3; ideal; intros; lra.
Qed.

(** In an angle it covers, a segment seen from either side moves as the turn. *)
Lemma sideMotion_turn sg theta side m :
  In sg (layout c) -> covers sg theta -> sideMotion b sg theta side = Ok m ->
  Kinematics.Theta m = theta /\ Kinematics.S_ m = disp theta /\
  Kinematics.V_ m = vel theta.
Proof.
  destruct positions_R as (P1 & P2 & P3 & P4).
  destruct (Config_Validate_R c Hv) as (K1 & K2 & Hh & Hw & Hr & Ht & Ho & Hi & _).
  intros Hin. pattern sg. revert sg Hin. apply Forall_forall.
  unfold sideMotion, b. rewrite (turn_omega_built c). cbn [bind].
  apply layout_cases; unfold covers, disp, vel;
    cbn [seg Kind Start seg_Spec String.eqb Ascii.eqb Bool.eqb Kinematics.H];
    [|intros _|rewrite P2|intros _]; intros Hc Hm.
  - destruct (SampleSide_val _ (rise_spec_valid c Hv) (of_const 0) theta
                (fdiv (of_const 0) (Omega c)) false side)
      as (m' & E & T & _ & ES & EV & _). rewrite E in Hm. injection Hm as ->.
    destruct (return_not_begun theta ltac:(lra)) as [-> ->].
    unfold dimless, speed, sgn in *. ideal.
    cbn [Kinematics.H Kinematics.Beta Kinematics.Omega Kinematics.Type_] in *.
    rewrite Rminus_0_r in ES, EV.
    destruct (curve_side (RiseLaw c) side 0 (theta / RiseAngle c) K1) as [E0 E1].
    rewrite ES, EV, E0, E1. repeat split; [assumption|ring|field; lra].
  - injection Hm as <-. destruct (rise_done theta ltac:(lra)) as [-> ->].
    destruct (return_not_begun theta ltac:(lra)) as [-> ->].
    cbn [dwellMotion Kinematics.Theta Kinematics.S_ Kinematics.V_]. ideal.
    repeat split; [ring|field; lra].
  - destruct (SampleSide_val _ (return_spec_valid c Hv) (RiseAngle c + OuterDwell c) theta
                (fdiv (RiseAngle c + OuterDwell c) (Omega c)) true side)
      as (m' & E & T & _ & ES & EV & _). rewrite E in Hm. injection Hm as ->.
    destruct (rise_done theta ltac:(lra)) as [-> ->].
    unfold dimless, speed, sgn in *.
    cbn [Kinematics.H Kinematics.Beta Kinematics.Omega Kinematics.Type_] in *.
    set (x := (theta - (RiseAngle c + OuterDwell c)) / ReturnAngle c) in *.
    destruct (curve_side (ReturnLaw c) side 0 x K2) as [E0 E1].
    rewrite ES, EV, E0, E1. repeat split; [assumption|ring|field; lra].
  - injection Hm as <-. destruct (rise_done theta ltac:(lra)) as [-> ->].
    destruct (return_done theta ltac:(lra)) as [-> ->].
    cbn [dwellMotion Kinematics.Theta Kinematics.S_ Kinematics.V_]. ideal.
    repeat split; [ring|field; lra].
Qed.

Lemma contiguous_cover pos l fin theta :
  contiguous pos l fin -> pos <= theta < fin ->
  exists sg, In sg l /\ Start sg <= theta < End_ sg.
Proof.
  revert pos. induction l as [|sg l IH]; simpl; intros pos Hc Ht; [lra|].
  destruct Hc as (HS & HE & Hc). ideal.
  destruct (Rlt_dec theta (End_ sg)) as [Hlt|Hge].
  - exists sg. split; [now left|]. lra.
  - destruct (IH (End_ sg) Hc ltac:(lra)) as (sg' & Hin & Hsg). eauto.
Qed.

Lemma last_covers sg theta :
  last_option (layout c) = Some sg -> p4 c <= theta -> covers sg theta.
Proof.
  destruct positions_R as (P1 & P2 & P3 & P4).
  destruct (Config_Validate_R c Hv) as (_ & _ & _ & _ & Hr & Ht & Ho & Hi & _).
  rewrite layout_last. intros E. injection E as <-. rewrite P4. intros Hth.
  case_if; unfold covers; cbn [seg Kind String.eqb Ascii.eqb Bool.eqb]; lra.
Qed.

Lemma find_none_test (f : Segment R -> bool) sg :
  find f (layout c) = None -> In sg (layout c) -> f sg = false.
Proof. intros H1 H2. now apply (find_none f (layout c)). Qed.

Lemma locate_covers theta :
  p4 c <= 360 -> 0 <= theta <= 360 ->
  exists sg, locate b theta = Some sg /\ In sg (layout c) /\ covers sg theta.
Proof.
  intros H4 Ht. destruct (locate_In c theta) as (sg & Hl & Hin).
  exists sg. split; [exact Hl|split; [exact Hin|]].
  unfold locate in Hl. cbn [All] in Hl. unfold Kinematics.FullTurn in Hl. ideal.
  destruct (Rleb_spec 360 theta) as [Hf|Hf].
  { apply last_covers; [assumption|lra]. }
  destruct (find _ (layout c)) as [sg1|] eqn:F1.
  { injection Hl as ->. apply find_some in F1 as [_ F1].
    apply andb_true_iff in F1 as [F1 F1c]. apply andb_true_iff in F1 as [_ F1b].
    apply Rleb_iff in F1b, F1c. now apply covers_segment. }
  destruct (find (fun sg => _ && Rltb theta (End_ sg)) (layout c)) as [sg2|] eqn:F2.
  { injection Hl as ->. apply find_some in F2 as [_ F2].
    apply andb_true_iff in F2 as [F2a F2b].
    apply Rleb_iff in F2a. apply Rltb_iff in F2b. apply covers_segment; [assumption|lra]. }
  apply last_covers; [assumption|].
  destruct (Rle_lt_dec (p4 c) theta) as [|Hlt]; [assumption|exfalso].
  destruct (contiguous_cover _ _ _ theta (layout_contiguous c)) as (sg' & Hin' & Hsg');
    [ideal; lra|].
  pose proof (find_none_test _ _ F2 Hin') as F. cbv beta in F.
  rewrite Rleb_true, Rltb_true in F by lra. discriminate.
Qed.

Lemma disp_derivative t :
  derivable_pt_lim (fun t => disp (Omega c * t)) t (vel (Omega c * t)).
Proof.
  destruct (Config_Validate_R c Hv) as (K1 & K2 & Hh & Hw & Hr & Ht & _).
  unfold disp, vel.
  set (kr := Omega c / RiseAngle c). set (kt := Omega c / ReturnAngle c).
  set (d := - (RiseAngle c + OuterDwell c) / ReturnAngle c).
  assert (Er : forall u, Omega c * u / RiseAngle c = kr * u + 0)
    by (intros; unfold kr; field; lra).
  assert (Et : forall u, (Omega c * u - (RiseAngle c + OuterDwell c)) / ReturnAngle c
                         = kt * u + d) by (intros; unfold kt, d; field; lra).
  apply (derivable_pt_lim_ext (fun u =>
    H c * (curve Law.Y (RiseLaw c) 0 (kr * u + 0) - curve Law.Y (ReturnLaw c) 0 (kt * u + d)))).
  { intros u. now rewrite Er, Et. }
  rewrite Er, Et. eapply D_eq.
  - apply D_scal, D_minus; apply D_affine, known_velocity; assumption.
  - unfold kr, kt. field. lra.
Qed.

Lemma disp_range theta : 0 <= disp theta <= H c.
Proof.
  destruct (Config_Validate_R c Hv) as (K1 & K2 & Hh & Hw & Hr & Ht & Ho & _).
  unfold disp.
  pose proof (curve_range (RiseLaw c) 0 (theta / RiseAngle c) K1).
  pose proof (curve_range (ReturnLaw c) 0
                ((theta - (RiseAngle c + OuterDwell c)) / ReturnAngle c) K2).
  destruct (Rle_lt_dec (RiseAngle c) theta).
  - destruct (rise_done theta ltac:(lra)) as [-> _]. nra.
  - destruct (return_not_begun theta ltac:(lra)) as [-> _]. nra.
Qed.

Lemma disp_start : disp 0 = 0 /\ vel 0 = 0.
Proof.
  destruct (Config_Validate_R c Hv) as (K1 & K2 & Hh & Hw & Hr & Ht & Ho & _).
  unfold disp, vel. destruct (return_not_begun 0 ltac:(lra)) as [-> ->].
  destruct (curve_before (RiseLaw c) 0 (0 / RiseAngle c) K1) as [-> ->];
    [apply ratio_le_0; lra|]. split; [ring|field; lra].
Qed.

Lemma disp_end theta : p3 c <= theta -> disp theta = 0 /\ vel theta = 0.
Proof.
  destruct positions_R as (_ & _ & -> & _). intros Hth.
  destruct (Config_Validate_R c Hv) as (K1 & K2 & Hh & Hw & Hr & Ht & Ho & _).
  unfold disp, vel. destruct (return_done theta Hth) as [-> ->].
  destruct (rise_done theta ltac:(lra)) as [-> ->]. split; [ring|field; lra].
Qed.

Lemma Point_turn theta :
  p4 c <= 360 -> 0 <= theta <= 360 ->
  exists m, Point b theta = Ok m /\ Kinematics.Theta m = theta /\
    Kinematics.S_ m = disp theta /\ Kinematics.V_ m = vel theta.
Proof.
  intros H4 Ht.
  destruct (Point_located c Hv theta) as (sg & m & Hl & Hin & Hm & Hp).
  { ideal. rtest; try lra; reflexivity. }
  exists m. split; [exact Hp|].
  assert (E : (if fltb Kinematics.FullTurn theta then Kinematics.FullTurn else theta) = theta)
    by (unfold Kinematics.FullTurn; ideal; rtest; lra).
  rewrite E in *.
  destruct (locate_covers theta H4 Ht) as (sg' & Hl' & _ & Hc).
  assert (sg' = sg) by (unfold b in *; congruence). subst sg'.
  eapply sideMotion_turn; eassumption.
Qed.
End Turn.

(** C2: the whole turn. When the angles do not exceed a full turn, [Point]
    answers at every angle of [0, 360] with the displacement [disp] and the
    velocity [vel] of one smooth periodic motion: the displacement stays in
    [0, h], its time derivative at constant speed is the velocity at every
    angle -- across every joint too --, and the turn starts and closes at rest
    at 0. *)
Theorem turn_is_smooth (c : Config R) b :
  Build c = Ok b -> angle_sum c <= 360 ->
  (forall theta, 0 <= theta <= 360 ->
     exists m, Point b theta = Ok m /\ Kinematics.Theta m = theta /\
       Kinematics.S_ m = disp c theta /\ Kinematics.V_ m = vel c theta) /\
  (forall t, derivable_pt_lim (fun t => disp c (Omega c * t)) t (vel c (Omega c * t))) /\
  (forall theta, 0 <= disp c theta <= H c) /\
  disp c 0 = 0 /\ vel c 0 = 0 /\ disp c 360 = 0 /\ vel c 360 = 0.
Proof.
  intros Hb Hs. apply Build_inv in Hb as [Hv ->].
  destruct (positions_R c Hv) as (_ & _ & P3 & P4).
  destruct (Config_Validate_R c Hv) as (_ & _ & _ & _ & _ & _ & _ & Hi & _).
  unfold angle_sum in Hs. ideal.
  destruct (disp_start c Hv). destruct (disp_end c Hv 360) as [E1 E2]; [lra|].
  repeat split; auto using disp_derivative.
  - intros theta Ht. apply Point_turn; [assumption|lra|assumption].
  - apply (disp_range c Hv).
  - apply (disp_range c Hv).
Qed.

Definition sample_config : Config R :=
  mkConfig Law.Cycloid Law.Parabolic 10 60 30 90 180 360.

Lemma sample_config_valid : Validate sample_config = Ok tt.
Proof.
  unfold Validate, checkMotionAngle, checkDwellAngle, angle_sum, Kinematics.not_positive,
    Kinematics.FullTurn, sample_config.
  cbn [RiseLaw ReturnLaw H RiseAngle OuterDwell ReturnAngle InnerDwell Omega].
  ideal. replace (60 + 30 + 90 + 180 - 360) with 0 by ring. rewrite Rabs_R0.
  rtest; reflexivity.
Qed.

Lemma built_turn_total_witness :
  exists b, Build sample_config = Ok b /\
    (exists m, Point b 0 = Ok m) /\
    (exists js, Discontinuities b = Ok js /\ map joint_label js = joint_labels (All b)).
Proof.
  destruct (Validate sample_config) as [[]|e|] eqn:Hv;
    [|rewrite sample_config_valid in Hv; discriminate Hv..].
  eexists. split; [exact (Build_accepted sample_config Hv)|].
  destruct (built_turn_total sample_config _ (Build_accepted sample_config Hv)) as (T1 & T2 & _).
  split; [|exact T2]. specialize (T1 0).
  replace (fltb 0 (of_const 0) || fltb (of_const (360 + 1 / 1000000000)) 0) with false in T1; [exact T1|].
  symmetry. ideal. apply orb_false_iff. split; apply Rltb_false; lra.
Defined.

Lemma turn_is_smooth_witness :
  exists b, Build sample_config = Ok b /\
    exists m, Point b 75 = Ok m /\ Kinematics.S_ m = disp sample_config 75.
Proof.
  eexists. split; [exact (Build_accepted sample_config sample_config_valid)|].
  destruct (turn_is_smooth sample_config _ (Build_accepted sample_config sample_config_valid))
    as (P & _).
  - unfold angle_sum. cbn [sample_config RiseAngle OuterDwell ReturnAngle InnerDwell]. ideal. lra.
  - destruct (P 75 ltac:(lra)) as (m & A & _ & B & _). exists m. split; [exact A|exact B].
Defined.

(** * Continuity at the joints *)

Section TurnJoints.
Variable c : Config R.
Hypothesis Hv : Validate c = Ok tt.
Let b : Segments R := mkSegments (layout c) (p4 c).

(** Both sides at the same displacement and velocity. *)
Definition meets (j : Joint R) : Prop :=
  Kinematics.SCont (joint_Seam j) = true /\ Kinematics.VCont (joint_Seam j) = true /\
  Kinematics.SJump (joint_Seam j) = false.

Lemma Join_meets theta kind (l r : Kinematics.Motion R) a z :
  Kinematics.S_ l = Kinematics.S_ r -> Kinematics.V_ l = Kinematics.V_ r ->
  meets (mkJoint a z (Kinematics.Join theta kind l r)).
Proof.
  intros ES EV. unfold meets, Kinematics.Join.
  cbn [joint_Seam Kinematics.SCont Kinematics.VCont Kinematics.SJump].
  change (Max (F := R)) with Rmax. change (Abs (F := R)) with Rabs.
  now rewrite !approxEqual_refl by assumption.
Qed.

Lemma segment_ordered sg : In sg (layout c) -> Start sg <= End_ sg.
Proof.
  destruct (Config_Validate_R c Hv) as (_ & _ & _ & _ & Hr & Ht & Ho & Hi & _).
  intros Hin. pattern sg. revert sg Hin. apply Forall_forall.
  apply layout_cases; cbn [seg Start End_]; ideal; intros; lra.
Qed.

Lemma boundary_meets l r :
  In (l, r) (combine (layout c) (tl (layout c))) ->
  forall j, boundary_joint b (l, r) = Ok j -> meets j.
Proof.
  intros Hin j Hj.
  destruct (adjacent_meet _ _ _ _ _ (layout_contiguous c) Hin) as (I1 & I2 & E).
  destruct (boundary_joint_Ok c Hv l r I1 I2) as (lv & rv & Hl & Hr & Hb).
  unfold b in Hj. rewrite Hb in Hj. injection Hj as <-.
  pose proof (segment_ordered l I1) as Ol. pose proof (segment_ordered r I2) as Or.
  rewrite E in *.
  destruct (sideMotion_turn c Hv l (End_ l) (of_const 1) lv I1) as (_ & S1 & V1); [|exact Hl|].
  { apply covers_segment; [assumption..|lra]. }
  destruct (sideMotion_turn c Hv r (End_ l) (of_const (-1)) rv I2) as (_ & S2 & V2); [|exact Hr|].
  { apply covers_segment; [assumption..|lra]. }
  apply Join_meets; congruence.
Qed.

Lemma switch_meets sg :
  In sg (layout c) -> seg_Law sg = Law.Parabolic ->
  forall j, switch_joint b sg = Ok j -> meets j.
Proof.
  intros Hin Hp j Hj.
  destruct (switch_joint_Ok c Hv sg Hin Hp) as (lv & rv & Hl & Hr & Hs).
  unfold b in Hj. rewrite Hs in Hj. injection Hj as <-.
  destruct (parabolic_segments c Hv sg Hin Hp) as (Vs & Ts & Bs).
  destruct (switch_seam (seg_Spec sg) (Start sg) (fdiv (Start sg) (Omega c))
              (String.eqb (Kind sg) "return")
              (fadd (Start sg) (fdiv (Beta sg) (of_const 2))) "switch" Vs Ts)
    as (l & r & Hl' & Hr' & _ & _ & A1 & A2 & _ & A3 & _).
  rewrite Bs in Hl', Hr'. ideal. change (-1) with (- (1)) in Hl.
  rewrite Hl in Hl'. rewrite Hr in Hr'. injection Hl' as <-. injection Hr' as <-.
  unfold meets. cbn [joint_Seam]. auto.
Qed.

(** The closing joint compares the displacement at 360° with 0. *)
Lemma cyclic_jump :
  exists j, cyclic_joint b = Ok j /\
    (Kinematics.SJump (joint_Seam j) = true <->
     InnerDwell c = 0 /\ seam_tol (disp c 360) 0 < disp c 360).
Proof.
  destruct (cyclic_joint_Ok c Hv) as (l & lv & rv & Hl & Hin & Hlv & Hrv & Hj).
  eexists. split; [exact Hj|]. cbn [joint_Seam Kinematics.SJump Kinematics.Join].
  change (Max (F := R)) with Rmax. change (Abs (F := R)) with Rabs.
  destruct (Config_Validate_R c Hv) as (_ & _ & _ & _ & Hr & Ht & Ho & Hi & _).
  destruct (sideMotion_turn c Hv (seg c "rise" (RiseLaw c) (of_const 0) (RiseAngle c)) 0 (-1) rv)
    as (_ & Sr & _); [now left| |exact Hrv|].
  { unfold covers. cbn [seg Kind String.eqb Ascii.eqb Bool.eqb]. lra. }
  destruct (disp_start c Hv) as [D0 _]. rewrite D0 in Sr. rewrite Sr.
  rewrite negb_true_iff, <- not_true_iff_false, approxEqual_R.
  pose proof (disp_range c Hv 360) as Hd.
  rewrite (layout_last c) in Hl. injection Hl as <-. ideal.
  destruct (Rleb_spec (InnerDwell c) 0) as [Hz|Hz].
  - destruct (sideMotion_turn c Hv _ 360 1 lv Hin) as (_ & Sl & _); [|exact Hlv|].
    { unfold covers. cbn [seg Kind String.eqb Ascii.eqb Bool.eqb]. lra. }
    rewrite Sl, Rminus_0_r, Rabs_pos_eq by lra.
    split; [intros; split; lra|intros [_ Hlt]; lra].
  - unfold sideMotion in Hlv. rewrite (turn_omega_built c) in Hlv.
    cbn [bind seg Kind String.eqb Ascii.eqb Bool.eqb] in Hlv. injection Hlv as <-.
    cbn [dwellMotion Kinematics.S_]. ideal. rewrite Rminus_diag, Rabs_R0.
    pose proof (seam_tol_pos 0 0). split; [intros; exfalso; lra|intros [Hz' _]; lra].
Qed.

Lemma HasDisplacementJump_false (js : list (Joint R)) :
  Forall meets js -> HasDisplacementJump js = false.
Proof.
  induction 1 as [|j js (_ & _ & Hj) _ IH]; [reflexivity|].
  unfold HasDisplacementJump in *. simpl. now rewrite Hj.
Qed.
End TurnJoints.

(** C19: displacement continuity. The joints of a built turn all meet in
    displacement and velocity, except possibly the closing one; a displacement
    jump is reported exactly when there is no inner dwell and the return is
    still above the tolerance at 360°, which needs angles that exceed a full
    turn (within the 1e-9 the validation tolerates). *)
Theorem displacement_jump_iff (c : Config R) b :
  Build c = Ok b ->
  exists js, Discontinuities b = Ok js /\
    Forall (fun j => Kinematics.seam_Kind (joint_Seam j) <> "cyclic"%string -> meets j) js /\
    (HasDisplacementJump js = true <->
     InnerDwell c = 0 /\ seam_tol (disp c 360) 0 < disp c 360) /\
    (HasDisplacementJump js = true -> 360 < angle_sum c).
Proof.
  intros Hb. apply Build_inv in Hb as [Hv ->].
  destruct (cyclic_jump c Hv) as (cj & Hcj & Hcyc).
  destruct (Discontinuities_Forall c Hv (fun j => j = cj \/ meets j)) as (js & Hjs & Hall & Hlab).
  - intros l r Hin j Hj. right. eapply boundary_meets; eassumption.
  - intros sg Hin Hp j Hj. right. eapply switch_meets; eassumption.
  - intros j Hj. left. congruence.
  - assert (Hck : Kinematics.seam_Kind (joint_Seam cj) = "cyclic"%string).
    { destruct (cyclic_joint_Ok c Hv) as (l & lv & rv & _ & _ & _ & _ & E).
      rewrite E in Hcj. injection Hcj as <-. reflexivity. }
    assert (Hin : In cj js).
    { unfold Discontinuities in Hjs. inv_binds. rewrite Hcj in Ha1. injection Ha1 as <-.
      rewrite !in_app_iff. simpl. auto. }
    assert (Hiff : HasDisplacementJump js = true <->
                   InnerDwell c = 0 /\ seam_tol (disp c 360) 0 < disp c 360).
    { rewrite <- Hcyc. unfold HasDisplacementJump. rewrite existsb_exists. split.
      - intros (j & Hj & HS). rewrite Forall_forall in Hall.
        destruct (Hall j Hj) as [->|(_ & _ & HS')]; [assumption|congruence].
      - intros HS. eauto. }
    exists js. split; [assumption|]. split; [|split; [assumption|]].
    + eapply Forall_impl; [|exact Hall]. intros j [->|Hm] Hk; [contradiction|assumption].
    + intros Hj. apply Hiff in Hj as [Hz Hlt].
      destruct (Rlt_dec 360 (angle_sum c)) as [|Hn]; [assumption|exfalso].
      destruct (positions_R c Hv) as (_ & _ & P3 & _).
      destruct (disp_end c Hv 360) as [E _]; [unfold angle_sum in Hn; ideal; lra|].
      pose proof (seam_tol_pos (disp c 360) 0). lra.
Qed.

(** A legal configuration whose closing joint is 0.162 above 0: the angles sum
    to 360 + 9e-10 and the return takes only 1e-8 degrees. *)
Definition steep_config : Config R :=
  mkConfig Law.Parabolic Law.Parabolic 10 180
    (180 - 1 / 100000000 + 9 / 10000000000) (1 / 100000000) 0 360.

Lemma steep_config_valid : Validate steep_config = Ok tt.
Proof.
  unfold Validate, checkMotionAngle, checkDwellAngle, angle_sum, Kinematics.not_positive,
    Kinematics.FullTurn, steep_config.
  cbn [RiseLaw ReturnLaw H RiseAngle OuterDwell ReturnAngle InnerDwell Omega].
  ideal. match goal with |- context [Rabs ?x] =>
    replace (Rabs x) with (9 / 10000000000) by (rewrite Rabs_pos_eq; lra) end.
  rtest; reflexivity.
Qed.

Lemma steep_disp : disp steep_config 360 = 162 / 1000.
Proof.
  unfold disp. cbn [steep_config RiseLaw ReturnLaw H RiseAngle OuterDwell ReturnAngle].
  match goal with |- context [curve _ _ _ ((360 - ?a) / ?r)] =>
    replace ((360 - a) / r) with (91 / 100) by field end.
  replace (360 / 180) with 2 by field.
  destruct (curve_after Law.Parabolic 0 2 eq_refl ltac:(lra)) as [-> _].
  rewrite curve_parabolic_right by lra. cbn [Law.Y]. lra.
Qed.

Lemma displacement_jump_iff_witness :
  exists b js, Build steep_config = Ok b /\ Discontinuities b = Ok js /\
    HasDisplacementJump js = true.
Proof.
  destruct (displacement_jump_iff steep_config _ (Build_accepted steep_config steep_config_valid))
    as (js & Hj & _ & [_ Hi] & _).
  eexists _, js. split; [exact (Build_accepted steep_config steep_config_valid)|].
  split; [exact Hj|]. apply Hi. rewrite steep_disp. split; [reflexivity|].
  unfold seam_tol. rewrite Rabs_R0, Rabs_pos_eq by lra. rewrite Rmax_left by lra. lra.
Defined.

(** * The curve of a full turn *)

(** What a sample labelled with a dwell must be: level, and at rest. *)
Definition dwell_at_rest {F} {GF : GoFloat F} (c : Config F) (s : CurveSample F) : Prop :=
  let m := cs_Motion s in
  let at_rest level :=
    Kinematics.S_ m = level /\ Kinematics.V_ m = of_const 0 /\
    Kinematics.A_ m = of_const 0 /\ Kinematics.J_ m = of_const 0 in
  (cs_Segment s = "outer_dwell"%string -> at_rest (H c)) /\
  (cs_Segment s = "inner_dwell"%string -> at_rest (of_const 0)).

Lemma sideMotion_dwell {F} {GF : GoFloat F} (c : Config F) sg theta side m :
  Validate c = Ok tt -> In sg (layout c) ->
  sideMotion (mkSegments (layout c) (p4 c)) sg theta side = Ok m ->
  dwell_at_rest c (mkCurveSample (Kind sg) m).
Proof.
  intros Hv Hin. revert m. pattern sg. revert sg Hin. apply Forall_forall.
  unfold sideMotion, dwell_at_rest. rewrite (turn_omega_built c). cbn [bind].
  apply layout_cases; cbn [seg Kind seg_Spec cs_Segment cs_Motion String.eqb Ascii.eqb Bool.eqb];
    intros; (split; intros; try discriminate);
    match goal with E : Ok _ = Ok _ |- _ => injection E as <- end; auto.
Qed.

Lemma curve_point_turn (c : Config R) n i :
  Validate c = Ok tt -> p4 c <= 360 -> (2 <= n)%Z -> (0 <= i < n)%Z ->
  exists s, curve_point (mkSegments (layout c) (p4 c)) n i = Ok s /\
    Kinematics.Theta (cs_Motion s) = 360 * IZR i / IZR (n - 1) /\
    Kinematics.S_ (cs_Motion s) = disp c (360 * IZR i / IZR (n - 1)) /\
    Kinematics.V_ (cs_Motion s) = vel c (360 * IZR i / IZR (n - 1)) /\
    dwell_at_rest c s.
Proof.
  intros Hv H4 Hn Hi. unfold curve_point, Kinematics.FullTurn. ideal.
  set (theta := 360 * IZR i / IZR (n - 1)).
  assert (Ht : 0 <= theta <= 360).
  { assert (0 < IZR (n - 1)) by (apply IZR_lt; lia).
    assert (0 <= IZR i) by (apply IZR_le; lia).
    assert (IZR i <= IZR (n - 1)) by (apply IZR_le; lia).
    unfold theta, Rdiv. split.
    - apply Rmult_le_pos; [lra|]. left. now apply Rinv_0_lt_compat.
    - apply Rmult_le_reg_r with (IZR (n - 1)); [assumption|].
      rewrite Rmult_assoc, Rinv_l by lra. lra. }
  destruct (Point_turn c Hv theta H4 Ht) as (m & Hm & E1 & E2 & E3).
  destruct (Point_located c Hv theta) as (sg & m' & Hl & Hin & Hs & Hm').
  { ideal. rtest; try lra; reflexivity. }
  rewrite Hm in Hm'. injection Hm' as <-.
  assert (E : (if fltb Kinematics.FullTurn theta then Kinematics.FullTurn else theta) = theta)
    by (unfold Kinematics.FullTurn; ideal; rtest; lra).
  rewrite E in *. rewrite Hm. cbn [bind]. rewrite Hl. cbn [from_option bind].
  eexists. split; [reflexivity|]. cbn [cs_Motion]. repeat (split; [assumption|]).
  eapply sideMotion_dwell; eassumption.
Qed.

(** the curve of a turn. A request above the limit is rejected; otherwise the
    curve samples [disp] and [vel] on the equidistant grid over [0, 360] with
    both ends, at least two points; samples labelled as dwells are level (at
    [h] or 0) with velocity, acceleration and jerk 0; the last point closes the
    curve onto the first. *)
Theorem turn_curve_grid (c : Config R) b points :
  Build c = Ok b -> angle_sum c <= 360 ->
  if (points >? Kinematics.MaxPoints)%Z then Curve b points = Err Kinematics.too_many_points
  else
    let n := Kinematics.grid_points points in
    exists out, Curve b points = Ok out /\ length out = Z.to_nat n /\
      (forall i, (0 <= i < n)%Z -> exists s, nth_error out (Z.to_nat i) = Some s /\
         Kinematics.Theta (cs_Motion s) = 360 * IZR i / IZR (n - 1) /\
         Kinematics.S_ (cs_Motion s) = disp c (Kinematics.Theta (cs_Motion s)) /\
         Kinematics.V_ (cs_Motion s) = vel c (Kinematics.Theta (cs_Motion s)) /\
         dwell_at_rest c s) /\
      exists first last, head out = Some first /\ last_option out = Some last /\
         Kinematics.Theta (cs_Motion first) = 0 /\ Kinematics.Theta (cs_Motion last) = 360 /\
         Kinematics.S_ (cs_Motion first) = 0 /\ Kinematics.S_ (cs_Motion last) = 0.
Proof.
  intros Hb Hs. apply Build_inv in Hb as [Hv ->].
  destruct (positions_R c Hv) as (_ & _ & P3 & P4).
  destruct (Config_Validate_R c Hv) as (_ & _ & _ & _ & _ & _ & _ & Hi & _).
  assert (H4 : p4 c <= 360) by (unfold angle_sum in Hs; ideal; lra).
  unfold Curve. rewrite Kinematics.clamp_points, !Z.gtb_ltb.
  set (n := Kinematics.grid_points points).
  assert (Hn : (2 <= n)%Z) by (unfold n, Kinematics.grid_points, Kinematics.MinPoints; lia).
  assert (En : (Kinematics.MaxPoints <? n)%Z = (Kinematics.MaxPoints <? points)%Z)
    by (unfold n, Kinematics.grid_points, Kinematics.MinPoints, Kinematics.MaxPoints;
        destruct (Z.ltb_spec 200001 points), (Z.ltb_spec 200001 (Z.max 2 points)); lia).
  rewrite En. destruct (Kinematics.MaxPoints <? points)%Z; [reflexivity|]. cbv zeta.
  destruct (mapM_exists (curve_point (mkSegments (layout c) (p4 c)) n) (fun _ _ => True)
              (range n)) as (out & Ho & _).
  { intros i Hin. apply range_In in Hin.
    destruct (curve_point_turn c n i Hv H4 Hn Hin) as (s & E & _). eauto. }
  assert (Hpt : forall i, (0 <= i < n)%Z -> exists s, nth_error out (Z.to_nat i) = Some s /\
         Kinematics.Theta (cs_Motion s) = 360 * IZR i / IZR (n - 1) /\
         Kinematics.S_ (cs_Motion s) = disp c (Kinematics.Theta (cs_Motion s)) /\
         Kinematics.V_ (cs_Motion s) = vel c (Kinematics.Theta (cs_Motion s)) /\
         dwell_at_rest c s).
  { intros i Hin. destruct (mapM_nth_error _ _ _ _ _ Ho (range_nth n i Hin)) as (s & A & B).
    destruct (curve_point_turn c n i Hv H4 Hn Hin) as (s' & E & T & D & V & W).
    assert (s' = s) by congruence. subst s'. exists s. rewrite T. auto. }
  assert (Hlen : length out = Z.to_nat n) by (rewrite (mapM_length _ _ _ Ho); apply range_length).
  exists out. split; [assumption|split; [assumption|split; [assumption|]]].
  destruct (Hpt 0%Z ltac:(lia)) as (f & Hf & T0 & S0 & _).
  destruct (Hpt (n - 1)%Z ltac:(lia)) as (l & Hl & T1 & S1 & _).
  exists f, l.
  assert (E0 : Kinematics.Theta (cs_Motion f) = 0) by (rewrite T0; unfold Rdiv; ring).
  assert (E1 : Kinematics.Theta (cs_Motion l) = 360)
    by (rewrite T1; field; apply not_0_IZR; lia).
  rewrite E0 in S0. rewrite E1 in S1.
  destruct (disp_start c Hv) as [D0 _].
  destruct (disp_end c Hv 360) as [D1 _]; [lra|].
  replace (Z.to_nat (n - 1)) with (length out - 1)%nat in Hl by lia.
  apply last_option_nth in Hl. destruct out as [|o out]; [discriminate|].
  repeat split; simpl in *; congruence.
Qed.

Lemma turn_curve_grid_witness :
  exists b out, Build sample_config = Ok b /\ Curve b 5 = Ok out /\ length out = 5%nat.
Proof.
  pose proof (turn_curve_grid sample_config _ 5
                (Build_accepted sample_config sample_config_valid)) as T.
  destruct T as (out & Ho & Hl & _).
  - unfold angle_sum. cbn [sample_config RiseAngle OuterDwell ReturnAngle InnerDwell]. ideal. lra.
  - eexists _, out. split; [exact (Build_accepted sample_config sample_config_valid)|].
    split; [exact Ho|exact Hl].
Defined.
