(* ===== verification/Rounding.v ===== *)
(** The rounding of binary64 results, over the reals: what the kernel's
    specification of IEEE 754 computes is the exact result rounded to a binary64
    number, so that it never passes a number that is itself representable.

    The claims about the service in floating point ([Float64Spec]) rest on this. *)
From Stdlib Require Import ZArith Reals Lra Lia SpecFloat Bool.
From S2P Require Import Prelude GoFloat Float64.
Local Open Scope R_scope.

(** * Powers of two *)

Definition bp (e : Z) : R := powerRZ 2 e.

Lemma bp_pos e : 0 < bp e.
Proof. apply powerRZ_lt. lra. Qed.

Lemma bp_add a b : bp (a + b) = bp a * bp b.
Proof. apply powerRZ_add. lra. Qed.

Lemma bp_IZR n : (0 <= n)%Z -> bp n = IZR (2 ^ n).
Proof.
  intros Hn. unfold bp. rewrite <- (Z2Nat.id n) at 1 by exact Hn.
  rewrite <- pow_powerRZ. rewrite <- (Z2Nat.id n) at 2 by exact Hn. now rewrite pow_IZR.
Qed.

Lemma bp_split a b : (a <= b)%Z -> bp b = IZR (2 ^ (b - a)) * bp a.
Proof.
  intros Hab. rewrite <- bp_IZR by lia. rewrite <- bp_add. f_equal. lia.
Qed.

Lemma bp_mono a b : (a <= b)%Z -> bp a <= bp b.
Proof.
  intros Hab. rewrite (bp_split a b Hab). pose proof (bp_pos a).
  assert (1 <= IZR (2 ^ (b - a))) by (apply IZR_le; pose proof (Z.pow_pos_nonneg 2 (b - a)); lia).
  nra.
Qed.

Lemma bp_0 : bp 0 = 1.
Proof. reflexivity. Qed.

(** * Digits *)

Abbreviation fexp64 := (fexp 53 1024).
Abbreviation emin64 := (-1074)%Z.

Lemma fexp64_max e : fexp64 e = Z.max (e - 53) emin64.
Proof. reflexivity. Qed.

Lemma digits2_bounds p :
  (2 ^ (Zpos (digits2_pos p) - 1) <= Zpos p < 2 ^ Zpos (digits2_pos p))%Z.
Proof.
  assert (E : forall n, (1 <= n)%Z -> (2 ^ n = 2 * 2 ^ (n - 1))%Z).
  { intros n Hn. rewrite <- Z.pow_succ_r by lia. f_equal. lia. }
  induction p as [p IH|p IH|]; cbn [digits2_pos]; [| |cbn; lia];
    rewrite Pos2Z.inj_succ, Z.pow_succ_r by lia;
    replace (Z.succ (Z.pos (digits2_pos p)) - 1)%Z with (Z.pos (digits2_pos p)) by lia;
    rewrite (E (Z.pos (digits2_pos p))) in * by lia;
    rewrite ?Pos2Z.inj_xI, ?(Pos2Z.inj_xO p); lia.
Qed.

Lemma Zdigits2_nonneg m : (0 <= Zdigits2 m)%Z.
Proof. destruct m; cbn; lia. Qed.

Lemma Zdigits2_lt m : (0 <= m)%Z -> (m < 2 ^ Zdigits2 m)%Z.
Proof. intros Hm. destruct m as [|p|p]; [cbn; lia|apply digits2_bounds|lia]. Qed.

Lemma Zdigits2_ge m : (0 < m)%Z -> (2 ^ (Zdigits2 m - 1) <= m)%Z.
Proof. intros Hm. destruct m as [|p|p]; [lia|apply digits2_bounds|lia]. Qed.

Lemma Zdigits2_le m k : (0 <= m < 2 ^ k)%Z -> (0 <= k)%Z -> (Zdigits2 m <= k)%Z.
Proof.
  intros Hm Hk. destruct (Z.eq_dec m 0) as [->|Hne]; [exact Hk|].
  pose proof (Zdigits2_ge m ltac:(lia)) as Hge.
  destruct (Z.le_gt_cases (Zdigits2 m) k) as [|Hgt]; [assumption|exfalso].
  assert (2 ^ k <= 2 ^ (Zdigits2 m - 1))%Z by (apply Z.pow_le_mono_r; lia). lia.
Qed.

Lemma Zdigits2_gt m k : (2 ^ k <= m)%Z -> (0 <= k)%Z -> (k < Zdigits2 m)%Z.
Proof.
  intros Hm Hk. pose proof (Zdigits2_lt m ltac:(pose proof (Z.pow_pos_nonneg 2 k); lia)) as Hlt.
  destruct (Z.le_gt_cases (Zdigits2 m) k) as [Hle|]; [exfalso|lia].
  assert (2 ^ Zdigits2 m <= 2 ^ k)%Z by (apply Z.pow_le_mono_r; lia). lia.
Qed.

(** * Inexact values: an integer, a place after it, an exponent *)

Definition inb (l : location) (f : R) : Prop :=
  match l with
  | loc_Exact => f = 0
  | loc_Inexact Lt => 0 < f < 1 / 2
  | loc_Inexact Eq => f = 1 / 2
  | loc_Inexact Gt => 1 / 2 < f < 1
  end.

Lemma inb_range l f : inb l f -> 0 <= f < 1.
Proof. destruct l as [|[]]; cbn; lra. Qed.

Definition repr (x : R) (m : Z) (e : Z) (l : location) : Prop :=
  (0 <= m)%Z /\ exists f, inb l f /\ x = (IZR m + f) * bp e.

Definition repr_rec (x : R) (mrs : shr_record) (e : Z) : Prop :=
  repr x (shr_m mrs) e (loc_of_shr_record mrs).

Lemma repr_of_loc x m e l : repr x m e l -> repr_rec x (shr_record_of_loc m l) e.
Proof. destruct l as [|[]]; exact (fun H => H). Qed.

Lemma shr_1_repr x mrs e : repr_rec x mrs e -> repr_rec x (shr_1 mrs) (e + 1).
Proof.
  destruct mrs as [m r s]. unfold repr_rec. intros (Hm & f & Hf & ->).
  assert (Hx : forall m' f' l', (0 <= m')%Z -> inb l' f' -> 2 * (IZR m' + f') = IZR m + f ->
             repr ((IZR m + f) * bp e) m' (e + 1) l').
  { intros m' f' l' Hm' Hf' E. split; [exact Hm'|]. exists f'. split; [exact Hf'|].
    rewrite bp_add. change (bp 1) with (2 * 1). rewrite <- E. ring. }
  cbn [shr_m] in *. pose proof (inb_range _ _ Hf) as Hr.
  destruct m as [|[p|p|]|p]; cbn [shr_1]; [| | | |lia].
  - apply (Hx _ (f / 2)); [cbn; lia| |cbn; lra].
    destruct r, s; cbn in *; lra.
  - apply (Hx _ ((1 + f) / 2)); [cbn; lia| |cbn [shr_m]; rewrite (Pos2Z.inj_xI p), plus_IZR, mult_IZR; lra].
    destruct r, s; cbn in *; lra.
  - apply (Hx _ (f / 2)); [cbn; lia| |cbn [shr_m]; rewrite (Pos2Z.inj_xO p), mult_IZR; lra].
    destruct r, s; cbn in *; lra.
  - apply (Hx _ ((1 + f) / 2)); [cbn; lia| |cbn [shr_m]; lra].
    destruct r, s; cbn in *; lra.
Qed.

Lemma iter_shr_repr x n : forall mrs e,
  repr_rec x mrs e -> repr_rec x (iter_pos shr_1 n mrs) (e + Zpos n).
Proof.
  induction n as [n IH|n IH|]; intros mrs e H; cbn [iter_pos].
  - replace (e + Z.pos n~1)%Z with (e + 1 + Zpos n + Zpos n)%Z by lia.
    now apply IH, IH, shr_1_repr.
  - replace (e + Z.pos n~0)%Z with (e + Zpos n + Zpos n)%Z by lia. now apply IH, IH.
  - now apply shr_1_repr.
Qed.

Lemma shr_fexp_repr x m e l :
  repr x m e l -> (e <= fexp64 (Zdigits2 m + e))%Z ->
  exists mrs, shr_fexp 53 1024 m e l = (mrs, fexp64 (Zdigits2 m + e)) /\
    repr_rec x mrs (fexp64 (Zdigits2 m + e)).
Proof.
  intros H He. apply repr_of_loc in H. unfold shr_fexp, shr.
  set (e' := fexp64 (Zdigits2 m + e)) in *. destruct (e' - e)%Z as [|n|n] eqn:E; [| |lia].
  - replace e with e' in * by lia. eauto.
  - exists (iter_pos shr_1 n (shr_record_of_loc m l)).
    split; [f_equal; lia|]. replace e' with (e + Zpos n)%Z by lia. now apply iter_shr_repr.
Qed.

(** * Rounding to an integer *)

Lemma rne_spec m l f k :
  inb l f ->
  (IZR k <= IZR m + f -> (k <= round_nearest_even m l)%Z) /\
  (IZR m + f <= IZR k -> (round_nearest_even m l <= k)%Z).
Proof.
  intros Hf. pose proof (inb_range _ _ Hf) as Hr. split; intros H.
  - assert (k < m + 1)%Z by (apply lt_IZR; rewrite plus_IZR; lra).
    unfold round_nearest_even. destruct l as [|[]]; try lia. destruct (Z.even m); lia.
  - destruct l as [|c].
    + cbn in Hf |- *. apply le_IZR. lra.
    + assert (m < k)%Z by (apply lt_IZR; destruct c; cbn in Hf; lra).
      unfold round_nearest_even. destruct c; try lia. destruct (Z.even m); lia.
Qed.

(** * Representable numbers and the rounding of a nonnegative one *)

Definition rep (c : R) : Prop :=
  exists m e, (0 <= m < 2 ^ 53)%Z /\ (emin64 <= e <= 971)%Z /\ c = IZR m * bp e.

(** The real number a finite float stands for. *)
Definition val (v : float64) : R :=
  match v with
  | S754_finite s m e => (if s then -1 else 1) * IZR (Zpos m) * bp e
  | _ => 0
  end.

Definition sign_is (s : bool) (v : float64) : Prop :=
  match v with
  | S754_zero s' | S754_infinity s' | S754_finite s' _ _ => s' = s
  | S754_nan => False
  end.

(** [v] is a nonnegative binary64 no representable number separates from [x]. *)
Definition rounded (x : R) (v : float64) : Prop :=
  valid v = true /\ sign_is false v /\
  forall c, rep c -> (x <= c -> finite v = true /\ val v <= c) /\
                     (c <= x -> finite v = true -> c <= val v).

Lemma bp_IZR_53 : bp 53 = IZR (2 ^ 53).
Proof. now rewrite bp_IZR. Qed.

Lemma IZR_lt_pow m k : (0 <= k)%Z -> (m < 2 ^ k)%Z -> IZR m < bp k.
Proof. intros Hk Hm. rewrite bp_IZR by exact Hk. now apply IZR_lt. Qed.

Lemma IZR_ge_pow m k : (0 <= k)%Z -> (2 ^ k <= m)%Z -> bp k <= IZR m.
Proof. intros Hk Hm. rewrite bp_IZR by exact Hk. now apply IZR_le. Qed.

(** A representable number below a power of two at the precision's edge. *)
Lemma small_exponent mc ec e :
  (0 <= mc < 2 ^ 53)%Z -> (ec < e)%Z -> IZR mc * bp ec < bp (52 + e).
Proof.
  intros Hmc He. apply Rlt_le_trans with (bp 53 * bp ec).
  - apply Rmult_lt_compat_r; [apply bp_pos|]. apply IZR_lt_pow; lia.
  - rewrite <- bp_add. apply bp_mono. lia.
Qed.

(** The integer [m2], nearest to [x / 2^e], is not separated from [x] either. *)
Lemma nearest_separates x m1 f l e c :
  inb l f -> x = (IZR m1 + f) * bp e ->
  (e = emin64 \/ 2 ^ 52 <= m1)%Z -> rep c ->
  let m2 := round_nearest_even m1 l in
  (x <= c -> IZR m2 * bp e <= c) /\ (c <= x -> c <= IZR m2 * bp e).
Proof.
  intros Hf -> Hlow (mc & ec & Hmc & Hec & ->) m2.
  pose proof (bp_pos e) as Hpe. pose proof (inb_range _ _ Hf) as Hr.
  destruct (Z.le_gt_cases e ec) as [Hle|Hgt].
  - rewrite (bp_split e ec Hle). rewrite <- Rmult_assoc, <- mult_IZR.
    set (k := (mc * 2 ^ (ec - e))%Z). destruct (rne_spec m1 l f k Hf) as [H1 H2].
    split; intros H; apply Rmult_le_reg_r in H; try exact Hpe;
      apply Rmult_le_compat_r; try lra; apply IZR_le; auto.
  - destruct Hlow as [->|Hm1]; [lia|].
    pose proof (small_exponent mc ec e Hmc Hgt) as Hs. rewrite bp_add in Hs.
    pose proof (IZR_ge_pow m1 52 ltac:(lia) Hm1) as H52.
    assert (Hm2 : (m1 <= m2)%Z).
    { unfold m2, round_nearest_even. destruct l as [|[]]; try lia. destruct (Z.even m1); lia. }
    apply IZR_le in Hm2. split; intros H; nra.
Qed.

(** The first shift leaves at most 53 digits, and exactly 53 above the least exponent. *)
Lemma shifted_digits x m e l m1 f :
  repr x m e l -> (e <= fexp64 (Zdigits2 m + e))%Z -> (0 <= m1)%Z -> 0 <= f < 1 ->
  let e1 := fexp64 (Zdigits2 m + e) in
  x = (IZR m1 + f) * bp e1 ->
  (m1 < 2 ^ 53)%Z /\ (e1 = emin64 \/ 2 ^ 52 <= m1)%Z.
Proof.
  intros (Hm & g & Hg & Ex) He Hm1 Hf e1 E1. pose proof (bp_pos e1) as Hp1.
  apply inb_range in Hg. pose proof (bp_pos e) as Hpe.
  pose proof (Zdigits2_nonneg m) as Hd.
  assert (Hup : x < bp (53 + e1)).
  { apply Rlt_le_trans with (bp (Zdigits2 m + e)).
    - rewrite Ex, bp_add. apply Rmult_lt_compat_r; [exact Hpe|].
      rewrite bp_IZR by exact Hd. apply Rlt_le_trans with (IZR (m + 1)); [rewrite plus_IZR; lra|].
      apply IZR_le. pose proof (Zdigits2_lt m Hm). lia.
    - apply bp_mono. unfold e1. rewrite fexp64_max. lia. }
  rewrite bp_add, bp_IZR_53 in Hup. split.
  - apply lt_IZR. rewrite E1 in Hup. apply Rmult_lt_reg_r in Hup; [lra|exact Hp1].
  - destruct (Z.eq_dec e1 emin64) as [|Hne]; [now left|right].
    assert (e1 = Zdigits2 m + e - 53)%Z as He1
      by (unfold e1 in *; rewrite fexp64_max in *; lia).
    destruct (Z.eq_dec m 0) as [->|Hm0].
    { cbn [Zdigits2] in *. unfold e1 in Hne, He1. lia. }
    assert (Hlow : bp (52 + e1) <= x).
    { apply Rle_trans with (bp (Zdigits2 m - 1) * bp e).
      - rewrite <- bp_add. apply bp_mono. lia.
      - rewrite Ex. apply Rmult_le_compat_r; [lra|].
        assert (1 <= Zdigits2 m)%Z by (destruct m; cbn; lia).
        pose proof (IZR_ge_pow m (Zdigits2 m - 1) ltac:(lia) (Zdigits2_ge m ltac:(lia))). lra. }
    rewrite bp_add, bp_IZR in Hlow by lia. rewrite E1 in Hlow.
    apply Rmult_le_reg_r in Hlow; [|exact Hp1].
    assert (2 ^ 52 < m1 + 1)%Z by (apply lt_IZR; rewrite plus_IZR; lra). lia.
Qed.

(** The second shift: only a carry to 2^53 moves the exponent. *)
Lemma second_shift m2 e1 :
  (0 <= m2 <= 2 ^ 53)%Z -> (emin64 <= e1)%Z -> (e1 = emin64 \/ 2 ^ 52 <= m2)%Z ->
  exists m3 e3, shr_fexp 53 1024 m2 e1 loc_Exact = (Build_shr_record m3 false false, e3) /\
    (0 <= m3 < 2 ^ 53)%Z /\ (emin64 <= e3)%Z /\ (e3 = emin64 \/ 2 ^ 52 <= m3)%Z /\
    fexp64 (Zdigits2 m3 + e3) = e3 /\ IZR m3 * bp e3 = IZR m2 * bp e1.
Proof.
  intros Hm2 He1 Hlow. unfold shr_fexp.
  destruct (Z.eq_dec m2 (2 ^ 53)) as [->|Hne].
  - exists (2 ^ 52)%Z, (e1 + 1)%Z.
    change (Zdigits2 (2 ^ 53)) with 54%Z. change (Zdigits2 (2 ^ 52)) with 53%Z.
    rewrite !fexp64_max. replace (Z.max (54 + e1 - 53) emin64 - e1)%Z with 1%Z by lia.
    split; [reflexivity|]. split; [lia|]. split; [lia|]. split; [right; lia|]. split; [lia|].
    rewrite bp_add. change (bp 1) with (2 * 1). rewrite !Rmult_1_r.
    replace (2 ^ 53)%Z with (2 ^ 52 * 2)%Z by reflexivity. rewrite mult_IZR. ring.
  - exists m2, e1.
    assert (Hd : fexp64 (Zdigits2 m2 + e1) = e1).
    { rewrite fexp64_max. pose proof (Zdigits2_le m2 53 ltac:(lia) ltac:(lia)).
      destruct Hlow as [->|H52]; [lia|].
      pose proof (Zdigits2_gt m2 52 H52 ltac:(lia)). lia. }
    rewrite Hd, Z.sub_diag. cbn [shr]. repeat split; auto; lia.
Qed.

Theorem round_aux_rounded x m e l :
  repr x m e l -> (e <= fexp64 (Zdigits2 m + e))%Z ->
  rounded x (binary_round_aux 53 1024 false m e l).
Proof.
  intros Hx He. unfold binary_round_aux.
  destruct (shr_fexp_repr x m e l Hx He) as ([m1 r s] & -> & Hm1 & f & Hf & E1).
  cbn [shr_m] in *. set (l1 := loc_of_shr_record _) in *.
  pose proof (inb_range _ _ Hf) as Hr.
  destruct (shifted_digits x m e l m1 f Hx He Hm1 Hr E1) as [Hlt Hlow].
  set (e1 := fexp64 (Zdigits2 m + e)) in *.
  assert (Hmin : (emin64 <= e1)%Z) by (unfold e1; rewrite fexp64_max; lia).
  set (m2 := round_nearest_even m1 l1).
  assert (Hm2 : (m1 <= m2 <= m1 + 1)%Z).
  { unfold m2, round_nearest_even. destruct l1 as [|[]]; try lia. destruct (Z.even m1); lia. }
  destruct (second_shift m2 e1 ltac:(lia) Hmin ltac:(lia))
    as (m3 & e3 & -> & Hm3 & He3 & Hlow3 & Hcan & Hval).
  cbn [shr_m].
  assert (Hsep : forall c, rep c ->
            (x <= c -> IZR m3 * bp e3 <= c) /\ (c <= x -> c <= IZR m3 * bp e3)).
  { intros c Hc. rewrite Hval. now apply (nearest_separates x m1 f l1 e1 c). }
  assert (E971 : (1024 - 53 = 971)%Z) by reflexivity.
  destruct m3 as [|p|p]; [| |lia].
  - split; [reflexivity|]. split; [reflexivity|]. intros c Hc.
    destruct (Hsep c Hc). cbn [val finite] in *.
    rewrite Rmult_0_l in *. auto.
  - rewrite E971. destruct (Z.leb_spec e3 971) as [H971|H971].
    + split.
      { unfold valid, valid_binary, bounded, canonical_mantissa. cbn [Zdigits2] in Hcan.
        rewrite Hcan, Z.eqb_refl, E971. now apply Z.leb_le. }
      split; [reflexivity|]. intros c Hc. destruct (Hsep c Hc). cbn [val finite].
      rewrite Rmult_1_l. auto.
    + split; [reflexivity|]. split; [reflexivity|]. intros c Hc. split; [|discriminate].
      intros Hxc. exfalso. destruct (Hsep c Hc) as [H _]. specialize (H Hxc).
      destruct Hc as (mc & ec & Hmc & Hec & ->).
      pose proof (small_exponent mc ec e3 Hmc ltac:(lia)) as Hs. rewrite bp_add in Hs.
      pose proof (bp_pos e3).
      pose proof (IZR_ge_pow (Zpos p) 52 ltac:(lia) ltac:(lia)). nra.
Qed.

(** * The operations on nonnegative numbers *)

(** A finite binary64 that is not negative. *)
Definition nonneg (v : float64) : Prop :=
  valid v = true /\ sign_is false v /\ finite v = true.

Lemma valid_bounds s m e :
  valid (S754_finite s m e) = true ->
  (Zpos m < 2 ^ 53)%Z /\ (emin64 <= e <= 971)%Z /\ fexp64 (Zdigits2 (Zpos m) + e) = e /\
  (e = emin64 \/ 2 ^ 52 <= Zpos m)%Z.
Proof.
  unfold valid, valid_binary, bounded, canonical_mantissa.
  intros [Hc%Z.eqb_eq He%Z.leb_le]%andb_true_iff. change (1024 - 53)%Z with 971%Z in He.
  change (Zpos (digits2_pos m)) with (Zdigits2 (Zpos m)) in Hc.
  pose proof (Zdigits2_lt (Zpos m) ltac:(lia)) as Hlt.
  pose proof Hc as Hc'. rewrite fexp64_max in Hc'.
  assert (2 ^ Zdigits2 (Zpos m) <= 2 ^ 53)%Z by (apply Z.pow_le_mono_r; lia).
  split; [lia|]. split; [lia|]. split; [exact Hc|].
  destruct (Z.eq_dec e emin64) as [|Hne]; [now left|right].
  pose proof (Zdigits2_ge (Zpos m) ltac:(lia)) as Hge.
  replace (Zdigits2 (Zpos m)) with 53%Z in Hge by lia. exact Hge.
Qed.

Lemma val_rep v : nonneg v -> rep (val v).
Proof.
  intros (Hv & Hs & Hf). destruct v as [| | |s m e]; try discriminate.
  - exists 0%Z, 0%Z. split; [lia|]. split; [lia|]. cbn. ring.
  - cbn in Hs. subst s. destruct (valid_bounds _ _ _ Hv) as (Hm & He & _).
    exists (Zpos m), e. split; [lia|]. split; [exact He|]. cbn [val]. ring.
Qed.

Lemma val_nonneg v : sign_is false v -> 0 <= val v.
Proof.
  destruct v as [| | |s m e]; cbn; intros H; try lra. subst s.
  pose proof (bp_pos e). assert (0 < IZR (Zpos m)) by (apply IZR_lt; lia). nra.
Qed.

(** ** Consequences of being rounded *)

Lemma rep_0 : rep 0.
Proof. exists 0%Z, 0%Z. split; [lia|]. split; [lia|]. ring. Qed.

Lemma rep_IZR z : (0 <= z < 2 ^ 53)%Z -> rep (IZR z).
Proof. intros Hz. exists z, 0%Z. split; [exact Hz|]. split; [lia|]. rewrite bp_0. ring. Qed.

Lemma rounded_nonneg x v c : rounded x v -> rep c -> x <= c -> nonneg v /\ val v <= c.
Proof.
  intros (Hv & Hs & H) Hc Hx. destruct (H c Hc) as [H1 _]. destruct (H1 Hx) as [Hf Hle].
  now repeat split.
Qed.

Lemma rounded_ge x v c : rounded x v -> nonneg v -> rep c -> c <= x -> c <= val v.
Proof. intros (_ & _ & H) (_ & _ & Hf) Hc Hx. destruct (H c Hc) as [_ H2]. auto. Qed.

Lemma rounded_exact x v : rounded x v -> rep x -> nonneg v /\ val v = x.
Proof.
  intros H Hx. destruct (rounded_nonneg x v x H Hx (Rle_refl x)) as [Hn Hle].
  split; [exact Hn|]. apply Rle_antisym; [exact Hle|].
  apply (rounded_ge x); auto. lra.
Qed.

Lemma rounded_mono x y v w : rounded x v -> rounded y w -> nonneg w -> x <= y -> rep y ->
  val v <= val w.
Proof.
  intros Hv Hw Hn Hxy Hy. destruct (rounded_exact y w Hw Hy) as [_ ->].
  now destruct (rounded_nonneg x v y Hv Hy Hxy).
Qed.

Lemma rounded_zero : rounded 0 (S754_zero false).
Proof. split; [reflexivity|]. split; [reflexivity|]. intros c _. cbn. auto. Qed.

Lemma rounded_self v : nonneg v -> rounded (val v) v.
Proof. intros (Hv & Hs & Hf). split; [exact Hv|]. split; [exact Hs|]. auto. Qed.

(** ** Multiplication *)

Lemma repr_exact m e : (0 <= m)%Z -> repr (IZR m * bp e) m e loc_Exact.
Proof. intros Hm. split; [exact Hm|]. exists 0. split; [reflexivity|]. now rewrite Rplus_0_r. Qed.

(** A product has the digits the rounding takes. *)
Lemma mul_exponent sa ma ea sb mb eb :
  valid (S754_finite sa ma ea) = true -> valid (S754_finite sb mb eb) = true ->
  (ea + eb <= fexp64 (Zdigits2 (Zpos (ma * mb)) + (ea + eb)))%Z.
Proof.
  intros Va Vb. destruct (valid_bounds _ _ _ Va) as (Ma & Ea & _ & La).
  destruct (valid_bounds _ _ _ Vb) as (Mb & Eb & _ & Lb).
  rewrite fexp64_max. change (Zpos (ma * mb)) with (Zpos ma * Zpos mb)%Z.
  assert ((ea + eb <= emin64) \/ (52 < Zdigits2 (Zpos ma * Zpos mb)))%Z as [|]; [|lia..].
  destruct La as [->|La]; [destruct Lb as [->|Lb]; [left; lia|]|];
    right; apply Zdigits2_gt; try lia; nia.
Qed.

Lemma mul_rounded a b : nonneg a -> nonneg b -> rounded (val a * val b) (mul a b).
Proof.
  intros (Va & Sa & Fa) (Vb & Sb & Fb).
  destruct a as [sa| | |sa ma ea], b as [sb| | |sb mb eb]; try discriminate;
    cbn in Sa, Sb; subst; unfold mul; cbn [SFmul xorb val];
    rewrite ?Rmult_0_l, ?Rmult_0_r; try apply rounded_zero.
  apply round_aux_rounded.
  - replace (1 * IZR (Zpos ma) * bp ea * (1 * IZR (Zpos mb) * bp eb))
      with (IZR (Zpos ma * Zpos mb) * bp (ea + eb)) by (rewrite bp_add, mult_IZR; ring).
    apply repr_exact. lia.
  - exact (mul_exponent _ _ _ _ _ _ Va Vb).
Qed.

(** ** Division *)

Lemma new_location_inb d r :
  (0 < d)%Z -> (0 <= r < d)%Z -> inb (new_location d r) (IZR r / IZR d).
Proof.
  intros Hd Hr. assert (Pd : 0 < IZR d) by (apply IZR_lt; lia).
  assert (E : IZR r / IZR d * IZR d = IZR r) by (field; lra).
  assert (L : (2 * r < d)%Z -> IZR r / IZR d < 1 / 2).
  { intros Hk%IZR_lt. rewrite mult_IZR in Hk. apply (Rmult_lt_reg_r (IZR d)); lra. }
  assert (G : (d < 2 * r)%Z -> 1 / 2 < IZR r / IZR d).
  { intros Hk%IZR_lt. rewrite mult_IZR in Hk. apply (Rmult_lt_reg_r (IZR d)); lra. }
  assert (U : IZR r / IZR d < 1).
  { assert (IZR r < IZR d) by (apply IZR_lt; lia). apply (Rmult_lt_reg_r (IZR d)); lra. }
  assert (P : (0 < r)%Z -> 0 < IZR r / IZR d).
  { intros H. apply Rmult_lt_0_compat; [apply IZR_lt; lia|now apply Rinv_0_lt_compat]. }
  destruct (Z.eqb_spec r 0) as [->|Hr0].
  { unfold new_location, new_location_even, new_location_odd.
    destruct (Z.even d); cbn [inb Z.eqb]; field; lra. }
  unfold new_location, new_location_even, new_location_odd.
  destruct (Z.even d) eqn:Hev; rewrite (proj2 (Z.eqb_neq r 0) Hr0).
  - destruct (Z.compare_spec (2 * r) d) as [E'|E'|E']; cbn [inb].
    + apply IZR_eq in E'. rewrite mult_IZR in E'. apply (Rmult_eq_reg_r (IZR d)); lra.
    + split; [apply P; lia|]. now apply L.
    + split; [now apply G|exact U].
  - assert (d <> 2 * r)%Z by (intros ->; rewrite Z.even_mul in Hev; discriminate).
    destruct (Z.compare_spec (2 * r + 1) d) as [E'|E'|E']; cbn [inb].
    + split; [apply P; lia|]. apply L; lia.
    + split; [apply P; lia|]. apply L; lia.
    + split; [apply G; lia|exact U].
Qed.

Lemma fexp64_mono a b : (a <= b)%Z -> (fexp64 a <= fexp64 b)%Z.
Proof. rewrite !fexp64_max. lia. Qed.

(** The quotient that [SFdiv] rounds, with its place. *)
Lemma div_core_repr m1 e1 m2 e2 m e l :
  (0 < m1)%Z -> (0 < m2)%Z -> SFdiv_core_binary 53 1024 m1 e1 m2 e2 = (m, e, l) ->
  repr (IZR m1 * bp e1 / (IZR m2 * bp e2)) m e l /\ (e <= fexp64 (Zdigits2 m + e))%Z.
Proof.
  intros H1 H2. unfold SFdiv_core_binary.
  set (k := (Zdigits2 m1 + e1 - (Zdigits2 m2 + e2))%Z).
  set (e' := Z.min (fexp64 k) (e1 - e2)).
  set (s := (e1 - e2 - e')%Z). assert (Hs : (0 <= s)%Z) by (unfold s, e'; lia).
  replace (match s with 0 => m1 | Zpos _ => Z.shiftl m1 s | Zneg _ => 0 end)%Z
    with (m1 * 2 ^ s)%Z.
  2:{ destruct s as [|q|q]; [cbn; lia| |lia]. now rewrite Z.shiftl_mul_pow2 by lia. }
  pose proof (Z_div_mod (m1 * 2 ^ s) m2 ltac:(lia)) as Hdiv.
  destruct (Z.div_eucl (m1 * 2 ^ s) m2) as [q r]. destruct Hdiv as [Hq Hr].
  intros [= <- <- <-].
  pose proof (Z.pow_pos_nonneg 2 s ltac:(lia) Hs) as Hps.
  assert (Hq0 : (0 <= q)%Z) by nia.
  assert (P2 : 0 < IZR m2) by (now apply IZR_lt).
  split.
  - split; [exact Hq0|]. exists (IZR r / IZR m2). split; [apply new_location_inb; lia|].
    apply IZR_eq in Hq. rewrite plus_IZR, !mult_IZR in Hq.
    replace (bp e1) with (IZR (2 ^ s) * bp e2 * bp e').
    + replace (IZR m1 * (IZR (2 ^ s) * bp e2 * bp e'))
        with ((IZR m1 * IZR (2 ^ s)) * bp e2 * bp e') by ring.
      rewrite Hq. pose proof (bp_pos e2). field. lra.
    + rewrite <- bp_IZR, <- !bp_add by exact Hs. f_equal. unfold s. lia.
  - apply Z.le_trans with (fexp64 k); [unfold e'; lia|]. apply fexp64_mono.
    assert (k - e' <= Zdigits2 q)%Z; [|lia].
    destruct (Z.le_gt_cases (k - e') 0) as [|Hk]; [pose proof (Zdigits2_nonneg q); lia|].
    enough (k - e' - 1 < Zdigits2 q)%Z by lia. apply Zdigits2_gt; [|lia].
    pose proof (Zdigits2_ge m1 H1) as G1. pose proof (Zdigits2_lt m2 ltac:(lia)) as L2.
    pose proof (Zdigits2_nonneg m2) as D2.
    assert (D1 : (1 <= Zdigits2 m1)%Z) by (destruct m1; cbn; lia).
    set (t := (k - e' - 1)%Z) in *.
    assert (Et : (Zdigits2 m1 - 1 + s = t + Zdigits2 m2)%Z) by (unfold t, k, s; lia).
    assert (E : (2 ^ (Zdigits2 m1 - 1) * 2 ^ s = 2 ^ t * 2 ^ Zdigits2 m2)%Z)
      by (rewrite <- !Z.pow_add_r by lia; now rewrite Et).
    assert (2 ^ t * m2 < (q + 1) * m2)%Z; [|nia].
    apply Z.lt_le_trans with (m1 * 2 ^ s + 1)%Z; [|nia].
    pose proof (Z.pow_pos_nonneg 2 t ltac:(lia) ltac:(lia)). nia.
Qed.

Lemma div_core_rounded m1 e1 m2 e2 :
  (0 < m1)%Z -> (0 < m2)%Z ->
  rounded (IZR m1 * bp e1 / (IZR m2 * bp e2))
    (let '(m, e, l) := SFdiv_core_binary 53 1024 m1 e1 m2 e2 in
     binary_round_aux 53 1024 false m e l).
Proof.
  intros H1 H2. destruct (SFdiv_core_binary 53 1024 m1 e1 m2 e2) as [[m e] l] eqn:E.
  destruct (div_core_repr _ _ _ _ _ _ _ H1 H2 E) as [Hr He]. now apply round_aux_rounded.
Qed.

Lemma div_rounded a b : nonneg a -> nonneg b -> 0 < val b -> rounded (val a / val b) (div a b).
Proof.
  intros (Va & Sa & Fa) (Vb & Sb & Fb) Pb.
  destruct b as [sb| | |sb mb eb]; try discriminate; cbn [val] in Pb; [lra|].
  cbn in Sb. subst sb.
  destruct a as [sa| | |sa ma ea]; try discriminate; cbn in Sa; subst sa; unfold div;
    cbn [SFdiv xorb val].
  - replace (0 / (1 * IZR (Zpos mb) * bp eb)) with 0 by (field; split; nra). apply rounded_zero.
  - rewrite !Rmult_1_l. apply (div_core_rounded (Zpos ma) ea (Zpos mb) eb); lia.
Qed.

(** ** Addition, and integers as floats *)

Lemma iter_xO d : forall m, Zpos (Pos.iter xO m d) = (Zpos m * 2 ^ Zpos d)%Z.
Proof.
  induction d as [|d IH] using Pos.peano_ind; intros m; [cbn; lia|].
  rewrite Pos.iter_succ, Pos2Z.inj_xO, IH, Pos2Z.inj_succ, Z.pow_succ_r by lia. ring.
Qed.

Lemma shl_align_val m e e' :
  (e' <= e)%Z -> Zpos (fst (shl_align m e e')) = (Zpos m * 2 ^ (e - e'))%Z.
Proof.
  intros H. unfold shl_align. destruct (e' - e)%Z as [|d|d] eqn:E; [|lia|].
  - replace (e - e')%Z with 0%Z by lia. cbn. lia.
  - cbn [fst]. rewrite iter_xO. now replace (e - e')%Z with (Zpos d) by lia.
Qed.

Lemma shl_align_repr m e e' :
  exists m1 e1, shl_align m e e' = (m1, e1) /\ (e1 = Z.min e e')%Z /\
    IZR (Zpos m1) * bp e1 = IZR (Zpos m) * bp e.
Proof.
  unfold shl_align. destruct (e' - e)%Z as [|d|d] eqn:E.
  - exists m, e. repeat split; [lia].
  - exists m, e. repeat split; [lia].
  - exists (Pos.iter xO m d), e'. split; [reflexivity|]. split; [lia|].
    rewrite iter_xO, mult_IZR, (bp_split e' e) by lia.
    replace (e - e')%Z with (Zpos d) by lia. ring.
Qed.

(** The digits do not depend on the way the value is split. *)
Lemma digits_value m e m1 e1 :
  (e1 <= e)%Z -> IZR (Zpos m1) * bp e1 = IZR (Zpos m) * bp e ->
  (Zdigits2 (Zpos m1) + e1 = Zdigits2 (Zpos m) + e)%Z.
Proof.
  intros He E. rewrite (bp_split e1 e He), <- Rmult_assoc in E.
  apply Rmult_eq_reg_r in E; [|pose proof (bp_pos e1); lra].
  rewrite <- mult_IZR in E. apply eq_IZR in E.
  set (n := (e - e1)%Z) in *. assert (Hn : (0 <= n)%Z) by (unfold n; lia).
  pose proof (Zdigits2_lt (Zpos m) ltac:(lia)) as L. pose proof (Zdigits2_ge (Zpos m) ltac:(lia)) as G.
  pose proof (Z.pow_pos_nonneg 2 n ltac:(lia) Hn) as P.
  assert (D : (1 <= Zdigits2 (Zpos m))%Z) by (cbn; lia).
  enough (Zdigits2 (Zpos m1) = Zdigits2 (Zpos m) + n)%Z by (unfold n in *; lia).
  apply Z.le_antisymm.
  - apply Zdigits2_le; [|lia]. rewrite Z.pow_add_r by lia. nia.
  - enough (Zdigits2 (Zpos m) - 1 + n < Zdigits2 (Zpos m1))%Z by lia.
    apply Zdigits2_gt; [|lia]. rewrite Z.pow_add_r by lia. nia.
Qed.

Lemma round_pos_rounded m e : rounded (IZR (Zpos m) * bp e) (binary_round 53 1024 false m e).
Proof.
  unfold binary_round. change (Zpos (digits2_pos m)) with (Zdigits2 (Zpos m)).
  destruct (shl_align_repr m e (fexp64 (Zdigits2 (Zpos m) + e))) as (m1 & e1 & -> & He & E).
  rewrite <- E. apply round_aux_rounded; [apply repr_exact; lia|].
  rewrite (digits_value m e m1 e1 ltac:(lia) E). lia.
Qed.

Lemma normalize_rounded m e :
  (0 <= m)%Z -> rounded (IZR m * bp e) (binary_normalize 53 1024 m e false).
Proof.
  intros Hm. destruct m as [|p|p]; [|apply round_pos_rounded|lia].
  cbn [binary_normalize]. rewrite Rmult_0_l. apply rounded_zero.
Qed.

Lemma of_Z_rounded z : (0 <= z)%Z -> rounded (IZR z) (of_Z z).
Proof.
  intros Hz. pose proof (normalize_rounded z 0 Hz) as H. now rewrite bp_0, Rmult_1_r in H.
Qed.

Lemma of_Z_exact z : (0 <= z < 2 ^ 53)%Z -> nonneg (of_Z z) /\ val (of_Z z) = IZR z.
Proof. intros Hz. apply rounded_exact; [apply of_Z_rounded; lia|now apply rep_IZR]. Qed.

Lemma nonneg_of_Z z : (0 <= z < 2 ^ 53)%Z -> nonneg (of_Z z).
Proof. apply of_Z_exact. Qed.

Lemma add_rounded a b : nonneg a -> nonneg b -> rounded (val a + val b) (add a b).
Proof.
  intros Na Nb. pose proof Na as (Va & Sa & Fa). pose proof Nb as (Vb & Sb & Fb).
  destruct a as [sa| | |sa ma ea], b as [sb| | |sb mb eb]; try discriminate;
    cbn in Sa, Sb; subst; unfold add; cbn [SFadd val].
  - rewrite Rplus_0_l. apply rounded_zero.
  - rewrite Rplus_0_l. apply (rounded_self _ Nb).
  - rewrite Rplus_0_r. apply (rounded_self _ Na).
  - cbn [cond_Zopp]. rewrite !shl_align_val by lia.
    set (ez := Z.min ea eb).
    assert (E : 1 * IZR (Zpos ma) * bp ea + 1 * IZR (Zpos mb) * bp eb
                = IZR (Zpos ma * 2 ^ (ea - ez) + Zpos mb * 2 ^ (eb - ez)) * bp ez).
    { rewrite plus_IZR, !mult_IZR, (bp_split ez ea), (bp_split ez eb) by (unfold ez; lia). ring. }
    rewrite E. apply normalize_rounded.
    pose proof (Z.pow_nonneg 2 (ea - ez)). pose proof (Z.pow_nonneg 2 (eb - ez)). nia.
Qed.

(** ** Constants *)

Lemma round_Q_rounded n d :
  (0 <= n)%Z -> rounded (IZR n / IZR (Zpos d)) (round_Q (QArith_base.Qmake n d)).
Proof.
  intros Hn. unfold round_Q. cbn [QArith_base.Qnum QArith_base.Qden].
  destruct n as [|n|n]; [|  |lia].
  - replace (0 / IZR (Zpos d)) with 0 by (field; apply not_0_IZR; lia). apply rounded_zero.
  - pose proof (div_core_rounded (Zpos n) 0 (Zpos d) 0 ltac:(lia) ltac:(lia)) as H.
    now rewrite bp_0, !Rmult_1_r in H.
Qed.

(** * Comparisons *)

Definition cmpR (x y : R) (c : comparison) : Prop :=
  match c with Lt => x < y | Eq => x = y | Gt => y < x end.

Lemma SFcompare_val a b : nonneg a -> nonneg b ->
  exists c, SFcompare a b = Some c /\ cmpR (val a) (val b) c.
Proof.
  intros (Va & Sa & Fa) (Vb & Sb & Fb).
  destruct a as [sa| | |sa ma ea], b as [sb| | |sb mb eb]; try discriminate;
    cbn in Sa, Sb; subst; cbn [SFcompare val]; eexists; (split; [reflexivity|]).
  - reflexivity.
  - cbn. pose proof (bp_pos eb). assert (0 < IZR (Zpos mb)) by (apply IZR_lt; lia). nra.
  - cbn. pose proof (bp_pos ea). assert (0 < IZR (Zpos ma)) by (apply IZR_lt; lia). nra.
  - destruct (valid_bounds _ _ _ Va) as (Ma & Ea & _ & La).
    destruct (valid_bounds _ _ _ Vb) as (Mb & Eb & _ & Lb).
    rewrite !Rmult_1_l.
    destruct (Z.compare_spec ea eb) as [->|E|E]; cbn [cmpR].
    + change (Pos.compare_cont Eq ma mb) with (Pos.compare ma mb).
      pose proof (bp_pos eb) as P.
      destruct (Pos.compare_spec ma mb) as [->|H|H]; cbn [cmpR]; [reflexivity|..];
        apply Rmult_lt_compat_r; try exact P; apply IZR_lt; lia.
    + destruct Lb as [->|Lb]; [lia|].
      pose proof (small_exponent (Zpos ma) ea eb ltac:(lia) E) as H. rewrite bp_add in H.
      pose proof (IZR_ge_pow _ 52 ltac:(lia) Lb). pose proof (bp_pos eb). nra.
    + destruct La as [->|La]; [lia|].
      pose proof (small_exponent (Zpos mb) eb ea ltac:(lia) E) as H. rewrite bp_add in H.
      pose proof (IZR_ge_pow _ 52 ltac:(lia) La). pose proof (bp_pos ea). nra.
Qed.

Lemma SFltb_val a b : nonneg a -> nonneg b -> reflect (val a < val b) (SFltb a b).
Proof.
  intros Ha Hb. apply iff_reflect.
  destruct (SFcompare_val a b Ha Hb) as ([] & E & H); unfold SFltb; rewrite E; cbn in H;
    split; intros; try discriminate; try reflexivity; lra.
Qed.

Lemma SFleb_val a b : nonneg a -> nonneg b -> reflect (val a <= val b) (SFleb a b).
Proof.
  intros Ha Hb. apply iff_reflect.
  destruct (SFcompare_val a b Ha Hb) as ([] & E & H); unfold SFleb; rewrite E; cbn in H;
    split; intros; try discriminate; try reflexivity; lra.
Qed.

(** A canonical nonnegative float is determined by its value, up to the zeros, which
    here have one sign. *)
Lemma val_inj a b : nonneg a -> nonneg b -> val a = val b -> a = b.
Proof.
  intros Na Nb E. pose proof (SFcompare_val a b Na Nb) as (c & Hc & Hv).
  destruct c; cbn in Hv; [|lra..]. clear Hv E.
  destruct Na as (Va & Sa & Fa), Nb as (Vb & Sb & Fb).
  destruct a as [sa| | |sa ma ea], b as [sb| | |sb mb eb]; try discriminate;
    cbn in Sa, Sb; subst; cbn [SFcompare] in Hc; try discriminate; [reflexivity|].
  destruct (Z.compare_spec ea eb) as [->|E|E]; try discriminate.
  injection Hc as Hc. apply Pos.compare_eq in Hc. now subst.
Qed.
