(* ===== verification/Nearest.v ===== *)
(** Rounding to the nearest binary64, ties to even: the reference that parsing and
    printing a float64 are measured against.

    A binary64 that is not negative is named by its bits, a number from 0 to those of
    infinity; the numbers between its two neighbouring midpoints round to it. *)
From Stdlib Require Import ZArith Reals Lra Lia SpecFloat Bool.
From S2P Require Import Prelude GoFloat Float64 Rounding.
Local Open Scope R_scope.

(** * Values and midpoints *)

Definition inf_bits : Z := 0x7FF0000000000000.

(** The number with the bits [n]; those of infinity continue as 2^1024. *)
Definition value (n : Z) : R :=
  if (n <? 2 ^ 52)%Z then IZR n * bp emin64
  else IZR (2 ^ 52 + n mod 2 ^ 52) * bp (n / 2 ^ 52 - 1075).

Definition midpoint (n : Z) : R := (value n + value (n + 1)) / 2.

(** [n] are the bits of the binary64 nearest to [x]; a midpoint goes to the even one. *)
Definition nearest (x : R) (n : Z) : Prop :=
  (0 <= n <= inf_bits)%Z /\ 0 <= x /\
  ((0 < n)%Z -> midpoint (n - 1) <= x /\ (Z.odd n = true -> midpoint (n - 1) < x)) /\
  ((n < inf_bits)%Z -> x <= midpoint n /\ (Z.odd n = true -> x < midpoint n)).

(** * The bits of a mantissa and an exponent *)

Definition code (m e : Z) : Z := (e + 1074) * 2 ^ 52 + m.

Definition canon (m e : Z) : Prop :=
  (0 <= m < 2 ^ 53 /\ emin64 <= e /\ (e = emin64 \/ 2 ^ 52 <= m))%Z.

Lemma canon_code n : (0 <= n)%Z -> exists m e, n = code m e /\ canon m e.
Proof.
  intros Hn. destruct (Z.lt_ge_cases n (2 ^ 52)) as [H|H].
  - exists n, emin64. unfold code, canon. lia.
  - exists (2 ^ 52 + n mod 2 ^ 52)%Z, (n / 2 ^ 52 - 1075)%Z. unfold code, canon.
    Z.to_euclidean_division_equations. lia.
Qed.

(** A mantissa that has carried to [2 ^ 53] is written alike. *)
Lemma value_code m e :
  (0 <= m <= 2 ^ 53)%Z -> (emin64 <= e)%Z -> (e = emin64 \/ 2 ^ 52 <= m)%Z ->
  value (code m e) = IZR m * bp e.
Proof.
  intros Hm He Hc. unfold value, code. destruct (Z.ltb_spec ((e + 1074) * 2 ^ 52 + m) (2 ^ 52)) as [H|H].
  - replace e with emin64 by nia. now replace ((emin64 + 1074) * 2 ^ 52 + m)%Z with m by lia.
  - destruct (Z.eq_dec m (2 ^ 53)) as [->|Hne].
    + replace ((e + 1074) * 2 ^ 52 + 2 ^ 53)%Z with ((e + 1076) * 2 ^ 52)%Z by lia.
      rewrite Z.mod_mul, Z.div_mul, Z.add_0_r by lia.
      replace (e + 1076 - 1075)%Z with (1 + e)%Z by lia. rewrite bp_add. change (bp 1) with (2 * 1).
      replace (2 ^ 53)%Z with (2 ^ 52 * 2)%Z by reflexivity. rewrite mult_IZR. ring.
    + assert (E : ((e + 1074) * 2 ^ 52 + m = (m - 2 ^ 52) + (e + 1075) * 2 ^ 52)%Z) by lia.
      rewrite E, Z.mod_add, Z.div_add, Z.mod_small, Z.div_small by lia.
      f_equal; f_equal; lia.
Qed.

Lemma code_succ m e : (code m e + 1 = code (m + 1) e)%Z.
Proof. unfold code. lia. Qed.

Lemma code_pred m e : (code m e - 1 = code (m - 1) e)%Z.
Proof. unfold code. lia. Qed.

Lemma code_odd m e : Z.odd (code m e) = Z.odd m.
Proof. unfold code. rewrite Z.odd_add, Z.odd_mul. replace (Z.odd (2 ^ 52)) with false by reflexivity. now rewrite andb_false_r. Qed.

Lemma midpoint_code m e :
  (0 <= m < 2 ^ 53)%Z -> (emin64 <= e)%Z -> (e = emin64 \/ 2 ^ 52 <= m)%Z ->
  midpoint (code m e) = (IZR m + 1 / 2) * bp e.
Proof.
  intros Hm He Hc. unfold midpoint. rewrite code_succ, !value_code, plus_IZR by lia. field.
Qed.

Lemma value_lt n : (0 <= n)%Z -> value n < midpoint n < value (n + 1).
Proof.
  intros Hn. destruct (canon_code n Hn) as (m & e & -> & Hm & He & Hc).
  rewrite midpoint_code, code_succ, !value_code, plus_IZR by lia. pose proof (bp_pos e). nra.
Qed.

Lemma value_mono a b : (0 <= a <= b)%Z -> value a <= value b.
Proof.
  intros Hab. replace b with (a + Z.of_nat (Z.to_nat (b - a)))%Z by lia.
  induction (Z.to_nat (b - a)) as [|k IH]; [rewrite Z.add_0_r; lra|].
  pose proof (value_lt (a + Z.of_nat k) ltac:(lia)).
  replace (a + Z.of_nat (S k))%Z with (a + Z.of_nat k + 1)%Z by lia. lra.
Qed.

Lemma midpoint_mono a b : (0 <= a <= b)%Z -> midpoint a <= midpoint b.
Proof.
  intros Hab. destruct (Z.eq_dec a b) as [->|Hne]; [lra|].
  pose proof (value_lt a ltac:(lia)). pose proof (value_lt b ltac:(lia)).
  pose proof (value_mono (a + 1) b ltac:(lia)). lra.
Qed.

Lemma value_nonneg n : (0 <= n)%Z -> 0 <= value n.
Proof.
  intros Hn. destruct (canon_code n Hn) as (m & e & -> & Hm & He & Hc). rewrite value_code by lia.
  apply Rmult_le_pos; [apply IZR_le; lia|]. pose proof (bp_pos e). lra.
Qed.

(** ** The nearest one *)

Lemma nearest_unique x n n' : nearest x n -> nearest x n' -> n = n'.
Proof.
  assert (Hlt : forall a b, nearest x a -> nearest x b -> (a < b)%Z -> False).
  { intros a b (Ha & _ & _ & Hup) (Hb & _ & Hlow & _) Hab.
    destruct (Hup ltac:(lia)) as [Hup1 Hup2]. destruct (Hlow ltac:(lia)) as [Hlow1 Hlow2].
    pose proof (midpoint_mono a (b - 1) ltac:(lia)) as Hm.
    destruct (Z.odd a) eqn:Oa; [specialize (Hup2 eq_refl); lra|].
    destruct (Z.odd b) eqn:Ob; [specialize (Hlow2 eq_refl); lra|].
    assert (a + 1 <= b - 1)%Z as Hgap.
    { destruct (Z.eq_dec b (a + 1)) as [->|]; [|lia]. rewrite Z.odd_add, Oa in Ob. discriminate. }
    pose proof (midpoint_mono (a + 1) (b - 1) ltac:(lia)).
    pose proof (value_lt a ltac:(lia)). pose proof (value_lt (a + 1) ltac:(lia)). lra. }
  intros H H'. destruct (Z.lt_trichotomy n n') as [L|[E|L]]; [|exact E|].
  - destruct (Hlt n n' H H' L).
  - destruct (Hlt n' n H' H L).
Qed.

(** No binary64 is closer to [x] than the nearest one. *)
Lemma nearest_closest x n k : nearest x n -> (n < inf_bits)%Z -> (0 <= k)%Z ->
  Rabs (x - value n) <= Rabs (x - value k).
Proof.
  intros (Hn & _ & Hlow & Hup) Hi Hk. destruct (Hup Hi) as [Hu _].
  pose proof (value_lt n ltac:(lia)) as Hv. unfold midpoint in Hu, Hv.
  destruct (Z.lt_trichotomy k n) as [L|[->|L]]; [|lra|].
  - destruct (Hlow ltac:(lia)) as [Hl _]. unfold midpoint in Hl. rewrite Z.sub_add in Hl.
    pose proof (value_mono k (n - 1) ltac:(lia)). pose proof (value_lt (n - 1) ltac:(lia)) as Hv'.
    rewrite Z.sub_add in Hv'. unfold Rabs. destruct (Rcase_abs _), (Rcase_abs _); lra.
  - pose proof (value_mono (n + 1) k ltac:(lia)).
    unfold Rabs. destruct (Rcase_abs _), (Rcase_abs _); lra.
Qed.

Lemma nearest_value n : (0 <= n < inf_bits)%Z -> nearest (value n) n.
Proof.
  intros Hn. split; [lia|]. split; [apply value_nonneg; lia|]. pose proof (value_lt n ltac:(lia)). split; [|lra].
  intros H0. pose proof (value_lt (n - 1) ltac:(lia)) as Hv. rewrite Z.sub_add in Hv. lra.
Qed.

(** An integer mantissa with a place after it, rounded to the even one. *)
Lemma nearest_code x m f l e :
  inb l f -> x = (IZR m + f) * bp e -> canon m e -> (e <= 971)%Z ->
  nearest x (code (round_nearest_even m l) e).
Proof.
  intros Hf -> (Hm & He & Hc) H971. pose proof (bp_pos e) as Pe. pose proof (inb_range _ _ Hf) as Hr.
  set (m2 := round_nearest_even m l).
  assert (H0 : 0 <= (IZR m + f) * bp e).
  { apply Rmult_le_pos; [|lra]. pose proof (IZR_le 0 m ltac:(lia)). lra. }
  assert (Hcases : (m2 = m /\ f <= 1 / 2 /\ (Z.odd m = true -> f < 1 / 2)) \/
                   (m2 = (m + 1)%Z /\ 1 / 2 <= f /\ (Z.odd m2 = true -> 1 / 2 < f))).
  { unfold m2, round_nearest_even. destruct l as [|[]]; cbn in Hf.
    - left. repeat split; lra.
    - rewrite <- Z.negb_odd. destruct (Z.odd m) eqn:Om; cbn [negb].
      + right. repeat split; [lra|]. rewrite Z.odd_add, Om. discriminate.
      + left. repeat split; [lra|discriminate].
    - left. repeat split; lra.
    - right. repeat split; lra. }
  assert (Hrange : (0 <= code m2 e <= inf_bits)%Z) by (unfold code, inf_bits; destruct Hcases; lia).
  split; [exact Hrange|]. split; [exact H0|]. rewrite code_odd.
  destruct Hcases as [(-> & Hf1 & Hodd)|(-> & Hf1 & Hodd)].
  - split.
    + intros Hp. pose proof (value_lt (code m e - 1) ltac:(lia)) as Hv.
      rewrite Z.sub_add, (value_code m e) in Hv by lia. nra.
    + intros _. rewrite midpoint_code by lia. split; [nra|]. intros O. specialize (Hodd O). nra.
  - split.
    + intros _. replace (code (m + 1) e - 1)%Z with (code m e) by (unfold code; lia).
      rewrite midpoint_code by lia. split; [nra|]. intros O. specialize (Hodd O). nra.
    + intros _. pose proof (value_lt (code (m + 1) e) ltac:(lia)) as Hv.
      rewrite (value_code (m + 1) e), plus_IZR in Hv by lia. nra.
Qed.

(** From 2^1024 less half a unit up, infinity. *)
Lemma midpoint_last : midpoint (inf_bits - 1) = IZR (2 ^ 54 - 1) * bp 970.
Proof.
  change (inf_bits - 1)%Z with (code (2 ^ 53 - 1) 971). rewrite midpoint_code by lia.
  replace (bp 971) with (2 * bp 970) by (change 971%Z with (1 + 970)%Z; rewrite bp_add; change (bp 1) with (2 * 1); ring).
  replace (2 ^ 54 - 1)%Z with (2 * (2 ^ 53 - 1) + 1)%Z by reflexivity. rewrite plus_IZR, mult_IZR. field.
Qed.

Lemma nearest_overflow x : IZR (2 ^ 54 - 1) * bp 970 <= x -> nearest x inf_bits.
Proof.
  intros Hx. pose proof (bp_pos 970) as P. split; [unfold inf_bits; lia|]. split; [|split].
  - pose proof (IZR_le 0 (2 ^ 54 - 1) ltac:(lia)). nra.
  - intros _. rewrite midpoint_last. split; [exact Hx|discriminate].
  - lia.
Qed.

Lemma nearest_finite x n : nearest x n -> x < IZR (2 ^ 54 - 1) * bp 970 -> (n < inf_bits)%Z.
Proof.
  intros (Hn & _ & Hlow & _) Hx. destruct (Z.eq_dec n inf_bits) as [->|]; [|lia].
  destruct (Hlow ltac:(unfold inf_bits; lia)) as [H _]. rewrite midpoint_last in H. lra.
Qed.

Lemma nearest_canon_overflow x m f e : 0 <= f -> x = (IZR m + f) * bp e -> canon m e -> (971 < e)%Z ->
  nearest x inf_bits.
Proof.
  intros Hf -> (Hm & He & Hc) H971. apply nearest_overflow.
  apply Rle_trans with (bp (52 + e)).
  - apply Rle_trans with (bp 54 * bp 970).
    + apply Rmult_le_compat_r; [pose proof (bp_pos 970); lra|]. rewrite bp_IZR by lia. apply IZR_le. lia.
    + rewrite <- bp_add. apply bp_mono. lia.
  - rewrite bp_add. apply Rmult_le_compat_r; [pose proof (bp_pos e); lra|].
    pose proof (IZR_ge_pow m 52 ltac:(lia) ltac:(lia)). lra.
Qed.

(** * Bits and floats *)

Definition with_sign (neg : bool) (v : float64) : float64 := if neg then SFopp v else v.

(** [v] is the nonnegative float with the bits [n]. *)
Definition has_bits (v : float64) (n : Z) : Prop :=
  valid v = true /\ sign_is false v /\ Float64bits v = n.

Lemma testbit_52 m : (0 <= m < 2 ^ 53)%Z -> Z.testbit m 52 = (2 ^ 52 <=? m)%Z.
Proof.
  intros Hm. rewrite Z.testbit_eqb by lia. destruct (Z.leb_spec (2 ^ 52) m) as [H|H].
  - replace (m / 2 ^ 52)%Z with 1%Z by (Z.to_euclidean_division_equations; lia). reflexivity.
  - now rewrite Z.div_small by lia.
Qed.

Lemma valid_canon s m e : valid (S754_finite s m e) = true -> canon (Zpos m) e /\ (e <= 971)%Z.
Proof. intros H. destruct (valid_bounds _ _ _ H) as (Hm & He & _ & Hc). unfold canon. lia. Qed.

Lemma canon_valid s m e : canon (Zpos m) e -> (e <= 971)%Z -> valid (S754_finite s m e) = true.
Proof.
  intros (Hm & He & Hc) H. unfold valid, valid_binary, bounded, canonical_mantissa.
  apply andb_true_iff. split; [|apply Z.leb_le; exact H].
  change (Zpos (digits2_pos m)) with (Zdigits2 (Zpos m)). rewrite fexp64_max. apply Z.eqb_eq.
  pose proof (Zdigits2_le (Zpos m) 53 ltac:(lia) ltac:(lia)).
  destruct Hc as [->|Hc]; [lia|]. pose proof (Zdigits2_gt (Zpos m) 52 Hc ltac:(lia)). lia.
Qed.

Lemma bits_finite s m e : valid (S754_finite s m e) = true ->
  Float64bits (S754_finite s m e) = (Z.b2z s * 2 ^ 63 + code (Zpos m) e)%Z.
Proof.
  intros Hv. destruct (valid_canon _ _ _ Hv) as [(Hm & He & Hc) H971]. unfold Float64bits.
  rewrite testbit_52 by lia. rewrite !Z.shiftl_mul_pow2 by lia.
  destruct (Z.leb_spec (2 ^ 52) (Z.pos m)) as [H|H].
  - rewrite (lor_add (e + 1075) _ 52), lor_add by lia. unfold code. lia.
  - rewrite lor_add by lia. replace e with emin64 by lia. unfold code. lia.
Qed.

Lemma nonneg_bits v : nonneg v -> has_bits v (Float64bits v) /\ (0 <= Float64bits v < inf_bits)%Z /\ val v = value (Float64bits v).
Proof.
  intros (Hv & Hs & Hf). split; [now split|]. destruct v as [s| | |s m e]; try discriminate; cbn in Hs; subst s.
  - cbn. split; [unfold inf_bits; lia|]. unfold value. cbn. lra.
  - rewrite bits_finite by exact Hv. destruct (valid_canon _ _ _ Hv) as [(Hm & He & Hc) H971].
    cbn [Z.b2z]. rewrite Z.mul_0_l, Z.add_0_l. split; [unfold code, inf_bits; lia|].
    rewrite value_code by lia. cbn [val]. ring.
Qed.

(** ** From bits *)

Lemma frombits_code m e s : canon m e -> (e <= 971)%Z ->
  Float64frombits (Z.b2z s * 2 ^ 63 + code m e) =
  match m with Zpos p => S754_finite s p e | _ => S754_zero s end.
Proof.
  intros (Hm & He & Hc) H971. unfold Float64frombits, expmask. change 0x7FF%Z with (2 ^ 11 - 1)%Z.
  rewrite !land_mask, Z.shiftr_div_pow2 by lia.
  set (n := (Z.b2z s * 2 ^ 63 + code m e)%Z).
  assert (Hs : Z.testbit n 63 = s).
  { rewrite Z.testbit_eqb by lia. unfold n, code. destruct s; cbn [Z.b2z];
    [replace ((1 * 2 ^ 63 + ((e + 1074) * 2 ^ 52 + m)) / 2 ^ 63)%Z with 1%Z by (Z.to_euclidean_division_equations; lia); reflexivity|].
    now rewrite Z.div_small by lia. }
  rewrite Hs. destruct (Z.lt_ge_cases m (2 ^ 52)) as [L|G].
  - assert (e = emin64) as -> by lia.
    assert (En : n = (Z.b2z s * 2 ^ 11 * 2 ^ 52 + m)%Z) by (unfold n, code; lia).
    assert (E1 : (n / 2 ^ 52 mod 2 ^ 11 = 0)%Z).
    { rewrite En, Z.div_add_l, Z.div_small, Z.add_0_r by lia. apply Z.mod_mul. lia. }
    assert (E2 : (n mod 2 ^ 52 = m)%Z) by (rewrite En, Z.add_comm, Z.mod_add, Z.mod_small by lia; reflexivity).
    rewrite E1, E2. destruct m; [reflexivity|reflexivity|lia].
  - assert (En : n = ((Z.b2z s * 2 ^ 11 + (e + 1075)) * 2 ^ 52 + (m - 2 ^ 52))%Z) by (unfold n, code; lia).
    assert (E1 : (n / 2 ^ 52 mod 2 ^ 11 = e + 1075)%Z).
    { rewrite En, Z.div_add_l, Z.div_small, Z.add_0_r by lia.
      rewrite Z.add_comm, Z.mod_add, Z.mod_small by lia. reflexivity. }
    assert (E2 : (n mod 2 ^ 52 = m - 2 ^ 52)%Z) by (rewrite En, Z.add_comm, Z.mod_add, Z.mod_small by lia; reflexivity).
    rewrite E1, E2. replace (e + 1075 =? 0)%Z with false by lia. replace (e + 1075 =? 2 ^ 11 - 1)%Z with false by lia.
    replace (m - 2 ^ 52 + 2 ^ 52)%Z with m by lia. destruct m; [lia| |lia].
    now replace (e + 1075 - 1075)%Z with e by lia.
Qed.

(** The bits of a nonnegative float, infinity included, and of its opposite. *)
Lemma frombits_spec n s : (0 <= n <= inf_bits)%Z ->
  Float64frombits (Z.b2z s * 2 ^ 63 + n) = with_sign s (Float64frombits n) /\ has_bits (Float64frombits n) n.
Proof.
  intros Hn. destruct (Z.eq_dec n inf_bits) as [->|Hne].
  { split; [now destruct s|]. now repeat split. }
  destruct (canon_code n ltac:(lia)) as (m & e & -> & Hc).
  assert (He : (e <= 971)%Z) by (unfold canon, code, inf_bits in *; nia).
  pose proof (frombits_code m e false Hc He) as H0. cbn [Z.b2z] in H0. rewrite Z.mul_0_l, Z.add_0_l in H0.
  rewrite H0, frombits_code by assumption. destruct m as [|p|p]; [| |destruct Hc; lia].
  - split; [now destruct s|]. repeat split. destruct Hc as (_ & _ & [->|]); [reflexivity|lia].
  - split; [now destruct s|]. pose proof (canon_valid false p e Hc He) as Hv. split; [exact Hv|].
    split; [reflexivity|]. rewrite bits_finite by exact Hv. cbn [Z.b2z]. lia.
Qed.

Lemma has_bits_range v n : has_bits v n -> (0 <= n <= inf_bits)%Z.
Proof.
  intros (Hv & Hs & <-). destruct v as [s|s| |s m e]; try discriminate; cbn in Hs; [| |easy|]; subst s.
  - cbn. unfold inf_bits. lia.
  - cbn. unfold inf_bits. lia.
  - destruct (nonneg_bits (S754_finite false m e)) as (_ & H & _); [now repeat split|]. lia.
Qed.

Lemma has_bits_frombits v n : has_bits v n -> Float64frombits n = v.
Proof.
  intros (Hv & Hs & <-). destruct v as [s|s| |s m e]; try discriminate; cbn in Hs; [| |easy|]; subst s;
    try reflexivity.
  rewrite bits_finite by exact Hv. destruct (valid_canon _ _ _ Hv) as [Hc He]. now rewrite frombits_code.
Qed.

(** * The operations of binary64 round to the nearest *)

Definition nearest_float (x : R) (v : float64) : Prop := exists n, has_bits v n /\ nearest x n.

Lemma has_bits_code p e : canon (Zpos p) e -> (e <= 971)%Z -> has_bits (S754_finite false p e) (code (Zpos p) e).
Proof.
  intros Hc He. pose proof (canon_valid false p e Hc He) as Hv. split; [exact Hv|]. split; [reflexivity|].
  now rewrite bits_finite.
Qed.

(** The second shift keeps the code. *)
Lemma second_shift_code m2 e1 :
  (0 <= m2 <= 2 ^ 53)%Z -> (emin64 <= e1)%Z -> (e1 = emin64 \/ 2 ^ 52 <= m2)%Z ->
  exists m3 e3, shr_fexp 53 1024 m2 e1 loc_Exact = (Build_shr_record m3 false false, e3) /\
    canon m3 e3 /\ code m3 e3 = code m2 e1 /\ (e1 <= e3)%Z.
Proof.
  intros Hm He Hc. destruct (second_shift m2 e1 Hm He Hc) as (m3 & e3 & E & H3 & He3 & Hc3 & Hd & _).
  exists m3, e3. split; [exact E|]. split; [now repeat split|]. revert E. unfold shr_fexp.
  destruct (Z.eq_dec m2 (2 ^ 53)) as [->|Hne].
  - change (Zdigits2 (2 ^ 53)) with 54%Z. rewrite fexp64_max.
    replace (Z.max (54 + e1 - 53) emin64 - e1)%Z with 1%Z by lia.
    change (shr (shr_record_of_loc (2 ^ 53) loc_Exact) e1 1) with (shr_1 (Build_shr_record (2 ^ 53) false false), (e1 + 1)%Z).
    cbn [shr_1]. intros [= <- <-]. unfold code. lia.
  - assert (Hd2 : fexp64 (Zdigits2 m2 + e1) = e1).
    { rewrite fexp64_max. pose proof (Zdigits2_le m2 53 ltac:(lia) ltac:(lia)).
      destruct Hc as [->|H52]; [lia|]. pose proof (Zdigits2_gt m2 52 H52 ltac:(lia)). lia. }
    rewrite Hd2, Z.sub_diag. cbn [shr shr_record_of_loc]. intros [= <- <-]. lia.
Qed.

Theorem round_aux_nearest x m e l :
  repr x m e l -> (e <= fexp64 (Zdigits2 m + e))%Z ->
  nearest_float x (binary_round_aux 53 1024 false m e l).
Proof.
  intros Hx He. unfold binary_round_aux.
  destruct (shr_fexp_repr x m e l Hx He) as ([m1 r s] & -> & Hm1 & f & Hf & E1).
  cbn [shr_m] in *. set (l1 := loc_of_shr_record _) in *. pose proof (inb_range _ _ Hf) as Hr.
  destruct (shifted_digits x m e l m1 f Hx He Hm1 Hr E1) as [Hlt Hlow].
  set (e1 := fexp64 (Zdigits2 m + e)) in *.
  assert (Hmin : (emin64 <= e1)%Z) by (unfold e1; rewrite fexp64_max; lia).
  assert (Hc1 : canon m1 e1) by (now repeat split).
  set (m2 := round_nearest_even m1 l1).
  assert (Hm2 : (m1 <= m2 <= m1 + 1)%Z).
  { unfold m2, round_nearest_even. destruct l1 as [|[]]; try lia. destruct (Z.even m1); lia. }
  destruct (second_shift_code m2 e1 ltac:(lia) Hmin ltac:(lia)) as (m3 & e3 & -> & Hc3 & Ec & Hle).
  cbn [shr_m]. change (1024 - 53)%Z with 971%Z. destruct (Z.le_gt_cases e1 971) as [H971|H971].
  - pose proof (nearest_code x m1 f l1 e1 Hf E1 Hc1 H971) as Hn. fold m2 in Hn. rewrite <- Ec in Hn.
    destruct m3 as [|p|p]; [| |destruct Hc3; lia].
    + exists (code 0 e3). split; [|exact Hn]. repeat split. cbn.
      destruct Hc3 as (_ & _ & [->|]); [reflexivity|lia].
    + destruct (Z.leb_spec e3 971) as [H3|H3].
      * exists (code (Zpos p) e3). split; [now apply has_bits_code|exact Hn].
      * exists inf_bits. split; [now repeat split|]. replace inf_bits with (code (Z.pos p) e3); [exact Hn|].
        apply proj1 in Hn. destruct Hc3 as (_ & _ & Hc3). unfold code, inf_bits in *. lia.
  - pose proof (nearest_canon_overflow x m1 f e1 ltac:(lra) E1 Hc1 ltac:(lia)) as Hn.
    destruct m3 as [|p|p]; [destruct Hc3; lia| |destruct Hc3; lia].
    replace (e3 <=? 971)%Z with false by lia. exists inf_bits. split; [now repeat split|exact Hn].
Qed.

Lemma mul_nearest a b : nonneg a -> nonneg b -> nearest_float (val a * val b) (mul a b).
Proof.
  intros (Va & Sa & Fa) (Vb & Sb & Fb).
  assert (Z0 : nearest_float 0 (S754_zero false)).
  { exists 0%Z. split; [now repeat split|]. replace 0 with (value 0) by (unfold value; cbn; lra).
    apply nearest_value. unfold inf_bits. lia. }
  destruct a as [sa| | |sa ma ea], b as [sb| | |sb mb eb]; try discriminate;
    cbn in Sa, Sb; subst; unfold mul; cbn [SFmul xorb val];
    rewrite ?Rmult_0_l, ?Rmult_0_r; try exact Z0.
  apply round_aux_nearest.
  - replace (1 * IZR (Zpos ma) * bp ea * (1 * IZR (Zpos mb) * bp eb))
      with (IZR (Zpos ma * Zpos mb) * bp (ea + eb)) by (rewrite bp_add, mult_IZR; ring).
    apply repr_exact. lia.
  - exact (mul_exponent _ _ _ _ _ _ Va Vb).
Qed.

Lemma div_nearest a b : nonneg a -> nonneg b -> 0 < val a -> 0 < val b -> nearest_float (val a / val b) (div a b).
Proof.
  intros (Va & Sa & Fa) (Vb & Sb & Fb) Pa Pb.
  destruct a as [sa| | |sa ma ea], b as [sb| | |sb mb eb]; try discriminate; cbn [val] in Pa, Pb; try lra.
  cbn in Sa, Sb. subst. unfold div. cbn [SFdiv xorb val]. rewrite !Rmult_1_l.
  destruct (SFdiv_core_binary 53 1024 (Zpos ma) ea (Zpos mb) eb) as [[m e] l] eqn:E.
  destruct (div_core_repr (Zpos ma) ea (Zpos mb) eb m e l ltac:(lia) ltac:(lia) E) as [Hr He].
  now apply round_aux_nearest.
Qed.

(** The sign does not take part in the rounding. *)
Lemma round_aux_sign s m e l :
  binary_round_aux 53 1024 s m e l = with_sign s (binary_round_aux 53 1024 false m e l).
Proof.
  unfold binary_round_aux. destruct (shr_fexp _ _ _ _ _) as [mrs e1]. destruct (shr_fexp _ _ _ _ _) as [mrs2 e2].
  destruct (shr_m mrs2); [now destruct s| |now destruct s]. destruct (e2 <=? _)%Z; now destruct s.
Qed.

Lemma mul_sign s a b : nonneg a -> nonneg b -> mul (with_sign s a) b = with_sign s (mul a b).
Proof.
  intros (Va & Sa & Fa) (Vb & Sb & Fb).
  destruct a as [sa| | |sa ma ea], b as [sb| | |sb mb eb]; try discriminate; cbn in Sa, Sb; subst;
    destruct s; try reflexivity; unfold mul; cbn [with_sign SFopp SFmul xorb negb]; apply round_aux_sign.
Qed.

Lemma div_sign s a b : nonneg a -> nonneg b -> 0 < val b -> div (with_sign s a) b = with_sign s (div a b).
Proof.
  intros (Va & Sa & Fa) (Vb & Sb & Fb) Pb.
  destruct b as [sb| | |sb mb eb]; try discriminate; cbn [val] in Pb; [lra|].
  destruct a as [sa| | |sa ma ea]; try discriminate; cbn in Sa, Sb; subst;
    destruct s; try reflexivity; unfold div; cbn [with_sign SFopp SFdiv xorb negb];
    destruct (SFdiv_core_binary _ _ _ _ _ _) as [[m e] l]; apply round_aux_sign.
Qed.
