(* ===== verification/Strconv.v ===== *)
(** Package strconv of the Go tool chain, as the HTTP layer uses it: [Atoi] on
    query parameters and [ParseInt] on JSON integers, byte by byte; parsing a
    float64 is the interface [GoStrconv], which [Atof] implements. *)
From Stdlib Require Import ZArith Lia String Ascii Bool List.
From S2P Require Import Prelude.
Import ListNotations.
Local Open Scope Z_scope.

(** A Go string as its bytes. *)
Definition bytes (s : string) : list Z :=
  map (fun a => Z.of_N (N_of_ascii a)) (list_ascii_of_string s).

(** A string of the bytes. *)
Definition text (b : list Z) : string :=
  string_of_list_ascii (map (fun z => ascii_of_N (Z.to_N z)) b).

Inductive num_error := ErrSyntax | ErrRange | ErrBase | ErrBitSize.

(** A conversion returns a value and possibly an error. *)
Definition parsed (A : Type) : Type := A * option num_error.

Definition lower (c : Z) : Z := Z.lor c 32.

Definition is_digit (c : Z) : bool := (48 <=? c) && (c <=? 57).
Definition digits (b : list Z) : Prop := Forall (fun c => is_digit c = true) b.
Definition is_alpha_lower (c : Z) : bool := (97 <=? c) && (c <=? 122).

Definition maxUint64 : Z := 2 ^ 64 - 1.
Definition wrap64 (z : Z) : Z := z mod 2 ^ 64.

(** ** underscoreOK *)

(** The last character class seen: [^], [0], [_] or [!]. *)
Inductive saw_class := SawStart | SawDigit | SawUnderscore | SawOther.

Fixpoint underscore_loop (hex : bool) (saw : saw_class) (s : list Z) : bool :=
  match s with
  | [] => match saw with SawUnderscore => false | _ => true end
  | c :: s' =>
      if is_digit c || (hex && (97 <=? lower c) && (lower c <=? 102)) then
        underscore_loop hex SawDigit s'
      else if c =? 95 then
        match saw with
        | SawDigit => underscore_loop hex SawUnderscore s'
        | _ => false
        end
      else match saw with
           | SawUnderscore => false
           | _ => underscore_loop hex SawOther s'
           end
  end.

Definition strip_sign (s : list Z) : list Z :=
  match s with
  | c :: s' => if (c =? 45) || (c =? 43) then s' else s
  | [] => []
  end.

Definition underscoreOK (s : list Z) : bool :=
  let s := strip_sign s in
  match s with
  | c0 :: c1 :: rest =>
      if (c0 =? 48) && ((lower c1 =? 98) || (lower c1 =? 111) || (lower c1 =? 120))
      then underscore_loop (lower c1 =? 120) SawDigit rest
      else underscore_loop false SawStart s
  | _ => underscore_loop false SawStart s
  end.

(** ** ParseUint *)

(** The base and the digits after a prefix, for base 0. *)
Definition base_prefix (s : list Z) : Z * list Z :=
  match s with
  | 48 :: c1 :: (_ :: _) as s' =>
      let rest := tl (tl s) in
      if lower c1 =? 98 then (2, rest)
      else if lower c1 =? 111 then (8, rest)
      else if lower c1 =? 120 then (16, rest)
      else (8, tl s)
  | 48 :: s' => (8, s')
  | _ => (10, s)
  end.

(** The loop: [inl] an early return, [inr] the value and the underscore flag. *)
Fixpoint parse_uint_loop (base0 : bool) (base cutoff maxVal n : Z) (us : bool) (s : list Z)
  : parsed Z + (Z * bool) :=
  match s with
  | [] => inr (n, us)
  | c :: s' =>
      if (c =? 95) && base0 then parse_uint_loop base0 base cutoff maxVal n true s'
      else
        let d :=
          if is_digit c then Some (c - 48)
          else if is_alpha_lower (lower c) then Some (lower c - 97 + 10)
          else None in
        match d with
        | None => inl (0, Some ErrSyntax)
        | Some d =>
            if base <=? d then inl (0, Some ErrSyntax)
            else if cutoff <=? n then inl (maxVal, Some ErrRange)
            else
              let n := wrap64 (n * base) in
              let n1 := wrap64 (n + d) in
              if (n1 <? n) || (maxVal <? n1) then inl (maxVal, Some ErrRange)
              else parse_uint_loop base0 base cutoff maxVal n1 us s'
        end
  end.

Definition ParseUint (s : list Z) (base bitSize : Z) : parsed Z :=
  match s with
  | [] => (0, Some ErrSyntax)
  | _ =>
      let base0 := base =? 0 in
      let s0 := s in
      if ((2 <=? base) && (base <=? 36)) || base0 then
        let '(base, s) := if base0 then base_prefix s else (base, s) in
        let bitSize := if bitSize =? 0 then 64 else bitSize in
        if (bitSize <? 0) || (64 <? bitSize) then (0, Some ErrBitSize)
        else
          let cutoff := maxUint64 / base + 1 in
          let maxVal := 2 ^ bitSize - 1 in
          match parse_uint_loop base0 base cutoff maxVal 0 false s with
          | inl r => r
          | inr (n, us) =>
              if us && negb (underscoreOK s0) then (0, Some ErrSyntax) else (n, None)
          end
      else (0, Some ErrBase)
  end.

Definition not_range (e : option num_error) : bool :=
  match e with None | Some ErrRange => false | Some _ => true end.

(** The end of [ParseInt]: check the range of the unsigned value, apply the sign. *)
Definition signed_result (neg : bool) (bitSize : Z) (r : parsed Z) : parsed Z :=
  let '(un, err) := r in
  if not_range err then (0, err)
  else
    let bitSize := if bitSize =? 0 then 64 else bitSize in
    let cutoff := 2 ^ (bitSize - 1) in
    if negb neg && (cutoff <=? un) then (cutoff - 1, Some ErrRange)
    else if neg && (cutoff <? un) then (- cutoff, Some ErrRange)
    else (if neg then - un else un, None).

Definition ParseInt (s : list Z) (base bitSize : Z) : parsed Z :=
  match s with
  | [] => (0, Some ErrSyntax)
  | c :: s' =>
      let '(neg, digits) :=
        if c =? 43 then (false, s') else if c =? 45 then (true, s') else (false, s) in
      signed_result neg bitSize (ParseUint digits base bitSize)
  end.

(** The digit loop of the fast path of [Atoi]. *)
Fixpoint atoi_loop (n : Z) (s : list Z) : option Z :=
  match s with
  | [] => Some n
  | ch :: s' =>
      let ch := (ch - 48) mod 256 in
      if 9 <? ch then None else atoi_loop (n * 10 + ch) s'
  end.

Definition Atoi (s : list Z) : parsed Z :=
  let sLen := Z.of_nat (length s) in
  if (0 <? sLen) && (sLen <? 19) then
    let signed := match s with c :: _ => (c =? 45) || (c =? 43) | [] => false end in
    let digits := strip_sign s in
    match digits with
    | [] => if signed then (0, Some ErrSyntax) else (0, None)
    | _ =>
        match atoi_loop 0 digits with
        | None => (0, Some ErrSyntax)
        | Some n => (if (match s with c :: _ => c =? 45 | [] => false end) then - n else n, None)
        end
    end
  else ParseInt s 10 0.

(** Parsing a float64: [ParseFloat(s, 64)], the value and possibly an error. *)
Class GoStrconv (F : Type) := {
  ParseFloat : string -> parsed F
}.

(** * What the integer parsers compute *)

(** The value of a sequence of decimal digits. *)
Fixpoint digits_value (n : Z) (s : list Z) : option Z :=
  match s with
  | [] => Some n
  | c :: s' => if is_digit c then digits_value (n * 10 + (c - 48)) s' else None
  end.

(** The documented meaning: an optional sign and at least one decimal digit. *)
Definition int_value (s : list Z) : option Z :=
  match strip_sign s with
  | [] => None
  | ds => option_map (fun v => if (match s with c :: _ => c =? 45 | [] => false end)
                               then - v else v) (digits_value 0 ds)
  end.

Definition is_byte (c : Z) : Prop := 0 <= c < 256.

Lemma bytes_range s : Forall is_byte (bytes s).
Proof.
  unfold bytes. apply Forall_map, Forall_forall. intros a _.
  pose proof (N_ascii_bounded a). unfold is_byte. lia.
Qed.

Lemma ascii_of_byte a : ascii_of_N (Z.to_N (Z.of_N (N_of_ascii a))) = a.
Proof. now rewrite N2Z.id, ascii_N_embedding. Qed.

Lemma text_bytes s : text (bytes s) = s.
Proof.
  unfold text, bytes. rewrite map_map. rewrite (map_ext _ (fun a => a) ascii_of_byte), map_id.
  apply string_of_list_ascii_of_string.
Qed.

Lemma bytes_text b : Forall is_byte b -> bytes (text b) = b.
Proof.
  intros H. unfold text, bytes. rewrite list_ascii_of_string_of_list_ascii, map_map.
  induction H as [|c b Hc _ IH]; [reflexivity|]. cbn [map]. rewrite IH. f_equal.
  unfold is_byte in Hc. rewrite N_ascii_embedding, Z2N.id; lia.
Qed.

Lemma bytes_inj s s' : bytes s = bytes s' -> s = s'.
Proof. intros E. now rewrite <- (text_bytes s), E, text_bytes. Qed.

Lemma is_digit_spec c : is_digit c = true <-> 48 <= c <= 57.
Proof. unfold is_digit. rewrite andb_true_iff, !Z.leb_le. lia. Qed.

Lemma digits_value_ge n s v : 0 <= n -> digits_value n s = Some v -> n <= v.
Proof.
  revert n. induction s as [|c s IH]; simpl; intros n Hn E; [injection E; lia|].
  destruct (is_digit c) eqn:D; [|discriminate]. apply is_digit_spec in D.
  apply IH in E; lia.
Qed.

Lemma digits_value_lt n s v k :
  0 <= n < 10 ^ k -> 0 <= k -> digits_value n s = Some v -> v < 10 ^ (k + Z.of_nat (length s)).
Proof.
  revert n k. induction s as [|c s IH]; cbn [digits_value length]; intros n k Hn Hk E.
  - injection E as <-. now rewrite Z.add_0_r.
  - destruct (is_digit c) eqn:D; [|discriminate]. apply is_digit_spec in D.
    replace (k + Z.of_nat (S (length s))) with (k + 1 + Z.of_nat (length s)) by lia.
    eapply IH; [|lia|exact E]. rewrite Z.pow_add_r by lia. lia.
Qed.

Lemma atoi_loop_digits n s :
  Forall is_byte s -> atoi_loop n s = digits_value n s.
Proof.
  intros Hb. revert n. induction Hb as [|c s Hc Hb IH]; intros n; [reflexivity|].
  cbn [atoi_loop digits_value]. unfold is_byte in Hc. destruct (is_digit c) eqn:D.
  - apply is_digit_spec in D. rewrite Z.mod_small by lia.
    destruct (Z.ltb_spec 9 (c - 48)); [lia|apply IH].
  - assert (~ 48 <= c <= 57) by (rewrite <- is_digit_spec; congruence).
    destruct (Z.ltb_spec 9 ((c - 48) mod 256)) as [|Hle]; [reflexivity|exfalso].
    destruct (Z.lt_ge_cases c 48).
    + replace (c - 48) with (c - 48 + 256 + (-1) * 256) in Hle by lia.
      rewrite Z.mod_add, Z.mod_small in Hle by lia. lia.
    + rewrite Z.mod_small in Hle by lia. lia.
Qed.

(** The two ways a digit loop fails. *)
Definition uint_error (r : parsed Z) : Prop :=
  r = (0, Some ErrSyntax) \/ r = (maxUint64, Some ErrRange).

(** The wrap-around and cutoff tests of the loop detect exactly an overflow. *)
Lemma parse_uint_loop_10 n us s :
  0 <= n < 2 ^ 64 ->
  match digits_value n s with
  | Some v => parse_uint_loop false 10 (maxUint64 / 10 + 1) maxUint64 n us s =
              if v <? 2 ^ 64 then inr (v, us) else inl (maxUint64, Some ErrRange)
  | None => exists r, parse_uint_loop false 10 (maxUint64 / 10 + 1) maxUint64 n us s = inl r /\
                      uint_error r
  end.
Proof.
  unfold uint_error. revert n. induction s as [|c s IH]; intros n Hn.
  - cbn [digits_value parse_uint_loop]. destruct (Z.ltb_spec n (2 ^ 64)); [reflexivity|lia].
  - cbn [digits_value parse_uint_loop]. rewrite andb_false_r.
    destruct (is_digit c) eqn:D.
    + apply is_digit_spec in D. destruct (Z.leb_spec 10 (c - 48)); [lia|].
      change (maxUint64 / 10 + 1) with 1844674407370955162 in *.
      change maxUint64 with 18446744073709551615 in *.
      change (2 ^ 64) with 18446744073709551616 in *.
      destruct (Z.leb_spec 1844674407370955162 n) as [Hc|Hc].
      * destruct (digits_value (n * 10 + (c - 48)) s) as [v|] eqn:E; [|eauto].
        apply digits_value_ge in E; [|lia].
        destruct (Z.ltb_spec v 18446744073709551616); [lia|reflexivity].
      * unfold wrap64. change (2 ^ 64) with 18446744073709551616.
        rewrite (Z.mod_small (n * 10)) by lia.
        destruct (Z.lt_ge_cases (n * 10 + (c - 48)) 18446744073709551616) as [Hs|Hs].
        -- rewrite Z.mod_small by lia.
           destruct (Z.ltb_spec (n * 10 + (c - 48)) (n * 10)); [lia|].
           destruct (Z.ltb_spec 18446744073709551615 (n * 10 + (c - 48))); [lia|].
           cbn [orb]. apply IH. lia.
        -- replace ((n * 10 + (c - 48)) mod 18446744073709551616)
             with (n * 10 + (c - 48) - 18446744073709551616)
             by (apply (Z.mod_unique _ _ 1); lia).
           destruct (Z.ltb_spec (n * 10 + (c - 48) - 18446744073709551616) (n * 10)); [|lia].
           cbn [orb].
           destruct (digits_value (n * 10 + (c - 48)) s) as [v|] eqn:E; [|eauto].
           apply digits_value_ge in E; [|lia].
           destruct (Z.ltb_spec v 18446744073709551616); [lia|reflexivity].
    + destruct (is_alpha_lower (lower c)) eqn:L; [|eauto].
      unfold is_alpha_lower in L. apply andb_true_iff in L as [L _]. apply Z.leb_le in L.
      destruct (Z.leb_spec 10 (lower c - 97 + 10)); [eauto|lia].
Qed.

Lemma ParseUint_10 c s :
  match digits_value 0 (c :: s) with
  | Some v => ParseUint (c :: s) 10 0 =
              if v <? 2 ^ 64 then (v, None) else (maxUint64, Some ErrRange)
  | None => uint_error (ParseUint (c :: s) 10 0)
  end.
Proof.
  assert (E : ParseUint (c :: s) 10 0 =
              match parse_uint_loop false 10 (maxUint64 / 10 + 1) maxUint64 0 false (c :: s) with
              | inl r => r
              | inr (n, us) => if us && negb (underscoreOK (c :: s)) then (0, Some ErrSyntax)
                               else (n, None)
              end) by reflexivity.
  rewrite E. clear E.
  pose proof (parse_uint_loop_10 0 false (c :: s) ltac:(lia)) as L.
  destruct (digits_value 0 (c :: s)) as [v|].
  - rewrite L. now destruct (v <? 2 ^ 64).
  - destruct L as (r & -> & Hr). exact Hr.
Qed.

(** The meaning of a conversion to int: the value when it is in range, a range
    error with the nearest bound when it is not. *)
Definition int_result (v : Z) : parsed Z :=
  if v <? - 2 ^ 63 then (- 2 ^ 63, Some ErrRange)
  else if 2 ^ 63 <=? v then (2 ^ 63 - 1, Some ErrRange) else (v, None).

(** The sign and range tests of [ParseInt] after the unsigned conversion. *)
Lemma signed_range (neg : bool) v :
  0 <= v ->
  signed_result neg 0 (if v <? 2 ^ 64 then (v, None) else (maxUint64, Some ErrRange))
  = int_result (if neg then - v else v).
Proof.
  intros Hv. unfold signed_result, int_result.
  change (2 ^ ((if 0 =? 0 then 64 else 0) - 1)) with 9223372036854775808.
  change maxUint64 with 18446744073709551615.
  change (2 ^ 64) with 18446744073709551616. change (2 ^ 63) with 9223372036854775808.
  destruct (Z.ltb_spec v 18446744073709551616), neg; cbn [not_range negb andb];
    repeat match goal with
    | |- context [?a <? ?b] => destruct (Z.ltb_spec a b)
    | |- context [?a <=? ?b] => destruct (Z.leb_spec a b)
    end; try reflexivity; lia.
Qed.

Lemma signed_error (neg : bool) r :
  uint_error r -> exists x e, signed_result neg 0 r = (x, Some e).
Proof. intros [->| ->]; destruct neg; cbn; eauto. Qed.

(** The signed conversion of the digits after the sign. *)
Lemma signed_10 (neg : bool) ds :
  match (match ds with
         | [] => None
         | _ => option_map (fun v => if neg then - v else v) (digits_value 0 ds)
         end) with
  | Some v => signed_result neg 0 (ParseUint ds 10 0) = int_result v
  | None => exists x e, signed_result neg 0 (ParseUint ds 10 0) = (x, Some e)
  end.
Proof.
  destruct ds as [|d ds]; [cbn; eauto|]. pose proof (ParseUint_10 d ds) as U.
  destruct (digits_value 0 (d :: ds)) as [v|] eqn:E; cbn [option_map].
  - apply digits_value_ge in E; [|lia]. rewrite U. now apply signed_range.
  - now apply signed_error.
Qed.

(** [ParseInt(s, 10, 0)]. *)
Lemma ParseInt_10 s :
  match int_value s with
  | Some v => ParseInt s 10 0 = int_result v
  | None => exists x e, ParseInt s 10 0 = (x, Some e)
  end.
Proof.
  destruct s as [|c s]; [simpl; eauto|]. unfold int_value, strip_sign, ParseInt.
  destruct (Z.eqb_spec c 43) as [->|N1];
    [destruct s as [|d s]; [exact (signed_10 false [])|exact (signed_10 false (d :: s))]|].
  destruct (Z.eqb_spec c 45) as [->|N2];
    [destruct s as [|d s]; [exact (signed_10 true [])|exact (signed_10 true (d :: s))]|].
  exact (signed_10 false (c :: s)).
Qed.

(** the query integer parser: on any byte string, [Atoi] (its fast path for
    short strings and its general path alike) returns without error exactly the
    value of an optional sign followed by decimal digits when it fits int64;
    a value out of range is a range error with the nearest bound, and any other
    text is an error. *)
Theorem Atoi_correct s :
  let b := bytes s in
  match int_value b with
  | Some v => Atoi b = int_result v
  | None => exists x e, Atoi b = (x, Some e)
  end.
Proof.
  cbv zeta. pose proof (bytes_range s) as Hb. set (b := bytes s) in *. clearbody b.
  unfold Atoi. destruct (Z.ltb_spec 0 (Z.of_nat (length b))) as [Hp|Hp];
    [|apply ParseInt_10].
  destruct (Z.ltb_spec (Z.of_nat (length b)) 19) as [Hl|Hl]; [|apply ParseInt_10].
  cbn [andb]. unfold int_value.
  assert (Hs : Forall is_byte (strip_sign b) /\ (length (strip_sign b) <= length b)%nat).
  { destruct Hb as [|c b]; [auto|]. unfold strip_sign.
    destruct ((c =? 45) || (c =? 43)); simpl; auto. }
  destruct Hs as [Hs Hsl].
  destruct (strip_sign b) as [|d ds] eqn:Eb.
  - destruct b as [|c b]; [simpl in Hp; lia|]. unfold strip_sign in Eb.
    destruct ((c =? 45) || (c =? 43)); [eauto|discriminate].
  - rewrite atoi_loop_digits by assumption.
    destruct (digits_value 0 (d :: ds)) as [v|] eqn:E; cbn [option_map]; [|eauto].
    pose proof (digits_value_ge _ _ _ (Z.le_refl 0) E).
    apply digits_value_lt with (k := 0) in E; [|lia|lia].
    assert (v < 10 ^ 18) by (eapply Z.lt_le_trans; [exact E|]; apply Z.pow_le_mono_r; lia).
    change (10 ^ 18) with 1000000000000000000 in *.
    set (neg := match b with c :: _ => c =? 45 | [] => false end).
    unfold int_result. change (2 ^ 63) with 9223372036854775808.
    destruct neg.
    + destruct (Z.ltb_spec (- v) (- (9223372036854775808))); [lia|].
      destruct (Z.leb_spec 9223372036854775808 (- v)); [lia|reflexivity].
    + destruct (Z.ltb_spec v (- (9223372036854775808))); [lia|].
      destruct (Z.leb_spec 9223372036854775808 v); [lia|reflexivity].
Qed.
