(* ===== verification/Utf8.v ===== *)
(** Packages unicode/utf8, unicode and strings of the Go tool chain, as the name
    checks and the JSON codec use them: decoding and encoding of runes, white
    space, and [TrimSpace], on strings given as lists of bytes. *)
From Stdlib Require Import ZArith Lia String Bool List.
From S2P Require Import Prelude Strconv.
Import ListNotations.
Local Open Scope Z_scope.

(** ** Package unicode/utf8 *)

Definition RuneError : Z := 0xFFFD.
Definition RuneSelf : Z := 0x80.
Definition MaxRune : Z := 0x10FFFF.
Definition surrogateMin : Z := 0xD800.
Definition surrogateMax : Z := 0xDFFF.

Definition tx : Z := 0x80.
Definition t2 : Z := 0xC0.
Definition t3 : Z := 0xE0.
Definition t4 : Z := 0xF0.
Definition maskx : Z := 0x3F.
Definition mask2 : Z := 0x1F.
Definition mask3 : Z := 0x0F.
Definition mask4 : Z := 0x07.
Definition rune1Max : Z := 2 ^ 7 - 1.
Definition rune2Max : Z := 2 ^ 11 - 1.
Definition rune3Max : Z := 2 ^ 16 - 1.
Definition locb : Z := 0x80.
Definition hicb : Z := 0xBF.

(** The table [first], row by row. *)
Definition first : list Z :=
  let xx := 0xF1 in let as_ := 0xF0 in
  let s1 := 0x02 in let s2 := 0x13 in let s3 := 0x03 in let s4 := 0x23 in
  let s5 := 0x34 in let s6 := 0x04 in let s7 := 0x44 in
  repeat as_ 128 ++ repeat xx 64 ++
  [xx; xx] ++ repeat s1 30 ++
  [s2] ++ repeat s3 12 ++ [s4; s3; s3] ++
  [s5; s6; s6; s6; s7] ++ repeat xx 11.

(** The lowest and highest second byte. *)
Definition acceptRanges : list (Z * Z) :=
  [(locb, hicb); (0xA0, hicb); (locb, 0x9F); (0x90, hicb); (locb, 0x8F)].

Definition first_of (c : Z) : Z := nth (Z.to_nat c) first 0.
Definition accept_of (x : Z) : Z * Z := nth (Z.to_nat (Z.shiftr x 4)) acceptRanges (0, 0).

(** Byte [i] of a string, and the slice [s[i:j]]. *)
Definition at_ (s : list Z) (i : Z) : Z := nth (Z.to_nat i) s 0.
Definition slice (s : list Z) (i j : Z) : list Z :=
  firstn (Z.to_nat (j - i)) (skipn (Z.to_nat i) s).
Definition len (s : list Z) : Z := Z.of_nat (length s).

Definition bits (c mask sh : Z) : Z := Z.shiftl (Z.land c mask) sh.

(** The rune at the head of [s] and the number of bytes it takes. *)
Definition DecodeRune (s : list Z) : Z * Z :=
  let n := len s in
  if n <? 1 then (RuneError, 0)
  else
    let s0 := at_ s 0 in
    let x := first_of s0 in
    if 0xF0 <=? x then ((if Z.odd x then RuneError else s0), 1)
    else
      let sz := Z.land x 7 in
      let '(lo, hi) := accept_of x in
      if n <? sz then (RuneError, 1)
      else
        let s1 := at_ s 1 in
        if (s1 <? lo) || (hi <? s1) then (RuneError, 1)
        else if sz <=? 2 then (Z.lor (bits s0 mask2 6) (Z.land s1 maskx), 2)
        else
          let s2 := at_ s 2 in
          if (s2 <? locb) || (hicb <? s2) then (RuneError, 1)
          else if sz <=? 3 then
            (Z.lor (Z.lor (bits s0 mask3 12) (bits s1 maskx 6)) (Z.land s2 maskx), 3)
          else
            let s3 := at_ s 3 in
            if (s3 <? locb) || (hicb <? s3) then (RuneError, 1)
            else (Z.lor (Z.lor (Z.lor (bits s0 mask4 18) (bits s1 maskx 12))
                               (bits s2 maskx 6)) (Z.land s3 maskx), 4).

Definition RuneStart (b : Z) : bool := negb (Z.land b 0xC0 =? 0x80).

(** [for start--; start >= lim; start-- { if RuneStart(p[start]) { break } }] *)
Fixpoint rune_start (fuel : nat) (s : list Z) (start lim : Z) : Z :=
  match fuel with
  | O => start
  | S fuel' =>
      if lim <=? start then
        if RuneStart (at_ s start) then start else rune_start fuel' s (start - 1) lim
      else start
  end.

Definition DecodeLastRune (s : list Z) : Z * Z :=
  let end_ := len s in
  if end_ =? 0 then (RuneError, 0)
  else
    let start := end_ - 1 in
    let r := at_ s start in
    if r <? RuneSelf then (r, 1)
    else
      let lim := Z.max (end_ - 4) 0 in
      let start := Z.max (rune_start 4 s (start - 1) lim) 0 in
      let '(r, size) := DecodeRune (slice s start end_) in
      if start + size =? end_ then (r, size) else (RuneError, 1).

(** A byte conversion keeps the low eight bits. *)
Definition byte_ (z : Z) : Z := Z.land z 0xFF.

Definition AppendRune (p : list Z) (r : Z) : list Z :=
  let i := r mod 2 ^ 32 in
  let enc3 r := [Z.lor t3 (byte_ (Z.shiftr r 12));
                 Z.lor tx (Z.land (byte_ (Z.shiftr r 6)) maskx);
                 Z.lor tx (Z.land (byte_ r) maskx)] in
  p ++
  (if i <=? rune1Max then [byte_ r]
   else if i <=? rune2Max then
     [Z.lor t2 (byte_ (Z.shiftr r 6)); Z.lor tx (Z.land (byte_ r) maskx)]
   else if (MaxRune <? i) || ((surrogateMin <=? i) && (i <=? surrogateMax)) then enc3 RuneError
   else if i <=? rune3Max then enc3 r
   else [Z.lor t4 (byte_ (Z.shiftr r 18));
         Z.lor tx (Z.land (byte_ (Z.shiftr r 12)) maskx);
         Z.lor tx (Z.land (byte_ (Z.shiftr r 6)) maskx);
         Z.lor tx (Z.land (byte_ r) maskx)]).

(** The runes of [for i, r := range s], each with its size.  The length of the
    string is fuel enough: every rune takes a byte or more. *)
Fixpoint runes_fuel (fuel : nat) (s : list Z) : list (Z * Z) :=
  match fuel with
  | O => []
  | S fuel' =>
      match s with
      | [] => []
      | _ => let '(r, n) := DecodeRune s in
             (r, n) :: runes_fuel fuel' (skipn (Z.to_nat n) s)
      end
  end.

Definition runes (s : list Z) : list (Z * Z) := runes_fuel (length s) s.

(** ** Package unicode *)

(** Ranges [lo, hi, stride] of White_Space, and the number of them in Latin-1. *)
Definition White_Space : list (Z * Z * Z) :=
  [(0x0009, 0x000d, 1); (0x0020, 0x0085, 101); (0x00a0, 0x1680, 5600);
   (0x2000, 0x200a, 1); (0x2028, 0x2029, 1); (0x202f, 0x205f, 48);
   (0x3000, 0x3000, 1)].
Definition LatinOffset : nat := 2.
Definition MaxLatin1 : Z := 0xFF.

(** The linear search of [is16]; the table has less than [linearMax] ranges. *)
Fixpoint is16 (ranges : list (Z * Z * Z)) (r : Z) : bool :=
  match ranges with
  | [] => false
  | (lo, hi, stride) :: ranges' =>
      if r <? lo then false
      else if r <=? hi then (stride =? 1) || ((r - lo) mod stride =? 0)
      else is16 ranges' r
  end.

Definition isExcludingLatin (ranges : list (Z * Z * Z)) (r : Z) : bool :=
  match last_option (skipn LatinOffset ranges) with
  | Some (_, hi, _) => (r <=? hi) && is16 (skipn LatinOffset ranges) r
  | None => false
  end.

Definition IsSpace (r : Z) : bool :=
  if r mod 2 ^ 32 <=? MaxLatin1 then
    existsb (Z.eqb r) [9; 10; 11; 12; 13; 32; 0x85; 0xA0]
  else isExcludingLatin White_Space r.

(** ** Package strings *)

(** [indexFunc]: the offset of the first rune where [f] gives [truth], or -1. *)
Fixpoint index_in (f : Z -> bool) (truth : bool) (i : Z) (rs : list (Z * Z)) : Z :=
  match rs with
  | [] => -1
  | (r, n) :: rs' => if Bool.eqb (f r) truth then i else index_in f truth (i + n) rs'
  end.

Definition indexFunc (s : list Z) (f : Z -> bool) (truth : bool) : Z :=
  index_in f truth 0 (runes s).

(** [lastIndexFunc], backwards from [i]; the length of the string is fuel enough. *)
Fixpoint last_index_from (fuel : nat) (s : list Z) (f : Z -> bool) (truth : bool) (i : Z) : Z :=
  match fuel with
  | O => -1
  | S fuel' =>
      if 0 <? i then
        let '(r, size) := DecodeLastRune (slice s 0 i) in
        if Bool.eqb (f r) truth then i - size
        else last_index_from fuel' s f truth (i - size)
      else -1
  end.

Definition lastIndexFunc (s : list Z) (f : Z -> bool) (truth : bool) : Z :=
  last_index_from (length s) s f truth (len s).

Definition TrimLeftFunc (s : list Z) (f : Z -> bool) : list Z :=
  let i := indexFunc s f false in
  if i =? -1 then [] else slice s i (len s).

Definition TrimRightFunc (s : list Z) (f : Z -> bool) : list Z :=
  let i := lastIndexFunc s f false in
  let i := if (0 <=? i) && (RuneSelf <=? at_ s i)
           then i + snd (DecodeRune (slice s i (len s)))
           else i + 1 in
  slice s 0 i.

Definition TrimFunc (s : list Z) (f : Z -> bool) : list Z :=
  TrimRightFunc (TrimLeftFunc s f) f.

Definition asciiSpace (c : Z) : bool := existsb (Z.eqb c) [9; 10; 11; 12; 13; 32].

(** The second loop of [TrimSpace]: drop ASCII white space from the end; a byte
    beyond ASCII hands over to [TrimRightFunc]. *)
Fixpoint trim_end (fuel : nat) (s : list Z) : list Z :=
  match fuel with
  | O => s
  | S fuel' =>
      match s with
      | [] => []
      | _ => let c := at_ s (len s - 1) in
             if RuneSelf <=? c then TrimRightFunc s IsSpace
             else if asciiSpace c then trim_end fuel' (slice s 0 (len s - 1))
             else s
      end
  end.

(** [TrimSpace]: the first loop drops ASCII white space from the front. *)
Fixpoint TrimSpace (s : list Z) : list Z :=
  match s with
  | [] => []
  | c :: s' =>
      if RuneSelf <=? c then TrimFunc s IsSpace
      else if asciiSpace c then TrimSpace s'
      else trim_end (length s) s
  end.

(** * UTF-8: the decoder inverts the encoder, and nothing else decodes *)

(** ** Bit operations as arithmetic *)

Lemma bits_mod c k sh : 0 <= k -> 0 <= sh -> bits c (2 ^ k - 1) sh = (c mod 2 ^ k) * 2 ^ sh.
Proof. intros Hk Hs. unfold bits. now rewrite land_mask, Z.shiftl_mul_pow2. Qed.

(** ** The tables *)

Definition first_closed (c : Z) : Z :=
  if c <? 0x80 then 0xF0 else if c <? 0xC2 then 0xF1 else if c <? 0xE0 then 0x02
  else if c =? 0xE0 then 0x13 else if c =? 0xED then 0x23 else if c <? 0xF0 then 0x03
  else if c =? 0xF0 then 0x34 else if c <? 0xF4 then 0x04 else if c =? 0xF4 then 0x44
  else 0xF1.

Lemma first_of_closed c : is_byte c -> first_of c = first_closed c.
Proof.
  intros Hc.
  assert (E : forallb (fun c => first_of c =? first_closed c) (range 256) = true)
    by (vm_compute; reflexivity).
  rewrite forallb_forall in E. apply Z.eqb_eq, E, range_In. exact Hc.
Qed.

(** ** Valid runes and their encodings *)

Definition valid_rune (r : Z) : Prop :=
  0 <= r < surrogateMin \/ surrogateMax < r <= MaxRune.

Abbreviation enc r := (AppendRune [] r).

Definition enc_closed (r : Z) : list Z :=
  if r <? 0x80 then [r]
  else if r <? 0x800 then [0xC0 + r / 64; 0x80 + r mod 64]
  else if r <? 0x10000 then [0xE0 + r / 4096; 0x80 + r / 64 mod 64; 0x80 + r mod 64]
  else [0xF0 + r / 262144; 0x80 + r / 4096 mod 64; 0x80 + r / 64 mod 64; 0x80 + r mod 64].

(** Case analysis on comparisons of the goal, the impossible ones closed by lia. *)
Ltac zcase :=
  repeat match goal with
  | |- context [?a <? ?b] => destruct (Z.ltb_spec a b); try lia
  | |- context [?a <=? ?b] => destruct (Z.leb_spec a b); try lia
  | |- context [?a =? ?b] => destruct (Z.eqb_spec a b); try lia
  end.

Lemma lead2 q : 0 <= q < 32 -> Z.lor t2 (byte_ q) = 0xC0 + q.
Proof.
  intros Hq. unfold byte_, t2. change 0xFF with (2 ^ 8 - 1).
  rewrite land_mask, Z.mod_small by lia. change 0xC0 with (6 * 2 ^ 5). now apply lor_add.
Qed.

Lemma lead3 q : 0 <= q < 16 -> Z.lor t3 (byte_ q) = 0xE0 + q.
Proof.
  intros Hq. unfold byte_, t3. change 0xFF with (2 ^ 8 - 1).
  rewrite land_mask, Z.mod_small by lia. change 0xE0 with (14 * 2 ^ 4). now apply lor_add.
Qed.

Lemma lead4 q : 0 <= q < 8 -> Z.lor t4 (byte_ q) = 0xF0 + q.
Proof.
  intros Hq. unfold byte_, t4. change 0xFF with (2 ^ 8 - 1).
  rewrite land_mask, Z.mod_small by lia. change 0xF0 with (30 * 2 ^ 3). now apply lor_add.
Qed.

Lemma cont q : 0 <= q -> Z.lor tx (Z.land (byte_ q) maskx) = 0x80 + q mod 64.
Proof.
  intros Hq. unfold byte_, tx, maskx. change 0xFF with (2 ^ 8 - 1). change 0x3F with (2 ^ 6 - 1).
  rewrite !land_mask by lia. change (2 ^ 6) with 64. change (2 ^ 8) with (64 * 4).
  rewrite Z.rem_mul_r by lia. rewrite <- Z.add_mod_idemp_r, Z.mul_comm, Z.mod_mul, Z.add_0_r, Z.mod_mod by lia.
  change 0x80 with (2 * 2 ^ 6). apply lor_add; [lia|]. apply Z.mod_pos_bound. lia.
Qed.

Lemma enc_valid r : valid_rune r -> enc r = enc_closed r.
Proof.
  unfold valid_rune, AppendRune, enc_closed, surrogateMin, surrogateMax, MaxRune,
    rune1Max, rune2Max, rune3Max. intros Hr.
  cbv [surrogateMin surrogateMax MaxRune]. rewrite Z.mod_small by lia. cbn [app].
  rewrite !Z.shiftr_div_pow2 by lia. change (2 ^ 6) with 64.
  change (2 ^ 12) with 4096. change (2 ^ 18) with 262144.
  change (2 ^ 7 - 1) with 127. change (2 ^ 11 - 1) with 2047. change (2 ^ 16 - 1) with 65535.
  zcase; cbn [andb orb]; rewrite ?cont by (try apply Z.div_pos; lia).
  - unfold byte_. change 0xFF with (2 ^ 8 - 1). rewrite land_mask, Z.mod_small by lia. reflexivity.
  - rewrite lead2 by (split; [apply Z.div_pos; lia|apply Z.div_lt_upper_bound; lia]). reflexivity.
  - rewrite lead3 by (split; [apply Z.div_pos; lia|apply Z.div_lt_upper_bound; lia]). reflexivity.
  - rewrite lead3 by (split; [apply Z.div_pos; lia|apply Z.div_lt_upper_bound; lia]). reflexivity.
  - rewrite lead4 by (split; [apply Z.div_pos; lia|apply Z.div_lt_upper_bound; lia]). reflexivity.
Qed.

(** ** The decoder *)

Definition is_cont (c : Z) : bool := (0x80 <=? c) && (c <=? 0xBF).

(** The second byte a first byte admits. *)
Definition second_ok (c0 c1 : Z) : bool :=
  if c0 =? 0xE0 then (0xA0 <=? c1) && (c1 <=? 0xBF)
  else if c0 =? 0xED then (0x80 <=? c1) && (c1 <=? 0x9F)
  else if c0 =? 0xF0 then (0x90 <=? c1) && (c1 <=? 0xBF)
  else if c0 =? 0xF4 then (0x80 <=? c1) && (c1 <=? 0x8F)
  else is_cont c1.

(** The decoder with its tables unfolded. *)
Definition decode_closed (s : list Z) : Z * Z :=
  match s with
  | [] => (RuneError, 0)
  | c0 :: s =>
      if c0 <? 0x80 then (c0, 1)
      else if (c0 <? 0xC2) || (0xF5 <=? c0) then (RuneError, 1)
      else match s with
      | c1 :: s =>
          if negb (second_ok c0 c1) then (RuneError, 1)
          else if c0 <? 0xE0 then (c0 mod 32 * 64 + c1 mod 64, 2)
          else match s with
          | c2 :: s =>
              if negb (is_cont c2) then (RuneError, 1)
              else if c0 <? 0xF0 then (c0 mod 16 * 4096 + c1 mod 64 * 64 + c2 mod 64, 3)
              else match s with
              | c3 :: _ =>
                  if negb (is_cont c3) then (RuneError, 1)
                  else (c0 mod 8 * 262144 + c1 mod 64 * 4096 + c2 mod 64 * 64 + c3 mod 64, 4)
              | [] => (RuneError, 1)
              end
          | [] => (RuneError, 1)
          end
      | [] => (RuneError, 1)
      end
  end.

Lemma land_x c : Z.land c maskx = c mod 64.
Proof. unfold maskx. change 0x3F with (2 ^ 6 - 1). now apply land_mask. Qed.

Lemma bits_x c sh : 0 <= sh -> bits c maskx sh = c mod 64 * 2 ^ sh.
Proof. intros Hs. unfold maskx. change 0x3F with (2 ^ 6 - 1). now apply bits_mod. Qed.

Lemma join2 c0 c1 :
  Z.lor (bits c0 mask2 6) (Z.land c1 maskx) = c0 mod 32 * 64 + c1 mod 64.
Proof.
  unfold mask2. change 0x1F with (2 ^ 5 - 1). rewrite bits_mod, land_x by lia.
  apply lor_add; [lia|]. apply Z.mod_pos_bound. lia.
Qed.

Lemma join3 c0 c1 c2 :
  Z.lor (Z.lor (bits c0 mask3 12) (bits c1 maskx 6)) (Z.land c2 maskx) =
  c0 mod 16 * 4096 + c1 mod 64 * 64 + c2 mod 64.
Proof.
  unfold mask3. change 0x0F with (2 ^ 4 - 1). rewrite bits_mod, bits_x, land_x by lia.
  pose proof (Z.mod_pos_bound c1 64 eq_refl). pose proof (Z.mod_pos_bound c2 64 eq_refl).
  rewrite (lor_add _ (c1 mod 64 * 2 ^ 6)) by lia.
  replace (c0 mod 2 ^ 4 * 2 ^ 12 + c1 mod 64 * 2 ^ 6)
    with ((c0 mod 16 * 64 + c1 mod 64) * 2 ^ 6) by (change (2 ^ 4) with 16; lia).
  rewrite lor_add by lia. lia.
Qed.

Lemma join4 c0 c1 c2 c3 :
  Z.lor (Z.lor (Z.lor (bits c0 mask4 18) (bits c1 maskx 12)) (bits c2 maskx 6))
        (Z.land c3 maskx) =
  c0 mod 8 * 262144 + c1 mod 64 * 4096 + c2 mod 64 * 64 + c3 mod 64.
Proof.
  unfold mask4. change 0x07 with (2 ^ 3 - 1). rewrite bits_mod, !bits_x, land_x by lia.
  pose proof (Z.mod_pos_bound c1 64 eq_refl). pose proof (Z.mod_pos_bound c2 64 eq_refl).
  pose proof (Z.mod_pos_bound c3 64 eq_refl).
  rewrite (lor_add _ (c1 mod 64 * 2 ^ 12)) by lia.
  replace (c0 mod 2 ^ 3 * 2 ^ 18 + c1 mod 64 * 2 ^ 12)
    with ((c0 mod 8 * 64 + c1 mod 64) * 2 ^ 12) by (change (2 ^ 3) with 8; lia).
  rewrite (lor_add _ (c2 mod 64 * 2 ^ 6)) by lia.
  replace ((c0 mod 8 * 64 + c1 mod 64) * 2 ^ 12 + c2 mod 64 * 2 ^ 6)
    with (((c0 mod 8 * 64 + c1 mod 64) * 64 + c2 mod 64) * 2 ^ 6) by lia.
  rewrite lor_add by lia. lia.
Qed.

Lemma len_cons c s : len (c :: s) = len s + 1.
Proof. unfold len. cbn [length]. lia. Qed.

Lemma len_nonneg s : 0 <= len s.
Proof. unfold len. lia. Qed.

Lemma range_test c lo hi : (c <? lo) || (hi <? c) = negb ((lo <=? c) && (c <=? hi)).
Proof. rewrite negb_andb, <- !Z.ltb_antisym. reflexivity. Qed.

(** The decoder after the first byte, its size and bounds given. *)
Definition decode_tail (sz lo hi : Z) (s : list Z) : Z * Z :=
  if len s <? sz then (RuneError, 1)
  else if (at_ s 1 <? lo) || (hi <? at_ s 1) then (RuneError, 1)
  else if sz <=? 2 then (Z.lor (bits (at_ s 0) mask2 6) (Z.land (at_ s 1) maskx), 2)
  else if (at_ s 2 <? locb) || (hicb <? at_ s 2) then (RuneError, 1)
  else if sz <=? 3 then
    (Z.lor (Z.lor (bits (at_ s 0) mask3 12) (bits (at_ s 1) maskx 6)) (Z.land (at_ s 2) maskx), 3)
  else if (at_ s 3 <? locb) || (hicb <? at_ s 3) then (RuneError, 1)
  else (Z.lor (Z.lor (Z.lor (bits (at_ s 0) mask4 18) (bits (at_ s 1) maskx 12))
                     (bits (at_ s 2) maskx 6)) (Z.land (at_ s 3) maskx), 4).

Lemma DecodeRune_head c0 s :
  DecodeRune (c0 :: s) =
  let x := first_of c0 in
  if 0xF0 <=? x then ((if Z.odd x then RuneError else c0), 1)
  else decode_tail (Z.land x 7) (fst (accept_of x)) (snd (accept_of x)) (c0 :: s).
Proof.
  unfold DecodeRune, decode_tail. rewrite len_cons. pose proof (len_nonneg s).
  destruct (Z.ltb_spec (len s + 1) 1); [lia|].
  change (at_ (c0 :: s) 0) with c0. cbv zeta.
  destruct (accept_of (first_of c0)) as [lo hi]. reflexivity.
Qed.

Lemma len_lt_cons c s n : (len (c :: s) <? n) = (len s <? n - 1).
Proof. rewrite len_cons. zcase; reflexivity. Qed.

Lemma len_lt_1 s (n : Z) : n = 1 -> (len s <? n) = match s with [] => true | _ => false end.
Proof.
  intros ->. destruct s as [|c s]; [reflexivity|]. rewrite len_cons.
  pose proof (len_nonneg s). zcase; reflexivity.
Qed.

Lemma decode_tail_2 lo hi c0 s :
  decode_tail 2 lo hi (c0 :: s) =
  match s with
  | c1 :: _ => if negb ((lo <=? c1) && (c1 <=? hi)) then (RuneError, 1)
               else (c0 mod 32 * 64 + c1 mod 64, 2)
  | [] => (RuneError, 1)
  end.
Proof.
  unfold decode_tail. rewrite len_lt_cons, len_lt_1 by lia.
  destruct s as [|c1 s]; [reflexivity|].
  change (at_ (c0 :: c1 :: s) 1) with c1. change (at_ (c0 :: c1 :: s) 0) with c0.
  rewrite range_test, join2. reflexivity.
Qed.

Lemma decode_tail_3 lo hi c0 s :
  decode_tail 3 lo hi (c0 :: s) =
  match s with
  | c1 :: c2 :: _ =>
      if negb ((lo <=? c1) && (c1 <=? hi)) then (RuneError, 1)
      else if negb (is_cont c2) then (RuneError, 1)
      else (c0 mod 16 * 4096 + c1 mod 64 * 64 + c2 mod 64, 3)
  | _ => (RuneError, 1)
  end.
Proof.
  unfold decode_tail. rewrite len_lt_cons. destruct s as [|c1 s]; [reflexivity|].
  rewrite len_lt_cons, len_lt_1 by lia. destruct s as [|c2 s]; [reflexivity|].
  change (at_ (c0 :: c1 :: c2 :: s) 2) with c2.
  change (at_ (c0 :: c1 :: c2 :: s) 1) with c1. change (at_ (c0 :: c1 :: c2 :: s) 0) with c0.
  rewrite !range_test, join3. reflexivity.
Qed.

Lemma decode_tail_4 lo hi c0 s :
  decode_tail 4 lo hi (c0 :: s) =
  match s with
  | c1 :: c2 :: c3 :: _ =>
      if negb ((lo <=? c1) && (c1 <=? hi)) then (RuneError, 1)
      else if negb (is_cont c2) then (RuneError, 1)
      else if negb (is_cont c3) then (RuneError, 1)
      else (c0 mod 8 * 262144 + c1 mod 64 * 4096 + c2 mod 64 * 64 + c3 mod 64, 4)
  | _ => (RuneError, 1)
  end.
Proof.
  unfold decode_tail. rewrite len_lt_cons. destruct s as [|c1 s]; [reflexivity|].
  rewrite len_lt_cons. destruct s as [|c2 s]; [reflexivity|].
  rewrite len_lt_cons, len_lt_1 by lia. destruct s as [|c3 s]; [reflexivity|].
  change (at_ (c0 :: c1 :: c2 :: c3 :: s) 3) with c3.
  change (at_ (c0 :: c1 :: c2 :: c3 :: s) 2) with c2.
  change (at_ (c0 :: c1 :: c2 :: c3 :: s) 1) with c1.
  change (at_ (c0 :: c1 :: c2 :: c3 :: s) 0) with c0.
  rewrite !range_test, join4. reflexivity.
Qed.

Lemma DecodeRune_closed s : Forall is_byte s -> DecodeRune s = decode_closed s.
Proof.
  intros Hs. destruct s as [|c0 s]; [reflexivity|]. inversion Hs as [|? ? H0 Hs0]; subst.
  rewrite DecodeRune_head, first_of_closed by exact H0.
  unfold first_closed, decode_closed, second_ok, is_byte in *.
  zcase; cbn [orb negb]; try reflexivity;
    repeat match goal with
    | |- context [decode_tail ?a ?b ?c] =>
        let a' := eval vm_compute in a in let b' := eval vm_compute in b in
        let c' := eval vm_compute in c in
        progress change (decode_tail a b c) with (decode_tail a' b' c')
    end; rewrite ?decode_tail_2, ?decode_tail_3, ?decode_tail_4;
    unfold is_cont; cbv zeta; subst;
    repeat (reflexivity ||
            match goal with
            | |- context [match ?s with [] => _ | _ => _ end] => is_var s; destruct s
            | |- context [negb (?a && ?b)] => destruct (a && b); cbn [negb]
            end).
Qed.

(** ** Round trip and inversion *)

Ltac euclid := Z.to_euclidean_division_equations; lia.

Lemma enc_bytes r : valid_rune r -> Forall is_byte (enc r).
Proof.
  intros Hr. rewrite enc_valid by exact Hr.
  unfold valid_rune, surrogateMin, surrogateMax, MaxRune in Hr.
  unfold enc_closed, is_byte. zcase; repeat constructor; euclid.
Qed.

Lemma enc_length r : valid_rune r -> 1 <= len (enc r) <= 4.
Proof.
  intros Hr. rewrite enc_valid by exact Hr. unfold enc_closed, len. zcase; cbn; lia.
Qed.

Lemma off_mod (k n a : Z) : 0 <= a < n -> (k * n + a) mod n = a.
Proof. intros Ha. rewrite Z.add_comm, Z.mod_add, Z.mod_small; lia. Qed.

Lemma cont_mod a : 0 <= a < 64 -> (0x80 + a) mod 64 = a.
Proof. exact (off_mod 2 64 a). Qed.

Lemma lead2_mod a : 0 <= a < 32 -> (0xC0 + a) mod 32 = a.
Proof. exact (off_mod 6 32 a). Qed.

Lemma lead3_mod a : 0 <= a < 16 -> (0xE0 + a) mod 16 = a.
Proof. exact (off_mod 14 16 a). Qed.

Lemma lead4_mod a : 0 <= a < 8 -> (0xF0 + a) mod 8 = a.
Proof. exact (off_mod 30 8 a). Qed.

Lemma DecodeRune_enc r rest :
  valid_rune r -> Forall is_byte rest -> DecodeRune (enc r ++ rest) = (r, len (enc r)).
Proof.
  intros Hr Hrest. rewrite DecodeRune_closed by (apply Forall_app; auto using enc_bytes).
  rewrite enc_valid by exact Hr.
  unfold valid_rune, surrogateMin, surrogateMax, MaxRune in Hr.
  unfold enc_closed. destruct (Z.ltb_spec r 0x80).
  { cbn [app decode_closed]. destruct (Z.ltb_spec r 0x80); [reflexivity|lia]. }
  destruct (Z.ltb_spec r 0x800).
  { cbn [app decode_closed]. unfold second_ok, is_cont.
    assert (2 <= r / 64 < 32) by euclid. pose proof (Z.mod_pos_bound r 64 eq_refl).
    zcase; cbn [orb negb andb]; try (exfalso; lia);
      unfold len; cbn [length Z.of_nat]; f_equal; rewrite lead2_mod, cont_mod by lia; euclid. }
  destruct (Z.ltb_spec r 0x10000).
  { cbn [app decode_closed]. unfold second_ok, is_cont.
    assert (0 <= r / 4096 < 16) by euclid. pose proof (Z.mod_pos_bound r 64 eq_refl).
    assert (0 <= r / 64 mod 64 < 64) by euclid.
    assert (Er : r = r / 4096 * 4096 + r / 64 mod 64 * 64 + r mod 64) by euclid.
    generalize dependent (r / 4096). generalize dependent (r / 64 mod 64).
    generalize dependent (r mod 64). intros.
    zcase; cbn [orb negb andb]; try (exfalso; lia); unfold len; cbn [length Z.of_nat]; f_equal;
      rewrite ?lead3_mod, ?cont_mod by lia; lia. }
  cbn [app decode_closed]. unfold second_ok, is_cont.
  assert (0 <= r / 262144 < 5) by euclid. pose proof (Z.mod_pos_bound r 64 eq_refl).
  assert (0 <= r / 64 mod 64 < 64) by euclid. assert (0 <= r / 4096 mod 64 < 64) by euclid.
  assert (Er : r = r / 262144 * 262144 + r / 4096 mod 64 * 4096 + r / 64 mod 64 * 64 + r mod 64)
    by euclid.
  generalize dependent (r / 4096 mod 64). generalize dependent (r / 64 mod 64).
  generalize dependent (r / 262144). generalize dependent (r mod 64). intros.
  zcase; cbn [orb negb andb]; try (exfalso; lia); unfold len; cbn [length Z.of_nat]; f_equal;
    rewrite ?lead4_mod, ?cont_mod by lia; lia.
Qed.

(** What the decoder accepts is an encoding; the rest is one byte of error. *)
Lemma DecodeRune_cases c0 s :
  Forall is_byte (c0 :: s) ->
  (exists r rest, valid_rune r /\ c0 :: s = enc r ++ rest) \/
  (DecodeRune (c0 :: s) = (RuneError, 1) /\ 0x80 <= c0).
Proof.
  intros Hs. rewrite DecodeRune_closed by exact Hs. inversion Hs as [|? ? H0 Hs0]; subst.
  unfold is_byte in *. cbn [decode_closed]. unfold valid_rune, surrogateMin, surrogateMax, MaxRune.
  destruct (Z.ltb_spec c0 0x80).
  { left. exists c0, s. split; [lia|]. rewrite enc_valid by (left; unfold surrogateMin; lia).
    unfold enc_closed. destruct (Z.ltb_spec c0 0x80); [reflexivity|lia]. }
  destruct ((c0 <? 0xC2) || (0xF5 <=? c0)) eqn:E0; [right; split; [reflexivity|lia]|].
  apply orb_false_iff in E0 as [E1 E2]. apply Z.ltb_ge in E1. apply Z.leb_gt in E2.
  destruct s as [|c1 s]; [right; split; [reflexivity|lia]|].
  destruct (second_ok c0 c1) eqn:S1; cbn [negb]; [|right; split; [reflexivity|lia]].
  assert (C1 : 0x80 <= c1 <= 0xBF).
  { revert S1. unfold second_ok, is_cont. zcase; cbn; intros; try discriminate; lia. }
  destruct (Z.ltb_spec c0 0xE0).
  { left. set (r := (c0 - 0xC0) * 64 + (c1 - 0x80)). exists r, s.
    assert (Hr : 0x80 <= r < 0x800) by (unfold r; lia). split; [lia|].
    rewrite enc_valid by (left; unfold surrogateMin; lia). unfold enc_closed.
    zcase. unfold r. cbn [app]. repeat f_equal; euclid. }
  destruct s as [|c2 s]; [right; split; [reflexivity|lia]|].
  destruct (is_cont c2) eqn:S2; cbn [negb]; [|right; split; [reflexivity|lia]].
  apply andb_true_iff in S2 as [S2 S2']. apply Z.leb_le in S2, S2'.
  destruct (Z.ltb_spec c0 0xF0).
  { left. set (r := (c0 - 0xE0) * 4096 + (c1 - 0x80) * 64 + (c2 - 0x80)). exists r, s.
    assert (Hr : 0x800 <= r < 0xD800 \/ 0xDFFF < r < 0x10000).
    { revert S1. unfold r, second_ok, is_cont. zcase; cbn; intros; try discriminate; lia. }
    split; [lia|].
    rewrite enc_valid by (unfold valid_rune, surrogateMin, surrogateMax, MaxRune; lia).
    unfold enc_closed. zcase; unfold r; cbn [app]; repeat f_equal; euclid. }
  destruct s as [|c3 s]; [right; split; [reflexivity|lia]|].
  destruct (is_cont c3) eqn:S3; cbn [negb]; [|right; split; [reflexivity|lia]].
  apply andb_true_iff in S3 as [S3 S3']. apply Z.leb_le in S3, S3'.
  left. set (r := (c0 - 0xF0) * 262144 + (c1 - 0x80) * 4096 + (c2 - 0x80) * 64 + (c3 - 0x80)).
  exists r, s.
  assert (Hr : 0x10000 <= r <= 0x10FFFF).
  { revert S1. unfold r, second_ok, is_cont. zcase; cbn; intros; try discriminate; lia. }
  split; [lia|].
  rewrite enc_valid by (unfold valid_rune, surrogateMin, surrogateMax, MaxRune; lia).
  unfold enc_closed. zcase; unfold r; cbn [app]; repeat f_equal; euclid.
Qed.

(** ** Strings of whole runes *)

(** [s] is the encoding of the runes [rs]. *)
Definition encodes (s : list Z) (rs : list Z) : Prop :=
  Forall valid_rune rs /\ s = concat (map (fun r => enc r) rs).

Lemma encodes_nil : encodes [] [].
Proof. split; [constructor|reflexivity]. Qed.

Lemma encodes_cons r s rs : valid_rune r -> encodes s rs -> encodes (enc r ++ s) (r :: rs).
Proof. intros Hr [Hv ->]. split; [now constructor|reflexivity]. Qed.

Lemma encodes_app s1 s2 rs1 rs2 :
  encodes s1 rs1 -> encodes s2 rs2 -> encodes (s1 ++ s2) (rs1 ++ rs2).
Proof.
  intros [H1 ->] [H2 ->]. split; [now apply Forall_app|].
  now rewrite map_app, concat_app.
Qed.

Lemma encodes_bytes s rs : encodes s rs -> Forall is_byte s.
Proof.
  intros [Hv ->]. induction Hv as [|r rs Hr Hv IH]; [constructor|].
  apply Forall_app. auto using enc_bytes.
Qed.

Lemma enc_cons r : valid_rune r -> exists c s, enc r = c :: s.
Proof.
  intros Hr. pose proof (enc_length r Hr) as Hl. destruct (enc r) as [|c s]; [cbn in Hl; lia|eauto].
Qed.

Lemma len_app s t : len (s ++ t) = len s + len t.
Proof. unfold len. rewrite length_app. lia. Qed.

Lemma skipn_len_app (s t : list Z) : skipn (Z.to_nat (len s)) (s ++ t) = t.
Proof.
  unfold len. rewrite Nat2Z.id, skipn_app, skipn_all, Nat.sub_diag. reflexivity.
Qed.

Lemma runes_fuel_encodes s rs fuel :
  encodes s rs -> (length s <= fuel)%nat ->
  runes_fuel fuel s = map (fun r => (r, len (enc r))) rs.
Proof.
  intros [Hv ->]. revert fuel.
  induction Hv as [|r rs Hr Hv IH]; intros fuel Hf.
  { destruct fuel; reflexivity. }
  destruct (enc_cons r Hr) as (c & s & E).
  assert (Hb : Forall is_byte (concat (map (fun r => enc r) rs)))
    by (eapply encodes_bytes; split; [exact Hv|reflexivity]).
  cbn [map concat] in *. rewrite length_app, E in Hf. cbn [length] in Hf.
  destruct fuel as [|fuel]; [lia|].
  pose proof (DecodeRune_enc r _ Hr Hb) as D. cbn [runes_fuel]. rewrite E in *. cbn [app] in *.
  rewrite D. change (c :: s ++ concat (map (fun r => enc r) rs))
    with ((c :: s) ++ concat (map (fun r => enc r) rs)).
  rewrite skipn_len_app. f_equal. apply IH. lia.
Qed.

Lemma runes_encodes s rs : encodes s rs -> map fst (runes s) = rs.
Proof.
  intros H. unfold runes. rewrite (runes_fuel_encodes s rs) by auto.
  rewrite map_map. apply map_id.
Qed.

Lemma skipn_Forall {A} (P : A -> Prop) n l : Forall P l -> Forall P (skipn n l).
Proof. revert n. induction l; intros [|n]; cbn; inversion 1; auto. Qed.

Lemma firstn_Forall {A} (P : A -> Prop) n l : Forall P l -> Forall P (firstn n l).
Proof.
  intros H. rewrite <- (firstn_skipn n l) in H. apply Forall_app in H. tauto.
Qed.

(** A string in which no rune is the error rune is made of whole runes. *)
Lemma runes_valid fuel s :
  Forall is_byte s -> (length s <= fuel)%nat ->
  Forall (fun p => fst p <> RuneError) (runes_fuel fuel s) ->
  encodes s (map fst (runes_fuel fuel s)).
Proof.
  revert s. induction fuel as [|fuel IH]; intros s Hb Hf He.
  { destruct s; [apply encodes_nil|cbn in Hf; lia]. }
  destruct s as [|c s]; [apply encodes_nil|].
  destruct (DecodeRune_cases c s Hb) as [(r & rest & Hr & E) | [D Hc]].
  - cbn [runes_fuel] in *. rewrite E in *.
    assert (Hrest : Forall is_byte rest) by (apply Forall_app in Hb; tauto).
    rewrite (DecodeRune_enc r rest Hr Hrest) in *. rewrite skipn_len_app in *.
    cbn [map fst]. apply encodes_cons; [exact Hr|]. apply IH; [exact Hrest| |now inversion He].
    destruct (enc_cons r Hr) as (c' & s' & E').
    rewrite length_app, E' in Hf. cbn [length] in Hf. lia.
  - cbn [runes_fuel] in He. rewrite D in He. inversion He as [|? ? H1]. exfalso. now apply H1.
Qed.

(** ** TrimSpace *)

Definition all_space (rs : list Z) : Prop := Forall (fun r => IsSpace r = true) rs.

(** The string is made of white space only. *)
Definition blank (s : list Z) : Prop := exists rs, encodes s rs /\ all_space rs.

Lemma blank_nil : blank [].
Proof. exists []. split; [apply encodes_nil|constructor]. Qed.

Lemma blank_snoc s r : blank s -> valid_rune r -> IsSpace r = true -> blank (s ++ enc r).
Proof.
  intros (rs & He & Hs) Hr Hsp. exists (rs ++ [r]). split.
  - apply encodes_app; [exact He|]. rewrite <- (app_nil_r (enc r)).
    apply encodes_cons; [exact Hr|apply encodes_nil].
  - apply Forall_app. split; [exact Hs|]. repeat constructor. exact Hsp.
Qed.

Lemma space_not_error r : IsSpace r = true -> r <> RuneError.
Proof. intros H ->. discriminate H. Qed.

Lemma runes_space s :
  Forall is_byte s -> (blank s <-> all_space (map fst (runes s))).
Proof.
  intros Hb. split.
  - intros (rs & He & Hs). now rewrite (runes_encodes s rs He).
  - intros Hs. exists (map fst (runes s)). split; [|exact Hs].
    apply runes_valid; [exact Hb|auto|].
    unfold all_space in Hs. rewrite Forall_map in Hs. eapply Forall_impl; [|exact Hs].
    intros p Hp. now apply space_not_error.
Qed.

Lemma blank_head c s :
  blank (c :: s) -> exists r, IsSpace r = true /\ fst (DecodeRune (c :: s)) = r.
Proof.
  intros (rs & [Hv He] & Hs). destruct rs as [|r rs]; [discriminate He|].
  inversion Hv as [|? ? Hr Hv']; inversion Hs as [|? ? Hsp Hs']; subst.
  exists r. split; [exact Hsp|]. cbn [map concat] in He. rewrite He, DecodeRune_enc; auto.
  eapply encodes_bytes. split; [exact Hv'|reflexivity].
Qed.

Lemma slice_all s : slice s 0 (len s) = s.
Proof. unfold slice, len. rewrite Z.sub_0_r, Nat2Z.id. apply firstn_all. Qed.

Lemma slice_to_end s i : 0 <= i <= len s -> slice s i (len s) = skipn (Z.to_nat i) s.
Proof.
  intros Hi. unfold slice. apply firstn_all2. rewrite length_skipn. unfold len in *. lia.
Qed.

Lemma len_slice s i j : 0 <= i <= j -> j <= len s -> len (slice s i j) = j - i.
Proof.
  intros Hij Hj. unfold slice, len in *. rewrite length_firstn, length_skipn. lia.
Qed.

Lemma slice_split s i j :
  0 <= i <= j -> j <= len s -> slice s 0 j = slice s 0 i ++ slice s i j.
Proof.
  intros Hij Hj. unfold slice. rewrite !Z.sub_0_r, skipn_O.
  replace (Z.to_nat j) with (Z.to_nat i + Z.to_nat (j - i))%nat by lia.
  rewrite <- (firstn_skipn (Z.to_nat i) s) at 1.
  assert (Hl : length (firstn (Z.to_nat i) s) = Z.to_nat i)
    by (rewrite length_firstn; unfold len in Hj; lia).
  rewrite firstn_app, Hl. f_equal; [|f_equal; lia].
  apply firstn_all2. lia.
Qed.

Lemma slice_bytes s i j : Forall is_byte s -> Forall is_byte (slice s i j).
Proof. intros H. unfold slice. apply firstn_Forall, skipn_Forall, H. Qed.

Lemma at_snoc s : s <> [] -> s = slice s 0 (len s - 1) ++ [at_ s (len s - 1)].
Proof.
  intros Hne. destruct (exists_last Hne) as (s' & c & ->).
  rewrite len_app. change (len [c]) with 1. rewrite Z.add_simpl_r.
  unfold slice, at_, len. change (Z.to_nat 0) with O.
  rewrite skipn_O, Z.sub_0_r, Nat2Z.id, firstn_app, Nat.sub_diag.
  rewrite firstn_all, app_nil_r, app_nth2, Nat.sub_diag; auto.
Qed.

(** Backwards decoding takes at least one byte and stays inside the string; a
    white space it reports is a whole encoding at the end. *)
Lemma rune_start_le fuel s start lim :
  rune_start fuel s start lim <= start.
Proof.
  revert start. induction fuel as [|fuel IH]; intros start; cbn [rune_start]; [lia|].
  case_if; [|lia]. case_if; [lia|]. specialize (IH (start - 1)). lia.
Qed.

Lemma enc_ascii r : 0 <= r < RuneSelf -> enc r = [r].
Proof.
  unfold RuneSelf. intros Hr. rewrite enc_valid by (left; unfold surrogateMin; lia).
  unfold enc_closed. zcase. reflexivity.
Qed.

Lemma DecodeLastRune_spec s r size :
  Forall is_byte s -> s <> [] -> DecodeLastRune s = (r, size) ->
  1 <= size <= len s /\
  (IsSpace r = true -> exists pre, s = pre ++ enc r /\ valid_rune r /\ size = len (enc r)).
Proof.
  intros Hb Hne. pose proof (at_snoc s Hne) as Es. unfold DecodeLastRune.
  assert (Hl : 1 <= len s) by (destruct s; [easy|rewrite len_cons; pose proof (len_nonneg s); lia]).
  destruct (Z.eqb_spec (len s) 0); [lia|].
  destruct (Z.ltb_spec (at_ s (len s - 1)) RuneSelf) as [Ha|Ha].
  - intros E. injection E as <- <-. split; [lia|]. intros _.
    assert (Hc : is_byte (at_ s (len s - 1))).
    { rewrite Es in Hb. apply Forall_app in Hb. destruct Hb as [_ Hb]. now inversion Hb. }
    unfold is_byte, RuneSelf in *. exists (slice s 0 (len s - 1)).
    rewrite enc_ascii by (unfold RuneSelf; lia). repeat split; [exact Es|].
    left. unfold surrogateMin. lia.
  - set (st := Z.max (rune_start 4 s (len s - 1 - 1) (Z.max (len s - 4) 0)) 0).
    assert (Hst : 0 <= st <= len s - 1).
    { unfold st. pose proof (rune_start_le 4 s (len s - 1 - 1) (Z.max (len s - 4) 0)). lia. }
    pose proof (len_slice s st (len s) ltac:(lia) ltac:(lia)) as Hsl.
    pose proof (slice_bytes s st (len s) Hb) as Hsb.
    pose proof (slice_split s st (len s) ltac:(lia) ltac:(lia)) as Hsp. rewrite slice_all in Hsp.
    destruct (DecodeRune (slice s st (len s))) as [r' sz] eqn:D.
    destruct (slice s st (len s)) as [|c t] eqn:Et; [cbn in Hsl; lia|].
    destruct (Z.eqb_spec (st + sz) (len s)); intros E; injection E as <- <-; split; try lia.
    + intros Hs. destruct (DecodeRune_cases c t Hsb) as [(r & rest & Hr & Er) | [D' _]].
      * rewrite Er in *.
        assert (Hrest : Forall is_byte rest) by (apply Forall_app in Hsb; tauto).
        rewrite (DecodeRune_enc r rest Hr Hrest) in D. injection D as <- <-.
        rewrite len_app in Hsl. pose proof (len_nonneg rest).
        destruct rest as [|c' rest]; [|rewrite len_cons in Hsl; pose proof (len_nonneg rest); lia].
        rewrite app_nil_r in Hsp. eauto.
      * rewrite D' in D. injection D as <- <-. discriminate Hs.
    + intros Hs. discriminate Hs.
Qed.

Lemma last_index_space fuel s i :
  Forall is_byte s -> 0 <= i <= len s -> (Z.to_nat i <= fuel)%nat ->
  last_index_from fuel s IsSpace false i < 0 -> blank (slice s 0 i).
Proof.
  intros Hb. revert i. induction fuel as [|fuel IH]; intros i Hi Hf; cbn [last_index_from].
  { intros _. replace i with 0 by lia. apply blank_nil. }
  destruct (Z.ltb_spec 0 i); [|intros _; replace i with 0 by lia; apply blank_nil].
  pose proof (len_slice s 0 i ltac:(lia) ltac:(lia)) as Hsl.
  destruct (DecodeLastRune (slice s 0 i)) as [r size] eqn:D.
  assert (Hne : slice s 0 i <> []) by (intros E; rewrite E in Hsl; cbn in Hsl; lia).
  destruct (DecodeLastRune_spec _ r size (slice_bytes _ _ _ Hb) Hne D) as [Hsz Hsp].
  destruct (IsSpace r) eqn:Er; cbn [Bool.eqb]; [|lia].
  intros Hneg. destruct (Hsp eq_refl) as (pre & E & Hr & Esz).
  assert (Epre : pre = slice s 0 (i - size)).
  { pose proof (slice_split s (i - size) i ltac:(lia) ltac:(lia)) as Hss.
    rewrite E in Hss. apply app_inv_tail_iff with (l := enc r).
    rewrite Hss. f_equal. symmetry.
    assert (El : length (slice s 0 (i - size)) = length pre).
    { apply (f_equal len) in E. rewrite len_app in E.
      pose proof (len_slice s 0 (i - size) ltac:(lia) ltac:(lia)) as Hl. unfold len in *. lia. }
    apply (f_equal (skipn (length pre))) in Hss. rewrite <- El in Hss at 2.
    rewrite !skipn_app, !skipn_all, !Nat.sub_diag in Hss. exact Hss. }
  rewrite E, Epre. apply blank_snoc; [|exact Hr|exact Er].
  apply IH; [lia|lia|exact Hneg].
Qed.

Lemma DecodeRune_size s r n : Forall is_byte s -> s <> [] -> DecodeRune s = (r, n) -> 1 <= n.
Proof.
  intros Hb Hne D. destruct s as [|c s]; [easy|].
  destruct (DecodeRune_cases c s Hb) as [(r' & rest & Hr & E) | [D' _]].
  - rewrite E in *. assert (Hrest : Forall is_byte rest) by (apply Forall_app in Hb; tauto).
    rewrite (DecodeRune_enc r' rest Hr Hrest) in D. injection D as <- <-.
    now apply enc_length.
  - rewrite D' in D. injection D as <- <-. lia.
Qed.

Lemma TrimRightFunc_nil s :
  Forall is_byte s -> TrimRightFunc s IsSpace = [] -> blank s.
Proof.
  intros Hb. unfold TrimRightFunc, lastIndexFunc.
  destruct (Z.eq_dec (len s) 0) as [E0|E0].
  { intros _. destruct s; [apply blank_nil|rewrite len_cons in E0; pose proof (len_nonneg s); lia]. }
  pose proof (len_nonneg s) as Hl.
  destruct (Z.ltb_spec (last_index_from (length s) s IsSpace false (len s)) 0) as [Hneg|Hpos].
  - intros _. rewrite <- (slice_all s). apply (last_index_space (length s)); auto; unfold len; lia.
  - set (i := last_index_from (length s) s IsSpace false (len s)) in *.
    set (j := if _ && _ then _ else _). intros E.
    assert (Hj : 1 <= j).
    { unfold j. case_if; [|lia]. apply andb_true_iff in Heqb as [_ Ha].
      apply Z.leb_le in Ha. destruct (Z.ltb_spec i (len s)) as [Hi|Hi].
      - destruct (DecodeRune (slice s i (len s))) as [r n] eqn:D. cbn [snd].
        assert (1 <= n); [|lia]. apply (DecodeRune_size _ r n) in D; [exact D|now apply slice_bytes|].
        intros En. apply (f_equal len) in En. rewrite len_slice in En by lia. cbn in En. lia.
      - exfalso. unfold at_, RuneSelf in Ha. rewrite nth_overflow in Ha by (unfold len in *; lia). lia. }
    exfalso. apply (f_equal (@length Z)) in E. unfold slice in E.
    rewrite length_firstn, length_skipn in E. cbn in E. unfold len in *. lia.
Qed.

Lemma index_in_spec f fuel s off :
  Forall is_byte s -> (length s <= fuel)%nat -> 0 <= off ->
  let i := index_in f false off (runes_fuel fuel s) in
  (i = -1 /\ Forall (fun p => f (fst p) = true) (runes_fuel fuel s)) \/
  (off <= i < off + len s /\ f (fst (DecodeRune (skipn (Z.to_nat (i - off)) s))) = false).
Proof.
  revert s off. induction fuel as [|fuel IH]; intros s off Hb Hf Ho i.
  { left. split; [reflexivity|constructor]. }
  destruct s as [|c s]; [left; split; [reflexivity|constructor]|].
  unfold i. clear i. cbn [runes_fuel].
  destruct (DecodeRune (c :: s)) as [r n] eqn:D. cbn [index_in].
  pose proof (DecodeRune_size (c :: s) r n Hb ltac:(discriminate) D) as Hn.
  destruct (f r) eqn:Ef; cbn [Bool.eqb].
  - destruct (IH (skipn (Z.to_nat n) (c :: s)) (off + n)) as [[E H]|[Hi H]].
    + now apply skipn_Forall.
    + rewrite length_skipn. cbn [length] in *. lia.
    + lia.
    + left. split; [exact E|]. constructor; [exact Ef|exact H].
    + right. unfold len in *. rewrite length_skipn in Hi. split; [cbn [length] in *; lia|].
      rewrite skipn_skipn in H.
      replace (Z.to_nat (index_in f false (off + n) (runes_fuel fuel (skipn (Z.to_nat n) (c :: s)))
                         - off))
        with (Z.to_nat (index_in f false (off + n) (runes_fuel fuel (skipn (Z.to_nat n) (c :: s)))
                        - (off + n)) + Z.to_nat n)%nat by lia.
      exact H.
  - right. rewrite len_cons. pose proof (len_nonneg s). split; [lia|].
    replace (off - off) with 0 by lia. cbn [Z.to_nat skipn]. now rewrite D.
Qed.

(** Trimming from the left leaves nothing, or a string that starts with no space. *)
Lemma TrimLeftFunc_spec s :
  Forall is_byte s ->
  (TrimLeftFunc s IsSpace = [] /\ blank s) \/
  (exists c t, TrimLeftFunc s IsSpace = c :: t /\ Forall is_byte (c :: t) /\
               ~ blank (c :: t) /\ ~ blank s).
Proof.
  intros Hb. unfold TrimLeftFunc, indexFunc, runes.
  destruct (index_in_spec IsSpace (length s) s 0 Hb (le_n _) ltac:(lia)) as [[E H]|[Hi H]].
  - left. rewrite E. split; [reflexivity|]. apply (runes_space s Hb).
    unfold all_space. rewrite Forall_map. exact H.
  - right. destruct (Z.eqb_spec (index_in IsSpace false 0 (runes_fuel (length s) s)) (-1)) as [E|_].
    { lia. }
    set (i := index_in IsSpace false 0 (runes_fuel (length s) s)) in *.
    rewrite slice_to_end by lia. rewrite Z.sub_0_r in H.
    destruct (skipn (Z.to_nat i) s) as [|c t] eqn:E.
    { apply (f_equal (@length Z)) in E. rewrite length_skipn in E. unfold len in Hi. cbn in E. lia. }
    exists c, t. split; [reflexivity|]. split; [rewrite <- E; now apply skipn_Forall|]. split.
    + intros Hbl. apply blank_head in Hbl as (r & Hr & E'). congruence.
    + intros Hbl. apply (runes_space s Hb) in Hbl. unfold all_space in Hbl. rewrite Forall_map in Hbl.
      assert (E1 : index_in IsSpace false 0 (runes s) = -1).
      { generalize 0 at 1. induction Hbl as [|p l Hp Hl IH]; intros off; [reflexivity|].
        destruct p as [r n]. cbn [index_in fst] in *. rewrite Hp. cbn [Bool.eqb]. apply IH. }
      unfold runes in E1. fold i in E1. lia.
Qed.

Lemma ascii_blank_cons c s :
  Forall is_byte (c :: s) -> c < RuneSelf -> (blank (c :: s) <-> asciiSpace c = true /\ blank s).
Proof.
  intros Hb Hc. inversion Hb as [|? ? H0 Hs]; subst. unfold is_byte in H0.
  assert (He : enc c = [c]) by (apply enc_ascii; lia).
  assert (Hr : valid_rune c) by (left; unfold surrogateMin, RuneSelf in *; lia).
  assert (Hsp : IsSpace c = asciiSpace c).
  { assert (E : forallb (fun c => Bool.eqb (IsSpace c) (asciiSpace c)) (range 128) = true)
      by (vm_compute; reflexivity).
    rewrite forallb_forall in E. apply Bool.eqb_prop, E, range_In. unfold RuneSelf in Hc. lia. }
  rewrite <- Hsp. split.
  - intros (rs & [Hv E] & Ha). destruct rs as [|r rs]; [discriminate E|].
    inversion Hv as [|? ? Hr' Hv']; inversion Ha as [|? ? Hr'' Ha']; subst.
    assert (Hrest : Forall is_byte (concat (map (fun r => enc r) rs)))
      by (eapply encodes_bytes; split; [exact Hv'|reflexivity]).
    cbn [map concat] in E.
    pose proof (DecodeRune_enc r _ Hr' Hrest) as D. rewrite <- E in D.
    pose proof (DecodeRune_enc c s Hr Hs) as D'. rewrite He in D'. cbn [app] in D'.
    rewrite D' in D. injection D as <- _. rewrite He in E. injection E as E.
    split; [exact Hr''|]. exists rs. split; [split; assumption|exact Ha'].
  - intros [Hsp' (rs & He' & Ha)]. exists (c :: rs). split.
    + change (c :: s) with ([c] ++ s). rewrite <- He. now apply encodes_cons.
    + now constructor.
Qed.

Lemma trim_end_nil fuel s : Forall is_byte s -> trim_end fuel s = [] -> blank s.
Proof.
  revert s. induction fuel as [|fuel IH]; intros s Hb; cbn [trim_end].
  { intros ->. apply blank_nil. }
  destruct s as [|c0 s0] eqn:Es; [intros _; apply blank_nil|]. rewrite <- Es in *.
  assert (Hne : s <> []) by (rewrite Es; discriminate).
  destruct (Z.leb_spec RuneSelf (at_ s (len s - 1))); [now apply TrimRightFunc_nil|].
  destruct (asciiSpace (at_ s (len s - 1))) eqn:Ea; [|intros E; rewrite E in Hne; easy].
  intros E. apply IH in E; [|now apply slice_bytes].
  rewrite (at_snoc s Hne) in Hb |- *. apply Forall_app in Hb as [_ Hb].
  inversion Hb as [|? ? Hc _]; subst x l. unfold is_byte in Hc.
  rewrite <- (enc_ascii (at_ s (len s - 1))) by lia.
  apply blank_snoc; [exact E|left; unfold surrogateMin, RuneSelf in *; lia|].
  assert (Hl : blank [at_ s (len s - 1)]) by
    (apply ascii_blank_cons; auto using blank_nil).
  apply blank_head in Hl as (r & Hr & E'). rewrite <- (app_nil_r [_]) in E'.
  rewrite <- (enc_ascii (at_ s (len s - 1))) in E' by lia.
  rewrite DecodeRune_enc in E'; auto; [cbn in E'; congruence|].
  left; unfold surrogateMin, RuneSelf in *; lia.
Qed.

Lemma TrimSpace_nil_iff s :
  Forall is_byte s -> (TrimSpace s = [] <-> Forall (fun p => IsSpace (fst p) = true) (runes s)).
Proof.
  intros Hb. pose proof (runes_space s Hb) as Hrs. unfold all_space in Hrs.
  rewrite Forall_map in Hrs. rewrite <- Hrs. clear Hrs.
  induction Hb as [|c s Hc Hs IH]; [split; [intros _; apply blank_nil|reflexivity]|].
  assert (Hb : Forall is_byte (c :: s)) by (constructor; assumption).
  cbn [TrimSpace]. destruct (Z.leb_spec RuneSelf c).
  - unfold TrimFunc. destruct (TrimLeftFunc_spec (c :: s) Hb) as [[E B]|(c' & t & E & Hb' & N & N')];
      rewrite E.
    + split; [intros _; exact B|reflexivity].
    + split; [|contradiction]. intros E'. apply TrimRightFunc_nil in E'; [contradiction|exact Hb'].
  - rewrite (ascii_blank_cons c s) by assumption.
    destruct (asciiSpace c) eqn:Ea; [rewrite IH; tauto|].
    split; [|intros [E _]; discriminate E].
    intros E. apply trim_end_nil in E; [|exact Hb].
    apply ascii_blank_cons in E; [|exact Hb|assumption]. now rewrite Ea in E.
Qed.

(** [strings.TrimSpace(s) == ""], the test the name checks make, holds exactly
    when every rune of the string is white space: the ASCII fast paths, the
    forward scan and the backward scan by [DecodeLastRune] all agree with that,
    also on invalid UTF-8, whose bytes are never white space. *)
Theorem TrimSpace_blank (x : string) :
  TrimSpace (bytes x) = [] <-> Forall (fun p => IsSpace (fst p) = true) (runes (bytes x)).
Proof. apply TrimSpace_nil_iff, bytes_range. Qed.
