(* ===== verification/Itoa.v ===== *)
(** strconv/itoa.go: printing integers, and that [Atoi] reads back what it prints. *)
From Stdlib Require Import ZArith Lia String Ascii Bool List.
From S2P Require Import Prelude Strconv.
Import ListNotations.
Local Open Scope Z_scope.

Definition nSmalls : Z := 100.

(** The byte of a digit value: [digits[d]]. *)
Definition digit_byte (d : Z) : Z := if d <? 10 then 48 + d else 87 + d.

(** [smallsString[i]]: the tens and the units of [i/2], alternately. *)
Definition smallsString (i : Z) : Z :=
  if Z.even i then 48 + i / 2 / 10 else 48 + (i / 2) mod 10.

Definition small (i : Z) : list Z :=
  if i <? 10 then [digit_byte i] else [smallsString (i * 2); smallsString (i * 2 + 1)].

(** The loop of the decimal case: two digits a turn, written from the right. *)
Fixpoint decimal_loop (fuel : nat) (us : Z) (a : list Z) : list Z :=
  match fuel with
  | O => a
  | S fuel =>
      if 100 <=? us then
        let is_ := us mod 100 * 2 in
        decimal_loop fuel (us / 100) (smallsString is_ :: smallsString (is_ + 1) :: a)
      else
        let is_ := us * 2 in
        let a := smallsString (is_ + 1) :: a in
        if 10 <=? us then smallsString is_ :: a else a
  end.

(** The loops of the other cases. *)
Fixpoint shift_loop (fuel : nat) (shift u : Z) (a : list Z) : list Z :=
  match fuel with
  | O => a
  | S fuel =>
      let b := Z.shiftl 1 shift in
      if b <=? u then
        shift_loop fuel shift (Z.shiftr u shift) (digit_byte (Z.land u (b - 1)) :: a)
      else digit_byte u :: a
  end.

Fixpoint general_loop (fuel : nat) (b u : Z) (a : list Z) : list Z :=
  match fuel with
  | O => a
  | S fuel =>
      if b <=? u then
        let q := u / b in general_loop fuel b q (digit_byte (u - q * b) :: a)
      else digit_byte u :: a
  end.

Definition isPowerOfTwo (x : Z) : bool := Z.land x (x - 1) =? 0.

(** A conversion fills at most 65 places of the buffer. *)
Definition formatBits (dst : list Z) (u base : Z) (neg : bool) : list Z :=
  let u := if neg then wrap64 (- u) else u in
  let a :=
    if base =? 10 then decimal_loop 65 u []
    else if isPowerOfTwo base then shift_loop 65 (Z.log2 base) u []
    else general_loop 65 base u [] in
  (dst ++ (if neg then 45 :: a else a))%list.

Definition AppendInt (dst : list Z) (i base : Z) : list Z :=
  if (0 <=? i) && (i <? nSmalls) && (base =? 10) then (dst ++ small i)%list
  else formatBits dst (wrap64 i) base (i <? 0).

Definition FormatInt (i base : Z) : list Z := AppendInt [] i base.

Definition Itoa (i : Z) : list Z := FormatInt i 10.

(** * Printing and parsing *)

Lemma smalls_tens d : 0 <= d < 100 -> smallsString (d * 2) = 48 + d / 10.
Proof.
  intros H. unfold smallsString. rewrite Z.even_mul, orb_true_r. now rewrite Z.div_mul by lia.
Qed.

Lemma smalls_units d : 0 <= d < 100 -> smallsString (d * 2 + 1) = 48 + d mod 10.
Proof.
  intros H. unfold smallsString. rewrite Z.even_add, Z.even_mul, orb_true_r. cbn [Bool.eqb Z.even].
  replace ((d * 2 + 1) / 2) with d by (rewrite Z.div_add_l by lia; cbn; lia). reflexivity.
Qed.

Lemma is_digit_48 d : 0 <= d < 10 -> is_digit (48 + d) = true.
Proof. intros H. unfold is_digit. apply andb_true_iff. split; apply Z.leb_le; lia. Qed.

(** The digits written in front of [a] are the value in front of it. *)
Lemma decimal_loop_value fuel : forall us a,
  0 <= us < 100 ^ Z.of_nat fuel -> (0 < fuel)%nat ->
  exists p, decimal_loop fuel us a = (p ++ a)%list /\ p <> [] /\
    (forall n rest, digits_value n (p ++ rest) =
                    digits_value (n * 10 ^ Z.of_nat (length p) + us) rest) /\
    Forall (fun c => is_digit c = true) p.
Proof.
  induction fuel as [|fuel IH]; intros us a Hus Hf; [lia|]. cbn [decimal_loop].
  destruct (Z.leb_spec 100 us) as [H100|H100].
  - assert (Hfuel : (0 < fuel)%nat) by (destruct fuel; [cbn in Hus; lia|lia]).
    pose proof (Z.mod_pos_bound us 100 ltac:(lia)) as Hm.
    assert (Hq : 0 <= us / 100 < 100 ^ Z.of_nat fuel).
    { split; [apply Z.div_pos; lia|]. apply Z.div_lt_upper_bound; [lia|].
      rewrite <- Z.pow_succ_r by lia. now replace (Z.succ (Z.of_nat fuel)) with (Z.of_nat (S fuel)) by lia. }
    destruct (IH (us / 100) (smallsString (us mod 100 * 2) :: smallsString (us mod 100 * 2 + 1) :: a)
                Hq Hfuel) as (p & E & Hne & Hv & Hd).
    rewrite smalls_tens, smalls_units in * by exact Hm.
    set (d1 := 48 + us mod 100 / 10) in *. set (d2 := 48 + (us mod 100) mod 10) in *.
    pose proof (Z.mod_pos_bound (us mod 100) 10 ltac:(lia)).
    assert (0 <= us mod 100 / 10 < 10)
      by (split; [apply Z.div_pos; lia|apply Z.div_lt_upper_bound; lia]).
    assert (D1 : is_digit d1 = true) by (apply is_digit_48; lia).
    assert (D2 : is_digit d2 = true) by (apply is_digit_48; lia).
    exists (p ++ [d1; d2])%list. split; [rewrite E, <- app_assoc; reflexivity|].
    split; [destruct p; discriminate|]. split.
    + intros n rest. rewrite <- app_assoc, Hv. cbn [app digits_value]. rewrite D1, D2. f_equal.
      rewrite length_app, Nat2Z.inj_add, Z.pow_add_r by lia. cbn [length].
      change (10 ^ Z.of_nat 2) with 100. unfold d1, d2.
      pose proof (Z.div_mod us 100 ltac:(lia)). pose proof (Z.div_mod (us mod 100) 10 ltac:(lia)). lia.
    + apply Forall_app. split; [exact Hd|]. repeat constructor; assumption.
  - rewrite smalls_units by lia. pose proof (Z.mod_pos_bound us 10 ltac:(lia)).
    pose proof (Z.div_mod us 10 ltac:(lia)) as Hdm.
    assert (D2 : is_digit (48 + us mod 10) = true) by (apply is_digit_48; lia).
    destruct (Z.leb_spec 10 us).
    + rewrite smalls_tens by lia.
      assert (0 <= us / 10 < 10)
        by (split; [apply Z.div_pos; lia|apply Z.div_lt_upper_bound; lia]).
      assert (D1 : is_digit (48 + us / 10) = true) by (apply is_digit_48; lia).
      exists [48 + us / 10; 48 + us mod 10]. split; [reflexivity|]. split; [discriminate|]. split.
      * intros n rest. cbn [app digits_value length]. rewrite D1, D2. f_equal.
        change (10 ^ Z.of_nat 2) with 100. lia.
      * repeat constructor; assumption.
    + assert (us / 10 = 0) by (apply Z.div_small; lia).
      exists [48 + us mod 10]. split; [reflexivity|]. split; [discriminate|]. split.
      * intros n rest. cbn [app digits_value length]. rewrite D2. f_equal.
        change (10 ^ Z.of_nat 1) with 10. lia.
      * repeat constructor; assumption.
Qed.

Lemma small_value i : 0 <= i < 100 ->
  exists p, small i = p /\ p <> [] /\ digits_value 0 p = Some i /\
    Forall (fun c => is_digit c = true) p.
Proof.
  intros Hi. unfold small. pose proof (Z.mod_pos_bound i 10 ltac:(lia)).
  pose proof (Z.div_mod i 10 ltac:(lia)).
  assert (0 <= i / 10 < 10) by (split; [apply Z.div_pos; lia|apply Z.div_lt_upper_bound; lia]).
  destruct (Z.ltb_spec i 10).
  - eexists. split; [reflexivity|]. split; [discriminate|].
    unfold digit_byte. destruct (Z.ltb_spec i 10); [|lia].
    assert (D : is_digit (48 + i) = true) by (apply is_digit_48; lia).
    split; [cbn [digits_value]; rewrite D; f_equal; lia|now repeat constructor].
  - rewrite smalls_tens, smalls_units by lia. eexists. split; [reflexivity|].
    split; [discriminate|].
    assert (D1 : is_digit (48 + i / 10) = true) by (apply is_digit_48; lia).
    assert (D2 : is_digit (48 + i mod 10) = true) by (apply is_digit_48; lia).
    split; [cbn [digits_value]; rewrite D1, D2; f_equal; lia|now repeat constructor].
Qed.

Lemma uint_value u : 0 <= u < 2 ^ 64 ->
  exists p, decimal_loop 65 u [] = p /\ p <> [] /\ digits_value 0 p = Some u /\
    Forall (fun c => is_digit c = true) p.
Proof.
  intros Hu. destruct (decimal_loop_value 65 u []) as (p & E & Hne & Hv & Hd); [|lia|].
  { split; [lia|]. eapply Z.lt_trans; [apply Hu|reflexivity]. }
  exists p. rewrite app_nil_r in E. split; [exact E|]. split; [exact Hne|]. split; [|exact Hd].
  rewrite <- (app_nil_r p), Hv. reflexivity.
Qed.

Lemma digits_no_sign p : Forall (fun c => is_digit c = true) p -> strip_sign p = p.
Proof.
  intros [|c q Hc _]; [reflexivity|]. unfold strip_sign, is_digit in *.
  apply andb_true_iff in Hc as [Hc%Z.leb_le _].
  now replace ((c =? 45) || (c =? 43)) with false by (symmetry; apply orb_false_iff; split; apply Z.eqb_neq; lia).
Qed.

Lemma digits_int_value p v :
  p <> [] -> Forall (fun c => is_digit c = true) p -> digits_value 0 p = Some v ->
  int_value p = Some v /\ int_value (45 :: p) = Some (- v).
Proof.
  intros Hne Hd Hv. unfold int_value. change (strip_sign (45 :: p)) with p.
  rewrite digits_no_sign by exact Hd. destruct p as [|c p]; [contradiction|]. rewrite Hv.
  inversion Hd as [|x y Hc _]; subst. unfold is_digit in Hc. apply andb_true_iff in Hc as [Hc%Z.leb_le _].
  split; cbn [option_map]; [|reflexivity].
  now replace (c =? 45) with false by (symmetry; apply Z.eqb_neq; lia).
Qed.

Definition int64 (i : Z) : Prop := - 2 ^ 63 <= i < 2 ^ 63.

(** What is printed of an int64 denotes it. *)
Lemma AppendInt_value i : int64 i -> int_value (AppendInt [] i 10) = Some i.
Proof.
  unfold int64. intros Hi. unfold AppendInt, formatBits, nSmalls, wrap64. cbn [Z.eqb Pos.eqb].
  destruct (Z.leb_spec 0 i); [destruct (Z.ltb_spec i 100)|]; cbn [andb app].
  - destruct (small_value i ltac:(lia)) as (p & -> & Hne & Hv & Hd). now apply digits_int_value.
  - destruct (Z.ltb_spec i 0); [lia|]. rewrite Z.mod_small by lia.
    destruct (uint_value i ltac:(lia)) as (p & -> & Hne & Hv & Hd). now apply digits_int_value.
  - destruct (Z.ltb_spec i 0); [|lia].
    assert (E : (- (i mod 2 ^ 64)) mod 2 ^ 64 = - i).
    { rewrite <- (Z.mod_small (- i) (2 ^ 64)) by lia.
      replace (- i) with (0 - i) by lia. rewrite <- Z.sub_0_l, Zminus_mod_idemp_r. reflexivity. }
    rewrite E. destruct (uint_value (- i) ltac:(lia)) as (p & -> & Hne & Hv & Hd).
    destruct (digits_int_value p (- i) Hne Hd Hv) as [_ ->]. f_equal. lia.
Qed.

Lemma ParseInt_AppendInt i : int64 i -> ParseInt (AppendInt [] i 10) 10 0 = (i, None).
Proof.
  intros Hi. pose proof (ParseInt_10 (AppendInt [] i 10)) as H. rewrite AppendInt_value in H by exact Hi.
  rewrite H. unfold int_result, int64 in *.
  destruct (Z.ltb_spec i (- 2 ^ 63)); [lia|]. destruct (Z.leb_spec (2 ^ 63) i); [lia|reflexivity].
Qed.
