(* ===== verification/Decimal.v ===== *)
(** strconv/decimal.go: multiprecision decimal numbers, shifted by powers of two. *)
From Stdlib Require Import ZArith Lia String Ascii Bool List.
From S2P Require Import Prelude Strconv Utf8 Float64.
Import ListNotations.
Local Open Scope Z_scope.

(** The digits in use, [a.d[:a.nd]], as ASCII bytes. *)
Record decimal := mkDecimal {
  d : list Z;
  dp : Z;
  neg : bool;
  trunc : bool
}.

Definition nd (a : decimal) : Z := len (d a).

(** [len(a.d)] *)
Definition max_digits : Z := 800.

(** The digits without the zeros at the end. *)
Fixpoint trim_digits (l : list Z) : list Z :=
  match l with
  | [] => []
  | c :: l =>
      match trim_digits l with
      | [] => if c =? 48 then [] else [c]
      | r => c :: r
      end
  end.

Definition trim (a : decimal) : decimal :=
  let l := trim_digits (d a) in
  mkDecimal l (match l with [] => 0 | _ => dp a end) (neg a) (trunc a).

(** The digits of [v], written in front of [acc]. *)
Fixpoint assign_loop (fuel : nat) (v : Z) (acc : list Z) : list Z :=
  match fuel with
  | O => acc
  | S fuel =>
      if 0 <? v then
        let v1 := v / 10 in
        assign_loop fuel v1 (byte_ (v - 10 * v1 + 48) :: acc)
      else acc
  end.

(** A uint64 has at most 20 digits. *)
Definition Assign (a : decimal) (v : Z) : decimal :=
  let l := assign_loop 20 v [] in
  trim (mkDecimal l (len l) (neg a) (trunc a)).

Definition maxShift : Z := 60.

(** ** Right shift *)

(** [for n>>k == 0 { n = n * 10; r++ }], with [n > 0]: twenty turns reach [2^k]. *)
Fixpoint pad_up (fuel : nat) (k n r : Z) : Z * Z :=
  match fuel with
  | O => (n, r)
  | S fuel => if Z.shiftr n k =? 0 then pad_up fuel k (u64 (n * 10)) (r + 1) else (n, r)
  end.

(** The first loop: the number so far, the count of digits read and those that are left;
    [None] for the early return of a zero. *)
Fixpoint pick_up (k n r : Z) (l : list Z) : option (Z * Z * list Z) :=
  if Z.shiftr n k =? 0 then
    match l with
    | [] => if n =? 0 then None else let '(n, r) := pad_up 20 k n r in Some (n, r, [])
    | c :: l => pick_up k (u64 (n * 10 + c - 48)) (r + 1) l
    end
  else Some (n, r, l).

(** Pick up a digit, put down a digit. *)
Fixpoint right_digits (k n : Z) (l : list Z) : list Z * Z :=
  match l with
  | [] => ([], n)
  | c :: l =>
      let dig := Z.shiftr n k in
      let n := Z.land n (2 ^ k - 1) in
      let '(out, n) := right_digits k (u64 (n * 10 + c - 48)) l in
      (byte_ (dig + 48) :: out, n)
  end.

(** Put down the extra digits, from place [w] on; a turn takes a factor of two out of
    [n], so 64 are enough. *)
Fixpoint right_extra (fuel : nat) (k n w : Z) : list Z * bool :=
  match fuel with
  | O => ([], false)
  | S fuel =>
      if 0 <? n then
        let dig := Z.shiftr n k in
        let n := Z.land n (2 ^ k - 1) in
        let '(out, tr) := right_extra fuel k (u64 (n * 10)) (if w <? max_digits then w + 1 else w) in
        if w <? max_digits then (byte_ (dig + 48) :: out, tr) else (out, tr || (0 <? dig))
      else ([], false)
  end.

Definition rightShift (a : decimal) (k : Z) : decimal :=
  match pick_up k 0 0 (d a) with
  | None => mkDecimal [] (dp a) (neg a) (trunc a)
  | Some (n, r, l) =>
      let '(out, n) := right_digits k n l in
      let '(extra, tr) := right_extra 64 k n (len out) in
      trim (mkDecimal (out ++ extra) (dp a - (r - 1)) (neg a) (trunc a || tr))
  end.

(** ** Left shift *)

(** The number of new digits, and the cutoff below which there is one less. *)
Definition leftcheats : list (Z * string) := [
  (0, ""%string); (1, "5"%string); (1, "25"%string); (1, "125"%string);
  (2, "625"%string); (2, "3125"%string); (2, "15625"%string); (3, "78125"%string);
  (3, "390625"%string); (3, "1953125"%string); (4, "9765625"%string); (4, "48828125"%string);
  (4, "244140625"%string); (4, "1220703125"%string); (5, "6103515625"%string); (5, "30517578125"%string);
  (5, "152587890625"%string); (6, "762939453125"%string);
  (6, "3814697265625"%string); (6, "19073486328125"%string);
  (7, "95367431640625"%string); (7, "476837158203125"%string);
  (7, "2384185791015625"%string); (7, "11920928955078125"%string);
  (8, "59604644775390625"%string); (8, "298023223876953125"%string);
  (8, "1490116119384765625"%string); (9, "7450580596923828125"%string);
  (9, "37252902984619140625"%string); (9, "186264514923095703125"%string);
  (10, "931322574615478515625"%string); (10, "4656612873077392578125"%string);
  (10, "23283064365386962890625"%string); (10, "116415321826934814453125"%string);
  (11, "582076609134674072265625"%string); (11, "2910383045673370361328125"%string);
  (11, "14551915228366851806640625"%string); (12, "72759576141834259033203125"%string);
  (12, "363797880709171295166015625"%string); (12, "1818989403545856475830078125"%string);
  (13, "9094947017729282379150390625"%string); (13, "45474735088646411895751953125"%string);
  (13, "227373675443232059478759765625"%string); (13, "1136868377216160297393798828125"%string);
  (14, "5684341886080801486968994140625"%string); (14, "28421709430404007434844970703125"%string);
  (14, "142108547152020037174224853515625"%string); (15, "710542735760100185871124267578125"%string);
  (15, "3552713678800500929355621337890625"%string); (15, "17763568394002504646778106689453125"%string);
  (16, "88817841970012523233890533447265625"%string); (16, "444089209850062616169452667236328125"%string);
  (16, "2220446049250313080847263336181640625"%string); (16, "11102230246251565404236316680908203125"%string);
  (17, "55511151231257827021181583404541015625"%string); (17, "277555756156289135105907917022705078125"%string);
  (17, "1387778780781445675529539585113525390625"%string); (18, "6938893903907228377647697925567626953125"%string);
  (18, "34694469519536141888238489627838134765625"%string); (18, "173472347597680709441192448139190673828125"%string);
  (19, "867361737988403547205962240695953369140625"%string)].

Definition leftcheat (k : Z) : Z * list Z :=
  let '(delta, cutoff) := nth (Z.to_nat k) leftcheats (0, ""%string) in (delta, bytes cutoff).

Fixpoint prefixIsLessThan (b s : list Z) : bool :=
  match s with
  | [] => false
  | x :: s =>
      match b with
      | [] => true
      | y :: b => if negb (y =? x) then y <? x else prefixIsLessThan b s
      end
  end.

(** One digit put down: the write index, the digits from there on, the carry and the
    mark of digits lost beyond the last place. *)
Definition put_down (st : Z * list Z * Z * bool) : Z * list Z * Z * bool :=
  let '(w, acc, n, tr) := st in
  let quo := n / 10 in
  let rem := n - 10 * quo in
  let w := w - 1 in
  if w <? max_digits then (w, byte_ (rem + 48) :: acc, quo, tr)
  else (w, acc, quo, tr || negb (rem =? 0)).

(** The digits from the last to the first. *)
Fixpoint left_digits (k : Z) (l : list Z) (st : Z * list Z * Z * bool) : Z * list Z * Z * bool :=
  match l with
  | [] => st
  | c :: l =>
      let '(w, acc, n, tr) := st in
      left_digits k l (put_down (w, acc, u64 (n + u64 (Z.shiftl (c - 48) k)), tr))
  end.

(** Put down the extra digits: the carry is a uint64. *)
Fixpoint left_extra (fuel : nat) (st : Z * list Z * Z * bool) : Z * list Z * Z * bool :=
  match fuel with
  | O => st
  | S fuel => let '(w, acc, n, tr) := st in if 0 <? n then left_extra fuel (put_down st) else st
  end.

(** The write index ends at 0 ([leftShift_exact]); were it to stop short, the digits in
    front would be the old ones. *)
Definition leftShift (a : decimal) (k : Z) : decimal :=
  let '(delta, cutoff) := leftcheat k in
  let delta := if prefixIsLessThan (d a) cutoff then delta - 1 else delta in
  let '(w, acc, _, tr) :=
    left_extra 20 (left_digits k (rev (d a)) (nd a + delta, [], 0, trunc a)) in
  let n := Z.min (nd a + delta) max_digits in
  trim (mkDecimal (firstn (Z.to_nat n) (firstn (Z.to_nat w) (d a) ++ acc)) (dp a + delta) (neg a) tr).

(** ** Shift *)

(** The loops [for k > maxShift] and [for k < -maxShift], and the shift that is left. *)
Fixpoint shift_left (fuel : nat) (a : decimal) (k : Z) : decimal :=
  match fuel with
  | O => a
  | S fuel => if maxShift <? k then shift_left fuel (leftShift a maxShift) (k - maxShift) else leftShift a k
  end.

Fixpoint shift_right (fuel : nat) (a : decimal) (k : Z) : decimal :=
  match fuel with
  | O => a
  | S fuel =>
      if maxShift <? k then shift_right fuel (rightShift a maxShift) (k - maxShift) else rightShift a k
  end.

Definition Shift (a : decimal) (k : Z) : decimal :=
  let fuel := S (Z.to_nat (Z.abs k / maxShift)) in
  match d a with
  | [] => a
  | _ => if 0 <? k then shift_left fuel a k
         else if k <? 0 then shift_right fuel a (- k)
         else a
  end.

(** ** Rounding *)

Definition shouldRoundUp (a : decimal) (n : Z) : bool :=
  if (n <? 0) || (nd a <=? n) then false
  else if (at_ (d a) n =? 53) && (n + 1 =? nd a) then
    if trunc a then true else (0 <? n) && Z.odd (at_ (d a) (n - 1) - 48)
  else 53 <=? at_ (d a) n.

Definition RoundDown (a : decimal) (n : Z) : decimal :=
  if (n <? 0) || (nd a <=? n) then a
  else trim (mkDecimal (slice (d a) 0 n) (dp a) (neg a) (trunc a)).

(** From the last of the digits back to one that is not 9. *)
Fixpoint bump (l : list Z) : option (list Z) :=
  match l with
  | [] => None
  | c :: l =>
      match bump l with
      | Some l => Some (c :: l)
      | None => if c <? 57 then Some [c + 1] else None
      end
  end.

Definition RoundUp (a : decimal) (n : Z) : decimal :=
  if (n <? 0) || (nd a <=? n) then a
  else
    match bump (slice (d a) 0 n) with
    | Some l => mkDecimal l (dp a) (neg a) (trunc a)
    | None => mkDecimal [49] (dp a + 1) (neg a) (trunc a)
    end.

Definition Round (a : decimal) (n : Z) : decimal :=
  if (n <? 0) || (nd a <=? n) then a
  else if shouldRoundUp a n then RoundUp a n else RoundDown a n.

(** The integer part: the digits in front of the point, zeros where there are none. *)
Fixpoint int_digits (count : nat) (l : list Z) (n : Z) : Z :=
  match count with
  | O => n
  | S count =>
      match l with
      | c :: l => int_digits count l (u64 (n * 10 + (c - 48)))
      | [] => int_digits count [] (u64 (n * 10))
      end
  end.

Definition RoundedInteger (a : decimal) : Z :=
  if 20 <? dp a then 0xFFFFFFFFFFFFFFFF
  else
    let n := int_digits (Z.to_nat (dp a)) (d a) 0 in
    if shouldRoundUp a (dp a) then u64 (n + 1) else n.
