(* ===== verification/Atof.v ===== *)
(** strconv/atof.go and eisel_lemire.go: parsing a float64. *)
From Stdlib Require Import ZArith Lia String Ascii Bool List SpecFloat.
From S2P Require Import Prelude GoFloat Float64 Strconv Utf8 PowTable Decimal.
Import ListNotations.
Local Open Scope Z_scope.

(** ** The format *)

Record floatInfo := mkFloatInfo { mantbits : Z; expbits : Z; flt_bias : Z }.

Definition float64info : floatInfo := mkFloatInfo 52 11 (-1023).

(** ** Inf and NaN *)

Definition ascii_lower (c : Z) : Z := if (65 <=? c) && (c <=? 90) then c + 32 else c.

Fixpoint commonPrefixLenIgnoreCase (s prefix : list Z) : Z :=
  match s, prefix with
  | c :: s, p :: prefix => if ascii_lower c =? p then 1 + commonPrefixLenIgnoreCase s prefix else 0
  | _, _ => 0
  end.

(** The case of [i] and [I], also reached after a sign. *)
Definition special_inf (sign nsign : Z) (s : list Z) : option (float64 * Z) :=
  let n := commonPrefixLenIgnoreCase s (bytes "infinity") in
  let n := if (3 <? n) && (n <? 8) then 3 else n in
  if (n =? 3) || (n =? 8) then Some (Inf sign, nsign + n) else None.

Definition special (s : list Z) : option (float64 * Z) :=
  match s with
  | [] => None
  | c :: s' =>
      if (c =? 43) || (c =? 45) then special_inf (if c =? 45 then -1 else 1) 1 s'
      else if (c =? 105) || (c =? 73) then special_inf 1 0 s
      else if (c =? 110) || (c =? 78) then
        if commonPrefixLenIgnoreCase s (bytes "nan") =? 3 then Some (NaN, 3) else None
      else None
  end.

(** ** The exponent, read alike by [decimal.set] and [readFloat] *)

(** The digits of an exponent: its value, kept below 100000, whether an underscore was
    seen, the count of bytes read and the rest. *)
Fixpoint exp_loop (s : list Z) (e : Z) (us : bool) (i : Z) : Z * bool * Z * list Z :=
  match s with
  | c :: s' =>
      if c =? 95 then exp_loop s' e true (i + 1)
      else if is_digit c then exp_loop s' (if e <? 10000 then e * 10 + c - 48 else e) us (i + 1)
      else (e, us, i, s)
  | [] => (e, us, i, s)
  end.

(** What follows the exponent letter; [None] without a digit. *)
Definition read_exp (s : list Z) (us : bool) (i : Z) : option (Z * bool * Z * list Z) :=
  match s with
  | [] => None
  | c :: s' =>
      let '(esign, s, i) :=
        if c =? 43 then (1, s', i + 1) else if c =? 45 then (-1, s', i + 1) else (1, s, i) in
      match s with
      | c :: _ =>
          if is_digit c then
            let '(e, us, i, s) := exp_loop s 0 us i in Some (e * esign, us, i, s)
          else None
      | [] => None
      end
  end.

(** An optional sign: negative, what follows, and the bytes read. *)
Definition read_sign (s : list Z) : bool * list Z * Z :=
  match s with
  | c :: s' => if c =? 43 then (false, s', 1) else if c =? 45 then (true, s', 1) else (false, s, 0)
  | [] => (false, s, 0)
  end.

(** ** [decimal.set] *)

Record set_state := mkSet {
  st_digits : list Z;      (* the digits, last first *)
  st_dp : Z;
  st_trunc : bool;
  st_dot : bool;
  st_saw : bool
}.

(** The loop over the digits: [None] for a second point, otherwise what was read and the
    rest. *)
Fixpoint set_loop (s : list Z) (st : set_state) : option (set_state * list Z) :=
  let '(mkSet ds dp tr dot saw) := st in
  match s with
  | [] => Some (st, [])
  | c :: s' =>
      if c =? 95 then set_loop s' st
      else if c =? 46 then
        if dot then None else set_loop s' (mkSet ds (len ds) tr true saw)
      else if is_digit c then
        if (c =? 48) && (len ds =? 0) then set_loop s' (mkSet ds (dp - 1) tr dot true)
        else if len ds <? max_digits then set_loop s' (mkSet (c :: ds) dp tr dot true)
        else set_loop s' (mkSet ds dp (tr || negb (c =? 48)) dot true)
      else Some (st, s)
  end.

Definition set (s : list Z) : option decimal :=
  match s with
  | [] => None
  | _ =>
      let '(neg, s, _) := read_sign s in
      match set_loop s (mkSet [] 0 false false false) with
      | None => None
      | Some (mkSet ds dp tr dot saw, s) =>
          if negb saw then None
          else
            let dp := if dot then dp else len ds in
            let result dp := mkDecimal (rev ds) dp neg tr in
            match s with
            | [] => Some (result dp)
            | c :: s' =>
                if lower c =? 101 then
                  match read_exp s' false 0 with
                  | Some (e, _, _, []) => Some (result (dp + e))
                  | _ => None
                  end
                else None
            end
      end
  end.

(** ** [readFloat] *)

Record scanned := mkScanned {
  sc_mantissa : Z;
  sc_nd : Z;
  sc_ndMant : Z;
  sc_dp : Z;
  sc_trunc : bool;
  sc_dot : bool;
  sc_saw : bool;
  sc_us : bool
}.

(** The loop over the digits of the mantissa, in base 10 or 16; the bytes read and the
    rest. *)
Fixpoint mantissa_loop (hex : bool) (s : list Z) (i : Z) (st : scanned) : scanned * Z * list Z :=
  let '(mkScanned m nd ndMant dp tr dot saw us) := st in
  let maxMantDigits := if hex then 16 else 19 in
  match s with
  | [] => (st, i, [])
  | c :: s' =>
      if c =? 95 then mantissa_loop hex s' (i + 1) (mkScanned m nd ndMant dp tr dot saw true)
      else if c =? 46 then
        if dot then (st, i, s)
        else mantissa_loop hex s' (i + 1) (mkScanned m nd ndMant nd tr true saw us)
      else if is_digit c then
        if (c =? 48) && (nd =? 0) then
          mantissa_loop hex s' (i + 1) (mkScanned m nd ndMant (dp - 1) tr dot true us)
        else if ndMant <? maxMantDigits then
          let m := u64 (u64 (m * (if hex then 16 else 10)) + (c - 48)) in
          mantissa_loop hex s' (i + 1) (mkScanned m (nd + 1) (ndMant + 1) dp tr dot true us)
        else
          mantissa_loop hex s' (i + 1)
            (mkScanned m (nd + 1) ndMant dp (tr || negb (c =? 48)) dot true us)
      else if hex && (97 <=? lower c) && (lower c <=? 102) then
        if ndMant <? maxMantDigits then
          let m := u64 (u64 (m * 16) + (lower c - 97 + 10)) in
          mantissa_loop hex s' (i + 1) (mkScanned m (nd + 1) (ndMant + 1) dp tr dot true us)
        else mantissa_loop hex s' (i + 1) (mkScanned m (nd + 1) ndMant dp true dot true us)
      else (st, i, s)
  end.

Record float_text := mkFloatText {
  ft_mantissa : Z;
  ft_exp : Z;
  ft_neg : bool;
  ft_trunc : bool;
  ft_hex : bool
}.

(** The parts of a float and the bytes read, if the text starts with one. *)
Definition readFloat (s0 : list Z) : option (float_text * Z) :=
  let '(neg, s, i) := read_sign s0 in
  let hex := match s with
             | c0 :: c1 :: _ :: _ => (c0 =? 48) && (lower c1 =? 120)
             | _ => false
             end in
  let '(s, i) := if hex then (skipn 2 s, i + 2) else (s, i) in
  let '(st, i, s) := mantissa_loop hex s i (mkScanned 0 0 0 0 false false false false) in
  if negb (sc_saw st) then None
  else
    let dp := if sc_dot st then sc_dp st else sc_nd st in
    let '(dp, ndMant) := if hex then (dp * 4, sc_ndMant st * 4) else (dp, sc_ndMant st) in
    let finish dp us i :=
      let exp := if sc_mantissa st =? 0 then 0 else dp - ndMant in
      if us && negb (underscoreOK (firstn (Z.to_nat i) s0)) then None
      else Some (mkFloatText (sc_mantissa st) exp neg (sc_trunc st) hex, i) in
    match s with
    | c :: s' =>
        if lower c =? (if hex then 112 else 101) then
          match read_exp s' (sc_us st) (i + 1) with
          | Some (e, us, i, _) => finish (dp + e) us i
          | None => None
          end
        else if hex then None else finish dp (sc_us st) i
    | [] => if hex then None else finish dp (sc_us st) i
    end.

(** ** Assembling the bits *)

(** [bits := mant & (1<<flt.mantbits - 1); ...] *)
Definition assemble (flt : floatInfo) (mant exp : Z) (neg : bool) : Z :=
  let bits := Z.land mant (Z.shiftl 1 (mantbits flt) - 1) in
  let bits := Z.lor bits
                (Z.shiftl (Z.land (exp - flt_bias flt) (Z.shiftl 1 (expbits flt) - 1)) (mantbits flt)) in
  if neg then Z.lor bits (Z.shiftl (Z.shiftl 1 (mantbits flt)) (expbits flt)) else bits.

(** ** The slow path *)

Definition powtab : list Z := [1; 3; 6; 9; 13; 16; 19; 23; 26].

(** The shift for a distance of [n] digits. *)
Definition pow_shift (n : Z) : Z := if 9 <=? n then 27 else nth (Z.to_nat n) powtab 0.

(** The loops that bring the number into [0.5, 1): the number and the exponent.  A turn
    moves the point by a digit or more, and it is less than 331 digits away; the turns
    that follow double a number below 1/2. *)
Fixpoint scale_down (fuel : nat) (a : decimal) (exp : Z) : decimal * Z :=
  match fuel with
  | O => (a, exp)
  | S fuel =>
      if 0 <? dp a then
        let n := pow_shift (dp a) in scale_down fuel (Shift a (- n)) (exp + n)
      else (a, exp)
  end.

Fixpoint scale_up (fuel : nat) (a : decimal) (exp : Z) : decimal * Z :=
  match fuel with
  | O => (a, exp)
  | S fuel =>
      if (dp a <? 0) || ((dp a =? 0) && (at_ (d a) 0 <? 53)) then
        let n := pow_shift (- dp a) in scale_up fuel (Shift a n) (exp - n)
      else (a, exp)
  end.

Definition scale_fuel : nat := 400.

(** [d.floatBits(flt)]: the bits and whether the number is too large. *)
Definition floatBits (a : decimal) (flt : floatInfo) : Z * bool :=
  let overflow := (assemble flt 0 (Z.shiftl 1 (expbits flt) - 1 + flt_bias flt) (neg a), true) in
  let zero := (assemble flt 0 (flt_bias flt) (neg a), false) in
  match d a with
  | [] => zero
  | _ =>
      if 310 <? dp a then overflow
      else if dp a <? -330 then zero
      else
        let '(a, exp) := scale_down scale_fuel a 0 in
        let '(a, exp) := scale_up scale_fuel a exp in
        let exp := exp - 1 in
        let '(a, exp) :=
          if exp <? flt_bias flt + 1 then
            let n := flt_bias flt + 1 - exp in (Shift a (- n), exp + n)
          else (a, exp) in
        if Z.shiftl 1 (expbits flt) - 1 <=? exp - flt_bias flt then overflow
        else
          let a := Shift a (1 + mantbits flt) in
          let mant := RoundedInteger a in
          let '(mant, exp) :=
            if mant =? Z.shiftl 2 (mantbits flt) then (Z.shiftr mant 1, exp + 1) else (mant, exp) in
          if Z.shiftl 1 (expbits flt) - 1 <=? exp - flt_bias flt then overflow
          else
            let exp := if Z.land mant (Z.shiftl 1 (mantbits flt)) =? 0 then flt_bias flt else exp in
            (assemble flt mant exp (neg a), false)
  end.

(** ** The exact path *)

(** [float64pow10[i]] *)
Definition float64pow10 (i : Z) : float64 := of_Z (10 ^ i).

Definition atof64exact (mantissa exp : Z) (neg : bool) : option float64 :=
  if negb (Z.shiftr mantissa (mantbits float64info) =? 0) then None
  else
    let f := of_Z mantissa in
    let f := if neg then SFopp f else f in
    if exp =? 0 then Some f
    else if (0 <? exp) && (exp <=? 15 + 22) then
      let '(f, exp) := if 22 <? exp then (mul f (float64pow10 (exp - 22)), 22) else (f, exp) in
      if SFltb (of_Z (10 ^ 15)) f || SFltb f (of_Z (- 10 ^ 15)) then None
      else Some (mul f (float64pow10 exp))
    else if (exp <? 0) && (-22 <=? exp) then Some (div f (float64pow10 (- exp)))
    else None.

(** ** The Eisel-Lemire path *)

(** The product with the high word of the power, refined by the low word where its last
    bits leave a doubt; [None] if a doubt remains. *)
Definition eisel_product (man : Z) (row : Z * Z) : option (Z * Z) :=
  let '(xHi, xLo) := Mul64 man (snd row) in
  if (Z.land xHi 0x1FF =? 0x1FF) && (u64 (xLo + man) <? man) then
    let '(yHi, yLo) := Mul64 man (fst row) in
    let mergedLo := u64 (xLo + yHi) in
    let mergedHi := if mergedLo <? xLo then u64 (xHi + 1) else xHi in
    if (Z.land mergedHi 0x1FF =? 0x1FF) && (u64 (mergedLo + 1) =? 0) && (u64 (yLo + man) <? man)
    then None
    else Some (mergedHi, mergedLo)
  else Some (xHi, xLo).

Definition eiselLemire64 (man exp10 : Z) (neg : bool) : option float64 :=
  if man =? 0 then Some (if neg then Float64frombits 0x8000000000000000 else S754_zero false)
  else if (exp10 <? detailedPowersOfTenMinExp10) || (detailedPowersOfTenMaxExp10 <? exp10) then None
  else
    let clz := LeadingZeros64 man in
    let man := u64 (Z.shiftl man clz) in
    let retExp2 := u64 (u64 (Z.shiftr (217706 * exp10) 16 + 64 + 1023) - clz) in
    match eisel_product man (pow10_row exp10) with
    | None => None
    | Some (xHi, xLo) =>
        let msb := Z.shiftr xHi 63 in
        let retMantissa := Z.shiftr xHi (msb + 9) in
        let retExp2 := u64 (retExp2 - Z.lxor 1 msb) in
        if (xLo =? 0) && (Z.land xHi 0x1FF =? 0) && (Z.land retMantissa 3 =? 1) then None
        else
          let retMantissa := u64 (retMantissa + Z.land retMantissa 1) in
          let retMantissa := Z.shiftr retMantissa 1 in
          let '(retMantissa, retExp2) :=
            if 0 <? Z.shiftr retMantissa 53 then (Z.shiftr retMantissa 1, u64 (retExp2 + 1))
            else (retMantissa, retExp2) in
          if 0x7FF - 1 <=? u64 (retExp2 - 1) then None
          else
            let retBits := Z.lor (u64 (Z.shiftl retExp2 52)) (Z.land retMantissa 0x000FFFFFFFFFFFFF) in
            let retBits := if neg then Z.lor retBits 0x8000000000000000 else retBits in
            Some (Float64frombits retBits)
    end.

(** ** Hexadecimal *)

(** [mantissa<<1] until the top bits are reached. *)
Fixpoint hex_up (fuel : nat) (flt : floatInfo) (m exp : Z) : Z * Z :=
  match fuel with
  | O => (m, exp)
  | S fuel =>
      if negb (m =? 0) && (Z.shiftr m (mantbits flt + 2) =? 0)
      then hex_up fuel flt (u64 (Z.shiftl m 1)) (exp - 1) else (m, exp)
  end.

(** [mantissa>>1 | mantissa&1] while there are too many bits. *)
Definition sticky_half (m : Z) : Z := Z.lor (Z.shiftr m 1) (Z.land m 1).

Fixpoint hex_down (fuel : nat) (flt : floatInfo) (m exp : Z) : Z * Z :=
  match fuel with
  | O => (m, exp)
  | S fuel =>
      if negb (Z.shiftr m (1 + mantbits flt + 2) =? 0)
      then hex_down fuel flt (sticky_half m) (exp + 1) else (m, exp)
  end.

Fixpoint hex_denorm (fuel : nat) (minExp m exp : Z) : Z * Z :=
  match fuel with
  | O => (m, exp)
  | S fuel =>
      if (1 <? m) && (exp <? minExp - 2)
      then hex_denorm fuel minExp (sticky_half m) (exp + 1) else (m, exp)
  end.

(** The loops shift a uint64 by one bit a turn. *)
Definition atofHex (flt : floatInfo) (mantissa exp : Z) (neg trunc : bool) : parsed float64 :=
  let maxExp := Z.shiftl 1 (expbits flt) + flt_bias flt - 2 in
  let minExp := flt_bias flt + 1 in
  let exp := exp + mantbits flt in
  let '(m, exp) := hex_up 64 flt mantissa exp in
  let m := if trunc then Z.lor m 1 else m in
  let '(m, exp) := hex_down 64 flt m exp in
  let '(m, exp) := hex_denorm 64 minExp m exp in
  let round := Z.land m 3 in
  let m := Z.shiftr m 2 in
  let round := Z.lor round (Z.land m 1) in
  let exp := exp + 2 in
  let '(m, exp) :=
    if round =? 3 then
      let m := u64 (m + 1) in
      if m =? Z.shiftl 1 (1 + mantbits flt) then (Z.shiftr m 1, exp + 1) else (m, exp)
    else (m, exp) in
  let exp := if Z.shiftr m (mantbits flt) =? 0 then flt_bias flt else exp in
  let '(m, exp, err) :=
    if maxExp <? exp then (Z.shiftl 1 (mantbits flt), maxExp + 1, Some ErrRange) else (m, exp, None) in
  (Float64frombits (assemble flt m exp neg), err).

(** ** ParseFloat *)

(** The optimised paths of [atof64]; [None] falls back to the slow one. *)
Definition atof64_fast (t : float_text) : option float64 :=
  match (if ft_trunc t then None else atof64exact (ft_mantissa t) (ft_exp t) (ft_neg t)) with
  | Some f => Some f
  | None =>
      match eiselLemire64 (ft_mantissa t) (ft_exp t) (ft_neg t) with
      | None => None
      | Some f =>
          if negb (ft_trunc t) then Some f
          else
            match eiselLemire64 (u64 (ft_mantissa t + 1)) (ft_exp t) (ft_neg t) with
            | Some fUp => if SFeqb f fUp then Some f else None
            | None => None
            end
      end
  end.

(** [atof64]: the value, the bytes read and the error. *)
Definition atof64 (s : list Z) : float64 * Z * option num_error :=
  match special s with
  | Some (val, n) => (val, n, None)
  | None =>
      match readFloat s with
      | None => (S754_zero false, 0, Some ErrSyntax)
      | Some (t, n) =>
          if ft_hex t then
            let '(f, err) := atofHex float64info (ft_mantissa t) (ft_exp t) (ft_neg t) (ft_trunc t) in
            (f, n, err)
          else
            match atof64_fast t with
            | Some f => (f, n, None)
            | None =>
                match set (firstn (Z.to_nat n) s) with
                | None => (S754_zero false, n, Some ErrSyntax)
                | Some a =>
                    let '(b, ovf) := floatBits a float64info in
                    (Float64frombits b, n, if ovf then Some ErrRange else None)
                end
            end
      end
  end.

(** [ParseFloat(s, 64)] *)
Definition ParseFloat64 (s : list Z) : parsed float64 :=
  let '(f, n, err) := atof64 s in
  if negb (n =? len s) && (match err with Some ErrSyntax => false | _ => true end)
  then (S754_zero false, Some ErrSyntax)
  else (f, err).

#[export] Instance Strconv64 : GoStrconv float64 := {| ParseFloat s := ParseFloat64 (bytes s) |}.
