(* ===== verification/Tens.v ===== *)
(** Powers of ten over the reals, and what the table of powers says of them. *)
From Stdlib Require Import ZArith Reals Lra Lia Bool List.
From S2P Require Import Prelude Rounding PowTable.
Local Open Scope R_scope.

Definition tp (q : Z) : R := powerRZ 10 q.

Lemma tp_pos q : 0 < tp q.
Proof. apply powerRZ_lt. lra. Qed.

Lemma tp_add a b : tp (a + b) = tp a * tp b.
Proof. apply powerRZ_add. lra. Qed.

Lemma tp_0 : tp 0 = 1.
Proof. reflexivity. Qed.

Lemma tp_1 : tp 1 = 10.
Proof. change (tp 1) with (10 * 1). lra. Qed.

Lemma tp_IZR n : (0 <= n)%Z -> tp n = IZR (10 ^ n).
Proof.
  intros Hn. unfold tp. rewrite <- (Z2Nat.id n) at 1 by exact Hn.
  rewrite <- pow_powerRZ. rewrite <- (Z2Nat.id n) at 2 by exact Hn. now rewrite pow_IZR.
Qed.

Lemma tp_split a b : (a <= b)%Z -> tp b = IZR (10 ^ (b - a)) * tp a.
Proof. intros H. rewrite <- tp_IZR, <- tp_add by lia. f_equal. lia. Qed.

Lemma tp_inv q : tp (- q) * tp q = 1.
Proof. rewrite <- tp_add, Z.add_opp_diag_l. exact tp_0. Qed.

Lemma tp_le a b : (a <= b)%Z -> tp a <= tp b.
Proof.
  intros H. rewrite (tp_split a b H). pose proof (tp_pos a).
  assert (1 <= IZR (10 ^ (b - a))) by (apply IZR_le; pose proof (Z.pow_pos_nonneg 10 (b - a)); lia). nra.
Qed.

Lemma tp_lt a b : (a < b)%Z -> tp a < tp b.
Proof.
  intros H. apply Rlt_le_trans with (tp (a + 1)); [|apply tp_le; lia].
  rewrite tp_add, tp_1. pose proof (tp_pos a). lra.
Qed.

Lemma tp_lt_inv a b : tp a < tp b -> (a < b)%Z.
Proof. intros H. destruct (Z.lt_ge_cases a b) as [|G]; [assumption|]. apply tp_le in G. lra. Qed.

Lemma bp_inv q : bp (- q) * bp q = 1.
Proof. rewrite <- bp_add, Z.add_opp_diag_l. exact bp_0. Qed.

(** [10 ^ s] as a power of five and a power of two. *)
Lemma tp_five s : (0 <= s)%Z -> tp s = IZR (5 ^ s) * bp s.
Proof. intros H. rewrite tp_IZR, bp_IZR, <- mult_IZR, <- Z.pow_mul_l by exact H. reflexivity. Qed.

Lemma tp_neg q : (0 <= q)%Z -> tp (- q) * IZR (10 ^ q) = 1.
Proof. intros H. rewrite <- tp_IZR by exact H. apply tp_inv. Qed.

Lemma bp_neg q : (0 <= q)%Z -> bp (- q) * IZR (2 ^ q) = 1.
Proof. intros H. rewrite <- bp_IZR by exact H. apply bp_inv. Qed.

(** * The table *)

Lemma rows_words : forallb words_ok detailedPowersOfTen = true.
Proof. vm_compute. reflexivity. Qed.

Lemma row_words q : (detailedPowersOfTenMinExp10 <= q <= detailedPowersOfTenMaxExp10)%Z ->
  (0 <= fst (pow10_row q) < 2 ^ 64 /\ 2 ^ 63 <= snd (pow10_row q) < 2 ^ 64)%Z.
Proof.
  unfold detailedPowersOfTenMinExp10, detailedPowersOfTenMaxExp10. intros Hq.
  assert (H : words_ok (pow10_row q) = true).
  { pose proof (proj1 (forallb_forall _ _) rows_words) as H. apply H. unfold pow10_row, detailedPowersOfTenMinExp10.
    apply nth_In. change (length detailedPowersOfTen) with 696%nat. lia. }
  unfold words_ok in H. lia.
Qed.

Lemma rounds_down_R v e q : rounds_down v e q -> IZR v * bp e <= tp q < (IZR v + 1) * bp e.
Proof.
  intros [_ H]. assert (E1 : bp e = bp (- Z.max (- e) 0) * IZR (2 ^ Z.max e 0)).
  { rewrite <- bp_IZR, <- bp_add by lia. f_equal. lia. }
  assert (E2 : tp q = tp (- Z.max (- q) 0) * IZR (10 ^ Z.max q 0)).
  { rewrite <- tp_IZR, <- tp_add by lia. f_equal. lia. }
  pose proof (bp_neg (Z.max (- e) 0) ltac:(lia)) as Ib. pose proof (tp_neg (Z.max (- q) 0) ltac:(lia)) as It.
  pose proof (bp_pos (- Z.max (- e) 0)) as Pb. pose proof (tp_pos (- Z.max (- q) 0)) as Pt.
  destruct H as [H1 H2]. apply IZR_le in H1. apply IZR_lt in H2. rewrite !mult_IZR, ?plus_IZR in H1, H2.
  rewrite E1, E2. set (a := bp (- _)) in *. set (b := tp (- _)) in *.
  set (A := IZR (2 ^ Z.max (- e) 0)) in *. set (B := IZR (10 ^ Z.max (- q) 0)) in *.
  assert (Pab : 0 < a * b) by now apply Rmult_lt_0_compat.
  apply (Rmult_le_compat_l (a * b)) in H1; [|lra]. apply (Rmult_lt_compat_l (a * b)) in H2; [|lra].
  set (C := IZR (2 ^ Z.max e 0)) in *. set (D := IZR (10 ^ Z.max q 0)) in *.
  assert (EL : a * b * (D * A) = b * D) by (transitivity (b * D * (a * A)); [ring|rewrite Ib; ring]).
  assert (EM : forall w, a * b * (w * C * B) = w * (a * C)).
  { intros w. transitivity (w * (a * C) * (b * B)); [ring|rewrite It; ring]. }
  rewrite EL, EM in H1, H2. rewrite plus_IZR in H2. lra.
Qed.

(** The power of ten is in the unit above its 128 bits. *)
Lemma pow10_R q : (detailedPowersOfTenMinExp10 <= q <= detailedPowersOfTenMaxExp10)%Z ->
  IZR (pow10_bits q) * bp (pow10_exp q) <= tp q < (IZR (pow10_bits q) + 1) * bp (pow10_exp q).
Proof. intros Hq. apply rounds_down_R, powers_of_ten, Hq. Qed.
