(* ===== verification/EiselSpec.v ===== *)
(** The Eisel-Lemire path of ParseFloat: whenever it answers, the answer is the binary64
    nearest to the decimal. *)
From Stdlib Require Import ZArith Reals Lra Lia SpecFloat Bool List.
From S2P Require Import Prelude Float64 Rounding Nearest PowTable Tens Atof.
Local Open Scope Z_scope.

(** * Words *)

Lemma u64_mod z : u64 z = z mod 2 ^ 64.
Proof. apply land_mask. lia. Qed.

Lemma u64_id z : 0 <= z < 2 ^ 64 -> u64 z = z.
Proof. intros H. rewrite u64_mod. now apply Z.mod_small. Qed.

Lemma Mul64_spec x y hi lo : Mul64 x y = (hi, lo) ->
  x * y = hi * 2 ^ 64 + lo /\ 0 <= lo < 2 ^ 64.
Proof.
  unfold Mul64. intros [= <- <-]. rewrite u64_mod, Z.shiftr_div_pow2 by lia.
  Z.to_euclidean_division_equations. lia.
Qed.

(** The test [a + b < b] for a carry. *)
Lemma carry_spec a b : 0 <= a < 2 ^ 64 -> 0 <= b < 2 ^ 64 -> (u64 (a + b) <? b) = (2 ^ 64 <=? a + b).
Proof.
  intros Ha Hb. rewrite u64_mod. destruct (Z.leb_spec (2 ^ 64) (a + b)) as [H|H].
  - replace ((a + b) mod 2 ^ 64) with (a + b - 2 ^ 64); [lia|].
    apply (Z.mod_unique _ _ 1); lia.
  - rewrite Z.mod_small by lia. lia.
Qed.

(** * The product *)

(** The two words hold a part of the true product from which the bits above the lowest
    nine of the high word can be read. *)
Lemma eisel_product_spec w lo hi xHi xLo :
  2 ^ 63 <= w < 2 ^ 64 -> 0 <= lo < 2 ^ 64 -> 2 ^ 63 <= hi < 2 ^ 64 ->
  eisel_product w (lo, hi) = Some (xHi, xLo) ->
  0 <= xLo < 2 ^ 64 /\ 2 ^ 62 <= xHi < 2 ^ 64 /\
  (xHi * 2 ^ 64 + xLo) * 2 ^ 64 <= w * (hi * 2 ^ 64 + lo) /\
  w * (hi * 2 ^ 64 + lo + 1) <= (xHi / 2 ^ 9 + 1) * 2 ^ 137.
Proof.
  intros Hw Hlo Hhi. unfold eisel_product. cbn [fst snd].
  destruct (Mul64 w hi) as [xH xL] eqn:Ex. apply Mul64_spec in Ex as [Ex HxL].
  change 0x1FF with (2 ^ 9 - 1). rewrite !land_mask by lia.
  assert (Hmin : 2 ^ 63 * 2 ^ 63 <= w * hi) by (apply Z.mul_le_mono_nonneg; lia).
  assert (Hmax : w * hi <= (2 ^ 64 - 1) * (2 ^ 64 - 1)) by (apply Z.mul_le_mono_nonneg; lia).
  assert (Hwlo : 0 <= w * lo <= w * (2 ^ 64 - 1)) by nia.
  rewrite (carry_spec xL w) by lia.
  destruct ((xH mod 2 ^ 9 =? 2 ^ 9 - 1) && (2 ^ 64 <=? xL + w)) eqn:E1.
  - destruct (Mul64 w lo) as [yH yL] eqn:Ey. apply Mul64_spec in Ey as [Ey HyL].
    rewrite (carry_spec yL w) by lia. rewrite u64_mod.
    set (mLo := (xL + yH) mod 2 ^ 64).
    assert (HyH : 0 <= yH < w) by nia.
    assert (Hm : exists c, 0 <= c <= 1 /\ xL + yH = c * 2 ^ 64 + mLo /\ (mLo <? xL) = (c =? 1)).
    { exists ((xL + yH) / 2 ^ 64). unfold mLo. Z.to_euclidean_division_equations. lia. }
    destruct Hm as (c & Hc & Emid & Ec). rewrite Ec.
    assert (HmLo : 0 <= mLo < 2 ^ 64) by (apply Z.mod_pos_bound; lia).
    assert (EmH : (if c =? 1 then u64 (xH + 1) else xH) = xH + c).
    { destruct (Z.eqb_spec c 1) as [->|]; [apply u64_id; nia|]. lia. }
    rewrite EmH. set (mHi := xH + c) in *. rewrite land_mask, u64_mod by lia.
    assert (Hsum : w * (hi * 2 ^ 64 + lo) = (mHi * 2 ^ 64 + mLo) * 2 ^ 64 + yL) by (unfold mHi; nia).
    destruct (_ && _ && _) eqn:E2; [discriminate|]. intros [= <- <-].
    split; [exact HmLo|]. split; [nia|]. split; [lia|].
    assert (Hlast : mHi mod 2 ^ 9 <> 2 ^ 9 - 1 \/ mLo <> 2 ^ 64 - 1 \/ yL + w < 2 ^ 64).
    { destruct (Z.eq_dec mLo (2 ^ 64 - 1)) as [E|]; [|lia]. rewrite E in E2.
      change ((2 ^ 64 - 1 + 1) mod 2 ^ 64 =? 0) with true in E2.
      rewrite andb_true_r, andb_false_iff, Z.eqb_neq, Z.leb_gt in E2. tauto. }
    pose proof (Z.div_mod mHi (2 ^ 9) ltac:(lia)). pose proof (Z.mod_pos_bound mHi (2 ^ 9) ltac:(lia)). nia.
  - intros [= <- <-]. split; [exact HxL|]. split; [nia|]. split; [nia|].
    pose proof (Z.div_mod xH (2 ^ 9) ltac:(lia)). pose proof (Z.mod_pos_bound xH (2 ^ 9) ltac:(lia)). nia.
Qed.

(** * Rounding *)

(** [r] holds 54 bits of [T] from the place [k] on: half of it, rounded up, is [T] rounded
    to the nearest, if [T] is not the midpoint above an even number. *)
Lemma round_half_up T r k :
  (2 ^ 53 <= r < 2 ^ 54) -> (0 <= k) ->
  (IZR r * bp k <= T < IZR (r + 1) * bp k)%R -> (r mod 4 = 1 -> (IZR r * bp k < T)%R) ->
  exists m f l, inb l f /\ T = ((IZR m + f) * bp (k + 1))%R /\ 2 ^ 52 <= m < 2 ^ 53 /\
    round_nearest_even m l = (r + r mod 2) / 2 /\
    (m + 1 = (r + r mod 2) / 2 -> (1 / 2 <= f)%R).
Proof.
  intros Hr Hk HT Htie. pose proof (bp_pos k) as Pk.
  set (g := (T / bp k - IZR r)%R).
  assert (ET : T = ((IZR r + g) * bp k)%R) by (unfold g; field; lra).
  assert (Hg : (0 <= g < 1)%R) by (rewrite plus_IZR in HT; rewrite ET in HT; split; nra).
  exists (r / 2), ((IZR (r mod 2) + g) / 2)%R.
  assert (E2 : (IZR r = 2 * IZR (r / 2) + IZR (r mod 2))%R).
  { rewrite <- mult_IZR, <- plus_IZR. f_equal. apply Z.div_mod. lia. }
  assert (EV : T = ((IZR (r / 2) + (IZR (r mod 2) + g) / 2) * bp (k + 1))%R).
  { rewrite ET, E2, bp_add. change (bp 1) with (2 * 1)%R. field. }
  assert (Hm : 2 ^ 52 <= r / 2 < 2 ^ 53) by (Z.to_euclidean_division_equations; lia).
  pose proof (Z.mod_pos_bound r 2 ltac:(lia)) as H2.
  assert (Hodd : r mod 2 = 1 -> g = 0%R -> Z.even (r / 2) = false).
  { intros O G. assert (r mod 4 <> 1) as H4 by (intros H4; specialize (Htie H4); rewrite ET, G in Htie; nra).
    rewrite Zeven_mod. apply Z.eqb_neq. Z.to_euclidean_division_equations. lia. }
  destruct (Z.eq_dec (r mod 2) 0) as [E0|E1].
  - rewrite E0 in *. exists (if Req_dec_T g 0 then loc_Exact else loc_Inexact Lt).
    split; [destruct (Req_dec_T g 0); cbn; lra|]. split; [exact EV|]. split; [exact Hm|].
    replace ((r + 0) / 2) with (r / 2) by (f_equal; lia). split; [now destruct (Req_dec_T g 0)|lia].
  - assert (O : r mod 2 = 1) by lia. rewrite O in *. exists (if Req_dec_T g 0 then loc_Inexact Eq else loc_Inexact Gt).
    split; [destruct (Req_dec_T g 0); cbn; lra|]. split; [exact EV|]. split; [exact Hm|].
    split; [|intros _; lra].
    replace ((r + 1) / 2) with (r / 2 + 1) by (Z.to_euclidean_division_equations; lia).
    destruct (Req_dec_T g 0) as [G|G]; [|reflexivity]. cbn [round_nearest_even]. now rewrite (Hodd eq_refl G).
Qed.

(** The float named by its sign and bits, nearest to a decimal. *)
Definition reads (x : R) (neg : bool) (v : float64) : Prop :=
  exists n, n < inf_bits /\ nearest x n /\ v = with_sign neg (Float64frombits n).

Lemma shift_round x T r k c e1 :
  (2 ^ 53 <= r < 2 ^ 54) -> 0 <= k ->
  (IZR r * bp k <= T < IZR (r + 1) * bp k)%R -> (r mod 4 = 1 -> (IZR r * bp k < T)%R) ->
  x = (T * bp c)%R -> e1 = k + 1 + c ->
  let m2 := (r + r mod 2) / 2 in
  1 <= e1 + 1075 + m2 / 2 ^ 53 < 0x7FF -> nearest x (code m2 e1) /\ code m2 e1 < inf_bits.
Proof.
  intros Hr Hk HT Htie Hx He1 m2 Hrange.
  destruct (round_half_up T r k Hr Hk HT Htie) as (m & f & l & Hf & ET & Hm & Erne & Hup). fold m2 in Erne, Hup.
  assert (EX : x = ((IZR m + f) * bp e1)%R) by (rewrite Hx, ET, He1, (bp_add (k + 1) c); ring).
  assert (Hm2 : m <= m2 <= m + 1).
  { rewrite <- Erne. unfold round_nearest_even. destruct l as [|[]]; try lia. destruct (Z.even m); lia. }
  destruct (Z.eq_dec m2 (2 ^ 53)) as [E53|E53].
  - rewrite E53 in *. change (2 ^ 53 / 2 ^ 53) with 1 in Hrange.
    split; [|unfold code, inf_bits; lia]. destruct (Z.eq_dec e1 (-1075)) as [E|E].
    + (* the carry into the normal numbers *)
      rewrite E in *. replace (code (2 ^ 53) (-1075)) with (code (2 ^ 52) (-1074)) by reflexivity.
      assert (Em : m = 2 ^ 53 - 1) by lia. specialize (Hup ltac:(lia)).
      pose proof (inb_range _ _ Hf) as Hfr.
      change (2 ^ 52) with (round_nearest_even (2 ^ 52 - 1) (loc_Inexact Gt)).
      apply (nearest_code x (2 ^ 52 - 1) ((1 + f) / 2) (loc_Inexact Gt)); [cbn; lra| |unfold canon; lia|lia].
      rewrite EX, Em. replace (bp (-1074)) with (2 * bp (-1075))%R
        by (change (-1074) with (1 + -1075); rewrite bp_add; change (bp 1) with (2 * 1)%R; ring).
      replace (2 ^ 53 - 1) with (2 * (2 ^ 52 - 1) + 1) by reflexivity. rewrite plus_IZR, mult_IZR. field.
    + rewrite <- Erne. apply (nearest_code x m f); [exact Hf|exact EX| |lia].
      unfold canon. lia.
  - assert (E0 : m2 / 2 ^ 53 = 0) by (apply Z.div_small; lia). rewrite E0 in Hrange.
    split; [|unfold code, inf_bits; lia]. rewrite <- Erne. apply (nearest_code x m f); [exact Hf|exact EX| |lia].
    unfold canon. lia.
Qed.

Lemma Some_inv {A} (x y : A) : Some x = Some y -> x = y.
Proof. congruence. Qed.

(** The exponent is counted modulo 2^64, so that one test rejects both ends. *)
Lemma u64_sub a b : u64 (u64 a - b) = u64 (a - b).
Proof. rewrite !u64_mod. apply Zminus_mod_idemp_l. Qed.

Lemma u64_add a b : u64 (u64 a + b) = u64 (a + b).
Proof. rewrite !u64_mod. apply Zplus_mod_idemp_l. Qed.

Lemma check_exponent r : - 2 ^ 62 < r < 2 ^ 62 -> (0x7FF - 1 <=? u64 (u64 r - 1)) = false ->
  1 <= r < 0x7FF /\ u64 r = r.
Proof.
  intros Hr. rewrite u64_sub, !u64_mod. intros H%Z.leb_gt. destruct (Z.le_gt_cases 1 r) as [G|G].
  - rewrite Z.mod_small in H by lia. split; [lia|]. apply Z.mod_small. lia.
  - rewrite <- (Z.mod_add _ 1) in H by lia. rewrite Z.mod_small in H by lia. lia.
Qed.

(** Sign, exponent and mantissa put together. *)
Lemma pack_bits r m (neg : bool) : 1 <= r < 0x7FF -> 2 ^ 52 <= m < 2 ^ 53 ->
  let b := Z.lor (u64 (Z.shiftl r 52)) (Z.land m 0x000FFFFFFFFFFFFF) in
  Float64frombits (if neg then Z.lor b 0x8000000000000000 else b) =
    with_sign neg (Float64frombits (code m (r - 1075))).
Proof.
  intros Hr Hm b.
  assert (Eb : b = code m (r - 1075)).
  { unfold b. change 0x000FFFFFFFFFFFFF with (2 ^ 52 - 1). rewrite land_mask by lia.
    rewrite Z.shiftl_mul_pow2, u64_id, lor_add by (try apply Z.mod_pos_bound; lia).
    replace (m mod 2 ^ 52) with (m - 2 ^ 52) by (apply (Z.mod_unique _ _ 1); lia). unfold code. lia. }
  assert (Hb : 0 <= code m (r - 1075) < inf_bits) by (unfold code, inf_bits; lia).
  rewrite Eb. destruct neg; [|reflexivity].
  change 0x8000000000000000 with (1 * 2 ^ 63). rewrite Z.lor_comm, lor_add by (unfold inf_bits in Hb; lia).
  exact (proj1 (frombits_spec (code m (r - 1075)) true ltac:(lia))).
Qed.

Lemma normalised man : 0 < man < 2 ^ 64 ->
  let clz := LeadingZeros64 man in
  0 <= clz < 64 /\ u64 (Z.shiftl man clz) = man * 2 ^ clz /\ 2 ^ 63 <= man * 2 ^ clz < 2 ^ 64.
Proof.
  intros Hm. unfold LeadingZeros64. replace (man =? 0) with false by lia.
  pose proof (Z.log2_spec man ltac:(lia)) as [H1 H2]. pose proof (Z.log2_nonneg man) as H0.
  assert (H3 : Z.log2 man < 64) by (apply Z.log2_lt_pow2; lia). rewrite Z.pow_succ_r in H2 by lia.
  set (l := Z.log2 man) in *. cbv zeta.
  assert (E : 2 ^ 63 = 2 ^ l * 2 ^ (63 - l)) by (rewrite <- Z.pow_add_r by lia; f_equal; lia).
  pose proof (Z.pow_pos_nonneg 2 (63 - l) ltac:(lia) ltac:(lia)).
  assert (R : 2 ^ 63 <= man * 2 ^ (63 - l) < 2 ^ 64) by (change (2 ^ 64) with (2 * 2 ^ 63); rewrite E; nia).
  split; [lia|]. split; [|exact R]. rewrite Z.shiftl_mul_pow2 by lia. apply u64_id. lia.
Qed.

(** The true product in units of the low word, against the words computed. *)
Lemma true_product w q hi lo xHi xLo :
  detailedPowersOfTenMinExp10 <= q <= detailedPowersOfTenMaxExp10 -> pow10_row q = (lo, hi) -> 0 < w ->
  (xHi * 2 ^ 64 + xLo) * 2 ^ 64 <= w * (hi * 2 ^ 64 + lo) ->
  w * (hi * 2 ^ 64 + lo + 1) <= (xHi / 2 ^ 9 + 1) * 2 ^ 137 ->
  let T := (IZR w * tp q * bp (- (pow10_exp q + 64)))%R in
  (IZR (xHi * 2 ^ 64 + xLo) <= T < IZR ((xHi / 2 ^ 9 + 1) * 2 ^ 73))%R.
Proof.
  intros Hq Er Hw H1 H2 T. destruct (pow10_R q Hq) as [L U]. unfold pow10_bits in L, U. rewrite Er in L, U.
  cbn [fst snd] in L, U. set (P := hi * 2 ^ 64 + lo) in *. set (pe := pow10_exp q) in *.
  pose proof (bp_pos (- (pe + 64))) as Pb. apply IZR_lt in Hw. apply IZR_le in H1, H2.
  assert (Ebp : (bp pe * bp (- (pe + 64)) * IZR (2 ^ 64) = 1)%R).
  { rewrite <- bp_IZR, <- !bp_add by lia. replace (pe + - (pe + 64) + 64) with 0 by lia. exact bp_0. }
  rewrite (mult_IZR _ (2 ^ 64)), (mult_IZR w) in H1. rewrite (mult_IZR w), plus_IZR, mult_IZR in H2.
  replace (2 ^ 137) with (2 ^ 73 * 2 ^ 64) in H2 by reflexivity. rewrite !mult_IZR in H2 |- *.
  set (B := IZR (2 ^ 64)) in *. assert (PB : (0 < B)%R) by (apply IZR_lt; lia).
  set (c := bp (- (pe + 64))) in *. set (N := IZR (xHi * 2 ^ 64 + xLo)) in *.
  assert (LT : (IZR w * (IZR P * bp pe) * c <= T)%R).
  { unfold T. apply Rmult_le_compat_r; [lra|]. apply Rmult_le_compat_l; lra. }
  assert (UT : (T < IZR w * ((IZR P + 1) * bp pe) * c)%R).
  { unfold T. apply Rmult_lt_compat_r; [lra|]. apply Rmult_lt_compat_l; lra. }
  assert (Ec : (bp pe * c = / B)%R) by (apply (Rmult_eq_reg_r B); [rewrite Ebp, Rinv_l; lra|lra]).
  assert (PI : (0 < / B)%R) by now apply Rinv_0_lt_compat.
  assert (IB : (B * / B = 1)%R) by (apply Rinv_r; lra).
  split.
  - apply Rle_trans with (IZR w * IZR P * / B)%R; [|rewrite <- Ec; lra].
    apply Rle_trans with (N * B * / B)%R; [rewrite Rmult_assoc, IB; lra|]. apply Rmult_le_compat_r; lra.
  - apply Rlt_le_trans with (IZR w * (IZR P + 1) * / B)%R; [rewrite <- Ec; lra|].
    set (M := IZR (xHi / 2 ^ 9 + 1)) in *.
    apply Rle_trans with (M * (IZR (2 ^ 73) * B) * / B)%R; [apply Rmult_le_compat_r; lra|].
    right. transitivity (M * IZR (2 ^ 73) * (B * / B))%R; [ring|rewrite IB; ring].
Qed.

Lemma reads_zero q neg : reads (0 * tp q) neg (with_sign neg (S754_zero false)).
Proof.
  exists 0. split; [unfold inf_bits; lia|]. split; [|reflexivity].
  replace (0 * tp q)%R with (value 0) by (unfold value; cbn; lra). apply nearest_value. unfold inf_bits. lia.
Qed.

Theorem eiselLemire64_nearest man q neg f :
  0 <= man < 2 ^ 64 -> eiselLemire64 man q neg = Some f -> reads (IZR man * tp q) neg f.
Proof.
  intros Hman. unfold eiselLemire64. destruct (Z.eqb_spec man 0) as [->|Hne].
  { intros [= <-]. replace (if neg then Float64frombits 0x8000000000000000 else S754_zero false)
      with (with_sign neg (S754_zero false)) by now destruct neg. apply reads_zero. }
  destruct ((q <? _) || _) eqn:Eq; [discriminate|]. apply orb_false_iff in Eq as [Eq1%Z.ltb_ge Eq2%Z.ltb_ge].
  destruct (normalised man ltac:(lia)) as (Hclz & -> & Hw). set (clz := LeadingZeros64 man) in *.
  set (w := man * 2 ^ clz) in *. destruct (row_words q ltac:(lia)) as [Hlo Hhi].
  destruct (pow10_row q) as [lo hi] eqn:Er. cbn [fst snd] in Hlo, Hhi.
  destruct (eisel_product w (lo, hi)) as [[xHi xLo]|] eqn:Ep; [|discriminate].
  destruct (eisel_product_spec w lo hi xHi xLo Hw Hlo Hhi Ep) as (HxLo & HxHi & HN & HU).
  pose proof (true_product w q hi lo xHi xLo ltac:(lia) Er ltac:(lia) HN HU) as HT. cbv zeta in HT.
  set (T := (IZR w * tp q * _)%R) in HT.
  rewrite (Z.shiftr_div_pow2 xHi 63) by lia. set (msb := xHi / 2 ^ 63).
  assert (Hmsb : 0 <= msb <= 1) by (unfold msb; Z.to_euclidean_division_equations; lia).
  rewrite (Z.shiftr_div_pow2 xHi) by lia. set (r := xHi / 2 ^ (msb + 9)).
  assert (Hr : 2 ^ 53 <= r < 2 ^ 54 /\ r * 2 ^ msb <= xHi / 2 ^ 9 /\ xHi / 2 ^ 9 + 1 <= (r + 1) * 2 ^ msb).
  { unfold r. assert (msb = 0 \/ msb = 1) as [E|E] by lia; rewrite E; unfold msb in E;
      [change (2 ^ (0 + 9)) with (2 ^ 9)|change (2 ^ (1 + 9)) with (2 ^ 10)]; Z.to_euclidean_division_equations; lia. }
  destruct Hr as (Hr & Hr1 & Hr2).
  replace (Z.land xHi 0x1FF) with (xHi mod 2 ^ 9) by (symmetry; apply (land_mask xHi 9); lia).
  replace (Z.land r 3) with (r mod 4) by (symmetry; apply (land_mask r 2); lia).
  replace (Z.land r 1) with (r mod 2) by (symmetry; apply (land_mask r 1); lia).
  destruct (_ && _ && _) eqn:Etie; [discriminate|].
  assert (H2 : 0 <= r mod 2 < 2) by (apply Z.mod_pos_bound; lia).
  rewrite (u64_id (r + r mod 2)), (Z.shiftr_div_pow2 _ 1) by lia. change (2 ^ 1) with 2.
  set (m2 := (r + r mod 2) / 2).
  assert (Hm2 : 2 ^ 52 <= m2 <= 2 ^ 53) by (unfold m2; Z.to_euclidean_division_equations; lia).
  rewrite (Z.shiftr_div_pow2 m2 53), (Z.shiftr_div_pow2 m2 1) by lia. change (2 ^ 1) with 2.
  set (k := 73 + msb). set (c := pow10_exp q + 64 - clz).
  assert (Ek : bp k = IZR (2 ^ msb * 2 ^ 73)) by (unfold k; rewrite Z.add_comm, bp_add, !bp_IZR, <- mult_IZR by lia; reflexivity).
  assert (HTk : (IZR r * bp k <= T < IZR (r + 1) * bp k)%R).
  { rewrite Ek, <- !mult_IZR. split.
    - eapply Rle_trans; [|apply HT]. apply IZR_le. pose proof (Z.mul_div_le xHi (2 ^ 9) ltac:(lia)).
      rewrite Z.mul_assoc. lia.
    - eapply Rlt_le_trans; [apply HT|]. apply IZR_le. rewrite Z.mul_assoc. lia. }
  assert (Htie : r mod 4 = 1 -> (IZR r * bp k < T)%R).
  { intros E4. rewrite E4 in Etie. cbn in Etie. rewrite andb_true_r in Etie.
    rewrite Ek, <- mult_IZR. eapply Rlt_le_trans; [|apply HT]. apply IZR_lt.
    pose proof (Z.div_mod xHi (2 ^ 9) ltac:(lia)). pose proof (Z.mod_pos_bound xHi (2 ^ 9) ltac:(lia)).
    set (h := xHi / 2 ^ 9) in *. rewrite Z.mul_assoc.
    apply (Z.mul_le_mono_nonneg_r _ _ (2 ^ 73)) in Hr1; [|lia]. change 512 with (2 ^ 9) in Etie.
    clear - H H0 Hr1 Etie HxLo. clearbody h r msb. apply andb_false_iff in Etie as [E%Z.eqb_neq|E%Z.eqb_neq]; lia. }
  assert (EX : (IZR man * tp q = T * bp c)%R).
  { unfold T, c, w. rewrite mult_IZR, <- bp_IZR by lia.
    transitivity (IZR man * tp q * (bp clz * bp (- (pow10_exp q + 64)) * bp (pow10_exp q + 64 - clz)))%R; [|ring].
    rewrite <- !bp_add. replace (clz + - (pow10_exp q + 64) + (pow10_exp q + 64 - clz)) with 0 by lia. rewrite bp_0. ring. }
  pose proof (shift_round _ T r k c (k + 1 + c) Hr ltac:(lia) HTk Htie EX eq_refl) as Hround.
  cbv zeta in Hround. fold m2 in Hround. set (e1 := k + 1 + c) in *.
  assert (Er2 : u64 (u64 (u64 (Z.shiftr (217706 * q) 16 + 64 + 1023) - clz) - Z.lxor 1 msb) = u64 (e1 + 1075)).
  { rewrite u64_sub, <- Z.sub_add_distr, u64_sub. f_equal. unfold e1, k, c, pow10_exp.
    replace (Z.lxor 1 msb) with (1 - msb) by (assert (msb = 0 \/ msb = 1) as [-> | ->] by lia; reflexivity). ring. }
  rewrite Er2, u64_add.
  assert (He1 : - 2 ^ 20 < e1 + 1075 < 2 ^ 20).
  { unfold e1, k, c, pow10_exp, detailedPowersOfTenMinExp10, detailedPowersOfTenMaxExp10 in *.
    rewrite Z.shiftr_div_pow2 by lia. clear - Eq1 Eq2 Hclz Hmsb. Z.to_euclidean_division_equations. lia. }
  assert (Hc : m2 / 2 ^ 53 = 0 /\ m2 < 2 ^ 53 \/ m2 / 2 ^ 53 = 1 /\ m2 = 2 ^ 53).
  { destruct (Z.eq_dec m2 (2 ^ 53)) as [->|]; [right; now split|left]. split; [apply Z.div_small|]; lia. }
  destruct Hc as [[Ec Hlt]|[Ec E53]]; rewrite Ec in *; cbn [Z.ltb Z.compare]; cbv beta iota zeta.
  - destruct (_ <=? _) eqn:Echk; [discriminate|]. apply check_exponent in Echk as [Hrange ->]; [|lia].
    intros H. destruct (Hround ltac:(lia)) as [Hn Hi]. exists (code m2 e1). split; [exact Hi|].
    split; [exact Hn|]. apply Some_inv in H as <-. rewrite pack_bits by lia. now replace (e1 + 1075 - 1075) with e1 by lia.
  - destruct (_ <=? _) eqn:Echk; [discriminate|]. apply check_exponent in Echk as [Hrange ->]; [|lia].
    intros H. destruct (Hround ltac:(lia)) as [Hn Hi]. exists (code m2 e1). split; [exact Hi|].
    split; [exact Hn|]. apply Some_inv in H as <-. rewrite E53. change (2 ^ 53 / 2) with (2 ^ 52). rewrite pack_bits by lia.
    do 2 f_equal. unfold code. lia.
Qed.
