(* ===== verification/ExactSpec.v ===== *)
(** The exact path of ParseFloat: integers and powers of ten that are floats themselves,
    and one rounding. *)
From Stdlib Require Import ZArith Reals Lra Lia SpecFloat Bool.
From S2P Require Import Prelude Float64 Rounding Nearest Tens Atof EiselSpec.
Local Open Scope R_scope.

Lemma float64pow10_exact k : (0 <= k <= 22)%Z -> nonneg (float64pow10 k) /\ val (float64pow10 k) = tp k.
Proof.
  intros Hk. unfold float64pow10. rewrite tp_IZR by lia. apply rounded_exact.
  - apply of_Z_rounded. pose proof (Z.pow_nonneg 10 k). lia.
  - exists (5 ^ k)%Z, k. split; [|split; [lia|]].
    + split; [apply Z.pow_nonneg; lia|]. apply Z.le_lt_trans with (5 ^ 22)%Z; [apply Z.pow_le_mono_r; lia|reflexivity].
    + rewrite <- tp_IZR by lia. apply tp_five. lia.
Qed.

Lemma SFltb_opp a b : nonneg a -> nonneg b -> SFltb (SFopp a) (SFopp b) = SFltb b a.
Proof.
  intros (_ & Sa & Fa) (_ & Sb & Fb).
  destruct a as [sa| | |sa ma ea], b as [sb| | |sb mb eb]; try discriminate; cbn in Sa, Sb; subst; try reflexivity.
  unfold SFltb. cbn [SFopp SFcompare negb]. rewrite (Z.compare_antisym eb ea).
  destruct (Z.compare_spec eb ea) as [->|H|H]; cbn [CompOpp]; try reflexivity.
  change (Pos.compare_cont Eq mb ma) with (Pos.compare mb ma).
  change (Pos.compare_cont Eq ma mb) with (Pos.compare ma mb). rewrite (Pos.compare_antisym mb ma).
  destruct (Pos.compare mb ma); reflexivity.
Qed.

(** The test for a number that is too large for an exact product. *)
Lemma too_large_spec neg g : nonneg g ->
  SFltb (of_Z (10 ^ 15)) (with_sign neg g) || SFltb (with_sign neg g) (of_Z (- 10 ^ 15)) = false ->
  val g <= IZR (10 ^ 15).
Proof.
  intros Hg. destruct (of_Z_exact (10 ^ 15) ltac:(lia)) as [Hp Ep]. rewrite <- Ep. intros H.
  apply orb_false_iff in H as [H1 H2]. destruct neg; cbn [with_sign] in H1, H2.
  - change (of_Z (- 10 ^ 15)) with (SFopp (of_Z (10 ^ 15))) in H2. rewrite SFltb_opp in H2 by assumption.
    destruct (SFltb_val _ _ Hp Hg); [discriminate|]. lra.
  - destruct (SFltb_val _ _ Hp Hg); [discriminate|]. lra.
Qed.

(** Zeros moved into the integer part: exact if the result is not too large. *)
Lemma zeros_moved m k : (0 <= m < 2 ^ 52)%Z -> (0 <= k <= 15)%Z ->
  let g := mul (of_Z m) (float64pow10 k) in
  nonneg g /\ (val g <= IZR (10 ^ 15) -> val g = IZR m * tp k).
Proof.
  intros Hm Hk g. destruct (of_Z_exact m ltac:(lia)) as [Nm Em].
  destruct (float64pow10_exact k ltac:(lia)) as [Nk Ek].
  pose proof (mul_rounded _ _ Nm Nk) as Hr. rewrite Em, Ek in Hr. fold g in Hr.
  assert (Hbig : IZR m * tp k <= IZR (2 ^ 52) * bp 50).
  { rewrite bp_IZR, tp_IZR by lia. rewrite <- !mult_IZR. apply IZR_le.
    assert (0 <= 10 ^ k <= 10 ^ 15)%Z by (split; [apply Z.pow_nonneg|apply Z.pow_le_mono_r]; lia). nia. }
  assert (Nbig : rep (IZR (2 ^ 52) * bp 50)) by (exists (2 ^ 52)%Z, 50%Z; repeat split; lia).
  destruct (rounded_nonneg _ _ _ Hr Nbig Hbig) as [Ng _]. split; [exact Ng|]. intros Hle.
  rewrite tp_IZR in * by lia. rewrite <- mult_IZR in *.
  destruct (Z.le_gt_cases (m * 10 ^ k) (10 ^ 15)) as [L|G].
  - apply rounded_exact; [exact Hr|]. apply rep_IZR. split; [|lia]. pose proof (Z.pow_nonneg 10 k). nia.
  - assert (H1 : IZR (10 ^ 15 + 1) <= val g).
    { apply (rounded_ge _ _ _ Hr Ng); [apply rep_IZR; lia|]. apply IZR_le. lia. }
    rewrite plus_IZR in H1. lra.
Qed.

Lemma reads_intro x neg v : nearest_float x v -> x < IZR (2 ^ 54 - 1) * bp 970 -> reads x neg (with_sign neg v).
Proof.
  intros (n & Hb & Hn) Hx. exists n. split; [exact (nearest_finite x n Hn Hx)|]. split; [exact Hn|].
  now rewrite (has_bits_frombits v n Hb).
Qed.

Lemma small_finite m k : (0 <= m < 2 ^ 52)%Z -> (k <= 37)%Z -> IZR m * tp k < IZR (2 ^ 54 - 1) * bp 970.
Proof.
  intros Hm Hk. apply Rle_lt_trans with (IZR (2 ^ 52) * tp 37).
  - pose proof (tp_pos k). pose proof (tp_le k 37 Hk). assert (0 <= IZR m <= IZR (2 ^ 52)) by (split; apply IZR_le; lia). nra.
  - rewrite tp_IZR, bp_IZR, <- !mult_IZR by lia. apply IZR_lt. now vm_compute.
Qed.

Lemma nearest_float_val v : nonneg v -> nearest_float (val v) v.
Proof.
  intros Hv. destruct (nonneg_bits v Hv) as (Hb & Hr & E). exists (Float64bits v). split; [exact Hb|].
  rewrite E. now apply nearest_value.
Qed.

Theorem atof64exact_nearest m e neg f :
  (0 <= m)%Z -> atof64exact m e neg = Some f -> reads (IZR m * tp e) neg f.
Proof.
  intros Hm. unfold atof64exact. destruct (negb _) eqn:E; [discriminate|].
  apply negb_false_iff, Z.eqb_eq in E. cbn [mantbits float64info] in E. rewrite Z.shiftr_div_pow2 in E by lia.
  assert (Hm52 : (m < 2 ^ 52)%Z) by (Z.to_euclidean_division_equations; lia). clear E.
  destruct (of_Z_exact m ltac:(lia)) as [Nm Em].
  replace (if neg then SFopp (of_Z m) else of_Z m) with (with_sign neg (of_Z m)) by reflexivity.
  destruct (Z.eqb_spec e 0) as [->|He0].
  { intros [= <-]. apply reads_intro; [|apply small_finite; lia].
    rewrite tp_0, Rmult_1_r, <- Em. now apply nearest_float_val. }
  destruct ((0 <? e) && (e <=? 15 + 22))%Z eqn:Ep.
  - destruct (Z.ltb_spec 22 e) as [Hbig|Hsmall].
    + destruct (float64pow10_exact (e - 22) ltac:(lia)) as [Nk _].
      rewrite mul_sign by assumption. destruct (zeros_moved m (e - 22) ltac:(lia) ltac:(lia)) as [Ng Eg].
      set (g := mul (of_Z m) (float64pow10 (e - 22))) in *.
      destruct (_ || _) eqn:Elarge; [discriminate|]. specialize (Eg (too_large_spec neg g Ng Elarge)).
      destruct (float64pow10_exact 22 ltac:(lia)) as [N22 E22].
      rewrite mul_sign by assumption. intros [= <-]. apply reads_intro; [|apply small_finite; lia].
      replace (IZR m * tp e) with (val g * val (float64pow10 22)); [now apply mul_nearest|].
      rewrite Eg, E22, Rmult_assoc, <- tp_add. do 2 f_equal. lia.
    + destruct (_ || _); [discriminate|]. destruct (float64pow10_exact e ltac:(lia)) as [Nk Ek].
      rewrite mul_sign by assumption. intros [= <-]. apply reads_intro; [|apply small_finite; lia].
      rewrite <- Em, <- Ek. now apply mul_nearest.
  - destruct ((e <? 0) && (-22 <=? e))%Z eqn:En; [|discriminate].
    destruct (float64pow10_exact (- e) ltac:(lia)) as [Nk Ek].
    assert (Pk : 0 < val (float64pow10 (- e))) by (rewrite Ek; apply tp_pos).
    rewrite div_sign by assumption. intros [= <-]. apply reads_intro; [|apply small_finite; lia].
    replace (IZR m * tp e) with (val (of_Z m) / val (float64pow10 (- e))).
    2:{ rewrite Em, Ek. pose proof (tp_pos (- e)). apply (Rmult_eq_reg_r (tp (- e))); [|lra].
        unfold Rdiv. rewrite !Rmult_assoc, Rinv_l, (Rmult_comm (tp e)), tp_inv by lra. reflexivity. }
    destruct (Z.eq_dec m 0) as [->|Hm0].
    + rewrite Em. replace (0 / val (float64pow10 (- e))) with 0 by (field; lra).
      replace (div (of_Z 0) (float64pow10 (- e))) with (S754_zero false).
      * exists 0%Z. split; [now repeat split|]. replace 0 with (value 0) by (unfold value; cbn; lra).
        apply nearest_value. unfold inf_bits. lia.
      * destruct Nk as (_ & Sk & Fk). change (of_Z 0) with (S754_zero false).
        destruct (float64pow10 (- e)) as [s| | |s p x]; try discriminate; cbn in Pk, Sk; [lra|]. now rewrite Sk.
    + apply div_nearest; try assumption. rewrite Em. apply IZR_lt. lia.
Qed.
