(* ===== verification/DecimalSpec.v ===== *)
(** The multiprecision decimals of [Decimal] as real numbers: shifts are exact while the
    digits fit the buffer, and rounding to an integer goes to the nearest. *)
From Stdlib Require Import ZArith Reals Lra Lia Bool List.
From S2P Require Import Prelude Strconv Utf8 Float64 Rounding Tens Decimal EiselSpec.
Import ListNotations.
Local Open Scope Z_scope.

(** * Digit lists *)

Fixpoint num (l : list Z) : Z :=
  match l with
  | [] => 0
  | c :: l => (c - 48) * 10 ^ len l + num l
  end.

Lemma pow10_pos n : 0 <= n -> 0 < 10 ^ n.
Proof. intros H. now apply Z.pow_pos_nonneg. Qed.

Lemma is_digit_range c : is_digit c = true -> 48 <= c <= 57.
Proof. unfold is_digit. lia. Qed.

Lemma pow10_succ n : 0 <= n -> 10 ^ (n + 1) = 10 * 10 ^ n.
Proof. intros H. now rewrite Z.pow_add_r, Z.mul_comm by lia. Qed.

Lemma num_bound l : digits l -> 0 <= num l < 10 ^ len l.
Proof.
  induction 1 as [|c l Hc Hl IH]; [cbn; lia|]. cbn [num]. rewrite len_cons, Z.add_comm, pow10_succ by apply len_nonneg.
  apply is_digit_range in Hc. nia.
Qed.

Lemma num_app a b : num (a ++ b) = num a * 10 ^ len b + num b.
Proof.
  induction a as [|c a IH]; [reflexivity|]. cbn [num app]. rewrite IH, len_app, Z.pow_add_r by apply len_nonneg. ring.
Qed.

Lemma num_cons c l : num (c :: l) = (c - 48) * 10 ^ len l + num l.
Proof. reflexivity. Qed.

Lemma num_one c : num [c] = c - 48.
Proof. cbn. lia. Qed.

Lemma num_zeros n : num (repeat 48 n) = 0.
Proof. induction n as [|n IH]; [reflexivity|]. cbn [repeat num]. lia. Qed.

Lemma num_head c l : digits (c :: l) -> c <> 48 -> 10 ^ len l <= num (c :: l).
Proof.
  intros Hd Hc. inversion Hd as [|? ? H1 H2]; subst. cbn [num]. pose proof (num_bound l H2).
  apply is_digit_range in H1. nia.
Qed.

Lemma num_last_digit l c : digits (l ++ [c]) -> c <> 48 -> num (l ++ [c]) mod 10 <> 0.
Proof.
  intros Hd Hc. apply Forall_app in Hd as [_ H]. inversion H as [|? ? H1 _]; subst. apply is_digit_range in H1.
  rewrite num_app, num_one. change (10 ^ len [c]) with 10. rewrite Z.add_comm, Z.mod_add, Z.mod_small by lia. lia.
Qed.

Lemma digits_app a b : digits (a ++ b) <-> digits a /\ digits b.
Proof. apply Forall_app. Qed.

(** The digit of a number below ten. *)
Lemma digit_of v : 0 <= v < 10 -> byte_ (v + 48) = 48 + v /\ is_digit (48 + v) = true.
Proof.
  intros H. split; [|unfold is_digit; lia]. unfold byte_. change 0xFF with (2 ^ 8 - 1).
  rewrite land_mask, Z.mod_small by lia. lia.
Qed.

(** The count of digits of a number is determined. *)
Lemma count_unique N a b : 0 <= a -> 0 <= b -> 10 ^ a <= N < 10 ^ (a + 1) -> 10 ^ b <= N < 10 ^ (b + 1) -> a = b.
Proof.
  intros Ha Hb H1 H2. destruct (Z.lt_trichotomy a b) as [L|[E|L]]; [|exact E|].
  - pose proof (Z.pow_le_mono_r 10 (a + 1) b). lia.
  - pose proof (Z.pow_le_mono_r 10 (b + 1) a). lia.
Qed.

(** * Decimals *)

Definition wf (a : decimal) : Prop :=
  digits (d a) /\ nd a <= max_digits /\ match d a with c :: _ => c <> 48 | [] => False end.

Definition trimmed (a : decimal) : Prop := forall l c, d a = l ++ [c] -> c <> 48.

Definition dec_value (l : list Z) (dp : Z) : R := (IZR (num l) * tp (dp - len l))%R.

(** [a] is the number [x], up to its sign. *)
Definition holds (a : decimal) (x : R) : Prop := wf a /\ dec_value (d a) (dp a) = x.

Lemma trim_digits_zeros l : exists n, l = trim_digits l ++ repeat 48 n.
Proof.
  induction l as [|c l (n & IH)]; [now exists 0%nat|]. cbn [trim_digits]. destruct (trim_digits l) as [|t r].
  - destruct (Z.eqb_spec c 48) as [->|Hc].
    + exists (S n). cbn [app repeat] in *. now rewrite <- IH.
    + exists n. cbn [app] in *. now rewrite <- IH.
  - exists n. cbn [app] in *. now rewrite <- IH.
Qed.

Lemma trim_digits_last l : forall r c, trim_digits l = r ++ [c] -> c <> 48.
Proof.
  induction l as [|x l IH]; intros r c H; cbn [trim_digits] in H; [now destruct r|].
  destruct (trim_digits l) as [|t q] eqn:E.
  - destruct (Z.eqb_spec x 48); [now destruct r|]. destruct r as [|y r]; [now injection H as ->|now destruct r].
  - destruct r as [|y r]; [discriminate|]. injection H as _ H. now apply (IH r c).
Qed.

Lemma len_repeat x n : len (repeat x n) = Z.of_nat n.
Proof. unfold len. now rewrite repeat_length. Qed.

Lemma value_zeros l n dp : dec_value (l ++ repeat 48 n) dp = dec_value l dp.
Proof.
  unfold dec_value. rewrite num_app, num_zeros, Z.add_0_r, len_app, len_repeat, mult_IZR, <- tp_IZR, Rmult_assoc, <- tp_add by lia.
  do 2 f_equal. lia.
Qed.

Lemma trim_holds l dp neg tr :
  digits l -> len l <= max_digits -> (match l with c :: _ => c <> 48 | [] => False end) ->
  let b := trim (mkDecimal l dp neg tr) in
  holds b (dec_value l dp) /\ trimmed b /\ Decimal.neg b = neg /\ trunc b = tr.
Proof.
  intros Hd Hl Hh b. destruct (trim_digits_zeros l) as (n & En).
  assert (Ed : d b = trim_digits l) by reflexivity.
  assert (Hne : exists c r, trim_digits l = c :: r /\ c <> 48).
  { destruct l as [|c l]; [easy|]. cbn [trim_digits]. destruct (trim_digits l); [|now exists c; eexists].
    destruct (Z.eqb_spec c 48); [easy|]. now exists c, []. }
  destruct Hne as (c & r & Ecr & Hc).
  split; [|split; [|easy]].
  - split.
    + unfold wf. rewrite Ed. split; [|split; [|now rewrite Ecr]].
      * rewrite En in Hd. now apply digits_app in Hd.
      * unfold nd. rewrite Ed. rewrite En, len_app in Hl. pose proof (len_nonneg (repeat 48 n)). lia.
    + rewrite Ed. replace (Decimal.dp b) with dp by (unfold b, trim; cbn [Decimal.d Decimal.dp]; now rewrite Ecr).
      rewrite En at 2. now rewrite value_zeros.
  - intros p x. rewrite Ed. apply trim_digits_last.
Qed.

(** * Right shift *)

(** A number of at most 800 digits. *)
Definition fits (x : R) : Prop := exists z p, (x = IZR z * tp (- p) /\ x < tp (max_digits - p))%R.

Lemma shiftr_zero n k : 0 <= k -> 0 <= n -> (Z.shiftr n k =? 0) = (n <? 2 ^ k).
Proof.
  intros Hk Hn. rewrite Z.shiftr_div_pow2 by exact Hk. pose proof (Z.pow_pos_nonneg 2 k ltac:(lia) Hk).
  destruct (Z.ltb_spec n (2 ^ k)) as [H1|H1]; [now rewrite Z.div_small by lia|].
  apply Z.eqb_neq. pose proof (Z.div_str_pos n (2 ^ k) ltac:(lia)). lia.
Qed.

Lemma pow_shift_bound k : 0 < k <= maxShift -> 2 <= 2 ^ k /\ 10 * 2 ^ k < 2 ^ 64.
Proof.
  unfold maxShift. intros Hk. pose proof (Z.pow_le_mono_r 2 1 k ltac:(lia) ltac:(lia)).
  pose proof (Z.pow_le_mono_r 2 k 60 ltac:(lia) ltac:(lia)). lia.
Qed.

(** Zeros are appended until the number covers the shift. *)
Lemma pad_up_spec k : 0 < k <= maxShift -> forall fuel n r, 0 < n < 2 ^ k -> 2 ^ k <= n * 10 ^ Z.of_nat fuel ->
  exists n' r', pad_up fuel k n r = (n', r') /\ r <= r' /\ n' = n * 10 ^ (r' - r) /\ 2 ^ k <= n' < 10 * 2 ^ k.
Proof.
  intros Hk. destruct (pow_shift_bound k Hk) as [H2 H64]. 
  assert (Gen : forall fuel n r, 0 < n < 10 * 2 ^ k -> 2 ^ k <= n * 10 ^ Z.of_nat fuel ->
    exists n' r', pad_up fuel k n r = (n', r') /\ r <= r' /\ n' = n * 10 ^ (r' - r) /\ 2 ^ k <= n' < 10 * 2 ^ k).
  { induction fuel as [|fuel IH]; intros n r Hn Hf; cbn [pad_up].
    - exists n, r. rewrite Z.sub_diag. cbn in Hf. repeat split; lia.
    - rewrite shiftr_zero by lia. destruct (Z.ltb_spec n (2 ^ k)) as [H|H].
      + rewrite Nat2Z.inj_succ, Z.pow_succ_r in Hf by lia. rewrite u64_id by lia.
        destruct (IH (n * 10) (r + 1) ltac:(lia) ltac:(lia)) as (n' & r' & -> & Hr & -> & Hb).
        exists (n * 10 * 10 ^ (r' - (r + 1))), r'. split; [reflexivity|]. split; [lia|].
        replace (r' - r) with (r' - (r + 1) + 1) by lia. rewrite pow10_succ by lia. split; [ring|exact Hb].
      + exists n, r. rewrite Z.sub_diag. repeat split; lia. }
  intros fuel n r Hn. apply Gen. lia.
Qed.

(** The leading digits that cover the shift, read or made up of zeros. *)
Lemma pick_up_spec k : 0 < k <= maxShift -> forall l n r, digits l -> 0 <= n < 10 * 2 ^ k -> 0 <= r ->
  0 < n \/ 0 < num l ->
  exists n' r' l', pick_up k n r l = Some (n', r', l') /\ digits l' /\ len l' <= len l /\
    r <= r' /\ len l <= r' - r + len l' /\
    (n' * 10 ^ len l' + num l') = (n * 10 ^ len l + num l) * 10 ^ (r' - r + len l' - len l) /\
    2 ^ k <= n' < 10 * 2 ^ k.
Proof.
  intros Hk. destruct (pow_shift_bound k Hk) as [H2 H64].
  induction l as [|c l IH]; intros n r Hd Hn Hr Hpos; cbn [pick_up]; rewrite shiftr_zero by lia;
    destruct (Z.ltb_spec n (2 ^ k)) as [H|H].
  - cbn [num] in Hpos. replace (n =? 0) with false by lia.
    assert (Hf : 2 ^ k <= n * 10 ^ Z.of_nat 20) by (unfold maxShift in Hk; pose proof (Z.pow_le_mono_r 2 k 60); lia).
    destruct (pad_up_spec k Hk 20 n r ltac:(lia) Hf) as (n' & r' & -> & Hr' & En & Hb).
    exists n', r', []. split; [reflexivity|]. split; [constructor|]. cbn [num len] in *. change (len []) with 0.
    rewrite !Z.add_0_r, !Z.sub_0_r, Z.pow_0_r, !Z.mul_1_r. repeat split; lia.
  - exists n, r, []. split; [reflexivity|]. split; [constructor|]. cbn [num]. change (len []) with 0.
    replace (r - r + 0 - 0) with 0 by lia. rewrite Z.pow_0_r. repeat split; lia.
  - inversion Hd as [|? ? Hc Hl]; subst. apply is_digit_range in Hc. rewrite u64_id by lia.
    replace (n * 10 + c - 48) with (n * 10 + (c - 48)) by lia.
    destruct (IH (n * 10 + (c - 48)) (r + 1) Hl ltac:(lia) ltac:(lia)) as (n' & r' & l' & -> & Hd' & Hl' & Hr' & Hge & E & Hb).
    { cbn [num] in Hpos. pose proof (pow10_pos (len l) (len_nonneg l)). pose proof (num_bound l Hl). nia. }
    exists n', r', l'. split; [reflexivity|]. split; [exact Hd'|]. rewrite len_cons.
    split; [lia|]. split; [lia|]. split; [lia|]. split; [|exact Hb]. rewrite E. cbn [num].
    replace (r' - (r + 1) + len l' - len l) with (r' - r + len l' - (len l + 1)) by lia.
    rewrite pow10_succ by apply len_nonneg. ring.
  - exists n, r, (c :: l). split; [reflexivity|]. split; [exact Hd|].
    replace (r - r + len (c :: l) - len (c :: l)) with 0 by lia. rewrite Z.pow_0_r. repeat split; lia.
Qed.

Lemma split_shift n k : 0 <= k -> 0 <= n ->
  n = 2 ^ k * Z.shiftr n k + Z.land n (2 ^ k - 1) /\ 0 <= Z.land n (2 ^ k - 1) < 2 ^ k.
Proof.
  intros Hk Hn. rewrite land_mask, Z.shiftr_div_pow2 by exact Hk.
  pose proof (Z.pow_pos_nonneg 2 k ltac:(lia) Hk). split; [apply Z.div_mod; lia|apply Z.mod_pos_bound; lia].
Qed.

(** A digit put down for a digit picked up. *)
Lemma right_digits_spec k : 0 < k <= maxShift -> forall l n, digits l -> 0 <= n < 10 * 2 ^ k ->
  exists out n', right_digits k n l = (out, n') /\ digits out /\ len out = len l /\ 0 <= n' < 10 * 2 ^ k /\
    n * 10 ^ len l + num l = 10 * 2 ^ k * num out + n' /\
    match out with c :: _ => c = 48 + n / 2 ^ k | [] => l = [] /\ n' = n end.
Proof.
  intros Hk. destruct (pow_shift_bound k Hk) as [H2 H64].
  induction l as [|c l IH]; intros n Hd Hn; cbn [right_digits].
  - exists [], n. split; [reflexivity|]. split; [constructor|]. cbn [num]. change (len []) with 0.
    rewrite Z.pow_0_r. repeat split; lia.
  - inversion Hd as [|? ? Hc Hl]; subst. apply is_digit_range in Hc.
    destruct (split_shift n k ltac:(lia) ltac:(lia)) as [En Hrem].
    set (rem := Z.land n (2 ^ k - 1)) in *. set (q := Z.shiftr n k) in *.
    assert (Hq : 0 <= q < 10) by nia.
    rewrite u64_id by lia. replace (rem * 10 + c - 48) with (rem * 10 + (c - 48)) by lia.
    destruct (IH (rem * 10 + (c - 48)) Hl ltac:(lia)) as (out & n' & -> & Hout & Hlen & Hn' & E & _).
    destruct (digit_of q Hq) as [Eb Hdig]. rewrite Eb.
    exists ((48 + q) :: out), n'. split; [reflexivity|]. split; [now constructor|].
    rewrite !len_cons, Hlen. split; [reflexivity|]. split; [exact Hn'|]. split.
    + cbn [num]. rewrite Hlen, pow10_succ by apply len_nonneg. nia.
    + f_equal. unfold q. now rewrite Z.shiftr_div_pow2 by lia.
Qed.

(** The extra digits, as many as there are: the last of them is not a zero. *)
Lemma right_extra_spec k : 0 < k <= maxShift -> forall fuel n, 0 <= n < 10 * 2 ^ k ->
  n = 0 \/ (1 <= fuel)%nat /\ (2 ^ k | n * 2 ^ Z.of_nat (fuel - 1)) ->
  exists E, digits E /\ n * 10 ^ len E = 10 * 2 ^ k * num E /\
    (forall p c, E = p ++ [c] -> c <> 48) /\
    match E with c :: _ => c = 48 + n / 2 ^ k | [] => n = 0 end /\
    forall w, w + len E <= max_digits -> right_extra fuel k n w = (E, false).
Proof.
  intros Hk. destruct (pow_shift_bound k Hk) as [H2 H64].
  assert (Stop : forall fuel, exists E, digits E /\ 0 * 10 ^ len E = 10 * 2 ^ k * num E /\
    (forall p c, E = p ++ [c] -> c <> 48) /\ match E with c :: _ => c = 48 + 0 / 2 ^ k | [] => 0 = 0 end /\
    forall w, w + len E <= max_digits -> right_extra fuel k 0 w = (E, false)).
  { intros fuel. exists []. split; [constructor|]. split; [cbn; lia|]. split; [now intros [|]|].
    split; [reflexivity|]. intros w _. now destruct fuel. }
  induction fuel as [|fuel IH]; intros n Hn Hdiv.
  - destruct Hdiv as [->|[H _]]; [apply Stop|lia].
  - destruct (Z.eq_dec n 0) as [->|Hn0]; [apply Stop|]. destruct Hdiv as [|[_ Hdiv]]; [easy|].
    replace (S fuel - 1)%nat with fuel in Hdiv by lia.
    destruct (split_shift n k ltac:(lia) ltac:(lia)) as [En Hrem].
    remember (Z.land n (2 ^ k - 1)) as rem eqn:Erem. remember (Z.shiftr n k) as q eqn:Eq.
    assert (Hq : 0 <= q < 10) by nia.
    assert (Hdiv' : rem * 10 = 0 \/ (1 <= fuel)%nat /\ (2 ^ k | rem * 10 * 2 ^ Z.of_nat (fuel - 1))).
    { destruct fuel as [|fuel].
      - left. change (2 ^ Z.of_nat 0) with 1 in Hdiv. rewrite Z.mul_1_r in Hdiv. destruct Hdiv as [t Ht].
        assert (t = q) by nia. nia.
      - right. split; [lia|]. replace (S fuel - 1)%nat with fuel by lia.
        replace (rem * 10 * 2 ^ Z.of_nat fuel) with (rem * 2 ^ Z.of_nat (S fuel) * 5)
          by (rewrite Nat2Z.inj_succ, Z.pow_succ_r by lia; ring).
        apply Z.divide_mul_l. replace rem with (n - 2 ^ k * q) by lia. rewrite Z.mul_sub_distr_r.
        apply Z.divide_sub_r; [exact Hdiv|]. exists (q * 2 ^ Z.of_nat (S fuel)). ring. }
    destruct (IH (rem * 10) ltac:(lia) Hdiv') as (E & HE & Eeq & Elast & Ehead & Erun).
    destruct (digit_of q Hq) as [Eb Hdig].
    exists ((48 + q) :: E). split; [now constructor|]. split; [|split; [|split]].
    + cbn [num]. rewrite len_cons, pow10_succ by apply len_nonneg. nia.
    + intros p c H. pose proof (f_equal (hd 0) H) as Hhd. pose proof (f_equal (@tl Z) H) as Htl.
      destruct p as [|y p]; cbn [hd tl app] in Hhd, Htl; [|now apply (Elast p)].
      rewrite Htl in Ehead. intros Hc. assert (q = 0) as H0 by lia. rewrite H0 in En. lia.
    + f_equal. rewrite Eq. now rewrite Z.shiftr_div_pow2 by lia.
    + intros w Hw. cbn [right_extra]. replace (0 <? n) with true by lia. rewrite <- Erem, <- Eq.
      rewrite len_cons in Hw. pose proof (len_nonneg E). replace (w <? max_digits) with true by lia.
      rewrite u64_id by lia. rewrite Erun by lia. now rewrite Eb.
Qed.

(** What a shift leaves alone. *)
Definition shifted (a b : decimal) (x : R) : Prop :=
  holds b x /\ trimmed b /\ Decimal.neg b = Decimal.neg a /\ trunc b = trunc a.

Lemma holds_pos a x : holds a x -> 0 < num (d a) /\ (0 < x)%R /\ (tp (dp a - 1) <= x < tp (dp a))%R.
Proof.
  intros [(Hd & Hl & Hh) <-]. unfold dec_value. destruct (d a) as [|c l] eqn:E; [easy|].
  pose proof (num_head c l Hd Hh) as Hlow. pose proof (num_bound _ Hd) as Hup.
  pose proof (pow10_pos (len l) (len_nonneg l)). pose proof (tp_pos (dp a - len (c :: l))) as P.
  split; [lia|]. split; [apply Rmult_lt_0_compat; [apply IZR_lt; lia|exact P]|]. split.
  - replace (dp a - 1) with (len l + (dp a - len (c :: l))) by (rewrite len_cons; lia).
    rewrite tp_add, (tp_IZR (len l)) by apply len_nonneg. apply Rmult_le_compat_r; [lra|]. now apply IZR_le.
  - replace (dp a) with (len (c :: l) + (dp a - len (c :: l))) at 2 by lia.
    rewrite tp_add, (tp_IZR (len (c :: l))) by apply len_nonneg. apply Rmult_lt_compat_r; [lra|]. now apply IZR_lt.
Qed.

(** Digits with a last one that is not zero have no more places than the number needs. *)
Lemma places_needed l c z p e :
  digits (l ++ [c]) -> c <> 48 -> (IZR (num (l ++ [c])) * tp e = IZR z * tp (- p))%R -> - p <= e.
Proof.
  intros Hd Hc E. pose proof (num_last_digit l c Hd Hc) as Hm. destruct (Z.le_gt_cases (- p) e) as [H|H]; [exact H|].
  exfalso. apply Hm. rewrite (tp_split e (- p)), <- Rmult_assoc, <- mult_IZR in E by lia.
  apply Rmult_eq_reg_r in E; [|pose proof (tp_pos e); lra]. apply eq_IZR in E. rewrite E.
  replace (- p - e) with (- p - e - 1 + 1) by lia. rewrite pow10_succ by lia.
  replace (z * (10 * 10 ^ (- p - e - 1))) with (z * 10 ^ (- p - e - 1) * 10) by ring. apply Z.mod_mul. lia.
Qed.

(** The same for the length: it is within the bound of [fits]. *)
Lemma fits_length c l e x : digits (c :: l) -> c <> 48 -> (forall p t, c :: l = p ++ [t] -> t <> 48) ->
  dec_value (c :: l) e = x -> fits x -> len (c :: l) <= max_digits.
Proof.
  intros Hd Hc Hlast Hx (z & p & Ez & Hlt). destruct (exists_last (l := c :: l) ltac:(discriminate)) as (q & t & E).
  assert (Hp : - p <= e - len (c :: l)).
  { rewrite E in *. apply (places_needed q t z p); [exact Hd|now apply (Hlast q)|]. now rewrite <- Ez, <- Hx. }
  assert (He : e - 1 < max_digits - p).
  { apply tp_lt_inv. eapply Rle_lt_trans; [|exact Hlt]. rewrite <- Hx. unfold dec_value.
    replace (e - 1) with (len l + (e - len (c :: l))) by (rewrite len_cons; lia).
    rewrite tp_add, (tp_IZR (len l)) by apply len_nonneg. apply Rmult_le_compat_r; [pose proof (tp_pos (e - len (c :: l))); lra|].
    apply IZR_le. now apply num_head. }
  lia.
Qed.

Lemma quotient_value N N' k s e e' : 0 <= k -> 0 <= s -> N * 10 ^ s = 10 * 2 ^ k * N' -> e' = e - s + 1 ->
  (IZR N' * tp e' = IZR N * tp e * bp (- k))%R.
Proof.
  intros Hk Hs E ->. apply IZR_eq in E. rewrite !mult_IZR in E.
  pose proof (bp_neg k Hk) as Ib. pose proof (tp_pos (e - s)).
  rewrite (tp_split (e - s) e), tp_add, tp_1 by lia. replace (e - (e - s)) with s by lia.
  transitivity ((10 * IZR (2 ^ k) * IZR N') * bp (- k) * tp (e - s))%R.
  - replace (10 * IZR (2 ^ k) * IZR N' * bp (- k))%R with (10 * (bp (- k) * IZR (2 ^ k)) * IZR N')%R by ring. rewrite Ib. ring.
  - rewrite <- E. ring.
Qed.

Theorem rightShift_exact a k x : holds a x -> 0 < k <= maxShift -> fits (x * bp (- k)) ->
  shifted a (rightShift a k) (x * bp (- k)).
Proof.
  intros Ha Hk Hfits. destruct (holds_pos a x Ha) as (Hpos & Hx & _). destruct Ha as [(Hd & Hl & Hh) Ex].
  destruct (pow_shift_bound k Hk) as [H2 H64]. unfold rightShift.
  destruct (pick_up_spec k Hk (d a) 0 0 Hd ltac:(lia) ltac:(lia) ltac:(lia))
    as (n & r & l & -> & Hdl & Hll & Hr & Hge & Epick & Hn).
  destruct (right_digits_spec k Hk l n Hdl ltac:(lia)) as (out & n1 & -> & Hout & Hlen & Hn1 & Eout & Hhead).
  destruct (right_extra_spec k Hk 64 n1 Hn1) as (E & HE & Eextra & Elast & Ehead & Erun).
  { destruct (Z.eq_dec n1 0); [now left|right]. split; [lia|]. exists (n1 * 2 ^ (63 - k)).
    change (Z.of_nat (64 - 1)) with 63. unfold maxShift in Hk. rewrite <- Z.mul_assoc, <- Z.pow_add_r by lia. do 2 f_equal. lia. }
  assert (Hdiv : 1 <= n / 2 ^ k <= 9).
  { pose proof (Z.div_le_lower_bound n (2 ^ k) 1). pose proof (Z.div_lt_upper_bound n (2 ^ k) 10). lia. }
  assert (Hshape : exists c t, out ++ E = c :: t /\ c <> 48).
  { destruct out as [|c out].
    - destruct Hhead as [_ ->]. destruct E as [|c E]; [lia|]. exists c, E. split; [reflexivity|lia].
    - exists c, (out ++ E). split; [reflexivity|lia]. }
  destruct Hshape as (c & t & Ect & Hc).
  assert (Hdig : digits (out ++ E)) by (now apply digits_app).
  (* the digits spell the quotient *)
  assert (Eval : dec_value (out ++ E) (dp a - (r - 1)) = (x * bp (- k))%R).
  { rewrite <- Ex. unfold dec_value. pose proof (len_nonneg E). pose proof (len_nonneg l).
    apply (quotient_value _ _ k (r + len l + len E - len (d a))); try lia.
    - rewrite num_app. replace (r + len l + len E - len (d a)) with (r - 0 + len l - len (d a) + len E) by lia.
      rewrite Z.pow_add_r, Z.mul_assoc by lia.
      rewrite Z.mul_0_l, Z.add_0_l in Epick. rewrite <- Epick, Eout, Z.mul_add_distr_r, Eextra. ring.
    - rewrite len_app, Hlen. lia. }
  assert (Hlength : len out + len E <= max_digits).
  { rewrite <- len_app. destruct E as [|e E'] eqn:EE.
    - rewrite app_nil_r, Hlen. unfold nd in Hl. lia.
    - rewrite <- EE in *. rewrite Ect in *. apply (fits_length c t (dp a - (r - 1)) (x * bp (- k))); try assumption.
      intros p u Hu. destruct (exists_last (l := E)) as (q & v & Eqv); [now rewrite EE|].
      rewrite <- Ect, Eqv, app_assoc in Hu. apply app_inj_tail in Hu as [_ <-]. now apply (Elast q). }
  rewrite Erun by lia. rewrite orb_false_r, <- Eval.
  destruct (trim_holds (out ++ E) (dp a - (r - 1)) (Decimal.neg a) (trunc a) Hdig) as (T1 & T2 & T3 & T4).
  - rewrite len_app. lia.
  - now rewrite Ect.
  - exact (conj T1 (conj T2 (conj T3 T4))).
Qed.

(** * Left shift *)

Lemma prefixIsLessThan_spec s : digits s -> (forall p c, s = p ++ [c] -> c <> 48) -> forall b, digits b ->
  prefixIsLessThan b s = (num b * 10 ^ len s <? num s * 10 ^ len b).
Proof.
  intros Hs. induction Hs as [|x s Hx Hs IH]; intros Hlast b Hb.
  - replace (prefixIsLessThan b []) with false by now destruct b.
    cbn [num]. change (len []) with 0. pose proof (num_bound b Hb). symmetry. apply Z.ltb_ge. lia.
  - pose proof (num_bound s Hs) as Bs. apply is_digit_range in Hx.
    assert (Hlast' : forall p c, s = p ++ [c] -> c <> 48).
    { intros p c E. apply (Hlast (x :: p)). now rewrite E. }
    pose proof (pow10_pos (len s) (len_nonneg s)) as Ps.
    destruct Hb as [|y b Hy Hb]; cbn [prefixIsLessThan]; [|apply is_digit_range in Hy].
    + cbn [num]. change (len []) with 0. rewrite Z.mul_0_l, Z.pow_0_r, Z.mul_1_r. symmetry. apply Z.ltb_lt.
      destruct (exists_last (l := x :: s) ltac:(discriminate)) as (p & c & E).
      specialize (Hlast p c E). change ((x - 48) * 10 ^ len s + num s) with (num (x :: s)).
      assert (Hd : digits (p ++ [c])) by (rewrite <- E; now constructor; [apply andb_true_iff; lia|]).
      pose proof (num_last_digit p c Hd Hlast) as Hm. rewrite E. pose proof (num_bound _ Hd).
      destruct (Z.eq_dec (num (p ++ [c])) 0) as [E0|]; [|lia]. now rewrite E0 in Hm.
    + pose proof (num_bound b Hb) as Bb. pose proof (pow10_pos (len b) (len_nonneg b)) as Pb.
      cbn [num]. rewrite !len_cons, !pow10_succ by apply len_nonneg.
      destruct (Z.eqb_spec y x) as [->|Hne]; cbn [negb].
      * rewrite (IH Hlast' b Hb). apply eq_true_iff_eq. rewrite !Z.ltb_lt. nia.
      * set (B := 10 ^ len b) in *. set (S := 10 ^ len s) in *.
        assert (PBS : 0 < B * S) by nia. assert (0 <= num b * S < B * S) by nia. assert (0 <= num s * B < B * S) by nia.
        apply eq_true_iff_eq. rewrite !Z.ltb_lt. split; intros H'.
        -- assert ((y + 1) * (B * S) <= x * (B * S)) by nia. lia.
        -- destruct (Z.lt_ge_cases y x) as [|G]; [assumption|]. exfalso.
           assert ((x + 1) * (B * S) <= y * (B * S)) by nia. lia.
Qed.

(** The table: the cutoff spells [5 ^ k]. *)
Definition cheat_ok (k : Z) : bool :=
  let '(delta, cutoff) := leftcheat k in
  forallb is_digit cutoff && negb (last cutoff 48 =? 48) && (num cutoff =? 5 ^ k) &&
  (delta =? k - len cutoff + 1) && (10 ^ (len cutoff - 1) <=? 5 ^ k) && (0 <? delta) && (delta <=? 19).

Lemma cheats_ok : forallb cheat_ok (map Z.of_nat (seq 1 60)) = true.
Proof. vm_compute. reflexivity. Qed.

Lemma leftcheat_spec k : 0 < k <= maxShift -> exists delta cutoff, leftcheat k = (delta, cutoff) /\
  digits cutoff /\ (forall p c, cutoff = p ++ [c] -> c <> 48) /\ num cutoff = 5 ^ k /\
  delta = k - len cutoff + 1 /\ 10 ^ (len cutoff - 1) <= 5 ^ k < 10 ^ len cutoff /\ 0 < delta <= 19.
Proof.
  unfold maxShift. intros Hk.
  assert (H : cheat_ok k = true).
  { apply (proj1 (forallb_forall _ _) cheats_ok). apply in_map_iff. exists (Z.to_nat k). split; [lia|]. apply in_seq. lia. }
  unfold cheat_ok in H. destruct (leftcheat k) as [delta cutoff]. exists delta, cutoff.
  rewrite !andb_true_iff, negb_true_iff in H. destruct H as [[[[[[H1 H2] H3] H4] H5] H6] H7].
  assert (Hd : digits cutoff) by (apply Forall_forall, forallb_forall, H1).
  split; [reflexivity|]. split; [exact Hd|]. split.
  - intros p c ->. rewrite last_last in H2. lia.
  - pose proof (num_bound cutoff Hd). lia.
Qed.

(** Digits put down from the right: the carry, and the digits so far. *)
Lemma put_down_spec w acc n tr : 0 <= n -> w <= max_digits ->
  put_down (w, acc, n, tr) = (w - 1, (48 + n mod 10) :: acc, n / 10, tr).
Proof.
  intros Hn Hw. unfold put_down. replace (w - 1 <? max_digits) with true by lia.
  replace (n - 10 * (n / 10)) with (n mod 10) by (Z.to_euclidean_division_equations; lia).
  pose proof (Z.mod_pos_bound n 10 ltac:(lia)). now rewrite (proj1 (digit_of (n mod 10) ltac:(lia))).
Qed.

Lemma digits_cons v acc : 0 <= v < 10 -> digits acc -> digits ((48 + v) :: acc).
Proof. intros Hv H. constructor; [now apply digit_of|exact H]. Qed.

Lemma left_digits_spec k : 0 < k <= maxShift -> forall l w acc n tr, digits l -> digits acc -> 0 <= n <= 2 ^ k ->
  w <= max_digits ->
  exists acc' n', left_digits k l (w, acc, n, tr) = (w - len l, acc', n', tr) /\ digits acc' /\ 0 <= n' <= 2 ^ k /\
    len acc' = len acc + len l /\
    n' * 10 ^ len acc' + num acc' = (n + num (rev l) * 2 ^ k) * 10 ^ len acc + num acc.
Proof.
  intros Hk. destruct (pow_shift_bound k Hk) as [H2 H64].
  induction l as [|c l IH]; intros w acc n tr Hl Hacc Hn Hw; cbn [left_digits].
  - exists acc, n. change (len []) with 0. cbn [rev num]. rewrite Z.sub_0_r. split; [reflexivity|]. repeat split; try assumption; lia.
  - inversion Hl as [|? ? Hc Hl']; subst. apply is_digit_range in Hc.
    rewrite Z.shiftl_mul_pow2 by lia. rewrite (u64_id ((c - 48) * 2 ^ k)) by nia.
    assert (Hb : 0 <= n + (c - 48) * 2 ^ k <= 10 * 2 ^ k) by nia. rewrite u64_id by lia.
    rewrite put_down_spec by lia. set (v := n + (c - 48) * 2 ^ k) in *.
    pose proof (Z.mod_pos_bound v 10 ltac:(lia)) as Hm.
    assert (Hq : 0 <= v / 10 <= 2 ^ k) by (Z.to_euclidean_division_equations; lia).
    destruct (IH (w - 1) ((48 + v mod 10) :: acc) (v / 10) tr Hl' (digits_cons _ _ Hm Hacc) Hq ltac:(lia))
      as (acc' & n' & -> & Hd' & Hn' & Hlen' & E).
    exists acc', n'. rewrite !len_cons in *. split; [do 3 f_equal; lia|]. split; [exact Hd'|]. split; [exact Hn'|].
    split; [lia|]. rewrite E. cbn [num rev]. rewrite num_app, num_one. change (len [c]) with 1. change (10 ^ 1) with 10.
    rewrite pow10_succ by apply len_nonneg. pose proof (Z.div_mod v 10 ltac:(lia)) as Ev. unfold v in *. nia.
Qed.

Lemma left_extra_spec fuel : forall w acc n tr, digits acc -> 0 <= n < 10 ^ Z.of_nat fuel -> w <= max_digits ->
  exists e, left_extra fuel (w, acc, n, tr) = (w - len e, e ++ acc, 0, tr) /\ digits e /\
    num (e ++ acc) = n * 10 ^ len acc + num acc /\ match e with c :: _ => c <> 48 | [] => n = 0 end.
Proof.
  induction fuel as [|fuel IH]; intros w acc n tr Hacc Hn Hw; cbn [left_extra].
  - exists []. change (len []) with 0. rewrite Z.sub_0_r. cbn in Hn. replace n with 0 by lia.
    split; [reflexivity|]. split; [constructor|]. cbn [app]. split; lia.
  - destruct (Z.ltb_spec 0 n) as [Hpos|H0].
    + rewrite put_down_spec by lia. pose proof (Z.mod_pos_bound n 10 ltac:(lia)) as Hm.
      rewrite Nat2Z.inj_succ, Z.pow_succ_r in Hn by lia.
      destruct (IH (w - 1) ((48 + n mod 10) :: acc) (n / 10) tr (digits_cons _ _ Hm Hacc)
                  ltac:(Z.to_euclidean_division_equations; lia) ltac:(lia)) as (e & -> & He & E & Hh).
      exists (e ++ [48 + n mod 10]). rewrite <- app_assoc. cbn [app]. rewrite len_app. change (len [_]) with 1.
      split; [do 3 f_equal; lia|]. split; [apply digits_app; split; [exact He|apply digits_cons; [exact Hm|constructor]]|].
      split.
      * rewrite E. cbn [num]. rewrite len_cons, pow10_succ by apply len_nonneg.
        pose proof (Z.div_mod n 10 ltac:(lia)). nia.
      * destruct e as [|c e]; [|exact Hh]. cbn [app]. pose proof (Z.div_mod n 10 ltac:(lia)). lia.
    + exists []. change (len []) with 0. rewrite Z.sub_0_r. replace n with 0 by lia.
      split; [reflexivity|]. split; [constructor|]. cbn [app]. split; lia.
Qed.

Lemma len_rev l : len (rev l) = len l.
Proof. unfold len. now rewrite length_rev. Qed.

Lemma digits_rev l : digits l -> digits (rev l).
Proof. apply Forall_rev. Qed.

(** The count of digits that the table gives for the product. *)
Lemma product_length l c k delta cutoff : digits (c :: l) -> c <> 48 -> 0 < k <= maxShift -> leftcheat k = (delta, cutoff) ->
  let delta' := if prefixIsLessThan (c :: l) cutoff then delta - 1 else delta in
  10 ^ (len (c :: l) + delta' - 1) <= num (c :: l) * 2 ^ k < 10 ^ (len (c :: l) + delta') /\ 0 <= delta' <= 19.
Proof.
  intros Hd Hc Hk Hcheat. destruct (leftcheat_spec k Hk) as (dl & ct & E & Hct & Hlast & Hn5 & Hdl & Hsz & Hr).
  rewrite Hcheat in E. injection E as <- <-.
  rewrite (prefixIsLessThan_spec cutoff Hct Hlast) by exact Hd. rewrite Hn5. cbv zeta.
  pose proof (num_head c l Hd Hc) as Hlow. pose proof (num_bound _ Hd) as Hup. rewrite len_cons in Hup.
  set (N := num (c :: l)) in *. rewrite len_cons. pose proof (len_nonneg l) as Hl0. pose proof (len_nonneg cutoff) as Hc0.
  set (m := len l) in *. set (s := len cutoff) in *.
  assert (Hs1 : 1 <= s) by (unfold s; destruct cutoff; [cbn in Hn5; pose proof (Z.pow_pos_nonneg 5 k); lia|rewrite len_cons; pose proof (len_nonneg cutoff); lia]).
  assert (E10 : 5 ^ k * 2 ^ k = 10 ^ k) by (rewrite <- Z.pow_mul_l; reflexivity).
  pose proof (Z.pow_pos_nonneg 2 k ltac:(lia) ltac:(lia)) as P2. pose proof (Z.pow_pos_nonneg 5 k ltac:(lia) ltac:(lia)) as P5.
  pose proof (pow10_pos m Hl0) as Pm. pose proof (pow10_pos (s - 1) ltac:(lia)) as Ps1.
  assert (Es : 10 ^ s = 10 * 10 ^ (s - 1)) by (rewrite <- pow10_succ by lia; f_equal; lia).
  assert (Em1 : 10 ^ (m + 1) = 10 * 10 ^ m) by (apply pow10_succ; lia).
  (* multiply all bounds by 10 ^ s *)
  assert (Hmul : forall A B, A * 10 ^ s <= B * 10 ^ s <-> A <= B) by (intros; nia).
  assert (HmulL : forall A B, A * 10 ^ s < B * 10 ^ s <-> A < B) by (intros; nia).
  assert (Edelta : forall e, 0 <= m + delta + e -> 10 ^ (m + delta + e) * 10 ^ s = 10 ^ m * 5 ^ k * 2 ^ k * 10 ^ (1 + e)
     \/ 1 + e < 0).
  { intros e He. destruct (Z.lt_ge_cases (1 + e) 0); [now right|left].
    transitivity (10 ^ m * (5 ^ k * 2 ^ k) * 10 ^ (1 + e)); [|ring]. rewrite E10, <- !Z.pow_add_r by lia. f_equal. lia. }
  destruct (Z.ltb_spec (N * 10 ^ s) (5 ^ k * 10 ^ (m + 1))) as [Hless|Hmore].
  - split; [|lia]. replace (m + 1 + (delta - 1) - 1) with (m + delta - 1) by lia. replace (m + 1 + (delta - 1)) with (m + delta + 0) by lia.
    split.
    + apply Hmul. destruct (Edelta (-1) ltac:(lia)) as [E|]; [|lia]. replace (m + delta - 1) with (m + delta + -1) by lia. rewrite E.
      change (1 + -1) with 0. rewrite Z.pow_0_r, Z.mul_1_r.
      assert (10 ^ m * 5 ^ k <= N * 10 ^ s) by nia. nia.
    + apply HmulL. destruct (Edelta 0 ltac:(lia)) as [E|]; [|lia]. rewrite E. change (10 ^ (1 + 0)) with 10.
      rewrite Em1 in Hless. nia.
  - split; [|lia]. replace (m + 1 + delta - 1) with (m + delta + 0) by lia. replace (m + 1 + delta) with (m + delta + 1) by lia.
    split.
    + apply Hmul. destruct (Edelta 0 ltac:(lia)) as [E|]; [|lia]. rewrite E. change (10 ^ (1 + 0)) with 10.
      rewrite Em1 in Hmore. nia.
    + apply HmulL. destruct (Edelta 1 ltac:(lia)) as [E|]; [|lia]. rewrite E. change (10 ^ (1 + 1)) with 100.
      assert (N * 10 ^ s < 10 ^ m * 5 ^ k * 100) by (rewrite Em1 in Hup; nia). nia.
Qed.

Theorem leftShift_exact a k x : holds a x -> 0 < k <= maxShift -> nd a + 19 <= max_digits ->
  shifted a (leftShift a k) (x * bp k).
Proof.
  intros [(Hd & Hl & Hh) Ex] Hk Hroom. destruct (pow_shift_bound k Hk) as [H2 H64].
  unfold leftShift. destruct (leftcheat k) as [delta cutoff] eqn:Ech. unfold nd in *.
  destruct (d a) as [|c l] eqn:Ed; [easy|].
  destruct (product_length l c k delta cutoff Hd Hh Hk Ech) as [Hcount Hdelta]. cbv zeta in Hcount, Hdelta.
  set (delta' := if prefixIsLessThan (c :: l) cutoff then delta - 1 else delta) in *.
  set (W := len (c :: l) + delta') in *.
  destruct (left_digits_spec k Hk (rev (c :: l)) W [] 0 (trunc a) (digits_rev _ Hd) ltac:(constructor) ltac:(lia) ltac:(lia))
    as (acc & n & -> & Hacc & Hn & Hlen & E).
  rewrite rev_involutive, len_rev in *. change (len []) with 0 in *. rewrite Z.pow_0_r, Z.mul_1_r in E. cbn [num] in E.
  assert (H20 : 0 <= n < 10 ^ Z.of_nat 20) by (unfold maxShift in Hk; lia).
  pose proof (len_nonneg (c :: l)) as Hl0.
  destruct (left_extra_spec 20 (W - len (c :: l)) acc n (trunc a) Hacc H20 ltac:(lia)) as (e & -> & He & Enum & Hhead).
  set (out := e ++ acc) in *.
  assert (Eout : num out = num (c :: l) * 2 ^ k) by (rewrite Enum, E; cbn [num]; ring).
  assert (Hout : digits out) by (now apply digits_app).
  pose proof (num_head c l Hd Hh) as Hlow. pose proof (num_bound _ Hd) as Hup.
  assert (Hlow' : 10 ^ (len (c :: l) - 1) <= num (c :: l) * 2 ^ k).
  { rewrite len_cons. replace (len l + 1 - 1) with (len l) by lia. pose proof (pow10_pos (len l) (len_nonneg l)). nia. }
  (* the first digit written is not a zero *)
  assert (Hshape : exists t u, out = t :: u /\ t <> 48).
  { unfold out. destruct e as [|t e]; [|now exists t, (e ++ acc)].
    destruct acc as [|t u]; [rewrite len_cons in Hlen; pose proof (len_nonneg l); change (len []) with 0 in Hlen; lia|].
    exists t, u. split; [reflexivity|]. intros ->. unfold out in Eout. cbn [app] in Eout. rewrite num_cons in Eout.
    inversion Hacc as [|? ? _ Hu]; subst. pose proof (num_bound u Hu).
    rewrite (len_cons 48 u) in Hlen. replace (len (c :: l) - 1) with (len u) in Hlow' by lia. lia. }
  destruct Hshape as (t & u & Eshape & Ht).
  assert (HW : 1 <= W) by (unfold W; rewrite len_cons; pose proof (len_nonneg l); lia).
  assert (Hlenout : len out = W).
  { pose proof (num_bound _ Hout) as B. rewrite Eout in B. rewrite Eshape in B, Hout. pose proof (num_head t u Hout Ht) as Ht'.
    rewrite <- Eshape, Eout in Ht'. rewrite Eshape, (len_cons t u) in *. pose proof (len_nonneg u).
    enough (len u = W - 1) by lia. apply (count_unique (num (c :: l) * 2 ^ k)); [lia|lia|lia|].
    replace (W - 1 + 1) with W by lia. exact Hcount. }
  assert (Hw : W - len (c :: l) - len e = 0).
  { unfold out in Hlenout. rewrite len_app in Hlenout. lia. }
  rewrite Hw. cbn [Z.to_nat firstn app]. rewrite Z.min_l by lia.
  rewrite <- Hlenout. unfold len at 1. rewrite Nat2Z.id, firstn_all.
  destruct (trim_holds out (dp a + delta') (Decimal.neg a) (trunc a) Hout ltac:(lia)) as (T1 & T2 & T3 & T4).
  { now rewrite Eshape. }
  replace (x * bp k)%R with (dec_value out (dp a + delta')); [exact (conj T1 (conj T2 (conj T3 T4)))|].
  rewrite <- Ex. unfold dec_value. rewrite Eout, mult_IZR, Hlenout, (bp_IZR k) by lia.
  replace (dp a + delta' - W) with (dp a - len (c :: l)) by (unfold W; lia). ring.
Qed.

(** * Shift *)

Lemma shifted_trans a b c x : shifted a b x -> forall y, shifted b c y -> shifted a c y.
Proof. intros (_ & _ & N1 & T1) y (H & Ht & N2 & T2). repeat split; try apply H; try apply Ht; congruence. Qed.

Lemma shift_right_exact fuel : forall a k x, holds a x -> 0 < k <= maxShift * Z.of_nat fuel ->
  (forall j, 0 < j <= k -> fits (x * bp (- j))) -> shifted a (shift_right fuel a k) (x * bp (- k)).
Proof.
  induction fuel as [|fuel IH]; intros a k x Ha Hk Hf; [lia|]. cbn [shift_right].
  destruct (Z.ltb_spec maxShift k) as [H|H].
  - pose proof (rightShift_exact a maxShift x Ha ltac:(unfold maxShift; lia) (Hf maxShift ltac:(unfold maxShift in *; lia))) as S1.
    apply (shifted_trans _ _ _ _ S1).
    replace (x * bp (- k))%R with (x * bp (- maxShift) * bp (- (k - maxShift)))%R
      by (rewrite Rmult_assoc, <- bp_add; do 2 f_equal; lia).
    apply IH; [apply S1|unfold maxShift in *; lia|]. intros j Hj.
    rewrite Rmult_assoc, <- bp_add. replace (- maxShift + - j) with (- (maxShift + j)) by lia.
    apply Hf. unfold maxShift in *. lia.
  - apply rightShift_exact; [exact Ha|lia|apply Hf; lia].
Qed.

Theorem Shift_down a k x : holds a x -> 0 < k -> (forall j, 0 < j <= k -> fits (x * bp (- j))) ->
  shifted a (Shift a (- k)) (x * bp (- k)).
Proof.
  intros Ha Hk Hf. unfold Shift. destruct (d a) as [|c l] eqn:E.
  { destruct Ha as [(_ & _ & Hh) _]. now rewrite E in Hh. }
  replace (0 <? - k) with false by lia. replace (- k <? 0) with true by lia. rewrite Z.opp_involutive, Z.abs_opp.
  apply shift_right_exact; [exact Ha| |exact Hf]. rewrite Nat2Z.inj_succ, Z2Nat.id by (apply Z.div_pos; unfold maxShift; lia).
  rewrite Z.abs_eq by lia. unfold maxShift. Z.to_euclidean_division_equations. lia.
Qed.

Theorem Shift_up a k x : holds a x -> 0 < k <= maxShift -> nd a + 19 <= max_digits ->
  shifted a (Shift a k) (x * bp k).
Proof.
  intros Ha Hk Hr. unfold Shift. destruct (d a) as [|c l] eqn:E.
  { destruct Ha as [(_ & _ & Hh) _]. now rewrite E in Hh. }
  replace (0 <? k) with true by lia. rewrite Z.abs_eq by lia. cbn [shift_left].
  replace (maxShift <? k) with false by lia. now apply leftShift_exact.
Qed.

(** * Rounding to an integer *)

Lemma int_digits_spec count : forall l n, digits l -> 0 <= n -> (n + 1) * 10 ^ Z.of_nat count < 2 ^ 64 ->
  int_digits count l n = n * 10 ^ Z.of_nat count + num (firstn count l) * 10 ^ (Z.of_nat count - len (firstn count l)).
Proof.
  induction count as [|count IH]; intros l n Hl Hn Hb.
  - cbn [int_digits firstn num]. change (Z.of_nat 0) with 0. rewrite Z.pow_0_r. lia.
  - rewrite Nat2Z.inj_succ, Z.pow_succ_r in Hb |- * by lia.
    pose proof (pow10_pos (Z.of_nat count) ltac:(lia)) as P. cbn [int_digits].
    destruct l as [|c l].
    + rewrite u64_id by nia. rewrite IH by (try constructor; nia). rewrite !firstn_nil. cbn [num]. lia.
    + inversion Hl as [|? ? Hc Hl']; subst. apply is_digit_range in Hc.
      rewrite u64_id by nia. rewrite IH by (try assumption; nia). cbn [firstn]. rewrite num_cons, len_cons.
      replace (Z.succ (Z.of_nat count) - (len (firstn count l) + 1)) with (Z.of_nat count - len (firstn count l)) by lia.
      assert (Hle : len (firstn count l) <= Z.of_nat count) by (unfold len; rewrite length_firstn; lia).
      assert (E : 10 ^ Z.of_nat count = 10 ^ len (firstn count l) * 10 ^ (Z.of_nat count - len (firstn count l))).
      { rewrite <- Z.pow_add_r by (try apply len_nonneg; lia). f_equal. lia. }
      rewrite E. ring.
Qed.

(** The fraction spelt by digits, and on which side of a half it lies. *)
Definition frac_loc (l : list Z) : SpecFloat.location :=
  match l with
  | [] => SpecFloat.loc_Exact
  | c :: r => SpecFloat.loc_Inexact
      (if c <? 53 then Lt else if (c =? 53) && (match r with [] => true | _ => false end) then Eq else Gt)
  end.

Lemma frac_loc_inb l : digits l -> (forall p c, l = p ++ [c] -> c <> 48) -> inb (frac_loc l) (dec_value l 0).
Proof.
  intros Hd Hlast. destruct l as [|c r]; [unfold dec_value; cbn; lra|]. cbn [frac_loc inb].
  assert (Hpos : 0 < num (c :: r)).
  { destruct (exists_last (l := c :: r) ltac:(discriminate)) as (p & t & E).
    pose proof (num_bound _ Hd) as B. pose proof (Hlast p t E) as Ht. rewrite E in Hd |- *. rewrite E in B.
    pose proof (num_last_digit p t Hd Ht) as Hm. destruct (Z.eq_dec (num (p ++ [t])) 0) as [E0|]; [now rewrite E0 in Hm|lia]. }
  assert (Hrpos : r <> [] -> 0 < num r).
  { intros Hr. destruct (exists_last (l := r) Hr) as (p & t & ->).
    inversion Hd as [|? ? _ Hdr]; subst. pose proof (num_bound _ Hdr) as B.
    assert (Ht : t <> 48) by (now apply (Hlast (c :: p))). pose proof (num_last_digit p t Hdr Ht) as Hm.
    destruct (Z.eq_dec (num (p ++ [t])) 0) as [E0|]; [now rewrite E0 in Hm|lia]. }
  pose proof (num_bound _ Hd) as B. inversion Hd as [|? ? Hc Hr]; subst. pose proof (num_bound r Hr) as Br.
  apply is_digit_range in Hc. unfold dec_value. rewrite len_cons in *. pose proof (len_nonneg r) as Hl.
  pose proof (pow10_pos (len r) Hl) as P. rewrite pow10_succ in B by exact Hl.
  replace (0 - (len r + 1)) with (- (len r + 1)) by lia.
  pose proof (tp_neg (len r + 1) ltac:(lia)) as Inv. rewrite pow10_succ in Inv by exact Hl.
  pose proof (tp_pos (- (len r + 1))) as Pt. set (q := tp (- (len r + 1))) in *.
  assert (Scale : forall N M, N < M -> (IZR N * q < IZR M * q)%R).
  { intros N M H%IZR_lt. apply Rmult_lt_compat_r; assumption. }
  assert (Eone : (IZR (10 * 10 ^ len r) * q = 1)%R) by (rewrite Rmult_comm; exact Inv).
  assert (Ehalf : (IZR (5 * 10 ^ len r) * q = 1 / 2)%R).
  { replace (10 * 10 ^ len r) with (2 * (5 * 10 ^ len r)) in Eone by ring. rewrite mult_IZR in Eone. lra. }
  rewrite num_cons in *. destruct (Z.ltb_spec c 53) as [H|H].
  - split; [apply Rmult_lt_0_compat; [now apply IZR_lt|exact Pt]|]. rewrite <- Ehalf. apply Scale. nia.
  - destruct (Z.eqb_spec c 53) as [->|H53]; cbn [andb].
    + destruct r as [|x r]; [|].
      * cbn [inb]. rewrite <- Ehalf. reflexivity.
      * cbn [inb]. split; [rewrite <- Ehalf|rewrite <- Eone]; apply Scale; [specialize (Hrpos ltac:(discriminate)); lia|lia].
    + cbn [inb]. split; [rewrite <- Ehalf|rewrite <- Eone]; apply Scale; nia.
Qed.

Lemma dec_value_split ip fp : digits ip -> digits fp ->
  dec_value (ip ++ fp) (len ip) = (IZR (num ip) + dec_value fp 0)%R.
Proof.
  intros Hi Hf. unfold dec_value. rewrite num_app, len_app, plus_IZR, mult_IZR, Rmult_plus_distr_r.
  replace (len ip - (len ip + len fp)) with (0 - len fp) by lia. f_equal.
  replace (0 - len fp) with (- len fp) by lia. pose proof (tp_neg (len fp) (len_nonneg fp)).
  rewrite Rmult_assoc, (Rmult_comm (IZR (10 ^ len fp))), H. ring.
Qed.

Lemma num_odd l c : num (l ++ [c]) mod 2 = (c - 48) mod 2.
Proof.
  rewrite num_app, num_one. change (10 ^ len [c]) with (5 * 2).
  replace (num l * (5 * 2) + (c - 48)) with ((c - 48) + num l * 5 * 2) by ring. apply Z.mod_add. lia.
Qed.

Lemma at_nth_firstn l n c r : skipn n l = c :: r -> at_ l (Z.of_nat n) = c /\ len l = Z.of_nat n + 1 + len r.
Proof.
  intros H. unfold at_. rewrite Nat2Z.id. assert (E : l = firstn n l ++ c :: r) by (rewrite <- H; symmetry; apply firstn_skipn).
  assert (Hn : length (firstn n l) = n).
  { rewrite length_firstn. apply Nat.min_l. destruct (Nat.le_gt_cases n (length l)); [assumption|].
    rewrite skipn_all2 in H by lia. discriminate. }
  split.
  - rewrite E, app_nth2 by lia. now rewrite Hn, Nat.sub_diag.
  - rewrite E. unfold len. rewrite length_app, Hn. cbn [length]. lia.
Qed.

(** The decision to round up is that of rounding half to even. *)
Lemma shouldRoundUp_even a ip c r : d a = ip ++ c :: r -> digits ip -> trunc a = false -> len ip = dp a ->
  (if shouldRoundUp a (dp a) then num ip + 1 else num ip) =
    SpecFloat.round_nearest_even (num ip) (frac_loc (c :: r)).
Proof.
  intros Esplit Hip Htr Hipl. pose proof (len_nonneg ip) as Hi0. pose proof (len_nonneg r) as Hr0.
  assert (Elen : len (d a) = dp a + 1 + len r) by (rewrite Esplit, len_app, len_cons; lia).
  assert (Eat : at_ (d a) (dp a) = c).
  { unfold at_. rewrite Esplit, <- Hipl. unfold len. now rewrite Nat2Z.id, app_nth2, Nat.sub_diag by lia. }
  unfold shouldRoundUp, nd. replace (dp a <? 0) with false by lia. replace (len (d a) <=? dp a) with false by lia.
  cbn [orb]. rewrite Eat, Htr.
  replace (dp a + 1 =? len (d a)) with (match r with [] => true | _ => false end)
    by (destruct r; [change (len []) with 0 in Elen|rewrite len_cons in Elen; pose proof (len_nonneg r)]; lia).
  cbn [frac_loc SpecFloat.round_nearest_even]. destruct (Z.ltb_spec c 53) as [H|H].
  { replace (c =? 53) with false by lia. cbn [andb]. now replace (53 <=? c) with false by lia. }
  destruct (Z.eqb_spec c 53) as [->|Hne]; cbn [andb]; [|now replace (53 <=? c) with true by lia].
  destruct r as [|y r]; [|reflexivity]. destruct (Z.ltb_spec 0 (dp a)) as [Hp|Hp]; cbn [andb].
  - destruct (exists_last (l := ip)) as (q & t & Eq).
    { intros E0. rewrite E0 in Hipl. change (len []) with 0 in Hipl. lia. }
    assert (Elast : at_ (d a) (dp a - 1) = t).
    { rewrite Esplit, Eq, <- app_assoc, <- Hipl, Eq, len_app. change (len [t]) with 1. unfold at_.
      replace (len q + 1 - 1) with (len q) by lia. unfold len. rewrite Nat2Z.id, app_nth2, Nat.sub_diag by lia. reflexivity. }
    rewrite Elast. assert (Eodd : Z.odd (t - 48) = Z.odd (num ip)) by (rewrite !Zodd_mod, Eq, num_odd; reflexivity).
    rewrite Eodd, <- Z.negb_odd. destruct (Z.odd (num ip)); reflexivity.
  - pose proof (num_bound ip Hip) as Bip. rewrite Hipl in Bip. assert (E0 : num ip = 0) by (replace (dp a) with 0 in Bip by lia; lia).
    now rewrite E0.
Qed.

(** The integer nearest to the decimal. *)
Theorem RoundedInteger_nearest a x : holds a x -> trimmed a -> trunc a = false -> dp a <= 18 ->
  exists m f l, inb l f /\ x = (IZR m + f)%R /\ 0 <= m /\ RoundedInteger a = SpecFloat.round_nearest_even m l.
Proof.
  intros Ha Ht Htr Hdp. pose proof (holds_pos a x Ha) as (Hpos & Hx & Hlo & Hup). destruct Ha as [(Hd & Hl & Hh) Ex].
  unfold RoundedInteger. replace (20 <? dp a) with false by lia.
  destruct (Z.lt_ge_cases (dp a) 0) as [Hneg|Hge].
  - (* less than a tenth *)
    exists 0, x, (SpecFloat.loc_Inexact Lt). split.
    { cbn. split; [exact Hx|]. apply (Rlt_le_trans _ _ _ Hup). apply Rle_trans with (tp (-1)); [apply tp_le; lia|].
      pose proof (tp_neg 1 ltac:(lia)) as H1. change (IZR (10 ^ 1)) with 10%R in H1.
      change (tp (- (1))) with (tp (-1)) in H1. lra. }
    split; [ring|]. split; [lia|]. replace (Z.to_nat (dp a)) with 0%nat by lia. cbn [int_digits].
    unfold shouldRoundUp. now replace (dp a <? 0) with true by lia.
  - set (n := Z.to_nat (dp a)). assert (En : Z.of_nat n = dp a) by lia.
    set (ip := firstn n (d a)). set (fp := skipn n (d a)).
    assert (Esplit : d a = ip ++ fp) by (symmetry; apply firstn_skipn).
    assert (Hip : digits ip /\ digits fp) by (rewrite Esplit in Hd; now apply digits_app). destruct Hip as [Hip Hfp].
    assert (Hbound : (0 + 1) * 10 ^ Z.of_nat n < 2 ^ 64).
    { rewrite En. pose proof (Z.pow_le_mono_r 10 (dp a) 18 ltac:(lia) ltac:(lia)). lia. }
    rewrite (int_digits_spec n (d a) 0 Hd ltac:(lia) Hbound). fold ip. rewrite Z.mul_0_l, Z.add_0_l, En.
    assert (Hlast : forall p c, fp = p ++ [c] -> c <> 48).
    { intros p c E. apply (Ht (ip ++ p)). now rewrite Esplit, E, app_assoc. }
    destruct fp as [|c r] eqn:Efp.
    + (* no digit after the point *)
      assert (Hnd : len (d a) <= dp a).
      { rewrite Esplit, app_nil_r. unfold ip, len. rewrite length_firstn. lia. }
      exists (num ip * 10 ^ (dp a - len ip)), 0%R, SpecFloat.loc_Exact. split; [reflexivity|].
      rewrite app_nil_r in Esplit. rewrite <- Esplit. split; [|split].
      * rewrite <- Ex. unfold dec_value. rewrite mult_IZR, <- tp_IZR by lia. ring.
      * pose proof (pow10_pos (dp a - len (d a)) ltac:(lia)). nia.
      * unfold shouldRoundUp, nd. replace (len (d a) <=? dp a) with true by lia. rewrite orb_true_r. reflexivity.
    + destruct (at_nth_firstn (d a) n c r Efp) as [Eat Elen]. rewrite En in Eat, Elen.
      assert (Hipl : len ip = dp a).
      { assert (E : len (d a) = len ip + (len r + 1)) by (rewrite Esplit, len_app, len_cons; reflexivity). lia. }
      rewrite Hipl, Z.sub_diag, Z.pow_0_r, Z.mul_1_r.
      exists (num ip), (dec_value (c :: r) 0), (frac_loc (c :: r)).
      split; [now apply frac_loc_inb|]. split; [|split; [apply num_bound, Hip|]].
      { rewrite <- Ex, Esplit, <- Hipl. now apply dec_value_split. }
      rewrite <- (shouldRoundUp_even a ip c r Esplit Hip Htr Hipl).
      pose proof (num_bound ip Hip) as Bip. rewrite Hipl in Bip. rewrite u64_id by (rewrite En in Hbound; lia). reflexivity.
Qed.
