(* ===== verification/FloatBitsSpec.v ===== *)
(** The slow path of ParseFloat: [floatBits] gives the bits of the binary64 nearest to a
    decimal. *)
From Stdlib Require Import ZArith Reals Lra Lia Bool List SpecFloat.
From S2P Require Import Prelude Strconv Utf8 Float64 Rounding Nearest Tens Decimal Atof EiselSpec DecimalSpec.
Import ListNotations.
Local Open Scope Z_scope.

(** * Powers *)

Lemma tp_le_bp a b : 0 <= a -> 0 <= b -> 10 ^ a <= 2 ^ b -> (tp a <= bp b)%R.
Proof. intros Ha Hb H. rewrite tp_IZR, bp_IZR by assumption. now apply IZR_le. Qed.

Lemma bp_le_tp a b : 0 <= a -> 0 <= b -> 2 ^ b <= 10 ^ a -> (bp b <= tp a)%R.
Proof. intros Ha Hb H. rewrite tp_IZR, bp_IZR by assumption. now apply IZR_le. Qed.

Lemma inv_le a b c d : (0 < a -> 0 < c -> b * a = 1 -> d * c = 1 -> a <= c -> d <= b)%R.
Proof.
  intros Ha Hc Hb Hd H. apply (Rmult_le_reg_r a); [exact Ha|]. rewrite Hb, <- Hd.
  assert (0 < d)%R by (apply (Rmult_lt_reg_r c); lra). apply Rmult_le_compat_l; lra.
Qed.

Lemma tp_le_bp_neg a b : 0 <= a -> 0 <= b -> 2 ^ b <= 10 ^ a -> (tp (- a) <= bp (- b))%R.
Proof.
  intros Ha Hb H. apply (inv_le (bp b) (bp (- b)) (tp a)); try apply bp_pos; try apply tp_pos; try apply bp_inv; try apply tp_inv.
  now apply bp_le_tp.
Qed.

Lemma bp_le_tp_neg a b : 0 <= a -> 0 <= b -> 10 ^ a <= 2 ^ b -> (bp (- b) <= tp (- a))%R.
Proof.
  intros Ha Hb H. apply (inv_le (tp a) (tp (- a)) (bp b)); try apply bp_pos; try apply tp_pos; try apply bp_inv; try apply tp_inv.
  now apply tp_le_bp.
Qed.

Lemma bp_lt_inv a b : (bp a < bp b)%R -> a < b.
Proof. intros H. destruct (Z.lt_ge_cases a b) as [|G]; [assumption|]. apply bp_mono in G. lra. Qed.

(** * Scaling into [1/2, 1) *)

(** The shift for a distance of [n] digits stays below it. *)
Lemma pow_shift_spec n : 0 <= n -> 1 <= pow_shift n <= 27 /\ (9 <= n -> pow_shift n = 27) /\
  (0 < n -> 2 ^ pow_shift n <= 10 ^ n).
Proof.
  intros Hn. unfold pow_shift. destruct (Z.leb_spec 9 n) as [H|H].
  - pose proof (Z.pow_le_mono_r 10 9 n ltac:(lia) ltac:(lia)). lia.
  - assert (Hc : n = 0 \/ n = 1 \/ n = 2 \/ n = 3 \/ n = 4 \/ n = 5 \/ n = 6 \/ n = 7 \/ n = 8) by lia.
    repeat destruct Hc as [->|Hc]; [..|subst]; repeat split; intros; try lia; vm_compute; (reflexivity || discriminate).
Qed.

(** Numbers of at most twenty digits, times a power of ten, divided by at most 2^1110. *)
Lemma quotient_fits D E j : 0 <= D < 10 ^ 20 -> 0 <= j <= 1110 -> fits (IZR D * tp E * bp (- j)).
Proof.
  intros HD Hj. exists (D * 5 ^ j), (j - E).
  assert (Ev : (IZR D * tp E * bp (- j) = IZR (D * 5 ^ j) * tp (- (j - E)))%R).
  { rewrite mult_IZR. replace (- (j - E)) with (- j + E) by lia. rewrite tp_add.
    assert (H : (bp (- j) = IZR (5 ^ j) * tp (- j))%R); [|rewrite H; ring].
    pose proof (bp_inv j) as Ib. pose proof (tp_inv j) as It. rewrite (tp_five j) in It by lia.
    pose proof (bp_pos j). apply (Rmult_eq_reg_r (bp j)); [|lra]. rewrite Ib, <- It. ring. }
  split; [exact Ev|]. rewrite Ev. unfold max_digits. replace (800 - (j - E)) with (800 + - (j - E)) by lia. rewrite tp_add.
  apply Rmult_lt_compat_r; [apply tp_pos|]. rewrite tp_IZR by lia. apply IZR_lt.
  apply Z.le_lt_trans with (10 ^ 20 * 5 ^ 1110); [|now vm_compute].
  pose proof (Z.pow_le_mono_r 5 j 1110 ltac:(lia) ltac:(lia)). pose proof (Z.pow_nonneg 5 j ltac:(lia)). nia.
Qed.

Lemma bp_shift x s n : (x * bp (- s) * bp (- n) = x * bp (- (s + n)))%R.
Proof. rewrite Rmult_assoc, <- bp_add. do 2 f_equal. lia. Qed.

(** One turn of [scale_down]: the number stays above a tenth. *)
Lemma down_turn a x s D E : holds a (x * bp (- s)) -> 0 < dp a -> x = (IZR D * tp E)%R -> 0 <= D < 10 ^ 20 ->
  0 <= s <= 1030 ->
  shifted a (Shift a (- pow_shift (dp a))) (x * bp (- (s + pow_shift (dp a)))) /\
  (1 / 10 <= x * bp (- (s + pow_shift (dp a))))%R.
Proof.
  intros Ha Hdp Ex HD Hs. destruct (pow_shift_spec (dp a) ltac:(lia)) as (Hn & _ & Htenth).
  set (n := pow_shift (dp a)) in *. split.
  - rewrite <- bp_shift. apply Shift_down; [exact Ha|lia|]. intros j Hj. rewrite bp_shift, Ex.
    apply quotient_fits; [exact HD|lia].
  - destruct (holds_pos a _ Ha) as (_ & _ & Hlow & _). rewrite <- bp_shift.
    pose proof (bp_pos (- n)). apply Rle_trans with (tp (dp a - 1) * bp (- n))%R; [|apply Rmult_le_compat_r; lra].
    specialize (Htenth Hdp). apply bp_le_tp in Htenth; [|lia..]. pose proof (bp_inv n).
    replace (tp (dp a)) with (10 * tp (dp a - 1))%R in Htenth
      by (rewrite <- tp_1, <- tp_add; f_equal; lia). nra.
Qed.

(** What the loops leave: the number below one, its sign and mark, and the exponent. *)
Definition scaled (lo : R) (a b : decimal) (x : R) (e : Z) : Prop :=
  holds b (x * bp (- e)) /\ Decimal.neg b = Decimal.neg a /\ trunc b = trunc a /\ (lo <= x * bp (- e) < 1)%R.

Lemma scale_down_stop fuel a e : dp a <= 0 -> scale_down fuel a e = (a, e).
Proof. intros H. destruct fuel; cbn [scale_down]; [|replace (0 <? dp a) with false by lia]; reflexivity. Qed.

Section Down.
Context (x : R) (D E : Z) (Ex : x = (IZR D * tp E)%R) (HD : 0 <= D < 10 ^ 20) (Hbig : (x < bp 1031)%R).

Lemma down_exp a s : holds a (x * bp (- s)) -> 0 < dp a -> s <= 1030.
Proof.
  intros Ha Hdp. destruct (holds_pos a _ Ha) as (_ & _ & Hlow & _).
  pose proof (tp_le 0 (dp a - 1) ltac:(lia)) as H1. rewrite tp_0 in H1.
  enough (s < 1031) by lia. apply bp_lt_inv. apply Rle_lt_trans with x; [|exact Hbig].
  pose proof (bp_pos s). pose proof (bp_inv s). assert (bp s <= x * bp (- s) * bp s)%R by nra.
  rewrite Rmult_assoc, H0 in H2. lra.
Qed.

Lemma scale_down_small j : forall fuel a s, holds a (x * bp (- s)) -> trimmed a -> 0 <= s ->
  (1 / 10 <= x * bp (- s) < bp (Z.of_nat j))%R -> (j <= fuel)%nat ->
  exists b e, scale_down fuel a s = (b, e) /\ s <= e /\ scaled (1 / 10) a b x e /\ trimmed b.
Proof.
  induction j as [|j IH]; intros fuel a s Ha Ht Hs Hx Hf.
  - assert (Hdp : dp a <= 0).
    { destruct (holds_pos a _ Ha) as (_ & _ & Hlow & _). change (bp (Z.of_nat 0)) with 1%R in Hx.
      assert (tp (dp a - 1) < tp 0)%R by (rewrite tp_0; lra). apply tp_lt_inv in H. lia. }
    exists a, s. split; [now apply scale_down_stop|].
    split; [lia|]. change (bp (Z.of_nat 0)) with 1%R in Hx. split; [|exact Ht]. split; [exact Ha|]. now split.
  - destruct (Z.ltb_spec 0 (dp a)) as [Hdp|Hdp].
    + destruct fuel as [|fuel]; [lia|]. cbn [scale_down]. replace (0 <? dp a) with true by lia.
      destruct (down_turn a x s D E Ha Hdp Ex HD ltac:(pose proof (down_exp a s Ha Hdp); lia)) as [S1 Hhalf].
      destruct (pow_shift_spec (dp a) ltac:(lia)) as (Hn & _). set (n := pow_shift (dp a)) in *.
      destruct (IH fuel (Shift a (- n)) (s + n)) as (b & e & -> & He & Hsc); try apply S1; try lia.
      { split; [exact Hhalf|]. apply Rlt_le_trans with (bp (Z.of_nat (S j)) * bp (- n))%R.
        - rewrite <- bp_shift. apply Rmult_lt_compat_r; [apply bp_pos|apply Hx].
        - rewrite <- bp_add. apply bp_mono. lia. }
      exists b, e. split; [reflexivity|]. split; [lia|]. destruct S1 as (_ & _ & N1 & T1).
      destruct Hsc as ((H1 & H2 & H3 & H4) & H5). split; [|exact H5]. split; [exact H1|]. split; [congruence|]. split; [congruence|exact H4].
    + exists a, s. split; [now apply scale_down_stop|].
      split; [lia|]. split; [|exact Ht]. split; [exact Ha|]. split; [reflexivity|]. split; [reflexivity|]. split; [apply Hx|].
      destruct (holds_pos a _ Ha) as (_ & _ & _ & Hup). pose proof (tp_le (dp a) 0 Hdp) as H0. rewrite tp_0 in H0. lra.
Qed.

Lemma scale_down_big i : forall fuel a s, holds a (x * bp (- s)) -> 0 < dp a -> 0 <= s ->
  (x * bp (- s) < bp (27 * Z.of_nat i + 28))%R -> (i + 29 <= fuel)%nat ->
  exists b e, scale_down fuel a s = (b, e) /\ s <= e /\ scaled (1 / 10) a b x e /\ trimmed b.
Proof.
  induction i as [|i IH]; intros fuel a s Ha Hdp Hs Hx Hf;
    (destruct fuel as [|fuel]; [lia|]); cbn [scale_down]; replace (0 <? dp a) with true by lia;
    destruct (down_turn a x s D E Ha Hdp Ex HD ltac:(pose proof (down_exp a s Ha Hdp); lia)) as [S1 Hhalf];
    destruct (pow_shift_spec (dp a) ltac:(lia)) as (Hn & H27 & _); set (n := pow_shift (dp a)) in *;
    (enough (exists b e, scale_down fuel (Shift a (- n)) (s + n) = (b, e) /\ s + n <= e /\ scaled (1 / 10) (Shift a (- n)) b x e /\ trimmed b)
      as (b & e & -> & He & (H1 & H2 & H3 & H4) & H5);
     [exists b, e; split; [reflexivity|]; split; [lia|]; destruct S1 as (_ & _ & N1 & T1);
      split; [|exact H5]; split; [exact H1|]; split; [congruence|]; split; [congruence|exact H4]|]).
  - apply (scale_down_small 28); try apply S1; try lia. split; [exact Hhalf|].
    apply Rlt_le_trans with (bp 28 * bp (- n))%R; [rewrite <- bp_shift; apply Rmult_lt_compat_r; [apply bp_pos|exact Hx]|].
    rewrite <- bp_add. apply bp_mono. lia.
  - destruct (Z.le_gt_cases 9 (dp a)) as [H9|H9].
    + specialize (H27 H9). assert (Hx' : (x * bp (- (s + n)) < bp (27 * Z.of_nat i + 28))%R).
      { apply Rlt_le_trans with (bp (27 * Z.of_nat (S i) + 28) * bp (- n))%R.
        - rewrite <- bp_shift. apply Rmult_lt_compat_r; [apply bp_pos|exact Hx].
        - rewrite <- bp_add. apply bp_mono. lia. }
      destruct (Z.lt_ge_cases 0 (dp (Shift a (- n)))) as [Hd|Hd]; [apply IH; try apply S1; try lia; exact Hx'|].
      (* nothing left to do *)
      apply (scale_down_small 0); try apply S1; try lia. split; [exact Hhalf|].
      destruct (holds_pos _ _ (proj1 S1)) as (_ & _ & _ & Hup). pose proof (tp_le _ 0 Hd) as H0. rewrite tp_0 in H0. cbn. lra.
    + apply (scale_down_small 28); try apply S1; try lia. split; [exact Hhalf|].
      destruct (holds_pos a _ Ha) as (_ & _ & _ & Hup).
      apply Rlt_le_trans with (bp 28 * bp (- n))%R; [|rewrite <- bp_add; apply bp_mono; lia].
      rewrite <- bp_shift. apply Rmult_lt_compat_r; [apply bp_pos|]. apply (Rlt_le_trans _ _ _ Hup).
      apply Rle_trans with (tp 8); [apply tp_le; lia|]. now apply tp_le_bp.
Qed.
End Down.

(** ** Scaling up *)

Definition places (p : Z) (y : R) : Prop := exists z, y = (IZR z * tp (- p))%R.

Lemma places_double p y n : 0 <= n -> places p y -> places p (y * bp n).
Proof. intros Hn [z ->]. exists (z * 2 ^ n). rewrite mult_IZR, bp_IZR by exact Hn. ring. Qed.

Lemma trimmed_length a y p : holds a y -> trimmed a -> places p y -> nd a <= dp a + p.
Proof.
  intros [(Hd & Hl & Hh) Ey] Ht [z Ez]. destruct (d a) as [|c l] eqn:E; [easy|].
  destruct (exists_last (l := c :: l) ltac:(discriminate)) as (q & t & E').
  unfold nd. rewrite E. rewrite E' in *. pose proof (places_needed q t z p (dp a - len (q ++ [t])) Hd) as H.
  specialize (H ltac:(apply (Ht q); congruence)). unfold dec_value in Ey. rewrite Ey in H. specialize (H Ez). lia.
Qed.

Lemma below_one a y : holds a y -> (y < 1)%R -> dp a <= 0.
Proof.
  intros Ha Hy. destruct (holds_pos a y Ha) as (_ & _ & Hlow & _).
  assert (tp (dp a - 1) < tp 0)%R by (rewrite tp_0; lra). apply tp_lt_inv in H. lia.
Qed.

(** The test of the loop, on a number below one. *)
Lemma half_test a y : holds a y -> (y < 1)%R ->
  (dp a <? 0) || ((dp a =? 0) && (at_ (d a) 0 <? 53)) = true <-> (y < 1 / 2)%R.
Proof.
  intros Ha Hy. pose proof (below_one a y Ha Hy) as Hdp. destruct (holds_pos a y Ha) as (_ & _ & _ & Hup).
  assert (Hneg : dp a < 0 -> (y < 1 / 2)%R).
  { intros H. pose proof (tp_le (dp a) (-1) ltac:(lia)) as H1. pose proof (tp_neg 1 ltac:(lia)) as H2.
    change (IZR (10 ^ 1)) with 10%R in H2. change (tp (- (1))) with (tp (-1)) in H2. lra. }
  destruct (Z.ltb_spec (dp a) 0) as [H|H]; cbn [orb]; [now split; auto|].
  replace (dp a =? 0) with true by lia. cbn [andb]. rewrite Z.ltb_lt.
  destruct Ha as [(Hd & Hl & Hh) Ey]. destruct (d a) as [|c l] eqn:E; [easy|]. change (at_ (c :: l) 0) with c.
  replace (dp a) with 0 in Ey by lia. unfold dec_value in Ey. rewrite len_cons in Ey.
  apply Forall_cons_iff in Hd as [Hc Hr]. pose proof (num_bound l Hr) as Br. pose proof (len_nonneg l) as Hl0.
  replace (0 - (len l + 1)) with (- (len l + 1)) in Ey by lia.
  pose proof (tp_neg (len l + 1) ltac:(lia)) as Inv. pose proof (tp_pos (- (len l + 1))) as P.
  rewrite pow10_succ in Inv by exact Hl0. set (q := tp (- (len l + 1))) in *.
  assert (Eh : (IZR (5 * 10 ^ len l) * q = 1 / 2)%R).
  { replace (10 * 10 ^ len l) with (2 * (5 * 10 ^ len l)) in Inv by ring. rewrite mult_IZR in Inv. lra. }
  rewrite <- Ey, <- Eh, num_cons. pose proof (pow10_pos (len l) Hl0). split; intros Hcmp.
  - apply Rmult_lt_compat_r; [exact P|]. apply IZR_lt. nia.
  - apply Rmult_lt_reg_r in Hcmp; [|exact P]. apply lt_IZR in Hcmp. nia.
Qed.

Lemma up_turn a y p : holds a y -> (y < 1 / 2)%R -> nd a + 19 <= max_digits -> places p y -> p + 19 <= max_digits ->
  let b := Shift a (pow_shift (- dp a)) in
  shifted a b (y * bp (pow_shift (- dp a))) /\ (y * bp (pow_shift (- dp a)) < 1)%R /\
  nd b + 19 <= max_digits /\ places p (y * bp (pow_shift (- dp a))).
Proof.
  intros Ha Hy Hroom Hp Hp19 b. pose proof (below_one a y Ha ltac:(lra)) as Hdp.
  destruct (pow_shift_spec (- dp a) ltac:(lia)) as (Hn & _ & Hpow). set (n := pow_shift (- dp a)) in *.
  assert (S1 : shifted a b (y * bp n)) by (apply Shift_up; [exact Ha|unfold maxShift; lia|exact Hroom]).
  assert (H1 : (y * bp n < 1)%R).
  { destruct (Z.eq_dec (dp a) 0) as [E0|E0].
    - replace n with 1 by (unfold n; now rewrite E0). change (bp 1) with (2 * 1)%R. lra.
    - destruct (holds_pos a y Ha) as (_ & Hpos & _ & Hup). specialize (Hpow ltac:(lia)).
      apply bp_le_tp in Hpow; [|lia..]. pose proof (bp_pos n). pose proof (tp_inv (dp a)). pose proof (tp_pos (- dp a)). nra. }
  assert (Hp' : places p (y * bp n)) by (apply places_double; [lia|exact Hp]).
  split; [exact S1|]. split; [exact H1|]. split; [|exact Hp'].
  pose proof (trimmed_length b _ p (proj1 S1) (proj1 (proj2 S1)) Hp') as H2.
  pose proof (below_one b _ (proj1 S1) H1). lia.
Qed.

Lemma scaled_trans lo a b c x e n : shifted a b (x * bp (- e)) -> scaled lo b c x n -> scaled lo a c x n.
Proof. intros (_ & _ & N1 & T1) (H1 & H2 & H3 & H4). split; [exact H1|]. split; [congruence|]. split; [congruence|exact H4]. Qed.

Section Up.
Context (x : R) (p : Z) (Hp19 : p + 19 <= max_digits).

Definition can_scale (a : decimal) (e : Z) : Prop :=
  holds a (x * bp (- e)) /\ (x * bp (- e) < 1)%R /\ nd a + 19 <= max_digits /\ places p (x * bp (- e)).

(** What comes out: in [1/2, 1), with room for a shift. *)
Definition scaled_up (a b : decimal) (e : Z) : Prop :=
  scaled (1 / 2) a b x e /\ nd b + 19 <= max_digits /\ places p (x * bp (- e)).

Lemma scale_up_stop fuel a e : can_scale a e -> (1 / 2 <= x * bp (- e))%R ->
  scale_up fuel a e = (a, e) /\ scaled_up a a e.
Proof.
  intros (Ha & H1 & Hr & Hpl) Hh. split.
  - destruct fuel as [|fuel]; cbn [scale_up]; [reflexivity|]. destruct (_ || _) eqn:E; [|reflexivity].
    apply (half_test a _ Ha H1) in E. lra.
  - split; [|now split]. split; [exact Ha|]. split; [reflexivity|]. split; [reflexivity|]. now split.
Qed.

Lemma scale_up_turn fuel a e : can_scale a e -> (x * bp (- e) < 1 / 2)%R ->
  let n := pow_shift (- dp a) in
  scale_up (S fuel) a e = scale_up fuel (Shift a n) (e - n) /\ can_scale (Shift a n) (e - n) /\
  (forall b e', scaled_up (Shift a n) b e' -> scaled_up a b e').
Proof.
  intros (Ha & H1 & Hr & Hpl) Hh n. destruct (up_turn a _ p Ha Hh Hr Hpl Hp19) as (S1 & L1 & R1 & P1).
  fold n in S1, L1, R1, P1.
  assert (Ee : (x * bp (- e) * bp n = x * bp (- (e - n)))%R) by (rewrite Rmult_assoc, <- bp_add; do 2 f_equal; lia).
  rewrite Ee in *. split.
  - cbn [scale_up]. apply (half_test a _ Ha H1) in Hh. now rewrite Hh.
  - split; [now split; [apply S1|]|]. intros b e' [Hs Ho]. split; [|exact Ho]. exact (scaled_trans _ _ _ _ _ _ _ S1 Hs).
Qed.

Lemma scale_up_small j : forall fuel a e, can_scale a e -> (bp (- Z.of_nat (S j)) <= x * bp (- e))%R -> (j <= fuel)%nat ->
  exists b e', scale_up fuel a e = (b, e') /\ scaled_up a b e'.
Proof.
  induction j as [|j IH]; intros fuel a e Hc Hx Hf.
  - exists a, e. apply scale_up_stop; [exact Hc|]. change (bp (- Z.of_nat 1)) with (/ (2 * 1))%R in Hx. lra.
  - destruct (Rlt_le_dec (x * bp (- e)) (1 / 2)) as [Hh|Hh]; [|exists a, e; now apply scale_up_stop].
    destruct fuel as [|fuel]; [lia|]. destruct (scale_up_turn fuel a e Hc Hh) as (-> & Hc' & Hback).
    pose proof (below_one a _ (proj1 Hc) (proj1 (proj2 Hc))) as Hdp.
    destruct (pow_shift_spec (- dp a) ltac:(lia)) as (Hn & _). set (n := pow_shift (- dp a)) in *.
    destruct (IH fuel _ _ Hc') as (b & e' & -> & Hs); [|lia|exists b, e'; split; [reflexivity|now apply Hback]].
    replace (- (e - n)) with (- e + n) by lia. rewrite bp_add, <- Rmult_assoc.
    apply Rle_trans with (bp (- Z.of_nat (S (S j))) * bp n)%R; [rewrite <- bp_add; apply bp_mono; lia|].
    apply Rmult_le_compat_r; [pose proof (bp_pos n); lra|exact Hx].
Qed.

Lemma scale_up_big i : forall fuel a e, can_scale a e -> (bp (- (27 * Z.of_nat i + 31)) <= x * bp (- e))%R -> (i + 30 <= fuel)%nat ->
  exists b e', scale_up fuel a e = (b, e') /\ scaled_up a b e'.
Proof.
  induction i as [|i IH]; intros fuel a e Hc Hx Hf; [now apply (scale_up_small 30); [| |lia]|].
  destruct (Z.le_gt_cases (dp a) (-9)) as [H9|H9].
  - destruct (Rlt_le_dec (x * bp (- e)) (1 / 2)) as [Hh|Hh]; [|exists a, e; now apply scale_up_stop].
    destruct fuel as [|fuel]; [lia|]. destruct (scale_up_turn fuel a e Hc Hh) as (-> & Hc' & Hback).
    destruct (pow_shift_spec (- dp a) ltac:(lia)) as (_ & E27 & _). rewrite E27 in * by lia.
    destruct (IH fuel _ _ Hc') as (b & e' & -> & Hs); [|lia|exists b, e'; split; [reflexivity|now apply Hback]].
    replace (- (e - 27)) with (- e + 27) by lia. rewrite bp_add, <- Rmult_assoc.
    apply Rle_trans with (bp (- (27 * Z.of_nat (S i) + 31)) * bp 27)%R; [rewrite <- bp_add; apply bp_mono; lia|].
    apply Rmult_le_compat_r; [pose proof (bp_pos 27); lra|exact Hx].
  - apply (scale_up_small 30); [exact Hc| |lia]. destruct (holds_pos a _ (proj1 Hc)) as (_ & _ & Hlow & _).
    apply Rle_trans with (tp (-9)); [|eapply Rle_trans; [|exact Hlow]; apply tp_le; lia].
    change (-9) with (- (9)). now apply bp_le_tp_neg.
Qed.
End Up.

(** * The bits *)

Lemma assemble_bits mant exp neg : 0 <= exp + 1023 < 2 ^ 11 ->
  assemble float64info mant exp neg = Z.b2z neg * 2 ^ 63 + ((exp + 1023) * 2 ^ 52 + mant mod 2 ^ 52).
Proof.
  intros He. unfold assemble. cbn [mantbits expbits flt_bias float64info].
  change (Z.shiftl 1 52 - 1) with (2 ^ 52 - 1). change (Z.shiftl 1 11 - 1) with (2 ^ 11 - 1).
  change (Z.shiftl (Z.shiftl 1 52) 11) with (1 * 2 ^ 63). rewrite !land_mask by lia.
  replace (exp - -1023) with (exp + 1023) by lia. rewrite (Z.mod_small (exp + 1023)) by lia.
  pose proof (Z.mod_pos_bound mant (2 ^ 52) ltac:(lia)) as Hm.
  rewrite Z.shiftl_mul_pow2, (Z.lor_comm (mant mod _)), lor_add by lia.
  destruct neg; cbn [Z.b2z]; [|lia]. rewrite Z.lor_comm, lor_add by lia. reflexivity.
Qed.

Section Bits.
Context (x : R) (D E : Z) (Ex : x = (IZR D * tp E)%R) (HD : 0 <= D < 10 ^ 20).

Lemma places_up t : t <= 0 -> places (- E) (x * bp (- t)).
Proof.
  intros Ht. exists (D * 2 ^ (- t)). rewrite Ex, mult_IZR, Z.opp_involutive, <- bp_IZR by lia. ring.
Qed.

Lemma places_down t : 0 <= t -> places (t - E) (x * bp (- t)).
Proof.
  intros Ht. exists (D * 5 ^ t). rewrite Ex, mult_IZR. replace (- (t - E)) with (- t + E) by lia. rewrite tp_add.
  assert (H : (bp (- t) = IZR (5 ^ t) * tp (- t))%R); [|rewrite H; ring].
  pose proof (bp_inv t) as Ib. pose proof (tp_inv t) as It. rewrite (tp_five t) in It by lia.
  pose proof (bp_pos t). apply (Rmult_eq_reg_r (bp t)); [|lra]. rewrite Ib, <- It. ring.
Qed.

Context (Hsmall : (tp (-331) <= x)%R).

Lemma exponent_low : - 351 <= E.
Proof.
  enough (-351 < E) by lia. apply tp_lt_inv. pose proof (tp_pos E).
  assert (H1 : (x < tp 20 * tp E)%R).
  { rewrite Ex. apply Rmult_lt_compat_r; [assumption|]. rewrite tp_IZR by lia. apply IZR_lt. lia. }
  assert (H2 : (tp (-331) = tp 20 * tp (-351))%R) by (rewrite <- tp_add; reflexivity). pose proof (tp_pos 20). nra.
Qed.

Lemma binary_exponent e : (x * bp (- e) < 1)%R -> - 1100 < e.
Proof.
  intros H. apply bp_lt_inv. apply Rle_lt_trans with x.
  - eapply Rle_trans; [|exact Hsmall]. change (-1100) with (- (1100)). change (-331) with (- (331)). apply bp_le_tp_neg; now vm_compute.
  - pose proof (bp_pos e). pose proof (bp_inv e). assert (x * (bp (- e) * bp e) < 1 * bp e)%R by (rewrite <- Rmult_assoc; nra).
    rewrite H1 in H2. lra.
Qed.

Lemma fits_up t : t <= 0 -> (x * bp (- t) < 1)%R -> fits (x * bp (- t)).
Proof.
  intros Ht H1. destruct (places_up t Ht) as [z Ez]. exists z, (- E). split; [exact Ez|].
  pose proof exponent_low. apply (Rlt_le_trans _ _ _ H1). rewrite <- tp_0. apply tp_le. unfold max_digits. lia.
Qed.

(** Both loops together. *)
Lemma scaling a : holds a x -> nd a <= 700 -> (x < tp 310)%R ->
  exists b e, (let '(b, e) := scale_down scale_fuel a 0 in scale_up scale_fuel b e) = (b, e) /\
    scaled (1 / 2) a b x e /\ nd b + 19 <= max_digits.
Proof.
  intros Ha Hnd Hbig. assert (E0 : (x * bp (- 0) = x)%R) by (change (bp (- 0)) with 1%R; ring).
  assert (Hb : (x < bp 1031)%R) by (apply (Rlt_le_trans _ _ _ Hbig); apply tp_le_bp; now vm_compute).
  destruct (Z.lt_ge_cases 0 (dp a)) as [Hdp|Hdp].
  - destruct (scale_down_big x D E Ex HD Hb 38 scale_fuel a 0) as (b & s & -> & Hs & (Hh & Hn & Ht & Hr) & Htrim);
      [now rewrite E0|exact Hdp|lia| |unfold scale_fuel; lia|].
    { rewrite E0. apply (Rlt_le_trans _ _ _ Hb). apply bp_mono. lia. }
    assert (Hp : s - E <= 750).
    { assert (Hs' : s <= 1040).
      { enough (s < 1040) by lia. apply bp_lt_inv. pose proof (bp_pos s). pose proof (bp_inv s).
        assert (bp s <= 10 * x)%R by (assert (1 / 10 * bp s <= x * (bp (- s) * bp s))%R by (rewrite <- Rmult_assoc; nra); rewrite H0 in H1; lra).
        apply Rle_lt_trans with (10 * x)%R; [assumption|]. replace 1040 with (9 + 1031) by lia. rewrite bp_add.
        rewrite (bp_IZR 9) by lia. change (IZR (2 ^ 9)) with 512%R. pose proof (bp_pos 1031). lra. }
      enough (s - E < 750) by lia. apply tp_lt_inv. destruct (places_down s ltac:(lia)) as [z Ez].
      assert (Ev : (tp (s - E) * (x * bp (- s)) = IZR (D * 5 ^ s))%R).
      { rewrite Ex, mult_IZR. replace (tp (s - E)) with (IZR (5 ^ s) * bp s * tp (- E))%R by (rewrite <- tp_five, <- tp_add by lia; f_equal; lia).
        transitivity (IZR D * IZR (5 ^ s) * (tp (- E) * tp E) * (bp (- s) * bp s))%R; [ring|]. rewrite tp_inv, bp_inv. ring. }
      pose proof (tp_pos (s - E)). assert (HB : (IZR (D * 5 ^ s) <= IZR (10 ^ 20 * 5 ^ 1040))%R).
      { apply IZR_le. pose proof (Z.pow_le_mono_r 5 s 1040 ltac:(lia) ltac:(lia)). pose proof (Z.pow_nonneg 5 s). nia. }
      apply Rle_lt_trans with (10 * IZR (10 ^ 20 * 5 ^ 1040))%R; [nra|]. rewrite tp_IZR, <- mult_IZR by lia. apply IZR_lt. now vm_compute. }
    destruct (scale_up_small x (s - E) ltac:(unfold max_digits; lia) 3 scale_fuel b s) as (c & e & -> & Hsc & Hroom & _).
    + split; [exact Hh|]. split; [lra|]. split; [|apply places_down; lia].
      pose proof (trimmed_length b _ (s - E) Hh Htrim (places_down s ltac:(lia))).
      pose proof (below_one b _ Hh ltac:(lra)). unfold max_digits. lia.
    + change (bp (- Z.of_nat 4)) with (/ (2 * (2 * (2 * (2 * 1)))))%R. lra.
    + unfold scale_fuel. lia.
    + exists c, e. split; [reflexivity|]. split; [|exact Hroom]. destruct Hsc as (H1 & H2 & H3 & H4).
      split; [exact H1|]. split; [congruence|]. split; [congruence|exact H4].
  - assert (H1 : (x < 1)%R).
    { destruct (holds_pos a x Ha) as (_ & _ & _ & Hup). pose proof (tp_le (dp a) 0 Hdp) as H. rewrite tp_0 in H. lra. }
    rewrite scale_down_stop by exact Hdp. pose proof exponent_low as HE.
    destruct (scale_up_big x (- E) ltac:(unfold max_digits; lia) 40 scale_fuel a 0) as (c & e & -> & Hsc & Hroom & _).
    + split; [now rewrite E0|]. split; [now rewrite E0|]. split; [unfold max_digits; lia|]. apply places_up. lia.
    + rewrite E0. eapply Rle_trans; [|exact Hsmall]. change (- (27 * Z.of_nat 40 + 31)) with (- (1111)). change (-331) with (- (331)).
      apply bp_le_tp_neg; now vm_compute.
    + unfold scale_fuel. lia.
    + exists c, e. split; [reflexivity|]. now split.
Qed.
(** The denormal numbers are moved to the least exponent. *)
Lemma denormal_shift b e : holds b (x * bp (- e)) -> (1 / 2 <= x * bp (- e) < 1)%R -> nd b + 19 <= max_digits ->
  let e2 := if e - 1 <? -1022 then -1022 else e - 1 in
  let c := if e - 1 <? -1022 then Shift b (- (-1022 - (e - 1))) else b in
  holds c (x * bp (- (e2 + 1))) /\ nd c + 19 <= max_digits /\ Decimal.neg c = Decimal.neg b /\ trunc c = trunc b /\
  (x * bp (- (e2 + 1)) < 1)%R /\ -1022 <= e2 /\ (e2 = -1022 \/ (1 / 2 <= x * bp (- (e2 + 1)))%R).
Proof.
  intros Hb Hr Hroom e2 c. unfold e2, c. destruct (Z.ltb_spec (e - 1) (-1022)) as [H|H].
  - pose proof (binary_exponent e ltac:(lra)) as He. pose proof exponent_low as HE.
    assert (Ev : forall j, (x * bp (- e) * bp (- j) = x * bp (- (e + j)))%R) by (intros j; apply bp_shift).
    assert (Hlt : forall j, 0 <= j -> (x * bp (- (e + j)) < 1)%R).
    { intros j Hj. rewrite <- Ev. pose proof (bp_mono (- j) 0 ltac:(lia)) as Hm. rewrite bp_0 in Hm.
      pose proof (bp_pos (- j)). pose proof (holds_pos b _ Hb) as (_ & Hpos & _). nra. }
    assert (S1 : shifted b (Shift b (- (-1022 - (e - 1)))) (x * bp (- e) * bp (- (-1022 - (e - 1))))).
    { apply Shift_down; [exact Hb|lia|]. intros j Hj. rewrite Ev. apply fits_up; [lia|apply Hlt; lia]. }
    rewrite Ev in S1. replace (e + (-1022 - (e - 1))) with (-1022 + 1) in S1 by lia.
    assert (H1 : (x * bp (- (-1022 + 1)) < 1)%R) by (replace (-1022 + 1) with (e + (-1021 - e)) by lia; apply Hlt; lia).
    split; [apply S1|]. split.
    { pose proof (trimmed_length _ _ (- E) (proj1 S1) (proj1 (proj2 S1)) (places_up (-1022 + 1) ltac:(lia))) as Hl.
      pose proof (below_one _ _ (proj1 S1) H1). unfold max_digits. lia. }
    split; [apply S1|]. split; [apply S1|]. split; [exact H1|]. split; [lia|now left].
  - replace (e - 1 + 1) with e by lia. split; [exact Hb|]. split; [exact Hroom|]. split; [reflexivity|]. split; [reflexivity|].
    split; [lra|]. split; [lia|]. right. lra.
Qed.

End Bits.

(** The mantissa: 53 bits, rounded to the nearest. *)
Lemma mantissa_bits x c e2 : holds c (x * bp (- (e2 + 1))) -> nd c + 19 <= max_digits -> trunc c = false ->
  (x * bp (- (e2 + 1)) < 1)%R -> -1022 <= e2 <= 1023 -> (e2 = -1022 \/ (1 / 2 <= x * bp (- (e2 + 1)))%R) ->
  let mant := RoundedInteger (Shift c 53) in
  nearest x (code mant (e2 - 52)) /\ 0 <= mant <= 2 ^ 53 /\ (e2 = -1022 \/ 2 ^ 52 <= mant) /\
  Decimal.neg (Shift c 53) = Decimal.neg c.
Proof.
  intros Hc Hroom Htr H1 He2 Hlow mant.
  pose proof (Shift_up c 53 _ Hc ltac:(unfold maxShift; lia) Hroom) as S1.
  set (y := (x * bp (- (e2 + 1)) * bp 53)%R) in *.
  assert (Hy : (y < bp 53)%R) by (unfold y; pose proof (bp_pos 53); nra).
  assert (Hdp : dp (Shift c 53) <= 18).
  { destruct (holds_pos _ _ (proj1 S1)) as (_ & _ & Hlo & _). enough (dp (Shift c 53) - 1 < 16) by lia.
    apply tp_lt_inv. apply (Rle_lt_trans _ _ _ Hlo). apply (Rlt_le_trans _ _ _ Hy). apply bp_le_tp; now vm_compute. }
  destruct (RoundedInteger_nearest _ _ (proj1 S1) (proj1 (proj2 S1)) ltac:(destruct S1 as (_ & _ & _ & ->); exact Htr) Hdp)
    as (m & f & l & Hf & Ey & Hm & Erne). fold mant in Erne. pose proof (inb_range _ _ Hf) as Hfr.
  assert (EX : x = ((IZR m + f) * bp (e2 - 52))%R).
  { rewrite <- Ey. unfold y. rewrite !Rmult_assoc, <- !bp_add. replace (- (e2 + 1) + (53 + (e2 - 52))) with 0 by lia. rewrite bp_0. ring. }
  assert (Hm53 : m < 2 ^ 53) by (apply lt_IZR; rewrite <- bp_IZR by lia; lra).
  assert (Hm52 : e2 = -1022 \/ 2 ^ 52 <= m).
  { destruct Hlow as [->|Hh]; [now left|right]. enough (2 ^ 52 < m + 1) by lia. apply lt_IZR. rewrite plus_IZR, <- bp_IZR by lia.
    apply Rle_lt_trans with y; [|lra]. unfold y. replace (bp 53) with (2 * bp 52)%R
      by (change 53 with (1 + 52); rewrite bp_add; change (bp 1) with (2 * 1)%R; ring). pose proof (bp_pos 52). nra. }
  assert (Hmant : m <= mant <= m + 1).
  { rewrite Erne. unfold round_nearest_even. destruct l as [|[]]; try lia. destruct (Z.even m); lia. }
  rewrite Erne in *. split; [|split; [lia|]].
  - apply (nearest_code x m f l); [exact Hf|exact EX| |lia]. unfold canon. lia.
  - split; [destruct Hm52; [now left|right; lia]|apply S1].
Qed.
(** A decimal with its bits, and whether it is beyond the largest number. *)
Definition bits_of (x : R) (neg : bool) (r : Z * bool) : Prop :=
  exists n, nearest x n /\ fst r = Z.b2z neg * 2 ^ 63 + n /\ snd r = (n =? inf_bits).

Lemma overflow_bits x neg : (bp 1024 <= x)%R ->
  bits_of x neg (assemble float64info 0 (Z.shiftl 1 (expbits float64info) - 1 + flt_bias float64info) neg, true).
Proof.
  intros Hx. exists inf_bits. split.
  - apply nearest_overflow. apply Rle_trans with (bp 1024); [|exact Hx]. rewrite !bp_IZR, <- mult_IZR by lia.
    apply IZR_le. now vm_compute.
  - rewrite assemble_bits by (cbn; lia). cbn [fst snd]. split; [f_equal; reflexivity|]. now rewrite Z.eqb_refl.
Qed.

Lemma land_bit m : 0 <= m < 2 ^ 53 -> (Z.land m (2 ^ 52) =? 0) = (m <? 2 ^ 52).
Proof.
  intros Hm. pose proof (testbit_52 m Hm) as Hb. destruct (Z.ltb_spec m (2 ^ 52)) as [H|H].
  - apply Z.eqb_eq, Z.bits_inj'. intros n Hn. rewrite Z.land_spec, Z.pow2_bits_eqb, Z.bits_0 by lia.
    destruct (Z.eqb_spec 52 n) as [<-|]; [|apply andb_false_r]. rewrite Hb. now replace (2 ^ 52 <=? m) with false by lia.
  - apply Z.eqb_neq. intros E. apply (f_equal (fun z => Z.testbit z 52)) in E.
    rewrite Z.land_spec, Z.pow2_bits_true, Z.bits_0, Hb, andb_true_r in E by lia. lia.
Qed.

(** The last lines of [floatBits]: a mantissa that carries, and the denormal ones. *)
Lemma final_bits mant e2 neg : 0 <= mant <= 2 ^ 53 -> -1022 <= e2 <= 1023 -> (e2 = -1022 \/ 2 ^ 52 <= mant) ->
  (let '(mant, exp) := if mant =? 2 ^ 53 then (Z.shiftr mant 1, e2 + 1) else (mant, e2) in
   if 2047 <=? exp - -1023 then (assemble float64info 0 (2047 + -1023) neg, true)
   else
     let exp := if Z.land mant (2 ^ 52) =? 0 then -1023 else exp in
     (assemble float64info mant exp neg, false)) =
  (Z.b2z neg * 2 ^ 63 + code mant (e2 - 52), code mant (e2 - 52) =? inf_bits).
Proof.
  intros Hm He Hc. unfold code, inf_bits. destruct (Z.eqb_spec mant (2 ^ 53)) as [->|Hne].
  - change (Z.shiftr (2 ^ 53) 1) with (2 ^ 52). rewrite land_bit by lia. replace (2 ^ 52 <? 2 ^ 52) with false by lia.
    destruct (Z.leb_spec 2047 (e2 + 1 - -1023)) as [H|H]; rewrite assemble_bits by lia.
    + replace e2 with 1023 by lia. reflexivity.
    + rewrite Z.mod_same by lia. f_equal; lia.
  - replace (2047 <=? e2 - -1023) with false by lia. rewrite land_bit by lia. cbv zeta.
    destruct (Z.ltb_spec mant (2 ^ 52)) as [H|H]; rewrite assemble_bits by lia.
    + rewrite Z.mod_small by lia. f_equal; lia.
    + replace (mant mod 2 ^ 52) with (mant - 2 ^ 52) by (apply (Z.mod_unique _ _ 1); lia). f_equal; lia.
Qed.

Lemma half_above x e : (1 / 2 <= x * bp (- (e + 1)) -> bp e <= x)%R.
Proof.
  intros H. pose proof (bp_pos (e + 1)). pose proof (bp_inv (e + 1)) as Inv.
  assert (H1 : (1 / 2 * bp (e + 1) <= x * (bp (- (e + 1)) * bp (e + 1)))%R) by (rewrite <- Rmult_assoc; nra).
  rewrite Inv, bp_add in H1. change (bp 1) with (2 * 1)%R in H1. lra.
Qed.

Theorem floatBits_nearest a x D E :
  holds a x -> x = (IZR D * tp E)%R -> 0 <= D < 10 ^ 20 -> nd a <= 700 -> trunc a = false ->
  bits_of x (Decimal.neg a) (floatBits a float64info).
Proof.
  intros Ha Ex HD Hnd Htr. destruct (holds_pos a x Ha) as (_ & Hpos & Hlo & Hup).
  unfold floatBits. destruct (d a) as [|c0 l0] eqn:Ed; [destruct Ha as [(_ & _ & Hh) _]; now rewrite Ed in Hh|]. clear Ed c0 l0.
  destruct (Z.ltb_spec 310 (dp a)) as [Hbig|Hbig].
  { apply overflow_bits. apply Rle_trans with (tp 310); [apply bp_le_tp; now vm_compute|].
    eapply Rle_trans; [|exact Hlo]. apply tp_le. lia. }
  destruct (Z.ltb_spec (dp a) (-330)) as [Hsm|Hsm].
  { exists 0. split.
    - split; [unfold inf_bits; lia|]. split; [lra|]. split; [lia|]. intros _.
      assert (Hx : (x < midpoint 0)%R).
      { change 0 with (code 0 (-1074)). rewrite midpoint_code by lia. apply (Rlt_le_trans _ _ _ Hup).
        apply Rle_trans with (bp (-1076)).
        - apply Rle_trans with (tp (-331)); [apply tp_le; lia|]. change (-331) with (- (331)). change (-1076) with (- (1076)).
          apply tp_le_bp_neg; now vm_compute.
        - change (-1074) with (2 + -1076). rewrite bp_add. change (bp 2) with (2 * (2 * 1))%R. pose proof (bp_pos (-1076)). lra. }
      split; [lra|discriminate].
    - rewrite assemble_bits by (cbn; lia). split; reflexivity. }
  assert (Hsmall : (tp (-331) <= x)%R) by (eapply Rle_trans; [|exact Hlo]; apply tp_le; lia).
  assert (Hx310 : (x < tp 310)%R) by (eapply Rlt_le_trans; [exact Hup|]; apply tp_le; lia).
  destruct (scaling x D E Ex HD Hsmall a Ha Hnd Hx310) as (b & e & Eloops & (Hb & Nb & Tb & Hr) & Hroom).
  destruct (scale_down scale_fuel a 0) as [b1 e1]. rewrite Eloops. cbn [flt_bias mantbits expbits float64info].
  change (-1023 + 1) with (-1022).
  destruct (denormal_shift x D E Ex HD Hsmall b e Hb Hr Hroom) as (Hc & Hroom2 & Nc & Tc & H1 & He2 & Hlow).
  cbv zeta in Hc, Hroom2, Nc, Tc, H1, He2, Hlow.
  set (e2 := if e - 1 <? -1022 then -1022 else e - 1) in *.
  set (c := if e - 1 <? -1022 then Shift b (- (-1022 - (e - 1))) else b) in *.
  replace (if e - 1 <? -1022 then (Shift b (- (-1022 - (e - 1))), e - 1 + (-1022 - (e - 1))) else (b, e - 1)) with (c, e2)
    by (unfold c, e2; destruct (e - 1 <? -1022); [f_equal; lia|reflexivity]).
  cbv beta iota. change (Z.shiftl 1 11 - 1) with 2047.
  destruct (Z.leb_spec 2047 (e2 - -1023)) as [Hov|Hov].
  { rewrite <- Nb, <- Nc. assert (Hh : (1 / 2 <= x * bp (- (e2 + 1)))%R) by (destruct Hlow; [lia|assumption]).
    assert (Hx : (bp 1024 <= x)%R); [|rewrite Nc, Nb; exact (overflow_bits x _ Hx)].
    apply Rle_trans with (bp e2); [apply bp_mono; lia|]. now apply half_above. }
  destruct (mantissa_bits x c e2 Hc Hroom2 ltac:(congruence) H1 ltac:(lia) Hlow) as (Hn & Hm & Hm52 & Nm).
  change (1 + 52) with 53. set (mant := RoundedInteger (Shift c 53)) in *.
  rewrite Nm, Nc, Nb. exists (code mant (e2 - 52)). split; [exact Hn|].
  pose proof (final_bits mant e2 (Decimal.neg a) Hm ltac:(lia) Hm52) as F. cbv zeta in F.
  change (Z.shiftl 2 52) with (2 ^ 53). change (Z.shiftl 1 52) with (2 ^ 52). rewrite F. split; reflexivity.
Qed.
