(* ===== verification/AtofSpec.v ===== *)
(** ParseFloat of a decimal text: its value, rounded to the nearest binary64. *)
From Stdlib Require Import ZArith Reals Lra Lia String Bool List SpecFloat.
From S2P Require Import Prelude Strconv Utf8 Float64 Rounding Nearest Tens Decimal Atof EiselSpec ExactSpec DecimalSpec FloatBitsSpec.
Import ListNotations.
Local Open Scope list_scope.
Local Open Scope Z_scope.

(** * Decimal texts *)

(** The digits without the zeros in front. *)
Fixpoint strip (l : list Z) : list Z :=
  match l with
  | [] => []
  | c :: l' => if c =? 48 then strip l' else l
  end.

Lemma strip_zeros l : exists n, l = repeat 48 n ++ strip l.
Proof.
  induction l as [|c l (n & IH)]; [now exists 0%nat|]. cbn [strip]. destruct (Z.eqb_spec c 48) as [->|].
  - exists (S n). cbn [repeat app]. now rewrite <- IH.
  - now exists 0%nat.
Qed.

Lemma strip_head l : match strip l with c :: _ => c <> 48 | [] => True end.
Proof.
  induction l as [|c l IH]; [exact I|]. cbn [strip]. destruct (Z.eqb_spec c 48); assumption.
Qed.

Lemma num_strip l : num (strip l) = num l.
Proof. destruct (strip_zeros l) as (n & E). rewrite E at 2. rewrite num_app, num_zeros. lia. Qed.

Lemma digits_strip l : digits l -> digits (strip l).
Proof. intros H. destruct (strip_zeros l) as (n & E). rewrite E in H. now apply digits_app in H. Qed.

Lemma len_strip l : len (strip l) <= len l.
Proof. destruct (strip_zeros l) as (n & E). rewrite E at 2. rewrite len_app, len_repeat. lia. Qed.

Lemma strip_app a b : strip (a ++ b) = match strip a with [] => strip b | _ => strip a ++ b end.
Proof.
  induction a as [|c a IH]; [reflexivity|]. cbn [app strip]. destruct (c =? 48); [exact IH|reflexivity].
Qed.

(** An exponent of at most five digits, and its value. *)
Inductive exp_text : list Z -> Z -> Prop :=
| exp_text_none : exp_text [] 0
| exp_text_some c sg ds s : c = 101 \/ c = 69 ->
    sg = [] /\ s = 1 \/ sg = [43] /\ s = 1 \/ sg = [45] /\ s = -1 ->
    ds <> [] -> digits ds -> len ds <= 5 -> exp_text (c :: sg ++ ds) (num ds * s).

(** A fraction and its digits. *)
Inductive frac_text : list Z -> list Z -> Prop :=
| frac_text_none : frac_text [] []
| frac_text_some ds : digits ds -> frac_text (46 :: ds) ds.

(** A decimal text of at most 19 significant digits, not counting zeros at either end,
    and the value it spells, its sign apart. *)
Inductive decimal_text : list Z -> bool -> R -> Prop :=
| decimal_text_intro (neg : bool) ip f fp x e :
    digits ip -> ip <> [] -> frac_text f fp -> exp_text x e ->
    forallb (fun c => c =? 48) (skipn 19 (strip (ip ++ fp))) = true -> len (ip ++ fp) <= 700 ->
    decimal_text ((if neg then [45] else []) ++ ip ++ f ++ x) neg (IZR (num (ip ++ fp)) * tp (e - len fp)).

(** * Reading *)

(** The state of [mantissa_loop] after the significant digits [sd]. *)
Definition scan_state (sd : list Z) (dp : Z) (dot saw : bool) : scanned :=
  mkScanned (num (firstn 19 sd)) (len sd) (Z.min (len sd) 19) dp (negb (forallb (fun c => c =? 48) (skipn 19 sd))) dot saw false.

Lemma firstn_snoc_lt {A} (l : list A) x n : (length l < n)%nat -> firstn n (l ++ [x]) = firstn n l ++ [x].
Proof. intros H. rewrite firstn_app, firstn_all2 by lia. f_equal. destruct (n - length l)%nat eqn:E; [lia|cbn [firstn]; now rewrite firstn_nil]. Qed.

Lemma num_19 sd : digits sd -> 0 <= num (firstn 19 sd) < 10 ^ 19.
Proof.
  intros H. assert (Hd : digits (firstn 19 sd)) by (rewrite <- (firstn_skipn 19 sd) in H; now apply digits_app in H).
  pose proof (num_bound _ Hd) as B. assert (Hl : len (firstn 19 sd) <= 19) by (unfold len; rewrite length_firstn; lia).
  pose proof (Z.pow_le_mono_r 10 (len (firstn 19 sd)) 19 ltac:(lia) Hl). lia.
Qed.

(** A significant digit. *)
Lemma mantissa_digit sd c s i dp dot saw : digits sd -> is_digit c = true -> (c <> 48 \/ sd <> []) ->
  mantissa_loop false (c :: s) i (scan_state sd dp dot saw) = mantissa_loop false s (i + 1) (scan_state (sd ++ [c]) dp dot true).
Proof.
  intros Hsd Hc Hne. pose proof (is_digit_range c Hc) as Rc. unfold scan_state. cbn [mantissa_loop].
  replace (c =? 95) with false by lia. replace (c =? 46) with false by lia. rewrite Hc.
  pose proof (len_nonneg sd) as Hl. rewrite len_app. change (len [c]) with 1.
  replace ((c =? 48) && (len sd =? 0)) with false.
  2:{ destruct Hne as [|Hne]; [lia|]. destruct sd as [|y sd]; [easy|]. rewrite len_cons in *. pose proof (len_nonneg sd). lia. }
  pose proof (num_19 sd Hsd) as B. destruct (Z.ltb_spec (Z.min (len sd) 19) 19) as [H|H].
  - assert (Hlen : (length sd < 19)%nat) by (unfold len in *; lia).
    assert (Bs : num (firstn 19 sd) < 10 ^ 18).
    { rewrite firstn_all2 by lia. pose proof (num_bound sd Hsd).
      pose proof (Z.pow_le_mono_r 10 (len sd) 18 ltac:(lia) ltac:(lia)). lia. }
    rewrite (u64_id (num _ * 10)), u64_id by lia. do 2 f_equal.
    + rewrite firstn_snoc_lt, num_app, num_one by exact Hlen. change (10 ^ len [c]) with 10. lia.
    + lia.
    + rewrite !skipn_all2 by (rewrite ?length_app; cbn [length]; lia). reflexivity.
  - assert (Hlen : (19 <= length sd)%nat) by (unfold len in *; lia). do 2 f_equal.
    + now rewrite firstn_app, (proj2 (Nat.sub_0_le 19 (length sd)) Hlen), firstn_O, app_nil_r.
    + lia.
    + rewrite skipn_app, (proj2 (Nat.sub_0_le 19 (length sd)) Hlen). cbn [skipn]. rewrite forallb_app. cbn [forallb].
      rewrite andb_true_r, negb_andb. reflexivity.
Qed.

(** Digits, the zeros in front of the significant ones counted in the place of the point. *)
Lemma mantissa_digits ds : forall sd s i dp dot saw, digits sd -> digits ds -> (sd <> [] -> strip sd = sd) ->
  mantissa_loop false (ds ++ s) i (scan_state sd dp dot saw) =
  mantissa_loop false s (i + len ds)
    (scan_state (strip (sd ++ ds)) (dp - (len sd + len ds - len (strip (sd ++ ds)))) dot
       (saw || match ds with [] => false | _ => true end)).
Proof.
  induction ds as [|c ds IH]; intros sd s i dp dot saw Hsd Hds Hst.
  - rewrite app_nil_r, orb_false_r. change (len []) with 0.
    assert (E : strip sd = sd) by (destruct sd; [reflexivity|now apply Hst]). rewrite E.
    replace (dp - (len sd + 0 - len sd)) with dp by lia. now rewrite Z.add_0_r.
  - inversion Hds as [|? ? Hc Hds']; subst. rewrite orb_true_r. cbn [app].
    destruct (Z.eq_dec c 48) as [->|Hc48]; [destruct sd as [|y sd]|].
    + (* a zero in front *)
      unfold scan_state at 1. cbn [mantissa_loop]. change (48 =? 95) with false. change (48 =? 46) with false.
      change (is_digit 48) with true. change ((48 =? 48) && (len [] =? 0)) with true. cbv iota beta.
      change (mkScanned (num (firstn 19 [])) (len []) (Z.min (len []) 19) (dp - 1) (negb (forallb (fun c => c =? 48) (skipn 19 []))) dot true false)
        with (scan_state [] (dp - 1) dot true).
      rewrite (IH [] s (i + 1) (dp - 1) dot true) by (try assumption; now constructor). cbn [app strip].
      change (48 =? 48) with true. cbv iota. rewrite len_cons. f_equal; [lia|]. f_equal. change (len []) with 0. lia.
    + rewrite mantissa_digit by (try assumption; now right).
      rewrite (IH (( y :: sd) ++ [48])); [|apply digits_app; split; [exact Hsd|now constructor]|exact Hds'|].
      * rewrite <- app_assoc. cbn [app orb]. rewrite (len_cons 48 ds). f_equal; [lia|].
        f_equal. rewrite app_comm_cons, len_app. change (len [48]) with 1. lia.
      * intros _. specialize (Hst ltac:(discriminate)). rewrite strip_app, Hst. reflexivity.
    + rewrite mantissa_digit by (try assumption; now left).
      rewrite (IH (sd ++ [c])); [|apply digits_app; split; [exact Hsd|now constructor]|exact Hds'|].
      * rewrite <- app_assoc. cbn [app]. rewrite len_cons, len_app. change (len [c]) with 1. f_equal; [lia|]. cbn [orb]. f_equal. lia.
      * intros _. rewrite strip_app. destruct sd as [|y sd]; [|now rewrite Hst].
        cbn [strip app]. now replace (c =? 48) with false by lia.
Qed.

Lemma digits_nil : digits [].
Proof. constructor. Qed.

Lemma strip_again l : strip (strip l) = strip l.
Proof.
  pose proof (strip_head l) as H. destruct (strip l) as [|c l']; [reflexivity|]. cbn [strip]. now replace (c =? 48) with false by lia.
Qed.

Lemma strip_app_strip a b : strip (strip a ++ b) = strip (a ++ b).
Proof. rewrite !strip_app, strip_again. reflexivity. Qed.

(** The characters of a decimal text without its sign. *)
Definition text_char (c : Z) : Prop := is_digit c = true \/ c = 46 \/ c = 101 \/ c = 69 \/ c = 43 \/ c = 45.

Lemma digits_text l : digits l -> Forall text_char l.
Proof. apply Forall_impl. intros c H. now left. Qed.

Lemma exp_text_chars x e : exp_text x e -> Forall text_char x.
Proof.
  intros [|c sg ds s Hc Hs _ Hd _]; [constructor|]. constructor; [unfold text_char; tauto|].
  apply Forall_app. split; [|now apply digits_text].
  destruct Hs as [[-> _]|[[-> _]|[-> _]]]; repeat constructor; unfold text_char; tauto.
Qed.

Lemma frac_text_chars f fp : frac_text f fp -> Forall text_char f.
Proof. intros [|ds H]; constructor; [unfold text_char; tauto|now apply digits_text]. Qed.

Lemma frac_digits f fp : frac_text f fp -> digits fp.
Proof. intros [|ds H]; [constructor|exact H]. Qed.

Lemma lower_digit c : text_char c -> lower c <> 120.
Proof.
  unfold text_char, lower. intros [H|H].
  - apply is_digit_range in H.
    assert (E : c = 48 \/ c = 49 \/ c = 50 \/ c = 51 \/ c = 52 \/ c = 53 \/ c = 54 \/ c = 55 \/ c = 56 \/ c = 57) by lia.
    repeat (destruct E as [->|E]; [discriminate|]). now subst c.
  - repeat (destruct H as [->|H]; [discriminate|]). now subst c.
Qed.

(** The digits as [set_loop] collects them. *)
Lemma set_digits ds : forall sd s dp dot saw, digits sd -> digits ds -> (sd <> [] -> strip sd = sd) -> len sd + len ds <= 700 ->
  set_loop (ds ++ s) (mkSet (rev sd) dp false dot saw) =
  set_loop s (mkSet (rev (strip (sd ++ ds))) (dp - (len sd + len ds - len (strip (sd ++ ds)))) false dot
    (saw || match ds with [] => false | _ => true end)).
Proof.
  induction ds as [|c ds IH]; intros sd s dp dot saw Hsd Hds Hst Hl.
  - rewrite app_nil_r, orb_false_r. change (len []) with 0.
    assert (E : strip sd = sd) by (destruct sd; [reflexivity|now apply Hst]). rewrite E.
    now replace (dp - (len sd + 0 - len sd)) with dp by lia.
  - inversion Hds as [|? ? Hc Hds']; subst. pose proof (is_digit_range c Hc) as Rc. rewrite orb_true_r. cbn [app set_loop].
    replace (c =? 95) with false by lia. replace (c =? 46) with false by lia. rewrite Hc, len_rev.
    rewrite len_cons in Hl. pose proof (len_nonneg ds) as Hl0. pose proof (len_nonneg sd) as Hl1.
    destruct ((c =? 48) && (len sd =? 0)) eqn:Ez.
    + destruct sd as [|y sd]; [|rewrite len_cons in Ez; pose proof (len_nonneg sd); lia].
      assert (c = 48) by lia. subst c. rewrite (IH []); [|constructor|exact Hds'|easy|change (len []) with 0 in *; lia]. cbn [app strip].
      change (48 =? 48) with true. cbv iota. rewrite len_cons. f_equal. f_equal. change (len []) with 0. lia.
    + unfold max_digits. replace (len sd <? 800) with true by lia. change (c :: rev sd) with ([c] ++ rev sd).
      replace ([c] ++ rev sd) with (rev (sd ++ [c])) by (rewrite rev_app_distr; reflexivity).
      rewrite (IH (sd ++ [c])).
      * rewrite <- app_assoc, (len_app sd [c]), (len_cons c ds). cbn [app]. change (len [c]) with 1. rewrite orb_true_l. f_equal. f_equal. lia.
      * apply digits_app. split; [exact Hsd|now constructor].
      * exact Hds'.
      * intros _. rewrite strip_app. destruct sd as [|y sd]; [|now rewrite Hst].
        change (len []) with 0 in Ez. cbn [strip app]. now replace (c =? 48) with false by lia.
      * rewrite len_app. change (len [c]) with 1. lia.
Qed.

(** The exponent stops the digits of the mantissa. *)
Lemma mantissa_stop x e i st : exp_text x e -> mantissa_loop false x i st = (st, i, x).
Proof. intros [|c sg ds s [->| ->] _ _ _ _]; destruct st; reflexivity. Qed.

Lemma set_stop x e st : exp_text x e -> set_loop x st = Some (st, x).
Proof. intros [|c sg ds s [->| ->] _ _ _ _]; destruct st; reflexivity. Qed.

Section Number.
Context (ip f fp x : list Z) (e : Z).
Hypothesis Hip : digits ip.
Hypothesis Hne : ip <> [].
Hypothesis Hf : frac_text f fp.
Hypothesis Hx : exp_text x e.

Let sd := strip (ip ++ fp).

Lemma scan_number i : exists dp dot,
  mantissa_loop false (ip ++ f ++ x) i (scan_state [] 0 false false) = (scan_state sd dp dot true, i + len ip + len f, x) /\
  (if dot then dp else len sd) = len sd - len fp.
Proof.
  assert (Esaw : match ip with [] => false | _ => true end = true) by (now destruct ip).
  rewrite mantissa_digits by (auto using digits_nil || easy). rewrite Esaw. cbn [orb app].
  change (len []) with 0. unfold sd. destruct Hf as [|ds Hds].
  - rewrite (mantissa_stop x e), app_nil_r by exact Hx. do 2 eexists. split; [f_equal; f_equal; change (len []) with 0; lia|].
    cbv iota. change (len []) with 0. lia.
  - cbn [app]. unfold scan_state at 1. cbn [mantissa_loop]. change (46 =? 95) with false. change (46 =? 46) with true. cbv iota.
    fold (scan_state (strip ip) (len (strip ip)) true true).
    rewrite mantissa_digits; [|now apply digits_strip|exact Hds|intros _; apply strip_again].
    rewrite (mantissa_stop x e), strip_app_strip by exact Hx. cbn [orb]. do 2 eexists.
    split; [f_equal; f_equal; rewrite len_cons; lia|]. cbv iota. lia.
Qed.

Lemma exp_loop_digits ds : forall n us i, digits ds -> 0 <= n -> n * 10 ^ len ds + num ds < 100000 ->
  exp_loop ds n us i = (n * 10 ^ len ds + num ds, us, i + len ds, []).
Proof.
  induction ds as [|c ds IH]; intros n us i Hd Hn Hb.
  - cbn. do 2 f_equal; [f_equal|]; lia.
  - inversion Hd as [|? ? Hc Hd']; subst. pose proof (is_digit_range c Hc) as Rc. cbn [exp_loop num] in *.
    replace (c =? 95) with false by lia. rewrite Hc, len_cons, pow10_succ in * by apply len_nonneg.
    pose proof (num_bound ds Hd') as B. pose proof (pow10_pos (len ds) (len_nonneg ds)) as P.
    replace (n <? 10000) with true by nia. rewrite IH by (assumption || nia).
    do 2 f_equal; [f_equal; ring|lia].
Qed.

Lemma read_exp_text c s us i : x = c :: s -> lower c = 101 /\ read_exp s us (i + 1) = Some (e, us, i + len x, []).
Proof.
  destruct Hx as [|c' sg ds sn Hc Hs Hds Hd Hl]; [discriminate|]. intros E. apply (f_equal (hd 0)) in E as E1. cbn in E1. subst c'.
  apply (f_equal (@tl Z)) in E. cbn in E. subst s. split; [now destruct Hc as [->| ->]|].
  destruct ds as [|y ds]; [easy|]. inversion Hd as [|? ? Hy Hd']; subst.
  pose proof (is_digit_range y Hy) as Ry. pose proof (num_bound _ Hd) as B.
  pose proof (Z.pow_le_mono_r 10 (len (y :: ds)) 5 ltac:(lia) Hl) as P. change (10 ^ 5) with 100000 in P.
  assert (L : forall j, exp_loop (y :: ds) 0 us j = (num (y :: ds), us, j + len (y :: ds), [])).
  { intros j. rewrite exp_loop_digits by (assumption || lia). do 2 f_equal. }
  rewrite (len_cons c), len_app.
  destruct Hs as [[-> ->]|[[-> ->]|[-> ->]]]; cbn [app read_exp]; change (len []) with 0; change (len [43]) with 1; change (len [45]) with 1.
  - replace (y =? 43) with false by lia. replace (y =? 45) with false by lia. rewrite Hy, L. do 3 f_equal. lia.
  - change (43 =? 43) with true. cbv iota. rewrite Hy, L. do 3 f_equal. lia.
  - change (45 =? 43) with false. change (45 =? 45) with true. cbv iota. rewrite Hy, L. do 3 f_equal. lia.
Qed.

(** The text, with its sign. *)
Let text (neg : bool) : list Z := (if neg then [45] else []) ++ ip ++ f ++ x.

Lemma first_digit : exists y ip', ip = y :: ip' /\ is_digit y = true /\ 48 <= y <= 57.
Proof.
  destruct ip as [|y ip']; [easy|]. inversion Hip as [|? ? Hy _]; subst. exists y, ip'. auto using is_digit_range.
Qed.

Lemma read_sign_text neg : read_sign (text neg) = (neg, ip ++ f ++ x, Z.b2z neg).
Proof.
  unfold text. destruct neg; [reflexivity|]. destruct first_digit as (y & ip' & -> & _ & Hy). cbn [app read_sign].
  replace (y =? 43) with false by lia. replace (y =? 45) with false by lia. reflexivity.
Qed.

Lemma prefix_digit y s c p : is_digit y = true -> is_digit c = false -> (c < 65 \/ 90 < c) ->
  commonPrefixLenIgnoreCase (y :: s) (c :: p) = 0.
Proof.
  intros Hy Hc Hr. apply is_digit_range in Hy. cbn [commonPrefixLenIgnoreCase]. unfold ascii_lower.
  replace ((65 <=? y) && (y <=? 90)) with false by lia. unfold is_digit in Hc. now replace (y =? c) with false by lia.
Qed.

Lemma special_text neg : special (text neg) = None.
Proof.
  unfold text. destruct first_digit as (y & ip' & -> & Hy & Ry).
  assert (Hi : forall sg k, special_inf sg k (y :: ip' ++ f ++ x) = None).
  { intros sg k. unfold special_inf. change (bytes "infinity"%string) with (105 :: tl (bytes "infinity"%string)).
    now rewrite prefix_digit by (assumption || reflexivity || lia). }
  destruct neg; cbn [app special]; [apply Hi|].
  replace (y =? 43) with false by lia. replace (y =? 45) with false by lia. cbn [orb].
  replace (y =? 105) with false by lia. replace (y =? 73) with false by lia. cbn [orb].
  replace (y =? 110) with false by lia. now replace (y =? 78) with false by lia.
Qed.

Lemma not_hex : match ip ++ f ++ x with c0 :: c1 :: _ :: _ => (c0 =? 48) && (lower c1 =? 120) | _ => false end = false.
Proof.
  assert (H : Forall text_char (ip ++ f ++ x)).
  { apply Forall_app. split; [now apply digits_text|]. apply Forall_app. split; [now apply (frac_text_chars f fp)|now apply (exp_text_chars x e)]. }
  destruct (ip ++ f ++ x) as [|c0 [|c1 [|c2 r]]]; try reflexivity. inversion H as [|? ? _ H1]; subst. inversion H1 as [|? ? H2 _]; subst.
  apply lower_digit in H2. apply andb_false_iff. right. lia.
Qed.

Hypothesis Hsig : forallb (fun c => c =? 48) (skipn 19 sd) = true.

Let m := num (firstn 19 sd).
Let ex := len sd - len fp + e - Z.min (len sd) 19.

Lemma sd_digits : digits sd.
Proof. apply digits_strip, digits_app. split; [exact Hip|now apply (frac_digits f)]. Qed.

Lemma readFloat_text neg :
  readFloat (text neg) = Some (mkFloatText m (if m =? 0 then 0 else ex) neg false false, len (text neg)).
Proof.
  unfold readFloat. rewrite read_sign_text, not_hex. cbv iota beta.
  change (mkScanned 0 0 0 0 false false false false) with (scan_state [] 0 false false).
  destruct (scan_number (Z.b2z neg)) as (dp & dot & -> & Edp). cbn [scan_state sc_saw sc_mantissa sc_nd sc_dp sc_dot sc_ndMant sc_trunc sc_us negb].
  rewrite Edp, Hsig. fold m. cbn [negb].
  assert (El : len (text neg) = Z.b2z neg + len ip + len f + len x).
  { unfold text. rewrite !len_app. destruct neg; cbn [Z.b2z]; [change (len [45]) with 1|change (len []) with 0]; lia. }
  pose proof read_exp_text as Hr. destruct x as [|c s] eqn:Ex.
  - inversion Hx; subst e. cbv iota. cbn [andb]. rewrite El. change (len []) with 0. unfold ex.
    do 2 f_equal; [|lia]. f_equal. replace (len sd - len fp + 0) with (len sd - len fp) by lia. reflexivity.
  - destruct (Hr c s false (Z.b2z neg + len ip + len f) eq_refl) as [-> ->]. change (101 =? 101) with true. cbv iota.
    cbn [andb]. now rewrite El.
Qed.

Hypothesis Hlen : len (ip ++ fp) <= 700.

Lemma scan_set : exists dp dot,
  set_loop (ip ++ f ++ x) (mkSet [] 0 false false false) = Some (mkSet (rev sd) dp false dot true, x) /\
  (if dot then dp else len sd) = len sd - len fp.
Proof.
  assert (Esaw : match ip with [] => false | _ => true end = true) by (now destruct ip).
  rewrite len_app in Hlen. pose proof (len_nonneg fp) as Hl.
  change (mkSet [] 0 false false false) with (mkSet (rev []) 0 false false false).
  rewrite set_digits; [|constructor|exact Hip|easy|change (len []) with 0; lia]. rewrite Esaw. cbn [orb app].
  change (len []) with 0. unfold sd. pose proof (set_stop x e) as Hstop. destruct Hf as [|ds Hds].
  - rewrite Hstop, app_nil_r by exact Hx. do 2 eexists. split; [reflexivity|].
    cbv iota. change (len []) with 0. lia.
  - cbn [app set_loop]. change (46 =? 95) with false. change (46 =? 46) with true. cbv iota. rewrite len_rev.
    pose proof (len_strip ip).
    rewrite set_digits; [|now apply digits_strip|exact Hds|intros _; apply strip_again|lia].
    rewrite Hstop, strip_app_strip by exact Hx. cbn [orb]. do 2 eexists. split; [reflexivity|]. cbv iota. lia.
Qed.

Lemma set_text neg : set (text neg) = Some (mkDecimal sd (len sd - len fp + e) neg false).
Proof.
  unfold set. destruct (text neg) as [|c0 t0] eqn:Et.
  { unfold text in Et. destruct first_digit as (y & ip' & E & _). rewrite E in Et. now destruct neg. }
  rewrite <- Et, read_sign_text. clear c0 t0 Et. destruct scan_set as (dp & dot & -> & Edp). cbn [negb].
  rewrite len_rev, Edp, rev_involutive. pose proof read_exp_text as Hr. destruct x as [|c s] eqn:Ex.
  - inversion Hx; subst e. cbv zeta. do 2 f_equal. lia.
  - destruct (Hr c s false (-1) eq_refl) as [-> E]. cbn in E. change (101 =? 101) with true. cbv iota zeta. now rewrite E.
Qed.

(** The value. *)
Lemma text_value : (IZR (num (ip ++ fp)) * tp (e - len fp) = IZR m * tp ex)%R.
Proof.
  rewrite <- num_strip. fold sd. rewrite <- (firstn_skipn 19 sd) at 1.
  assert (E : skipn 19 sd = repeat 48 (length (skipn 19 sd))).
  { revert Hsig. generalize (skipn 19 sd). induction l as [|c l IH]; [reflexivity|]. cbn [forallb repeat length].
    intros H. apply andb_true_iff in H as [H1 H2]. apply Z.eqb_eq in H1. now rewrite <- IH, H1. }
  rewrite E, num_app, num_zeros, len_repeat, Z.add_0_r, mult_IZR, <- tp_IZR, Rmult_assoc, <- tp_add by lia. fold m.
  do 2 f_equal. unfold ex, len. rewrite length_skipn. lia.
Qed.

End Number.

(** The bits of the result, through the exact path, the Eisel-Lemire path or the slow one. *)
Lemma ParseFloat64_reads b neg v : decimal_text b neg v ->
  exists n, nearest v n /\
    ParseFloat64 b = (with_sign neg (Float64frombits n), if n =? inf_bits then Some ErrRange else None).
Proof.
  destruct 1 as [neg' ip f fp x e Hip Hne Hf Hx Hsig Hlen].
  pose proof (special_text ip f fp x Hip Hne neg') as Esp.
  pose proof (readFloat_text ip f fp x e Hip Hne Hf Hx Hsig neg') as Erd.
  pose proof (set_text ip f fp x e Hip Hne Hf Hx Hsig Hlen neg') as Est.
  pose proof (text_value ip fp e Hsig) as Ev. pose proof (sd_digits ip f fp Hip Hf) as Hsd. cbv zeta in Esp, Erd, Est, Ev, Hsd.
  set (text := (if neg' then [45] else []) ++ ip ++ f ++ x) in *. set (sd := strip (ip ++ fp)) in *.
  set (m := num (firstn 19 sd)) in *. set (ex := len sd - len fp + e - Z.min (len sd) 19) in *.
  assert (Hl : len sd <= 700) by exact (Z.le_trans _ _ _ (len_strip _) Hlen).
  pose proof (num_19 sd Hsd) as Hm. fold m in Hm. rewrite Ev.
  unfold ParseFloat64, atof64. rewrite Esp, Erd. cbn [ft_hex].
  destruct (atof64_fast _) as [w|] eqn:Efast.
  - assert (R : reads (IZR m * tp ex) neg' w).
    { unfold atof64_fast in Efast. cbn [ft_trunc ft_mantissa ft_exp ft_neg negb] in Efast.
      assert (Em : (IZR m * tp (if m =? 0 then 0 else ex) = IZR m * tp ex)%R) by (destruct (Z.eqb_spec m 0) as [->|]; [now rewrite !Rmult_0_l|reflexivity]).
      rewrite <- Em. destruct (atof64exact _ _ _) as [w'|] eqn:E1.
      - injection Efast as ->. apply atof64exact_nearest; [lia|exact E1].
      - destruct (eiselLemire64 _ _ _) as [w'|] eqn:E2; [|discriminate]. injection Efast as ->.
        apply eiselLemire64_nearest; [lia|exact E2]. }
    destruct R as (n & Hn & Hx' & ->). exists n. split; [exact Hx'|]. rewrite Z.eqb_refl. cbn [negb andb].
    now replace (n =? inf_bits) with false by lia.
  - assert (Hm0 : m <> 0).
    { intros E. rewrite E in Efast. discriminate Efast. }
    rewrite firstn_all2 by (unfold len; lia). rewrite Est.
    assert (Hh : holds (mkDecimal sd (len sd - len fp + e) neg' false) (IZR m * tp ex)).
    { split.
      - split; [exact Hsd|]. split.
        + exact (Z.le_trans _ 700 800 Hl ltac:(discriminate)).
        + cbn [d]. pose proof (strip_head (ip ++ fp)) as Hd. fold sd in Hd. destruct sd; [now apply Hm0|exact Hd].
      - unfold dec_value. cbn [d dp]. rewrite <- Ev, <- (num_strip (ip ++ fp)). fold sd. do 2 f_equal. ring. }
    pose proof (floatBits_nearest _ _ m ex Hh eq_refl ltac:(lia) Hl eq_refl) as (n & Hn & E1 & E2).
    destruct (floatBits _ _) as [bits ovf]. cbn [fst snd Decimal.neg] in E1, E2. exists n. split; [exact Hn|].
    rewrite Z.eqb_refl. cbn [negb andb]. rewrite E1, E2. f_equal. exact (proj1 (frombits_spec n neg' (proj1 Hn))).
Qed.

(** * The result is a float64 *)

Lemma frombits_valid b : valid (Float64frombits b) = true.
Proof.
  unfold Float64frombits. change expmask with (2 ^ 11 - 1). rewrite !land_mask by lia.
  pose proof (Z.mod_pos_bound (Z.shiftr b 52) (2 ^ 11) ltac:(lia)) as He.
  pose proof (Z.mod_pos_bound b (2 ^ 52) ltac:(lia)) as Hm.
  set (e := Z.shiftr b 52 mod 2 ^ 11) in *. set (m := b mod 2 ^ 52) in *. clearbody e m.
  destruct (Z.eqb_spec e 0) as [E0|E0].
  - destruct m as [|p|p]; try reflexivity. apply canon_valid; [|lia]. unfold canon. lia.
  - destruct (Z.eqb_spec e (2 ^ 11 - 1)); [now destruct (m =? 0)|].
    destruct (m + 2 ^ 52) as [|p|p] eqn:Em; try reflexivity. apply canon_valid; [|lia]. unfold canon. lia.
Qed.

Lemma with_sign_valid neg v : valid v = true -> valid (with_sign neg v) = true.
Proof. now destruct neg, v. Qed.

Lemma reads_valid x neg v : reads x neg v -> valid v = true.
Proof. intros (n & _ & _ & ->). apply with_sign_valid, frombits_valid. Qed.

Lemma u64_nonneg z : 0 <= u64 z.
Proof. rewrite u64_mod. now apply Z.mod_pos_bound. Qed.

Lemma mantissa_nonneg hex s : forall i st, 0 <= sc_mantissa st -> 0 <= sc_mantissa (fst (fst (mantissa_loop hex s i st))).
Proof.
  induction s as [|c s IH]; intros i [m nd ndm dp tr dot saw us] H; cbn [mantissa_loop]; [exact H|]. cbn [sc_mantissa] in H.
  repeat case_if; cbn [fst sc_mantissa]; try exact H; apply IH; cbn [sc_mantissa]; try exact H; apply u64_nonneg.
Qed.

Lemma readFloat_nonneg s t n : readFloat s = Some (t, n) -> 0 <= ft_mantissa t.
Proof.
  unfold readFloat. destruct (read_sign s) as [[neg s1] i1].
  set (hex := match s1 with _ :: _ => _ | _ => _ end). clearbody hex.
  destruct (if hex then (skipn 2 s1, i1 + 2) else (s1, i1)) as [s2 i2].
  pose proof (mantissa_nonneg hex s2 i2 (mkScanned 0 0 0 0 false false false false) ltac:(cbn; lia)) as Hm.
  destruct (mantissa_loop hex s2 i2 _) as [[st i] s3]. cbn [fst] in Hm. case_if; [discriminate|].
  destruct (if hex then _ else _) as [dp ndm].
  assert (Fin : forall dp' us i', (if us && negb (underscoreOK (firstn (Z.to_nat i') s)) then None
            else Some (mkFloatText (sc_mantissa st) (if sc_mantissa st =? 0 then 0 else dp' - ndm) neg (sc_trunc st) hex, i')) = Some (t, n) -> 0 <= ft_mantissa t).
  { intros dp' us i'. case_if; [discriminate|]. intros [= <- _]. exact Hm. }
  destruct s3 as [|c s4].
  - destruct hex; [discriminate|]. apply Fin.
  - destruct (lower c =? (if hex then 112 else 101)).
    + destruct (read_exp s4 _ _) as [[[[e us] j] r]|]; [apply Fin|discriminate].
    + destruct hex; [discriminate|]. apply Fin.
Qed.

Lemma eisel_valid m e neg f : eiselLemire64 m e neg = Some f -> valid f = true.
Proof.
  unfold eiselLemire64. destruct (m =? 0).
  { intros H. apply Some_inv in H. rewrite <- H. destruct neg; [apply frombits_valid|reflexivity]. }
  destruct (_ || _); [discriminate|]. cbv zeta. destruct (eisel_product _ _) as [[hi lo]|]; [|discriminate].
  destruct (_ && _ && _); [discriminate|]. destruct (if 0 <? _ then _ else _) as [rm re].
  destruct (_ <=? _); [discriminate|]. intros H. apply Some_inv in H. rewrite <- H. apply frombits_valid.
Qed.

Lemma atof64_fast_valid t f : 0 <= ft_mantissa t -> atof64_fast t = Some f -> valid f = true.
Proof.
  intros Hm. unfold atof64_fast.
  destruct (if ft_trunc t then None else _) as [g|] eqn:E1.
  - intros [= <-]. destruct (ft_trunc t); [discriminate|]. eapply reads_valid, atof64exact_nearest; eassumption.
  - destruct (eiselLemire64 (ft_mantissa t) (ft_exp t) (ft_neg t)) as [g|] eqn:E2; [|discriminate].
    pose proof (eisel_valid _ _ _ _ E2) as Hg.
    case_if; [now intros [= <-]|]. destruct (eiselLemire64 (u64 _) _ _); [|discriminate]. case_if; [now intros [= <-]|discriminate].
Qed.

Lemma special_inf_valid sg k s f n : special_inf sg k s = Some (f, n) -> valid f = true.
Proof. unfold special_inf. destruct (_ || _); [|discriminate]. intros H. apply Some_inv, (f_equal fst) in H. cbn [fst] in H. now rewrite <- H. Qed.

Lemma special_valid b f n : special b = Some (f, n) -> valid f = true.
Proof.
  unfold special. destruct b as [|c b]; [discriminate|]. destruct (_ || _); [apply special_inf_valid|].
  destruct (_ || _); [apply special_inf_valid|]. destruct (_ || _); [|discriminate]. destruct (_ =? 3); [|discriminate].
  intros H. apply Some_inv, (f_equal fst) in H. cbn [fst] in H. now rewrite <- H.
Qed.

Lemma atofHex_valid flt m e neg trunc : valid (fst (atofHex flt m e neg trunc)) = true.
Proof.
  unfold atofHex. cbv zeta. destruct (hex_up _ _ _ _) as [m1 e1]. destruct (hex_down _ _ _ _) as [m2 e2].
  destruct (hex_denorm _ _ _ _) as [m3 e3]. destruct (if _ =? 3 then _ else _) as [m4 e4].
  destruct (if _ <? _ then _ else _) as [[m5 e5] er]. apply frombits_valid.
Qed.

(** Whatever the text, ParseFloat returns a binary64. *)
Lemma ParseFloat64_valid b : valid (fst (ParseFloat64 b)) = true.
Proof.
  assert (H : valid (fst (fst (atof64 b))) = true).
  { unfold atof64. destruct (special b) as [[f n]|] eqn:Es; [exact (special_valid _ _ _ Es)|].
    destruct (readFloat b) as [[t n]|] eqn:Er; [|reflexivity]. destruct (ft_hex t).
    - pose proof (atofHex_valid float64info (ft_mantissa t) (ft_exp t) (ft_neg t) (ft_trunc t)) as H.
      destruct (atofHex _ _ _ _ _) as [f err]. exact H.
    - destruct (atof64_fast t) as [g|] eqn:Ef; [exact (atof64_fast_valid t g (readFloat_nonneg _ _ _ Er) Ef)|].
      destruct (set _) as [a|]; [|reflexivity]. destruct (floatBits a float64info) as [bits ovf]. apply frombits_valid. }
  unfold ParseFloat64. destruct (atof64 b) as [[f n] err]. now destruct (_ && _).
Qed.

(** C8: ParseFloat of a decimal text with at most 19 significant digits is the binary64
    nearest to its value, the even one of two: no other is closer, whichever of the exact,
    the Eisel-Lemire and the multiprecision path answers.  Where the value is beyond the
    largest float the result is an infinity with a range error. *)
Theorem ParseFloat64_nearest b neg v : decimal_text b neg v ->
  exists n, nearest v n /\
    ParseFloat64 b = (with_sign neg (Float64frombits n), if n =? inf_bits then Some ErrRange else None) /\
    (n < inf_bits -> forall k, 0 <= k -> (Rabs (v - value n) <= Rabs (v - value k))%R).
Proof.
  intros H. destruct (ParseFloat64_reads b neg v H) as (n & Hn & E). exists n. split; [exact Hn|]. split; [exact E|].
  intros Hlt k Hk. now apply nearest_closest.
Qed.

(** 9007199254740993, halfway between two floats, goes to the even one. *)
Lemma ParseFloat64_nearest_witness :
  decimal_text (bytes "9007199254740993"%string) false (IZR 9007199254740993 * tp 0) /\
  exists n, nearest (IZR 9007199254740993 * tp 0) n /\
    ParseFloat64 (bytes "9007199254740993"%string) = (with_sign false (Float64frombits n), if n =? inf_bits then Some ErrRange else None) /\
    (n < inf_bits -> forall k, 0 <= k -> (Rabs (IZR 9007199254740993 * tp 0 - value n) <= Rabs (IZR 9007199254740993 * tp 0 - value k))%R).
Proof.
  assert (H : decimal_text (bytes "9007199254740993"%string) false (IZR 9007199254740993 * tp 0)).
  { apply (decimal_text_intro false (bytes "9007199254740993"%string) [] [] [] 0);
      [repeat constructor|discriminate|constructor|constructor|reflexivity|discriminate]. }
  split; [exact H|]. exact (ParseFloat64_nearest _ _ _ H).
Defined.
