(* ===== verification/Scanner.v ===== *)
(** encoding/json, scanner.go: the state machine every JSON function of the tool
    chain runs its input through, one byte at a time.

    One definition per state function of the source, under its name; [step] is the
    call [s.step(s, c)].  The stack of parse states has its top first. *)
From Stdlib Require Import ZArith Lia String Ascii Bool List.
From S2P Require Import Prelude Strconv Utf8.
Import ListNotations.
Local Open Scope Z_scope.

(** * Characters *)

(** The byte of a character, for patterns of the source written as literals. *)
Definition ch (a : ascii) : Z := Z.of_N (N_of_ascii a).

Definition lowerhex (d : Z) : Z := if d <? 10 then 48 + d else 87 + d.

(** [strconv.IsPrint] for a rune of Latin-1. *)
Definition IsPrint_Latin1 (r : Z) : bool :=
  if (0x20 <=? r) && (r <=? 0x7E) then true
  else if (0xA1 <=? r) && (r <=? 0xFF) then negb (r =? 0xAD)
  else false.

(** [appendEscapedRune] of strconv for a rune of Latin-1 and the double quote. *)
Definition appendEscapedRune (r : Z) : list Z :=
  if (r =? 34) || (r =? 92) then [92; r]
  else if IsPrint_Latin1 r then AppendRune [] r
  else if r =? 7 then [92; 97]
  else if r =? 8 then [92; 98]
  else if r =? 12 then [92; 102]
  else if r =? 10 then [92; 110]
  else if r =? 13 then [92; 114]
  else if r =? 9 then [92; 116]
  else if r =? 11 then [92; 118]
  else if (r <? 32) || (r =? 0x7F) then
    [92; 120; lowerhex (Z.shiftr r 4); lowerhex (Z.land r 0xF)]
  else
    [92; 117; lowerhex (Z.land (Z.shiftr r 12) 0xF); lowerhex (Z.land (Z.shiftr r 8) 0xF);
     lowerhex (Z.land (Z.shiftr r 4) 0xF); lowerhex (Z.land r 0xF)].

(** [quoteChar]: the byte in single quotes. *)
Definition quoteChar (c : Z) : string :=
  if c =? 39 then text [39; 92; 39; 39]
  else if c =? 34 then text [39; 34; 39]
  else text (39 :: appendEscapedRune c ++ [39])%list.

(** * The scanner *)

(** What a step reports. *)
Inductive opcode :=
  scanContinue | scanBeginLiteral | scanBeginObject | scanObjectKey | scanObjectValue
| scanEndObject | scanBeginArray | scanArrayValue | scanEndArray | scanSkipSpace
| scanEnd | scanError.

(** The innermost composite value under way. *)
Inductive pstate := parseObjectKey | parseObjectValue | parseArrayValue.

(** The state functions. *)
Inductive stepfn :=
  stateBeginValueOrEmpty | stateBeginValue | stateBeginStringOrEmpty | stateBeginString
| stateEndValue | stateEndTop | stateInString | stateInStringEsc | stateInStringEscU
| stateInStringEscU1 | stateInStringEscU12 | stateInStringEscU123 | stateNeg | state1
| state0 | stateDot | stateDot0 | stateE | stateESign | stateE0 | stateT | stateTr
| stateTru | stateF | stateFa | stateFal | stateFals | stateN | stateNu | stateNul
| stateError.

Record SyntaxError := mkSyntaxError { se_msg : string; se_Offset : Z }.

Record scanner := mkScanner {
  sc_step : stepfn;
  endTop : bool;
  parseState : list pstate;
  err : option SyntaxError;
  sc_bytes : Z
}.

Definition set_step (s : scanner) (f : stepfn) : scanner :=
  mkScanner f (endTop s) (parseState s) (err s) (sc_bytes s).
Definition set_stack (s : scanner) (st : list pstate) : scanner :=
  mkScanner (sc_step s) (endTop s) st (err s) (sc_bytes s).
Definition set_endTop (s : scanner) : scanner :=
  mkScanner (sc_step s) true (parseState s) (err s) (sc_bytes s).
Definition count (s : scanner) : scanner :=
  mkScanner (sc_step s) (endTop s) (parseState s) (err s) (sc_bytes s + 1).

Definition opcode_eqb (a b : opcode) : bool :=
  match a, b with
  | scanContinue, scanContinue | scanBeginLiteral, scanBeginLiteral
  | scanBeginObject, scanBeginObject | scanObjectKey, scanObjectKey
  | scanObjectValue, scanObjectValue | scanEndObject, scanEndObject
  | scanBeginArray, scanBeginArray | scanArrayValue, scanArrayValue
  | scanEndArray, scanEndArray | scanSkipSpace, scanSkipSpace
  | scanEnd, scanEnd | scanError, scanError => true
  | _, _ => false
  end.

Definition maxNestingDepth : Z := 10000.

(** [newScanner]: a scanner that has read nothing. *)
Definition newScanner : scanner := mkScanner stateBeginValue false [] None 0.

(** [reset] keeps the count of bytes. *)
Definition reset (s : scanner) : scanner := mkScanner stateBeginValue false [] None (sc_bytes s).

Definition s_error (s : scanner) (c : Z) (context : string) : scanner * opcode :=
  (mkScanner stateError (endTop s) (parseState s)
     (Some (mkSyntaxError ("invalid character " ++ quoteChar c ++ " " ++ context)%string (sc_bytes s)))
     (sc_bytes s), scanError).

Definition pushParseState (s : scanner) (c : Z) (newParseState : pstate) (successState : opcode)
  : scanner * opcode :=
  let s := set_stack s (newParseState :: parseState s) in
  if Z.of_nat (length (parseState s)) <=? maxNestingDepth then (s, successState)
  else s_error s c "exceeded max depth".

Definition popParseState (s : scanner) : scanner :=
  let s := set_stack s (tl (parseState s)) in
  match parseState s with
  | [] => set_endTop (set_step s stateEndTop)
  | _ => set_step s stateEndValue
  end.

Definition isSpace (c : Z) : bool :=
  (c <=? 32) && ((c =? 32) || (c =? 9) || (c =? 13) || (c =? 10)).

Definition is_hex (c : Z) : bool :=
  (48 <=? c) && (c <=? 57) || (97 <=? c) && (c <=? 102) || (65 <=? c) && (c <=? 70).

(** ** The state functions *)

Definition do_EndTop (s : scanner) (c : Z) : scanner * opcode :=
  if negb (isSpace c) then (fst (s_error s c "after top-level value"), scanEnd) else (s, scanEnd).

Definition do_EndValue (s : scanner) (c : Z) : scanner * opcode :=
  match parseState s with
  | [] => do_EndTop (set_endTop (set_step s stateEndTop)) c
  | ps :: st =>
      if isSpace c then (set_step s stateEndValue, scanSkipSpace)
      else
        match ps with
        | parseObjectKey =>
            if c =? 58 then
              (set_step (set_stack s (parseObjectValue :: st)) stateBeginValue, scanObjectKey)
            else s_error s c "after object key"
        | parseObjectValue =>
            if c =? 44 then
              (set_step (set_stack s (parseObjectKey :: st)) stateBeginString, scanObjectValue)
            else if c =? 125 then (popParseState s, scanEndObject)
            else s_error s c "after object key:value pair"
        | parseArrayValue =>
            if c =? 44 then (set_step s stateBeginValue, scanArrayValue)
            else if c =? 93 then (popParseState s, scanEndArray)
            else s_error s c "after array element"
        end
  end.

Definition do_BeginValue (s : scanner) (c : Z) : scanner * opcode :=
  if isSpace c then (s, scanSkipSpace)
  else if c =? 123 then
    pushParseState (set_step s stateBeginStringOrEmpty) c parseObjectKey scanBeginObject
  else if c =? 91 then
    pushParseState (set_step s stateBeginValueOrEmpty) c parseArrayValue scanBeginArray
  else if c =? 34 then (set_step s stateInString, scanBeginLiteral)
  else if c =? 45 then (set_step s stateNeg, scanBeginLiteral)
  else if c =? 48 then (set_step s state0, scanBeginLiteral)
  else if c =? 116 then (set_step s stateT, scanBeginLiteral)
  else if c =? 102 then (set_step s stateF, scanBeginLiteral)
  else if c =? 110 then (set_step s stateN, scanBeginLiteral)
  else if (49 <=? c) && (c <=? 57) then (set_step s state1, scanBeginLiteral)
  else s_error s c "looking for beginning of value".

Definition do_BeginValueOrEmpty (s : scanner) (c : Z) : scanner * opcode :=
  if isSpace c then (s, scanSkipSpace)
  else if c =? 93 then do_EndValue s c
  else do_BeginValue s c.

Definition do_BeginString (s : scanner) (c : Z) : scanner * opcode :=
  if isSpace c then (s, scanSkipSpace)
  else if c =? 34 then (set_step s stateInString, scanBeginLiteral)
  else s_error s c "looking for beginning of object key string".

Definition do_BeginStringOrEmpty (s : scanner) (c : Z) : scanner * opcode :=
  if isSpace c then (s, scanSkipSpace)
  else if c =? 125 then
    do_EndValue (set_stack s (parseObjectValue :: tl (parseState s))) c
  else do_BeginString s c.

Definition do_InString (s : scanner) (c : Z) : scanner * opcode :=
  if c =? 34 then (set_step s stateEndValue, scanContinue)
  else if c =? 92 then (set_step s stateInStringEsc, scanContinue)
  else if c <? 0x20 then s_error s c "in string literal"
  else (s, scanContinue).

Definition do_InStringEsc (s : scanner) (c : Z) : scanner * opcode :=
  if existsb (Z.eqb c) [98; 102; 110; 114; 116; 92; 47; 34] then
    (set_step s stateInString, scanContinue)
  else if c =? 117 then (set_step s stateInStringEscU, scanContinue)
  else s_error s c "in string escape code".

(** The four states after [\u], by the state that follows. *)
Definition do_hex (next : stepfn) (s : scanner) (c : Z) : scanner * opcode :=
  if is_hex c then (set_step s next, scanContinue)
  else s_error s c "in \u hexadecimal character escape".

Definition do_Neg (s : scanner) (c : Z) : scanner * opcode :=
  if c =? 48 then (set_step s state0, scanContinue)
  else if (49 <=? c) && (c <=? 57) then (set_step s state1, scanContinue)
  else s_error s c "in numeric literal".

Definition do_0 (s : scanner) (c : Z) : scanner * opcode :=
  if c =? 46 then (set_step s stateDot, scanContinue)
  else if (c =? 101) || (c =? 69) then (set_step s stateE, scanContinue)
  else do_EndValue s c.

Definition do_1 (s : scanner) (c : Z) : scanner * opcode :=
  if is_digit c then (set_step s state1, scanContinue) else do_0 s c.

Definition do_Dot (s : scanner) (c : Z) : scanner * opcode :=
  if is_digit c then (set_step s stateDot0, scanContinue)
  else s_error s c "after decimal point in numeric literal".

Definition do_Dot0 (s : scanner) (c : Z) : scanner * opcode :=
  if is_digit c then (s, scanContinue)
  else if (c =? 101) || (c =? 69) then (set_step s stateE, scanContinue)
  else do_EndValue s c.

Definition do_ESign (s : scanner) (c : Z) : scanner * opcode :=
  if is_digit c then (set_step s stateE0, scanContinue)
  else s_error s c "in exponent of numeric literal".

Definition do_E (s : scanner) (c : Z) : scanner * opcode :=
  if (c =? 43) || (c =? 45) then (set_step s stateESign, scanContinue) else do_ESign s c.

Definition do_E0 (s : scanner) (c : Z) : scanner * opcode :=
  if is_digit c then (s, scanContinue) else do_EndValue s c.

(** A state inside [true], [false] or [null]: the letter it takes, the next state, and
    the text of its error. *)
Definition do_letter (letter : Z) (next : stepfn) (context : string) (s : scanner) (c : Z)
  : scanner * opcode :=
  if c =? letter then (set_step s next, scanContinue) else s_error s c context.

(** [s.step(s, c)] *)
Definition step (s : scanner) (c : Z) : scanner * opcode :=
  match sc_step s with
  | stateBeginValueOrEmpty => do_BeginValueOrEmpty s c
  | stateBeginValue => do_BeginValue s c
  | stateBeginStringOrEmpty => do_BeginStringOrEmpty s c
  | stateBeginString => do_BeginString s c
  | stateEndValue => do_EndValue s c
  | stateEndTop => do_EndTop s c
  | stateInString => do_InString s c
  | stateInStringEsc => do_InStringEsc s c
  | stateInStringEscU => do_hex stateInStringEscU1 s c
  | stateInStringEscU1 => do_hex stateInStringEscU12 s c
  | stateInStringEscU12 => do_hex stateInStringEscU123 s c
  | stateInStringEscU123 => do_hex stateInString s c
  | stateNeg => do_Neg s c
  | state1 => do_1 s c
  | state0 => do_0 s c
  | stateDot => do_Dot s c
  | stateDot0 => do_Dot0 s c
  | stateE => do_E s c
  | stateESign => do_ESign s c
  | stateE0 => do_E0 s c
  | stateT => do_letter 114 stateTr "in literal true (expecting 'r')" s c
  | stateTr => do_letter 117 stateTru "in literal true (expecting 'u')" s c
  | stateTru => do_letter 101 stateEndValue "in literal true (expecting 'e')" s c
  | stateF => do_letter 97 stateFa "in literal false (expecting 'a')" s c
  | stateFa => do_letter 108 stateFal "in literal false (expecting 'l')" s c
  | stateFal => do_letter 115 stateFals "in literal false (expecting 's')" s c
  | stateFals => do_letter 101 stateEndValue "in literal false (expecting 'e')" s c
  | stateN => do_letter 117 stateNu "in literal null (expecting 'u')" s c
  | stateNu => do_letter 108 stateNul "in literal null (expecting 'l')" s c
  | stateNul => do_letter 108 stateEndValue "in literal null (expecting 'l')" s c
  | stateError => (s, scanError)
  end.

(** The end of the input. *)
Definition eof (s : scanner) : scanner * opcode :=
  match err s with
  | Some _ => (s, scanError)
  | None =>
      if endTop s then (s, scanEnd)
      else
        let s := fst (step s 32) in
        if endTop s then (s, scanEnd)
        else
          match err s with
          | Some _ => (s, scanError)
          | None =>
              (mkScanner (sc_step s) (endTop s) (parseState s)
                 (Some (mkSyntaxError "unexpected end of JSON input" (sc_bytes s))) (sc_bytes s),
               scanError)
          end
  end.

(** The loop of [checkValid]. *)
Fixpoint check_loop (s : scanner) (data : list Z) : option SyntaxError :=
  match data with
  | [] => let '(s, op) := eof s in if opcode_eqb op scanError then err s else None
  | c :: data' =>
      let '(s, op) := step (count s) c in
      if opcode_eqb op scanError then err s else check_loop s data'
  end.

Definition checkValid (data : list Z) (scan : scanner) : option SyntaxError :=
  check_loop (reset scan) data.

Definition Valid (data : list Z) : bool :=
  match checkValid data newScanner with None => true | Some _ => false end.
