(* ===== verification/JsonGrammar.v ===== *)
(** The grammar of JSON (RFC 8259) as inductive predicates on bytes, with the trees it
    spells: the reference the scanner, the decoder and the encoder are measured against. *)
From Stdlib Require Import ZArith Lia Bool List.
From S2P Require Import Prelude Strconv Scanner.
Import ListNotations.
Local Open Scope Z_scope.

(** * The grammar *)

Definition ws (b : list Z) : Prop := Forall (fun c => isSpace c = true) b.

(** The characters of a string, between its quotes. *)
Inductive strchars : list Z -> Prop :=
| chars_nil : strchars []
| chars_plain c b : 32 <= c -> c <> 34 -> c <> 92 -> strchars b -> strchars (c :: b)
| chars_esc c b :
    In c [98; 102; 110; 114; 116; 92; 47; 34] -> strchars b -> strchars (92 :: c :: b)
| chars_u a1 a2 a3 a4 b :
    is_hex a1 = true -> is_hex a2 = true -> is_hex a3 = true -> is_hex a4 = true ->
    strchars b -> strchars (92 :: 117 :: a1 :: a2 :: a3 :: a4 :: b).

Definition quoted (b : list Z) : list Z := 34 :: b ++ [34].

Inductive string_lit : list Z -> Prop :=
| string_lit_intro b : strchars b -> string_lit (quoted b).

Inductive int_part : list Z -> Prop :=
| int_zero : int_part [48]
| int_pos d ds : 49 <= d <= 57 -> digits ds -> int_part (d :: ds).

Inductive frac_part : list Z -> Prop :=
| frac_none : frac_part []
| frac_some d ds : is_digit d = true -> digits ds -> frac_part (46 :: d :: ds).

Inductive exp_part : list Z -> Prop :=
| exp_none : exp_part []
| exp_some e sg d ds :
    e = 101 \/ e = 69 -> sg = [] \/ sg = [43] \/ sg = [45] -> is_digit d = true -> digits ds ->
    exp_part (e :: sg ++ d :: ds).

Inductive number : list Z -> Prop :=
| number_intro sg i f e :
    sg = [] \/ sg = [45] -> int_part i -> frac_part f -> exp_part e ->
    number (sg ++ i ++ f ++ e).

Definition true_text : list Z := [116; 114; 117; 101].
Definition false_text : list Z := [102; 97; 108; 115; 101].
Definition null_text : list Z := [110; 117; 108; 108].

Inductive literal : list Z -> Prop :=
| literal_string b : string_lit b -> literal b
| literal_number b : number b -> literal b
| literal_true : literal true_text
| literal_false : literal false_text
| literal_null : literal null_text.

(** A value: a literal as it is written, an array, or an object, whose keys are string
    literals as they are written. *)
Inductive tree :=
| TLit (b : list Z)
| TArr (l : list tree)
| TObj (l : list (list Z * tree)).

Section TreeInd.
Context (P : tree -> Prop) (Hlit : forall b, P (TLit b)) (Harr : forall l, Forall P l -> P (TArr l))
  (Hobj : forall l, Forall (fun kt => P (snd kt)) l -> P (TObj l)).

Fixpoint tree_ind' (t : tree) : P t :=
  match t with
  | TLit b => Hlit b
  | TArr l =>
      Harr l ((fix go l : Forall P l :=
                 match l with
                 | [] => Forall_nil _
                 | t :: l => Forall_cons _ (tree_ind' t) (go l)
                 end) l)
  | TObj l =>
      Hobj l ((fix go l : Forall (fun kt => P (snd kt)) l :=
                 match l with
                 | [] => Forall_nil _
                 | kt :: l => Forall_cons _ (tree_ind' (snd kt)) (go l)
                 end) l)
  end.
End TreeInd.

(** [spells t b]: the bytes [b] are a text of [t]. *)
Inductive spells : tree -> list Z -> Prop :=
| spells_lit b : literal b -> spells (TLit b) b
| spells_arr_empty w : ws w -> spells (TArr []) (91 :: w ++ [93])
| spells_arr l b : elems l b -> spells (TArr l) (91 :: b ++ [93])
| spells_obj_empty w : ws w -> spells (TObj []) (123 :: w ++ [125])
| spells_obj l b : members l b -> spells (TObj l) (123 :: b ++ [125])
with elems : list tree -> list Z -> Prop :=
| elems_one t w1 b w2 : ws w1 -> spells t b -> ws w2 -> elems [t] (w1 ++ b ++ w2)
| elems_cons t w1 b w2 l b' :
    ws w1 -> spells t b -> ws w2 -> elems l b' -> elems (t :: l) (w1 ++ b ++ w2 ++ 44 :: b')
with members : list (list Z * tree) -> list Z -> Prop :=
| members_one k t w1 w2 w3 b w4 :
    ws w1 -> string_lit k -> ws w2 -> ws w3 -> spells t b -> ws w4 ->
    members [(k, t)] (w1 ++ k ++ w2 ++ 58 :: w3 ++ b ++ w4)
| members_cons k t w1 w2 w3 b w4 l b' :
    ws w1 -> string_lit k -> ws w2 -> ws w3 -> spells t b -> ws w4 -> members l b' ->
    members ((k, t) :: l) (w1 ++ k ++ w2 ++ 58 :: w3 ++ b ++ w4 ++ 44 :: b').

Scheme spells_mut := Minimality for spells Sort Prop
with elems_mut := Minimality for elems Sort Prop
with members_mut := Minimality for members Sort Prop.
Combined Scheme spells_elems_members from spells_mut, elems_mut, members_mut.

(** A JSON text: a value between white space. *)
Inductive json_text (t : tree) : list Z -> Prop :=
| json_text_intro w1 b w2 : ws w1 -> spells t b -> ws w2 -> json_text t (w1 ++ b ++ w2).

(** The number of brackets and braces around the innermost literal. *)
Fixpoint depth (t : tree) : nat :=
  match t with
  | TLit _ => 0
  | TArr l => S (fold_right (fun t n => Nat.max (depth t) n) 0%nat l)
  | TObj l => S (fold_right (fun kt n => Nat.max (depth (snd kt)) n) 0%nat l)
  end.

Definition depth_elems (l : list tree) : nat := fold_right (fun t n => Nat.max (depth t) n) 0%nat l.
Definition depth_members (l : list (list Z * tree)) : nat :=
  fold_right (fun kt n => Nat.max (depth (snd kt)) n) 0%nat l.

(** * First bytes *)

(** What may follow a value inside a text. *)
Definition delimiter (c : Z) : Prop := isSpace c = true \/ In c [44; 58; 93; 125].

(** The bytes a value starts with. *)
Definition value_start (c : Z) : Prop :=
  In c [34; 45; 91; 123; 116; 102; 110] \/ 48 <= c <= 57.

Lemma is_digit_iff c : is_digit c = true <-> 48 <= c <= 57.
Proof. unfold is_digit. lia. Qed.

Lemma isSpace_iff c : isSpace c = true <-> c = 32 \/ c = 9 \/ c = 13 \/ c = 10.
Proof. unfold isSpace. lia. Qed.

Lemma string_lit_start k : string_lit k -> exists b, k = 34 :: b.
Proof. intros [b _]. now exists (b ++ [34]). Qed.

Lemma number_start v : number v -> exists c b, v = c :: b /\ (c = 45 \/ 48 <= c <= 57).
Proof.
  intros [sg i f e [->| ->] Hi _ _]; cbn; [|now eauto].
  destruct Hi as [|d ds Hd _]; cbn; eexists _, _; (split; [reflexivity|lia]).
Qed.

Lemma literal_start v : literal v -> exists c b, v = c :: b /\ value_start c.
Proof.
  unfold value_start. intros [b H|b H| | |].
  - destruct (string_lit_start _ H) as [b' ->]. eexists _, _. cbn; auto.
  - destruct (number_start _ H) as (c & b' & -> & Hc). eexists _, _. split; [reflexivity|]. cbn. lia.
  - eexists _, _. split; [reflexivity|]. cbn; tauto.
  - eexists _, _. split; [reflexivity|]. cbn; tauto.
  - eexists _, _. split; [reflexivity|]. cbn; tauto.
Qed.

Lemma spells_start t v : spells t v -> exists c b, v = c :: b /\ value_start c.
Proof.
  intros [b H|w _|l b _|w _|l b _]; [now apply literal_start|..];
    eexists _, _; (split; [reflexivity|]); unfold value_start; cbn; tauto.
Qed.

Lemma value_start_plain c : value_start c -> isSpace c = false /\ c <> 93 /\ c <> 125.
Proof. unfold value_start, isSpace. cbn. lia. Qed.
