(* ===== verification/ScannerSpec.v ===== *)
(** The scanner of encoding/json accepts the grammar of JSON, to a depth of 10000. *)
From Stdlib Require Import ZArith Lia String Ascii Bool List.
From S2P Require Import Prelude Strconv Scanner JsonGrammar.
Import ListNotations.
Local Open Scope Z_scope.

(** * States *)

(** The scanner in the middle of a value, and after the top-level value; [n] is its
    count of bytes, which decides nothing. *)
Definition mk (f : stepfn) (st : list pstate) (n : Z) : scanner := mkScanner f false st None n.
Definition top (n : Z) : scanner := mkScanner stateEndTop true [] None n.

(** After the end of an array or object. *)
Definition closed (st : list pstate) (n : Z) : scanner :=
  match st with [] => top n | _ => mk stateEndValue st n end.

Lemma pop_closed f x st n : popParseState (mk f (x :: st) n) = closed st n.
Proof. now destruct st. Qed.

(** The states of a number that could end here. *)
Definition num_end (f : stepfn) : bool :=
  match f with state0 | state1 | stateDot0 | stateE0 => true | _ => false end.

(** A value has ended, or can end here. *)
Definition ended (st : list pstate) (n : Z) (s : scanner) : Prop :=
  s = closed st n \/ exists f, (f = stateEndValue \/ num_end f = true) /\ s = mk f st n.

Lemma ended_EndValue st n : ended st n (mk stateEndValue st n).
Proof. right. exists stateEndValue. auto. Qed.
Lemma ended_closed st n : ended st n (closed st n).
Proof. now left. Qed.
Lemma ended_num f st n : num_end f = true -> ended st n (mk f st n).
Proof. right. exists f. auto. Qed.
#[export] Hint Resolve ended_EndValue ended_closed ended_num : cam.

Ltac split_tests :=
  repeat match goal with |- context [if ?b then _ else _] =>
    lazymatch b with context [if _ then _ else _] => fail | _ =>
      let E := fresh "E" in destruct b eqn:E; try (exfalso; lia) end end.

(** An ended value goes on as [stateEndValue] does. *)
Lemma ended_step st n s c :
  ended st n s -> delimiter c -> step s c = step (mk stateEndValue st n) c.
Proof.
  intros [->|(f & [->|Hf] & ->)] Hc; [now destruct st|reflexivity|].
  assert (Hd : is_digit c = false /\ (c =? 46) = false /\ (c =? 101) = false /\ (c =? 69) = false).
  { unfold delimiter, isSpace in Hc. unfold is_digit. cbn in Hc. lia. }
  destruct Hd as (E1 & E2 & E3 & E4).
  destruct f; try discriminate Hf; unfold step, mk, do_1, do_0, do_Dot0, do_E0; cbn [sc_step];
    rewrite ?E1, ?E2, ?E3, ?E4; cbn [orb]; reflexivity.
Qed.

(** * Walking along bytes *)

(** Step through [b], without an error and with at least [k] composite values open. *)
Fixpoint walk (k : nat) (s : scanner) (b : list Z) : option scanner :=
  match b with
  | [] => Some s
  | c :: b' =>
      let '(s, op) := step s c in
      if opcode_eqb op scanError || (length (parseState s) <? k)%nat then None
      else walk k s b'
  end.

Lemma walk_app k a : forall s b,
  walk k s (a ++ b) = match walk k s a with Some s' => walk k s' b | None => None end.
Proof.
  induction a as [|c a IH]; intros s b; cbn [app walk]; [reflexivity|].
  destruct (step s c) as [s1 op]. case_if; [reflexivity|apply IH].
Qed.

(** One step that keeps the stack high. *)
Lemma walk_step k s c b s' op :
  step s c = (s', op) -> op <> scanError -> (k <= length (parseState s'))%nat ->
  walk k s (c :: b) = walk k s' b.
Proof.
  intros E Hop Hk. cbn [walk]. rewrite E.
  replace (opcode_eqb op scanError) with false by (destruct op; cbn; congruence).
  replace (length (parseState s') <? k)%nat with false by (symmetry; apply Nat.ltb_ge; lia).
  reflexivity.
Qed.

(** ** White space *)

Lemma ws_cons c w : ws (c :: w) <-> isSpace c = true /\ ws w.
Proof. apply Forall_cons_iff. Qed.

(** The states that skip spaces. *)
Definition skips (f : stepfn) (st : list pstate) : Prop :=
  match f with
  | stateBeginValue | stateBeginValueOrEmpty | stateBeginString | stateBeginStringOrEmpty => True
  | stateEndValue => st <> []
  | _ => False
  end.

Lemma step_space f st n c :
  skips f st -> isSpace c = true -> step (mk f st n) c = (mk f st n, scanSkipSpace).
Proof.
  intros Hs Hc. destruct f; try contradiction; unfold step, mk; cbn [sc_step];
    unfold do_BeginValueOrEmpty, do_BeginValue, do_BeginStringOrEmpty, do_BeginString;
    rewrite ?Hc; try reflexivity.
  destruct st as [|p st]; [contradiction|]. unfold do_EndValue. cbn [parseState].
  now rewrite Hc.
Qed.

Lemma walk_ws k f st n w :
  skips f st -> ws w -> (k <= length st)%nat -> walk k (mk f st n) w = Some (mk f st n).
Proof.
  intros Hs Hw Hk. induction w as [|c w IH]; [reflexivity|].
  apply ws_cons in Hw as [Hc Hw].
  rewrite (walk_step _ _ _ _ _ _ (step_space f st n c Hs Hc)); [now apply IH|discriminate|exact Hk].
Qed.

Lemma walk_ws_end k p st n s w :
  ended (p :: st) n s -> ws w -> (k <= S (length st))%nat ->
  exists s', walk k s w = Some s' /\ ended (p :: st) n s'.
Proof.
  intros He Hw Hk. destruct w as [|c w]; [now exists s|]. exists (mk stateEndValue (p :: st) n).
  apply ws_cons in Hw as [Hc Hw]. split; [|auto with cam].
  rewrite (walk_step k s c w (mk stateEndValue (p :: st) n) scanSkipSpace).
  - now apply walk_ws.
  - rewrite (ended_step _ _ _ _ He) by now left. now apply step_space.
  - discriminate.
  - exact Hk.
Qed.

(** ** Literals *)

(** Step through [b] inside a literal: every byte continues it. *)
Fixpoint cwalk (k : nat) (s : scanner) (b : list Z) : option scanner :=
  match b with
  | [] => Some s
  | c :: b' =>
      let '(s, op) := step s c in
      if negb (opcode_eqb op scanContinue) || (length (parseState s) <? k)%nat then None
      else cwalk k s b'
  end.

Lemma cwalk_app k a : forall s b,
  cwalk k s (a ++ b) = match cwalk k s a with Some s' => cwalk k s' b | None => None end.
Proof.
  induction a as [|c a IH]; intros s b; cbn [app cwalk]; [reflexivity|].
  destruct (step s c) as [s1 op]. case_if; [reflexivity|apply IH].
Qed.

Lemma cwalk_step k s c b s' :
  step s c = (s', scanContinue) -> (k <= length (parseState s'))%nat ->
  cwalk k s (c :: b) = cwalk k s' b.
Proof.
  intros E Hk. cbn [cwalk]. rewrite E. apply Nat.ltb_ge in Hk. now rewrite Hk.
Qed.

Lemma cwalk_walk k b : forall s s', cwalk k s b = Some s' -> walk k s b = Some s'.
Proof.
  induction b as [|c b IH]; intros s s'; cbn [cwalk walk]; [auto|].
  destruct (step s c) as [s1 op]. destruct op; cbn [opcode_eqb negb orb]; try discriminate.
  case_if; [discriminate|apply IH].
Qed.

Section Literals.
Context (k : nat) (st : list pstate) (n : Z) (Hk : (k <= length st)%nat).

Ltac next g := rewrite (cwalk_step k _ _ _ (mk g st n)); [|try reflexivity|exact Hk].

(** From the state [f] a literal opens with its first byte, goes on to its last and
    leaves the scanner in the state [g]. *)
Definition spans (f : stepfn) (v : list Z) (g : stepfn) : Prop :=
  exists c v' f', v = c :: v' /\ step (mk f st n) c = (mk f' st n, scanBeginLiteral) /\
    cwalk k (mk f' st n) v' = Some (mk g st n).

Lemma spans_walk f v g : spans f v g -> walk k (mk f st n) v = Some (mk g st n).
Proof.
  intros (c & v' & f' & -> & E & W).
  rewrite (walk_step _ _ _ _ _ _ E) by first [discriminate|exact Hk]. now apply cwalk_walk.
Qed.

Lemma cwalk_strchars b : strchars b -> cwalk k (mk stateInString st n) b = Some (mk stateInString st n).
Proof.
  assert (Hhex : forall f g a r, is_hex a = true -> step (mk f st n) a = do_hex g (mk f st n) a ->
            cwalk k (mk f st n) (a :: r) = cwalk k (mk g st n) r).
  { intros f g a r Ha E. next g; [reflexivity|]. rewrite E. unfold do_hex. now rewrite Ha. }
  induction 1 as [|c b H1 H2 H3 _ IH|c b Hc _ IH|a1 a2 a3 a4 b H1 H2 H3 H4 _ IH]; [reflexivity|..].
  - next stateInString; [exact IH|]. unfold step, mk, do_InString. cbn [sc_step]. split_tests. reflexivity.
  - next stateInStringEsc. next stateInString; [exact IH|].
    cbn in Hc. decompose [or] Hc; subst; try contradiction; reflexivity.
  - next stateInStringEsc. next stateInStringEscU.
    rewrite (Hhex stateInStringEscU stateInStringEscU1), (Hhex stateInStringEscU1 stateInStringEscU12),
      (Hhex stateInStringEscU12 stateInStringEscU123), (Hhex stateInStringEscU123 stateInString);
      auto.
Qed.

(** A string, from where a value or where a key may begin. *)
Lemma spans_string f v :
  f = stateBeginValue \/ f = stateBeginString -> string_lit v -> spans f v stateEndValue.
Proof.
  intros Hf [b Hb]. exists 34, (b ++ [34]), stateInString. split; [reflexivity|].
  split; [now destruct Hf as [->| ->]|]. rewrite cwalk_app, cwalk_strchars by assumption.
  now next stateEndValue.
Qed.

Lemma walk_string f v :
  f = stateBeginValue \/ f = stateBeginString -> string_lit v ->
  walk k (mk f st n) v = Some (mk stateEndValue st n).
Proof. intros Hf Hv. now apply spans_walk, spans_string. Qed.

Lemma cwalk_digits f ds :
  num_end f = true -> f <> state0 -> digits ds -> cwalk k (mk f st n) ds = Some (mk f st n).
Proof.
  intros Hf H0 H. induction H as [|d ds Hd _ IH]; [reflexivity|]. next f; [exact IH|].
  destruct f; try discriminate Hf; try congruence;
    unfold step, mk, do_1, do_Dot0, do_E0; cbn [sc_step]; now rewrite Hd.
Qed.

(** The first digit of the integer part opens the number unless the sign did. *)
Lemma cwalk_int f v :
  f = stateBeginValue \/ f = stateNeg -> int_part v ->
  exists d ds g, v = d :: ds /\
    step (mk f st n) d = (mk g st n, match f with stateNeg => scanContinue | _ => scanBeginLiteral end) /\
    cwalk k (mk g st n) ds = Some (mk g st n) /\ (g = state0 \/ g = state1).
Proof.
  intros Hf [|d ds Hd Hds].
  - exists 48, [], state0. repeat split; auto. now destruct Hf as [->| ->].
  - exists d, ds, state1. repeat split; auto; [|now apply cwalk_digits].
    destruct Hf as [->| ->]; unfold step, mk, do_BeginValue, do_Neg, isSpace; cbn [sc_step];
      split_tests; reflexivity.
Qed.

Lemma cwalk_frac f v :
  f = state0 \/ f = state1 -> frac_part v ->
  exists g, cwalk k (mk f st n) v = Some (mk g st n) /\ num_end g = true /\ g <> stateE0.
Proof.
  intros Hf [|d ds Hd Hds]; [exists f; destruct Hf as [->| ->]; repeat split; congruence|].
  exists stateDot0. split; [|now split]. next stateDot; [|now destruct Hf as [->| ->]].
  next stateDot0; [now apply cwalk_digits|]. unfold step, mk, do_Dot. cbn [sc_step]. now rewrite Hd.
Qed.

Lemma cwalk_exp f v :
  num_end f = true -> f <> stateE0 -> exp_part v ->
  exists g, cwalk k (mk f st n) v = Some (mk g st n) /\ num_end g = true.
Proof.
  intros Hf H0 [|e sg d ds He Hsg Hd Hds]; [now exists f|].
  exists stateE0. split; [|reflexivity].
  next stateE; [|destruct f; try discriminate Hf; try congruence; destruct He as [->| ->]; reflexivity].
  assert (Hlast : forall g, g = stateE \/ g = stateESign ->
            cwalk k (mk g st n) (d :: ds) = Some (mk stateE0 st n)).
  { intros g Hg. next stateE0; [now apply cwalk_digits|].
    apply is_digit_iff in Hd as Hd'.
    destruct Hg as [->| ->]; unfold step, mk, do_E, do_ESign; cbn [sc_step]; rewrite Hd;
      split_tests; reflexivity. }
  destruct Hsg as [->|[->| ->]]; cbn [app]; [now apply Hlast; left| |];
    (next stateESign; now apply Hlast; right).
Qed.

Lemma spans_number v :
  number v -> exists g, spans stateBeginValue v g /\ num_end g = true.
Proof.
  intros [sg i f e Hsg Hi Hf He].
  assert (Hrest : forall f0, f0 = stateBeginValue \/ f0 = stateNeg ->
    exists d ds s g, i ++ f ++ e = d :: ds /\
      step (mk f0 st n) d = (mk s st n, match f0 with stateNeg => scanContinue | _ => scanBeginLiteral end) /\
      cwalk k (mk s st n) ds = Some (mk g st n) /\ num_end g = true).
  { intros f0 Hf0. destruct (cwalk_int f0 i Hf0 Hi) as (d & ds & g1 & -> & E1 & W1 & H1).
    destruct (cwalk_frac g1 f H1 Hf) as (g2 & W2 & H2 & H2').
    destruct (cwalk_exp g2 e H2 H2' He) as (g3 & W3 & H3). exists d, (ds ++ f ++ e), g1, g3.
    repeat split; [exact E1| |exact H3]. rewrite cwalk_app, W1, cwalk_app, W2. exact W3. }
  destruct Hsg as [->| ->]; cbn [app].
  - destruct (Hrest stateBeginValue) as (d & ds & s & g & -> & E & W & Hg); [now left|].
    exists g. split; [|exact Hg]. now exists d, ds, s.
  - destruct (Hrest stateNeg) as (d & ds & s & g & -> & E & W & Hg); [now right|].
    exists g. split; [|exact Hg]. exists 45, (d :: ds), stateNeg. repeat split. now next s.
Qed.

(** A literal leaves the scanner inside or at the end of it. *)
Lemma spans_literal v :
  literal v -> exists g, spans stateBeginValue v g /\ (g = stateEndValue \/ num_end g = true).
Proof.
  intros [b H|b H| | |].
  - exists stateEndValue. split; [|auto]. apply spans_string; [now left|exact H].
  - destruct (spans_number b H) as (g & E & Hg). eauto.
  - exists stateEndValue. split; [|auto]. eexists _, _, stateT. repeat split.
    next stateTr. next stateTru. now next stateEndValue.
  - exists stateEndValue. split; [|auto]. eexists _, _, stateF. repeat split.
    next stateFa. next stateFal. next stateFals. now next stateEndValue.
  - exists stateEndValue. split; [|auto]. eexists _, _, stateN. repeat split.
    next stateNu. next stateNul. now next stateEndValue.
Qed.

Lemma walk_literal_mk v :
  literal v -> exists g, walk k (mk stateBeginValue st n) v = Some (mk g st n) /\
    (g = stateEndValue \/ num_end g = true).
Proof. intros (g & E%spans_walk & Hg)%spans_literal. eauto. Qed.

Lemma walk_literal v :
  literal v -> exists s, walk k (mk stateBeginValue st n) v = Some s /\ ended st n s.
Proof.
  intros (g & E & [->|Hg])%walk_literal_mk; eexists; (split; [exact E|auto with cam]).
Qed.
End Literals.

(** ** Values *)

Definition depth_ok (d : nat) (st : list pstate) : Prop :=
  Z.of_nat d + Z.of_nat (length st) <= maxNestingDepth.

Lemma depth_ok_le d d' st : (d' <= d)%nat -> depth_ok d st -> depth_ok d' st.
Proof. unfold depth_ok. lia. Qed.

Lemma depth_ok_1 d st : depth_ok (S d) st -> depth_ok 1 st.
Proof. apply depth_ok_le. lia. Qed.

(** A value opens with the byte of its kind, also where it may be missing. *)
Lemma step_value_start st n c :
  value_start c -> step (mk stateBeginValueOrEmpty st n) c = step (mk stateBeginValue st n) c.
Proof.
  intros Hc. destruct (value_start_plain c Hc) as (E & H93 & _).
  unfold step, mk, do_BeginValueOrEmpty. cbn [sc_step]. rewrite E.
  replace (c =? 93) with false by (symmetry; now apply Z.eqb_neq).
  unfold do_BeginValue. rewrite E. reflexivity.
Qed.

Lemma walk_or_empty k st n v r :
  (k <= length st)%nat -> (exists c b, v = c :: b /\ value_start c) ->
  walk k (mk stateBeginValueOrEmpty st n) (v ++ r) = walk k (mk stateBeginValue st n) (v ++ r).
Proof.
  intros Hk (c & b & -> & Hc). cbn [app walk]. now rewrite step_value_start.
Qed.

Lemma push_ok f st n c p op :
  depth_ok 1 st -> pushParseState (mk f st n) c p op = (mk f (p :: st) n, op).
Proof.
  unfold depth_ok, pushParseState. intros H. cbn [mk set_stack parseState sc_step endTop err sc_bytes].
  replace (Z.of_nat (length (p :: st)) <=? maxNestingDepth) with true; [reflexivity|].
  symmetry. apply Z.leb_le. cbn [length]. lia.
Qed.

Lemma step_open_array st n :
  depth_ok 1 st ->
  step (mk stateBeginValue st n) 91 = (mk stateBeginValueOrEmpty (parseArrayValue :: st) n, scanBeginArray).
Proof.
  intros H. transitivity (pushParseState (mk stateBeginValueOrEmpty st n) 91 parseArrayValue scanBeginArray);
    [reflexivity|]. now apply push_ok.
Qed.

Lemma step_open_object st n :
  depth_ok 1 st ->
  step (mk stateBeginValue st n) 123 = (mk stateBeginStringOrEmpty (parseObjectKey :: st) n, scanBeginObject).
Proof.
  intros H. transitivity (pushParseState (mk stateBeginStringOrEmpty st n) 123 parseObjectKey scanBeginObject);
    [reflexivity|]. now apply push_ok.
Qed.

Lemma step_close_array st n s :
  ended (parseArrayValue :: st) n s -> step s 93 = (closed st n, scanEndArray).
Proof.
  intros H. rewrite (ended_step _ _ _ _ H) by (right; cbn; tauto).
  unfold step, mk, do_EndValue, isSpace. cbn. now destruct st.
Qed.

Lemma step_close_object st n s :
  ended (parseObjectValue :: st) n s -> step s 125 = (closed st n, scanEndObject).
Proof.
  intros H. rewrite (ended_step _ _ _ _ H) by (right; cbn; tauto).
  unfold step, mk, do_EndValue, isSpace. cbn. now destruct st.
Qed.

Lemma step_empty_array st n :
  step (mk stateBeginValueOrEmpty (parseArrayValue :: st) n) 93 = (closed st n, scanEndArray).
Proof. now destruct st. Qed.

Lemma step_empty_object st n :
  step (mk stateBeginStringOrEmpty (parseObjectKey :: st) n) 125 = (closed st n, scanEndObject).
Proof. now destruct st. Qed.

Lemma step_comma_array st n s :
  ended (parseArrayValue :: st) n s ->
  step s 44 = (mk stateBeginValue (parseArrayValue :: st) n, scanArrayValue).
Proof. intros H. now rewrite (ended_step _ _ _ _ H) by (right; cbn; tauto). Qed.

Lemma step_comma_object st n s :
  ended (parseObjectValue :: st) n s ->
  step s 44 = (mk stateBeginString (parseObjectKey :: st) n, scanObjectValue).
Proof. intros H. now rewrite (ended_step _ _ _ _ H) by (right; cbn; tauto). Qed.

Lemma step_colon st n s :
  ended (parseObjectKey :: st) n s ->
  step s 58 = (mk stateBeginValue (parseObjectValue :: st) n, scanObjectKey).
Proof. intros H. now rewrite (ended_step _ _ _ _ H) by (right; cbn; tauto). Qed.

Lemma length_closed st n : length (parseState (closed st n)) = length st.
Proof. now destruct st. Qed.

(** What a walk along a value, along the elements of an array, and along the members of
    an object comes to.  The first element or member may stand where the list could be
    empty. *)
Definition walks_value (t : tree) (v : list Z) : Prop := forall k st n,
  depth_ok (depth t) st -> (k <= length st)%nat ->
  exists s, walk k (mk stateBeginValue st n) v = Some s /\ ended st n s.

Definition walks_elems (l : list tree) (b : list Z) : Prop := forall k st n f,
  f = stateBeginValue \/ f = stateBeginValueOrEmpty ->
  depth_ok (S (depth_elems l)) st -> (k <= S (length st))%nat ->
  exists s, walk k (mk f (parseArrayValue :: st) n) b = Some s /\ ended (parseArrayValue :: st) n s.

Definition walks_members (l : list (list Z * tree)) (b : list Z) : Prop := forall k st n f,
  f = stateBeginString \/ f = stateBeginStringOrEmpty ->
  depth_ok (S (depth_members l)) st -> (k <= S (length st))%nat ->
  exists s, walk k (mk f (parseObjectKey :: st) n) b = Some s /\ ended (parseObjectValue :: st) n s.

(** An element with the spaces around it. *)
Lemma walk_elem t v w1 w2 k st n f r :
  walks_value t v -> spells t v -> ws w1 -> ws w2 ->
  f = stateBeginValue \/ f = stateBeginValueOrEmpty ->
  depth_ok (S (depth t)) st -> (k <= S (length st))%nat ->
  exists s, walk k (mk f (parseArrayValue :: st) n) (w1 ++ v ++ w2 ++ r) = walk k s r /\
    ended (parseArrayValue :: st) n s.
Proof.
  intros Hv Hs Hw1 Hw2 Hf Hd Hk.
  rewrite walk_app, walk_ws by first [assumption|destruct Hf as [->| ->]; exact I].
  destruct (Hv k (parseArrayValue :: st) n) as (s1 & E1 & H1);
    [unfold depth_ok in *; cbn [length]; lia|exact Hk|].
  assert (E : walk k (mk f (parseArrayValue :: st) n) (v ++ w2 ++ r) = walk k s1 (w2 ++ r)).
  { destruct Hf as [->| ->]; [|rewrite walk_or_empty by (first [exact Hk|now apply (spells_start t)])];
      now rewrite walk_app, E1. }
  destruct (walk_ws_end k _ _ _ _ _ H1 Hw2 Hk) as (s2 & E2 & H2).
  exists s2. split; [|exact H2]. rewrite E. now rewrite walk_app, E2.
Qed.

(** A key, the colon and its value. *)
Lemma walk_member t v key w1 w2 w3 w4 k st n f r :
  walks_value t v -> string_lit key -> ws w1 -> ws w2 -> ws w3 -> ws w4 ->
  f = stateBeginString \/ f = stateBeginStringOrEmpty ->
  depth_ok (S (depth t)) st -> (k <= S (length st))%nat ->
  exists s,
    walk k (mk f (parseObjectKey :: st) n) (w1 ++ key ++ w2 ++ 58 :: w3 ++ v ++ w4 ++ r) = walk k s r /\
    ended (parseObjectValue :: st) n s.
Proof.
  intros Hv Hkey Hw1 Hw2 Hw3 Hw4 Hf Hd Hk.
  rewrite walk_app, walk_ws by first [assumption|destruct Hf as [->| ->]; exact I].
  assert (E : forall r, walk k (mk f (parseObjectKey :: st) n) (key ++ r) =
                        walk k (mk stateEndValue (parseObjectKey :: st) n) r).
  { intros r'. rewrite walk_app.
    assert (Ef : walk k (mk f (parseObjectKey :: st) n) key =
                 walk k (mk stateBeginString (parseObjectKey :: st) n) key).
    { destruct Hf as [->| ->]; [reflexivity|]. destruct (string_lit_start _ Hkey) as [b ->]. reflexivity. }
    rewrite Ef. now rewrite walk_string by auto. }
  rewrite E.
  destruct (walk_ws_end k parseObjectKey st n _ w2 (ended_EndValue _ _) Hw2 Hk) as (s1 & E1 & H1).
  rewrite walk_app, E1.
  rewrite (walk_step _ _ _ _ _ _ (step_colon _ _ _ H1)) by first [discriminate|exact Hk].
  rewrite walk_app, walk_ws by first [assumption|exact I].
  destruct (Hv k (parseObjectValue :: st) n) as (s2 & E2 & H2);
    [unfold depth_ok in *; cbn [length]; lia|exact Hk|].
  rewrite walk_app, E2.
  destruct (walk_ws_end k _ _ _ _ _ H2 Hw4 Hk) as (s3 & E3 & H3).
  exists s3. split; [|exact H3]. now rewrite walk_app, E3.
Qed.

Lemma walks_all :
  (forall t v, spells t v -> spells t v /\ walks_value t v) /\
  (forall l b, elems l b -> walks_elems l b) /\
  (forall l b, members l b -> walks_members l b).
Proof.
  apply spells_elems_members.
  - intros b Hb. split; [now constructor|]. intros k st n _ Hk. now apply walk_literal.
  - intros w Hw. split; [now constructor|]. intros k st n Hd Hk. exists (closed st n).
    split; [|auto with cam].
    rewrite (walk_step _ _ _ _ _ _ (step_open_array st n Hd)); [|discriminate|cbn; lia].
    rewrite walk_app, walk_ws by first [exact I|assumption|cbn; lia].
    rewrite (walk_step _ _ _ _ _ _ (step_empty_array st n)); [reflexivity|discriminate|].
    now rewrite length_closed.
  - intros l b Hb IH. split; [now constructor|]. intros k st n Hd Hk. exists (closed st n).
    split; [|auto with cam].
    rewrite (walk_step _ _ _ _ _ _ (step_open_array st n (depth_ok_1 _ _ Hd)));
      [|discriminate|cbn; lia].
    destruct (IH k st n stateBeginValueOrEmpty) as (s & E & H); [auto|exact Hd|lia|].
    rewrite walk_app, E.
    rewrite (walk_step _ _ _ _ _ _ (step_close_array _ _ _ H)); [reflexivity|discriminate|].
    now rewrite length_closed.
  - intros w Hw. split; [now constructor|]. intros k st n Hd Hk. exists (closed st n).
    split; [|auto with cam].
    rewrite (walk_step _ _ _ _ _ _ (step_open_object st n Hd)); [|discriminate|cbn; lia].
    rewrite walk_app, walk_ws by first [exact I|assumption|cbn; lia].
    rewrite (walk_step _ _ _ _ _ _ (step_empty_object st n)); [reflexivity|discriminate|].
    now rewrite length_closed.
  - intros l b Hb IH. split; [now constructor|]. intros k st n Hd Hk. exists (closed st n).
    split; [|auto with cam].
    rewrite (walk_step _ _ _ _ _ _ (step_open_object st n (depth_ok_1 _ _ Hd)));
      [|discriminate|cbn; lia].
    destruct (IH k st n stateBeginStringOrEmpty) as (s & E & H); [auto|exact Hd|lia|].
    rewrite walk_app, E.
    rewrite (walk_step _ _ _ _ _ _ (step_close_object _ _ _ H)); [reflexivity|discriminate|].
    now rewrite length_closed.
  - intros t w1 b w2 Hw1 _ [Hs Hv] Hw2 k st n f Hf Hd Hk.
    destruct (walk_elem t b w1 w2 k st n f [] Hv Hs Hw1 Hw2 Hf) as (s & E & H);
      [revert Hd; apply depth_ok_le; cbn; lia|exact Hk|].
    rewrite app_nil_r in E. exists s. auto.
  - intros t w1 b w2 l b' Hw1 _ [Hs Hv] Hw2 _ IH k st n f Hf Hd Hk.
    destruct (walk_elem t b w1 w2 k st n f (44 :: b') Hv Hs Hw1 Hw2 Hf) as (s & E & H);
      [revert Hd; apply depth_ok_le; cbn; lia|exact Hk|].
    rewrite E, (walk_step _ _ _ _ _ _ (step_comma_array _ _ _ H)); [|discriminate|cbn; lia].
    apply IH; [auto|revert Hd; apply depth_ok_le; unfold depth_elems; cbn; lia|exact Hk].
  - intros key t w1 w2 w3 b w4 Hw1 Hkey Hw2 Hw3 _ [Hs Hv] Hw4 k st n f Hf Hd Hk.
    destruct (walk_member t b key w1 w2 w3 w4 k st n f [] Hv Hkey Hw1 Hw2 Hw3 Hw4 Hf) as (s & E & H);
      [revert Hd; apply depth_ok_le; cbn; lia|exact Hk|].
    rewrite app_nil_r in E. exists s. auto.
  - intros key t w1 w2 w3 b w4 l b' Hw1 Hkey Hw2 Hw3 _ [Hs Hv] Hw4 _ IH k st n f Hf Hd Hk.
    destruct (walk_member t b key w1 w2 w3 w4 k st n f (44 :: b') Hv Hkey Hw1 Hw2 Hw3 Hw4 Hf)
      as (s & E & H); [revert Hd; apply depth_ok_le; cbn; lia|exact Hk|].
    rewrite E, (walk_step _ _ _ _ _ _ (step_comma_object _ _ _ H)); [|discriminate|cbn; lia].
    apply IH; [auto|revert Hd; apply depth_ok_le; unfold depth_members; cbn; lia|exact Hk].
Qed.

Lemma walk_value t v : spells t v -> walks_value t v.
Proof. intros H. now apply walks_all. Qed.

(** * The count of bytes and the text of an error decide nothing *)

Definition sim (s s' : scanner) : Prop :=
  sc_step s = sc_step s' /\ endTop s = endTop s' /\ parseState s = parseState s' /\
  (err s = None <-> err s' = None).

Lemma sim_refl s : sim s s.
Proof. unfold sim. tauto. Qed.
#[export] Hint Resolve sim_refl : cam.

Lemma sim_count s s' : sim s s' -> sim (count s) (count s').
Proof. exact (fun H => H). Qed.

Definition sim_step (r r' : scanner * opcode) : Prop := sim (fst r) (fst r') /\ snd r = snd r'.

(** Unfold the state functions down to their tests. *)
Ltac unfold_states :=
  unfold do_BeginValueOrEmpty, do_BeginStringOrEmpty, do_BeginString, do_BeginValue, do_InString,
    do_InStringEsc, do_hex, do_Neg, do_1, do_0, do_Dot, do_Dot0, do_E, do_ESign, do_E0, do_letter,
    pushParseState, do_EndValue, do_EndTop;
  cbn [set_step set_stack set_endTop parseState tl].

Lemma step_sim s s' c : sim s s' -> sim_step (step s c) (step s' c).
Proof.
  destruct s as [f e st er n], s' as [f' e' st' er' n'].
  intros (Hf & He & Hst & Her). cbn in Hf, He, Hst, Her. subst f' e' st'.
  destruct f; unfold step; cbn [sc_step]; unfold_states;
    try (destruct st as [|[] [|p2 st]]; unfold_states);
    repeat match goal with
    | |- sim_step (if ?b then _ else _) (if ?b then _ else _) => destruct b
    end;
    (split; [|reflexivity]); refine (conj eq_refl (conj eq_refl (conj eq_refl _)));
    first [exact Her | split; discriminate].
Qed.

Lemma eof_sim s s' : sim s s' ->
  (snd (eof s) = scanError -> err (fst (eof s)) <> None) /\ snd (eof s) = snd (eof s').
Proof.
  intros H. destruct (step_sim s s' 32 H) as [H1 _].
  destruct H as (_ & He & _ & Her). destruct H1 as (_ & He1 & _ & Her1).
  unfold eof. rewrite He, He1.
  destruct (err s) eqn:E, (err s') eqn:E'; cbn; try (intuition congruence).
  case_if; [cbn; intuition congruence|]. case_if; [cbn; intuition congruence|].
  destruct (err (fst (step s 32))) eqn:E1, (err (fst (step s' 32))) eqn:E1'; cbn; intuition congruence.
Qed.

(** A step that reports an error has recorded it. *)
Definition recorded (r : scanner * opcode) : Prop := snd r = scanError -> err (fst r) <> None.

Lemma step_error s c : err s = None -> sc_step s <> stateError -> recorded (step s c).
Proof.
  destruct s as [f e st er n]. cbn [err sc_step]. intros -> Hf.
  destruct f; try congruence; unfold step; cbn [sc_step]; unfold_states;
    try (destruct st as [|[] [|p2 st]]; unfold_states);
    repeat match goal with |- recorded (if ?b then _ else _) => destruct b end;
    unfold recorded; cbn; discriminate.
Qed.

(** Accepted from here: the rest of the text meets no error. *)
Definition accepts (s : scanner) (b : list Z) : Prop := check_loop s b = None.

Lemma opcode_eqb_eq a b : opcode_eqb a b = true <-> a = b.
Proof. now destruct a, b. Qed.

Lemma accepts_sim b : forall s s', sim s s' -> accepts s b -> accepts s' b.
Proof.
  unfold accepts. induction b as [|c b IH]; intros s s' H; cbn [check_loop].
  - pose proof (eof_sim s s' H) as [He Hop].
    destruct (eof s) as [s1 op], (eof s') as [s1' op']. cbn in He, Hop. subst op'.
    destruct (opcode_eqb op scanError) eqn:E; [|reflexivity].
    apply opcode_eqb_eq in E. intros E1. now destruct (He E).
  - pose proof (step_sim (count s) (count s') c (sim_count _ _ H)) as [Hs Hop].
    destruct (step (count s) c) as [s1 op], (step (count s') c) as [s1' op'].
    cbn in Hs, Hop. subst op'. case_if; [|now apply IH]. apply Hs.
Qed.

Lemma walk_accepts k v : forall s s' s1 r,
  walk k s v = Some s' -> sim s s1 -> accepts s' r -> accepts s1 (v ++ r).
Proof.
  unfold accepts. induction v as [|c v IH]; intros s s' s1 r; cbn [walk app check_loop].
  - intros E H. injection E as <-. now apply accepts_sim.
  - intros E H Hr. pose proof (step_sim s (count s1) c H) as [Hs Hop].
    destruct (step s c) as [s2 op], (step (count s1) c) as [s2' op']. cbn in Hs, Hop. subst op'.
    destruct (opcode_eqb op scanError); [discriminate|]. cbn [orb] in E.
    case_if_in E; [discriminate|]. eapply IH; eassumption.
Qed.

Lemma accepts_top n w : ws w -> accepts (top n) w.
Proof.
  intros H. revert n. unfold accepts. induction H as [|c w Hc _ IH]; intros n; [reflexivity|].
  cbn [check_loop]. unfold step, top, count, do_EndTop. cbn [sc_step].
  rewrite Hc. apply IH.
Qed.

Lemma ended_count st n s : ended st n s -> ended st (n + 1) (count s).
Proof.
  intros [->|(f & Hf & ->)]; [left; now destruct st|right]. now exists f.
Qed.

Lemma accepts_ended n s w : ended [] n s -> ws w -> accepts s w.
Proof.
  intros H Hw. destruct w as [|c w].
  - destruct H as [->|(f & [->|Hf] & ->)]; [reflexivity..|]. now destruct f.
  - apply ws_cons in Hw as [Hc Hw]. unfold accepts. cbn [check_loop].
    rewrite (ended_step _ _ _ _ (ended_count _ _ _ H)) by now left.
    unfold step, mk, do_EndValue, do_EndTop. cbn [sc_step parseState]. rewrite Hc.
    now apply accepts_top.
Qed.

(** ** What the grammar allows is accepted *)

Lemma accepts_json t b : json_text t b -> depth_ok (depth t) [] -> accepts newScanner b.
Proof.
  intros [w1 v w2 Hw1 Hv Hw2] Hd.
  destruct (walk_value t v Hv 0%nat [] 0 Hd) as (s & E & H); [reflexivity|].
  apply (walk_accepts 0 w1 _ (mk stateBeginValue [] 0) _ (v ++ w2)
           (walk_ws 0 stateBeginValue [] 0 w1 I Hw1 (Nat.le_refl 0))); [auto with cam|].
  apply (walk_accepts 0 v _ s _ w2 E); [auto with cam|]. now apply (accepts_ended 0).
Qed.

(** ** What is accepted is in the grammar *)

(** Accepted from the state [f], whatever the count. *)
Definition acc (f : stepfn) (st : list pstate) (b : list Z) : Prop :=
  exists n, accepts (mk f st n) b.

Lemma acc_closed st n b : accepts (closed st n) b -> acc stateEndValue st b.
Proof.
  destruct st as [|p st]; [|now exists n].
  intros H. exists n. destruct b as [|c b]; [reflexivity|exact H].
Qed.

(** One step back from the rest of the text. *)
Lemma acc_inv f st c b :
  f <> stateError -> acc f st (c :: b) ->
  exists n, snd (step (mk f st n) c) <> scanError /\ accepts (fst (step (mk f st n) c)) b.
Proof.
  intros Hf [n H]. exists (n + 1). unfold accepts in H. cbn [check_loop] in H.
  change (count (mk f st n)) with (mk f st (n + 1)) in H.
  pose proof (step_error (mk f st (n + 1)) c eq_refl Hf) as Hr.
  destruct (step (mk f st (n + 1)) c) as [s op]. cbn [fst snd recorded] in *.
  case_if_in H.
  - apply opcode_eqb_eq in Heqb0. now destruct (Hr Heqb0).
  - split; [|exact H]. intros ->. discriminate Heqb0.
Qed.

Lemma acc_cons f st c b n :
  snd (step (mk f st n) c) <> scanError -> accepts (fst (step (mk f st n) c)) b -> acc f st (c :: b).
Proof.
  intros Hop H. exists (n - 1). unfold accepts. cbn [check_loop].
  change (count (mk f st (n - 1))) with (mk f st (n - 1 + 1)). rewrite Z.sub_add.
  destruct (step (mk f st n) c) as [s op]. cbn [fst snd] in *.
  case_if; [|exact H]. now apply opcode_eqb_eq in Heqb0.
Qed.

Lemma acc_intro f st n b : accepts (mkScanner f false st None n) b -> acc f st b.
Proof. intros H. now exists n. Qed.

(** Go one step back in [H] and look at the tests of the state. *)
Ltac next_state Hop H :=
  cbn [fst snd] in Hop, H; unfold set_step, set_stack in H;
  cbn [sc_step endTop parseState err sc_bytes] in H.

Ltac step_back H :=
  let n := fresh "n" in let Hop := fresh "Hop" in
  apply acc_inv in H as (n & Hop & H); [|discriminate];
  unfold step, mk in Hop, H; cbn [sc_step] in Hop, H;
  unfold do_BeginValueOrEmpty, do_BeginStringOrEmpty, do_BeginString, do_InString,
    do_InStringEsc, do_hex, do_Neg, do_1, do_0, do_Dot, do_Dot0, do_E, do_ESign, do_E0, do_letter in Hop, H;
  repeat case_if_in H; next_state Hop H;
  try (apply acc_intro in H; clear n Hop); try (now destruct Hop).

Lemma acc_nil f st :
  match f with stateEndValue => st <> [] | state0 | state1 | stateDot0 | stateE0 => st <> []
             | stateEndTop => False | _ => True end -> ~ acc f st [].
Proof.
  intros Hf [n H]. revert H. unfold accepts. cbn [check_loop].
  destruct f; try contradiction; destruct st as [|p st]; try congruence; discriminate.
Qed.

(** White space first. *)
Lemma acc_ws f st b :
  skips f st -> acc f st b ->
  exists w c b', b = w ++ c :: b' /\ ws w /\ isSpace c = false /\ acc f st (c :: b').
Proof.
  intros Hs. induction b as [|c b IH]; intros H.
  - exfalso. revert H. apply acc_nil. now destruct f.
  - destruct (isSpace c) eqn:Hc; [|exists [], c, b; repeat split; auto; constructor].
    destruct H as [n H]. unfold accepts in H. cbn [check_loop] in H.
    change (count (mk f st n)) with (mk f st (n + 1)) in H.
    rewrite (step_space _ _ _ _ Hs Hc) in H. cbn [opcode_eqb] in H.
    destruct IH as (w & c' & b' & -> & Hw & Hc' & H'); [now exists (n + 1)|].
    exists (c :: w), c', b'. repeat split; [|assumption..]. now apply ws_cons.
Qed.

Ltac no_end H := exfalso; revert H; apply acc_nil; first [exact I | discriminate].

(** The rest of a string. *)
Lemma acc_hex f g st b :
  (forall n c, step (mk f st n) c = do_hex g (mk f st n) c) -> f <> stateError ->
  ~ acc f st [] -> acc f st b -> exists a b', b = a :: b' /\ is_hex a = true /\ acc g st b'.
Proof.
  intros Hs Hf Hnil H. destruct b as [|a b]; [contradiction|]. exists a, b. split; [reflexivity|].
  apply acc_inv in H as (n & Hop & H); [|exact Hf]. rewrite Hs in Hop, H. unfold do_hex in Hop, H.
  case_if_in H; [split; [reflexivity|now exists n]|now destruct Hop].
Qed.

Lemma acc_four_hex st b : acc stateInStringEscU st b ->
  exists a1 a2 a3 a4 b', b = a1 :: a2 :: a3 :: a4 :: b' /\
    is_hex a1 = true /\ is_hex a2 = true /\ is_hex a3 = true /\ is_hex a4 = true /\
    acc stateInString st b'.
Proof.
  intros H.
  apply (acc_hex _ stateInStringEscU1) in H as (a1 & b1 & -> & H1 & H);
    [|reflexivity|discriminate|now apply acc_nil].
  apply (acc_hex _ stateInStringEscU12) in H as (a2 & b2 & -> & H2 & H);
    [|reflexivity|discriminate|now apply acc_nil].
  apply (acc_hex _ stateInStringEscU123) in H as (a3 & b3 & -> & H3 & H);
    [|reflexivity|discriminate|now apply acc_nil].
  apply (acc_hex _ stateInString) in H as (a4 & b4 & -> & H4 & H);
    [|reflexivity|discriminate|now apply acc_nil].
  exists a1, a2, a3, a4, b4. auto 10.
Qed.

Lemma acc_string_aux st m : forall b, (length b < m)%nat -> acc stateInString st b ->
  exists v r, b = v ++ 34 :: r /\ strchars v /\ acc stateEndValue st r.
Proof.
  induction m as [|m IH]; intros b Hm H; [lia|].
  destruct b as [|c b]; [no_end H|]. cbn [length] in Hm. step_back H.
  - exists [], b. replace c with 34 by lia. repeat split; [constructor|assumption].
  - replace c with 92 by lia. destruct b as [|e b]; [no_end H|]. cbn [length] in Hm. step_back H.
    + destruct (IH b) as (v & r & -> & Hv & Hr); [lia|assumption|].
      exists (92 :: e :: v), r. repeat split; [|exact Hr]. constructor; [|exact Hv].
      apply existsb_exists in Heqb2 as (x & Hx & Ex). apply Z.eqb_eq in Ex. now subst.
    + apply acc_four_hex in H as (a1 & a2 & a3 & a4 & b' & -> & H1 & H2 & H3 & H4 & H).
      cbn [length] in Hm. destruct (IH b') as (v & r & -> & Hv & Hr); [lia|exact H|].
      replace e with 117 by lia. exists (92 :: 117 :: a1 :: a2 :: a3 :: a4 :: v), r.
      repeat split; [|exact Hr]. now apply chars_u.
  - destruct (IH b) as (v & r & -> & Hv & Hr); [lia|assumption|].
    exists (c :: v), r. repeat split; [|exact Hr]. constructor; [lia..|exact Hv].
Qed.

Lemma acc_string st b : acc stateInString st b ->
  exists v r, b = v ++ 34 :: r /\ strchars v /\ acc stateEndValue st r.
Proof. apply (acc_string_aux st (S (length b))). lia. Qed.

(** ** Numbers *)

Lemma EndValue_any f st n c : do_EndValue (mk f st n) c = do_EndValue (mk stateEndValue st n) c.
Proof. now destruct st as [|[] st]. Qed.

Lemma acc_end f st c b n :
  snd (do_EndValue (mk f st n) c) <> scanError -> accepts (fst (do_EndValue (mk f st n) c)) b ->
  acc stateEndValue st (c :: b).
Proof. rewrite EndValue_any. exact (acc_cons stateEndValue st c b n). Qed.

Lemma acc_num_nil f st : num_end f = true -> acc f st [] -> acc stateEndValue st [].
Proof.
  intros Hf H. destruct st as [|p st]; [now exists 0|].
  exfalso. revert H. apply acc_nil. now destruct f.
Qed.

Ltac num_nil H := apply acc_num_nil in H; [|reflexivity].

(** The digits of a number, as many as there are. *)
Lemma acc_digits f st b :
  f = state1 \/ f = stateDot0 \/ f = stateE0 -> acc f st b ->
  exists ds r, b = ds ++ r /\ digits ds /\ acc f st r /\
    match r with [] => True | c :: _ => is_digit c = false end.
Proof.
  intros Hf. induction b as [|c b IH]; intros H.
  - exists [], []. repeat split; [constructor|exact H].
  - destruct (is_digit c) eqn:Hc.
    + destruct IH as (ds & r & -> & Hds & Hr & Hn).
      { destruct Hf as [->|[->| ->]]; step_back H; congruence || exact H. }
      exists (c :: ds), r. repeat split; auto. now constructor.
    + exists [], (c :: b). repeat split; [constructor|exact H|exact Hc].
Qed.

(** An exponent, past its letter. *)
Lemma acc_exp_sign st b : acc stateESign st b ->
  exists d ds r, b = d :: ds ++ r /\ is_digit d = true /\ digits ds /\ acc stateEndValue st r.
Proof.
  intros H. destruct b as [|d b]; [no_end H|]. step_back H.
  destruct (acc_digits stateE0 st b) as (ds & r & -> & Hds & Hr & Hn); [tauto|exact H|].
  exists d, ds, r. repeat split; auto.
  destruct r as [|c r]; [now num_nil Hr|].
  step_back Hr; [congruence|]. now apply (acc_end stateE0 st c r n).
Qed.

Lemma acc_exp st e b : e = 101 \/ e = 69 -> acc stateE st b ->
  exists v r, e :: b = v ++ r /\ exp_part v /\ acc stateEndValue st r.
Proof.
  intros He H.
  assert (Hsign : forall sg b, sg = [] \/ sg = [43] \/ sg = [45] -> acc stateESign st b ->
    exists v r, e :: sg ++ b = v ++ r /\ exp_part v /\ acc stateEndValue st r).
  { intros sg b' Hsg H'. apply acc_exp_sign in H' as (d & ds & r & -> & Hd & Hds & Hr).
    exists (e :: sg ++ d :: ds), r. repeat split; [|now constructor|exact Hr].
    cbn. rewrite <- app_assoc. reflexivity. }
  destruct b as [|c b]; [no_end H|].
  destruct ((c =? 43) || (c =? 45)) eqn:E.
  - apply (Hsign [c] b); [right|step_back H; [exact H|congruence..]].
    assert (Hc : c = 43 \/ c = 45) by lia. destruct Hc as [->| ->]; auto.
  - apply (Hsign [] (c :: b)); [now left|].
    apply acc_inv in H as (n & Hop & H); [|discriminate]. unfold step, mk, do_E in Hop, H.
    cbn [sc_step] in Hop, H. rewrite E in Hop, H. now apply (acc_cons _ _ _ _ n).
Qed.

(** The fraction and the exponent, or the end. *)
Lemma acc_tail f st b :
  f = state0 \/ f = state1 ->
  match b with [] => True | c :: _ => f = state1 -> is_digit c = false end ->
  acc f st b ->
  exists fr e r, b = fr ++ e ++ r /\ frac_part fr /\ exp_part e /\ acc stateEndValue st r.
Proof.
  intros Hf Hn H. destruct b as [|c b].
  { apply acc_num_nil in H; [|now destruct Hf as [->| ->]].
    exists [], [], []. repeat split; auto; constructor. }
  apply acc_inv in H as (n & Hop & H); [|now destruct Hf as [->| ->]].
  assert (E : step (mk f st n) c = do_0 (mk f st n) c).
  { destruct Hf as [->| ->]; [reflexivity|]. unfold step, mk, do_1. cbn [sc_step].
    now rewrite Hn. }
  rewrite E in Hop, H. clear E. unfold do_0 in Hop, H. repeat case_if_in H; next_state Hop H.
  - apply acc_intro in H. destruct b as [|d b]; [no_end H|]. step_back H.
    destruct (acc_digits stateDot0 st b) as (ds & r & -> & Hds & Hr & Hn'); [tauto|exact H|].
    replace c with 46 by lia. destruct r as [|x r].
    { num_nil Hr. exists (46 :: d :: ds), [], []. cbn [app]. rewrite !app_nil_r.
      repeat split; auto; now constructor. }
    step_back Hr; [congruence| |].
    + apply (acc_exp st x) in Hr as (v & r' & E & Hv & Hr); [|lia].
      exists (46 :: d :: ds), v, r'. cbn. rewrite E. repeat split; auto. now constructor.
    + exists (46 :: d :: ds), [], (x :: r). repeat split; [now constructor|constructor|].
      now apply (acc_end stateDot0 st x r n0).
  - apply acc_intro, (acc_exp st c) in H as (v & r & E & Hv & Hr); [|lia].
    exists [], v, r. repeat split; auto. constructor.
  - exists [], [], (c :: b). repeat split; [constructor..|]. now apply (acc_end f st c b n).
Qed.

(** A number from its first digit. *)
Lemma acc_unsigned st d b : 48 <= d <= 57 -> acc (if d =? 48 then state0 else state1) st b ->
  exists i f e r, d :: b = i ++ f ++ e ++ r /\ int_part i /\ frac_part f /\ exp_part e /\
    acc stateEndValue st r.
Proof.
  intros Hd H. destruct (Z.eqb_spec d 48) as [->|H48].
  - apply acc_tail in H as (f & e & r & -> & Hf & He & Hr); [|now left|now destruct b].
    exists [48], f, e, r. repeat split; auto. constructor.
  - destruct (acc_digits state1 st b) as (ds & r & -> & Hds & Hr & Hn); [tauto|exact H|].
    apply acc_tail in Hr as (f & e & r' & -> & Hf & He & Hr); [|now right|now destruct r].
    exists (d :: ds), f, e, r'. repeat split; auto. constructor; [lia|exact Hds].
Qed.

(** ** Literals *)

Lemma acc_letter f g letter context st b :
  (forall n c, step (mk f st n) c = do_letter letter g context (mk f st n) c) -> f <> stateError ->
  ~ acc f st [] -> acc f st b -> exists b', b = letter :: b' /\ acc g st b'.
Proof.
  intros Hs Hf Hnil H. destruct b as [|a b]; [contradiction|]. exists b.
  apply acc_inv in H as (n & Hop & H); [|exact Hf]. rewrite Hs in Hop, H. unfold do_letter in Hop, H.
  case_if_in H; [|now destruct Hop]. apply Z.eqb_eq in Heqb0. subst. split; [reflexivity|now exists n].
Qed.

Ltac letter H g b' :=
  eapply (acc_letter _ g) in H as (b' & -> & H); [|reflexivity|discriminate|now apply acc_nil].

Lemma acc_true st b : acc stateT st b -> exists r, 116 :: b = true_text ++ r /\ acc stateEndValue st r.
Proof.
  intros H. letter H stateTr b1. letter H stateTru b2. letter H stateEndValue b3.
  exists b3. now split.
Qed.

Lemma acc_false st b : acc stateF st b -> exists r, 102 :: b = false_text ++ r /\ acc stateEndValue st r.
Proof.
  intros H. letter H stateFa b1. letter H stateFal b2. letter H stateFals b3. letter H stateEndValue b4.
  exists b4. now split.
Qed.

Lemma acc_null st b : acc stateN st b -> exists r, 110 :: b = null_text ++ r /\ acc stateEndValue st r.
Proof.
  intros H. letter H stateNu b1. letter H stateNul b2. letter H stateEndValue b3.
  exists b3. now split.
Qed.

Lemma acc_quoted st b : acc stateInString st b ->
  exists k r, 34 :: b = k ++ r /\ string_lit k /\ acc stateEndValue st r.
Proof.
  intros H. apply acc_string in H as (v & r & -> & Hv & Hr). exists (quoted v), r.
  repeat split; [|exact Hv|exact Hr]. unfold quoted. cbn. now rewrite <- app_assoc.
Qed.

Lemma push_depth p st : (Z.of_nat (length (p :: st : list pstate)) <=? maxNestingDepth) = true -> depth_ok 1 st.
Proof. rewrite Z.leb_le. unfold depth_ok. cbn [length]. lia. Qed.

(** A value from its first byte: a literal, or an array or object that opens. *)
Lemma acc_begin st c b : isSpace c = false -> acc stateBeginValue st (c :: b) ->
  (exists v r, c :: b = v ++ r /\ literal v /\ acc stateEndValue st r) \/
  (c = 91 /\ depth_ok 1 st /\ acc stateBeginValueOrEmpty (parseArrayValue :: st) b) \/
  (c = 123 /\ depth_ok 1 st /\ acc stateBeginStringOrEmpty (parseObjectKey :: st) b).
Proof.
  assert (Hnum : forall sg d b', sg = [] \/ sg = [45] -> 48 <= d <= 57 ->
            acc (if d =? 48 then state0 else state1) st b' ->
            exists v r, sg ++ d :: b' = v ++ r /\ literal v /\ acc stateEndValue st r).
  { intros sg d b' Hsg Hd H. apply acc_unsigned in H as (i & f & e & r & -> & Hi & Hf & He & Hr); [|exact Hd].
    exists (sg ++ i ++ f ++ e), r. rewrite <- !app_assoc. repeat split; auto.
    now apply literal_number, number_intro. }
  intros Hc H. apply acc_inv in H as (n & Hop & H); [|discriminate].
  unfold step, mk, do_BeginValue, pushParseState in Hop, H. cbn [sc_step] in Hop, H. rewrite Hc in Hop, H.
  repeat case_if_in H; next_state Hop H; try (now destruct Hop); apply acc_intro in H.
  - right; right. split; [lia|]. split; [|exact H]. apply (push_depth parseArrayValue); exact Heqb1.
  - right; left. split; [lia|]. split; [|exact H]. apply (push_depth parseArrayValue); exact Heqb2.
  - left. replace c with 34 by lia. apply acc_quoted in H as (k & r & E & Hk & Hr).
    exists k, r. repeat split; auto. now apply literal_string.
  - left. replace c with 45 by lia. destruct b as [|d b]; [no_end H|]. step_back H.
    + apply (Hnum [45] d b); [auto|lia|]. now replace (d =? 48) with true by lia.
    + apply (Hnum [45] d b); [auto|lia|]. now replace (d =? 48) with false by lia.
  - left. apply (Hnum [] c b); [auto|lia|]. now rewrite Heqb4.
  - left. replace c with 116 by lia. apply acc_true in H as (r & E & Hr). exists true_text, r.
    repeat split; auto. apply literal_true.
  - left. replace c with 102 by lia. apply acc_false in H as (r & E & Hr). exists false_text, r.
    repeat split; auto. apply literal_false.
  - left. replace c with 110 by lia. apply acc_null in H as (r & E & Hr). exists null_text, r.
    repeat split; auto. apply literal_null.
  - left. apply (Hnum [] c b); [auto|lia|]. now rewrite Heqb4.
Qed.

(** ** Arrays and objects *)

Lemma acc_array_empty st b : acc stateBeginValueOrEmpty (parseArrayValue :: st) b ->
  (exists w r, b = w ++ 93 :: r /\ ws w /\ acc stateEndValue st r) \/
  acc stateBeginValue (parseArrayValue :: st) b.
Proof.
  induction b as [|c b IH]; intros H; [no_end H|].
  apply acc_inv in H as (n & Hop & H); [|discriminate]. destruct (isSpace c) eqn:Hc.
  - rewrite step_space in H by first [exact I|exact Hc]. destruct IH as [(w & r & -> & Hw & Hr)|H']; [now exists n| |].
    + left. exists (c :: w), r. repeat split; auto. now apply ws_cons.
    + right. destruct H' as [m H']. apply (acc_cons _ _ _ _ m); rewrite step_space by first [exact I|exact Hc];
        [discriminate|exact H'].
  - destruct (Z.eqb_spec c 93) as [->|H93].
    + rewrite step_empty_array in H. left. exists [], b. repeat split; [constructor|].
      now apply acc_closed in H.
    + right. apply (acc_cons _ _ _ _ n); unfold step, mk, do_BeginValueOrEmpty in Hop, H |- *;
        cbn [sc_step] in Hop, H |- *; rewrite Hc in Hop, H;
        replace (c =? 93) with false in Hop, H by lia; unfold do_BeginValue in *; rewrite Hc in *; assumption.
Qed.

Lemma acc_object_empty st b : acc stateBeginStringOrEmpty (parseObjectKey :: st) b ->
  (exists w r, b = w ++ 125 :: r /\ ws w /\ acc stateEndValue st r) \/
  acc stateBeginString (parseObjectKey :: st) b.
Proof.
  induction b as [|c b IH]; intros H; [no_end H|].
  apply acc_inv in H as (n & Hop & H); [|discriminate]. destruct (isSpace c) eqn:Hc.
  - rewrite step_space in H by first [exact I|exact Hc]. destruct IH as [(w & r & -> & Hw & Hr)|H']; [now exists n| |].
    + left. exists (c :: w), r. repeat split; auto. now apply ws_cons.
    + right. destruct H' as [m H']. apply (acc_cons _ _ _ _ m); rewrite step_space by first [exact I|exact Hc];
        [discriminate|exact H'].
  - destruct (Z.eqb_spec c 125) as [->|H125].
    + rewrite step_empty_object in H. left. exists [], b. repeat split; [constructor|].
      now apply acc_closed in H.
    + right. apply (acc_cons _ _ _ _ n); unfold step, mk, do_BeginStringOrEmpty in Hop, H |- *;
        cbn [sc_step] in Hop, H |- *; rewrite Hc in Hop, H;
        replace (c =? 125) with false in Hop, H by lia; unfold do_BeginString in *; rewrite Hc in *; assumption.
Qed.

(** After a value inside a composite: white space and the byte that comes next. *)
Lemma acc_after p st b : acc stateEndValue (p :: st) b ->
  exists w c r, b = w ++ c :: r /\ ws w /\
    match p with
    | parseObjectKey => c = 58 /\ acc stateBeginValue (parseObjectValue :: st) r
    | parseObjectValue => c = 44 /\ acc stateBeginString (parseObjectKey :: st) r \/
                          c = 125 /\ acc stateEndValue st r
    | parseArrayValue => c = 44 /\ acc stateBeginValue (parseArrayValue :: st) r \/
                         c = 93 /\ acc stateEndValue st r
    end.
Proof.
  intros H. apply acc_ws in H as (w & c & b' & -> & Hw & Hc & H); [|discriminate].
  exists w, c, b'. split; [reflexivity|]. split; [exact Hw|].
  apply acc_inv in H as (n & Hop & H); [|discriminate].
  unfold step, mk, do_EndValue in Hop, H. cbn [sc_step parseState] in Hop, H. rewrite Hc in Hop, H.
  destruct p; repeat case_if_in H; cbn [fst snd] in Hop, H; try (now destruct Hop).
  - split; [lia|now exists n].
  - left. split; [lia|now exists n].
  - right. split; [lia|]. apply (acc_closed st n). now destruct st.
  - left. split; [lia|now exists n].
  - right. split; [lia|]. apply (acc_closed st n). now destruct st.
Qed.

Definition reads_value (st : list pstate) (b : list Z) : Prop :=
  depth_ok 0 st -> acc stateBeginValue st b ->
  exists w t v r, b = w ++ v ++ r /\ ws w /\ spells t v /\ depth_ok (depth t) st /\
    acc stateEndValue st r.

Definition reads_elems (st : list pstate) (b : list Z) : Prop :=
  depth_ok 1 st -> acc stateBeginValue (parseArrayValue :: st) b ->
  exists l v r, b = v ++ 93 :: r /\ elems l v /\ depth_ok (S (depth_elems l)) st /\
    acc stateEndValue st r.

Definition reads_members (st : list pstate) (b : list Z) : Prop :=
  depth_ok 1 st -> acc stateBeginString (parseObjectKey :: st) b ->
  exists l v r, b = v ++ 125 :: r /\ members l v /\ depth_ok (S (depth_members l)) st /\
    acc stateEndValue st r.

Lemma depth_ok_push d p st : depth_ok d (p :: st) <-> depth_ok (S d) st.
Proof. unfold depth_ok. cbn [length]. lia. Qed.

Lemma depth_ok_max a b st : depth_ok (S a) st -> depth_ok (S b) st -> depth_ok (S (Nat.max a b)) st.
Proof. unfold depth_ok. lia. Qed.

Ltac lens := repeat (progress (rewrite ?length_app in *; cbn [length app] in * )); lia.

Section Accepted.
Context (m : nat) (IH : forall b st, (length b < m)%nat ->
  reads_value st b /\ reads_elems st b /\ reads_members st b).

Lemma accepted_value b st : (length b < S m)%nat -> reads_value st b.
Proof.
  intros Hm Hd0 H. apply acc_ws in H as (w & c & b' & -> & Hw & Hc & H); [|exact I].
  rewrite length_app in Hm. cbn [length] in Hm. destruct (IH b' st) as (_ & He & Hmem); [lia|].
  apply acc_begin in H as [(v & r & -> & Hv & Hr)|[(-> & Hd & H)|(-> & Hd & H)]]; [| | |exact Hc].
  - exists w, (TLit v), v, r. repeat split; auto. now constructor.
  - apply acc_array_empty in H as [(w' & r & -> & Hw' & Hr)|H].
    + exists w, (TArr []), (91 :: w' ++ [93]), r. cbn [app]. rewrite <- app_assoc. repeat split; auto.
      now constructor.
    + destruct (He Hd H) as (l & v & r & -> & Hl & Hd' & Hr).
      exists w, (TArr l), (91 :: v ++ [93]), r. cbn [app]. rewrite <- app_assoc. repeat split; auto.
      now constructor.
  - apply acc_object_empty in H as [(w' & r & -> & Hw' & Hr)|H].
    + exists w, (TObj []), (123 :: w' ++ [125]), r. cbn [app]. rewrite <- app_assoc. repeat split; auto.
      now constructor.
    + destruct (Hmem Hd H) as (l & v & r & -> & Hl & Hd' & Hr).
      exists w, (TObj l), (123 :: v ++ [125]), r. cbn [app]. rewrite <- app_assoc. repeat split; auto.
      now constructor.
Qed.

Lemma accepted_elems b st : (length b < S m)%nat -> reads_elems st b.
Proof.
  intros Hm Hd0 H.
  destruct (accepted_value b _ Hm (proj2 (depth_ok_push 0 _ st) Hd0) H)
    as (w1 & t & v & r & -> & Hw1 & Ht & Hd & Hr).
  apply depth_ok_push in Hd. destruct (spells_start t v Ht) as (c0 & v0 & Ev & _).
  apply acc_after in Hr as (w2 & c & r' & -> & Hw2 & [(-> & Hr)|(-> & Hr)]).
  - destruct (IH r' st) as (_ & He & _);
      [subst v; lens|].
    destruct (He Hd0 Hr) as (l & v' & r'' & -> & Hl & Hd' & Hr'').
    exists (t :: l), (w1 ++ v ++ w2 ++ 44 :: v'), r''. repeat split; auto.
    + rewrite <- !app_assoc. cbn [app]. now rewrite <- ?app_assoc.
    + now constructor.
    + now apply depth_ok_max.
  - exists [t], (w1 ++ v ++ w2), r'. repeat split; auto.
    + now rewrite <- !app_assoc.
    + now constructor.
    + cbn. now rewrite Nat.max_0_r.
Qed.

Lemma accepted_members b st : (length b < S m)%nat -> reads_members st b.
Proof.
  intros Hm Hd0 H. apply acc_ws in H as (w1 & c & b' & -> & Hw1 & Hc & H); [|exact I].
  step_back H; [congruence|]. replace c with 34 in * by lia.
  apply acc_quoted in H as (key & r & Eb & Hkey & Hr). rewrite Eb in *.
  destruct (string_lit_start _ Hkey) as [key' Ek].
  apply acc_after in Hr as (w2 & c2 & r2 & -> & Hw2 & -> & Hr).
  destruct (IH r2 (parseObjectValue :: st)) as (Hv & _).
  { subst key. lens. }
  destruct (Hv (proj2 (depth_ok_push 0 _ st) Hd0) Hr) as (w3 & t & v & r3 & -> & Hw3 & Ht & Hd & Hr3).
  apply depth_ok_push in Hd.
  apply acc_after in Hr3 as (w4 & c4 & r4 & -> & Hw4 & [(-> & Hr4)|(-> & Hr4)]).
  - destruct (IH r4 st) as (_ & _ & Hmem).
    { subst key. lens. }
    destruct (Hmem Hd0 Hr4) as (l & v' & r'' & -> & Hl & Hd' & Hr'').
    exists ((key, t) :: l), (w1 ++ key ++ w2 ++ 58 :: w3 ++ v ++ w4 ++ 44 :: v'), r''. repeat split; auto.
    + repeat (rewrite <- ?app_assoc; cbn [app]). reflexivity.
    + now constructor.
    + now apply depth_ok_max.
  - exists [(key, t)], (w1 ++ key ++ w2 ++ 58 :: w3 ++ v ++ w4), r4. repeat split; auto.
    + repeat (rewrite <- ?app_assoc; cbn [app]). reflexivity.
    + now constructor.
    + cbn. now rewrite Nat.max_0_r.
Qed.
End Accepted.

Lemma accepted_all m : forall b st, (length b < m)%nat ->
  reads_value st b /\ reads_elems st b /\ reads_members st b.
Proof.
  induction m as [|m IH]; intros b st Hm; [lia|].
  split; [now apply (accepted_value m)|].
  split; [now apply (accepted_elems m)|now apply (accepted_members m)].
Qed.

Lemma acc_rest b : acc stateEndValue [] b -> ws b.
Proof.
  induction b as [|c b IH]; intros H; [constructor|].
  apply acc_inv in H as (n & Hop & H); [|discriminate].
  unfold step, mk, do_EndValue, do_EndTop in Hop, H. cbn [sc_step parseState] in Hop, H.
  destruct (isSpace c) eqn:Hc; cbn [negb fst snd] in Hop, H.
  - apply ws_cons. split; [exact Hc|]. apply IH. now apply (acc_closed [] n).
  - exfalso. destruct b; discriminate H.
Qed.

Lemma json_accepts b : accepts newScanner b -> exists t, json_text t b /\ depth_ok (depth t) [].
Proof.
  intros H. destruct (accepted_all (S (length b)) b []) as (Hv & _); [lia|].
  destruct Hv as (w & t & v & r & -> & Hw & Ht & Hd & Hr).
  - unfold depth_ok, maxNestingDepth. cbn. lia.
  - now exists 0.
  - exists t. split; [|exact Hd]. constructor; auto. now apply acc_rest.
Qed.

Lemma checkValid_accepts b : checkValid b newScanner = None <-> accepts newScanner b.
Proof. reflexivity. Qed.

(** C26: the scanner accepts JSON.  [Valid] takes exactly the texts of the grammar of
    RFC 8259, one value between white space, whose arrays and objects are nested at
    most 10000 deep, whatever bytes the input holds. *)
Theorem valid_json (b : list Z) :
  Valid b = true <-> exists t, json_text t b /\ Z.of_nat (depth t) <= maxNestingDepth.
Proof.
  assert (Hd : forall t, depth_ok (depth t) [] <-> Z.of_nat (depth t) <= maxNestingDepth).
  { intros t. unfold depth_ok. cbn. lia. }
  transitivity (accepts newScanner b).
  - unfold Valid. rewrite <- checkValid_accepts. now destruct (checkValid b newScanner).
  - split.
    + intros (t & Ht & H)%json_accepts. exists t. now rewrite <- Hd.
    + intros (t & Ht & H). now apply (accepts_json t), Hd.
Qed.
