(* ===== verification/JsonEncode.v ===== *)
(** encoding/json, encode.go and indent.go: from Go values to JSON text.

    A Go value is taken with the type information reflection gives the encoder: the
    fields of a struct come flattened and in order, with their names and options.
    The text of a float64 is the interface [FloatText], which [Ftoa] implements; everything
    else is computed. *)
From Stdlib Require Import ZArith Lia String Ascii Bool List.
From S2P Require Import Prelude GoFloat Strconv Utf8 Itoa Scanner.
Import ListNotations.
Local Open Scope Z_scope.

(** [strconv.AppendFloat(nil, f, fmt, -1, 64)] for the formats ['f'] and ['e']; [None] is a
    panic, which [FloatTextLaws] excludes. *)
Class FloatText (F : Type) := { AppendFloat : F -> Z -> option (list Z) }.
Class FloatTextLaws (F : Type) {FT : FloatText F} :=
  { AppendFloat_returns : forall f fmt, AppendFloat f fmt <> None }.

(** * Values *)

(** A field of a struct, as [typeFields] describes it to the encoder. *)
Record field := mkField { f_name : string; f_omitEmpty : bool }.

(** [reflect.Value] of the kinds the service encodes and decodes.  A nil pointer keeps
    the zero value of its element type. *)
Inductive gval (F : Type) :=
| VBool (b : bool)
| VInt (z : Z)
| VFloat (x : F)
| VString (s : string)
| VPtr (elem : gval F) (v : option (gval F))
| VSlice (v : option (list (gval F)))
| VMap (v : option (list (string * gval F)))
| VStruct (name : string) (fields : list (field * gval F)).
Arguments VBool {F}.
Arguments VInt {F}.
Arguments VFloat {F}.
Arguments VString {F}.
Arguments VPtr {F}.
Arguments VSlice {F}.
Arguments VMap {F}.
Arguments VStruct {F}.

(** * Strings *)

(** The tables of tables.go, ASCII bytes that need no escape. *)
Definition safeSet (b : Z) : bool :=
  (32 <=? b) && (b <? RuneSelf) && negb (b =? 34) && negb (b =? 92).
Definition htmlSafeSet (b : Z) : bool :=
  safeSet b && negb (b =? 38) && negb (b =? 60) && negb (b =? 62).

Definition hex (d : Z) : Z := if d <? 10 then 48 + d else 87 + d.

(** The escape of an unsafe ASCII byte. *)
Definition escape_ascii (b : Z) : list Z :=
  if (b =? 92) || (b =? 34) then [92; b]
  else if b =? 8 then [92; 98]
  else if b =? 12 then [92; 102]
  else if b =? 10 then [92; 110]
  else if b =? 13 then [92; 114]
  else if b =? 9 then [92; 116]
  else [92; 117; 48; 48; hex (Z.shiftr b 4); hex (Z.land b 0xF)].

Definition UTFMax : nat := 4.

(** The loop of [appendString]; a run of bytes kept as they are goes byte by byte. *)
Fixpoint string_loop (fuel : nat) (src : list Z) (escapeHTML : bool) : list Z :=
  match fuel with
  | O => []
  | S fuel =>
      match src with
      | [] => []
      | b :: src' =>
          if b <? RuneSelf then
            if htmlSafeSet b || (negb escapeHTML && safeSet b) then
              b :: string_loop fuel src' escapeHTML
            else (escape_ascii b ++ string_loop fuel src' escapeHTML)%list
          else
            let '(c, size) := DecodeRune (firstn UTFMax src) in
            let rest := skipn (Z.to_nat size) src in
            if (c =? RuneError) && (size =? 1) then
              ([92; 117; 102; 102; 102; 100] ++ string_loop fuel rest escapeHTML)%list
            else if (c =? 0x2028) || (c =? 0x2029) then
              ([92; 117; 50; 48; 50; hex (Z.land c 0xF)] ++ string_loop fuel rest escapeHTML)%list
            else (firstn (Z.to_nat size) src ++ string_loop fuel rest escapeHTML)%list
      end
  end.

Definition appendString (dst src : list Z) (escapeHTML : bool) : list Z :=
  (dst ++ 34 :: string_loop (length src) src escapeHTML ++ [34])%list.

(** [appendHTMLEscape] on a field name. *)
Fixpoint appendHTMLEscape (src : list Z) : list Z :=
  match src with
  | [] => []
  | c :: src' =>
      if (c =? 60) || (c =? 62) || (c =? 38) then
        [92; 117; 48; 48; hex (Z.shiftr c 4); hex (Z.land c 0xF)] ++ appendHTMLEscape src'
      else
        match src' with
        | c1 :: c2 :: src'' =>
            if (c =? 0xE2) && (c1 =? 0x80) && (Z.ldiff c2 1 =? 0xA8) then
              [92; 117; 50; 48; 50; hex (Z.land c2 0xF)] ++ appendHTMLEscape src''
            else c :: appendHTMLEscape src'
        | _ => c :: appendHTMLEscape src'
        end
  end%list.

(** * Encoding *)

Section Encode.
Context {F : Type} {GF : GoFloat F} {FT : FloatText F}.
Implicit Types (v : gval F).

(** [isEmptyValue], the test of [omitempty]. *)
Definition isEmptyValue v : bool :=
  match v with
  | VMap (Some l) => match l with [] => true | _ => false end
  | VSlice (Some l) => match l with [] => true | _ => false end
  | VMap None | VSlice None => true
  | VString s => String.eqb s ""
  | VBool b => negb b
  | VInt z => z =? 0
  | VFloat x => feqb x (of_const 0%const)
  | VPtr _ p => match p with None => true | Some _ => false end
  | VStruct _ _ => false
  end.

(** [boolEncoder], [intEncoder]; no field of the service is [,string]-quoted. *)
Definition boolEncoder (b : bool) : list Z := bytes (if b then "true" else "false").
Definition intEncoder (z : Z) : list Z := AppendInt [] z 10.

(** [UnsupportedValueError] *)
Definition unsupported_value (x : F) : error F :=
  Errorf [Lit "json: unsupported value: "; FmtG x].

(** The clean-up of an exponent: e-09 to e-9. *)
Definition trim_exponent (b : list Z) : list Z :=
  let n := len b in
  if (4 <=? n) && (at_ b (n - 4) =? 101) && (at_ b (n - 3) =? 45) && (at_ b (n - 2) =? 48)
  then (slice b 0 (n - 2) ++ [at_ b (n - 1)])%list
  else b.

Definition floatEncoder (f : F) : result F (list Z) :=
  if IsInf0 f || IsNaN f then Err (unsupported_value f)
  else
    let abs := Abs f in
    let fmt :=
      if negb (feqb abs (of_const 0%const))
         && (fltb abs (of_const (1 / 1000000)%const)
             || fleb (of_const 1000000000000000000000%const) abs)
      then 101 else 102 in
    match AppendFloat f fmt with
    | Some b => Ok (if fmt =? 101 then trim_exponent b else b)
    | None => Panic
    end.

Definition stringEncoder (escapeHTML : bool) (s : string) : list Z :=
  appendString [] (bytes s) escapeHTML.

(** [nameEscHTML] or [nameNonEsc] of a field. *)
Definition field_label (escapeHTML : bool) (f : field) : list Z :=
  let name := bytes (f_name f) in
  ([34] ++ (if escapeHTML then appendHTMLEscape name else name) ++ [34; 58])%list.

(** [slices.SortFunc] of the keys of a map, which are distinct. *)
Fixpoint insert_key {A} (kv : string * A) (l : list (string * A)) : list (string * A) :=
  match l with
  | [] => [kv]
  | kv' :: l' => if String.leb (fst kv) (fst kv') then kv :: l else kv' :: insert_key kv l'
  end.
Definition sort_keys {A} (l : list (string * A)) : list (string * A) := fold_right insert_key [] l.

(** [reflectValue]: the bytes [e] takes, or the error it is aborted with. *)
Fixpoint reflectValue (escapeHTML : bool) v : result F (list Z) :=
  match v with
  | VBool b => Ok (boolEncoder b)
  | VInt z => Ok (intEncoder z)
  | VFloat x => floatEncoder x
  | VString s => Ok (stringEncoder escapeHTML s)
  | VPtr _ None | VSlice None | VMap None => Ok (bytes "null")
  | VPtr _ (Some v) => reflectValue escapeHTML v
  | VSlice (Some l) =>
      let fix elems (first : bool) (l : list (gval F)) : result F (list Z) :=
        match l with
        | [] => Ok [93]
        | v :: l' =>
            bind (reflectValue escapeHTML v) (fun b =>
            bind (elems false l') (fun rest =>
            Ok ((if first then [] else [44]) ++ b ++ rest)%list))
        end in
      bind (elems true l) (fun b => Ok (91 :: b))
  | VMap (Some l) =>
      let fix encoded (l : list (string * gval F)) : result F (list (string * list Z)) :=
        match l with
        | [] => Ok []
        | (k, v) :: l' =>
            bind (reflectValue escapeHTML v) (fun b =>
            bind (encoded l') (fun rest => Ok ((k, b) :: rest)))
        end in
      let fix entries (first : bool) (l : list (string * list Z)) : list Z :=
        match l with
        | [] => [125]
        | (k, b) :: l' =>
            ((if first then [] else [44]) ++ stringEncoder escapeHTML k ++ [58] ++ b
             ++ entries false l')%list
        end in
      bind (encoded l) (fun l => Ok (123 :: entries true (sort_keys l)))
  | VStruct _ fields =>
      let fix encode_fields (next : Z) (fs : list (field * gval F)) : result F (list Z) :=
        match fs with
        | [] => Ok (if next =? 123 then [123; 125] else [125])
        | (f, fv) :: fs' =>
            if f_omitEmpty f && isEmptyValue fv then encode_fields next fs'
            else
              bind (reflectValue escapeHTML fv) (fun b =>
              bind (encode_fields 44 fs') (fun rest =>
              Ok (next :: field_label escapeHTML f ++ b ++ rest)%list))
        end in
      encode_fields 123 fields
  end.

Definition Marshal v : result F (list Z) := reflectValue true v.

(** [Encoder.Encode]: what is written to the stream. *)
Definition Encoder_Encode v : result F (list Z) :=
  bind (reflectValue true v) (fun b => Ok (b ++ [10])%list).
End Encode.

(** * Indentation *)

Fixpoint repeat_text (n : nat) (indent : list Z) : list Z :=
  match n with O => [] | S n => (indent ++ repeat_text n indent)%list end.

Definition appendNewline (dst prefix indent : list Z) (depth : Z) : list Z :=
  (dst ++ [10] ++ prefix ++ repeat_text (Z.to_nat depth) indent)%list.

(** The loop of [appendIndent]. *)
Fixpoint indent_loop (src : list Z) (prefix indent : list Z) (scan : scanner)
    (needIndent : bool) (depth : Z) (dst : list Z) : list Z * scanner :=
  match src with
  | [] => (dst, scan)
  | c :: src' =>
      let '(scan, v) := step (count scan) c in
      match v with
      | scanSkipSpace => indent_loop src' prefix indent scan needIndent depth dst
      | scanError => (dst, scan)
      | _ =>
          let open_ := needIndent && negb (opcode_eqb v scanEndObject)
                       && negb (opcode_eqb v scanEndArray) in
          let needIndent := if open_ then false else needIndent in
          let depth := if open_ then depth + 1 else depth in
          let dst := if open_ then appendNewline dst prefix indent depth else dst in
          if opcode_eqb v scanContinue then
            indent_loop src' prefix indent scan needIndent depth (dst ++ [c])%list
          else if (c =? 123) || (c =? 91) then
            indent_loop src' prefix indent scan true depth (dst ++ [c])%list
          else if c =? 44 then
            indent_loop src' prefix indent scan needIndent depth
              (appendNewline (dst ++ [c])%list prefix indent depth)
          else if c =? 58 then
            indent_loop src' prefix indent scan needIndent depth (dst ++ [c; 32])%list
          else if (c =? 125) || (c =? 93) then
            let depth' := if needIndent then depth else depth - 1 in
            let dst := if needIndent then dst else appendNewline dst prefix indent depth' in
            indent_loop src' prefix indent scan false depth' (dst ++ [c])%list
          else indent_loop src' prefix indent scan needIndent depth (dst ++ [c])%list
      end
  end.

(** [appendIndent] onto an empty buffer: the text, or the scanner's error. *)
Definition appendIndent (src prefix indent : list Z) : list Z + option SyntaxError :=
  let '(dst, scan) := indent_loop src prefix indent newScanner false 0 [] in
  let '(scan, op) := eof scan in
  if opcode_eqb op scanError then inr (err scan) else inl dst.

Definition syntax_error {F} (e : option SyntaxError) : error F :=
  match e with Some e => ErrNew (se_msg e) | None => ErrNew "" end.

Definition MarshalIndent {F} {_ : GoFloat F} {_ : FloatText F} (v : gval F)
    (prefix indent : string) : result F (list Z) :=
  bind (Marshal v) (fun b =>
    match appendIndent b (bytes prefix) (bytes indent) with
    | inl b2 => Ok b2
    | inr e => Err (syntax_error e)
    end).
