(* ===== verification/Ftoa.v ===== *)
(** strconv/ftoa.go and ftoaryu.go: printing a float64. *)
From Stdlib Require Import ZArith Lia String Ascii Bool List SpecFloat.
From S2P Require Import Prelude GoFloat Float64 Strconv Utf8 Itoa PowTable Decimal Atof JsonEncode.
Import ListNotations.
Local Open Scope Z_scope.

(** ** Digits in a buffer *)

(** [decimalSlice]: the buffer from the first digit on, the count of digits and the
    place of the point. *)
Record decimalSlice := mkSlice { ds_d : list Z; ds_nd : Z; ds_dp : Z }.

(** [d[i] = v]; every index of the functions below is inside the buffer. *)
Definition put (d : list Z) (i v : Z) : list Z :=
  firstn (Z.to_nat i) d ++ v :: skipn (S (Z.to_nat i)) d.

(** [var buf [32]byte] *)
Definition new_buf : list Z := repeat 0 32.

(** ** Ryu: shortest digits *)

Definition u32 (z : Z) : Z := Z.land z (2 ^ 32 - 1).

Definition mulByLog2Log10 (x : Z) : Z := Z.shiftr (x * 78913) 18.
Definition mulByLog10Log2 (x : Z) : Z := Z.shiftr (x * 108853) 15.

(** [bits.TrailingZeros64] *)
Fixpoint trailing_zeros (p : positive) : Z :=
  match p with
  | xO p => 1 + trailing_zeros p
  | _ => 0
  end.
Definition TrailingZeros64 (x : Z) : Z := match x with Zpos p => trailing_zeros p | _ => 64 end.

Definition computeBounds (mant exp : Z) (flt : floatInfo) : Z * Z * Z * Z :=
  if negb (mant =? Z.shiftl 1 (mantbits flt)) || (exp =? flt_bias flt + 1 - mantbits flt) then
    (u64 (2 * mant - 1), u64 (2 * mant), u64 (2 * mant + 1), exp - 1)
  else (u64 (4 * mant - 1), u64 (4 * mant), u64 (4 * mant + 2), exp - 2).

(** The product of a 55-bit number and a power of ten, its exponent, and whether it is
    exact; it panics outside the table of the powers. *)
Definition mult128bitPow10 (m e2 q : Z) : option (Z * Z * bool) :=
  if q =? 0 then Some (u64 (Z.shiftl m 8), e2 - 8, true)
  else if (q <? detailedPowersOfTenMinExp10) || (detailedPowersOfTenMaxExp10 <? q) then None
  else
    let '(pow0, pow1) := pow10_row q in
    let pow0 := if q <? 0 then u64 (pow0 + 1) else pow0 in
    let e2 := e2 + mulByLog10Log2 q - 127 + 119 in
    let '(l1, l0) := Mul64 m pow0 in
    let '(h1, h0) := Mul64 m pow1 in
    let '(mid, carry) := Add64 l1 h0 0 in
    let h1 := u64 (h1 + carry) in
    Some (Z.lor (u64 (Z.shiftl h1 9)) (Z.shiftr mid 55), e2, (u64 (Z.shiftl mid 9) =? 0) && (l0 =? 0)).

Fixpoint divisible_loop (k : nat) (m : Z) : bool :=
  match k with
  | O => true
  | S k => if negb (m mod 5 =? 0) then false else divisible_loop k (m / 5)
  end.

Definition divisibleByPower5 (m k : Z) : bool :=
  if m =? 0 then true else divisible_loop (Z.to_nat k) m.

Definition divmod1e9 (x : Z) : Z * Z := (u32 (x / 1000000000), u32 (x mod 1000000000)).

(** The loop of [ryuDigits32]: bounds, centre, digits trimmed, the last trimmed digit and
    the rounding marks.  A turn divides a uint32 by ten. *)
Record ryu_state := mkRyu {
  ry_lower : Z; ry_central : Z; ry_upper : Z;
  ry_trimmed : Z; ry_cNextDigit : Z; ry_c0 : bool; ry_cup : bool
}.

Fixpoint trim_loop (fuel : nat) (st : ryu_state) : ryu_state :=
  match fuel with
  | O => st
  | S fuel =>
      let '(mkRyu lower central upper trimmed cNextDigit c0 cup) := st in
      if 0 <? upper then
        let l := u32 (lower + 9) / 10 in
        let c := central / 10 in
        let cdigit := central mod 10 in
        let u := upper / 10 in
        if u <? l then st
        else
          let '(c, cdigit, cup) :=
            if (l =? u32 (c + 1)) && (c <? u) then (c + 1, 0, false) else (c, cdigit, cup) in
          trim_loop fuel (mkRyu l c u (trimmed + 1) cdigit (c0 && (cNextDigit =? 0)) cup)
      else st
  end.

(** [for n > d.nd { ...; n -= 2; ... }], and the digit that may be left. *)
Fixpoint fill_pairs (fuel : nat) (d : list Z) (nd v n : Z) : list Z :=
  match fuel with
  | O => d
  | S fuel =>
      if nd <? n then
        let v1 := v / 100 in
        let v2 := v mod 100 in
        fill_pairs fuel (put (put d n (smallsString (2 * v2 + 1))) (n - 1) (smallsString (2 * v2))) nd v1 (n - 2)
      else if n =? nd then put d n (byte_ (v + 48))
      else d
  end.

Definition ryuDigits32 (d : decimalSlice) (lower central upper : Z) (c0 cup : bool) (endindex : Z)
  : decimalSlice :=
  if upper =? 0 then mkSlice (ds_d d) (ds_nd d) (endindex + 1)
  else
    let '(mkRyu _ central upper trimmed cNextDigit c0 cup) :=
      trim_loop 12 (mkRyu lower central upper 0 0 c0 cup) in
    let cup :=
      if 0 <? trimmed then
        (5 <? cNextDigit) || ((cNextDigit =? 5) && negb c0) ||
        ((cNextDigit =? 5) && c0 && (Z.land central 1 =? 1))
      else cup in
    let central := if (central <? upper) && cup then u32 (central + 1) else central in
    let endindex := endindex - trimmed in
    let buf := fill_pairs 12 (ds_d d) (ds_nd d) central endindex in
    mkSlice buf (endindex + 1) (endindex + 1 + trimmed).

(** The high digits, from place [n - 1] down. *)
Fixpoint high_digits (fuel : nat) (d : list Z) (v n : Z) : list Z * Z :=
  match fuel with
  | O => (d, n)
  | S fuel =>
      if 0 <? v then high_digits fuel (put d (n - 1) (byte_ (v mod 10 + 48))) (v / 10) (n - 1) else (d, n)
  end.

(** The last two loops: zeros at the end, zeros in front. *)
Fixpoint trim_end (fuel : nat) (d : list Z) (nd : Z) : Z :=
  match fuel with
  | O => nd
  | S fuel => if (0 <? nd) && (at_ d (nd - 1) =? 48) then trim_end fuel d (nd - 1) else nd
  end.

Fixpoint trim_front (d : list Z) (nd dp : Z) : decimalSlice :=
  match d with
  | c :: d' => if (0 <? nd) && (c =? 48) then trim_front d' (nd - 1) (dp - 1) else mkSlice d nd dp
  | [] => mkSlice d nd dp
  end.

Definition ryuDigits (d : decimalSlice) (lower central upper : Z) (c0 cup : bool) : decimalSlice :=
  let '(lhi, llo) := divmod1e9 lower in
  let '(chi, clo) := divmod1e9 central in
  let '(uhi, ulo) := divmod1e9 upper in
  let d :=
    if uhi =? 0 then ryuDigits32 d llo clo ulo c0 cup 8
    else if lhi <? uhi then
      let lhi := if llo =? 0 then lhi else u32 (lhi + 1) in
      let c0 := c0 && (clo =? 0) in
      let cup := (500000000 <? clo) || ((clo =? 500000000) && cup) in
      let d := ryuDigits32 d lhi chi uhi c0 cup 8 in
      mkSlice (ds_d d) (ds_nd d) (ds_dp d + 9)
    else
      let '(buf, n) := high_digits 10 (ds_d d) chi 9 in
      let d := mkSlice (skipn (Z.to_nat n) buf) (9 - n) (ds_dp d) in
      ryuDigits32 d llo clo ulo c0 cup (ds_nd d + 8) in
  trim_front (ds_d d) (trim_end 32 (ds_d d) (ds_nd d)) (ds_dp d).

(** [ryuFtoaShortest] for a float64; it panics where a product has too few bits. *)
Definition ryuFtoaShortest (mant exp : Z) (flt : floatInfo) : option decimalSlice :=
  if mant =? 0 then Some (mkSlice new_buf 0 0)
  else if (exp <=? 0) && (- exp <=? TrailingZeros64 mant) then
    let mant := Z.shiftr mant (- exp) in
    Some (ryuDigits (mkSlice new_buf 0 0) mant mant mant true false)
  else
    let '(ml, mc, mu, e2) := computeBounds mant exp flt in
    if e2 =? 0 then Some (ryuDigits (mkSlice new_buf 0 0) ml mc mu true false)
    else
      let q := mulByLog2Log10 (- e2) + 1 in
      match mult128bitPow10 ml e2 q, mult128bitPow10 mc e2 q, mult128bitPow10 mu e2 q with
      | Some (dl, _, dl0), Some (dc, _, dc0), Some (du, e2, du0) =>
      if 0 <=? e2 then None else
      let '(dl0, dc0, du0) := if 55 <? q then (false, false, false) else (dl0, dc0, du0) in
      let '(dl0, dc0, du0) :=
        if (q <? 0) && (-24 <=? q) then
          (dl0 || divisibleByPower5 ml (- q), dc0 || divisibleByPower5 mc (- q),
           du0 || divisibleByPower5 mu (- q))
        else (dl0, dc0, du0) in
      let extra := - e2 in
      let extraMask := u64 (Z.shiftl 1 extra - 1) in
      let half := u64 (Z.shiftl 1 (extra - 1)) in
      let '(dl, fracl) := (Z.shiftr dl extra, Z.land dl extraMask) in
      let '(dc, fracc) := (Z.shiftr dc extra, Z.land dc extraMask) in
      let '(du, fracu) := (Z.shiftr du extra, Z.land du extraMask) in
      let uok := if du0 && (fracu =? 0) then Z.land mant 1 =? 0 else negb du0 || (0 <? fracu) in
      let du := if uok then du else u64 (du - 1) in
      let cup :=
        if dc0 then (half <? fracc) || ((fracc =? half) && (Z.land dc 1 =? 1))
        else Z.shiftr fracc (extra - 1) =? 1 in
      let lok := dl0 && (fracl =? 0) && (Z.land mant 1 =? 0) in
      let dl := if lok then dl else u64 (dl + 1) in
      let c0 := dc0 && (fracc =? 0) in
      let d := ryuDigits (mkSlice new_buf 0 0) dl dc du c0 cup in
      Some (mkSlice (ds_d d) (ds_nd d) (ds_dp d - q))
      | _, _, _ => None
      end.

(** ** Formats *)

(** [%e]: -d.ddddde±dd *)
Definition fmtE (neg : bool) (d : decimalSlice) (prec fmt : Z) : list Z :=
  let ch := if ds_nd d =? 0 then 48 else at_ (ds_d d) 0 in
  let m := Z.min (ds_nd d) (prec + 1) in
  let more := if 1 <? m then slice (ds_d d) 1 m else [] in
  let exp := if ds_nd d =? 0 then 0 else ds_dp d - 1 in
  let sign := if exp <? 0 then 45 else 43 in
  let exp := Z.abs exp in
  (if neg then [45] else []) ++ [ch] ++
  (if 0 <? prec then 46 :: more ++ repeat 48 (Z.to_nat (prec + 1 - Z.max m 1)) else []) ++
  [fmt; sign] ++
  (if exp <? 10 then [48; byte_ exp + 48]
   else if exp <? 100 then [byte_ (exp / 10) + 48; byte_ (exp mod 10) + 48]
   else [byte_ (exp / 100) + 48; byte_ (exp / 10) mod 10 + 48; byte_ (exp mod 10) + 48]).

(** [%f]: -ddddddd.ddddd *)
Definition fmtF (neg : bool) (d : decimalSlice) (prec : Z) : list Z :=
  (if neg then [45] else []) ++
  (if 0 <? ds_dp d then
     let m := Z.min (ds_nd d) (ds_dp d) in
     slice (ds_d d) 0 m ++ repeat 48 (Z.to_nat (ds_dp d - m))
   else [48]) ++
  (if 0 <? prec then
     46 :: map (fun i => let j := ds_dp d + i in
                         if (0 <=? j) && (j <? ds_nd d) then at_ (ds_d d) j else 48) (range prec)
   else []).

(** [formatDigits]; an unknown format is printed after a percent sign. *)
Definition formatDigits (shortest neg : bool) (digs : decimalSlice) (prec fmt : Z) : list Z :=
  if (fmt =? 101) || (fmt =? 69) then fmtE neg digs prec fmt
  else if fmt =? 102 then fmtF neg digs prec
  else if (fmt =? 103) || (fmt =? 71) then
    let eprec := if (ds_nd digs <? prec) && (ds_dp digs <=? ds_nd digs) then ds_nd digs else prec in
    let eprec := if shortest then 6 else eprec in
    let exp := ds_dp digs - 1 in
    if (exp <? -4) || (eprec <=? exp) then
      let prec := if ds_nd digs <? prec then ds_nd digs else prec in
      fmtE neg digs (prec - 1) (byte_ (fmt + 101 - 103))
    else
      let prec := if ds_dp digs <? prec then ds_nd digs else prec in
      fmtF neg digs (Z.max (prec - ds_dp digs) 0)
  else [37; fmt].

(** The sign, the exponent and the mantissa of a float64, and the text of one that is not
    finite. *)
Definition float_parts (val : float64) : (bool * Z * Z) + list Z :=
  let bits := Float64bits val in
  let flt := float64info in
  let neg := negb (Z.shiftr bits (expbits flt + mantbits flt) =? 0) in
  let exp := Z.land (Z.shiftr bits (mantbits flt)) (Z.shiftl 1 (expbits flt) - 1) in
  let mant := Z.land bits (Z.shiftl 1 (mantbits flt) - 1) in
  if exp =? Z.shiftl 1 (expbits flt) - 1 then
    inr (bytes (if negb (mant =? 0) then "NaN" else if neg then "-Inf" else "+Inf"))
  else
    let '(exp, mant) :=
      if exp =? 0 then (exp + 1, mant) else (exp, Z.lor mant (Z.shiftl 1 (mantbits flt))) in
    inl (neg, exp + flt_bias flt, mant).

(** [genericFtoa(dst, val, fmt, -1, 64)] for the formats of [formatDigits]; [None] when it
    panics. *)
Definition shortestFtoa (val : float64) (fmt : Z) : option (list Z) :=
  match float_parts val with
  | inr s => Some s
  | inl (neg, exp, mant) =>
      match ryuFtoaShortest mant (exp - mantbits float64info) float64info with
      | None => None
      | Some digs =>
      let prec :=
        if (fmt =? 101) || (fmt =? 69) then Z.max (ds_nd digs - 1) 0
        else if fmt =? 102 then Z.max (ds_nd digs - ds_dp digs) 0
        else if (fmt =? 103) || (fmt =? 71) then ds_nd digs
        else -1 in
      Some (formatDigits true neg digs prec fmt)
      end
  end.

#[export] Instance FloatText64 : FloatText float64 := {| AppendFloat := shortestFtoa |}.
