(* ===== verification/Convergents.v ===== *)
(** How close a multiple of a power of ten comes to a multiple of a power of two: the
    denominators of two consecutive convergents per row of [PowTable], and the gap they
    prove.  The printing of [Ftoa] relies on it: the product of a mantissa and the 128 bits
    of a power has the integer part of the product with the power itself. *)
From Stdlib Require Import ZArith Lia Bool List.
From S2P Require Import Prelude PowTable.
Import ListNotations.
Local Open Scope Z_scope.

(** * Best approximations *)

(** Of two neighbours in the continued fraction of [a / M], no smaller denominator than
    the second comes closer than the first. *)
Lemma best_approximation a M p1 q1 p2 q2 m n :
  0 < q1 -> 0 < q2 -> Z.abs (p1 * q2 - p2 * q1) = 1 -> (q1 * a - p1 * M) * (q2 * a - p2 * M) <= 0 ->
  0 < m < q2 -> Z.abs (q1 * a - p1 * M) <= Z.abs (m * a - n * M).
Proof.
  intros H1 H2 Hdet Hopp Hm. set (D1 := q1 * a - p1 * M) in *. set (D2 := q2 * a - p2 * M) in *.
  set (s := p1 * q2 - p2 * q1) in *.
  assert (Es : s * s = 1) by nia.
  set (x := s * (n * q2 - m * p2)). set (y := s * (m * p1 - n * q1)).
  assert (Em : x * q1 + y * q2 = m).
  { transitivity (s * s * m); [unfold x, y, s; ring|rewrite Es; ring]. }
  assert (ED : m * a - n * M = x * D1 + y * D2).
  { transitivity (s * s * (m * a - n * M)); [rewrite Es; ring|unfold x, y, D1, D2, s; ring]. }
  rewrite ED. clearbody x y D1 D2. clear s Es Hdet ED.
  assert (Hx : x <> 0).
  { intros ->. assert (Hy : 0 < y) by nia. pose proof (Z.mul_le_mono_pos_r 1 y q2 H2). lia. }
  assert (Hxy : x * y <= 0).
  { destruct (Z.le_gt_cases x 0) as [|Hx0]; destruct (Z.le_gt_cases y 0) as [|Hy0]; nia. }
  assert (Hsame : 0 <= (x * D1) * (y * D2)).
  { replace (x * D1 * (y * D2)) with ((- (x * y)) * (- (D1 * D2))) by ring. apply Z.mul_nonneg_nonneg; lia. }
  assert (Hge : Z.abs D1 <= Z.abs (x * D1)).
  { rewrite Z.abs_mul. pose proof (Z.mul_le_mono_nonneg_r 1 (Z.abs x) (Z.abs D1)). lia. }
  set (X := x * D1) in *. set (Y := y * D2) in *. clearbody X Y.
  destruct (Z.le_gt_cases X 0); destruct (Z.le_gt_cases Y 0); nia.
Qed.

(** * The rows *)

(** The multiplier of the printing: the 128 bits of the power, rounded up where it is
    below one. *)
Definition ryu_pow (q : Z) : Z := pow10_bits q + Z.b2z (q <? 0).

(** The denominators for the exponents from -291 to -25, and from 56 to 324. *)
Definition low_convergents : list (Z * Z) :=
  [
   (0x42373031415186, 0x6f4577b0566b335); (0x50f458aa675c9d, 0xb7e8681a9de97b);
   (0x46657c129700d, 0x1670420b2e8f2dc); (0x3e1fabe139d3a9, 0xdd91c1acf8fb63);
   (0x6c1795da7e422b, 0xe2f457a4f57270); (0x19ed2f8bb00613, 0x10c098acc5c907c);
   (0x19ed2f8bb00613, 0x1b73af118741cce); (0x7c24a5fba74177, 0x10cb933c435ac19);
   (0x7c24a5fba74177, 0xd6fa8fd02af014); (0x48ab2176cfbee4, 0x17774c6873a10fd);
   (0x599ffb32cec32d, 0x15f8923d3e0f560a); (0x47b32f5bd89c24, 0x160a7f0915057d13);
   (0x13f5d7a39bf73e, 0x114d1d19d9474f1); (0x475509a2674395, 0x114d1d19d9474f1);
   (0x1e3c14d6916ce9, 0xc29fe805e8c799); (0x60c042ae9e295, 0x62d2f50daedc71c);
   (0x60c042ae9e295, 0x4f0f2a7158b05b0); (0x183010aba78a54, 0xf4861b950790b9);
   (0x61cf3e3b9ca04a, 0xa80b433da54c0f9); (0x4e3f64fc7d4d08, 0xa94440d1974143b);
   (0x3270036bb875ae, 0x8346c8431e5f39); (0x50d6c4d765e98b, 0x8134152d977b9d);
   (0x5a83081bd639f5, 0x8134152d977b9d); (0x29513ca9d1ffc9, 0xafc5b1078af7a8);
   (0x5b0978070cc662, 0x802735572a62c3); (0x48d46005a3d1e8, 0x802735572a62c3);
   (0x5b7533356d653d, 0x191f72ab99c6956); (0x785d7e52260f25, 0xb6ea666adaca7a);
   (0xc8294d1bdbf11, 0x26b125e4bbf724f); (0xc8294d1bdbf11, 0x1ef41e50965f50c);
   (0x608ca9a4bb3dff, 0x579bb9a49346036); (0x608ca9a4bb3dff, 0x8e9646dea384c56);
   (0x608ca9a4bb3dff, 0x6d3dfd037973eac); (0x3dec5a0a357fe5, 0xc1195349767bfe);
   (0x3dec5a0a357fe5, 0x11c30613e41c66e); (0x4538f241b17477, 0x256de4f847989a6e);
   (0x22a701ac38ffb, 0x884774689f58f3); (0x538005edc8dbc1, 0x3ac8f183f858fee);
   (0x42ccd18b071634, 0x3dea8b567cae095); (0x18739d11afbffd, 0x123a6e33dcc18cd);
   (0x351628eabbe38d, 0x96e49d317ae381); (0x637ad3c9b0c162, 0x9890fcb46ca4ef);
   (0x4f95763af3cde8, 0x9890fcb46ca4ef); (0x40fcc1bc42094d, 0xb5c265b1d02e25);
   (0x40fcc1bc42094d, 0x9e67ab4d808d2d); (0x57bb48003f3829, 0x98b809bc814176);
   (0x76467d25f2aba7, 0xf459a92d9b9bf0); (0x5e9eca84c222ec, 0xdcb1f68c6b1335);
   (0x4bb23b9d681bf0, 0xb6d8d8bdb7053d); (0x791d2c2f0cf980, 0xd52023c97a439d);
   (0x60e42358d72e00, 0xed592c9fb00f1d); (0xaaa3f7bc44bc7, 0x138e8d100fea58f);
   (0x294077a243eff5, 0xd11362c4ee2e17); (0x32a0fb0028ec12, 0x9e7267c4c54205);
   (0x2880c8cced89a8, 0xa89299f800a46f); (0x2f4aa601daf26d, 0x86dbae6000838c);
   (0x4774e10607b80b, 0x18c84f773f29e1a); (0x392a4d9e6c933c, 0x1b764b1aac40c87);
   (0x1347c6640b51d3, 0x11e8089a5d44269); (0x6708599fe7b645, 0x2b751334f9b8cea);
   (0x1ef891f312840b, 0xaf18214cbce87f); (0x650238de914771, 0x8c134dd6fd86cc);
   (0x286749f2a082fa, 0x2954f703a8762a1); (0x6c051d46edf857, 0x2bdb6ba2d27e59b);
   (0x769284214a6c03, 0xb78cfdbf00c475); (0x769284214a6c03, 0x125ae62cb346d88);
   (0x1198fd0024033, 0xeaf1e8a29057a0); (0x5f13ecddd59673, 0xbbf4ba1ba6ac80);
   (0x11b21c65f4d10d, 0x11b08a6f97c42f3); (0xe2816b7f70da4, 0x1221cb25577c9c5);
   (0x6e61d7d899e4da, 0x13044c90d6ed769); (0x158098637f1284, 0xc1e2f134d4f28f);
   (0x70080bd8998dd5, 0xd7638998540513); (0x12efc987c579bb, 0x105efaac0be0f20);
   (0x3f1d2288ccc70b, 0x8adc48a7e2adf7); (0x350482beb27269, 0x253d3a1c7f40a64);
   (0x6a09057d64e4d2, 0xb950245e1591bf); (0x5f87fa3c98cd6a, 0xb950245e1591bf);
   (0x275cc0ea75ed95, 0xb950245e1591bf); (0x7df59c87dfc51, 0x3147cac2b4a30e2);
   (0x7df59c87dfc51, 0x4ed9446aba9e7d0); (0xfbeb390fbf8a2, 0x1f3e87fff91f889);
   (0x5daf04f91ece41, 0x32c72f60ce65490); (0x3886498dc94ac5, 0xe6fb4a13b9b7c1);
   (0x3886498dc94ac5, 0xb8c9080fc7c634); (0x553811ef782b09, 0x7c3de1dafe64850);
   (0x1c8586f0912f1d, 0x270b5819a9efa0e); (0x390b0de1225e3a, 0xdd5cace6e19b4f);
   (0x2ae906db71f2be, 0xb273a60b6fa891); (0x2254057c5b2898, 0xa9dea4ac58de6b);
   (0x36ecd593c50dc0, 0x8e6839e276578b); (0x4eeed2fc17c21e, 0x2b6b46365efb0e9b3);
   (0x3f257596796818, 0x2a1ccbcb85effb3c1); (0x294eb3e1b974ba, 0xe7ee7c6908e603);
   (0x210bc31afac3c8, 0xdfab8ba24a3511); (0x1a6fcf48c89ca0, 0xece37346ae8361);
   (0x49d07ff0851d4d, 0x1c4d6052e6922b5); (0x49d07ff0851d4d, 0x12f379dcb1cd120);
   (0x11f258cd512aa1, 0xa59358ae5b653b); (0x542d49130f531f, 0x108ebc116f8a1f8);
   (0x43576da8d90f4c, 0x119c19c812ee5cb); (0x5349b190936747, 0x2338339025dcb96);
   (0x3ebad41020b78d, 0x58b0f7d4623d4d4); (0x2d70599d8ad779, 0x1285ba9de0db5ad);
   (0x2d70599d8ad779, 0xed16217e715e24); (0x6f081dc2a5da17, 0xbfa5c7e0e686ab);
   (0x6ce7c732dc7ae6, 0xdbefe4f58254fd); (0x571fd28f16c8b8, 0xb05ffbadf6f0a1);
   (0x220568fc95f31, 0x8cacb80803ad77); (0x1cfc476e5148c5, 0x119597010075aee);
   (0x4dc1d71ba166a6, 0xae9b518614ab83); (0x4d7ac8552903e4, 0x149d7f0f6df160d);
   (0x60f5e6b9d69f91, 0x293afe1edbe2c1a); (0x42257716cb9589, 0x97545b54b75bef);
   (0x42257716cb9589, 0xca707de044d2f9); (0x287ce5f9a75d65, 0x5efb5b59672a55f);
   (0x287ce5f9a75d65, 0x4bfc4914528844c); (0x7df0e646bf563, 0x9a148982318031);
   (0xc981707132238, 0x93c87dfea7ef15); (0x36135c630851f2, 0xa0609505bb114d);
   (0x2b42b04f39db28, 0xb601ed2d57fee1); (0x4537807ec2f840, 0x93662cedf682c1);
   (0x54da6fc833ad8d, 0x93662cedf682c1); (0x7ed79e98f258be, 0x1123dcb86e8db7f);
   (0x4b67b7099922b6, 0xb5b0c74d875171); (0x42800aacf1eaf9, 0x1f061a3f4f278d4);
   (0xd4cceef639565, 0x804069a80bbce49); (0x1a999ddec72aca, 0x661a3ff70f41831);
   (0x6a66777b1cab28, 0xf6ed8cad74eadf); (0x3836087a89b316, 0x161540428919607);
   (0x66cba1d5627ce, 0xea7b391628080d); (0x523c817781fd8, 0xe7e9550a6bf821);
   (0x41ca012c67fe0, 0xe8f07d0f1d9819); (0x621c254fc6d64a, 0x146f0024c1dee83);
   (0x3acf0057952fe7, 0xaa04dca4c1e852); (0x18ce0769d4ce3d, 0x8803e3b70186a8);
   (0x2a15feca7ffd13, 0x15cadb4f9d9680f); (0x2a15feca7ffd13, 0x127c6f6b27ab87a);
   (0x2a15feca7ffd13, 0xec9f2bc1fbc6c8); (0x53d09f5e59115, 0x1755b3c0d46e02b);
   (0x2186a625bd3a2, 0x2f20bec72cf250d); (0x861a9896f4e88, 0x8f4416b4deda55);
   (0x2f3fa409d392b2, 0x97a5c03e4e28dd); (0x64702dc0f2cf75, 0x2c3072eba2b72e9);
   (0x14166f8cfd5cb1, 0xb84a358369df7ca); (0x4047cb5cc45bd, 0x2e1a965a46106aa2);
   (0x66d945613a2c8, 0x2e19c8a7bb4df649); (0x52476ab42e8a0, 0x2e1b11c5661eb071);
   (0x1491daad0ba280, 0x93795dc8bc58e5d); (0x1dfc11fbf46087, 0x8692c36c68b379);
   (0x7da640bab32fe5, 0x7bc67f9af3e9dc9); (0x5e85c9c95e7969, 0x2551eccb42b38fd);
   (0x6b6e21bf407e63, 0x14675c74df1d1bc); (0x2af8da4c80328e, 0x323528aa7a45469);
   (0x1c69a4c8accd8f, 0x8f79c46953fca9); (0x7e254571551c5a, 0x2fb1ef9cf4f9d2b);
   (0x27fbd42ed2e06, 0xfd8a698420cfb7); (0x30358b0ab2fb85, 0x9a9f962bcdaaa7);
   (0x497d88e2cd682f, 0x1448835240109e0); (0x497d88e2cd682f, 0xe63ac08ee1de3a);
   (0x5a23df0b0ed15b, 0x1ab28d4cd40ea1c); (0x5a23df0b0ed15b, 0x3059866b9dd14bb);
   (0x27048bf5f8c76d, 0xb447be161da2b6); (0x4fea6806d735c5, 0xccaa958fd91f5a2);
   (0x3f8e76667e3cd5, 0x2bee1b69d37eafd); (0xbf5913cf09633, 0xe64eb72017c6ee);
   (0x2bab6dfa3b09bf, 0x2933648a2fce13e); (0x249a4792655a9e, 0xc0fadbb21ed44b);
   (0x7d1a1019612e24, 0x826dd3a56e3d39); (0x4c2063f809b84d, 0x150fc0b42e632bf);
   (0xf39ad9801f1a9, 0xbe60ef2bf5e4c27); (0x3ce6b66007c6a4, 0x255080c13114de7);
   (0x15f6de9d5d6b5b, 0x11f8896bad9f146); (0x15f6de9d5d6b5b, 0x1d4d6e3d04ee02e);
   (0x2bedbd3abad6b6, 0xa592494f8eee51); (0x4441d93ee541d5, 0xa592494f8eee51);
   (0x57b8560f073121, 0xfd4a9f5e961f72); (0x57b8560f073121, 0x195443230f03250);
   (0x57b8560f073121, 0x155c1d2f6f4cbad); (0x30fb97ed5ab9f1, 0xe06c440b691c33);
   (0x30fb97ed5ab9f1, 0x1980f37ff9c80a9); (0x7c099cdb8f9eb6, 0x11c059b240ce1f3);
   (0x38cdebd4029397, 0x9b44db16a98a87d); (0x497d8dc01352d7, 0xe337af500a4e5c);
   (0x3d7da70662cb02, 0x16a32e416806c35); (0x238b9633de68a3, 0x1a7b08b1ce33737);
   (0x22676346742211, 0x8e2e58cf79a28c); (0x4e6d87d4cb5ab7, 0xb095bc15edc49d);
   (0x3ebe0643d5e22c, 0x9136b8f402d387); (0x742bc7299bdc6c, 0x26b361af8822d23);
   (0x649baa5c94768b, 0x6ec96c359f976bf); (0x649baa5c94768b, 0x54db4cfaa0817df);
   (0xa294d146ae0bf, 0x306616ba763121b); (0x7a5c1ee024346f, 0xa3015331cfb76b);
   (0x836be0c29094b, 0xdc14039bcd4cfd); (0x66d0f1210262b9, 0xacc6ea1160a046);
   (0x1b2261dd214e61, 0xdd53177820663d); (0xbb428db781ccb, 0x83f1d92b75731a);
   (0x754270316fac13, 0x31d68bfa31d7aef); (0x20d09d86433973, 0xc9b442dc9c1eb3);
   (0xd203f02814a2e, 0x1a718e43cfa2cab); (0x6edf1211349d4b, 0x1527a5030c823bc);
   (0x12c3865d5425f, 0x1c2859aa7d20366); (0x57fe5303dd5603, 0xb4ad879f0fb582);
   (0x7ef18f18138001, 0x1d4d3004c17d606); (0x4869d495614537, 0x86bbce4f518867);
   (0x1efbe73470b5b1, 0x86bbce4f518867); (0x659710682aaf2f, 0x8492f79c9b64e0);
   (0x4781c151e6e51, 0xcfa63ce573ccaf); (0x5060d44f1c0faf, 0xa9b1e0c874fc00);
   (0x2026bb52d80646, 0x1e4120c85b6143b); (0xd3881dcf2c089, 0x11ba6de50a5b342);
   (0x69873e354a3a95, 0xed7f802479f63c); (0x24f87513cbbf8f, 0x990724a2fc38a1);
   (0x49f0ea27977f1e, 0x81d1018658ed37); (0x3f1a0548b0a81b, 0x10adbf0f6a11470);
   (0x775d2e3dfd5cff, 0x68def63b73f0929); (0x15e2c10ad970b, 0x3bda5ca1146160e);
   (0x11823408adf3c, 0x3bdebd2e168cddd); (0xe01c33a24c30, 0x3bdebd2e168cddd);
   (0x700e19d126180, 0xb8ee53d7dd1959); (0x75f6471e970a4f, 0x109e823cb47eb63);
   (0xb996c007a45c1, 0xd4b9b63c39891c); (0x1106d07164e85d, 0x8fdfd15800e71f);
   (0x398cba23338fa6, 0x27e534354673509); (0x18135804b7d4d7, 0x1165998963de846);
   (0x9a15668498856, 0x467d863f565ed99); (0x7b445203ad378, 0x469c5753d74a277);
   (0x1ed11480eb4de0, 0xcdec63b87e6113); (0x39b74aaf764eee, 0x14545d769cb4bc1);
   (0x7ac542916bc47b, 0x10437df87d5d634); (0x77d5ca16d281d5, 0x8393ac01378c6d);
   (0xe92da15d944b1, 0xd285e001f27a48); (0xe92da15d944b1, 0xa580edfd3020e3);
   (0x2119c932a339c7, 0x60bd3c63e163abf); (0x4233926546738e, 0x26482c0a84ea58b);
   (0xd5baf471077a4, 0x87be109c510505); (0x15ce239c700459, 0xf9adfd9c3205b1);
   (0x43614f35fd37d1, 0x13d0f4cd22f3d82); (0x3dd725764bb6e2, 0xb0c284a6834cf1);
   (0x5f70aa71ec67ee, 0x1913d5e85fccdd9); (0x635601cb2ea45b, 0xb50539169519003);
   (0x13de005bd620df, 0x5cfe5c96c5509bf8); (0x27bc00b7ac41be, 0x252e923c3c8f049d);
   (0x2c251dab6bc8fd, 0x9ef002deb106f8); (0x54ceec5af88cd, 0x1a0c41e9f98b184);
   (0xa99dd8b5f119a, 0x9f49245e475449); (0x7f6db6b1d2a9d4, 0xa9e301e9a665e3);
   (0x4c77cb6cc31707, 0xa16261dc6a8f25); (0x1b08f0094136b, 0x13db316b718e409);
   (0x7ebdec7c52bdbb, 0x17f9ae376206007); (0x154b0b4aad2a8b, 0x9acb33c95035f2);
   (0x8846aeaabaa9e, 0x1425d07f2a1ebd1); (0x4749571f768475, 0x1425d07f2a1ebd1);
   (0x2a2467840edf92, 0xb3ca59b3b4e2e7); (0x1b8796d6546711, 0x1bbdd826f8784f2);
   (0x16061245105274, 0x1ab58f4bbbb471b); (0x6fe5e0786c3df7, 0x25f189122731e21);
   (0x5984b39389cb2c, 0x2b89d44b5fce94d); (0x43b54ae19125b9, 0x274e7f9d46bc394);
   (0x43b54ae19125b9, 0x431f541023d91d9); (0x24e0347e352c59, 0x876a95c3224b72);
   (0x3d8aaccdb1f3d9, 0x6ec7fd71e703abc); (0x3d8aaccdb1f3d9, 0x57db0efef36316b);
   (0x7efd95d34cfdba, 0xb6abe84d215087); (0x2488c80f6d101b, 0x14adf4b7320334b9);
   (0x23d4a95a12e131, 0x9223203db4406c)
  ].

Definition high_convergents : list (Z * Z) :=
  [
   (0x5d4d109af669e1, 0x11e3060f4f7e889); (0x152cafc7065989, 0xcfc6d0fcf32d4b);
   (0x640ce037998cf2, 0x133d3b1348cba3d); (0x2ca0306b4a4405, 0xa326a091a8e946);
   (0x58f72375234b29, 0x3b55876b8ba1d8c); (0x52e1bc1739e16a, 0x887d68dea9a59d);
   (0x6278648a3e2a0d, 0x3495ed11961149b); (0x173142ea4cfaf3, 0xc4f0c9147c541a);
   (0x457fcf4412f076, 0x121a1db42dc3f83); (0x275f5cb854dd8b, 0x9fe126e74d2937);
   (0x4f3910a50edee5, 0xef948ec0c12beb); (0x2f26c4391e6917, 0x804931afc1d738);
   (0x462cc8c38ce686, 0x39b3bd6a13e3c69); (0x4cc02b956737e3, 0xd4b77b3b44ceb1);
   (0xf59a25114a4c7, 0x352ddeced133ac4); (0xc47b50daa1d6c, 0x34fcbffa9a8b369);
   (0x6e9d67ad246375, 0xd0db101a754ed5); (0x587dec8a8382c4, 0xfd1a065fb71037);
   (0x41d80a5547d22e, 0x1976ffd3f826529); (0x6e4cc36ec78052, 0x2896cd558d989d7);
   (0x583d69256c66a8, 0x2b58b89eb8fbd2b); (0x41a46e0468887e, 0xd14d094d0d118f);
   (0x53b86a1ed20706, 0xb53c2c6dc79ff35); (0xc2e4af0e52f72, 0xa159aec5317653);
   (0x2524742165910b, 0x18cfc45cd2e0ebc); (0x548266dc141702, 0x113556acfb466af);
   (0x3711155cbdae23, 0xb371b721a65a652); (0x229145786b1053, 0xdc445572f6b88c);
   (0x2ea0353715696e, 0xfed59aeb61c8df); (0x254cf75f445458, 0xf5825d1390b3c9);
   (0x1dd72c4c36a9e0, 0x11359895fc75da9); (0x564479e957372a, 0x1fb90d5cae31fbd);
   (0x40ff927568e7a2, 0xcd08bd0d62e225); (0x6c0353011e50b6, 0x4c42a68a329219f);
   (0x726ae485b0a5df, 0x3074df9958b3475); (0x2dc45b68ad0f26, 0xc341a140a835967);
   (0x2700a52ca64ffb, 0xb7116da2b43c98); (0x510719b0695b6f, 0x7ecb7519166a950);
   (0x420801165fc756, 0x123186636758a11); (0x5236a2348d3bc5, 0x8ed9c2eb8886f6);
   (0x49953b35860ebd, 0x23b670bae221bd8); (0x1e574b8811c0cb, 0x932a766b0c1d7a);
   (0x1845d606749a3c, 0x993bebeca94409); (0x50b63cca3a969a, 0x993bebeca94409);
   (0x5d94104927f10e, 0x34ee1d86988eac7); (0x5ca49beaee0d99, 0xbd07094ec3a906);
   (0x5ee34ccd1295e5, 0x119aba539b1b69f); (0x27270597704062, 0x119aba539b1b69f);
   (0x72305b4e9a46a3, 0x80544453a72f9a); (0x5e2dde0cb133e7, 0xca7fa51e6f50c5);
   (0x1d3000353f2295, 0xca7fa51e6f50c5); (0x1cd320f0c9cf1f, 0x1782c294c14d26b);
   (0x170f4d8d6e3f4c, 0x18f3b76d98311b7); (0x24e548e249fee0, 0x1860224a0f091ff);
   (0x1a5907b02eeb93, 0xc84732e985d2a6); (0x4ad7793a2c2525, 0x1600ff4490e6bba);
   (0x5e3d403e2b08f9, 0xddc6c8d8b50544); (0x5e3d403e2b08f9, 0x9e92c70755026b);
   (0x6c02c593083357, 0xca4005d1333c50); (0x159a2783ce70ab, 0x86e0e0a68c2e333);
   (0x2b344f079ce156, 0x3638ad8dddda49d); (0x6861acecfe1ec9, 0x17d9495f86fc2ea);
   (0x6861acecfe1ec9, 0x13143ab2d263588); (0x11b96458445d07, 0x1d6b2e0bcc59239);
   (0x11b96458445d07, 0x1788f1a309e0e94); (0x7dcf4acb12b6cb, 0xa142137b9b70d9);
   (0x7dcf4acb12b6cb, 0xcfb067a7be050a); (0x7dcf4acb12b6cb, 0x8cfd43f72ddf79);
   (0x7dcf4acb12b6cb, 0xbc46fcd92fed41); (0x709dd5092ca401, 0xaff56dc6222456);
   (0x1685f7683c20cd, 0x3b79758931dfa27); (0x5a17dda0f08334, 0xbe51781d6c653b);
   (0x2202cc7addee51, 0x17ca2f03ad8ca76); (0x37b8822872ffe7, 0x1d65e3ede29b8ae);
   (0x6f710450e5ffce, 0xb100cbea6016b1); (0x4ffa2a826f37a9, 0x363f784ae5eca16);
   (0x4ffa2a826f37a9, 0x29661f2bdb8f1ce); (0x6f82f6f968fb9, 0x98fc259547df99);
   (0xb26b24c241928, 0x9bc5d22850e5e3); (0x5b3bc0d5c2eb4d, 0x213db87cb80ac3f);
   (0x5b3bc0d5c2eb4d, 0x1bbbb9333f45275); (0x784423c92785cb, 0x143776f6accccaa);
   (0x784423c92785cb, 0x14aeed501552735); (0x622468bc0a7db, 0xa266473aca3fad);
   (0x5c8858b378d31f, 0xe84435c21bac3b); (0x5ce81580d7de7e, 0xb6dcf2bbfd1c9c3);
   (0x9241d07892b4d, 0x173a056035f79f8); (0x12483a0f12569a, 0x11c80e8f825f1c1);
   (0x4036ac37a88631, 0x47aeddfe5389b3b); (0x4036ac37a88631, 0x3958b19842d48fc);
   (0x4036ac37a88631, 0x5af3a0661f38d23); (0x4036ac37a88631, 0x48c2e6b818fa41c);
   (0x4036ac37a88631, 0x36ff965d4b8e4bc); (0x4036ac37a88631, 0x2ccd273e8826b6d);
   (0x8a7503c9fd7e9, 0xf83360a20240db); (0x38902050e6b9b3, 0xf83360a20240db);
   (0x3607a6667b8562, 0xc22bba3b86bb79); (0x49475104ee05c7, 0xf1c8d26d316b64);
   (0x436700901af572, 0x13b1023721f712b); (0x169239f38fb691, 0x195095df5ca1d2e);
   (0x169239f38fb691, 0x2760067f99d363c); (0x4c57fbb3b012cd, 0xa6a0e381eeed11);
   (0x4c57fbb3b012cd, 0xa3d71aafd25ec6); (0x324471ef30eef3, 0x423629bd29e4b71);
   (0x6488e3de61dde6, 0x1b1cebb8415e791); (0xdc5f190c3e2c9, 0x15b0bc93677ec74);
   (0x4dac52c8271dc3, 0x38390a7a3dd6c9f); (0x25925fdc7470cf, 0xeb8c8b67b3956e);
   (0x38a5d7e6a0315d, 0x83ca979f8912fb); (0x310474af5b7df1, 0x3974e03f9003b74);
   (0x310474af5b7df1, 0x2d5a3ebd7544993); (0x310474af5b7df1, 0x2581e84f26806d6);
   (0x3fdc37de40d6e7, 0x84359adf2d20dd); (0x69c47be5bdb3e4, 0x148476d9c9b18a1);
   (0x2c8096be2c4759, 0x36417d304b1990a); (0x59012d7c588eb2, 0x2665eccad71939b);
   (0x43bd2a197c50da, 0xd3e0f0056f45d1); (0x3630ee7ac9da48, 0xc654b466bccf3f);
   (0x75f9bce910a5a, 0xc654b466bccf3f); (0x740c94516a7835, 0xa490402aa4ae14);
   (0x668acc3960d157, 0x1caaedcbebd7b3b); (0x668acc3960d157, 0x11ce9a6d116ee50);
   (0x668acc3960d157, 0x20562b8a42b9481); (0x2725a0480a216a, 0x925d2806b2708f);
   (0x4a34501f7ea0ca, 0x6374dca348cdeed); (0x76ba19cbfdce10, 0x646250d6e0c98af);
   (0x53c668b13a1c03, 0x22eaecfe1315443); (0x53c668b13a1c03, 0x1ae30f7c3e8a435);
   (0x4c12aa6599c354, 0x948826c90dc731); (0xb90933a1264b, 0x12a825ff95ddaf8);
   (0xb90933a1264b, 0xeea9b156c47451); (0x2dff73c8a48829, 0x8fc6a4f6f6cad3);
   (0x730550c5923bdc, 0x472b1f31d91c0d3); (0x7552c1b133269d, 0xe16fbfb3e2a236);
   (0x3d2f16ef016c27, 0xbbb79c4eb83dc8); (0x5752dcb5b0618b, 0x69e31b2a469b414);
   (0x61c792385cc3b3, 0xfb83e09e64c279); (0x56b3ff0ee007a1, 0x9f4617fac65ccf);
   (0x2581fa735859f1, 0x9f4617fac65ccf); (0x5636d30feac17d, 0xb7a084490f9095);
   (0x5636d30feac17d, 0x16ac6494e6e4eec); (0x3ae54a42a7c47b, 0xe752f0627d4775);
   (0x3ae54a42a7c47b, 0xa1803c34211dc6); (0x551f154525842b, 0x1b8cb0ced91c482);
   (0x3925b4316c2f2b, 0xe363debbb73781); (0x3925b4316c2f2b, 0x939fac7884dce7);
   (0x4b3e190c711eb7, 0x1bdbb8b09ebf73c); (0x1e18d6d1c6d916, 0x3a89c584e823419);
   (0x78635b471b6458, 0x9d39a13deccaef); (0x28c9b01e477a05, 0xc4099c48793b3d);
   (0x4142b363a59008, 0xb3b8ef6f8fd73b); (0x1d50e9e6ef31c9, 0x8fc725f2d978fc);
   (0x7305b7f57ac730, 0xad180fd9c8aac5); (0x3a1257e44de395, 0xc3a66b1cd405d1);
   (0x42a54c77786e69, 0x17eb9e1a67d80ce); (0x2120d09ebfd32f, 0xa66b698db0b001);
   (0x6a029b95990a3, 0x5335b4c6d858008); (0x6a029b95990a3, 0x4251c241b9b760b);
   (0xd405372b32146, 0x1a9c4e396834c25); (0x4fda7289d29b85, 0x657391bd03a950f);
   (0x4fda7289d29b85, 0x4e2aa9e53e3b389); (0x35168ab759474e, 0x85299fb7f89363);
   (0x1a749df8f45d07, 0xef8403ec1baf3f); (0x2fe733fc058973, 0x18ed2211daa6c9f5);
   (0x583a93f4cb3e0d, 0xbf9ccff01625cc); (0x44179a662cceed, 0xd14220baa53235);
   (0x2ad916da273187, 0x108ba795acf326f); (0x23ce7587b35cad, 0x1c9d807a637ab84);
   (0x76af95e7d36a97, 0x105e96c06a0dd4b); (0x2a90fbeb55c29d, 0x105e96c06a0dd4b);
   (0x4568ad92a8e081, 0x4371844a288be9e); (0x705b636b2ddd21, 0x115a2b64aa38204);
   (0x705b636b2ddd21, 0xc7a3178cacd563); (0x396228bc6f2921, 0x18cdd410ba935a5);
   (0xd679363d69921, 0xcab97c2a0f7242); (0x490c0c6e856b6d, 0xace73fa4b8091c);
   (0x13f8a3d7a3b923, 0x263ba6f34513fe4); (0x6832cc15aa7c9, 0xa6484b7e7870e1);
   (0x23dc8766a2c017, 0x19449a5ca3661f0); (0x74b80ef57a6d47, 0x1436e1e3b5eb4c0);
   (0xab0d2a86d07a2, 0xceb60f45e44779); (0x4746b74bf88a11, 0x804d90a0816123);
   (0x66a473b39ab41c, 0xa4d5603d61420cd); (0x6cea662ebb22eb, 0x12da7689fafad85);
   (0x6cea662ebb22eb, 0x1ccdcf95c8d41d9); (0xa148d0d737c12, 0xdedf12e43003df);
   (0x2c9303c73ccd93, 0x66cfebc3a5ad8f4); (0x23a8cfd2970adc, 0xcf4bc1452a6fa0d);
   (0x157a340eb5d4f1, 0x8ea33f4a5c2b70); (0x7eff1eaab6d5b7, 0xe8840946b7d67d);
   (0x5d019d4f7cbc32, 0xbf9a8e0b4c18e3b); (0x5db74b6b26e03d, 0x1164f29d2cc108b);
   (0x122cea327fa99d, 0x208447f4098cddc); (0x2459d464ff533a, 0x19c9436f660b5f7);
   (0x185ab729479f3b, 0xc21cbfe68c8b5e); (0x1835b87bbdef89, 0xda77770fd42a99);
   (0xe69095903cff7, 0x88099e79e03c6c); (0x3c2ddcbac19e8e, 0x8b3e5c2a95519df);
   (0x6c93860c07f3ab, 0xf0b772eb067a38); (0x11009fd836acf5, 0x2a9955215e62ed1);
   (0x73e9ea341fa037, 0x19fc03dfd399479); (0x5cbb21c34c802c, 0x19fc03dfd399479);
   (0x77030525de60b9, 0x945e9c6bad99e0); (0x76b216bc8ae180, 0x16467329ef423b9);
   (0x76c2466b352e25, 0x51a99c555f22e2b); (0x17c0747bd76fa1, 0x2bfc5da3222e44ba);
   (0x2f80e8f7aedf42, 0x118064fff83b1243); (0x1f83a32f69f129, 0xbe03a3debb7d08);
   (0x1f83a32f69f129, 0x851a546289a021); (0x1f83a32f69f129, 0xe7df8286e890e7);
   (0x5cbfcdcf9039f6, 0x2f6a5cdf38d9507); (0xf381611b41753, 0x14556f50924a1df);
   (0x7df1bc7bd7b0df, 0x8222c86a0ea726); (0x33374dc7947801, 0x23bc26f6fcf1499);
   (0x666e9b8f28f002, 0xeef26f54a3b9d7); (0x12c791ae276a, 0x8883d3c57ac9d5);
   (0x51f0354a5c2277, 0x258c87cb4661d86); (0x5ce20b36db2081, 0x8dfcbebbba48da);
   (0x39dc2b7544c061, 0x12d7c6d583fc1c4); (0x61734d8dfe008e, 0x22a3f33e9808341);
   (0xd66233a4ee67f, 0x1adff9fe6e4b5b5); (0xd66233a4ee67f, 0x2b55b74558d7eee);
   (0xd66233a4ee67f, 0x22aaf9044713258); (0x56d1aa3e556b2d, 0xe33be165e67056);
   (0x31857698680b6d, 0x13a0d8ba43bdb83); (0x7a3c770aef399d, 0xa89f8abf2d7f23);
   (0x7a3c770aef399d, 0xb7cb0503b7498e); (0x2495466c37ad75, 0x1f64f24d8a5fdf7);
   (0x492a8cd86f5aea, 0x95b5128bf472bf); (0xf4ee78a4dd191, 0x1bdbf3ec8c79b52);
   (0x315918f3c3fe31, 0xdd296e39f688ea); (0x315918f3c3fe31, 0xb0edf1c7f86d88);
   (0x315918f3c3fe31, 0xa14865017b8a1a); (0x2a204c643fe80f, 0x68565d7921b7957);
   (0x21b3705033200c, 0x6963f8fba35095d); (0x79904df0c367f9, 0x86cdc140cc8030);
   (0x5387be36e2eb5b, 0x19a30184f4ca6a8); (0x44511e52ef864f, 0x812b9de2bd1a7f);
   (0x1cd1c57b669959, 0x812b9de2bd1a7f); (0x396e99d9c68fab, 0x277f58d788ecf60);
   (0x16ee73b7b47f43, 0x186a973a716ff8f); (0x16ee73b7b47f43, 0x12f5b616f63ccbe);
   (0x539a54012edb69, 0xf2af8125e97098); (0x6e8bace9f24b77, 0x115c054ec500249);
   (0x586fbd87f5092c, 0x141f833b04a86df); (0x3a09e37359c836, 0x107ee503cf0bea9);
   (0x6992867ec6b2aa, 0x60fcf1efe1ada25); (0x5ad02c155414e5, 0xf0a9c1d072a0de);
   (0x77e14495b20994, 0x96c0ce602d19af); (0x41c0da648568ed, 0x12d819cc05a335e);
   (0x1fc0df330f2239, 0xa7c0cbf8e83d09); (0x57f3544db87d55, 0xf78e43a417fcbd);
   (0x232e21b8b03222, 0x3cca1fdb407d9e3); (0x984c40b2f90cb, 0x8333c2d79137bd);
   (0x1a3d8d5e503e59, 0x64c8032478ce008); (0x36d901b2b67da9, 0xd1ec6af281f2c8);
   (0x36d901b2b67da9, 0x9cf82204a9dc4b); (0x5fb241d37e3d1d, 0x2302dc96306b079);
   (0x18478bf5dd5a3d, 0x991d361f3061c8); (0x4219fe70d93929, 0x53b92c75616fbe3);
   (0x491e5aa618a16f, 0x8433fce1b27252); (0x3a7eaeeb46e78c, 0xf9c84e08932ac1);
   (0xedc0d0e261739, 0x13446fcf3da124d); (0x4f7ca8a8261f87, 0xb305c5bfda01b1);
   (0x27ac369eaaf843, 0xc6edfec4979553); (0x7f67d3518a1740, 0x873a151bd289b3);
   (0x641ce3b6d285c, 0x84192dfe1bf585); (0x5082ab3df3682f, 0x20d84387e41a564d);
   (0x4e7aebaed9216e, 0x11acd3720611005)
  ].

(** The numerator is the integer next to the product. *)
Definition gap_ok (q : Z) (row : Z * Z) : bool :=
  let '(q1, q2) := row in
  let a := ryu_pow q in
  let n1 := q1 * a in
  let n2 := q2 * a in
  let p1 := Z.shiftr (n1 + 2 ^ 123) 124 in
  let p2 := Z.shiftr (n2 + 2 ^ 123) 124 in
  let d1 := n1 - Z.shiftl p1 124 in
  let d2 := n2 - Z.shiftl p2 124 in
  (0 <? q1) && (2 ^ 55 <? q2) && (Z.abs (p1 * q2 - p2 * q1) =? 1) && (2 ^ 55 <? Z.abs d1) &&
  (if 0 <=? d1 then d2 <=? 0 else 0 <=? d2).

Fixpoint gaps_ok (q : Z) (rows : list (Z * Z)) : bool :=
  match rows with
  | [] => true
  | row :: rows => gap_ok q row && gaps_ok (q + 1) rows
  end.

Lemma gaps_nth rows : forall q i, gaps_ok q rows = true -> (i < length rows)%nat ->
  exists row, gap_ok (q + Z.of_nat i) row = true.
Proof.
  induction rows as [|row rows IH]; intros q i H Hi; [now apply Nat.nlt_0_r in Hi|].
  cbn [gaps_ok length] in *. apply andb_true_iff in H as [H1 H2]. destruct i as [|i].
  - exists row. now rewrite Z.add_0_r.
  - destruct (IH (q + 1) i H2) as (r & Hr); [lia|]. exists r. now replace (q + Z.of_nat (S i)) with (q + 1 + Z.of_nat i) by lia.
Qed.

Lemma low_gaps : gaps_ok (-291) low_convergents = true.
Proof. vm_compute. reflexivity. Qed.

Lemma high_gaps : gaps_ok 56 high_convergents = true.
Proof. vm_compute. reflexivity. Qed.

(** No multiple of the power by a number of 55 bits is near a multiple of [2^124]. *)
Lemma pow10_gap q m n : -291 <= q <= -25 \/ 56 <= q <= 324 -> 0 < m <= 2 ^ 55 ->
  2 ^ 55 < Z.abs (m * ryu_pow q - n * 2 ^ 124).
Proof.
  intros Hq Hm.
  assert (H : exists row, gap_ok q row = true).
  { destruct Hq as [Hq|Hq].
    - destruct (gaps_nth low_convergents (-291) (Z.to_nat (q + 291)) low_gaps) as (row & H).
      { change (length low_convergents) with 267%nat. lia. }
      exists row. now replace (-291 + Z.of_nat (Z.to_nat (q + 291))) with q in H by lia.
    - destruct (gaps_nth high_convergents 56 (Z.to_nat (q - 56)) high_gaps) as (row & H).
      { change (length high_convergents) with 269%nat. lia. }
      exists row. now replace (56 + Z.of_nat (Z.to_nat (q - 56))) with q in H by lia. }
  destruct H as ((q1 & q2) & H). unfold gap_ok in H. cbv zeta in H.
  set (a := ryu_pow q) in *. clearbody a. set (p1 := Z.shiftr (q1 * a + _) 124) in *.
  set (p2 := Z.shiftr (q2 * a + _) 124) in *. clearbody p1 p2. rewrite !Z.shiftl_mul_pow2 in H by lia.
  rewrite !andb_true_iff in H. destruct H as ((((H1 & H2) & H3) & H4) & H5).
  apply Z.ltb_lt in H1, H2, H4. apply Z.eqb_eq in H3.
  apply Z.lt_le_trans with (1 := H4). apply (best_approximation a (2 ^ 124) p1 q1 p2 q2); try lia.
  destruct (Z.leb_spec 0 (q1 * a - p1 * 2 ^ 124)); apply Z.leb_le in H5; nia.
Qed.
