(* ===== verification/FtoaSpec.v ===== *)
(** The digits [AppendFloat] prints: an integer between the bounds it is given. *)
From Stdlib Require Import ZArith Lia String Bool List SpecFloat.
From S2P Require Import Prelude GoFloat Float64 Strconv Utf8 Itoa Decimal Atof EiselSpec DecimalSpec AtofSpec JsonEncode Ftoa.
Import ListNotations.
Local Open Scope list_scope.
Local Open Scope Z_scope.

(** * Buffers *)

Lemma firstn_len (a b : list Z) n : n = len a -> firstn (Z.to_nat n) (a ++ b) = a.
Proof.
  intros ->. unfold len. rewrite Nat2Z.id. rewrite firstn_app, Nat.sub_diag, firstn_O, app_nil_r. apply firstn_all.
Qed.

Lemma put_here a x b i v : i = len a -> put (a ++ x :: b) i v = a ++ v :: b.
Proof.
  intros E. unfold put. rewrite (firstn_len a _ i E). f_equal. f_equal.
  subst i. unfold len. rewrite Nat2Z.id. change (x :: b) with ([x] ++ b). rewrite app_assoc.
  replace (S (length a)) with (length (a ++ [x])) by (rewrite length_app; cbn; lia).
  rewrite skipn_app, skipn_all, Nat.sub_diag. reflexivity.
Qed.

Lemma at_here a x b i : i = len a -> at_ (a ++ x :: b) i = x.
Proof. intros ->. unfold at_, len. rewrite Nat2Z.id, app_nth2, Nat.sub_diag by lia. reflexivity. Qed.

Lemma list_snoc (l : list Z) n : len l = n + 1 -> 0 <= n -> exists l' x, l = l' ++ [x] /\ len l' = n.
Proof.
  intros H Hn. destruct l as [|y l] using rev_ind; [change (len []) with 0 in H; lia|]. exists l, y.
  rewrite len_app in H. change (len [y]) with 1 in H. split; [reflexivity|lia].
Qed.

Lemma skipn_split (l : list Z) n : 0 <= n <= len l -> exists a b, l = a ++ b /\ len a = n.
Proof.
  intros H. exists (firstn (Z.to_nat n) l), (skipn (Z.to_nat n) l). split; [now rewrite firstn_skipn|].
  unfold len in *. rewrite length_firstn. lia.
Qed.

Lemma digits_snoc ds v : digits ds -> 0 <= v < 10 -> digits (ds ++ [48 + v]).
Proof. intros H Hv. apply digits_app. split; [exact H|]. repeat constructor. now apply digit_of. Qed.

Lemma num_snoc ds v : num (ds ++ [48 + v]) = 10 * num ds + v.
Proof. rewrite num_app, num_one. change (10 ^ len [48 + v]) with 10. lia. Qed.

(** The digits of [v] fill the places of [old]. *)
Definition filled (old : list Z) (v : Z) (ds : list Z) : Prop := digits ds /\ len ds = len old /\ num ds = v.

(** [fill_pairs] writes the digits of [v] on the places from [nd] on. *)
Lemma fill_pairs_spec fuel : forall a old b v, 0 <= v < 10 ^ len old -> len old < 2 * Z.of_nat fuel ->
  exists ds, filled old v ds /\
    fill_pairs fuel (a ++ old ++ b) (len a) v (len a + len old - 1) = a ++ ds ++ b.
Proof.
  induction fuel as [|fuel IH]; intros a old b v Hv Hf; [pose proof (len_nonneg old); lia|].
  cbn [fill_pairs]. pose proof (len_nonneg old) as Hl. destruct (Z.ltb_spec (len a) (len a + len old - 1)) as [Hlt|Hge].
  - destruct (list_snoc old (len old - 1) ltac:(lia) ltac:(lia)) as (o1 & x1 & -> & H1).
    destruct (list_snoc o1 (len o1 - 1) ltac:(lia) ltac:(lia)) as (o & x0 & -> & H0).
    rewrite !len_app in *. change (len [x0]) with 1 in *. change (len [x1]) with 1 in *.
    pose proof (Z.mod_pos_bound v 100 ltac:(lia)) as Hm.
    rewrite (Z.mul_comm 2 (v mod 100)), smalls_units, smalls_tens by lia.
    set (y1 := 48 + v mod 100 mod 10). set (y0 := 48 + v mod 100 / 10).
    assert (Ep : put (put (a ++ ((o ++ [x0]) ++ [x1]) ++ b) (len a + (len o + 1 + 1) - 1) y1) (len a + (len o + 1 + 1) - 1 - 1) y0
                 = a ++ o ++ [y0; y1] ++ b).
    { replace (a ++ ((o ++ [x0]) ++ [x1]) ++ b) with (((a ++ o) ++ [x0]) ++ x1 :: b) by (now rewrite <- !app_assoc).
      rewrite put_here by (rewrite !len_app; change (len [x0]) with 1; lia).
      replace (((a ++ o) ++ [x0]) ++ y1 :: b) with ((a ++ o) ++ x0 :: y1 :: b) by (now rewrite <- !app_assoc).
      rewrite put_here by (rewrite !len_app; lia). now rewrite <- app_assoc. }
    rewrite Ep.
    destruct (IH a o ([y0; y1] ++ b) (v / 100)) as (ds & (Hd & Hlen & Hn) & E).
    { rewrite !Z.pow_add_r in Hv by (try apply len_nonneg; pose proof (len_nonneg o); lia). change (10 ^ 1) with 10 in Hv.
      Z.to_euclidean_division_equations. lia. }
    { lia. }
    replace (len a + (len o + 1 + 1) - 1 - 2) with (len a + len o - 1) by lia. rewrite E.
    exists (ds ++ [y0; y1]). split; [|now rewrite <- !app_assoc].
    change [y0; y1] with ([y0] ++ [y1]). rewrite app_assoc.
    assert (Hq0 : 0 <= v mod 100 / 10 < 10) by (Z.to_euclidean_division_equations; lia).
    assert (Hq1 : 0 <= v mod 100 mod 10 < 10) by (Z.to_euclidean_division_equations; lia).
    split; [|split].
    + apply digits_snoc; [now apply digits_snoc|exact Hq1].
    + rewrite !len_app, Hlen. reflexivity.
    + unfold y0, y1. rewrite !num_snoc, Hn. Z.to_euclidean_division_equations. lia.
  - destruct (Z.eqb_spec (len a + len old - 1) (len a)) as [E|Hne].
    + destruct old as [|x [|? ?]]; rewrite ?len_cons in *; change (len []) with 0 in *; try lia.
      2:{ pose proof (len_nonneg l). lia. }
      change (10 ^ (0 + 1)) with 10 in Hv. rewrite (proj1 (digit_of v Hv)). exists [48 + v]. split.
      * split; [repeat constructor; now apply digit_of|]. split; [reflexivity|]. rewrite num_one. lia.
      * cbn [app]. apply put_here. lia.
    + destruct old as [|x old]; [|rewrite len_cons in *; pose proof (len_nonneg old); lia].
      change (len []) with 0 in *. change (10 ^ 0) with 1 in Hv. exists []. split; [|reflexivity].
      split; [constructor|]. split; [reflexivity|]. cbn. lia.
Qed.

(** [high_digits] writes them before the place [n]. *)
Lemma high_digits_spec fuel : forall old b v, 0 <= v < 10 ^ len old -> v < 10 ^ Z.of_nat fuel ->
  exists pre ds, high_digits fuel (old ++ b) v (len old) = (pre ++ ds ++ b, len pre) /\
    digits ds /\ len pre + len ds = len old /\ num ds = v.
Proof.
  induction fuel as [|fuel IH]; intros old b v Hv Hf; cbn [high_digits].
  - change (10 ^ Z.of_nat 0) with 1 in Hf. exists old, []. repeat split; [constructor| |cbn; lia].
    change (len []) with 0. lia.
  - destruct (Z.ltb_spec 0 v) as [H0|H0].
    + pose proof (len_nonneg old) as Hl.
      destruct (list_snoc old (len old - 1)) as (o & x & -> & Ho).
      { lia. } { destruct old; [change (10 ^ len []) with 1 in Hv; lia|]. rewrite len_cons in *. pose proof (len_nonneg old). lia. }
      rewrite len_app in *. change (len [x]) with 1 in *. replace (len o + 1 - 1) with (len o) by lia.
      pose proof (Z.mod_pos_bound v 10 ltac:(lia)) as Hm.
      rewrite <- app_assoc. cbn [app]. rewrite put_here by reflexivity. rewrite (proj1 (digit_of _ Hm)).
      destruct (IH o ((48 + v mod 10) :: b) (v / 10)) as (pre & ds & E & Hd & Hlen & Hn).
      { rewrite pow10_succ in Hv by apply len_nonneg. Z.to_euclidean_division_equations. lia. }
      { rewrite Nat2Z.inj_succ, Z.pow_succ_r in Hf by lia. Z.to_euclidean_division_equations. lia. }
      exists pre, (ds ++ [48 + v mod 10]). rewrite E. split; [now rewrite <- app_assoc|].
      split; [now apply digits_snoc|]. split; [rewrite len_app; change (len [48 + v mod 10]) with 1; lia|].
      rewrite num_snoc, Hn. Z.to_euclidean_division_equations. lia.
    + exists old, []. repeat split; [constructor| |cbn; lia]. change (len []) with 0. lia.
Qed.

(** * Trimming *)

Lemma u32_id z : 0 <= z < 2 ^ 32 -> u32 z = z.
Proof. intros H. unfold u32. rewrite land_mask by lia. now apply Z.mod_small. Qed.

(** The bounds after [k] digits are dropped; the centre is between them from the first
    turn on. *)
Record trimmed_to (l c u k l' c' u' : Z) (cup cup' : bool) : Prop := {
  tt_k : 0 <= k;
  tt_low : l <= 10 ^ k * l';
  tt_up : 10 ^ k * u' <= u;
  tt_c : 0 <= c' <= u';
  tt_l : 0 <= l' <= u';
  tt_low_best : forall z, l <= 10 ^ k * z -> l' <= z;
  tt_up_best : forall z, 10 ^ k * z <= u -> z <= u';
  tt_none : k = 0 -> l' = l /\ c' = c /\ u' = u /\ cup' = cup;
  tt_some : 0 < k -> l' <= c' /\ 10 ^ (k - 1) <= u
}.

Lemma trimmed_none l c u cup : 0 <= l <= u -> 0 <= c <= u -> trimmed_to l c u 0 l c u cup cup.
Proof. intros Hl Hc. constructor; rewrite ?Z.pow_0_r; try lia; auto; intros z; rewrite Z.pow_0_r; lia. Qed.

Lemma trim_loop_spec fuel : forall l c u t cn c0 cup,
  0 <= l <= u -> l <= c + 1 -> 0 <= c <= u -> u < 10 ^ 9 ->
  exists k l' c' u' cn' c0' cup',
    trim_loop fuel (mkRyu l c u t cn c0 cup) = mkRyu l' c' u' (t + k) cn' c0' cup' /\
    trimmed_to l c u k l' c' u' cup cup' /\
    (u < 10 ^ Z.of_nat fuel -> u' <= 0 \/ u' / 10 < (l' + 9) / 10).
Proof.
  induction fuel as [|fuel IH]; intros l c u t cn c0 cup Hl Hlc Hc Hu.
  { exists 0, l, c, u, cn, c0, cup. rewrite Z.add_0_r. split; [reflexivity|]. split; [now apply trimmed_none|].
    change (10 ^ Z.of_nat 0) with 1. lia. }
  assert (Stop : u <= 0 \/ u / 10 < (l + 9) / 10 ->
            exists k l' c' u' cn' c0' cup', mkRyu l c u t cn c0 cup = mkRyu l' c' u' (t + k) cn' c0' cup' /\
            trimmed_to l c u k l' c' u' cup cup' /\ (u < 10 ^ Z.of_nat (S fuel) -> u' <= 0 \/ u' / 10 < (l' + 9) / 10)).
  { intros Hstop. exists 0, l, c, u, cn, c0, cup. rewrite Z.add_0_r. split; [reflexivity|]. split; [now apply trimmed_none|auto]. }
  cbn [trim_loop]. destruct (Z.ltb_spec 0 u) as [H0|H0]; [|apply Stop; lia].
  rewrite u32_id by lia. destruct (Z.ltb_spec (u / 10) ((l + 9) / 10)) as [Hs|Hs]; [apply Stop; lia|]. clear Stop.
  rewrite u32_id by (Z.to_euclidean_division_equations; lia).
  set (c1 := if ((l + 9) / 10 =? c / 10 + 1) && (c / 10 <? u / 10) then c / 10 + 1 else c / 10).
  set (cn1 := if ((l + 9) / 10 =? c / 10 + 1) && (c / 10 <? u / 10) then 0 else c mod 10).
  set (cup1 := if ((l + 9) / 10 =? c / 10 + 1) && (c / 10 <? u / 10) then false else cup).
  replace (if ((l + 9) / 10 =? c / 10 + 1) && (c / 10 <? u / 10) then (c / 10 + 1, 0, false) else (c / 10, c mod 10, cup))
    with (c1, cn1, cup1) by (unfold c1, cn1, cup1; now case_if).
  assert (Hc1 : (l + 9) / 10 <= c1 <= u / 10).
  { unfold c1. destruct ((l + 9) / 10 =? c / 10 + 1) eqn:E1; destruct (c / 10 <? u / 10) eqn:E2; cbn [andb];
      Z.to_euclidean_division_equations; lia. }
  destruct (IH ((l + 9) / 10) c1 (u / 10) (t + 1) cn1 (c0 && (cn =? 0)) cup1)
    as (k & l' & c' & u' & cn' & c0' & cup' & E & T & Hstop); try (Z.to_euclidean_division_equations; lia).
  exists (k + 1), l', c', u', cn', c0', cup'. rewrite E. split; [f_equal; lia|]. destruct T as [Tk Tl Tu Tc Tll Tlb Tub T0 T1].
  assert (Ep : 10 ^ (k + 1) = 10 * 10 ^ k) by (now apply pow10_succ).
  split.
  2:{ intros Hf. apply Hstop. rewrite Nat2Z.inj_succ, Z.pow_succ_r in Hf by lia. Z.to_euclidean_division_equations. lia. }
  constructor; try lia; rewrite ?Ep.
  - Z.to_euclidean_division_equations. lia.
  - Z.to_euclidean_division_equations. lia.
  - intros z Hz. apply Tlb. Z.to_euclidean_division_equations. lia.
  - intros z Hz. apply Tub. Z.to_euclidean_division_equations. lia.
  - intros _. destruct (Z.eq_dec k 0) as [->|Hk].
    + destruct (T0 eq_refl) as (-> & -> & -> & _). split; [lia|]. change (10 ^ (0 + 1 - 1)) with 1. lia.
    + destruct (T1 ltac:(lia)) as [T2 T3]. split; [exact T2|]. replace (k + 1 - 1) with (k - 1 + 1) by lia.
      rewrite pow10_succ by lia. Z.to_euclidean_division_equations. lia.
Qed.

(** Twelve turns are enough: a turn divides the upper bound by ten. *)
Lemma trim_loop_enough fuel more : forall l c u t cn c0 cup, 0 <= u < 10 ^ Z.of_nat fuel ->
  trim_loop (fuel + more) (mkRyu l c u t cn c0 cup) = trim_loop fuel (mkRyu l c u t cn c0 cup).
Proof.
  induction fuel as [|fuel IH]; intros l c u t cn c0 cup Hu.
  - change (10 ^ Z.of_nat 0) with 1 in Hu. destruct more as [|more]; [reflexivity|]. cbn [Nat.add trim_loop].
    now replace (0 <? u) with false by lia.
  - rewrite Nat2Z.inj_succ, Z.pow_succ_r in Hu by lia.
    assert (Hu' : 0 <= u / 10 < 10 ^ Z.of_nat fuel) by (Z.to_euclidean_division_equations; lia).
    cbn [Nat.add trim_loop]. destruct (0 <? u); [|reflexivity].
    destruct (u / 10 <? _); [reflexivity|]. destruct (_ && _); now apply IH.
Qed.

(** * The digits of an integer between the bounds *)

(** The slice [s] shows the integer [N]. *)
Definition shows (s : decimalSlice) (N : Z) : Prop :=
  exists p b, ds_d s = p ++ b /\ ds_nd s = len p /\ digits p /\ len p <= ds_dp s /\ len p <= 18 /\
    num p * 10 ^ (ds_dp s - len p) = N.

(** ... and cannot be shorter: no multiple of the next power of ten is between the bounds. *)
Definition sharp (s : decimalSlice) (l u : Z) : Prop :=
  0 <= ds_dp s - ds_nd s <= 8 /\ forall z, ~ l <= z * 10 ^ (ds_dp s - ds_nd s + 1) <= u.

Lemma ryuDigits32_spec a old b l c u c0 cup dp0 :
  digits a -> len a <= 9 -> len old = 9 -> 0 <= l <= u -> 0 <= c <= u -> u < 10 ^ 9 ->
  l <= c \/ l = c + 1 /\ cup = true ->
  exists R, l <= R <= u /\ (cup = false -> R = c \/ R mod 10 = 0) /\ (l = 0 -> R = 0) /\
    (0 < l -> sharp (ryuDigits32 (mkSlice (a ++ old ++ b) (len a) dp0) l c u c0 cup (len a + 8)) l u) /\
    shows (ryuDigits32 (mkSlice (a ++ old ++ b) (len a) dp0) l c u c0 cup (len a + 8)) (num a * 10 ^ 9 + R).
Proof.
  intros Ha La Lo Hl Hc Hu Hlc. unfold ryuDigits32. cbn [ds_d ds_nd].
  destruct (Z.eqb_spec u 0) as [->|Hu0].
  { exists 0. split; [lia|]. split; [now right|]. split; [reflexivity|]. split; [lia|]. exists a, (old ++ b). cbn [ds_d ds_nd ds_dp]. repeat split; try assumption; try lia.
    replace (len a + 8 + 1 - len a) with 9 by lia. lia. }
  destruct (trim_loop_spec 12 l c u 0 0 c0 cup ltac:(lia) ltac:(lia) ltac:(lia) Hu)
    as (k & l' & c' & u' & cn' & c0' & cup' & -> & [Tk Tl Tu Tc Tll Tlb Tub T0 T1] & Hstop). rewrite Z.add_0_l.
  specialize (Hstop ltac:(change (10 ^ Z.of_nat 12) with (10 ^ 9 * 1000); lia)).
  set (up := if 0 <? k then _ else cup').
  set (R' := if (c' <? u') && up then u32 (c' + 1) else c').
  assert (Hk9 : k <= 9).
  { destruct (Z.le_gt_cases k 9) as [|Hk]; [assumption|]. destruct (T1 ltac:(lia)) as [_ H].
    pose proof (Z.pow_le_mono_r 10 9 (k - 1) ltac:(lia) ltac:(lia)). lia. }
  pose proof (pow10_pos k Tk) as Pk.
  assert (Hu' : u' < 10 ^ (9 - k)).
  { assert (E : 10 ^ 9 = 10 ^ k * 10 ^ (9 - k)) by (rewrite <- Z.pow_add_r by lia; f_equal; lia). nia. }
  assert (Hu'9 : u' < 10 ^ 9) by nia.
  assert (HR : l' <= R' <= u').
  { unfold R'. rewrite u32_id by lia. destruct (Z.ltb_spec c' u') as [H|H]; cbn [andb].
    - destruct (Z.eq_dec k 0) as [->|Hk0].
      + destruct (T0 eq_refl) as (-> & -> & -> & ->). unfold up. change (0 <? 0) with false. cbv iota.
        destruct Hlc as [Hlc|[-> ->]]; [destruct cup; lia|lia].
      + destruct (T1 ltac:(lia)) as [H1 _]. destruct up; lia.
    - destruct (Z.eq_dec k 0) as [->|Hk0]; [destruct (T0 eq_refl) as (-> & -> & -> & ->); lia|].
      destruct (T1 ltac:(lia)); lia. }
  assert (H10 : cup = false -> R' * 10 ^ k = c \/ (R' * 10 ^ k) mod 10 = 0).
  { intros ->. destruct (Z.eq_dec k 0) as [->|Hk0].
    - left. destruct (T0 eq_refl) as (_ & -> & _ & ->). unfold R', up. change (0 <? 0) with false. cbv iota.
      rewrite andb_false_r. lia.
    - right. replace k with (k - 1 + 1) by lia. rewrite pow10_succ by lia.
      replace (R' * (10 * 10 ^ (k - 1))) with (R' * 10 ^ (k - 1) * 10) by ring. now apply Z.mod_mul. }
  clearbody R'. clear up.
  destruct (skipn_split old (9 - k) ltac:(lia)) as (o1 & o2 & -> & Ho1).
  rewrite <- app_assoc. replace (len a + 8 - k) with (len a + len o1 - 1) by lia.
  destruct (fill_pairs_spec 12 a o1 (o2 ++ b) R') as (ds & (Hd & Hlen & Hn) & ->); [rewrite Ho1; lia|lia|].
  exists (R' * 10 ^ k). split; [nia|]. split; [exact H10|].
  split.
  { intros ->. specialize (Tlb 0 ltac:(lia)). assert (l' = 0) by lia. subst l'. change ((0 + 9) / 10) with 0 in Hstop.
    assert (u' = 0) by (destruct Hstop; Z.to_euclidean_division_equations; lia). lia. }
  split.
  { intros H0. unfold sharp. cbn [ds_nd ds_dp]. rewrite Ho1.
    replace (len a + (9 - k) - 1 + 1 + k - (len a + (9 - k) - 1 + 1)) with k by lia.
    assert (Hl' : 0 < l') by nia.
    split.
    - split; [lia|]. destruct (Z.le_gt_cases k 8) as [|Hk]; [assumption|].
      pose proof (Z.pow_le_mono_r 10 9 k ltac:(lia) ltac:(lia)). nia.
    - intros z Hz. rewrite pow10_succ in Hz by lia. specialize (Tlb (10 * z) ltac:(lia)). specialize (Tub (10 * z) ltac:(lia)).
      destruct Hstop; Z.to_euclidean_division_equations; lia. }
  exists (a ++ ds), (o2 ++ b). cbn [ds_d ds_nd ds_dp].
  rewrite len_app, Hlen, Ho1. split; [now rewrite <- app_assoc|]. split; [lia|].
  split; [apply digits_app; now split|]. split; [lia|]. split; [lia|].
  replace (len a + (9 - k) - 1 + 1 + k - (len a + (9 - k))) with k by lia.
  rewrite num_app, Hn, Hlen, Ho1. replace (10 ^ 9) with (10 ^ (9 - k) * 10 ^ k); [ring|].
  rewrite <- Z.pow_add_r by lia. f_equal. lia.
Qed.

Lemma trim_end_shows fuel : forall d nd dp N, shows (mkSlice d nd dp) N -> shows (mkSlice d (trim_end fuel d nd) dp) N.
Proof.
  induction fuel as [|fuel IH]; intros d nd dp N H; [exact H|]. cbn [trim_end].
  destruct ((0 <? nd) && (at_ d (nd - 1) =? 48)) eqn:E; [|exact H]. apply IH.
  destruct H as (p & b & Ed & En & Hp & Hl & H18 & HN). cbn [ds_d ds_nd ds_dp] in *.
  destruct (list_snoc p (len p - 1)) as (q & x & -> & Hq); [lia|lia|]. rewrite len_app in *. change (len [x]) with 1 in *.
  assert (x = 48).
  { rewrite Ed, <- app_assoc in E. cbn [app] in E. rewrite at_here in E by lia. lia. }
  subst x. apply digits_app in Hp as [Hp _]. exists q, ([48] ++ b). cbn [ds_d ds_nd ds_dp].
  split; [now rewrite Ed, <- app_assoc|]. split; [lia|]. split; [exact Hp|]. split; [lia|]. split; [lia|].
  rewrite <- HN, num_app, num_one. change (10 ^ len [48]) with 10.
  replace (dp - len q) with (dp - (len q + 1) + 1) by lia. rewrite pow10_succ by lia. ring.
Qed.

(** ... without a zero in front. *)
Definition prints (s : decimalSlice) (N : Z) : Prop :=
  exists p b, ds_d s = p ++ b /\ ds_nd s = len p /\ digits p /\ len p <= ds_dp s /\ len p <= 18 /\
    num p * 10 ^ (ds_dp s - len p) = N /\ strip p = p.

Lemma trim_front_prints d : forall nd dp N, shows (mkSlice d nd dp) N -> prints (trim_front d nd dp) N.
Proof.
  assert (Stop : forall d nd dp N, shows (mkSlice d nd dp) N -> (nd <= 0 \/ match d with c :: _ => c <> 48 | [] => True end) ->
            prints (mkSlice d nd dp) N).
  { intros d' nd dp N (p & b & Ed & En & Hp & Hl & H18 & HN) H. cbn [ds_d ds_nd ds_dp] in *.
    exists p, b. repeat split; try assumption. destruct p as [|y p]; [reflexivity|]. rewrite Ed, len_cons in *. cbn [app] in H.
    pose proof (len_nonneg p). cbn [strip]. destruct H as [H|H]; [lia|]. now replace (y =? 48) with false by lia. }
  induction d as [|c d IH]; intros nd dp N H; cbn [trim_front]; [apply Stop; auto|].
  destruct ((0 <? nd) && (c =? 48)) eqn:E; [|apply Stop; [exact H|lia]].
  apply IH. destruct H as (p & b & Ed & En & Hp & Hl & H18 & HN). cbn [ds_d ds_nd ds_dp] in *.
  destruct p as [|y p]; [change (len []) with 0 in *; lia|]. injection Ed as -> Ed. rewrite len_cons in *.
  inversion Hp as [|? ? _ Hp']; subst. exists p, b. cbn [ds_d ds_nd ds_dp]. repeat split; try assumption; try lia.
  cbn [num]. replace y with 48 by lia. replace (dp - 1 - len p) with (dp - (len p + 1)) by lia. ring.
Qed.

Lemma divmod_spec x : 0 <= x < 10 ^ 18 -> divmod1e9 x = (x / 10 ^ 9, x mod 10 ^ 9) /\
  0 <= x / 10 ^ 9 < 10 ^ 9 /\ 0 <= x mod 10 ^ 9 < 10 ^ 9 /\ x = x / 10 ^ 9 * 10 ^ 9 + x mod 10 ^ 9.
Proof.
  intros H. change (10 ^ 9) with 1000000000 in *. change (10 ^ 18) with 1000000000000000000 in H.
  assert (B : 0 <= x / 1000000000 < 1000000000 /\ 0 <= x mod 1000000000 < 1000000000 /\
              x = x / 1000000000 * 1000000000 + x mod 1000000000) by (Z.to_euclidean_division_equations; lia).
  unfold divmod1e9. rewrite !u32_id by lia. auto.
Qed.

(** The trailing zeros go, and only those. *)
Lemma trim_end_last fuel : forall d nd, nd <= Z.of_nat fuel ->
  trim_end fuel d nd <= nd /\ (0 < trim_end fuel d nd -> at_ d (trim_end fuel d nd - 1) <> 48).
Proof.
  induction fuel as [|fuel IH]; intros d nd Hf; [cbn [trim_end]; lia|]. cbn [trim_end].
  destruct ((0 <? nd) && (at_ d (nd - 1) =? 48)) eqn:E.
  - destruct (IH d (nd - 1) ltac:(lia)) as [H1 H2]. split; [lia|exact H2].
  - split; [lia|]. intros H. lia.
Qed.

Lemma trim_front_point d : forall nd dp, ds_dp (trim_front d nd dp) - ds_nd (trim_front d nd dp) = dp - nd.
Proof.
  induction d as [|c d IH]; intros nd dp; cbn [trim_front]; [reflexivity|].
  destruct ((0 <? nd) && (c =? 48)); [rewrite IH; lia|reflexivity].
Qed.

(** No multiple of the power of ten above the last digit is between the bounds. *)
Definition minimal (s : decimalSlice) (l u : Z) : Prop :=
  forall z, ~ l <= z * 10 ^ (ds_dp s - ds_nd s + 1) <= u.

(** The two ways to reach it: the digits were minimal already, or all the low nine are
    zeros and the lower bound is the number itself. *)
Definition minimal_soon (s : decimalSlice) (N l u : Z) : Prop :=
  minimal s l u \/ exists H, N = H * 10 ^ 9 /\ l = N /\ u < (H + 1) * 10 ^ 9.

Lemma trimmed_minimal d nd dp N l u : shows (mkSlice d nd dp) N -> 0 < l -> l <= N <= u -> minimal_soon (mkSlice d nd dp) N l u ->
  minimal (mkSlice d (trim_end 32 d nd) dp) l u.
Proof.
  intros Hs Hl HN Hm z Hz. pose proof (trim_end_shows 32 d nd dp N Hs) as Ht.
  destruct Hs as (p0 & b0 & _ & E0 & _ & L0 & H180 & _). cbn [ds_nd ds_dp] in E0, L0.
  destruct (trim_end_last 32 d nd ltac:(change (Z.of_nat 32) with 32; lia)) as [Hle Hlast].
  set (nd' := trim_end 32 d nd) in *. clearbody nd'. cbn [ds_nd ds_dp] in Hz. destruct Hm as [Hm|(H & EN & El & Hu)].
  - apply (Hm (z * 10 ^ (nd - nd'))). cbn [ds_nd ds_dp]. rewrite <- Z.mul_assoc, <- Z.pow_add_r by lia.
    now replace (nd - nd' + (dp - nd + 1)) with (dp - nd' + 1) by lia.
  - destruct Ht as (p & b & Ed & En & Hp & Hlp & H18 & Hn). cbn [ds_d ds_nd ds_dp] in *. subst nd'.
    assert (H10 : num p mod 10 <> 0).
    { destruct p as [|x p'] using rev_ind; [cbn in Hn; lia|]. apply num_last_digit; [exact Hp|].
      rewrite len_app in Hlast. change (len [x]) with 1 in Hlast. pose proof (len_nonneg p').
      specialize (Hlast ltac:(lia)). rewrite Ed, <- app_assoc in Hlast. cbn [app] in Hlast. now rewrite at_here in Hlast by lia. }
    apply H10. set (t := dp - len p) in *. assert (Ht0 : 0 <= t) by lia. clearbody t.
    destruct (Z.le_gt_cases 9 (t + 1)) as [H9|H9].
    + assert (E : z * 10 ^ (t + 1) = N).
      { replace (t + 1) with (t + 1 - 9 + 9) in Hz |- * by lia. rewrite Z.pow_add_r, Z.mul_assoc in Hz |- * by lia.
        set (y := z * 10 ^ (t + 1 - 9)) in *. clearbody y. assert (y = H) by nia. subst y. now rewrite EN. }
      rewrite <- E, pow10_succ in Hn by lia. pose proof (pow10_pos t ltac:(lia)).
      assert (Ep : num p = z * 10) by nia. rewrite Ep. now apply Z.mod_mul.
    + assert (Ep : num p = H * 10 ^ (8 - t) * 10).
      { pose proof (pow10_pos t ltac:(lia)) as Pt. apply (Z.mul_reg_r _ _ (10 ^ t)); [lia|]. rewrite Hn, EN.
        replace 9 with (8 - t + 1 + t) at 1 by lia. rewrite Z.pow_add_r, pow10_succ by lia. ring. }
      rewrite Ep. now apply Z.mod_mul.
Qed.

(** The multiples of a low power of ten between numbers with the same high digits. *)
Lemma sharp_high s H l u : sharp s l u -> minimal s (H * 10 ^ 9 + l) (H * 10 ^ 9 + u).
Proof.
  intros [Ht Hs] z Hz. set (t := ds_dp s - ds_nd s) in *. apply (Hs (z - H * 10 ^ (8 - t))).
  assert (E : 10 ^ 9 = 10 ^ (8 - t) * 10 ^ (t + 1)) by (rewrite <- Z.pow_add_r by lia; f_equal; lia).
  rewrite E in Hz. lia.
Qed.

(** The printed digits are those of an integer between the bounds, as few as there are. *)
Lemma ryuDigits_spec l c u c0 cup : 0 < l <= c -> c <= u < 10 ^ 18 -> u - c < 5 * 10 ^ 8 ->
  exists N, l <= N <= u /\ (cup = false -> N = c \/ N mod 10 = 0) /\
    prints (ryuDigits (mkSlice new_buf 0 0) l c u c0 cup) N /\
    minimal (ryuDigits (mkSlice new_buf 0 0) l c u c0 cup) l u.
Proof.
  intros Hl Hu Hd. unfold ryuDigits.
  destruct (divmod_spec l ltac:(lia)) as (-> & Bl1 & Bl2 & El).
  destruct (divmod_spec c ltac:(lia)) as (-> & Bc1 & Bc2 & Ec).
  destruct (divmod_spec u ltac:(lia)) as (-> & Bu1 & Bu2 & Eu).
  set (lhi := l / 10 ^ 9) in *. set (llo := l mod 10 ^ 9) in *. set (chi := c / 10 ^ 9) in *. set (clo := c mod 10 ^ 9) in *.
  set (uhi := u / 10 ^ 9) in *. set (ulo := u mod 10 ^ 9) in *. clearbody lhi llo chi clo uhi ulo.
  change (10 ^ 9) with 1000000000 in *. change (10 ^ 8) with 100000000 in *. cbn [ds_d ds_nd ds_dp].
  change new_buf with ([] ++ repeat 0 9 ++ repeat 0 23).
  assert (Fin : forall s, (exists N, l <= N <= u /\ (cup = false -> N = c \/ N mod 10 = 0) /\ shows s N /\ minimal_soon s N l u) ->
            let s' := trim_front (ds_d s) (trim_end 32 (ds_d s) (ds_nd s)) (ds_dp s) in
            exists N, l <= N <= u /\ (cup = false -> N = c \/ N mod 10 = 0) /\ prints s' N /\ minimal s' l u).
  { intros [d nd dp] (N & HN & H10 & H & Hm). exists N. split; [exact HN|]. split; [exact H10|]. cbn [ds_d ds_nd ds_dp].
    split; [now apply trim_front_prints, trim_end_shows|]. unfold minimal. rewrite trim_front_point.
    exact (trimmed_minimal d nd dp N l u H (proj1 Hl) HN Hm). }
  apply Fin. clear Fin. destruct (Z.eqb_spec uhi 0) as [E0|E0]; [|destruct (Z.ltb_spec lhi uhi) as [Hlt|Hge]].
  - destruct (ryuDigits32_spec [] (repeat 0 9) (repeat 0 23) llo clo ulo c0 cup 0) as (R & HR & H10 & _ & Hsh & Hs);
      try solve [apply digits_nil | reflexivity | lia | discriminate].
    change (10 ^ 9) with 1000000000 in Hs. exists R. split; [lia|].
    split; [intros Hcup; destruct (H10 Hcup); [left|right]; lia|]. split; [exact Hs|]. left.
    specialize (Hsh ltac:(lia)). apply (sharp_high _ 0) in Hsh. replace l with (0 * 10 ^ 9 + llo) by lia.
    replace u with (0 * 10 ^ 9 + ulo) by lia. exact Hsh.
  - set (l1 := if llo =? 0 then lhi else u32 (lhi + 1)). set (cup1 := (500000000 <? clo) || ((clo =? 500000000) && cup)).
    assert (El1 : l1 = if llo =? 0 then lhi else lhi + 1).
    { unfold l1. destruct (llo =? 0); [reflexivity|]. apply u32_id. lia. }
    assert (Hc1 : l1 <= chi \/ l1 = chi + 1 /\ cup1 = true).
    { rewrite El1. destruct (Z.eqb_spec llo 0) as [H0|H0]; [left; lia|].
      destruct (Z.eq_dec chi lhi) as [->|]; [right; split; [reflexivity|unfold cup1; lia]|left; lia]. }
    assert (Hl1 : 0 < l1 <= uhi) by (rewrite El1; destruct (Z.eqb_spec llo 0); lia).
    destruct (ryuDigits32_spec [] (repeat 0 9) (repeat 0 23) l1 chi uhi (c0 && (clo =? 0)) cup1 0)
      as (R & HR & _ & _ & Hsh & p & b & Ed & En & Hp & Hlen & H18 & HN); try solve [apply digits_nil | reflexivity | lia | discriminate | exact Hc1].
    specialize (Hsh ltac:(lia)).
    change (len []) with 0 in *. change (0 + 8) with 8 in *. set (s := ryuDigits32 _ _ _ _ _ _ _) in *.
    assert (HlR : l <= R * 1000000000 <= u) by (rewrite El1 in HR; destruct (Z.eqb_spec llo 0); lia).
    exists (R * 1000000000). split; [exact HlR|].
    split; [intros _; right; Z.to_euclidean_division_equations; lia|]. split.
    + exists p, b. cbn [ds_d ds_nd ds_dp]. repeat split; try assumption; try lia.
      change (num [] * 10 ^ 9 + R) with R in HN. rewrite <- HN.
      replace (ds_dp s + 9 - len p) with (ds_dp s - len p + 9) by lia. rewrite Z.pow_add_r by lia. change (10 ^ 9) with 1000000000. ring.
    + left. intros z Hz. cbn [ds_d ds_nd ds_dp] in Hz. destruct Hsh as [Ht Hsh]. apply (Hsh z).
      replace (ds_dp s + 9 - ds_nd s + 1) with (ds_dp s - ds_nd s + 1 + 9) in Hz by lia.
      rewrite Z.pow_add_r, Z.mul_assoc in Hz by lia. change (10 ^ 9) with 1000000000 in Hz.
      rewrite El1. destruct (Z.eqb_spec llo 0); lia.
  - assert (lhi = uhi) by lia. assert (chi = uhi) by lia. subst lhi chi.
    destruct (high_digits_spec 10 (repeat 0 9) (repeat 0 23) uhi) as (pre & ds & E & Hds & Hlen & Hn).
    { change (10 ^ len (repeat 0 9)) with 1000000000. lia. } { change (10 ^ Z.of_nat 10) with 10000000000. lia. }
    cbn [app]. change (len (repeat 0 9)) with 9 in *. change (repeat 0 9 ++ repeat 0 23) with ([] ++ repeat 0 9 ++ repeat 0 23) in E.
    cbn [app] in E. rewrite E. rewrite skipn_len_app. cbn [ds_nd].
    replace (9 - len pre) with (len ds) by lia. change (repeat 0 23) with (repeat 0 9 ++ repeat 0 14).
    pose proof (len_nonneg pre).
    destruct (ryuDigits32_spec ds (repeat 0 9) (repeat 0 14) llo clo ulo c0 cup 0) as (R & HR & H10 & HR0 & Hsh & Hs);
      try solve [assumption | reflexivity | lia].
    rewrite Hn in Hs. change (10 ^ 9) with 1000000000 in Hs. exists (uhi * 1000000000 + R). split; [lia|].
    split; [intros Hcup; destruct (H10 Hcup) as [->|H0]; [left; lia|right]; Z.to_euclidean_division_equations; lia|].
    split; [exact Hs|]. destruct (Z.eq_dec llo 0) as [Hz|Hnz].
    + right. exists uhi. specialize (HR0 Hz). change (10 ^ 9) with 1000000000. lia.
    + left. specialize (Hsh ltac:(lia)). apply (sharp_high _ uhi) in Hsh. change (10 ^ 9) with 1000000000 in Hsh.
      now rewrite El, Eu.
Qed.
