(* ===== verification/RyuSpec.v ===== *)
(** The shortest digits of a float64 stay inside the interval that rounds to it. *)
From Stdlib Require Import ZArith Reals Lra Lia Bool List SpecFloat.
From S2P Require Import Prelude GoFloat Float64 Rounding Nearest Strconv Utf8 PowTable Tens Decimal Atof EiselSpec DecimalSpec AtofSpec Ftoa Convergents FtoaSpec.
Import ListNotations.
Local Open Scope Z_scope.

(** * The scale *)

Definition scale_q (e2 : Z) : Z := mulByLog2Log10 (- e2) + 1.

(** The product of a mantissa and the power is above the integer part from the bit [K] on. *)
Definition scale_bits (e2 : Z) : Z := - (e2 + pow10_exp (scale_q e2)).

Definition scale_ok (e2 : Z) : bool :=
  let q := scale_q e2 in
  let k := scale_bits e2 in
  (-291 <=? q) && (q <=? 324) && (124 <=? k) && (k <=? 127) &&
  (Z.shiftl 1 k <=? ryu_pow q) && (ryu_pow q <=? Z.shiftl 1 (k + 4)) &&
  (if (q <? 0) && (-24 <=? q) then 0 <=? e2 + q else true).

Lemma scales_ok : forallb (fun i => scale_ok (i - 1075)) (map Z.of_nat (seq 0 2046)) = true.
Proof. vm_compute. reflexivity. Qed.

Lemma scale_spec e2 : -1075 <= e2 <= 970 ->
  -291 <= scale_q e2 <= 324 /\ 124 <= scale_bits e2 <= 127 /\
  2 ^ scale_bits e2 <= ryu_pow (scale_q e2) <= 2 ^ (scale_bits e2 + 4) /\
  (-24 <= scale_q e2 < 0 -> 0 <= e2 + scale_q e2).
Proof.
  intros H. assert (S : scale_ok e2 = true).
  { pose proof (proj1 (forallb_forall _ _) scales_ok (e2 + 1075)) as S. cbv beta in S. replace (e2 + 1075 - 1075) with e2 in S by lia. apply S.
    apply in_map_iff. exists (Z.to_nat (e2 + 1075)). split; [lia|]. apply in_seq. lia. }
  unfold scale_ok in S. cbv zeta in S. rewrite !andb_true_iff in S. destruct S as ((((((S1 & S2) & S3) & S4) & S5) & S6) & S7).
  rewrite !Z.shiftl_mul_pow2, !Z.mul_1_l in S5, S6 by lia. repeat split; try lia.
  intros Hq. replace ((scale_q e2 <? 0) && (-24 <=? scale_q e2)) with true in S7 by lia. lia.
Qed.

Lemma pow10_exp_log q : mulByLog10Log2 q - 127 = pow10_exp q.
Proof.
  unfold mulByLog10Log2, pow10_exp. rewrite !Z.shiftr_div_pow2 by lia. f_equal.
  replace (217706 * q) with (q * 108853 * 2) by ring. change (2 ^ 16) with (2 ^ 15 * 2). now rewrite Z.div_mul_cancel_r.
Qed.

Definition low_word_ok (q : Z) : bool := fst (pow10_row q) + 1 <? 2 ^ 64.

Lemma low_words_ok : forallb (fun i => low_word_ok (i - 291)) (map Z.of_nat (seq 0 291)) = true.
Proof. vm_compute. reflexivity. Qed.

Lemma low_word q : -291 <= q < 0 -> fst (pow10_row q) + 1 < 2 ^ 64.
Proof.
  intros H. pose proof (proj1 (forallb_forall _ _) low_words_ok (q + 291)) as S. cbv beta in S.
  replace (q + 291 - 291) with q in S by lia. unfold low_word_ok in S. apply Z.ltb_lt. apply S.
  apply in_map_iff. exists (Z.to_nat (q + 291)). split; [lia|]. apply in_seq. lia.
Qed.

(** * The product *)

Lemma split_product h1 mid l0 : 0 <= mid < 2 ^ 64 -> 0 <= l0 < 2 ^ 64 ->
  let T := h1 * 2 ^ 128 + mid * 2 ^ 64 + l0 in
  T / 2 ^ 119 = h1 * 2 ^ 9 + mid / 2 ^ 55 /\ T mod 2 ^ 119 = mid mod 2 ^ 55 * 2 ^ 64 + l0.
Proof.
  intros Hm Hl T. pose proof (Z.div_mod mid (2 ^ 55) ltac:(lia)) as E. pose proof (Z.mod_pos_bound mid (2 ^ 55) ltac:(lia)) as B.
  set (x := mid / 2 ^ 55) in *. set (y := mid mod 2 ^ 55) in *. clearbody x y.
  assert (ET : T = 2 ^ 119 * (h1 * 2 ^ 9 + x) + (y * 2 ^ 64 + l0)) by (unfold T; rewrite E; ring).
  split; symmetry; [apply (Z.div_unique _ _ _ (y * 2 ^ 64 + l0))|apply (Z.mod_unique _ _ (h1 * 2 ^ 9 + x))]; lia.
Qed.

Lemma mult_spec m e2 q : -291 <= q <= 324 -> 0 <= m < 2 ^ 55 ->
  mult128bitPow10 m e2 q =
  Some (m * ryu_pow q / 2 ^ 119, e2 + pow10_exp q + 119, (m * ryu_pow q) mod 2 ^ 119 =? 0).
Proof.
  intros Hq Hm. unfold mult128bitPow10. destruct (Z.eqb_spec q 0) as [->|Hq0].
  - change (ryu_pow 0) with (2 ^ 8 * 2 ^ 119). rewrite Z.mul_assoc, Z.div_mul, Z.mod_mul by lia.
    rewrite Z.shiftl_mul_pow2, u64_id by lia. change (pow10_exp 0) with (-127). f_equal. f_equal. f_equal. lia.
  - replace (_ || _) with false by (unfold detailedPowersOfTenMinExp10, detailedPowersOfTenMaxExp10; lia).
    destruct (row_words q) as [H0 H1]; [unfold detailedPowersOfTenMinExp10, detailedPowersOfTenMaxExp10; lia|].
    assert (Ea : ryu_pow q = snd (pow10_row q) * 2 ^ 64 + (fst (pow10_row q) + Z.b2z (q <? 0))).
    { unfold ryu_pow, pow10_bits. ring. }
    assert (Hlow : 0 <= fst (pow10_row q) + Z.b2z (q <? 0) < 2 ^ 64).
    { destruct (Z.ltb_spec q 0); cbn [Z.b2z]; [pose proof (low_word q); lia|lia]. }
    destruct (pow10_row q) as [pow0 pow1]. cbn [fst snd] in *.
    replace (if q <? 0 then u64 (pow0 + 1) else pow0) with (pow0 + Z.b2z (q <? 0)).
    2:{ destruct (q <? 0); cbn [Z.b2z] in *; [now rewrite u64_id|lia]. }
    set (p0 := pow0 + Z.b2z (q <? 0)) in *. clearbody p0.
    destruct (Mul64 m p0) as [l1 l0] eqn:El. apply Mul64_spec in El as [El Hl0].
    destruct (Mul64 m pow1) as [h1 h0] eqn:Eh. apply Mul64_spec in Eh as [Eh Hh0].
    unfold Add64. rewrite Z.add_0_r, (u64_mod (l1 + h0)), (Z.shiftr_div_pow2 (l1 + h0)) by lia.
    pose proof (Z.div_mod (l1 + h0) (2 ^ 64) ltac:(lia)) as Em. pose proof (Z.mod_pos_bound (l1 + h0) (2 ^ 64) ltac:(lia)) as Bm.
    set (mid := (l1 + h0) mod 2 ^ 64) in *. set (cy := (l1 + h0) / 2 ^ 64) in *. clearbody mid cy.
    assert (ET : m * ryu_pow q = (h1 + cy) * 2 ^ 128 + mid * 2 ^ 64 + l0).
    { rewrite Ea, Z.mul_add_distr_l, El, Z.mul_assoc, Eh. change (2 ^ 128) with (2 ^ 64 * 2 ^ 64).
      transitivity ((h1 * 2 ^ 64 + (l1 + h0)) * 2 ^ 64 + l0); [ring|]. rewrite Em. ring. }
    assert (HT : 0 <= m * ryu_pow q < 2 ^ 183).
    { assert (ryu_pow q < 2 ^ 128) by (rewrite Ea; lia). assert (0 <= ryu_pow q) by (rewrite Ea; lia). nia. }
    assert (Hh : 0 <= h1 + cy < 2 ^ 55) by lia.
    rewrite (u64_id (h1 + cy)) by lia. destruct (split_product (h1 + cy) mid l0 Bm Hl0) as [E1 E2]. cbv zeta in E1, E2.
    rewrite ET, E1, E2, !Z.shiftl_mul_pow2, Z.shiftr_div_pow2 by lia. rewrite (u64_id ((h1 + cy) * 2 ^ 9)) by lia.
    rewrite lor_add by (split || idtac; Z.to_euclidean_division_equations; lia).
    f_equal. f_equal; [f_equal; rewrite <- pow10_exp_log; lia|].
    rewrite u64_mod. change (2 ^ 64) with (2 ^ 55 * 2 ^ 9) at 1. rewrite Zmult_mod_distr_r.
    pose proof (Z.mod_pos_bound mid (2 ^ 55) ltac:(lia)).
    destruct (Z.eqb_spec (mid mod 2 ^ 55 * 2 ^ 9) 0); destruct (Z.eqb_spec l0 0); cbn [andb]; lia.
Qed.

(** * The integer part *)

Definition exact_power (q : Z) : bool :=
  ryu_pow q * 2 ^ Z.max (pow10_exp q) 0 =? 10 ^ q * 2 ^ Z.max (- pow10_exp q) 0.

Lemma exact_powers : forallb exact_power (map Z.of_nat (seq 0 56)) = true.
Proof. vm_compute. reflexivity. Qed.

Lemma power_R a E q : 0 <= q -> a * 2 ^ Z.max E 0 = 10 ^ q * 2 ^ Z.max (- E) 0 -> (tp q = IZR a * bp E)%R.
Proof.
  intros Hq H. assert (Eb : (bp E = bp (- Z.max (- E) 0) * IZR (2 ^ Z.max E 0))%R).
  { rewrite <- bp_IZR, <- bp_add by lia. f_equal. lia. }
  pose proof (bp_neg (Z.max (- E) 0) ltac:(lia)) as Ib. apply (f_equal IZR) in H. rewrite !mult_IZR in H.
  rewrite Eb, (tp_IZR q) by lia.
  transitivity (IZR (10 ^ q) * (bp (- Z.max (- E) 0) * IZR (2 ^ Z.max (- E) 0)))%R; [rewrite Ib; ring|].
  transitivity (bp (- Z.max (- E) 0) * (IZR (10 ^ q) * IZR (2 ^ Z.max (- E) 0)))%R; [ring|]. rewrite <- H. ring.
Qed.

Lemma exact_power_R q : 0 <= q <= 55 -> (tp q = IZR (ryu_pow q) * bp (pow10_exp q))%R.
Proof.
  intros Hq. assert (H : exact_power q = true).
  { apply (proj1 (forallb_forall _ _) exact_powers). apply in_map_iff. exists (Z.to_nat q). split; [lia|]. apply in_seq. lia. }
  unfold exact_power in H. apply Z.eqb_eq in H. apply power_R; [lia|exact H].
Qed.

Lemma divisible_loop_spec k : forall m, divisible_loop k m = true <-> (5 ^ Z.of_nat k | m).
Proof.
  induction k as [|k IH]; intros m; cbn [divisible_loop].
  - split; [|reflexivity]. intros _. exists m. change (5 ^ Z.of_nat 0) with 1. lia.
  - rewrite Nat2Z.inj_succ, Z.pow_succ_r by lia. destruct (Z.eqb_spec (m mod 5) 0) as [H|H]; cbn [negb].
    + rewrite IH. pose proof (Z.div_mod m 5 ltac:(lia)) as E. split.
      * intros [z Hz]. exists z. lia.
      * intros [z Hz]. exists z. nia.
    + split; [discriminate|]. intros [z Hz]. exfalso. apply H. rewrite Hz.
      replace (z * (5 * 5 ^ Z.of_nat k)) with (z * 5 ^ Z.of_nat k * 5) by ring. now apply Z.mod_mul.
Qed.

Lemma divisible_spec m k : 0 < m -> 0 <= k -> divisibleByPower5 m k = true <-> (5 ^ k | m).
Proof.
  intros Hm Hk. unfold divisibleByPower5. replace (m =? 0) with false by lia.
  rewrite divisible_loop_spec, Z2Nat.id by exact Hk. reflexivity.
Qed.

(** The mark that a product is the exact one, as [ryuFtoaShortest] corrects it. *)
Definition exact_mark (q m : Z) (d0 : bool) : bool :=
  let d0 := if 55 <? q then false else d0 in
  if (q <? 0) && (-24 <=? q) then d0 || divisibleByPower5 m (- q) else d0.

Section Scaled.
Context (e2 m : Z).
Hypothesis He : -1075 <= e2 <= 970.
Hypothesis Hm : 0 < m < 2 ^ 55.

Let q := scale_q e2.
Let k := scale_bits e2.
Let T := m * ryu_pow q.

(** The scaled number. *)
Let t := (IZR m * bp e2 * tp q)%R.

Lemma scaled_unit x : (IZR m * bp e2 * (x * bp (pow10_exp q)) = IZR m * x * bp (- k))%R.
Proof.
  unfold k, scale_bits. fold q. replace (- - (e2 + pow10_exp q)) with (e2 + pow10_exp q) by lia. rewrite bp_add.
  generalize (bp e2) (bp (pow10_exp q)). intros. ring.
Qed.

Lemma scaled_bounds :
  ((IZR T - (if q <? 0 then IZR m else 0)) * bp (- k) <= t < (IZR T + (if q <? 0 then 0 else IZR m)) * bp (- k))%R.
Proof.
  destruct (scale_spec e2 He) as (Hq & _). fold q in Hq. destruct (pow10_R q) as [H1 H2].
  { unfold detailedPowersOfTenMinExp10, detailedPowersOfTenMaxExp10. lia. }
  assert (Pm : (0 < IZR m * bp e2)%R) by (apply Rmult_lt_0_compat; [apply IZR_lt; lia|apply bp_pos]).
  apply (Rmult_le_compat_l (IZR m * bp e2)) in H1; [|lra]. apply (Rmult_lt_compat_l (IZR m * bp e2)) in H2; [|exact Pm].
  rewrite scaled_unit in H1, H2. fold t in H1, H2. unfold T, ryu_pow. rewrite mult_IZR, plus_IZR.
  destruct (q <? 0); cbn [Z.b2z]; split; lra.
Qed.

Lemma scaled_exact : 0 <= q <= 55 -> t = (IZR T * bp (- k))%R.
Proof. intros Hq. unfold t. rewrite exact_power_R, scaled_unit by exact Hq. unfold T. now rewrite mult_IZR. Qed.

Let D := T / 2 ^ k.
Let r := T mod 2 ^ k.

Lemma remainder : T = D * 2 ^ k + r /\ 0 <= r < 2 ^ k /\ 124 <= k <= 127.
Proof.
  destruct (scale_spec e2 He) as (_ & Hk & _). fold k in Hk. pose proof (Z.pow_pos_nonneg 2 k ltac:(lia) ltac:(lia)).
  unfold D, r. pose proof (Z.div_mod T (2 ^ k) ltac:(lia)). pose proof (Z.mod_pos_bound T (2 ^ k) ltac:(lia)). lia.
Qed.

Lemma unit_inverse : (IZR (2 ^ k) * bp (- k) = 1 /\ 0 < bp (- k) <= bp (-124))%R.
Proof.
  destruct remainder as (_ & _ & Hk). split; [rewrite Rmult_comm; apply bp_neg; lia|].
  split; [apply bp_pos|apply bp_mono; lia].
Qed.

Lemma product_R x : ((IZR T + x) * bp (- k) = IZR D + (IZR r + x) * bp (- k))%R.
Proof.
  destruct remainder as (ET & _ & _). destruct unit_inverse as [Hu _]. rewrite ET, plus_IZR, mult_IZR.
  transitivity (IZR D * (IZR (2 ^ k) * bp (- k)) + (IZR r + x) * bp (- k))%R; [ring|]. now rewrite Hu, Rmult_1_r.
Qed.

Lemma below_one_unit x : (x <= IZR (2 ^ k) -> x * bp (- k) <= 1)%R.
Proof. intros H. destruct unit_inverse as [Hu [Hp _]]. rewrite <- Hu. apply Rmult_le_compat_r; lra. Qed.

(** Away from the small powers the product is not near an integer. *)
Lemma far_rows : q < -24 \/ 55 < q -> (IZR D < t < IZR D + 1)%R /\ r <> 0.
Proof.
  intros Hq. destruct (scale_spec e2 He) as (Hq' & _). fold q in Hq'.
  destruct remainder as (ET & Hr & Hk). destruct unit_inverse as [Hu [Hp _]].
  assert (Gap : forall n, 2 ^ 55 < Z.abs (T - n * 2 ^ k)).
  { intros n. replace (n * 2 ^ k) with (n * 2 ^ (k - 124) * 2 ^ 124).
    - apply pow10_gap; lia.
    - rewrite <- Z.mul_assoc, <- Z.pow_add_r by lia. do 2 f_equal. lia. }
  pose proof (Gap D) as G1. pose proof (Gap (D + 1)) as G2.
  assert (H1 : 2 ^ 55 < r) by lia. assert (H2 : r + 2 ^ 55 < 2 ^ k) by lia.
  assert (Hm' : (0 < IZR m < IZR (2 ^ 55))%R) by (split; apply IZR_lt; lia).
  apply IZR_lt in H1, H2. rewrite plus_IZR in H2.
  pose proof scaled_bounds as [B1 B2]. unfold Rminus in B1. rewrite product_R in B1, B2.
  split; [split|lia].
  - eapply Rlt_le_trans; [|exact B1]. assert (0 < IZR r + - (if q <? 0 then IZR m else 0))%R by (destruct (q <? 0); lra).
    pose proof (Rmult_lt_0_compat _ _ H Hp). lra.
  - eapply Rlt_le_trans; [exact B2|]. apply Rplus_le_compat_l, below_one_unit. destruct (q <? 0); lra.
Qed.

Lemma exact_rows : 0 <= q <= 55 -> (IZR D <= t < IZR D + 1)%R /\ (t = IZR D <-> r = 0).
Proof.
  intros Hq. destruct remainder as (ET & Hr & Hk). destruct unit_inverse as [Hu [Hp _]].
  pose proof (scaled_exact Hq) as Et. rewrite <- (Rplus_0_r (IZR T)), product_R, Rplus_0_r in Et.
  assert (H0 : (0 <= IZR r < IZR (2 ^ k))%R) by (split; [apply IZR_le|apply IZR_lt]; lia).
  rewrite Et. split; [split|].
  - pose proof (Rmult_le_pos (IZR r) (bp (- k)) ltac:(lra) ltac:(lra)). lra.
  - apply Rplus_lt_compat_l. rewrite <- Hu. apply Rmult_lt_compat_r; lra.
  - split; intros H.
    + apply eq_IZR. destruct (Rmult_integral (IZR r) (bp (- k)) ltac:(lra)); lra.
    + rewrite H. ring.
Qed.

(** Below one the exact value is a fraction with a small denominator. *)
Lemma fraction : -24 <= q < 0 -> (t * IZR (5 ^ (- q)) = IZR (m * 2 ^ (e2 + q)))%R.
Proof.
  intros Hq. destruct (scale_spec e2 He) as (_ & _ & _ & Hs). specialize (Hs Hq). fold q in Hs.
  pose proof (tp_neg (- q) ltac:(lia)) as It. rewrite Z.opp_involutive in It.
  change 10 with (2 * 5) in It. rewrite Z.pow_mul_l, mult_IZR in It.
  assert (Eb : (bp e2 = IZR (2 ^ (e2 + q)) * IZR (2 ^ (- q)))%R).
  { rewrite <- !bp_IZR, <- bp_add by lia. f_equal. lia. }
  unfold t. rewrite Eb, mult_IZR.
  transitivity (IZR m * IZR (2 ^ (e2 + q)) * (tp q * (IZR (2 ^ (- q)) * IZR (5 ^ (- q)))))%R; [ring|]. rewrite It. ring.
Qed.

Lemma small_rows : -24 <= q < 0 ->
  (IZR D <= t < IZR D + 1)%R /\ (t = IZR D <-> (5 ^ (- q) | m)) /\ ((5 ^ (- q) | m) -> r < 2 ^ 55) /\ r <> 0.
Proof.
  intros Hq. pose proof (fraction Hq) as Ef. destruct (scale_spec e2 He) as (_ & _ & _ & Hs). specialize (Hs Hq). fold q in Hs.
  destruct remainder as (ET & Hr & Hk). destruct unit_inverse as [Hu [Hp _]].
  pose proof scaled_bounds as [B1 B2]. replace (q <? 0) with true in B1, B2 by lia. unfold Rminus in B1.
  rewrite product_R in B1, B2. rewrite Rplus_0_r in B2.
  set (f := 5 ^ (- q)) in *. set (W := m * 2 ^ (e2 + q)) in *.
  assert (Hf : 0 < f <= 5 ^ 24) by (unfold f; split; [apply Z.pow_pos_nonneg|apply Z.pow_le_mono_r]; lia).
  assert (Hmf : m * f < 2 ^ k).
  { apply Z.lt_le_trans with (2 ^ 124); [|apply Z.pow_le_mono_r; lia].
    apply Z.le_lt_trans with (2 ^ 55 * 5 ^ 24); [apply Z.mul_le_mono_nonneg; lia|reflexivity]. }
  assert (Hf0 : (0 < IZR f)%R) by (apply IZR_lt; lia).
  assert (Hr0 : (0 <= IZR r < IZR (2 ^ k))%R) by (split; [apply IZR_le|apply IZR_lt]; lia).
  assert (Hru : (0 <= IZR r * bp (- k))%R) by (apply Rmult_le_pos; lra).
  assert (Hlow : (IZR D <= t)%R).
  { destruct (Rle_or_lt (IZR D) t) as [|Hlt]; [assumption|exfalso].
    apply (Rmult_lt_compat_r (IZR f)) in Hlt; [|exact Hf0]. rewrite Ef, <- mult_IZR in Hlt. apply lt_IZR in Hlt.
    assert (H1 : (1 <= (IZR D - t) * IZR f)%R).
    { rewrite Rmult_minus_distr_r, Ef, <- mult_IZR, <- minus_IZR. apply (IZR_le 1). lia. }
    assert (H2 : (IZR D - t <= IZR m * bp (- k))%R) by lra.
    apply (Rmult_le_compat_r (IZR f)) in H2; [|lra].
    assert (H3 : (IZR m * bp (- k) * IZR f < 1)%R).
    { rewrite <- Hu. replace (IZR m * bp (- k) * IZR f)%R with (IZR (m * f) * bp (- k))%R by (rewrite mult_IZR; ring).
      apply Rmult_lt_compat_r; [exact Hp|now apply IZR_lt]. }
    lra. }
  assert (Hup : (t < IZR D + 1)%R).
  { eapply Rlt_le_trans; [exact B2|]. apply Rplus_le_compat_l, below_one_unit. lra. }
  assert (Hdiv : t = IZR D <-> (f | m)).
  { split; intros H.
    - rewrite H, <- mult_IZR in Ef. apply eq_IZR in Ef. apply (Z.gauss f (2 ^ (e2 + q)) m).
      + exists D. unfold W in Ef. rewrite Ef. ring.
      + apply Z.coprime_pow_l; [lia|]. apply Z.coprime_pow_r; [lia|reflexivity].
    - destruct H as [z Hz].
      assert (Et : t = IZR (z * 2 ^ (e2 + q))).
      { apply (Rmult_eq_reg_r (IZR f)); [|lra]. rewrite Ef, <- mult_IZR. f_equal. unfold W. rewrite Hz. ring. }
      rewrite Et in *. f_equal. apply le_IZR in Hlow. rewrite <- (plus_IZR D 1) in Hup. apply lt_IZR in Hup. lia. }
  split; [now split|]. split; [exact Hdiv|]. split.
  - intros H. apply Hdiv in H. rewrite H in B1.
    assert (H1 : ((IZR r + - IZR m) * bp (- k) <= 0 * bp (- k))%R) by lra.
    apply Rmult_le_reg_r in H1; [|exact Hp]. assert (H2 : (IZR r <= IZR m)%R) by lra. apply le_IZR in H2. lia.
  - intros H. rewrite H in B2. lra.
Qed.

(** The printed bound is the integer part of the scaled number, and its mark says whether
    that is the whole of it. *)
Lemma scaled_parts :
  (IZR D <= t < IZR D + 1)%R /\
  (exact_mark q m (T mod 2 ^ 119 =? 0) && ((T / 2 ^ 119) mod 2 ^ (k - 119) =? 0) = true <-> t = IZR D).
Proof.
  destruct remainder as (ET & Hr & Hk).
  assert (Er : r = (T / 2 ^ 119) mod 2 ^ (k - 119) * 2 ^ 119 + T mod 2 ^ 119).
  { unfold r. replace (2 ^ k) with (2 ^ 119 * 2 ^ (k - 119)) by (rewrite <- Z.pow_add_r by lia; f_equal; lia).
    rewrite Z.rem_mul_r by (try apply Z.pow_pos_nonneg; lia). ring. }
  pose proof (Z.mod_pos_bound T (2 ^ 119) ltac:(lia)) as Bl.
  pose proof (Z.mod_pos_bound (T / 2 ^ 119) (2 ^ (k - 119)) ltac:(apply Z.pow_pos_nonneg; lia)) as Bh.
  set (hi := (T / 2 ^ 119) mod 2 ^ (k - 119)) in *. set (lo := T mod 2 ^ 119) in *. clearbody hi lo.
  unfold exact_mark.
  destruct (Z.ltb_spec 55 q) as [Hq|Hq].
  { replace (q <? 0) with false by lia. cbn [andb]. destruct (far_rows ltac:(lia)) as [H _]. split; [lra|].
    split; [discriminate|lra]. }
  destruct (Z.ltb_spec q 0) as [Hq0|Hq0]; cbn [andb].
  2:{ destruct (exact_rows ltac:(lia)) as [H E]. split; [exact H|]. rewrite E. lia. }
  destruct (Z.leb_spec (-24) q) as [Hq24|Hq24].
  - destruct (small_rows ltac:(lia)) as (H & E & H1 & H2). split; [exact H|]. rewrite E.
    rewrite <- (divisible_spec m (- q)) in * by lia. destruct (divisibleByPower5 m (- q)).
    + specialize (H1 eq_refl). rewrite orb_true_r. cbn [andb]. split; [reflexivity|lia].
    + rewrite orb_false_r. split; [lia|discriminate].
  - destruct (far_rows ltac:(lia)) as [H Hne]. split; [lra|]. split; [lia|lra].
Qed.

End Scaled.

(** * The interval *)

(** What [computeBounds] returns: the midpoints on both sides and the number between. *)
Lemma computeBounds_spec mant exp : canon mant exp -> exp <= 971 -> 0 < mant ->
  exists ml mc mu e2, computeBounds mant exp float64info = (ml, mc, mu, e2) /\
    -1075 <= e2 <= 970 /\ 0 < ml /\ 1 <= mc - ml <= 2 /\ 1 <= mu - mc <= 2 /\ mu < 2 ^ 55 /\
    (IZR ml * bp e2 = midpoint (code mant exp - 1))%R /\ (IZR mu * bp e2 = midpoint (code mant exp))%R /\
    (ml mod 10 = 0 -> Z.odd mant = false) /\ (mu mod 10 = 0 -> Z.odd mant = false).
Proof.
  intros (Hm & He & Hc) Hexp H0. unfold computeBounds. cbn [mantbits flt_bias float64info].
  change (Z.shiftl 1 52) with (2 ^ 52). change (-1023 + 1 - 52) with (-1074).
  rewrite midpoint_code, code_pred by lia.
  assert (B1 : forall e, (bp e = 2 * bp (e - 1))%R).
  { intros e. replace e with (1 + (e - 1)) at 1 by lia. rewrite bp_add. change (bp 1) with (2 * 1)%R. ring. }
  destruct (negb (mant =? 2 ^ 52) || (exp =? -1074)) eqn:Ec.
  - exists (2 * mant - 1), (2 * mant), (2 * mant + 1), (exp - 1). rewrite !u64_id by lia.
    rewrite midpoint_code by lia. rewrite (B1 exp), plus_IZR, !minus_IZR, !mult_IZR.
    assert (P : forall z, z mod 10 = 0 -> Z.odd z = false).
    { intros z Hz. rewrite (Z.div_mod z 10), Hz, Z.add_0_r, Z.odd_mul by lia. reflexivity. }
    split; [reflexivity|]. do 5 (split; [lia|]). split; [lra|]. split; [lra|]. split.
    + intros H. apply P in H. replace (2 * mant - 1) with (1 + 2 * (mant - 1)) in H by lia. now rewrite Z.odd_add_mul_2 in H.
    + intros H. apply P in H. replace (2 * mant + 1) with (1 + 2 * mant) in H by lia. now rewrite Z.odd_add_mul_2 in H.
  - assert (mant = 2 ^ 52) by lia. subst mant. exists (4 * 2 ^ 52 - 1), (4 * 2 ^ 52), (4 * 2 ^ 52 + 2), (exp - 2).
    rewrite !u64_id by lia. replace (code (2 ^ 52 - 1) exp) with (code (2 ^ 53 - 1) (exp - 1)) by (unfold code; lia).
    rewrite midpoint_code by lia. rewrite (B1 exp), (B1 (exp - 1)). replace (exp - 1 - 1) with (exp - 2) by lia.
    rewrite plus_IZR, !minus_IZR, mult_IZR.
    split; [reflexivity|]. do 5 (split; [lia|]). change (2 ^ 53) with (2 * 2 ^ 52). rewrite mult_IZR.
    split; [lra|]. split; [lra|]. split; reflexivity.
Qed.

(** * The digits *)

(** The slice spells the number [x]. *)
Definition spelt (s : decimalSlice) (x : R) : Prop :=
  exists p b, ds_d s = p ++ b /\ ds_nd s = len p /\ digits p /\ len p <= 18 /\ strip p = p /\
    x = (IZR (num p) * tp (ds_dp s - len p))%R.

Lemma prints_spelt s N q : prints s N -> spelt (mkSlice (ds_d s) (ds_nd s) (ds_dp s - q)) (IZR N * tp (- q)).
Proof.
  intros (p & b & Ed & En & Hp & Hl & H18 & HN & Hs). exists p, b. cbn [ds_d ds_nd ds_dp]. repeat split; try assumption.
  rewrite <- HN, mult_IZR, <- tp_IZR, Rmult_assoc, <- tp_add by lia. do 2 f_equal. lia.
Qed.

Lemma prints_spelt_0 s N : prints s N -> spelt s (IZR N).
Proof.
  intros H. apply (prints_spelt s N 0) in H. rewrite Z.sub_0_r in H. change (- 0) with 0 in H. rewrite tp_0, Rmult_1_r in H.
  now destruct s.
Qed.

(** Between the midpoints, and strictly for an odd mantissa. *)
Lemma nearest_between x mant exp : canon mant exp -> exp <= 971 -> 0 < mant ->
  (midpoint (code mant exp - 1) <= x <= midpoint (code mant exp))%R ->
  (Z.odd mant = true -> (midpoint (code mant exp - 1) < x < midpoint (code mant exp))%R) ->
  nearest x (code mant exp).
Proof.
  intros (Hm & He & Hc) Hexp H0 Hx Ho.
  assert (Hn : 1 <= code mant exp < inf_bits) by (unfold code, inf_bits; nia).
  assert (Hx0 : (0 <= x)%R).
  { eapply Rle_trans; [|exact (proj1 Hx)]. pose proof (value_lt (code mant exp - 1) ltac:(lia)).
    pose proof (value_nonneg (code mant exp - 1) ltac:(lia)). lra. }
  split; [lia|]. split; [exact Hx0|]. rewrite code_odd. split; intros _; (split; [apply Hx|intros H; now apply Ho]).
Qed.

Lemma trailing_zeros_spec m j : 0 < m -> 0 <= j <= TrailingZeros64 m -> m = Z.shiftr m j * 2 ^ j.
Proof.
  intros Hm Hj. rewrite Z.shiftr_div_pow2 by lia. destruct m as [|p|p]; try lia. cbn [TrailingZeros64] in Hj.
  assert (H : forall p, exists z, Zpos p = z * 2 ^ trailing_zeros p).
  { clear. induction p as [p IH|p IH|]; cbn [trailing_zeros]; [exists (Zpos p~1); lia| |exists 1; lia].
    destruct IH as [z Hz]. exists z. assert (0 <= trailing_zeros p) by (clear; induction p; cbn [trailing_zeros]; lia).
    rewrite Z.pow_add_r by lia. change (2 ^ 1) with 2. lia. }
  destruct (H p) as [z Hz]. assert (E : 2 ^ trailing_zeros p = 2 ^ (trailing_zeros p - j) * 2 ^ j).
  { rewrite <- Z.pow_add_r by lia. f_equal. lia. }
  rewrite Hz, E, Z.mul_assoc, Z.div_mul; [reflexivity|]. pose proof (Z.pow_pos_nonneg 2 j). lia.
Qed.

(** ** The general case *)

(** The bounds and the centre as integers, scaled by the power. *)
Section General.
Context (ml mc mu e2 : Z).
Hypothesis He : -1075 <= e2 <= 970.
Hypothesis Hl : 0 < ml.
Hypothesis Hlc : 1 <= mc - ml <= 2.
Hypothesis Hcu : 1 <= mu - mc <= 2.
Hypothesis Hu : mu < 2 ^ 55.

Let q := scale_q e2.
Let k := scale_bits e2.
Let a := ryu_pow q.
Let part (m : Z) : Z := m * a / 2 ^ k.

Lemma parts_apart : 0 < part ml /\ part ml + 1 <= part mc /\ part mc + 1 <= part mu <= part mc + 33 /\ part mu < 10 ^ 18.
Proof.
  destruct (scale_spec e2 He) as (_ & Hk & [H1 H2] & _). fold q k a in Hk, H1, H2.
  rewrite Z.pow_add_r in H2 by lia. change (2 ^ 4) with 16 in H2.
  assert (HP : 0 < 2 ^ k) by (apply Z.pow_pos_nonneg; lia). set (P := 2 ^ k) in *. clearbody P.
  assert (Step : forall m m' d, m + d <= m' -> 0 <= d -> part m + d <= part m').
  { intros m m' d Hd Hd0. unfold part. rewrite <- Z.div_add by lia. apply Z.div_le_mono; nia. }
  assert (Top : forall m m' d, m' <= m + d -> 0 <= d -> part m' <= part m + 16 * d + 1).
  { intros m m' d Hd Hd0. unfold part. transitivity ((m * a + 16 * d * P) / P).
    - apply Z.div_le_mono; nia.
    - rewrite Z.div_add by lia. lia. }
  pose proof (Step ml mc 1 ltac:(lia) ltac:(lia)). pose proof (Step mc mu 1 ltac:(lia) ltac:(lia)).
  pose proof (Top mc mu 2 ltac:(lia) ltac:(lia)).
  assert (0 < part ml) by (apply Z.div_str_pos; nia).
  assert (part mu < 10 ^ 18).
  { apply Z.div_lt_upper_bound; [exact HP|]. apply Z.le_lt_trans with (2 ^ 55 * (16 * P)); [nia|lia]. }
  lia.
Qed.

Lemma shift_parts T : Z.shiftr (T / 2 ^ 119) (k - 119) = T / 2 ^ k /\
  Z.land (T / 2 ^ 119) (u64 (Z.shiftl 1 (k - 119) - 1)) = (T / 2 ^ 119) mod 2 ^ (k - 119).
Proof.
  destruct (scale_spec e2 He) as (_ & Hk & _). fold k in Hk.
  pose proof (Z.pow_le_mono_r 2 (k - 119) 8 ltac:(lia) ltac:(lia)). pose proof (Z.pow_pos_nonneg 2 (k - 119) ltac:(lia) ltac:(lia)).
  rewrite Z.shiftr_div_pow2, Z.div_div, <- Z.pow_add_r by lia. replace (119 + (k - 119)) with k by lia. split; [reflexivity|].
  rewrite Z.shiftl_mul_pow2, Z.mul_1_l, u64_id by lia. apply land_mask. lia.
Qed.

Let mark (m : Z) : bool := exact_mark q m ((m * a) mod 2 ^ 119 =? 0).
Let frac (m : Z) : Z := (m * a / 2 ^ 119) mod 2 ^ (k - 119).

(** The bounds that the digits are chosen between. *)
Definition lower_bound (even : bool) : Z := if mark ml && (frac ml =? 0) && even then part ml else u64 (part ml + 1).
Definition upper_bound (even : bool) : Z :=
  if (if mark mu && (frac mu =? 0) then even else negb (mark mu) || (0 <? frac mu)) then part mu else u64 (part mu - 1).

Lemma bounds_inside even N : lower_bound even <= N <= upper_bound even ->
  (IZR ml * bp e2 <= IZR N * tp (- q) <= IZR mu * bp e2)%R /\
  (even = false -> (IZR ml * bp e2 < IZR N * tp (- q) < IZR mu * bp e2)%R).
Proof.
  intros HN. pose proof (scaled_parts e2 ml He ltac:(lia)) as [Fl Ml]. pose proof (scaled_parts e2 mu He ltac:(lia)) as [Fu Mu].
  fold q k in Fl, Ml, Fu, Mu. fold a in Fl, Ml, Fu, Mu. fold (part ml) (part mu) in Fl, Ml, Fu, Mu.
  fold (mark ml) (frac ml) in Ml. fold (mark mu) (frac mu) in Mu.
  assert (E : forall m, (IZR m * bp e2 = IZR m * bp e2 * tp q * tp (- q))%R).
  { intros m. rewrite Rmult_assoc, (Rmult_comm (tp q)), tp_inv. ring. }
  rewrite (E ml), (E mu). pose proof (tp_pos (- q)) as Pq.
  set (tl := (IZR ml * bp e2 * tp q)%R) in *. set (tu := (IZR mu * bp e2 * tp q)%R) in *. clearbody tl tu.
  destruct parts_apart as (H0 & H1 & H2 & H3).
  assert (Hlow : (tl <= IZR N /\ (even = false -> tl < IZR N))%R).
  { unfold lower_bound in HN. destruct (mark ml && (frac ml =? 0)) eqn:Em.
    - pose proof (proj1 Ml eq_refl) as Et. destruct even; cbn [andb] in HN.
      + rewrite Et. split; [apply IZR_le; lia|discriminate].
      + rewrite u64_id in HN by lia. rewrite Et. split; [apply IZR_le; lia|intros _; apply IZR_lt; lia].
    - cbn [andb] in HN. rewrite u64_id in HN by lia. assert (HN' : part ml + 1 <= N) by lia. apply IZR_le in HN'.
      rewrite plus_IZR in HN'. split; [|intros _]; lra. }
  assert (Hup : (IZR N <= tu /\ (even = false -> IZR N < tu))%R).
  { unfold upper_bound in HN. destruct (mark mu && (frac mu =? 0)) eqn:Em.
    - pose proof (proj1 Mu eq_refl) as Et. destruct even.
      + rewrite Et. split; [apply IZR_le; lia|discriminate].
      + rewrite u64_id in HN by lia. rewrite Et. split; [apply IZR_le; lia|intros _; apply IZR_lt; lia].
    - assert (Hf : negb (mark mu) || (0 <? frac mu) = true).
      { unfold frac in *. pose proof (Z.mod_pos_bound (mu * a / 2 ^ 119) (2 ^ (k - 119))).
        destruct (scale_spec e2 He) as (_ & Hk & _). fold k in Hk. pose proof (Z.pow_pos_nonneg 2 (k - 119) ltac:(lia) ltac:(lia)).
        destruct (mark mu); cbn [negb andb orb] in *; lia. }
      rewrite Hf in HN. assert (HN' : N <= part mu) by lia. apply IZR_le in HN'.
      assert (Hne : tu <> IZR (part mu)) by (intros H; apply Mu in H; discriminate). split; [|intros _]; lra. }
  split; [split; apply Rmult_le_compat_r; lra|]. intros Ho. destruct Hlow as [_ Hlow], Hup as [_ Hup].
  split; apply Rmult_lt_compat_r; auto.
Qed.

(** ... and every integer of the interval is between them. *)
Lemma bounds_complete even N :
  (IZR ml * bp e2 <= IZR N * tp (- q) <= IZR mu * bp e2)%R ->
  (even = false -> (IZR ml * bp e2 < IZR N * tp (- q) < IZR mu * bp e2)%R) -> lower_bound even <= N <= upper_bound even.
Proof.
  intros HN Ho. pose proof (scaled_parts e2 ml He ltac:(lia)) as [Fl Ml]. pose proof (scaled_parts e2 mu He ltac:(lia)) as [Fu Mu].
  fold q k in Fl, Ml, Fu, Mu. fold a in Fl, Ml, Fu, Mu. fold (part ml) (part mu) in Fl, Ml, Fu, Mu.
  fold (mark ml) (frac ml) in Ml. fold (mark mu) (frac mu) in Mu.
  assert (E : forall m, (IZR m * bp e2 = IZR m * bp e2 * tp q * tp (- q))%R).
  { intros m. rewrite Rmult_assoc, (Rmult_comm (tp q)), tp_inv. ring. }
  rewrite (E ml), (E mu) in HN, Ho. pose proof (tp_pos (- q)) as Pq.
  set (tl := (IZR ml * bp e2 * tp q)%R) in *. set (tu := (IZR mu * bp e2 * tp q)%R) in *. clearbody tl tu.
  destruct parts_apart as (H0 & H1 & H2 & H3).
  assert (HN1 : (tl <= IZR N <= tu)%R) by (split; apply (Rmult_le_reg_r (tp (- q))); tauto).
  assert (Ho1 : even = false -> (tl < IZR N < tu)%R) by (intros He'; specialize (Ho He'); split; apply (Rmult_lt_reg_r (tp (- q))); tauto).
  unfold lower_bound, upper_bound. split.
  - destruct (mark ml && (frac ml =? 0)) eqn:Em.
    + pose proof (proj1 Ml eq_refl) as Et. rewrite Et in *. destruct even; cbn [andb].
      * apply le_IZR, HN1.
      * rewrite u64_id by lia. assert (part ml < N) by (apply lt_IZR, Ho1, eq_refl). lia.
    + cbn [andb]. rewrite u64_id by lia. assert (Hne : tl <> IZR (part ml)) by (intros H; apply Ml in H; discriminate).
      assert (part ml < N) by (apply lt_IZR; lra). lia.
  - assert (Hlt : N < part mu + 1) by (apply lt_IZR; rewrite plus_IZR; lra).
    destruct (mark mu && (frac mu =? 0)) eqn:Em.
    + pose proof (proj1 Mu eq_refl) as Et. rewrite Et in *. destruct even; [lia|].
      rewrite u64_id by lia. assert (N < part mu) by (apply lt_IZR, Ho1, eq_refl). lia.
    + destruct (negb (mark mu) || (0 <? frac mu)) eqn:Ef; [lia|].
      unfold frac in *. pose proof (Z.mod_pos_bound (mu * a / 2 ^ 119) (2 ^ (k - 119))) as Hb.
      destruct (scale_spec e2 He) as (_ & Hk & _). fold k in Hk. pose proof (Z.pow_pos_nonneg 2 (k - 119) ltac:(lia) ltac:(lia)).
      destruct (mark mu); cbn [negb andb orb] in *; lia.
Qed.

Lemma bounds_order even : 0 < lower_bound even <= part mc /\ part mc <= upper_bound even < 10 ^ 18 /\ upper_bound even - part mc < 5 * 10 ^ 8.
Proof.
  destruct parts_apart as (H0 & H1 & H2 & H3). unfold lower_bound, upper_bound.
  rewrite !u64_id by lia. destruct (_ && even); destruct (if _ && _ then even else _); lia.
Qed.

(** The digits [ryuFtoaShortest] prints in this case. *)
Lemma general_digits mant exp : mant <> 0 -> (exp <=? 0) && (- exp <=? TrailingZeros64 mant) = false ->
  computeBounds mant exp float64info = (ml, mc, mu, e2) -> e2 <> 0 ->
  exists c0 cup, let s := ryuDigits (mkSlice new_buf 0 0) (lower_bound (Z.land mant 1 =? 0)) (part mc) (upper_bound (Z.land mant 1 =? 0)) c0 cup in
    ryuFtoaShortest mant exp float64info = Some (mkSlice (ds_d s) (ds_nd s) (ds_dp s - q)).
Proof.
  intros Hm Hx Hb H0. destruct (scale_spec e2 He) as (Hq & Hbits & _). fold q in Hq.
  assert (Hneg : (0 <=? e2 + pow10_exp q + 119) = false) by (unfold scale_bits in Hbits; fold q in Hbits; lia).
  unfold ryuFtoaShortest. replace (mant =? 0) with false by lia. rewrite Hx, Hb. replace (e2 =? 0) with false by lia.
  fold (scale_q e2). fold q. rewrite !mult_spec by lia. fold a. cbv iota beta. rewrite Hneg.
  set (dl0 := (ml * a) mod 2 ^ 119 =? 0). set (dc0 := (mc * a) mod 2 ^ 119 =? 0). set (du0 := (mu * a) mod 2 ^ 119 =? 0).
  assert (Emark : (let '(dl0, dc0, du0) := if 55 <? q then (false, false, false) else (dl0, dc0, du0) in
                   if (q <? 0) && (-24 <=? q) then
                     (dl0 || divisibleByPower5 ml (- q), dc0 || divisibleByPower5 mc (- q), du0 || divisibleByPower5 mu (- q))
                   else (dl0, dc0, du0)) = (mark ml, exact_mark q mc dc0, mark mu)).
  { unfold mark, exact_mark. fold dl0 du0. destruct (55 <? q), ((q <? 0) && (-24 <=? q)); reflexivity. }
  cbv beta iota zeta in Emark |- *.
  destruct (if 55 <? q then (false, false, false) else (dl0, dc0, du0)) as [[bl bc] bu]. rewrite Emark. clear Emark bl bc bu.
  replace (- (e2 + pow10_exp q + 119)) with (k - 119) by (unfold k, scale_bits; fold q; lia).
  rewrite !(proj1 (shift_parts _)), !(proj2 (shift_parts _)).
  do 2 eexists. reflexivity.
Qed.

End General.

Lemma even_test mant : (Z.land mant 1 =? 0) = Z.even mant.
Proof.
  change (Z.land mant 1) with (Z.land mant (2 ^ 1 - 1)). rewrite land_mask by lia. change (2 ^ 1) with 2.
  rewrite Zmod_odd, <- Z.negb_odd. destruct (Z.odd mant); reflexivity.
Qed.

(** ** As few digits as there are *)

Lemma nearest_convex a b y n : nearest a n -> nearest b n -> (a <= y <= b)%R -> nearest y n.
Proof.
  intros (Hn & Ha & Hla & _) (_ & _ & _ & Hub) Hy. split; [exact Hn|]. split; [lra|]. split.
  - intros H. destruct (Hla H) as [H1 H2]. split; [lra|]. intros Ho. specialize (H2 Ho). lra.
  - intros H. destruct (Hub H) as [H1 H2]. split; [lra|]. intros Ho. specialize (H2 Ho). lra.
Qed.

Lemma nearest_zero n : nearest 0 n -> n <= 0.
Proof.
  intros (Hn & _ & Hl & _). destruct (Z.le_gt_cases n 0) as [|H]; [assumption|]. destruct (Hl ltac:(lia)) as [H1 _].
  pose proof (value_lt (n - 1) ltac:(lia)). pose proof (value_nonneg (n - 1) ltac:(lia)). lra.
Qed.

(** No decimal with fewer digits rounds to [n]. *)
Definition fewest (k n : Z) : Prop := forall M j, 0 <= M -> nearest (IZR M * tp j) n -> 10 ^ (k - 1) <= M.

Lemma minimal_fewest s N L U q n : prints s N -> minimal s L U -> 0 < n -> nearest (IZR N * tp (- q)) n ->
  (forall z, nearest (IZR z * tp (- q)) n -> L <= z <= U) -> fewest (ds_nd s) n.
Proof.
  intros (p & b & _ & En & Hp & Hl & _ & HN & Hs) Hmin Hn HxN Hall M j HM Hx. unfold minimal in Hmin. rewrite En in *.
  set (t := ds_dp s - len p) in *. assert (Ht : 0 <= t) by lia. clearbody t.
  destruct (Z.le_gt_cases (10 ^ (len p - 1)) M) as [|Hlt]; [assumption|exfalso].
  destruct (Z.le_gt_cases (t + 1) (j + q)) as [Hj|Hj].
  - apply (Hmin (M * 10 ^ (j + q - (t + 1)))). rewrite <- Z.mul_assoc, <- Z.pow_add_r by lia.
    replace (j + q - (t + 1) + (t + 1)) with (j + q) by lia. apply Hall.
    rewrite mult_IZR, <- tp_IZR, Rmult_assoc, <- tp_add by lia. now replace (j + q + - q) with j by lia.
  - destruct p as [|c p].
    { cbn [num] in HN. rewrite <- HN, Rmult_0_l in HxN. apply nearest_zero in HxN. lia. }
    pose proof (strip_head (c :: p)) as Hh. rewrite Hs in Hh. pose proof (num_head c p Hp Hh) as Hb.
    rewrite len_cons in *. replace (len p + 1 - 1) with (len p) in Hlt by lia. pose proof (len_nonneg p) as Hl0.
    assert (HB : nearest (IZR (10 ^ (len p + t)) * tp (- q)) n).
    { pose proof (tp_pos (- q)) as Pq. apply (nearest_convex _ _ _ n Hx HxN). split.
      - apply Rle_trans with (IZR (10 ^ len p) * tp (t - q))%R.
        + apply Rmult_le_compat; [apply IZR_le; lia|pose proof (tp_pos j); lra|apply IZR_le; lia|apply tp_le; lia].
        + apply Req_le. rewrite <- !tp_IZR, <- !tp_add by lia. f_equal. lia.
      - apply Rmult_le_compat_r; [lra|]. apply IZR_le. rewrite <- HN, Z.pow_add_r by lia.
        apply Z.mul_le_mono_nonneg_r; [apply Z.pow_nonneg; lia|exact Hb]. }
    destruct (Z.eq_dec (len p) 0) as [E0|E0].
    + rewrite E0 in Hlt. change (10 ^ 0) with 1 in Hlt. assert (M = 0) by lia. subst M. rewrite Rmult_0_l in Hx.
      apply nearest_zero in Hx. lia.
    + apply (Hmin (10 ^ (len p - 1))). rewrite <- Z.pow_add_r by lia. replace (len p - 1 + (t + 1)) with (len p + t) by lia.
      now apply Hall.
Qed.

(** The integers next to an integer that is a float with a spacing of at most one. *)
Lemma integer_alone mant exp N z : canon mant exp -> exp <= 0 -> 0 < mant -> (IZR N = IZR mant * bp exp)%R ->
  nearest (IZR z * tp (- 0)) (code mant exp) -> N <= z <= N.
Proof.
  intros (Hm & He & Hc) Hexp H0 EN Hz. change (- 0) with 0 in Hz. rewrite tp_0, Rmult_1_r in Hz.
  assert (Hcode : 0 < code mant exp < inf_bits) by (unfold code, inf_bits; nia).
  destruct Hz as (_ & _ & Hl & Hu). destruct (Hl ltac:(lia)) as [Hl' _]. destruct (Hu ltac:(lia)) as [Hu' _].
  rewrite midpoint_code in Hu' by lia.
  assert (Hb : (0 < bp exp <= 1)%R) by (split; [apply bp_pos|change 1%R with (bp 0); apply bp_mono; lia]).
  pose proof (value_lt (code mant exp - 1) ltac:(lia)) as [Hv _].
  assert (Hval : (IZR N - 1 <= value (code mant exp - 1))%R).
  { rewrite code_pred. destruct (Z.eq_dec mant (2 ^ 52)) as [->|Hne]; [destruct (Z.eq_dec exp (-1074)) as [->|Hne2]|].
    - rewrite value_code, minus_IZR by lia. lra.
    - replace (code (2 ^ 52 - 1) exp) with (code (2 ^ 53 - 1) (exp - 1)) by (unfold code; lia).
      rewrite value_code by lia. replace exp with (1 + (exp - 1)) in EN, Hb by lia. rewrite bp_add in EN, Hb.
      change (bp 1) with (2 * 1)%R in EN, Hb. change (2 ^ 53 - 1) with (2 * 2 ^ 52 - 1). rewrite minus_IZR, mult_IZR. lra.
    - rewrite value_code, minus_IZR by lia. lra. }
  assert (H1 : (IZR N - 1 < IZR z)%R) by lra. assert (H2 : (IZR z < IZR N + 1)%R) by lra.
  rewrite <- minus_IZR in H1. rewrite <- plus_IZR in H2. apply lt_IZR in H1, H2. lia.
Qed.

(** The shortest digits spell a number that rounds to the float they are printed for, and
    no decimal with fewer digits does. *)
Lemma ryuFtoaShortest_nearest mant exp : canon mant exp -> exp <= 971 ->
  exists s x, ryuFtoaShortest mant exp float64info = Some s /\ spelt s x /\ nearest x (code mant exp) /\
    fewest (ds_nd s) (code mant exp).
Proof.
  intros Hc Hexp. pose proof Hc as (Hm & He & Hmin).
  assert (Hval : nearest (value (code mant exp)) (code mant exp)).
  { apply nearest_value. unfold code, inf_bits. nia. }
  rewrite value_code in Hval by lia.
  destruct (Z.eq_dec mant 0) as [->|H0].
  { eexists _, 0%R. rewrite Rmult_0_l in Hval. split; [reflexivity|]. split; [|split; [exact Hval|]].
    - exists [], new_buf. repeat split; try constructor; try discriminate. cbn. now rewrite Rmult_0_l.
    - intros M j HM _. exact HM. }
  assert (Hcode : 0 < code mant exp) by (unfold code; nia).
  destruct ((exp <=? 0) && (- exp <=? TrailingZeros64 mant)) eqn:Eint.
  { pose proof (trailing_zeros_spec mant (- exp) ltac:(lia) ltac:(lia)) as Ez.
    unfold ryuFtoaShortest. replace (mant =? 0) with false by lia. rewrite Eint.
    set (N := Z.shiftr mant (- exp)) in *. clearbody N.
    eexists _, (IZR mant * bp exp)%R.
    assert (HP : 0 < 2 ^ (- exp)) by (apply Z.pow_pos_nonneg; lia). assert (HN : 0 < N < 2 ^ 53) by nia.
    assert (EN : (IZR N = IZR mant * bp exp)%R).
    { rewrite Ez, mult_IZR, <- bp_IZR, Rmult_assoc, <- bp_add by lia. replace (- exp + exp) with 0 by lia.
      change (bp 0) with 1%R. now rewrite Rmult_1_r. }
    destruct (ryuDigits_spec N N N true false) as (N' & HN' & _ & Hp & Hmn); [lia|lia|lia|].
    replace N' with N in * by lia. rewrite <- EN in *. split; [reflexivity|]. split; [now apply prints_spelt_0|]. split; [exact Hval|].
    apply (minimal_fewest _ N N N 0); try assumption.
    - change (- 0) with 0. now rewrite tp_0, Rmult_1_r.
    - intros z. apply integer_alone; try assumption; lia. }
  destruct (computeBounds_spec mant exp Hc Hexp ltac:(lia)) as (ml & mc & mu & e2 & Eb & He2 & Hml & Hlc & Hcu & Hmu & E1 & E2 & P1 & P2).
  assert (Hinf : code mant exp < inf_bits) by (unfold code, inf_bits; nia).
  destruct (Z.eq_dec e2 0) as [->|He0].
  - change (bp 0) with 1%R in E1, E2. rewrite Rmult_1_r in E1, E2.
    destruct (ryuDigits_spec ml mc mu true false) as (N & HN & H10 & Hp & Hmn); [lia|lia|lia|]. specialize (H10 eq_refl).
    assert (Hx : nearest (IZR N) (code mant exp)).
    { apply nearest_between; try assumption; try lia; rewrite <- E1, <- E2.
      - split; apply IZR_le; lia.
      - intros Ho. destruct H10 as [->|H10]; [split; apply IZR_lt; lia|].
        assert (N <> ml) by (intros ->; rewrite P1 in Ho; [discriminate|exact H10]).
        assert (N <> mu) by (intros ->; rewrite P2 in Ho; [discriminate|exact H10]).
        split; apply IZR_lt; lia. }
    eexists _, (IZR N). unfold ryuFtoaShortest. replace (mant =? 0) with false by lia. rewrite Eint, Eb. change (0 =? 0) with true. cbv iota.
    split; [reflexivity|]. split; [now apply prints_spelt_0|]. split; [exact Hx|].
    apply (minimal_fewest _ N ml mu 0); try assumption; change (- 0) with 0.
    + now rewrite tp_0, Rmult_1_r.
    + intros z (_ & _ & Hl & Hu). rewrite tp_0, Rmult_1_r in Hl, Hu. destruct (Hl ltac:(lia)) as [Hl' _]. destruct (Hu ltac:(lia)) as [Hu' _].
      rewrite <- E1 in Hl'. rewrite <- E2 in Hu'. split; apply le_IZR; assumption.
  - destruct (general_digits ml mc mu e2 He2 Hml Hlc Hcu Hmu mant exp H0 Eint Eb He0) as (c0 & cup & E). cbv zeta in E.
    rewrite even_test in E. pose proof (bounds_order ml mc mu e2 He2 Hml Hlc Hcu Hmu (Z.even mant)) as (B1 & B2 & B3).
    destruct (ryuDigits_spec _ _ _ c0 cup B1 B2 B3) as (N & HN & _ & Hp & Hmn).
    pose proof (bounds_inside ml mc mu e2 He2 Hml Hlc Hcu Hmu (Z.even mant) N HN) as [I1 I2]. rewrite E1, E2 in I1, I2.
    assert (Hx : nearest (IZR N * tp (- scale_q e2)) (code mant exp)).
    { apply nearest_between; try assumption; try lia. intros Ho. apply I2. rewrite <- Z.negb_odd, Ho. reflexivity. }
    eexists _, (IZR N * tp (- scale_q e2))%R. rewrite E. split; [reflexivity|]. split; [now apply prints_spelt|]. split; [exact Hx|].
    cbn [ds_nd]. apply (minimal_fewest _ N _ _ (scale_q e2) _ Hp Hmn Hcode Hx).
    intros z (_ & _ & Hl & Hu). destruct (Hl ltac:(lia)) as [Hl' Ho1]. destruct (Hu ltac:(lia)) as [Hu' Ho2].
    rewrite code_odd in Ho1, Ho2. apply (bounds_complete ml mc mu e2 He2 Hml Hlc Hcu Hmu (Z.even mant)); rewrite E1, E2; [now split|].
    intros Hev. rewrite <- Z.negb_odd in Hev. apply negb_false_iff in Hev. split; auto.
Qed.
