(* ===== verification/FtoaRoundtrip.v ===== *)
(** What AppendFloat prints of a finite float64 is a number of JSON, and ParseFloat reads
    it back as the same float64. *)
From Stdlib Require Import ZArith Reals Lra Lia Bool List SpecFloat.
From S2P Require Import Prelude GoFloat Float64 Rounding Nearest Strconv Utf8 Tens Decimal Atof DecimalSpec FloatBitsSpec AtofSpec.
From S2P Require Import JsonGrammar JsonEncode Ftoa FtoaSpec RyuSpec.
Import ListNotations.
Local Open Scope Z_scope.

(** * Texts *)

(** The text of a printed float: a number of JSON, and its value. *)
Inductive printed : list Z -> bool -> R -> Prop :=
| printed_intro (neg : bool) ip f fp x e :
    int_part ip -> frac_part f -> exp_part x -> frac_text f fp -> exp_text x e ->
    forallb (fun c => c =? 48) (skipn 19 (strip (ip ++ fp))) = true -> len (ip ++ fp) <= 700 ->
    printed ((if neg then [45] else []) ++ ip ++ f ++ x) neg (IZR (num (ip ++ fp)) * tp (e - len fp)).

Lemma int_is_digits ip : int_part ip -> digits ip /\ ip <> [].
Proof.
  intros [|d ds Hd Hds]; (split; [|discriminate]).
  - repeat constructor.
  - constructor; [unfold is_digit; lia|exact Hds].
Qed.

Lemma printed_number b neg v : printed b neg v -> number b.
Proof. intros [neg' ip f fp x e Hi Hf Hx _ _ _ _]. apply number_intro; auto. destruct neg'; auto. Qed.

Lemma printed_decimal b neg v : printed b neg v -> decimal_text b neg v.
Proof. intros [neg' ip f fp x e Hi _ _ Hf Hx Hs Hl]. destruct (int_is_digits ip Hi). now constructor. Qed.

(** ** Lists *)

Lemma map_range f n l : len l = n -> (forall i, 0 <= i < n -> f i = at_ l i) -> map f (range n) = l.
Proof.
  intros Hl Hf. apply (nth_ext _ _ 0 0).
  - rewrite length_map, range_length. unfold len in Hl. lia.
  - rewrite length_map, range_length. intros i Hi.
    assert (E : nth_error (map f (range n)) i = Some (f (Z.of_nat i))).
    { rewrite nth_error_map. replace i with (Z.to_nat (Z.of_nat i)) at 1 by lia. rewrite range_nth by lia. reflexivity. }
    rewrite (nth_error_nth _ _ 0 E), Hf by lia. unfold at_. now rewrite Nat2Z.id.
Qed.

Lemma at_repeat x n i : 0 <= i < Z.of_nat n -> at_ (repeat x n) i = x.
Proof. intros H. unfold at_. apply nth_repeat_lt. lia. Qed.

Lemma at_left (a b : list Z) i : 0 <= i < len a -> at_ (a ++ b) i = at_ a i.
Proof. unfold at_, len. intros H. apply app_nth1. lia. Qed.

Lemma at_right (a b : list Z) i : len a <= i -> at_ (a ++ b) i = at_ b (i - len a).
Proof. unfold at_, len. intros H. rewrite app_nth2 by lia. f_equal. lia. Qed.

Lemma slice_prefix (a b : list Z) : slice (a ++ b) 0 (len a) = a.
Proof. unfold slice. rewrite Z.sub_0_r, skipn_O. now apply firstn_len. Qed.

Lemma digits_zeros n : digits (repeat 48 n).
Proof. apply Forall_forall. intros c H. now rewrite (repeat_spec _ _ _ H). Qed.

(** Digits that do not start with a zero. *)
Lemma head_int c p : digits (c :: p) -> strip (c :: p) = c :: p -> int_part (c :: p).
Proof.
  intros Hd Hs. inversion Hd as [|? ? Hc Hp]; subst. pose proof (is_digit_range c Hc). constructor; [|exact Hp].
  pose proof (strip_head (c :: p)) as Hh. rewrite Hs in Hh. lia.
Qed.

(** Zeros around at most 18 digits. *)
Lemma padded_digits n p m : strip p = p -> len p <= 18 ->
  forallb (fun c => c =? 48) (skipn 19 (strip (repeat 48 n ++ p ++ repeat 48 m))) = true.
Proof.
  intros Hs Hl. assert (E : strip (repeat 48 n ++ p ++ repeat 48 m) = strip (p ++ repeat 48 m)) by (induction n; cbn; auto).
  rewrite E, strip_app, Hs. assert (Hz : forall k, forallb (fun c => c =? 48) (repeat 48 k) = true) by (intros k; induction k; cbn; auto).
  assert (Hzs : forall k j, forallb (fun c => c =? 48) (skipn k (repeat 48 j)) = true).
  { intros k. induction k as [|k IH]; intros j; [apply Hz|]. destruct j as [|j]; [reflexivity|apply IH]. }
  destruct p as [|c p].
  - assert (Es : strip (repeat 48 m) = []) by (clear; induction m; cbn; auto). now rewrite Es.
  - rewrite skipn_app, skipn_all2 by (unfold len in Hl; lia). apply Hzs.
Qed.

(** * Formats *)

(** A slice that spells a number in the range of the floats. *)
Definition spelt_small (s : decimalSlice) (x : R) : Prop :=
  spelt s x /\ -400 <= ds_dp s <= 400 /\ (ds_nd s = 0 -> ds_dp s = 0).

Lemma fmtF_printed neg s x : spelt_small s x -> printed (fmtF neg s (Z.max (ds_nd s - ds_dp s) 0)) neg x.
Proof.
  intros ((p & b & Ed & En & Hp & H18 & Hs & ->) & Hdp & H0). unfold fmtF. rewrite Ed, En in *. pose proof (len_nonneg p) as Hl.
  set (dp := ds_dp s) in *. clearbody dp. clear s Ed En.
  assert (Main : forall ip fp, int_part ip -> digits fp -> ip ++ fp = repeat 48 (Z.to_nat (1 - dp)) ++ p ++ repeat 48 (Z.to_nat (dp - len p)) ->
            len fp = Z.max (len p - dp) 0 ->
            printed ((if neg then [45] else []) ++ ip ++ (if 0 <? len fp then 46 :: fp else [])) neg (IZR (num p) * tp (dp - len p))).
  { intros ip fp Hi Hf E Lf.
    assert (Ev : (IZR (num p) * tp (dp - len p) = IZR (num (ip ++ fp)) * tp (0 - len fp))%R).
    { rewrite E, !num_app, !num_zeros, Z.mul_0_l, Z.add_0_l, Z.add_0_r, mult_IZR, len_repeat, <- tp_IZR, Rmult_assoc, <- tp_add by lia.
      do 2 f_equal. lia. }
    rewrite Ev. pose proof (printed_intro neg ip (if 0 <? len fp then 46 :: fp else []) fp [] 0) as P. rewrite app_nil_r in P.
    assert (Hfrac : frac_part (if 0 <? len fp then 46 :: fp else []) /\ frac_text (if 0 <? len fp then 46 :: fp else []) fp).
    { destruct fp as [|c fp]; [split; constructor|]. rewrite len_cons. pose proof (len_nonneg fp).
      replace (0 <? len fp + 1) with true by lia. inversion Hf; subst. split; now constructor. }
    apply P; try apply Hfrac; try constructor; try assumption.
    - rewrite E. now apply padded_digits.
    - rewrite E, !len_app, !len_repeat. lia. }
  destruct (Z.ltb_spec 0 dp) as [Hd|Hd].
  - destruct p as [|c p0] eqn:Ep; [change (len []) with 0 in H0; lia|]. rewrite <- Ep in *.
    assert (Hint : forall r, digits r -> int_part (p ++ r)).
    { intros r Hr. rewrite Ep. cbn [app]. apply head_int; rewrite app_comm_cons, <- Ep.
      - apply digits_app. now split.
      - now rewrite strip_app, Hs, Ep. }
    destruct (Z.le_gt_cases (len p) dp) as [Hle|Hgt].
    + rewrite Z.min_l, slice_prefix, Z.max_r by lia. change (0 <? 0) with false. cbv iota.
      specialize (Main (p ++ repeat 48 (Z.to_nat (dp - len p))) [] (Hint _ (digits_zeros _)) digits_nil).
      change (0 <? len []) with false in Main. apply Main; [|change (len []) with 0; lia].
      rewrite app_nil_r. replace (Z.to_nat (1 - dp)) with 0%nat by lia. reflexivity.
    + destruct (skipn_split p dp ltac:(lia)) as (p1 & p2 & E12 & L1). rewrite Z.min_r, Z.max_l, Z.sub_diag by lia.
      change (repeat 48 (Z.to_nat 0)) with (@nil Z). rewrite E12, <- (app_assoc p1 p2 b), app_nil_r. rewrite <- L1 at 1. rewrite slice_prefix.
      rewrite (map_range _ _ p2).
      * replace (0 <? len (p1 ++ p2) - dp) with (0 <? len p2) by (rewrite len_app, L1; f_equal; lia).
        rewrite E12 in Hp, Main, Hgt. apply digits_app in Hp as [Hp1 Hp2]. rewrite len_app in *. apply Main; [|exact Hp2| |lia].
        -- destruct p1 as [|c1 p1]; [change (len []) with 0 in L1; lia|]. apply head_int; [exact Hp1|].
           rewrite E12 in Hs. cbn [app strip] in Hs |- *. destruct (c1 =? 48) eqn:Ec; [|reflexivity].
           pose proof (len_strip (p1 ++ p2)) as Hle. rewrite Hs, len_cons in Hle. lia.
        -- replace (Z.to_nat (1 - dp)) with 0%nat by lia. replace (Z.to_nat (dp - (len p1 + len p2))) with 0%nat by lia. now rewrite app_nil_r.
      * rewrite E12, len_app in *. lia.
      * intros i Hi. cbv zeta. rewrite E12, len_app in *. replace ((0 <=? dp + i) && (dp + i <? len p1 + len p2)) with true by lia.
        rewrite at_right, at_left by lia. f_equal. lia.
  - assert (Em : map (fun i => if (0 <=? dp + i) && (dp + i <? len p) then at_ (p ++ b) (dp + i) else 48) (range (Z.max (len p - dp) 0))
                 = repeat 48 (Z.to_nat (- dp)) ++ p).
    { apply map_range; [rewrite len_app, len_repeat; lia|]. intros i Hi.
      destruct (Z.ltb_spec i (- dp)) as [H|H].
      - replace (0 <=? dp + i) with false by lia. cbn [andb]. rewrite at_left by (rewrite len_repeat; lia). now rewrite at_repeat by lia.
      - replace ((0 <=? dp + i) && (dp + i <? len p)) with true by lia.
        rewrite (at_right (repeat 48 _)), len_repeat, at_left by (rewrite ?len_repeat; lia). f_equal. lia. }
    cbv zeta. rewrite Em.
    specialize (Main [48] (repeat 48 (Z.to_nat (- dp)) ++ p) int_zero).
    assert (Lf : len (repeat 48 (Z.to_nat (- dp)) ++ p) = Z.max (len p - dp) 0) by (rewrite len_app, len_repeat; lia).
    rewrite Lf in Main. apply Main; [|cbn [app]|reflexivity].
    + apply digits_app. split; [apply digits_zeros|exact Hp].
    + replace (Z.to_nat (1 - dp)) with (S (Z.to_nat (- dp))) by lia. replace (Z.to_nat (dp - len p)) with 0%nat by lia.
      cbn [repeat app]. now rewrite app_nil_r.
Qed.

(** The digits of the exponent. *)
Definition exp_digits (e : Z) : list Z :=
  if e <? 10 then [48; byte_ e + 48]
  else if e <? 100 then [byte_ (e / 10) + 48; byte_ (e mod 10) + 48]
  else [byte_ (e / 100) + 48; byte_ (e / 10) mod 10 + 48; byte_ (e mod 10) + 48].

Lemma byte_id z : 0 <= z < 256 -> byte_ z = z.
Proof. intros H. unfold byte_. change 0xFF with (2 ^ 8 - 1). rewrite land_mask by lia. now apply Z.mod_small. Qed.

Lemma exp_digits_spec e : 0 <= e < 1000 ->
  digits (exp_digits e) /\ num (exp_digits e) = e /\
  (exists c d r, exp_digits e = c :: d :: r /\ (r = [] \/ exists f, r = [f])).
Proof.
  intros H. unfold exp_digits.
  assert (Dg : forall v, 0 <= v < 10 -> is_digit (v + 48) = true) by (intros v Hv; unfold is_digit; lia).
  destruct (Z.ltb_spec e 10); [|destruct (Z.ltb_spec e 100)]; rewrite !byte_id by (Z.to_euclidean_division_equations; lia).
  - split; [repeat constructor; apply Dg; lia|]. split; [cbn; lia|]. repeat eexists. now left.
  - split; [repeat constructor; apply Dg; Z.to_euclidean_division_equations; lia|].
    split; [cbn; Z.to_euclidean_division_equations; lia|]. repeat eexists. now left.
  - split; [repeat constructor; apply Dg; Z.to_euclidean_division_equations; lia|].
    split; [cbn; Z.to_euclidean_division_equations; lia|]. repeat eexists. right. now eexists.
Qed.

(** Scientific notation: everything up to the digits of the exponent, and those. *)
Lemma fmtE_printed neg s x prec fmt : spelt_small s x -> prec = ds_nd s - 1 \/ ds_nd s = 0 /\ prec = 0 -> fmt = 101 \/ fmt = 69 ->
  exists body sg e, fmtE neg s prec fmt = body ++ fmt :: sg :: exp_digits e /\ 0 <= e < 1000 /\ (sg = 43 \/ sg = 45) /\
    forall ds, digits ds -> ds <> [] -> len ds <= 5 -> num ds = e -> printed (body ++ fmt :: sg :: ds) neg x.
Proof.
  intros ((p & b & Ed & En & Hp & H18 & Hs & ->) & Hdp & H0) Hprec Hfmt. unfold fmtE. rewrite Ed, En in *. pose proof (len_nonneg p) as Hl.
  set (dp := ds_dp s) in *. clearbody dp. clear s Ed En. fold (exp_digits (Z.abs (if len p =? 0 then 0 else dp - 1))).
  set (ex := if len p =? 0 then 0 else dp - 1). set (sg := if ex <? 0 then 45 else 43).
  assert (Hex : - 1000 < ex < 1000) by (unfold ex; destruct (len p =? 0); lia).
  assert (Shape : exists ch fp, (if len p =? 0 then 48 else at_ (p ++ b) 0) = ch /\ int_part [ch] /\ digits fp /\
            (if 0 <? prec then
               46 :: (if 1 <? Z.min (len p) (prec + 1) then slice (p ++ b) 1 (Z.min (len p) (prec + 1)) else []) ++
               repeat 48 (Z.to_nat (prec + 1 - Z.max (Z.min (len p) (prec + 1)) 1)) else []) = (if 0 <? len fp then 46 :: fp else []) /\
            len (ch :: fp) <= 19 /\ (IZR (num p) * tp (dp - len p) = IZR (num (ch :: fp)) * tp (ex - len fp))%R).
  { destruct p as [|c p].
    - change (len []) with 0 in *. exists 48, []. change (0 =? 0) with true. cbv iota. replace (0 <? prec) with false by lia.
      repeat split; try constructor; [cbn; lia|]. cbn. now rewrite !Rmult_0_l.
    - rewrite len_cons in *. pose proof (len_nonneg p) as Hl'. replace (len p + 1 =? 0) with false in * by lia.
      exists c, p. split; [reflexivity|]. split.
      { inversion Hp as [|? ? Hc _]; subst. apply head_int; [repeat constructor; exact Hc|].
        pose proof (strip_head (c :: p)) as Hh. rewrite Hs in Hh. cbn [strip]. now replace (c =? 48) with false by lia. }
      inversion Hp as [|? ? Hc Hp']; subst. split; [exact Hp'|]. replace (Z.min (len p + 1) (prec + 1)) with (len p + 1) by lia.
      split; [|split; [rewrite len_cons; lia|]].
      2:{ unfold ex. rewrite len_cons. replace (len p + 1 =? 0) with false by lia. do 2 f_equal. lia. }
      replace prec with (len p) by lia. destruct (0 <? len p) eqn:E0; [|reflexivity]. replace (1 <? len p + 1) with true by lia.
      replace (len p + 1 - Z.max (len p + 1) 1) with 0 by lia. cbn [Z.to_nat repeat]. rewrite app_nil_r. f_equal.
      unfold slice. replace (len p + 1 - 1) with (len p) by lia. change (Z.to_nat 1) with 1%nat. cbn [app skipn]. now apply firstn_len. }
  destruct Shape as (ch & fp & Ech & Hi & Hf & Efr & Hlen & Ev). cbv zeta. rewrite Ech, Efr.
  exists ((if neg then [45] else []) ++ [ch] ++ (if 0 <? len fp then 46 :: fp else [])), sg, (Z.abs ex).
  split; [rewrite <- !app_assoc; reflexivity|]. split; [lia|]. split; [unfold sg; destruct (ex <? 0); auto|].
  intros ds Hds Hne H5 Hn. rewrite Ev, <- !app_assoc.
  assert (Hx : exp_part (fmt :: sg :: ds) /\ exp_text (fmt :: sg :: ds) ex).
  { destruct ds as [|y ds]; [easy|]. split.
    - inversion Hds; subst. apply (exp_some fmt [sg] y ds); try assumption. unfold sg. destruct (ex <? 0); auto.
    - replace ex with (num (y :: ds) * (if ex <? 0 then -1 else 1)) by (rewrite Hn; destruct (Z.ltb_spec ex 0); lia).
      apply (exp_text_some fmt [sg] (y :: ds)); try assumption. unfold sg. destruct (ex <? 0); auto. }
  assert (Hfrac : frac_part (if 0 <? len fp then 46 :: fp else []) /\ frac_text (if 0 <? len fp then 46 :: fp else []) fp).
  { destruct fp as [|c fp]; [split; constructor|]. rewrite len_cons. pose proof (len_nonneg fp).
    replace (0 <? len fp + 1) with true by lia. inversion Hf; subst. split; now constructor. }
  apply (printed_intro neg [ch]); try apply Hfrac; try apply Hx; try assumption.
  - cbn [app]. pose proof (len_strip (ch :: fp)). rewrite skipn_all2 by (unfold len in *; lia). reflexivity.
  - cbn [app]. lia.
Qed.

(** * The parts of a float *)

Lemma float_bits_parts (s : bool) n : 0 <= n < inf_bits ->
  let bits := Z.b2z s * 2 ^ 63 + n in
  negb (Z.shiftr bits (11 + 52) =? 0) = s /\ Z.land (Z.shiftr bits 52) (Z.shiftl 1 11 - 1) = n / 2 ^ 52 /\
  Z.land bits (Z.shiftl 1 52 - 1) = n mod 2 ^ 52.
Proof.
  intros Hn bits. change (11 + 52) with 63. change (Z.shiftl 1 11 - 1) with (2 ^ 11 - 1). change (Z.shiftl 1 52 - 1) with (2 ^ 52 - 1).
  rewrite !land_mask, !Z.shiftr_div_pow2 by lia. unfold bits, inf_bits in *.
  split; [|split].
  - destruct s; cbn [Z.b2z]; Z.to_euclidean_division_equations; lia.
  - replace (Z.b2z s * 2 ^ 63 + n) with (n + Z.b2z s * 2 ^ 11 * 2 ^ 52) by lia. rewrite Z.div_add, Z.mod_add by lia.
    apply Z.mod_small. Z.to_euclidean_division_equations. lia.
  - replace (Z.b2z s * 2 ^ 63 + n) with (n + Z.b2z s * 2 ^ 11 * 2 ^ 52) by lia. now rewrite Z.mod_add by lia.
Qed.

Lemma float_parts_spec v : valid v = true -> finite v = true ->
  exists neg mant e, float_parts v = inl (neg, e + 52, mant) /\ canon mant e /\ e <= 971 /\
    v = with_sign neg (Float64frombits (code mant e)).
Proof.
  intros Hv Hf. destruct v as [s|s| |s p e]; try discriminate.
  - exists s, 0, (-1074). repeat split; try lia; destruct s; reflexivity.
  - exists s, (Zpos p), e. destruct (valid_canon _ _ _ Hv) as [Hc He]. pose proof Hc as (Hm & Hmin & Hcc).
    assert (Hn : 0 <= code (Zpos p) e < inf_bits) by (unfold code, inf_bits; nia).
    destruct (float_bits_parts s (code (Zpos p) e) Hn) as (E1 & E2 & E3). cbv zeta in E1, E2, E3.
    split; [|split; [exact Hc|split; [exact He|]]].
    + unfold float_parts. cbn [mantbits expbits flt_bias float64info]. rewrite bits_finite, E1, E2, E3 by exact Hv.
      change (Z.shiftl 1 11 - 1) with 2047. unfold code, inf_bits in *. set (m := Zpos p) in *. clearbody m.
      destruct (Z.lt_ge_cases m (2 ^ 52)) as [Hlt|Hge].
      * assert (e = -1074) by lia. subst e. rewrite Z.div_small, Z.mod_small by lia. reflexivity.
      * replace ((e + 1074) * 2 ^ 52 + m) with (m - 2 ^ 52 + (e + 1075) * 2 ^ 52) by lia.
        rewrite Z.div_add, Z.mod_add, Z.div_small, Z.mod_small, Z.add_0_l by lia.
        replace (e + 1075 =? 2047) with false by lia. replace (e + 1075 =? 0) with false by lia.
        rewrite Z.lor_comm. change (Z.shiftl 1 52) with (1 * 2 ^ 52). rewrite lor_add by lia.
        f_equal. f_equal; [f_equal; lia|lia].
    + assert (Hb : has_bits (S754_finite false p e) (code (Zpos p) e)) by (now apply has_bits_code).
      rewrite (has_bits_frombits _ _ Hb). now destruct s.
Qed.

Lemma ryu_small mant e s x : canon mant e -> e <= 971 -> ryuFtoaShortest mant e float64info = Some s ->
  spelt s x -> nearest x (code mant e) -> spelt_small s x.
Proof.
  intros (Hm & Hmin & Hc) He Er Hs Hn. split; [exact Hs|].
  destruct (Z.eq_dec mant 0) as [->|H0]; [injection Er as <-; cbn; lia|].
  assert (Hcode : 0 < code mant e < inf_bits) by (unfold code, inf_bits; nia).
  destruct Hn as (_ & _ & Hlo & Hup). specialize (Hlo ltac:(lia)) as [Hlo _]. specialize (Hup ltac:(lia)) as [Hup _].
  assert (B1 : (tp (-324) <= x)%R).
  { apply Rle_trans with (bp (-1075)); [change (-324) with (- (324)); change (-1075) with (- (1075)); apply tp_le_bp_neg; now vm_compute|].
    eapply Rle_trans; [|exact Hlo]. eapply Rle_trans; [|apply (midpoint_mono 0); lia].
    change 0 with (code 0 (-1074)). rewrite midpoint_code by lia. change (-1074) with (1 + -1075). rewrite bp_add.
    change (bp 1) with (2 * 1)%R. pose proof (bp_pos (-1075)). lra. }
  assert (B2 : (x <= tp 309)%R).
  { eapply Rle_trans; [exact Hup|]. eapply Rle_trans; [apply (midpoint_mono _ (inf_bits - 1)); lia|]. rewrite midpoint_last.
    apply Rle_trans with (bp 1024); [|apply bp_le_tp; now vm_compute].
    change 1024 with (54 + 970). rewrite bp_add. apply Rmult_le_compat_r; [pose proof (bp_pos 970); lra|].
    rewrite (bp_IZR 54) by lia. apply IZR_le. lia. }
  destruct Hs as (p & b & _ & En & Hp & _ & Hs & Ex). rewrite En.
  destruct p as [|c p].
  { exfalso. cbn [num] in Ex. rewrite Rmult_0_l in Ex. pose proof (tp_pos (-324)). lra. }
  pose proof (num_bound _ Hp) as Hb. pose proof (strip_head (c :: p)) as Hh. rewrite Hs in Hh. pose proof (num_head c p Hp Hh) as Hb1.
  rewrite len_cons in *. pose proof (len_nonneg p) as Hl. set (N := num (c :: p)) in *. clearbody N. set (dp := ds_dp s) in *. clearbody dp.
  assert (C1 : (x < tp dp)%R).
  { rewrite Ex. replace dp with (len p + 1 + (dp - (len p + 1))) at 2 by lia. rewrite tp_add, (tp_IZR (len p + 1)) by lia.
    apply Rmult_lt_compat_r; [apply tp_pos|apply IZR_lt; lia]. }
  assert (C2 : (tp (dp - 1) <= x)%R).
  { rewrite Ex. replace (dp - 1) with (len p + (dp - (len p + 1))) by lia. rewrite tp_add, (tp_IZR (len p)) by lia.
    apply Rmult_le_compat_r; [pose proof (tp_pos (dp - (len p + 1))); lra|apply IZR_le; lia]. }
  assert (-324 < dp) by (apply tp_lt_inv; lra). assert (dp - 1 < 310) by (apply tp_lt_inv; pose proof (tp_lt 309 310 ltac:(lia)); lra).
  lia.
Qed.

(** * The text of a float *)

Definition format (fmt : Z) : Prop := In fmt [101; 69; 102; 103; 71].

(** What is printed of a finite float: a number whose nearest float it is. *)
Theorem shortest_printed v fmt : valid v = true -> finite v = true -> format fmt ->
  exists txt neg n x, shortestFtoa v fmt = Some txt /\
    v = with_sign neg (Float64frombits n) /\ 0 <= n < inf_bits /\ nearest x n /\
    printed txt neg x /\
    (fmt = 101 -> exists body sg e, txt = body ++ 101 :: sg :: exp_digits e /\ 0 <= e < 1000 /\ (sg = 43 \/ sg = 45) /\
       forall ds, digits ds -> ds <> [] -> len ds <= 5 -> num ds = e -> printed (body ++ 101 :: sg :: ds) neg x).
Proof.
  intros Hv Hf Hfmt. destruct (float_parts_spec v Hv Hf) as (neg & mant & e & Ep & Hc & He & Ev).
  destruct (ryuFtoaShortest_nearest mant e Hc He) as (s & x & Er & Hs & Hn & _).
  pose proof (ryu_small mant e s x Hc He Er Hs Hn) as Hsm. unfold shortestFtoa. rewrite Ep.
  cbn [mantbits float64info]. replace (e + 52 - 52) with e by lia. rewrite Er.
  eexists _, neg, (code mant e), x. split; [reflexivity|]. split; [exact Ev|]. split; [unfold code, inf_bits; destruct Hc as (? & ? & ?); nia|]. split; [exact Hn|].
  clear Hs Er.
  assert (HE : forall prec f, prec = ds_nd s - 1 \/ ds_nd s = 0 /\ prec = 0 -> f = 101 \/ f = 69 -> printed (fmtE neg s prec f) neg x).
  { intros prec f Hprec Hff. destruct (fmtE_printed neg s x prec f Hsm Hprec Hff) as (body & sg & ex & -> & Hex & Hsg & H).
    destruct (exp_digits_spec ex Hex) as (Hd & Hnum & c & d & r & Er & Hr). apply H; [exact Hd| | |exact Hnum]; rewrite Er.
    - discriminate.
    - destruct Hr as [->|[f' ->]]; discriminate. }
  assert (Hnd : 0 <= ds_nd s) by (destruct Hsm as [(p & b & _ & -> & _) _]; apply len_nonneg).
  unfold formatDigits. destruct Hfmt as [<-|[<-|[<-|[<-|[<-|[]]]]]]; cbv iota beta zeta; cbn [Z.eqb Pos.eqb orb].
  - split; [apply HE; lia|]. intros _. apply fmtE_printed; [exact Hsm|lia|now left].
  - split; [apply HE; lia|discriminate].
  - split; [now apply fmtF_printed|discriminate].
  - split; [|discriminate].
    replace (if ds_nd s <? ds_nd s then ds_nd s else ds_nd s) with (ds_nd s) by (now destruct (_ <? _)).
    replace (if ds_dp s <? ds_nd s then ds_nd s else ds_nd s) with (ds_nd s) by (now destruct (_ <? _)).
    destruct (_ || _); [apply HE; [lia|now left]|now apply fmtF_printed].
  - split; [|discriminate].
    replace (if ds_nd s <? ds_nd s then ds_nd s else ds_nd s) with (ds_nd s) by (now destruct (_ <? _)).
    replace (if ds_dp s <? ds_nd s then ds_nd s else ds_nd s) with (ds_nd s) by (now destruct (_ <? _)).
    destruct (_ || _); [apply HE; [lia|now right]|now apply fmtF_printed].
Qed.

(** A printed number is read as the float nearest to it. *)
Lemma printed_parses b neg x n : printed b neg x -> nearest x n -> n < inf_bits ->
  ParseFloat64 b = (with_sign neg (Float64frombits n), None).
Proof.
  intros Hp Hn Hlt. destruct (ParseFloat64_reads b neg x (printed_decimal b neg x Hp)) as (n' & Hn' & ->).
  rewrite (nearest_unique x n' n Hn' Hn). now replace (n =? inf_bits) with false by lia.
Qed.

(** C9: Printing and parsing round trip: whatever the format, the shortest digits of a finite
    float64 are printed without a panic and read back as the same float64, its sign
    included. *)
Theorem float_roundtrip v fmt : valid v = true -> finite v = true -> format fmt ->
  exists txt, shortestFtoa v fmt = Some txt /\ ParseFloat64 txt = (v, None).
Proof.
  intros Hv Hf Hfmt. destruct (shortest_printed v fmt Hv Hf Hfmt) as (txt & neg & n & x & E & -> & Hn & Hx & Hp & _).
  exists txt. split; [exact E|]. now apply (printed_parses _ neg x n).
Qed.

(** The smallest subnormal, negative, in scientific notation: -5e-324. *)
Lemma float_roundtrip_witness :
  valid (S754_finite true 1 (-1074)) = true /\
  exists txt, shortestFtoa (S754_finite true 1 (-1074)) 101 = Some txt /\ ParseFloat64 txt = (S754_finite true 1 (-1074), None).
Proof. split; [reflexivity|]. apply (float_roundtrip (S754_finite true 1 (-1074)) 101); [reflexivity..|now left]. Defined.

(** C10: The printed digits are the shortest.  There are digits, no panic, for every finite
    float64; they spell a number that rounds to it, and no decimal with fewer digits, whatever its exponent, does. *)
Theorem shortest_digits v neg e mant : valid v = true -> finite v = true -> float_parts v = inl (neg, e, mant) ->
  exists s n x, ryuFtoaShortest mant (e - 52) float64info = Some s /\ v = with_sign neg (Float64frombits n) /\ nearest x n /\ spelt s x /\
    forall M j, 0 <= M < 10 ^ (ds_nd s - 1) -> ~ nearest (IZR M * tp j) n.
Proof.
  intros Hv Hf E. destruct (float_parts_spec v Hv Hf) as (neg' & mant' & e' & E' & Hc & He & Ev).
  rewrite E in E'. injection E' as -> -> ->. replace (e' + 52 - 52) with e' by lia.
  destruct (ryuFtoaShortest_nearest mant' e' Hc He) as (s & x & Er & Hs & Hn & Hmin).
  exists s, (code mant' e'), x. split; [exact Er|]. split; [exact Ev|]. split; [exact Hn|]. split; [exact Hs|].
  intros M j HM Hx. specialize (Hmin M j (proj1 HM) Hx). lia.
Qed.

(** The float next above 0.3 takes 17 digits: 0.30000000000000004. *)
Lemma shortest_digits_witness :
  let v := S754_finite false 5404319552844596 (-54) in
  float_parts v = inl (false, -2, 5404319552844596) /\
  option_map ds_nd (ryuFtoaShortest 5404319552844596 (-2 - 52) float64info) = Some 17 /\
  exists s n x, ryuFtoaShortest 5404319552844596 (-2 - 52) float64info = Some s /\
    v = with_sign false (Float64frombits n) /\ nearest x n /\ spelt s x /\
    forall M j, 0 <= M < 10 ^ (ds_nd s - 1) -> ~ nearest (IZR M * tp j) n.
Proof.
  intros v. split; [vm_compute; reflexivity|]. split; [vm_compute; reflexivity|].
  apply (shortest_digits v false (-2) 5404319552844596); vm_compute; reflexivity.
Defined.

(** Printing never panics: what the bits of any float64 hold is a mantissa and an exponent
    the digits are computed for. *)
Lemma float_parts_canon v neg e mant : float_parts v = inl (neg, e, mant) -> canon mant (e - 52) /\ e - 52 <= 971.
Proof.
  unfold float_parts. cbn [mantbits expbits flt_bias float64info].
  change (Z.shiftl 1 11 - 1) with (2 ^ 11 - 1). change (Z.shiftl 1 52 - 1) with (2 ^ 52 - 1). rewrite !land_mask by lia.
  pose proof (Z.mod_pos_bound (Float64bits v) (2 ^ 52) ltac:(lia)) as Hm.
  pose proof (Z.mod_pos_bound (Z.shiftr (Float64bits v) 52) (2 ^ 11) ltac:(lia)) as Hx.
  set (m := Float64bits v mod 2 ^ 52) in *. set (x := Z.shiftr (Float64bits v) 52 mod 2 ^ 11) in *. clearbody m x.
  change (2 ^ 11 - 1) with 2047. case_if; [discriminate|]. unfold canon.
  generalize (negb (Z.shiftr (Float64bits v) (11 + 52) =? 0)). intros ng.
  assert (Inj : forall b1 b2 (y1 y2 z1 z2 : Z), inl (b1, y1, z1) = inl (B := list Z) (b2 : bool, y2, z2) -> y1 = y2 /\ z1 = z2)
    by (intros * Q; now injection Q).
  destruct (x =? 0) eqn:Hx0; intros E; apply Inj in E as [<- <-]; [lia|].
  rewrite Z.lor_comm. change (Z.shiftl 1 52) with (1 * 2 ^ 52). rewrite lor_add by lia. lia.
Qed.

#[export] Instance FloatText64_laws : FloatTextLaws float64.
Proof.
  split. intros v fmt. cbn [AppendFloat FloatText64]. unfold shortestFtoa.
  destruct (float_parts v) as [[[neg e] mant]|txt] eqn:E; [|discriminate].
  destruct (float_parts_canon v neg e mant E) as [Hc He].
  destruct (ryuFtoaShortest_nearest mant (e - 52) Hc He) as (s & x & Er & _).
  cbn [mantbits float64info]. now rewrite Er.
Qed.

(** * The text of a float in JSON *)

(** The clean-up of the exponent keeps the number. *)
Lemma trim_exponent_spec body sg e : 0 <= e < 1000 -> sg = 43 \/ sg = 45 ->
  exists ds, trim_exponent (body ++ 101 :: sg :: exp_digits e) = body ++ 101 :: sg :: ds /\
    digits ds /\ ds <> [] /\ len ds <= 5 /\ num ds = e.
Proof.
  intros He Hsg. destruct (exp_digits_spec e He) as (Hd & Hn & c & d & r & E & Hr). rewrite E in *. clear E.
  unfold trim_exponent. remember (body ++ 101 :: sg :: c :: d :: r) as b eqn:Eb.
  assert (Keep : exists ds, b = body ++ 101 :: sg :: ds /\ digits ds /\ ds <> [] /\ len ds <= 5 /\ num ds = e).
  { exists (c :: d :: r). split; [exact Eb|]. repeat split; try assumption; try discriminate. destruct Hr as [->|[f ->]]; discriminate. }
  destruct (_ && _) eqn:Et; [|exact Keep].
  assert (Lb : len b = len body + 4 + len r) by (rewrite Eb, len_app, !len_cons; lia).
  destruct Hr as [->|[f ->]].
  - change (len []) with 0 in Lb.
    assert (A2 : at_ b (len b - 2) = c).
    { rewrite Lb. rewrite Eb. rewrite at_right by lia. now replace (len body + 4 + 0 - 2 - len body) with 2 by lia. }
    assert (A1 : at_ b (len b - 1) = d).
    { rewrite Lb. rewrite Eb. rewrite at_right by lia. now replace (len body + 4 + 0 - 1 - len body) with 3 by lia. }
    rewrite A1. rewrite A2 in Et. assert (Hc : c = 48) by lia. clear A2 Et. subst c. exists [d].
    replace (slice b 0 (len b - 2)) with (body ++ [101; sg]).
    + split; [now rewrite <- app_assoc|]. split; [exact (Forall_inv_tail Hd)|]. split; [discriminate|]. split; [discriminate|exact Hn].
    + rewrite Eb. change (101 :: sg :: 48 :: [d]) with ([101; sg] ++ [48; d]). rewrite app_assoc.
      replace (len ((body ++ [101; sg]) ++ [48; d]) - 2) with (len (body ++ [101; sg])) by (rewrite (len_app (body ++ [101; sg]) [48; d]); change (len [48; d]) with 2; lia).
      now rewrite slice_prefix.
  - exfalso. change (len [f]) with 1 in Lb.
    assert (A4 : at_ b (len b - 4) = sg).
    { rewrite Lb. rewrite Eb. rewrite at_right by lia. now replace (len body + 4 + 1 - 4 - len body) with 1 by lia. }
    rewrite A4 in Et. lia.
Qed.
