(* ===== verification/JsonDecode.v ===== *)
(** encoding/json, decode.go and stream.go: from JSON text to Go values.

    The decoder walks the text with the scanner, by opcodes, exactly as the source
    does; a place where the source panics ("JSON decoder out of sync") or would index
    out of range is the result [Panic].  The targets are the kinds the service's
    request and record types have: strings, float64s, ints, pointers and structs. *)
From Stdlib Require Import ZArith Lia String Ascii Bool List.
From S2P Require Import Prelude GoFloat Strconv Utf8 Fold Scanner.
Import ListNotations.
Local Open Scope Z_scope.

(** * String literals *)

Definition surr1 : Z := 0xd800.
Definition surr2 : Z := 0xdc00.
Definition surr3 : Z := 0xe000.
Definition surrSelf : Z := 0x10000.
Definition replacementChar : Z := 0xFFFD.

(** unicode/utf16 *)
Definition IsSurrogate (r : Z) : bool := (surr1 <=? r) && (r <? surr3).
Definition utf16_DecodeRune (r1 r2 : Z) : Z :=
  if (surr1 <=? r1) && (r1 <? surr2) && (surr2 <=? r2) && (r2 <? surr3)
  then Z.lor (Z.shiftl (r1 - surr1) 10) (r2 - surr2) + surrSelf
  else replacementChar.

Definition hex_digit (c : Z) : option Z :=
  if (48 <=? c) && (c <=? 57) then Some (c - 48)
  else if (97 <=? c) && (c <=? 102) then Some (c - 97 + 10)
  else if (65 <=? c) && (c <=? 70) then Some (c - 65 + 10)
  else None.

(** [getu4]: the value of [\uXXXX] at the head of [s], or -1. *)
Definition getu4 (s : list Z) : Z :=
  match s with
  | 92 :: 117 :: a :: b :: c :: d :: _ =>
      match hex_digit a, hex_digit b, hex_digit c, hex_digit d with
      | Some a, Some b, Some c, Some d => ((a * 16 + b) * 16 + c) * 16 + d
      | _, _, _, _ => -1
      end
  | _ => -1
  end.

(** The bytes up to the first that needs attention. *)
Fixpoint plain_prefix (fuel : nat) (s : list Z) : nat :=
  match fuel with
  | O => O
  | S fuel =>
      match s with
      | [] => O
      | c :: s' =>
          if (c =? 92) || (c =? 34) || (c <? 32) then O
          else if c <? RuneSelf then S (plain_prefix fuel s')
          else
            let '(rr, size) := DecodeRune s in
            if (rr =? RuneError) && (size =? 1) then O
            else (Z.to_nat size + plain_prefix fuel (skipn (Z.to_nat size) s))%nat
      end
  end.

(** The unquoting loop; [None] is [ok == false]. *)
Fixpoint unquote_loop (fuel : nat) (s : list Z) : option (list Z) :=
  match fuel with
  | O => match s with [] => Some [] | _ => None end
  | S fuel =>
      let keep (b : list Z) (rest : list Z) := option_map (app b) (unquote_loop fuel rest) in
      match s with
      | [] => Some []
      | c :: s' =>
          if c =? 92 then
            match s' with
            | [] => None
            | e :: s'' =>
                if (e =? 34) || (e =? 92) || (e =? 47) || (e =? 39) then keep [e] s''
                else if e =? 98 then keep [8] s''
                else if e =? 102 then keep [12] s''
                else if e =? 110 then keep [10] s''
                else if e =? 114 then keep [13] s''
                else if e =? 116 then keep [9] s''
                else if e =? 117 then
                  let rr := getu4 s in
                  if rr <? 0 then None
                  else
                    let rest := skipn 6 s in
                    if IsSurrogate rr then
                      let dec := utf16_DecodeRune rr (getu4 rest) in
                      if negb (dec =? RuneError) then keep (AppendRune [] dec) (skipn 6 rest)
                      else keep (AppendRune [] RuneError) rest
                    else keep (AppendRune [] rr) rest
                else None
            end
          else if (c =? 34) || (c <? 32) then None
          else if c <? RuneSelf then keep [c] s'
          else
            let '(rr, size) := DecodeRune s in
            keep (AppendRune [] rr) (skipn (Z.to_nat size) s)
      end
  end.

Definition unquoteBytes (s : list Z) : option (list Z) :=
  if (len s <? 2) || negb (at_ s 0 =? 34) || negb (at_ s (len s - 1) =? 34) then None
  else
    let s := slice s 1 (len s - 1) in
    let r := plain_prefix (length s) s in
    if (r =? length s)%nat then Some s
    else option_map (app (firstn r s)) (unquote_loop (length s) (skipn r s)).

(** * Targets *)

(** [reflect.Value] of a variable to decode into.  A pointer carries the zero value of
    its element type; a struct its name and its fields as [typeFields] lists them. *)
Inductive dval (F : Type) :=
| DString (s : string)
| DFloat (x : F)
| DInt (z : Z)
| DPtr (elem : dval F) (v : option (dval F))
| DStruct (pkg name : string) (fields : list (string * dval F)).
Arguments DString {F}.
Arguments DFloat {F}.
Arguments DInt {F}.
Arguments DPtr {F}.
Arguments DStruct {F}.

(** [v.Type().String()] *)
Fixpoint type_name {F} (v : dval F) : string :=
  match v with
  | DString _ => "string"
  | DFloat _ => "float64"
  | DInt _ => "int"
  | DPtr e _ => "*" ++ type_name e
  | DStruct pkg name _ => pkg ++ "." ++ name
  end.

(** [indirect]: the value at the end of the pointers, allocated where they are nil, and
    how to put a new one there.  None of the types has methods to look for. *)
Fixpoint indirect {F} (v : dval F) (decodingNull : bool) : dval F * (dval F -> dval F) :=
  match v with
  | DPtr e o =>
      if decodingNull then (v, fun x => x)
      else
        let '(leaf, put) :=
          match o with
          | Some x => indirect x decodingNull
          | None => indirect e decodingNull
          end in
        (leaf, fun x => DPtr e (Some (put x)))
  | _ => (v, fun x => x)
  end.

(** * The state of a decoding *)

Section Decode.
Context {F : Type} {GS : GoStrconv F}.

Record decodeState := mkDecodeState {
  d_data : list Z;
  d_off : Z;
  d_opcode : opcode;
  d_scan : scanner;
  d_Struct : option string;           (* errorContext *)
  d_FieldStack : list string;
  d_savedError : option (error F);
  d_disallowUnknownFields : bool
}.

Implicit Types d : decodeState.

Definition with_scan d (s : scanner) (op : opcode) (off : Z) : decodeState :=
  mkDecodeState (d_data d) off op s (d_Struct d) (d_FieldStack d) (d_savedError d)
    (d_disallowUnknownFields d).
Definition with_context d (st : option string) (fs : list string) : decodeState :=
  mkDecodeState (d_data d) (d_off d) (d_opcode d) (d_scan d) st fs (d_savedError d)
    (d_disallowUnknownFields d).

Definition readIndex d : Z := d_off d - 1.

(** [init] on a decoder that saw no error yet; [DisallowUnknownFields] is its option. *)
Definition init (data : list Z) (disallow : bool) : decodeState :=
  mkDecodeState data 0 scanContinue newScanner None [] None disallow.

(** An error as it is passed to [saveError]: one of type [UnmarshalTypeError], or other. *)
Inductive decode_error :=
| UnmarshalTypeError (Value Type_ : string)
| OtherError (e : error F).

(** The texts separated by dots. *)
Fixpoint join_dots (l : list string) : string :=
  match l with
  | [] => ""
  | [x] => x
  | x :: l' => x ++ "." ++ join_dots l'
  end.

(** [addErrorContext], and the text the error then has. *)
Definition addErrorContext d (e : decode_error) : error F :=
  match e with
  | OtherError e => e
  | UnmarshalTypeError v t =>
      let st := match d_Struct d with Some s => s | None => ""%string end in
      let fs := join_dots (d_FieldStack d) in
      if negb (String.eqb st "") || negb (String.eqb fs "") then
        Errorf [Lit "json: cannot unmarshal "; FmtS v; Lit " into Go struct field "; FmtS st;
                Lit "."; FmtS fs; Lit " of type "; FmtS t]
      else
        Errorf [Lit "json: cannot unmarshal "; FmtS v; Lit " into Go value of type "; FmtS t]
  end.

Definition saveError d (e : decode_error) : decodeState :=
  match d_savedError d with
  | Some _ => d
  | None =>
      mkDecodeState (d_data d) (d_off d) (d_opcode d) (d_scan d) (d_Struct d) (d_FieldStack d)
        (Some (addErrorContext d e)) (d_disallowUnknownFields d)
  end.

(** [d.data[d.off:]] *)
Definition rest d : list Z := skipn (Z.to_nat (d_off d)) (d_data d).

(** The loop of [skip]; [None] is an index out of range. *)
Fixpoint skip_loop (s : scanner) (data : list Z) (i : Z) (depth : nat)
  : option (scanner * opcode * Z) :=
  match data with
  | [] => None
  | c :: data' =>
      let '(s, op) := step s c in
      if (length (parseState s) <? depth)%nat then Some (s, op, i + 1)
      else skip_loop s data' (i + 1) depth
  end.

Definition skip d : result F decodeState :=
  match skip_loop (d_scan d) (rest d) (d_off d) (length (parseState (d_scan d))) with
  | Some (s, op, i) => Ok (with_scan d s op i)
  | None => Panic
  end.

Definition scanNext d : decodeState :=
  match rest d with
  | c :: _ => let '(s, op) := step (d_scan d) c in with_scan d s op (d_off d + 1)
  | [] => let '(s, op) := eof (d_scan d) in with_scan d s op (len (d_data d) + 1)
  end.

Fixpoint while_loop (s : scanner) (data : list Z) (i : Z) (op : opcode)
  : scanner * option (opcode * Z) :=
  match data with
  | [] => (s, None)
  | c :: data' =>
      let '(s, newOp) := step s c in
      if negb (opcode_eqb newOp op) then (s, Some (newOp, i + 1))
      else while_loop s data' (i + 1) op
  end.

Definition scanWhile d (op : opcode) : decodeState :=
  match while_loop (d_scan d) (rest d) (d_off d) op with
  | (s, Some (newOp, i)) => with_scan d s newOp i
  | (s, None) => let '(s, newOp) := eof s in with_scan d s newOp (len (d_data d) + 1)
  end.

(** The two loops of [rescanLiteral]: after an opening quote to past the closing one,
    and along the characters of a number. *)
Fixpoint string_end (fuel : nat) (data : list Z) (i : Z) : Z :=
  match fuel with
  | O => i
  | S fuel =>
      match data with
      | [] => i
      | c :: data' =>
          if c =? 92 then
            match data' with
            | [] => i + 2
            | _ :: data'' => string_end fuel data'' (i + 2)
            end
          else if c =? 34 then i + 1
          else string_end fuel data' (i + 1)
      end
  end.

Definition is_number_byte (c : Z) : bool :=
  is_digit c || (c =? 46) || (c =? 101) || (c =? 69) || (c =? 43) || (c =? 45).

Fixpoint number_end (data : list Z) (i : Z) : Z :=
  match data with
  | c :: data' => if is_number_byte c then number_end data' (i + 1) else i
  | [] => i
  end.

Definition rescanLiteral d : decodeState :=
  let data := d_data d in
  let i := d_off d in
  let c := at_ data (i - 1) in
  let i :=
    if c =? 34 then string_end (length data) (rest d) i
    else if is_digit c || (c =? 45) then number_end (rest d) i
    else if c =? 116 then i + 3
    else if c =? 102 then i + 4
    else if c =? 110 then i + 3
    else i in
  let '(s, op) :=
    if i <? len data then do_EndValue (d_scan d) (at_ data i) else (d_scan d, scanEnd) in
  with_scan d s op (i + 1).

(** * Storing a literal *)

Definition literalStore d (item : list Z) (v : dval F) : result F (decodeState * dval F) :=
  match item with
  | [] => Panic                          (* not reached: a literal has a first byte *)
  | c :: _ =>
      let isNull := c =? 110 in
      let '(leaf, put) := indirect v isNull in
      let mismatch (value : string) :=
        Ok (saveError d (UnmarshalTypeError value (type_name leaf)), put leaf) in
      if isNull then
        match leaf with
        | DPtr e _ => Ok (d, put (DPtr e None))
        | _ => Ok (d, put leaf)
        end
      else if (c =? 116) || (c =? 102) then mismatch "bool"%string
      else if c =? 34 then
        match unquoteBytes item with
        | None => Panic
        | Some s =>
            match leaf with
            | DString _ => Ok (d, put (DString (text s)))
            | _ => mismatch "string"%string
            end
        end
      else if negb (c =? 45) && ((c <? 48) || (57 <? c)) then Panic
      else
        match leaf with
        | DInt _ =>
            match ParseInt item 10 64 with
            | (n, None) => Ok (d, put (DInt n))
            | (_, Some _) => mismatch ("number " ++ text item)%string
            end
        | DFloat _ =>
            match ParseFloat (text item) with
            | (n, None) => Ok (d, put (DFloat n))
            | (_, Some _) => mismatch ("number " ++ text item)%string
            end
        | _ => mismatch "number"%string
        end
  end.

(** [byExactName], then [byFoldedName]: the place of the field for a key. *)
Fixpoint find_index (f : string -> bool) (i : nat) (fields : list (string * dval F)) : option nat :=
  match fields with
  | [] => None
  | (n, _) :: fields' => if f n then Some i else find_index f (S i) fields'
  end.

Definition bytes_eqb (a b : list Z) : bool := if list_eq_dec Z.eq_dec a b then true else false.

Definition find_field (key : list Z) (fields : list (string * dval F)) : option nat :=
  match find_index (fun n => bytes_eqb (bytes n) key) 0 fields with
  | Some i => Some i
  | None => find_index (fun n => bytes_eqb (foldName (bytes n)) (foldName key)) 0 fields
  end.

Fixpoint set_field (i : nat) (v : dval F) (fields : list (string * dval F))
  : list (string * dval F) :=
  match fields, i with
  | [], _ => []
  | (n, _) :: fs, O => (n, v) :: fs
  | f :: fs, S i => f :: set_field i v fs
  end.

(** [array]: no target of the service is a slice. *)
Definition array d (v : dval F) : result F (decodeState * dval F) :=
  let '(leaf, put) := indirect v false in
  bind (skip (saveError d (UnmarshalTypeError "array" (type_name leaf)))) (fun d =>
  Ok (d, put leaf)).

Definition skip_spaces d : decodeState :=
  if opcode_eqb (d_opcode d) scanSkipSpace then scanWhile d scanSkipSpace else d.

(** [value], [object] and the loop of [object].  [None] for [v] is the invalid value:
    what is read is dropped.  Running out of [fuel] does not happen with twice as much
    as there are bytes. *)
Fixpoint value (fuel : nat) d (v : option (dval F)) : result F (decodeState * option (dval F)) :=
  match fuel with
  | O => Panic
  | S fuel =>
      match d_opcode d with
      | scanBeginArray =>
          match v with
          | Some v => bind (array d v) (fun '(d, v) => Ok (scanNext d, Some v))
          | None => bind (skip d) (fun d => Ok (scanNext d, None))
          end
      | scanBeginObject =>
          match v with
          | Some v => bind (object fuel d v) (fun '(d, v) => Ok (scanNext d, Some v))
          | None => bind (skip d) (fun d => Ok (scanNext d, None))
          end
      | scanBeginLiteral =>
          let start := readIndex d in
          let d := rescanLiteral d in
          match v with
          | Some v =>
              bind (literalStore d (slice (d_data d) start (readIndex d)) v)
                   (fun '(d, v) => Ok (d, Some v))
          | None => Ok (d, None)
          end
      | _ => Panic
      end
  end
with object (fuel : nat) d (v : dval F) : result F (decodeState * dval F) :=
  match fuel with
  | O => Panic
  | S fuel =>
      let '(leaf, put) := indirect v false in
      match leaf with
      | DStruct pkg name fields =>
          bind (object_loop fuel d pkg name fields) (fun '(d, fields) =>
          Ok (d, put (DStruct pkg name fields)))
      | _ =>
          bind (skip (saveError d (UnmarshalTypeError "object" (type_name leaf)))) (fun d =>
          Ok (d, put leaf))
      end
  end
with object_loop (fuel : nat) d (pkg name : string) (fields : list (string * dval F))
  : result F (decodeState * list (string * dval F)) :=
  match fuel with
  | O => Panic
  | S fuel =>
      let origStruct := d_Struct d in
      let origFieldStack := d_FieldStack d in
      let d := scanWhile d scanSkipSpace in
      if opcode_eqb (d_opcode d) scanEndObject then Ok (d, fields)
      else if negb (opcode_eqb (d_opcode d) scanBeginLiteral) then Panic
      else
        let start := readIndex d in
        let d := rescanLiteral d in
        match unquoteBytes (slice (d_data d) start (readIndex d)) with
        | None => Panic
        | Some key =>
            let f := find_field key fields in
            let subv := match f with
                        | Some i => option_map snd (nth_error fields i)
                        | None => None
                        end in
            let d :=
              match f with
              | Some i =>
                  let fname := match nth_error fields i with Some (n, _) => n | None => ""%string end in
                  with_context d (Some name) (d_FieldStack d ++ [fname])
              | None =>
                  if d_disallowUnknownFields d then
                    saveError d (OtherError (Errorf [Lit "json: unknown field "; FmtQ (text key)]))
                  else d
              end in
            let d := skip_spaces d in
            if negb (opcode_eqb (d_opcode d) scanObjectKey) then Panic
            else
              let d := scanWhile d scanSkipSpace in
              bind (value fuel d subv) (fun '(d, subv) =>
              let fields := match f, subv with
                            | Some i, Some v => set_field i v fields
                            | _, _ => fields
                            end in
              let d := skip_spaces d in
              let d := with_context d origStruct origFieldStack in
              if opcode_eqb (d_opcode d) scanEndObject then Ok (d, fields)
              else if negb (opcode_eqb (d_opcode d) scanObjectValue) then Panic
              else object_loop fuel d pkg name fields)
        end
  end.

Definition fuel_for (data : list Z) : nat := (3 + 2 * length data)%nat.

(** [d.unmarshal(&v)] *)
Definition unmarshal d (v : dval F) : result F (dval F) :=
  let d := with_scan d (reset (d_scan d)) (d_opcode d) (d_off d) in
  let d := scanWhile d scanSkipSpace in
  bind (value (fuel_for (d_data d)) d (Some v)) (fun '(d, v') =>
  match d_savedError d with
  | Some e => Err e
  | None => Ok (match v' with Some v' => v' | None => v end)
  end).

Definition syntax_err (e : SyntaxError) : error F := ErrNew (se_msg e).

Definition Unmarshal (data : list Z) (v : dval F) : result F (dval F) :=
  match checkValid data newScanner with
  | Some e => Err (syntax_err e)
  | None => unmarshal (init data false) v
  end.
End Decode.
