(* ===== verification/JsonDecodeSpec.v ===== *)
(** The decoder of encoding/json reads the tree a text spells.

    [store] walks the tree; the decoder walks the bytes, with the scanner, by offsets.
    [Unmarshal_refines] says that they do the same, so the decoder never falls out of step
    with its scanner, never indexes out of range and never runs out of fuel. *)
From Stdlib Require Import ZArith Lia String Ascii Bool List.
From S2P Require Import Prelude Strconv Utf8 Scanner JsonGrammar ScannerSpec JsonDecode.
Import ListNotations.
Local Open Scope Z_scope.

(** Equal pieces of a text, and equal offsets in it. *)
Ltac same_place := first
  [ assumption
  | reflexivity
  | repeat (progress (rewrite <- ?app_assoc; cbn [app])); reflexivity
  | unfold len; repeat (progress (rewrite ?length_app; cbn [length app])); lia ].

(** * String literals *)

(** The bytes of a rune beyond ASCII are beyond ASCII. *)
Lemma enc_high r : valid_rune r -> 0x80 <= r -> Forall (fun c => 0x80 <= c) (enc r).
Proof.
  intros Hr H. rewrite enc_valid by exact Hr.
  unfold valid_rune, surrogateMin, surrogateMax, MaxRune in Hr.
  unfold enc_closed. zcase; repeat constructor; Z.to_euclidean_division_equations; lia.
Qed.

Lemma strchars_drop u rest : Forall (fun c => 0x80 <= c) u -> strchars (u ++ rest) -> strchars rest.
Proof.
  induction 1 as [|c u Hc _ IH]; [auto|]. cbn [app]. intros H. inversion H; subst; auto; lia.
Qed.

(** The decoder of UTF-8 stops inside a string. *)
Lemma strchars_rune c b :
  0x80 <= c -> Forall is_byte (c :: b) -> strchars (c :: b) ->
  DecodeRune (c :: b) = (RuneError, 1) \/
  exists r rest, valid_rune r /\ c :: b = enc r ++ rest /\ DecodeRune (c :: b) = (r, len (enc r)) /\
    strchars rest.
Proof.
  intros Hc Hb Hs. destruct (DecodeRune_cases c b Hb) as [(r & rest & Hr & E)|[E _]]; [|now left].
  right. exists r, rest. rewrite E in Hb, Hs |- *. apply Forall_app in Hb as [_ Hb].
  split; [exact Hr|]. split; [reflexivity|]. split; [now apply DecodeRune_enc|].
  apply (strchars_drop (enc r)); [|exact Hs]. apply enc_high; [exact Hr|].
  destruct (Z.ltb_spec r 0x80) as [Hlt|]; [|lia]. exfalso.
  assert (0 <= r) by (unfold valid_rune, surrogateMin, surrogateMax in Hr; lia).
  rewrite enc_ascii in E by (unfold RuneSelf; lia). injection E as -> _. lia.
Qed.

(** The first run of bytes that stand for themselves. *)
Lemma plain_prefix_split fuel : forall b, strchars b -> Forall is_byte b ->
  exists u rest, b = u ++ rest /\ plain_prefix fuel b = length u /\ strchars rest.
Proof.
  induction fuel as [|fuel IH]; intros b Hs Hb; [now exists [], b|].
  destruct b as [|c b]; cbn [plain_prefix]; [now exists [], []|].
  case_if; [now exists [], (c :: b)|]. case_if.
  - inversion Hs; subst; try discriminate. inversion Hb; subst.
    destruct (IH b) as (u & rest & -> & E & Hr); [assumption..|].
    exists (c :: u), rest. cbn. auto.
  - destruct (strchars_rune c b) as [->|(r & rest & Hr & E & -> & Hrest)];
      [unfold RuneSelf in *; lia|exact Hb|exact Hs|now exists [], (c :: b)|].
    case_if; [now exists [], (c :: b)|]. rewrite E in Hb |- *. apply Forall_app in Hb as [_ Hb].
    rewrite skipn_len_app. destruct (IH rest Hrest Hb) as (u & rest' & -> & Eu & H').
    exists (enc r ++ u), rest'. rewrite <- app_assoc, Eu, length_app.
    repeat split; [|exact H']. unfold len. lia.
Qed.

Lemma hex_digit_ok c : is_hex c = true -> exists d, hex_digit c = Some d /\ 0 <= d.
Proof.
  unfold is_hex, hex_digit. intros H.
  repeat case_if; try (eexists; split; [reflexivity|lia]); exfalso; lia.
Qed.

Lemma getu4_u a1 a2 a3 a4 b :
  is_hex a1 = true -> is_hex a2 = true -> is_hex a3 = true -> is_hex a4 = true ->
  0 <= getu4 (92 :: 117 :: a1 :: a2 :: a3 :: a4 :: b).
Proof.
  intros H1 H2 H3 H4. destruct (hex_digit_ok a1 H1) as (d1 & E1 & P1),
    (hex_digit_ok a2 H2) as (d2 & E2 & P2), (hex_digit_ok a3 H3) as (d3 & E3 & P3),
    (hex_digit_ok a4 H4) as (d4 & E4 & P4).
  cbn [getu4]. rewrite E1, E2, E3, E4. lia.
Qed.

Lemma getu4_other c b : c <> 92 -> getu4 (c :: b) = -1.
Proof.
  intros H. destruct c as [|p|p]; try reflexivity.
  do 7 (destruct p as [p|p|]; try reflexivity). congruence.
Qed.

(** A second escape that [getu4] takes is an escape of the string. *)
Lemma getu4_chars b : 0 <= getu4 b -> strchars b -> strchars (skipn 6 b).
Proof.
  intros H Hs. inversion Hs as [|c b' _ _ H92|c b' Hc|]; subst; try (cbn in H; lia); [| |assumption].
  - exfalso. rewrite getu4_other in H by exact H92. lia.
  - exfalso. revert H. cbn in Hc. decompose [or] Hc; subst; try contradiction; cbn; lia.
Qed.

Lemma unquote_loop_ok fuel : forall b, (length b <= fuel)%nat -> strchars b -> Forall is_byte b ->
  exists t, unquote_loop fuel b = Some t.
Proof.
  induction fuel as [|fuel IH]; intros b Hl Hs Hb; [destruct b; [now exists []|cbn in Hl; lia]|].
  assert (Hk : forall x rest, (length rest <= fuel)%nat -> strchars rest -> Forall is_byte rest ->
            exists t, option_map (app x) (unquote_loop fuel rest) = Some t).
  { intros x rest H1 H2 H3. destruct (IH rest H1 H2 H3) as [t ->]. now eexists. }
  inversion Hs as [|c b' Hc H34 H92 Hs'|c b' Hc Hs'|a1 a2 a3 a4 b' H1 H2 H3 H4 Hs']; subst;
    cbn [unquote_loop].
  - now exists [].
  - rewrite (proj2 (Z.eqb_neq c 92) H92). replace ((c =? 34) || (c <? 32)) with false by lia.
    case_if; [apply Hk; [cbn in Hl; lia|exact Hs'|now inversion Hb]|].
    destruct (strchars_rune c b') as [->|(r & rest & Hr & E & -> & Hrest)];
      [unfold RuneSelf in *; lia|exact Hb|exact Hs| |].
    + change (skipn (Z.to_nat 1) (c :: b')) with b'.
      apply Hk; [cbn in Hl; lia|exact Hs'|now inversion Hb].
    + rewrite E in Hb, Hl |- *. rewrite skipn_len_app. apply Forall_app in Hb as [_ Hb].
      apply Hk; [|exact Hrest|exact Hb]. rewrite length_app in Hl.
      pose proof (enc_length r Hr). unfold len in *. lia.
  - replace (92 =? 92) with true by reflexivity. inversion Hb as [|? ? _ Hb']; subst.
    inversion Hb' as [|? ? _ Hb'']; subst. cbn [length] in Hl.
    cbn in Hc. decompose [or] Hc; subst; try contradiction; cbn [Z.eqb Pos.eqb orb];
      (apply Hk; [lia|exact Hs'|exact Hb'']).
  - replace (92 =? 92) with true by reflexivity. cbn [orb].
    change (117 =? 34) with false. change (117 =? 92) with false. change (117 =? 47) with false.
    change (117 =? 39) with false. change (117 =? 98) with false. change (117 =? 102) with false.
    change (117 =? 110) with false. change (117 =? 114) with false. change (117 =? 116) with false.
    change (117 =? 117) with true. cbn [orb].
    pose proof (getu4_u a1 a2 a3 a4 b' H1 H2 H3 H4) as Hge.
    replace (getu4 _ <? 0) with false by lia. cbn [length] in Hl.
    change (skipn 6 (92 :: 117 :: a1 :: a2 :: a3 :: a4 :: b')) with b'.
    repeat (inversion Hb as [|? ? _ Hb1]; subst; clear Hb; rename Hb1 into Hb).
    case_if; [|apply Hk; [lia|exact Hs'|exact Hb]].
    case_if; [|apply Hk; [lia|exact Hs'|exact Hb]].
    apply Hk; [rewrite length_skipn; lia| |now apply skipn_Forall].
    apply getu4_chars; [|exact Hs'].
    match goal with H : negb (_ =? RuneError) = true |- _ => revert H end.
    unfold utf16_DecodeRune, replacementChar, RuneError, surr2.
    case_if; [lia|]. now rewrite Z.eqb_refl.
Qed.

Lemma slice_inner (b : list Z) (x y : Z) : slice (x :: b ++ [y]) 1 (len (x :: b ++ [y]) - 1) = b.
Proof.
  unfold slice. rewrite len_cons, len_app. change (len [y]) with 1.
  change (Z.to_nat 1) with 1%nat. cbn [skipn]. unfold len.
  replace (Z.to_nat (Z.of_nat (length b) + 1 + 1 - 1 - 1)) with (length b) by lia.
  rewrite firstn_app, Nat.sub_diag, firstn_all. cbn [firstn]. apply app_nil_r.
Qed.

Lemma unquote_quoted b :
  unquoteBytes (quoted b) =
  let r := plain_prefix (length b) b in
  if (r =? length b)%nat then Some b
  else option_map (app (firstn r b)) (unquote_loop (length b) (skipn r b)).
Proof.
  unfold unquoteBytes, quoted. rewrite slice_inner. rewrite len_cons, len_app.
  pose proof (len_nonneg b). change (len [34]) with 1.
  replace (len b + 1 + 1 <? 2) with false by lia.
  replace (at_ (34 :: b ++ [34]) (len b + 1 + 1 - 1)) with 34; [reflexivity|].
  unfold at_. replace (Z.to_nat (len b + 1 + 1 - 1)) with (S (length b)) by (unfold len; lia).
  cbn [nth]. rewrite app_nth2, Nat.sub_diag by lia. reflexivity.
Qed.

Lemma unquote_string_lit k : string_lit k -> Forall is_byte k -> exists t, unquoteBytes k = Some t.
Proof.
  intros [b Hs] Hb. rewrite unquote_quoted. cbv zeta. case_if; [now eexists|].
  inversion Hb as [|? ? _ Hb']; subst. apply Forall_app in Hb' as [Hb' _].
  destruct (plain_prefix_split (length b) b Hs Hb') as (u & rest & Eb & -> & Hr).
  assert (Es : skipn (length u) b = rest)
    by (rewrite Eb, skipn_app, skipn_all, Nat.sub_diag; reflexivity).
  rewrite Es.
  destruct (unquote_loop_ok (length b) rest) as [t ->]; [|exact Hr| |now eexists].
  - rewrite Eb, length_app. lia.
  - rewrite Eb in Hb'. now apply Forall_app in Hb'.
Qed.

(** * What a tree does to a target *)

Section Decode.
Context {F : Type} {GS : GoStrconv F}.
Implicit Types (d : decodeState (F := F)) (v : dval F).

Definition unquoted (k : list Z) : list Z := match unquoteBytes k with Some s => s | None => [] end.

Definition store_literal d (b : list Z) v : decodeState * dval F :=
  match literalStore d b v with Ok r => r | _ => (d, v) end.

(** A member of an object: the value goes to the field of its key, the last field error
    and the first saved error are those of the decoder, an unknown key is an error only
    where it is disallowed. *)
Definition store_member (store : decodeState -> dval F -> decodeState * dval F) (name : string)
    (k : list Z) d (fields : list (string * dval F)) : decodeState * list (string * dval F) :=
  match find_field (unquoted k) fields with
  | Some i =>
      match nth_error fields i with
      | Some (fname, x) =>
          let '(d1, x') := store (with_context d (Some name) (d_FieldStack d ++ [fname])) x in
          (with_context d1 (d_Struct d) (d_FieldStack d), set_field i x' fields)
      | None => (d, fields)
      end
  | None =>
      (if d_disallowUnknownFields d
       then saveError d (OtherError (Errorf [Lit "json: unknown field "; FmtQ (text (unquoted k))]))
       else d, fields)
  end.

Fixpoint store (t : tree) d v {struct t} : decodeState * dval F :=
  match t with
  | TLit b => store_literal d b v
  | TArr _ =>
      let '(leaf, put) := indirect v false in
      (saveError d (UnmarshalTypeError "array" (type_name leaf)), put leaf)
  | TObj l =>
      let '(leaf, put) := indirect v false in
      match leaf with
      | DStruct pkg name fields =>
          let fix members l d fields :=
            match l with
            | [] => (d, fields)
            | (k, t) :: l' =>
                let '(d, fields) := store_member (store t) name k d fields in members l' d fields
            end in
          let '(d, fields) := members l d fields in (d, put (DStruct pkg name fields))
      | _ => (saveError d (UnmarshalTypeError "object" (type_name leaf)), put leaf)
      end
  end.

Fixpoint store_members (name : string) (l : list (list Z * tree)) d fields :=
  match l with
  | [] => (d, fields)
  | (k, t) :: l' =>
      let '(d, fields) := store_member (store t) name k d fields in store_members name l' d fields
  end.

Lemma store_obj l d v :
  store (TObj l) d v =
  let '(leaf, put) := indirect v false in
  match leaf with
  | DStruct pkg name fields =>
      let '(d, fields) := store_members name l d fields in (d, put (DStruct pkg name fields))
  | _ => (saveError d (UnmarshalTypeError "object" (type_name leaf)), put leaf)
  end.
Proof.
  cbn [store]. destruct (indirect v false) as [leaf put]. destruct leaf; try reflexivity.
  match goal with |- (let '(_, _) := ?a in _) = (let '(_, _) := ?b in _) => assert (E : a = b) end;
    [|now rewrite E].
  revert d fields. induction l as [|[k t] l IH]; intros d fields; [reflexivity|].
  cbn [store_members]. destruct (store_member (store t) name k d fields) as [d1 f1]. apply IH.
Qed.

(** ** The input and the scanning fields are beside the point *)

Definition with_input d (data : list Z) (s : scanner) (o : opcode) (i : Z) : decodeState :=
  mkDecodeState data i o s (d_Struct d) (d_FieldStack d) (d_savedError d)
    (d_disallowUnknownFields d).


Lemma saveError_input d b0 s o i e :
  saveError (with_input d b0 s o i) e = with_input (saveError d e) b0 s o i.
Proof. unfold saveError. cbn. now destruct (d_savedError d). Qed.

Lemma with_context_input d b0 s o i st fs :
  with_context (with_input d b0 s o i) st fs = with_input (with_context d st fs) b0 s o i.
Proof. reflexivity. Qed.

Lemma saveError_fields d e :
  d_data (saveError d e) = d_data d /\ d_off (saveError d e) = d_off d /\
  d_scan (saveError d e) = d_scan d /\ d_opcode (saveError d e) = d_opcode d /\
  d_Struct (saveError d e) = d_Struct d /\ d_FieldStack (saveError d e) = d_FieldStack d /\
  d_disallowUnknownFields (saveError d e) = d_disallowUnknownFields d.
Proof. unfold saveError. destruct (d_savedError d); cbn; auto 10. Qed.

Lemma literalStore_input d b0 s o i b v :
  literalStore (with_input d b0 s o i) b v =
  match literalStore d b v with
  | Ok (d', v') => Ok (with_input d' b0 s o i, v')
  | Err e => Err e
  | Panic => Panic
  end.
Proof.
  destruct b as [|c b]; [reflexivity|]. cbn [literalStore].
  destruct (indirect v (c =? 110)) as [leaf put].
  repeat case_if; rewrite ?saveError_input; try reflexivity.
  - now destruct leaf.
  - destruct (unquoteBytes (c :: b)); [|reflexivity]. destruct leaf; try reflexivity; now rewrite saveError_input.
  - destruct leaf; rewrite ?saveError_input; try reflexivity.
    + destruct (ParseFloat (text (c :: b))) as [y [e|]]; try reflexivity; now rewrite saveError_input.
    + destruct (ParseInt (c :: b) 10 64) as [y [e|]]; try reflexivity; now rewrite saveError_input.
Qed.

Lemma literalStore_data d b v d' v' : literalStore d b v = Ok (d', v') -> d_data d' = d_data d.
Proof.
  destruct b as [|c b]; [discriminate|]. cbn [literalStore].
  destruct (indirect v (c =? 110)) as [leaf put].
  assert (Hs : forall e w, Ok (saveError d e, w) = Ok (d', v') :> result F _ -> d_data d' = d_data d)
    by (intros e w E; injection E as <- _; apply saveError_fields).
  repeat case_if; try apply Hs; try discriminate.
  - destruct leaf; intros E; injection E as <- _; reflexivity.
  - destruct (unquoteBytes (c :: b)); [|discriminate].
    destruct leaf; try apply Hs; intros E; injection E as <- _; reflexivity.
  - destruct leaf; try apply Hs.
    + destruct (ParseFloat (text (c :: b))) as [y [e|]]; try apply Hs.
      intros E; injection E as <- _; reflexivity.
    + destruct (ParseInt (c :: b) 10 64) as [y [e|]]; try apply Hs.
      intros E; injection E as <- _; reflexivity.
Qed.

Definition scanned (r : decodeState (F := F) * dval F) (b0 : list Z) (s : scanner) (o : opcode) (i : Z) :=
  (with_input (fst r) b0 s o i, snd r).

Lemma store_literal_input d b0 s o i b v :
  store_literal (with_input d b0 s o i) b v = scanned (store_literal d b v) b0 s o i.
Proof. unfold store_literal. rewrite literalStore_input. now destruct (literalStore d b v) as [[d' v']|e|]. Qed.

Lemma store_literal_data d b v : d_data (fst (store_literal d b v)) = d_data d.
Proof.
  unfold store_literal. destruct (literalStore d b v) as [[d' v']|e|] eqn:E; try reflexivity.
  exact (literalStore_data _ _ _ _ _ E).
Qed.

Lemma store_member_input (f : decodeState (F := F) -> dval F -> decodeState (F := F) * dval F) name k d fields b0 s o i :
  (forall d v b0 s o i, f (with_input d b0 s o i) v = scanned (f d v) b0 s o i) ->
  store_member f name k (with_input d b0 s o i) fields =
  let '(d1, fs) := store_member f name k d fields in (with_input d1 b0 s o i, fs).
Proof.
  intros Hf. unfold store_member. destruct (find_field (unquoted k) fields) as [j|].
  - destruct (nth_error fields j) as [[fname x]|]; [|reflexivity].
    rewrite with_context_input, Hf. unfold scanned.
    cbn [d_FieldStack with_input]. now destruct (f _ x) as [d1 x'].
  - cbn [d_disallowUnknownFields with_input]. case_if; [|reflexivity]. now rewrite saveError_input.
Qed.

Lemma store_member_data (f : decodeState (F := F) -> dval F -> decodeState (F := F) * dval F) name k d fields :
  (forall d v, d_data (fst (f d v)) = d_data d) ->
  d_data (fst (store_member f name k d fields)) = d_data d.
Proof.
  intros Hf. unfold store_member. destruct (find_field (unquoted k) fields) as [j|].
  - destruct (nth_error fields j) as [[fname x]|]; [|reflexivity].
    pose proof (Hf (with_context d (Some name) (d_FieldStack d ++ [fname])) x) as H.
    destruct (f _ x) as [d1 x']. exact H.
  - cbn [fst]. case_if; [apply saveError_fields|reflexivity].
Qed.

Lemma store_members_input_ind name l b0 s o i :
  Forall (fun kt => forall d v b0 s o i,
            store (snd kt) (with_input d b0 s o i) v = scanned (store (snd kt) d v) b0 s o i) l ->
  forall d fields, store_members name l (with_input d b0 s o i) fields =
    let '(d1, fs) := store_members name l d fields in (with_input d1 b0 s o i, fs).
Proof.
  induction 1 as [|[k t] l Ht _ IHl]; intros d fields; [reflexivity|].
  cbn [store_members]. rewrite store_member_input by exact Ht.
  destruct (store_member (store t) name k d fields) as [d1 fs]. apply IHl.
Qed.

Lemma store_input t : forall d v b0 s o i, store t (with_input d b0 s o i) v = scanned (store t d v) b0 s o i.
Proof.
  induction t as [b|l _|l IH] using tree_ind'; intros d v b0 s o i.
  - apply store_literal_input.
  - cbn [store]. destruct (indirect v false) as [leaf put]. now rewrite saveError_input.
  - rewrite !store_obj. destruct (indirect v false) as [leaf put].
    destruct leaf; rewrite ?saveError_input; try reflexivity.
    rewrite store_members_input_ind by exact IH. now destruct (store_members name l d fields) as [d1 fs].
Qed.

Lemma store_members_input name l d fields b0 s o i :
  store_members name l (with_input d b0 s o i) fields =
    let '(d1, fs) := store_members name l d fields in (with_input d1 b0 s o i, fs).
Proof.
  apply store_members_input_ind, Forall_forall. intros kt _ d' v b0' s' o' i'. apply store_input.
Qed.

Lemma store_data t : forall d v, d_data (fst (store t d v)) = d_data d.
Proof.
  induction t as [b|l _|l IH] using tree_ind'; intros d v.
  - apply store_literal_data.
  - cbn [store]. destruct (indirect v false) as [leaf put]. apply saveError_fields.
  - rewrite store_obj. destruct (indirect v false) as [leaf put].
    destruct leaf; try apply saveError_fields.
    assert (Hm : forall d fields, d_data (fst (store_members name l d fields)) = d_data d).
    { clear d fields. induction IH as [|[k t] l Ht _ IHl]; intros d fields; [reflexivity|].
      cbn [store_members]. pose proof (store_member_data (store t) name k d fields Ht) as E.
      destruct (store_member (store t) name k d fields) as [d1 fs]. rewrite IHl. exact E. }
    specialize (Hm d fields). destruct (store_members name l d fields) as [d1 fs]. exact Hm.
Qed.

(** The same with the input kept. *)
Lemma with_scan_twice d s o i s' o' i' : with_scan (with_scan d s o i) s' o' i' = with_scan d s' o' i'.
Proof. reflexivity. Qed.

Lemma saveError_scan d s o i e :
  saveError (with_scan d s o i) e = with_scan (saveError d e) s o i.
Proof. unfold saveError. cbn. now destruct (d_savedError d). Qed.

Lemma with_scan_input d d1 s o i : d_data d1 = d_data d -> with_input d1 (d_data d) s o i = with_scan d1 s o i.
Proof. now intros <-. Qed.

Lemma literalStore_scan d s o i b v :
  literalStore (with_scan d s o i) b v =
  match literalStore d b v with
  | Ok (d', v') => Ok (with_scan d' s o i, v')
  | Err e => Err e
  | Panic => Panic
  end.
Proof.
  change (with_scan d s o i) with (with_input d (d_data d) s o i). rewrite literalStore_input.
  destruct (literalStore d b v) as [[d' v']|e|] eqn:E; try reflexivity.
  apply literalStore_data in E. now rewrite with_scan_input.
Qed.

Lemma store_scan t d v s o i :
  store t (with_scan d s o i) v = (with_scan (fst (store t d v)) s o i, snd (store t d v)).
Proof.
  change (with_scan d s o i) with (with_input d (d_data d) s o i). rewrite store_input.
  unfold scanned. now rewrite with_scan_input by apply store_data.
Qed.

Lemma store_members_data name l : forall d fields,
  d_data (fst (store_members name l d fields)) = d_data d.
Proof.
  induction l as [|[k t] l IH]; intros d fields; [reflexivity|]. cbn [store_members].
  pose proof (store_member_data (store t) name k d fields (store_data t)) as E.
  destruct (store_member (store t) name k d fields) as [d1 fs]. rewrite IH. exact E.
Qed.

Lemma store_members_scan name l d fields s o i :
  store_members name l (with_scan d s o i) fields =
    let '(d1, fs) := store_members name l d fields in (with_scan d1 s o i, fs).
Proof.
  change (with_scan d s o i) with (with_input d (d_data d) s o i). rewrite store_members_input.
  pose proof (store_members_data name l d fields) as E.
  destruct (store_members name l d fields) as [d1 fs]. now rewrite with_scan_input.
Qed.

(** * Along the bytes *)

(** [d] has read [p] and not yet [r]. *)
Definition at_pos d (p r : list Z) : Prop := d_data d = p ++ r /\ d_off d = len p.

Lemma rest_at d p r : at_pos d p r -> rest d = r.
Proof. intros [E1 E2]. unfold rest. now rewrite E1, E2, skipn_len_app. Qed.

(** The scanner and the opcode after a value and one byte more; at the end of the text
    only the opcode counts. *)
Definition after (st : list pstate) (n : Z) (post : list Z) (so : scanner * opcode) : Prop :=
  match post with
  | [] => snd so = scanEnd
  | c :: _ => so = step (mk stateEndValue st n) c
  end.

Definition follows (st : list pstate) (post : list Z) : Prop :=
  match post with [] => st = [] | c :: _ => delimiter c end.

(** Go on with the scanner and the opcode of [so], past [i] bytes. *)
Definition go_on d (so : scanner * opcode) (i : Z) : decodeState := with_scan d (fst so) (snd so) i.

Lemma data_split d p r : at_pos d p r -> len (d_data d) = len p + len r.
Proof. intros [-> _]. apply len_app. Qed.

(** ** [scanWhile] over white space *)

Lemma while_ws f st n w : forall r i, skips f st -> ws w ->
  while_loop (mk f st n) (w ++ r) i scanSkipSpace = while_loop (mk f st n) r (i + len w) scanSkipSpace.
Proof.
  induction w as [|c w IH]; intros r i Hs Hw; cbn [app while_loop].
  - now rewrite Z.add_0_r.
  - apply ws_cons in Hw as [Hc Hw]. rewrite step_space by assumption. cbn [opcode_eqb negb].
    rewrite IH by assumption. rewrite len_cons. f_equal. lia.
Qed.

Lemma scanWhile_ok d f st n q w c r :
  d_scan d = mk f st n -> skips f st -> at_pos d q (w ++ c :: r) -> ws w ->
  snd (step (mk f st n) c) <> scanSkipSpace ->
  scanWhile d scanSkipSpace = go_on d (step (mk f st n) c) (len q + len w + 1).
Proof.
  intros Es Hs Hp Hw Hc. unfold scanWhile. rewrite Es, (rest_at _ _ _ Hp), while_ws by assumption.
  destruct Hp as [_ ->]. cbn [while_loop]. destruct (step (mk f st n) c) as [s op]. cbn [snd] in Hc.
  replace (opcode_eqb op scanSkipSpace) with false by (destruct op; cbn; congruence).
  reflexivity.
Qed.

Lemma step_EndValue_space p st n c :
  isSpace c = true -> step (mk stateEndValue (p :: st) n) c = (mk stateEndValue (p :: st) n, scanSkipSpace).
Proof. intros H. apply step_space; [discriminate|exact H]. Qed.

Lemma skip_spaces_ok d p st n q w c r so :
  d_data d = q ++ w ++ c :: r -> ws w -> after (p :: st) n (w ++ c :: r) so ->
  snd (step (mk stateEndValue (p :: st) n) c) <> scanSkipSpace ->
  skip_spaces (go_on d so (len q + 1)) =
  go_on d (step (mk stateEndValue (p :: st) n) c) (len q + len w + 1).
Proof.
  intros Ed Hw Ha Hc. unfold skip_spaces. cbn [go_on with_scan d_opcode].
  destruct w as [|c1 w]; cbn [app after] in Ha; subst so.
  - replace (opcode_eqb _ scanSkipSpace) with false; [now rewrite Z.add_0_r|].
    symmetry. destruct (snd (step (mk stateEndValue (p :: st) n) c)); cbn; congruence.
  - apply ws_cons in Hw as [Hc1 Hw]. rewrite step_EndValue_space by exact Hc1.
    cbn [snd fst opcode_eqb]. rewrite (scanWhile_ok _ stateEndValue (p :: st) n (q ++ [c1]) w c r);
      [|reflexivity|discriminate| |exact Hw|exact Hc].
    + unfold go_on. cbn [fst snd]. rewrite with_scan_twice. f_equal. rewrite len_app, !len_cons.
      change (len []) with 0. lia.
    + split; [|change (len q + 1 = len (q ++ [c1])); now rewrite len_app].
      change (d_data d = (q ++ [c1]) ++ w ++ c :: r). now rewrite Ed, <- app_assoc.
Qed.

(** ** [scanNext] *)

Lemma scanNext_ok d st n q post :
  d_scan d = closed st n -> at_pos d q post -> follows st post ->
  exists so, after st n post so /\ scanNext d = go_on d so (len q + 1).
Proof.
  intros Es Hp Hf. unfold scanNext. rewrite (rest_at _ _ _ Hp), Es.
  destruct post as [|c post].
  - cbn [follows] in Hf. subst st. exists (top n, scanEnd). split; [reflexivity|].
    rewrite (data_split _ _ _ Hp). now rewrite Z.add_0_r.
  - exists (step (mk stateEndValue st n) c). split; [reflexivity|].
    rewrite (ended_step st n) by (auto with cam). destruct Hp as [_ ->].
    now destruct (step (mk stateEndValue st n) c).
Qed.

(** ** [skip] *)

Lemma skip_walk k u : forall s s' r i,
  walk k s u = Some s' -> skip_loop s (u ++ r) i k = skip_loop s' r (i + len u) k.
Proof.
  induction u as [|c u IH]; intros s s' r i E; cbn [app walk skip_loop] in *.
  - injection E as ->. now rewrite Z.add_0_r.
  - destruct (step s c) as [s1 op]. case_if_in E; [discriminate|].
    apply orb_false_iff in Heqb as [_ E2]. rewrite E2. rewrite (IH _ _ _ _ E), len_cons.
    f_equal. lia.
Qed.

(** From inside a composite value to past its end. *)
Lemma skip_ok d x st n q u c op post s :
  d_scan d = s -> length (parseState s) = S (length st) ->
  at_pos d q (u ++ c :: post) -> walk (S (length st)) s u = Some x ->
  step x c = (closed st n, op) ->
  skip d = Ok (with_scan d (closed st n) op (len q + len u + 1)).
Proof.
  intros Es El Hp Hw Hc. unfold skip. rewrite Es, El, (rest_at _ _ _ Hp), (skip_walk _ _ _ _ _ _ Hw).
  destruct Hp as [_ ->]. cbn [skip_loop]. rewrite Hc, length_closed.
  replace (length st <? S (length st))%nat with true by (symmetry; apply Nat.ltb_lt; lia).
  reflexivity.
Qed.

(** ** [rescanLiteral] *)

Lemma string_end_plain fuel c r i :
  c <> 92 -> c <> 34 -> string_end (S fuel) (c :: r) i = string_end fuel r (i + 1).
Proof.
  intros H1 H2. cbn [string_end]. apply Z.eqb_neq in H1, H2. now rewrite H1, H2.
Qed.

Lemma hex_plain a : is_hex a = true -> a <> 92 /\ a <> 34.
Proof. unfold is_hex. lia. Qed.

Lemma string_end_ok b : strchars b -> forall fuel r i, (length b < fuel)%nat ->
  string_end fuel (b ++ 34 :: r) i = i + len b + 1.
Proof.
  induction 1 as [|c b H1 H2 H3 _ IH|c b Hc _ IH|a1 a2 a3 a4 b H1 H2 H3 H4 _ IH];
    intros fuel r i Hl; cbn [length] in Hl.
  - destruct fuel; [lia|]. cbn. lia.
  - destruct fuel; [lia|]. cbn [app]. rewrite string_end_plain by assumption.
    rewrite IH by lia. rewrite len_cons. lia.
  - destruct fuel; [lia|]. cbn [app string_end]. change (92 =? 92) with true. cbn iota.
    rewrite IH by lia. rewrite !len_cons. lia.
  - apply hex_plain in H1 as [? ?], H2 as [? ?], H3 as [? ?], H4 as [? ?].
    do 5 (destruct fuel; [lia|]). cbn [app].
    replace (string_end (S (S (S (S (S fuel))))) (92 :: 117 :: a1 :: a2 :: a3 :: a4 :: b ++ 34 :: r) i)
      with (string_end (S (S (S (S fuel)))) (a1 :: a2 :: a3 :: a4 :: b ++ 34 :: r) (i + 2)) by reflexivity.
    rewrite !string_end_plain by assumption. rewrite IH by lia. rewrite !len_cons. lia.
Qed.

Lemma number_end_ok (v post : list Z) : forall i,
  Forall (fun c => is_number_byte c = true) v ->
  match post with [] => True | c :: _ => is_number_byte c = false end ->
  number_end (v ++ post) i = i + len v.
Proof.
  induction v as [|c v IH]; intros i Hv Hp; cbn [app].
  - destruct post as [|c post]; cbn; [lia|]. rewrite Hp. lia.
  - apply Forall_cons_iff in Hv as [Hc Hv]. cbn [number_end]. rewrite Hc, IH by assumption.
    rewrite len_cons. lia.
Qed.

Lemma digits_number ds : digits ds -> Forall (fun c => is_number_byte c = true) ds.
Proof. apply Forall_impl. intros c Hc. unfold is_number_byte. now rewrite Hc. Qed.

Lemma number_bytes (v : list Z) : number v -> Forall (fun c => is_number_byte c = true) v.
Proof.
  assert (H1 : forall d : Z, is_digit d = true -> is_number_byte d = true)
    by (intros d Hd; unfold is_number_byte; now rewrite Hd).
  intros [sg i f e Hsg Hi Hf He]. rewrite !Forall_app. repeat split.
  - destruct Hsg as [->| ->]; repeat constructor.
  - destruct Hi as [|d ds Hd Hds]; repeat constructor; auto using digits_number.
    apply H1, is_digit_iff. lia.
  - destruct Hf as [|d ds Hd Hds]; repeat constructor; auto using digits_number.
  - destruct He as [|x sg' d ds Hx Hsg' Hd Hds]; constructor.
    + destruct Hx as [->| ->]; reflexivity.
    + apply Forall_app. split; [destruct Hsg' as [->|[->| ->]]; repeat constructor|].
      constructor; auto using digits_number.
Qed.

Lemma follows_number st post :
  follows st post -> match post with [] => True | c :: _ => is_number_byte c = false end.
Proof.
  destruct post as [|c post]; [trivial|]. cbn [follows]. unfold delimiter, isSpace, is_number_byte, is_digit.
  cbn. lia.
Qed.

(** Where the literal ends. *)
Definition literal_end (data : list Z) (c : Z) (r : list Z) (i : Z) : Z :=
  if c =? 34 then string_end (length data) r i
  else if is_digit c || (c =? 45) then number_end r i
  else if c =? 116 then i + 3
  else if c =? 102 then i + 4
  else if c =? 110 then i + 3
  else i.

Lemma literal_end_ok data c (v : list Z) st post i :
  literal (c :: v) -> follows st post -> (length v <= length data)%nat ->
  literal_end data c (v ++ post) i = i + len v.
Proof.
  intros Hl Hf Hd. inversion Hl as [b Hs|b Hn| | |]; subst; unfold literal_end.
  - inversion Hs as [b Hb E]; subst. cbn [Z.eqb Pos.eqb].
    rewrite <- app_assoc. cbn [app]. rewrite string_end_ok by (rewrite length_app in Hd; cbn in Hd; auto; lia).
    rewrite len_app. change (len [34]) with 1. lia.
  - destruct (number_start _ Hn) as (c' & v' & E & Hc). injection E as <- <-.
    apply number_bytes, Forall_cons_iff in Hn as [_ Hv].
    assert (E : is_digit c || (c =? 45) = true) by (unfold is_digit; lia).
    rewrite E. replace (c =? 34) with false by lia.
    apply number_end_ok; [exact Hv|exact (follows_number st post Hf)].
  - reflexivity.
  - reflexivity.
  - reflexivity.
Qed.

Lemma at_app (p : list Z) c r : at_ (p ++ c :: r) (len p) = c.
Proof. unfold at_, len. rewrite Nat2Z.id, app_nth2, Nat.sub_diag by lia. reflexivity. Qed.

(** A literal, its first byte read, in any state of the scanner. *)
Lemma rescan_ok d f st n p c (v post : list Z) :
  literal (c :: v) -> follows st post -> d_scan d = mk f st n -> at_pos d (p ++ [c]) (v ++ post) ->
  exists so, after st n post so /\ rescanLiteral d = go_on d so (len p + len (c :: v) + 1).
Proof.
  intros Hl Hf Hs Hp. pose proof (rest_at _ _ _ Hp) as Er. pose proof (data_split _ _ _ Hp) as Elen.
  destruct Hp as [Ed Eo]. rewrite len_app in Eo, Elen. change (len [c]) with 1 in Eo, Elen.
  rewrite len_app in Elen.
  assert (Ei : literal_end (d_data d) c (rest d) (d_off d) = len p + len (c :: v)).
  { rewrite Er, (literal_end_ok _ _ _ st) by (try assumption; unfold len in Elen; lia).
    rewrite Eo, len_cons. lia. }
  unfold rescanLiteral. cbv zeta. fold (literal_end (d_data d) (at_ (d_data d) (d_off d - 1)) (rest d) (d_off d)).
  replace (at_ (d_data d) (d_off d - 1)) with c
    by (rewrite Ed, Eo, Z.add_simpl_r, <- app_assoc; cbn [app]; now rewrite at_app).
  rewrite Ei, Hs. destruct post as [|c1 post].
  - exists (mk f st n, scanEnd). split; [reflexivity|].
    change (len []) with 0 in Elen. rewrite len_cons.
    now replace (len p + (len v + 1) <? len (d_data d)) with false by lia.
  - exists (step (mk stateEndValue st n) c1). split; [reflexivity|].
    rewrite !len_cons in Elen. pose proof (len_nonneg post).
    replace (len p + len (c :: v) <? len (d_data d)) with true by (rewrite len_cons; lia).
    replace (at_ (d_data d) (len p + len (c :: v))) with c1.
    + rewrite EndValue_any. unfold step, mk. cbn [sc_step].
      now destruct (do_EndValue (mkScanner stateEndValue false st None n) c1).
    + rewrite Ed, <- app_assoc. cbn [app].
      replace (p ++ c :: v ++ c1 :: post) with ((p ++ c :: v) ++ c1 :: post)
        by (rewrite <- app_assoc; reflexivity).
      rewrite <- len_app. now rewrite at_app.
Qed.

Lemma slice_app (p v r : list Z) : slice (p ++ v ++ r) (len p) (len p + len v) = v.
Proof.
  unfold slice. rewrite skipn_len_app. replace (len p + len v - len p) with (len v) by lia.
  unfold len. rewrite Nat2Z.id, firstn_app, firstn_all, Nat.sub_diag. cbn [firstn]. apply app_nil_r.
Qed.

(** The bytes of the literal, as they are taken once it has been rescanned. *)
Lemma literal_slice d p c (v post : list Z) so :
  at_pos d (p ++ [c]) (v ++ post) ->
  slice (d_data (go_on d so (len p + len (c :: v) + 1))) (readIndex d)
    (readIndex (go_on d so (len p + len (c :: v) + 1))) = c :: v.
Proof.
  intros [Ed Eo]. unfold readIndex, go_on. cbn [with_scan d_data d_off]. rewrite Eo, Ed, len_app.
  change (len [c]) with 1. rewrite !Z.add_simpl_r, <- app_assoc. cbn [app].
  change (c :: v ++ post) with ((c :: v) ++ post). apply slice_app.
Qed.

(** * Arrays and objects *)

(** From the first byte of a composite value to its last. *)
Definition encloses st n (c0 : Z) (op0 : opcode) (u : list Z) (c1 : Z) : Prop :=
  exists s0 x op1, step (mk stateBeginValue st n) c0 = (s0, op0) /\
    length (parseState s0) = S (length st) /\ walk (S (length st)) s0 u = Some x /\
    step x c1 = (closed st n, op1) /\ (op1 = scanEndArray \/ op1 = scanEndObject).

Lemma array_encloses l (v : list Z) st n :
  spells (TArr l) v -> depth_ok (depth (TArr l)) st ->
  exists u, v = 91 :: u ++ [93] /\ encloses st n 91 scanBeginArray u 93.
Proof.
  intros Hs Hd. pose proof (step_open_array st n (depth_ok_1 _ _ Hd)) as Eo.
  inversion Hs as [|w Hw|l' b Hb| |]; subst.
  - exists w. split; [reflexivity|]. eexists _, _, _. split; [exact Eo|]. split; [reflexivity|].
    split; [now apply walk_ws|]. split; [apply step_empty_array|auto].
  - destruct (proj1 (proj2 walks_all) l b Hb (S (length st)) st n stateBeginValueOrEmpty)
      as (x & Ex & Hx); [auto|exact Hd|lia|].
    exists b. split; [reflexivity|]. eexists _, x, _. split; [exact Eo|]. split; [reflexivity|].
    split; [exact Ex|]. split; [now apply step_close_array|auto].
Qed.

Lemma object_encloses l (v : list Z) st n :
  spells (TObj l) v -> depth_ok (depth (TObj l)) st ->
  exists u, v = 123 :: u ++ [125] /\ encloses st n 123 scanBeginObject u 125.
Proof.
  intros Hs Hd. pose proof (step_open_object st n (depth_ok_1 _ _ Hd)) as Eo.
  inversion Hs as [| | |w Hw|l' b Hb]; subst.
  - exists w. split; [reflexivity|]. eexists _, _, _. split; [exact Eo|]. split; [reflexivity|].
    split; [now apply walk_ws|]. split; [apply step_empty_object|auto].
  - destruct (proj2 (proj2 walks_all) l b Hb (S (length st)) st n stateBeginStringOrEmpty)
      as (x & Ex & Hx); [auto|exact Hd|lia|].
    exists b. split; [reflexivity|]. eexists _, x, _. split; [exact Eo|]. split; [reflexivity|].
    split; [exact Ex|]. split; [now apply step_close_object|auto].
Qed.

(** The decoder stands after the first byte of a value. *)
Definition entered d st n p (v post : list Z) : Prop :=
  match v with
  | [] => False
  | c :: v' => at_pos d (p ++ [c]) (v' ++ post) /\
      step (mk stateBeginValue st n) c = (d_scan d, d_opcode d)
  end.

Lemma entered_save d e st n p (v post : list Z) :
  entered d st n p v post -> entered (saveError d e) st n p v post.
Proof.
  destruct v as [|c v]; [auto|]. intros [[H1 H2] H3].
  destruct (saveError_fields d e) as (E1 & E2 & E3 & E4 & _).
  split; [split|]; now rewrite ?E1, ?E2, ?E3, ?E4.
Qed.

Lemma skip_next d st n p c0 op0 u c1 post :
  encloses st n c0 op0 u c1 -> entered d st n p (c0 :: u ++ [c1]) post -> follows st post ->
  d_opcode d = op0 /\ exists d2 so, skip d = Ok d2 /\ after st n post so /\
    scanNext d2 = go_on d so (len p + len (c0 :: u ++ [c1]) + 1).
Proof.
  intros (s0 & x & op1 & E0 & El & Hw & E1 & _) [Hp Es] Hf. rewrite E0 in Es. injection Es as Es Eop.
  split; [now symmetry|]. rewrite <- app_assoc in Hp. cbn [app] in Hp.
  eexists. rewrite (skip_ok d x st n _ _ _ _ _ s0) by eauto.
  destruct (scanNext_ok (with_scan d (closed st n) op1 (len (p ++ [c0]) + len u + 1)) st n
              (p ++ c0 :: u ++ [c1]) post) as (so & Ha & E); [reflexivity| |exact Hf|].
  - destruct Hp as [Ed _]. split; cbn [with_scan d_data d_off].
    + rewrite Ed, <- !app_assoc. cbn [app]. now rewrite <- app_assoc.
    + unfold len. lens.
  - exists so. split; [reflexivity|]. split; [exact Ha|]. rewrite E. unfold go_on. rewrite with_scan_twice.
    f_equal. rewrite len_app. lia.
Qed.

(** * The decoder and the tree *)

Definition reads_tree (t : tree) (v : list Z) : Prop :=
  forall fuel d st n p post, depth_ok (depth t) st -> Forall is_byte v ->
    follows st post -> entered d st n p v post -> (2 * length v < fuel)%nat ->
  (forall x, exists so, after st n post so /\
     value fuel d (Some x) =
       Ok (go_on (fst (store t d x)) so (len p + len v + 1), Some (snd (store t d x)))) /\
  (exists so, after st n post so /\ value fuel d None = Ok (go_on d so (len p + len v + 1), None)).

Lemma value_begin_literal c st n :
  value_start c -> c <> 91 -> c <> 123 ->
  exists f, step (mk stateBeginValue st n) c = (mk f st n, scanBeginLiteral).
Proof.
  intros Hc H1 H2. destruct (value_start_plain c Hc) as (E & _).
  unfold value_start in Hc. cbn in Hc.
  unfold step, mk, do_BeginValue. cbn [sc_step]. rewrite E.
  apply Z.eqb_neq in H1, H2. rewrite H1, H2.
  repeat case_if; try (eexists; reflexivity). exfalso. lia.
Qed.

Lemma literal_not_open (c : Z) (v : list Z) : literal (c :: v) -> value_start c /\ c <> 91 /\ c <> 123.
Proof.
  intros H. destruct (literal_start _ H) as (c' & v' & E & Hc). injection E as <- <-.
  split; [exact Hc|]. inversion H as [b Hs|b Hn| | |]; try lia.
  - destruct (string_lit_start _ Hs) as [b' E]. injection E as -> _. lia.
  - destruct (number_start _ Hn) as (c' & v' & E & Hc'). injection E as <- <-. lia.
Qed.

(** A literal never makes the decoder panic. *)
Lemma literalStore_ok d b x : literal b -> Forall is_byte b -> exists r, literalStore d b x = Ok r.
Proof.
  intros Hl Hb. destruct b as [|c b]; [destruct (literal_start _ Hl) as (? & ? & E & _); discriminate|].
  cbn [literalStore]. destruct (indirect x (c =? 110)) as [leaf put].
  destruct (literal_start _ Hl) as (c' & v' & E & Hc). injection E as <- <-.
  repeat case_if.
  - destruct leaf; eauto.
  - eauto.
  - replace c with 34 in * by lia. inversion Hl as [b' Hs|b' Hn| | |]; subst.
    + destruct (unquote_string_lit _ Hs Hb) as [t ->]. destruct leaf; eauto.
    + destruct (number_start _ Hn) as (c' & v' & E & Hc'). injection E as <- _. lia.
  - exfalso. destruct (literal_not_open c b Hl). unfold value_start in Hc. cbn in Hc. lia.
  - destruct leaf; eauto.
    + destruct (ParseFloat (text (c :: b))) as [y [e|]]; eauto.
    + destruct (ParseInt (c :: b) 10 64) as [y [e|]]; eauto.
Qed.

Lemma reads_literal (b : list Z) : literal b -> reads_tree (TLit b) b.
Proof.
  intros Hl fuel d st n p post Hd Hb Hf He Hfuel.
  destruct fuel as [|fuel]; [lia|]. destruct b as [|c b]; [contradiction|].
  destruct He as [Hp Es]. destruct (literal_not_open _ _ Hl) as (Hc & H1 & H2).
  destruct (value_begin_literal c st n Hc H1 H2) as [f Ef]. rewrite Ef in Es. injection Es as Es Eop.
  destruct (rescan_ok d f st n p c b post Hl Hf (eq_sym Es) Hp) as (so & Ha & Er).
  split; [intros x|]; exists so; (split; [exact Ha|]); cbn [value]; rewrite <- Eop, Er.
  - rewrite (literal_slice d p c b post so Hp). cbn [store]. unfold store_literal, go_on.
    rewrite literalStore_scan. destruct (literalStore_ok d _ x Hl Hb) as [[d1 x1] ->]. reflexivity.
  - reflexivity.
Qed.

Lemma reads_array l (v : list Z) : spells (TArr l) v -> reads_tree (TArr l) v.
Proof.
  intros Hs fuel d st n p post Hd Hb Hf He Hfuel. destruct fuel as [|fuel]; [lia|].
  destruct (array_encloses l v st n Hs Hd) as (u & -> & Hu). split; [intros x|]; cbn [value].
  - destruct (skip_next d st n p _ _ _ _ post Hu He Hf) as (-> & _). unfold array. cbn [store].
    destruct (indirect x false) as [leaf put].
    apply (entered_save d (UnmarshalTypeError "array" (type_name leaf))) in He.
    destruct (skip_next _ st n p _ _ _ _ post Hu He Hf) as (_ & d2 & so & Ek & Ha & En).
    exists so. split; [exact Ha|]. rewrite Ek. cbn [bind]. now rewrite En.
  - destruct (skip_next d st n p _ _ _ _ post Hu He Hf) as (-> & d2 & so & Ek & Ha & En).
    exists so. split; [exact Ha|]. rewrite Ek. cbn [bind]. now rewrite En.
Qed.

Lemma find_index_bound g (l : list (string * dval F)) : forall i j,
  find_index g i l = Some j -> (i <= j < i + length l)%nat.
Proof.
  induction l as [|[m x] l IH]; intros i j; cbn [find_index length]; [discriminate|].
  case_if; [intros E; injection E as <-; lia|]. intros E. apply IH in E. lia.
Qed.

Lemma find_field_nth key (fields : list (string * dval F)) i :
  find_field key fields = Some i -> exists fname x, nth_error fields i = Some (fname, x).
Proof.
  intros H. assert (Hi : (i < length fields)%nat).
  { unfold find_field in H. destruct (find_index _ 0 fields) as [j|] eqn:E;
      [injection H as <-; apply find_index_bound in E|apply find_index_bound in H]; lia. }
  destruct (nth_error fields i) as [[fname x]|] eqn:E; [eauto|].
  apply nth_error_None in E. lia.
Qed.

Lemma with_context_id d : with_context d (d_Struct d) (d_FieldStack d) = d.
Proof. now destruct d. Qed.

Lemma with_context_save d e :
  with_context (saveError d e) (d_Struct d) (d_FieldStack d) = saveError d e.
Proof. now destruct d as [? ? ? ? ? ? [e0|] ?]. Qed.

Lemma at_pos_go_on d p (q r : list Z) so i :
  d_data d = p ++ q ++ r -> i = len (p ++ q) -> at_pos (go_on d so i) (p ++ q) r.
Proof. intros Ed ->. split; [|reflexivity]. cbn [go_on with_scan d_data]. now rewrite Ed, app_assoc. Qed.

Lemma follows_ws p st (w : list Z) c r : ws w -> delimiter c -> follows (p :: st) (w ++ c :: r).
Proof. intros Hw Hc. destruct w as [|x w]; [exact Hc|]. apply ws_cons in Hw as [Hx _]. now left. Qed.

(** Up to the value of a member: the key is read, its place found, the colon passed. *)
Lemma read_key d st n f p w1 (k : list Z) w2 w3 c0 r :
  f = stateBeginString \/ f = stateBeginStringOrEmpty ->
  ws w1 -> string_lit k -> ws w2 -> ws w3 -> isSpace c0 = false ->
  d_scan d = mk f (parseObjectKey :: st) n ->
  at_pos d p (w1 ++ k ++ w2 ++ 58 :: w3 ++ c0 :: r) ->
  exists so1 so2 i,
    scanWhile d scanSkipSpace = go_on d so1 (len p + len w1 + 1) /\ snd so1 = scanBeginLiteral /\
    rescanLiteral (scanWhile d scanSkipSpace) = go_on d so2 i /\
    slice (d_data d) (readIndex (go_on d so1 (len p + len w1 + 1))) (i - 1) = k /\
    forall dc, d_data dc = d_data d ->
      d_opcode (skip_spaces (go_on dc so2 i)) = scanObjectKey /\
      scanWhile (skip_spaces (go_on dc so2 i)) scanSkipSpace =
        go_on dc (step (mk stateBeginValue (parseObjectValue :: st) n) c0)
          (len (p ++ w1 ++ k ++ w2 ++ 58 :: w3) + 1).
Proof.
  intros Hf Hw1 Hk Hw2 Hw3 Hc0 Hs Hp. destruct (string_lit_start k Hk) as [k' Ek].
  assert (Es : step (mk f (parseObjectKey :: st) n) 34 =
               (mk stateInString (parseObjectKey :: st) n, scanBeginLiteral))
    by (destruct Hf as [->| ->]; reflexivity).
  pose proof (proj1 Hp) as Ed. subst k.
  assert (E1 : scanWhile d scanSkipSpace =
               go_on d (mk stateInString (parseObjectKey :: st) n, scanBeginLiteral) (len p + len w1 + 1)).
  { rewrite <- Es. eapply scanWhile_ok; [exact Hs|now destruct Hf as [->| ->]|exact Hp|exact Hw1|].
    rewrite Es. discriminate. }
  assert (Hp1 : at_pos (go_on d (mk stateInString (parseObjectKey :: st) n, scanBeginLiteral) (len p + len w1 + 1))
                  ((p ++ w1) ++ [34]) (k' ++ w2 ++ 58 :: w3 ++ c0 :: r)).
  { rewrite <- app_assoc. apply at_pos_go_on; [rewrite Ed|]; same_place. }
  destruct (rescan_ok (go_on d (mk stateInString (parseObjectKey :: st) n, scanBeginLiteral) (len p + len w1 + 1))
              stateInString (parseObjectKey :: st) n (p ++ w1) 34 k' (w2 ++ 58 :: w3 ++ c0 :: r)
              (literal_string _ Hk)) as (so2 & Ha & E2);
    [apply follows_ws; [exact Hw2|right; cbn; tauto]|reflexivity|exact Hp1|].
  eexists _, so2, _. split; [exact E1|]. split; [reflexivity|]. split; [rewrite E1; exact E2|].
  split; [exact (literal_slice (go_on d _ _) (p ++ w1) 34 k' _ so2 Hp1)|].
  intros dc Edc.
  assert (E3 : skip_spaces (go_on dc so2 (len (p ++ w1) + len (34 :: k') + 1)) =
               go_on dc (mk stateBeginValue (parseObjectValue :: st) n, scanObjectKey)
                 (len (p ++ w1 ++ 34 :: k') + len w2 + 1)).
  { rewrite <- (step_colon st n _ (ended_EndValue _ _)).
    replace (len (p ++ w1) + len (34 :: k') + 1) with (len (p ++ w1 ++ 34 :: k') + 1) by same_place.
    eapply skip_spaces_ok; [rewrite Edc, Ed; same_place|exact Hw2|exact Ha|].
    rewrite (step_colon st n _ (ended_EndValue _ _)). discriminate. }
  rewrite E3. split; [reflexivity|].
  rewrite (scanWhile_ok _ stateBeginValue (parseObjectValue :: st) n
             (p ++ w1 ++ (34 :: k') ++ w2 ++ [58]) w3 c0 r); [|reflexivity|exact I| |exact Hw3|].
  - unfold go_on. rewrite with_scan_twice. f_equal. same_place.
  - split; [|cbn [go_on with_scan d_off]; same_place].
    change (d_data dc = (p ++ w1 ++ (34 :: k') ++ w2 ++ [58]) ++ w3 ++ c0 :: r).
    rewrite Edc, Ed. same_place.
  - unfold step, mk, do_BeginValue, pushParseState. cbn [sc_step]. rewrite Hc0.
    repeat case_if; discriminate.
Qed.

(** A value where the target may be missing. *)
Definition store_opt (t : tree) d (o : option (dval F)) : decodeState * option (dval F) :=
  match o with
  | Some x => let '(d, x) := store t d x in (d, Some x)
  | None => (d, None)
  end.

Lemma reads_opt t (v : list Z) fuel d st n p post o :
  reads_tree t v -> depth_ok (depth t) st -> Forall is_byte v ->
  follows st post -> entered d st n p v post -> (2 * length v < fuel)%nat ->
  exists so, after st n post so /\
    value fuel d o =
      Ok (go_on (fst (store_opt t d o)) so (len p + len v + 1), snd (store_opt t d o)).
Proof.
  intros Hv Hd Hb Hf He Hl. destruct (Hv fuel d st n p post Hd Hb Hf He Hl) as [H1 H2].
  destruct o as [x|]; [|exact H2]. destruct (H1 x) as (so & Ha & E). exists so. split; [exact Ha|].
  rewrite E. cbn [store_opt]. now destruct (store t d x).
Qed.

Lemma store_opt_scan t d o so i :
  store_opt t (go_on d so i) o = (go_on (fst (store_opt t d o)) so i, snd (store_opt t d o)).
Proof.
  destruct o as [x|]; [|reflexivity]. cbn [store_opt]. unfold go_on. rewrite store_scan.
  now destruct (store t d x).
Qed.

Lemma store_opt_data t d o : d_data (fst (store_opt t d o)) = d_data d.
Proof.
  destruct o as [x|]; [|reflexivity]. cbn [store_opt]. pose proof (store_data t d x) as E.
  now destruct (store t d x).
Qed.

(** The state a member's value is read in, and what becomes of it afterwards. *)
Definition member_state d (name : string) (key : list Z) (fields : list (string * dval F)) : decodeState :=
  match find_field key fields with
  | Some i =>
      let fname := match nth_error fields i with Some (n, _) => n | None => ""%string end in
      with_context d (Some name) (d_FieldStack d ++ [fname])
  | None =>
      if d_disallowUnknownFields d then
        saveError d (OtherError (Errorf [Lit "json: unknown field "; FmtQ (text key)]))
      else d
  end.

Definition member_target (key : list Z) (fields : list (string * dval F)) : option (dval F) :=
  match find_field key fields with
  | Some i => option_map snd (nth_error fields i)
  | None => None
  end.

Definition member_fields (key : list Z) (fields : list (string * dval F)) (o : option (dval F)) :=
  match find_field key fields, o with
  | Some i, Some v => set_field i v fields
  | _, _ => fields
  end.

Lemma store_member_eq t name k d fields :
  store_member (store t) name k d fields =
  let key := unquoted k in
  let '(d1, o) := store_opt t (member_state d name key fields) (member_target key fields) in
  (with_context d1 (d_Struct d) (d_FieldStack d), member_fields key fields o).
Proof.
  unfold store_member, member_state, member_target, member_fields. cbv zeta.
  destruct (find_field (unquoted k) fields) as [i|] eqn:E.
  - destruct (find_field_nth _ _ _ E) as (fname & x & ->). cbn [option_map snd store_opt].
    now destruct (store t _ x) as [d1 x1].
  - cbn [store_opt]. f_equal. case_if; [now rewrite with_context_save|now rewrite with_context_id].
Qed.

Lemma member_state_scan d name key fields so i :
  member_state (go_on d so i) name key fields = go_on (member_state d name key fields) so i.
Proof.
  unfold member_state, go_on. destruct (find_field key fields); [reflexivity|].
  cbn [d_disallowUnknownFields with_scan]. case_if; [|reflexivity]. apply saveError_scan.
Qed.

Lemma member_state_data d name key fields : d_data (member_state d name key fields) = d_data d.
Proof.
  unfold member_state. destruct (find_field key fields); [reflexivity|].
  case_if; [apply saveError_fields|reflexivity].
Qed.

(** The turn of the loop of [object], with its parts named. *)
Lemma object_loop_turn fuel d pkg name fields :
  object_loop (S fuel) d pkg name fields =
  let d1 := scanWhile d scanSkipSpace in
  if opcode_eqb (d_opcode d1) scanEndObject then Ok (d1, fields)
  else if negb (opcode_eqb (d_opcode d1) scanBeginLiteral) then Panic
  else
    let d2 := rescanLiteral d1 in
    match unquoteBytes (slice (d_data d2) (readIndex d1) (readIndex d2)) with
    | None => Panic
    | Some key =>
        let d4 := skip_spaces (member_state d2 name key fields) in
        if negb (opcode_eqb (d_opcode d4) scanObjectKey) then Panic
        else
          bind (value fuel (scanWhile d4 scanSkipSpace) (member_target key fields)) (fun '(d5, o) =>
          let d6 := with_context (skip_spaces d5) (d_Struct d) (d_FieldStack d) in
          if opcode_eqb (d_opcode d6) scanEndObject then Ok (d6, member_fields key fields o)
          else if negb (opcode_eqb (d_opcode d6) scanObjectValue) then Panic
          else object_loop fuel d6 pkg name (member_fields key fields o))
    end.
Proof. reflexivity. Qed.

Lemma object_member fuel d pkg name fields st n f p w1 (k : list Z) w2 w3 t (v : list Z) w4 c r b :
  f = stateBeginString \/ f = stateBeginStringOrEmpty ->
  reads_tree t v -> spells t v -> depth_ok (S (depth t)) st -> Forall is_byte b ->
  b = w1 ++ k ++ w2 ++ 58 :: w3 ++ v ++ w4 ->
  ws w1 -> string_lit k -> ws w2 -> ws w3 -> ws w4 -> c = 44 \/ c = 125 ->
  d_scan d = mk f (parseObjectKey :: st) n -> at_pos d p (b ++ c :: r) ->
  (2 * length v < fuel)%nat ->
  object_loop (S fuel) d pkg name fields =
  let '(d1, fs) := store_member (store t) name k d fields in
  let d2 := go_on d1 (step (mk stateEndValue (parseObjectValue :: st) n) c) (len p + len b + 1) in
  if c =? 125 then Ok (d2, fs) else object_loop fuel d2 pkg name fs.
Proof.
  intros Hf Hv Hsp Hd Hb Eb Hw1 Hk Hw2 Hw3 Hw4 Hc Hs Hp Hl.
  destruct (spells_start t v Hsp) as (c0 & v' & Ev & Hc0).
  destruct (value_start_plain c0 Hc0) as (Hc0' & _).
  rewrite Eb, !Forall_app, Forall_cons_iff, !Forall_app in Hb.
  destruct Hb as (_ & Hbk & _ & _ & _ & Hbv & _).
  assert (Hp' : at_pos d p (w1 ++ k ++ w2 ++ 58 :: w3 ++ c0 :: v' ++ w4 ++ c :: r)).
  { destruct Hp as [Ed Eo]. split; [|exact Eo]. rewrite Ed, Eb, Ev. same_place. }
  destruct (read_key d st n f p w1 k w2 w3 c0 _ Hf Hw1 Hk Hw2 Hw3 Hc0' Hs Hp')
    as (so1 & so2 & i & E1 & Eop & E2 & Esl & Hnext).
  destruct (unquote_string_lit k Hk Hbk) as [key Ekey].
  rewrite object_loop_turn. cbv zeta. rewrite E2, E1. cbn [go_on with_scan d_opcode]. rewrite Eop.
  cbn [opcode_eqb negb].
  change (d_data (go_on d so2 i)) with (d_data d). change (readIndex (go_on d so2 i)) with (i - 1).
  rewrite Esl, Ekey. rewrite member_state_scan.
  rewrite store_member_eq. cbv zeta. unfold unquoted. rewrite Ekey.
  set (dc := member_state d name key fields) in *.
  assert (Edc : d_data dc = d_data d) by apply member_state_data.
  destruct (Hnext dc Edc) as [-> ->]. cbn [opcode_eqb negb].
  set (q := p ++ w1 ++ k ++ w2 ++ 58 :: w3) in *.
  destruct (reads_opt t v fuel
              (go_on dc (step (mk stateBeginValue (parseObjectValue :: st) n) c0) (len q + 1))
              (parseObjectValue :: st) n q (w4 ++ c :: r) (member_target key fields) Hv)
    as (so3 & Ha3 & E3).
  - now apply depth_ok_push.
  - exact Hbv.
  - apply follows_ws; [exact Hw4|]. right. cbn. lia.
  - rewrite Ev. split.
    + split; [|cbn [go_on with_scan d_off]; same_place].
      change (d_data dc = (q ++ [c0]) ++ v' ++ w4 ++ c :: r).
      rewrite Edc, (proj1 Hp'). unfold q. same_place.
    + cbn [go_on with_scan d_scan d_opcode]. apply surjective_pairing.
  - exact Hl.
  - rewrite E3. cbn [bind]. rewrite store_opt_scan. cbn [fst snd].
    pose proof (store_opt_data t dc (member_target key fields)) as Ed1.
    destruct (store_opt t dc (member_target key fields)) as [d1 o]. cbn [fst snd] in *.
    assert (Hso : step (mk stateEndValue (parseObjectValue :: st) n) c =
                  if c =? 125 then (closed st n, scanEndObject)
                  else (mk stateBeginString (parseObjectKey :: st) n, scanObjectValue)).
    { destruct Hc as [->| ->]; [now rewrite (step_comma_object st n) by auto with cam|].
      now rewrite (step_close_object st n) by auto with cam. }
    assert (E4 : skip_spaces (go_on (go_on d1 (step (mk stateBeginValue (parseObjectValue :: st) n) c0) (len q + 1))
                                so3 (len q + len v + 1)) =
                 go_on d1 (step (mk stateEndValue (parseObjectValue :: st) n) c) (len p + len b + 1)).
    { unfold go_on at 2. unfold go_on at 1. rewrite with_scan_twice.
      fold (go_on d1 so3 (len q + len v + 1)).
      replace (len q + len v) with (len (q ++ v)) by same_place.
      rewrite (skip_spaces_ok d1 parseObjectValue st n (q ++ v) w4 c r so3);
        [|rewrite Ed1, Edc, (proj1 Hp'), Ev; unfold q; same_place|exact Hw4|exact Ha3|].
      - f_equal. rewrite Eb. unfold q. same_place.
      - rewrite Hso. now destruct (c =? 125). }
    rewrite E4, Hso. destruct (c =? 125); reflexivity.
Qed.

Lemma value_object fuel d x :
  d_opcode d = scanBeginObject ->
  value (S fuel) d (Some x) =
  bind (object fuel d x) (fun '(d, v) => Ok (scanNext d, Some v)).
Proof. intros E. cbn [value]. now rewrite E. Qed.

Lemma object_eq fuel d x :
  object (S fuel) d x =
  let '(leaf, put) := indirect x false in
  match leaf with
  | DStruct pkg name fields =>
      bind (object_loop fuel d pkg name fields) (fun '(d, fields) =>
      Ok (d, put (DStruct pkg name fields)))
  | _ =>
      bind (skip (saveError d (UnmarshalTypeError "object" (type_name leaf)))) (fun d =>
      Ok (d, put leaf))
  end.
Proof. reflexivity. Qed.

(** The members of an object, up to and with its closing brace. *)
Definition reads_members (l : list (list Z * tree)) (b : list Z) : Prop :=
  forall fuel d pkg name fields st n f p r,
    f = stateBeginString \/ f = stateBeginStringOrEmpty ->
    depth_ok (S (depth_members l)) st -> Forall is_byte b ->
    d_scan d = mk f (parseObjectKey :: st) n -> at_pos d p (b ++ 125 :: r) ->
    (2 * length b < fuel)%nat ->
  object_loop fuel d pkg name fields =
    let '(d1, fs) := store_members name l d fields in
    Ok (with_scan d1 (closed st n) scanEndObject (len p + len b + 1), fs).

Lemma reads_object l (b : list Z) : spells (TObj l) (123 :: b ++ [125]) ->
  (forall fuel d pkg name fields st n p r,
     depth_ok (S (depth_members l)) st -> Forall is_byte b ->
     d_scan d = mk stateBeginStringOrEmpty (parseObjectKey :: st) n -> at_pos d p (b ++ 125 :: r) ->
     (2 * length b < fuel)%nat ->
     object_loop fuel d pkg name fields =
       let '(d1, fs) := store_members name l d fields in
       Ok (with_scan d1 (closed st n) scanEndObject (len p + len b + 1), fs)) ->
  reads_tree (TObj l) (123 :: b ++ [125]).
Proof.
  intros Hs Hloop fuel d st n p post Hd Hb Hf He Hfuel.
  cbn [length] in Hfuel. rewrite length_app in Hfuel. cbn [length] in Hfuel.
  do 2 (destruct fuel as [|fuel]; [lia|]).
  destruct (object_encloses l _ st n Hs Hd) as (u & Eu & Hu). injection Eu as Eu.
  apply app_inj_tail in Eu as [<- _].
  split; [intros x|].
  - destruct (skip_next d st n p _ _ _ _ post Hu He Hf) as (Eop & _).
    rewrite value_object, object_eq by exact Eop. rewrite store_obj. destruct (indirect x false) as [leaf put].
    destruct leaf as [s|y|z|e o|pkg name fields].
    5: {
      destruct He as [Hp Es]. rewrite (step_open_object st n (depth_ok_1 _ _ Hd)) in Es.
      injection Es as Es _. rewrite <- app_assoc in Hp. cbn [app] in Hp.
      rewrite (Hloop fuel d pkg name fields st n (p ++ [123]) post Hd) by
        first [exact (eq_sym Es)|exact Hp|lia|inversion Hb as [|? ? _ Hb']; apply Forall_app in Hb'; tauto].
      assert (Edata : d_data (fst (store_members name l d fields)) = d_data d).
      { pose proof (store_data (TObj l) d (DStruct pkg name fields)) as E. rewrite store_obj in E.
        cbn [indirect] in E. destruct (store_members name l d fields) as [d1 fs]. exact E. }
      destruct (store_members name l d fields) as [d1 fs]. cbn [bind fst] in *.
      destruct (scanNext_ok (with_scan d1 (closed st n) scanEndObject (len (p ++ [123]) + len b + 1))
                  st n (p ++ 123 :: b ++ [125]) post) as (so & Ha & E); [reflexivity| |exact Hf|].
      - destruct Hp as [Ed _]. split; cbn [with_scan d_data d_off]; [rewrite Edata, Ed|]; same_place.
      - exists so. split; [exact Ha|]. rewrite E. unfold go_on. rewrite with_scan_twice.
        cbn [fst snd]. do 3 f_equal. same_place. }
    all: match goal with
         | Hu : encloses _ _ _ _ _ _, Hf : follows _ _, He : entered ?d _ _ _ _ _
           |- context [saveError ?d ?e] =>
             apply (entered_save d e) in He;
             destruct (skip_next _ _ _ _ _ _ _ _ _ Hu He Hf) as (_ & d2 & so & Ek & Ha & En);
             exists so; (split; [exact Ha|]); rewrite Ek; cbn [bind]; now rewrite En
         end.
  - cbn [value]. destruct (skip_next d st n p _ _ _ _ post Hu He Hf) as (-> & d2 & so & Ek & Ha & En).
    exists so. split; [exact Ha|]. rewrite Ek. cbn [bind]. now rewrite En.
Qed.

Lemma reads_all :
  (forall t (v : list Z), spells t v -> spells t v /\ reads_tree t v) /\
  (forall l b, elems l b -> elems l b) /\
  (forall l b, members l b -> members l b /\ reads_members l b).
Proof.
  apply spells_elems_members.
  - intros b Hb. split; [now constructor|now apply reads_literal].
  - intros w Hw. assert (H : spells (TArr []) (91 :: w ++ [93])) by now constructor.
    split; [exact H|now apply reads_array].
  - intros l b Hb _. assert (H : spells (TArr l) (91 :: b ++ [93])) by now constructor.
    split; [exact H|now apply reads_array].
  - intros w Hw. assert (H : spells (TObj []) (123 :: w ++ [125])) by now constructor.
    split; [exact H|]. apply reads_object; [exact H|].
    intros fuel d pkg name fields st n p r Hd Hb Hs Hp Hl. destruct fuel as [|fuel]; [lia|].
    rewrite object_loop_turn. cbv zeta.
    rewrite (scanWhile_ok d stateBeginStringOrEmpty (parseObjectKey :: st) n p w 125 r) by
      first [assumption|exact I|now rewrite step_empty_object].
    now rewrite step_empty_object.
  - intros l b Hm [_ Hr]. assert (H : spells (TObj l) (123 :: b ++ [125])) by now constructor.
    split; [exact H|]. apply reads_object; [exact H|].
    intros fuel d pkg name fields st n p r Hd Hb Hs Hp Hl.
    exact (Hr fuel d pkg name fields st n _ p r (or_intror eq_refl) Hd Hb Hs Hp Hl).
  - intros t w1 b w2 Hw1 _ [Hs _] Hw2. now constructor.
  - intros t w1 b w2 l b' Hw1 _ [Hs _] Hw2 _ H. now constructor.
  - intros k t w1 w2 w3 b w4 Hw1 Hk Hw2 Hw3 _ [Hs Hv] Hw4. split; [now constructor|].
    intros fuel d pkg name fields st n f p r Hf Hd Hb Hsc Hp Hl.
    destruct fuel as [|fuel]; [lia|].
    erewrite (object_member fuel d pkg name fields st n f p w1 k w2 w3 t b w4 125 r _ Hf Hv Hs);
      [|revert Hd; apply depth_ok_le; cbn; lia|exact Hb|reflexivity|assumption..|now right|exact Hsc|exact Hp|lens].
    cbn [store_members]. destruct (store_member (store t) name k d fields) as [d1 fs].
    cbn [Z.eqb Pos.eqb]. now rewrite (step_close_object st n) by auto with cam.
  - intros k t w1 w2 w3 b w4 l b' Hw1 Hk Hw2 Hw3 _ [Hs Hv] Hw4 Hm [_ IH]. split; [now constructor|].
    intros fuel d pkg name fields st n f p r Hf Hd Hb Hsc Hp Hl.
    destruct fuel as [|fuel]; [lia|].
    set (b1 := w1 ++ k ++ w2 ++ 58 :: w3 ++ b ++ w4).
    assert (Eb : w1 ++ k ++ w2 ++ 58 :: w3 ++ b ++ w4 ++ 44 :: b' = b1 ++ 44 :: b')
      by (unfold b1; same_place).
    rewrite Eb in *. apply Forall_app in Hb as [Hb1 Hb']. inversion Hb' as [|? ? _ Hb'']; subst.
    rewrite <- app_assoc in Hp. cbn [app] in Hp.
    rewrite (object_member fuel d pkg name fields st n f p w1 k w2 w3 t b w4 44 (b' ++ 125 :: r) b1 Hf Hv Hs);
      [|revert Hd; apply depth_ok_le; cbn; lia|exact Hb1|reflexivity|assumption..|now left|exact Hsc|exact Hp|unfold b1 in *; lens].
    assert (Edata : d_data (fst (store_member (store t) name k d fields)) = d_data d)
      by (apply store_member_data; apply store_data).
    cbn [store_members].
    destruct (store_member (store t) name k d fields) as [d1 fs]. cbn [fst Z.eqb Pos.eqb] in *.
    rewrite (step_comma_object st n) by auto with cam.
    rewrite (IH fuel _ pkg name fs st n stateBeginString (p ++ b1 ++ [44]) r);
      [|now left|revert Hd; apply depth_ok_le; cbn; unfold depth_members; lia|exact Hb''|reflexivity| |lens].
    + assert (Hsm : store_members name l (go_on d1 (mk stateBeginString (parseObjectKey :: st) n, scanObjectValue)
                      (len p + len b1 + 1)) fs =
                    let '(d2, fs') := store_members name l d1 fs in
                    (with_scan d2 (mk stateBeginString (parseObjectKey :: st) n) scanObjectValue
                       (len p + len b1 + 1), fs')).
      { apply store_members_scan. }
      rewrite Hsm. destruct (store_members name l d1 fs) as [d2 fs']. rewrite with_scan_twice.
      do 2 f_equal. f_equal. same_place.
    + destruct Hp as [Ed _]. split; [|cbn [go_on with_scan d_off]; same_place].
      change (d_data d1 = (p ++ b1 ++ [44]) ++ b' ++ 125 :: r). rewrite Edata, Ed. same_place.
Qed.

(** * The whole text *)

(** What decoding a tree returns. *)
Definition decoded_tree (t : tree) (disallow : bool) v : result F (dval F) :=
  let '(d, v') := store t (init [] disallow) v in
  match d_savedError d with Some e => Err e | None => Ok v' end.

Lemma unmarshal_tree t b disallow v :
  json_text t b -> depth_ok (depth t) [] -> Forall is_byte b ->
  unmarshal (init b disallow) v = decoded_tree t disallow v.
Proof.
  intros [w1 x w2 Hw1 Hx Hw2] Hd Hb. destruct (spells_start t x Hx) as (c & x' & Ex & Hc).
  destruct (value_start_plain c Hc) as (Hc' & _).
  set (data := w1 ++ x ++ w2) in *. unfold unmarshal, decoded_tree.
  assert (E1 : scanWhile (with_scan (init data disallow) (reset newScanner) scanContinue 0) scanSkipSpace =
               go_on (init data disallow) (step (mk stateBeginValue [] 0) c) (len w1 + 1)).
  { rewrite (scanWhile_ok _ stateBeginValue [] 0 [] w1 c (x' ++ w2));
      [reflexivity|reflexivity|exact I| |exact Hw1|].
    - split; [|reflexivity]. cbn [with_scan d_data init]. unfold data. now rewrite Ex.
    - unfold step, mk, do_BeginValue, pushParseState. cbn [sc_step]. rewrite Hc'.
      repeat case_if; discriminate. }
  change (d_scan (init data disallow)) with newScanner.
  change (d_opcode (init data disallow)) with scanContinue.
  change (d_off (init data disallow)) with 0. rewrite E1.
  change (d_data (go_on _ _ _)) with data.
  destruct (proj1 reads_all t x Hx) as [_ Hr].
  destruct (Hr (fuel_for data) (go_on (init data disallow) (step (mk stateBeginValue [] 0) c) (len w1 + 1))
              [] 0 w1 w2 Hd) as [Hv _].
  - unfold data in Hb. rewrite !Forall_app in Hb. tauto.
  - destruct w2 as [|c2 w2]; [reflexivity|]. apply ws_cons in Hw2 as [H2 _]. now left.
  - rewrite Ex. split; [|apply surjective_pairing].
    apply (at_pos_go_on _ w1 [c]); [|same_place]. cbn [init d_data]. unfold data. now rewrite Ex.
  - unfold fuel_for, data. rewrite !length_app. lia.
  - destruct (Hv v) as (so & _ & ->). cbn [bind go_on with_scan d_savedError].
    unfold go_on. rewrite store_scan. cbn [fst snd with_scan d_savedError].
    change (init data disallow) with (with_input (init [] disallow) data newScanner scanContinue 0).
    rewrite store_input. unfold scanned. cbn [fst snd with_input d_savedError].
    now destruct (store t (init [] disallow) v) as [d1 v1].
Qed.

(** C27: decoding follows the tree of the text.  Given any string, [Unmarshal] either
    finds it to be a JSON text, of whatever layout, and then does exactly what
    [store] does with the tree it spells: every member goes to the field its key names,
    strings unescaped, numbers parsed, mismatches and unknown keys recorded, the first
    error reported; or the string is no JSON text of at most 10000 levels, and the
    result is a syntax error.  It never panics. *)
Theorem Unmarshal_refines (s : string) v :
  (exists t, json_text t (bytes s) /\ Z.of_nat (depth t) <= maxNestingDepth /\
     Unmarshal (bytes s) v = decoded_tree t false v) \/
  ((forall t, json_text t (bytes s) -> maxNestingDepth < Z.of_nat (depth t)) /\
   exists e, Unmarshal (bytes s) v = Err (syntax_err e)).
Proof.
  assert (Hd : forall t, depth_ok (depth t) [] <-> Z.of_nat (depth t) <= maxNestingDepth).
  { intros t. unfold depth_ok. cbn. lia. }
  unfold Unmarshal. destruct (checkValid (bytes s) newScanner) as [e|] eqn:E.
  - right. split; [|now exists e]. intros t Ht.
    destruct (Z.lt_ge_cases maxNestingDepth (Z.of_nat (depth t))) as [|Hle]; [assumption|exfalso].
    apply Hd in Hle. pose proof (accepts_json t _ Ht Hle) as H. apply checkValid_accepts in H. congruence.
  - left. apply checkValid_accepts, json_accepts in E as (t & Ht & Hdt). exists t.
    split; [exact Ht|]. split; [now apply Hd|]. apply unmarshal_tree; auto using bytes_range.
Qed.

Lemma decoded_tree_total t dis v : decoded_tree t dis v <> Panic.
Proof.
  unfold decoded_tree. destruct (store t (init [] dis) v) as [d v'].
  now destruct (d_savedError d).
Qed.

Lemma unmarshal_total b disallow v :
  Forall is_byte b -> accepts newScanner b -> unmarshal (init b disallow) v <> Panic.
Proof.
  intros Hb (t & Ht & Hd)%json_accepts. rewrite (unmarshal_tree t) by assumption.
  apply decoded_tree_total.
Qed.

Lemma Unmarshal_total (s : string) v : Unmarshal (bytes s) v <> Panic.
Proof.
  unfold Unmarshal. destruct (checkValid (bytes s) newScanner) as [e|] eqn:E; [discriminate|].
  apply unmarshal_total; [apply bytes_range|exact E].
Qed.

(** ** The errors it reports are its own *)

Lemma addErrorContext_Is d e s : (forall e', e = OtherError e' -> errors_Is e' s = false) ->
  errors_Is (addErrorContext d e) s = false.
Proof. intros H. destruct e as [v t|e]; cbn [addErrorContext]; [now case_if|now apply H]. Qed.

(** The saved error, if any, is none of the sentinels. *)
Definition plain_error d : Prop :=
  match d_savedError d with Some e => forall s, errors_Is e s = false | None => True end.

Lemma plain_save d e : (forall e' s, e = OtherError e' -> errors_Is e' s = false) ->
  plain_error d -> plain_error (saveError d e).
Proof.
  unfold plain_error, saveError. intros H Hd. destruct (d_savedError d) eqn:E; [now rewrite E|].
  cbn [d_savedError]. intros s. apply addErrorContext_Is. intros e' ->. now apply H.
Qed.

Lemma plain_mismatch d x y : plain_error d -> plain_error (saveError d (UnmarshalTypeError x y)).
Proof. apply plain_save. discriminate. Qed.
#[local] Hint Resolve plain_mismatch : cam.

Lemma plain_literal d b v : plain_error d -> plain_error (fst (store_literal d b v)).
Proof.
  intros Hd. unfold store_literal. destruct b as [|c b]; [exact Hd|]. cbn [literalStore].
  destruct (indirect v (c =? 110)) as [leaf put].
  repeat case_if; cbn [fst]; auto with cam.
  - destruct leaf; exact Hd.
  - destruct (unquoteBytes (c :: b)); [|exact Hd]. destruct leaf; cbn [fst]; auto with cam.
  - destruct leaf; cbn [fst]; auto with cam.
    + destruct (ParseFloat (text (c :: b))) as [y [e|]]; cbn [fst]; auto with cam.
    + destruct (ParseInt (c :: b) 10 64) as [y [e|]]; cbn [fst]; auto with cam.
Qed.

Lemma plain_member (f : decodeState (F := F) -> dval F -> decodeState (F := F) * dval F) name k d fields :
  (forall d v, plain_error d -> plain_error (fst (f d v))) ->
  plain_error d -> plain_error (fst (store_member f name k d fields)).
Proof.
  intros Hf Hd. unfold store_member. destruct (find_field (unquoted k) fields) as [j|].
  - destruct (nth_error fields j) as [[fname x]|]; [|exact Hd].
    pose proof (Hf (with_context d (Some name) (d_FieldStack d ++ [fname])) x Hd) as H.
    now destruct (f _ x) as [d1 x'].
  - cbn [fst]. case_if; [|exact Hd]. apply plain_save; [|exact Hd].
    intros e' s E. now injection E as <-.
Qed.

Lemma plain_store t : forall d v, plain_error d -> plain_error (fst (store t d v)).
Proof.
  induction t as [b|l _|l IH] using tree_ind'; intros d v Hd.
  - now apply plain_literal.
  - cbn [store]. destruct (indirect v false) as [leaf put]. cbn [fst]. auto with cam.
  - rewrite store_obj. destruct (indirect v false) as [leaf put].
    destruct leaf; cbn [fst]; auto with cam.
    assert (Hm : forall d fields, plain_error d -> plain_error (fst (store_members name l d fields))).
    { clear d fields Hd. induction IH as [|[k t] l Ht _ IHl]; intros d fields Hd; [exact Hd|].
      cbn [store_members]. pose proof (plain_member (store t) name k d fields Ht Hd) as E.
      destruct (store_member (store t) name k d fields) as [d1 fs]. now apply IHl. }
    specialize (Hm d fields Hd). now destruct (store_members name l d fields).
Qed.

Lemma decoded_tree_Is t dis v e s : decoded_tree t dis v = Err e -> errors_Is e s = false.
Proof.
  unfold decoded_tree. pose proof (plain_store t (init [] dis) v I) as H.
  destruct (store t (init [] dis) v) as [d v']. unfold plain_error in H. cbn [fst] in H.
  destruct (d_savedError d); [|discriminate]. intros E. injection E as <-. apply H.
Qed.

Lemma Unmarshal_Is (b : string) v e s : Unmarshal (bytes b) v = Err e -> errors_Is e s = false.
Proof.
  unfold Unmarshal. destruct (checkValid (bytes b) newScanner) as [se|] eqn:E.
  - intros Q. injection Q as <-. reflexivity.
  - apply checkValid_accepts, json_accepts in E as (t & Ht & Hd).
    rewrite (unmarshal_tree t) by auto using bytes_range. apply decoded_tree_Is.
Qed.
End Decode.
