(* ===== verification/JsonEncodeSpec.v ===== *)
(** What encoding/json writes: strings that read back, values that spell the tree of their
    parts, and an indentation that is the pretty-printer of the tree. *)
From Stdlib Require Import ZArith Lia String Ascii Bool List.
From S2P Require Import Prelude GoFloat Strconv Utf8 Itoa Scanner JsonGrammar ScannerSpec.
From S2P Require Import JsonEncode JsonDecode JsonDecodeSpec.
Import ListNotations.
Local Open Scope Z_scope.

(** * Strings *)

(** A string with every byte that is not part of a rune replaced by U+FFFD. *)
Definition ToValidUTF8 (s : list Z) : list Z := concat (map (fun p => enc (fst p)) (runes s)).

Lemma ToValidUTF8_encodes s rs : encodes s rs -> ToValidUTF8 s = s.
Proof.
  intros H. unfold ToValidUTF8, runes. rewrite (runes_fuel_encodes s rs) by auto.
  rewrite map_map. destruct H as [_ ->]. reflexivity.
Qed.

(** The escapes of two characters that the encoder writes. *)
Definition short_escapes : list (Z * Z) :=
  [(34, 34); (92, 92); (98, 8); (102, 12); (110, 10); (114, 13); (116, 9)].

(** [stands b s]: the characters [b] of a literal stand for [s], in the ways the encoder
    writes them. *)
Inductive stands : list Z -> list Z -> Prop :=
| stands_nil : stands [] []
| stands_plain c b s :
    32 <= c < RuneSelf -> c <> 92 -> c <> 34 -> stands b s -> stands (c :: b) (c :: s)
| stands_rune r b s :
    valid_rune r -> RuneSelf <= r -> stands b s -> stands (enc r ++ b) (enc r ++ s)
| stands_short e x b s : In (e, x) short_escapes -> stands b s -> stands (92 :: e :: b) (x :: s)
| stands_u a1 a2 a3 a4 r b s :
    Forall (fun a => is_hex a = true) [a1; a2; a3; a4] ->
    (forall b, getu4 (92 :: 117 :: a1 :: a2 :: a3 :: a4 :: b) = r) ->
    valid_rune r -> stands b s -> stands (92 :: 117 :: a1 :: a2 :: a3 :: a4 :: b) (enc r ++ s).

Lemma hex_byte a : is_hex a = true -> is_byte a.
Proof. unfold is_hex, is_byte. lia. Qed.

Lemma stands_bytes b s : stands b s -> Forall is_byte b.
Proof.
  induction 1 as [|c b s Hc _ _ _ IH|r b s Hr _ _ IH|e x b s Hin _ IH|a1 a2 a3 a4 r b s Ha _ _ _ IH].
  - constructor.
  - constructor; [unfold is_byte, RuneSelf in *; lia|exact IH].
  - apply Forall_app. auto using enc_bytes.
  - cbn in Hin. decompose [or] Hin; try contradiction;
      match goal with E : _ = _ |- _ => injection E as <- <- end;
      repeat (constructor; [unfold is_byte; lia|]); exact IH.
  - repeat (inversion Ha as [|? ? ? Ha']; subst; clear Ha; rename Ha' into Ha).
    repeat (constructor; [first [unfold is_byte; lia|now apply hex_byte]|]). exact IH.
Qed.

Lemma strchars_high u b : Forall (fun c => 0x80 <= c) u -> strchars b -> strchars (u ++ b).
Proof. induction 1; intros Hb; [exact Hb|]. cbn [app]. constructor; try lia. auto. Qed.

Lemma stands_strchars b s : stands b s -> strchars b.
Proof.
  induction 1 as [|c b s Hc H1 H2 _ IH|r b s Hr H _ IH|e x b s Hin _ IH|a1 a2 a3 a4 r b s Ha _ _ _ IH].
  - constructor.
  - now constructor.
  - apply strchars_high; [now apply enc_high|exact IH].
  - apply chars_esc; [|exact IH]. cbn in Hin |- *. decompose [or] Hin; try contradiction;
      match goal with E : _ = _ |- _ => injection E as <- <- end; tauto.
  - repeat (inversion Ha as [|? ? ? Ha']; subst; clear Ha; rename Ha' into Ha). now apply chars_u.
Qed.

Lemma rune_not_surrogate r : valid_rune r -> 0 <= r /\ IsSurrogate r = false.
Proof. unfold valid_rune, IsSurrogate, surrogateMin, surrogateMax, MaxRune, surr1, surr3. lia. Qed.

(** The unquoting loop reads it back. *)
Lemma stands_unquote b s : stands b s -> forall fuel, (length b <= fuel)%nat -> unquote_loop fuel b = Some s.
Proof.
  induction 1 as [|c b s Hc H1 H2 _ IH|r b s Hr H Hb IH|e x b s Hin _ IH|a1 a2 a3 a4 r b s Ha Hu Hr _ IH];
    intros [|fuel] Hl; cbn [length] in Hl; try lia; try reflexivity.
  - cbn [unquote_loop]. unfold RuneSelf in *.
    replace (c =? 92) with false by lia. replace ((c =? 34) || (c <? 32)) with false by lia.
    replace (c <? 128) with true by lia. now rewrite IH by lia.
  - rewrite length_app in Hl. pose proof (enc_length r Hr) as Hlen. unfold len in Hlen. lia.
  - rewrite length_app in Hl. pose proof (enc_length r Hr) as Hlen. unfold len in Hlen.
    pose proof (DecodeRune_enc r b Hr (stands_bytes _ _ Hb)) as D.
    pose proof (enc_high r Hr H) as Hh. pose proof (skipn_len_app (enc r) b) as Es.
    destruct (enc_cons r Hr) as (c & u & E). rewrite E in Hh, D, Es, Hlen, Hl |- *.
    cbn [app length] in *. inversion Hh as [|? ? Hc _]; subst. cbn [unquote_loop].
    replace (c =? 92) with false by lia. replace ((c =? 34) || (c <? 32)) with false by lia.
    replace (c <? RuneSelf) with false by (unfold RuneSelf; lia).
    rewrite D, Es, E, IH by lia. reflexivity.
  - cbn in Hin. decompose [or] Hin; try contradiction;
      match goal with E : _ = _ |- _ => injection E as <- <- end;
      cbn [unquote_loop Z.eqb Pos.eqb orb]; now rewrite IH by lia.
  - destruct (rune_not_surrogate r Hr) as [H0 Hs]. cbn [unquote_loop Z.eqb Pos.eqb orb].
    rewrite Hu, Hs. replace (r <? 0) with false by lia. cbn [skipn]. now rewrite IH by lia.
Qed.

(** The fast path stops where the literal and what it stands for part. *)
Lemma stands_prefix b s : stands b s -> forall fuel, (length b <= fuel)%nat ->
  exists u b' s', b = u ++ b' /\ s = u ++ s' /\ plain_prefix fuel b = length u /\ stands b' s'.
Proof.
  induction 1 as [|c b s Hc H1 H2 Hb IH|r b s Hr H Hb IH|e x b s Hin Hb _|a1 a2 a3 a4 r b s Ha Hu Hr Hb _];
    intros [|fuel] Hl; cbn [length] in Hl; try lia.
  1, 2: exists [], [], []; repeat split; constructor.
  - destruct (IH fuel) as (u & b' & s' & -> & -> & E & H'); [lia|].
    exists (c :: u), b', s'. repeat split; [|exact H']. cbn [plain_prefix]. unfold RuneSelf in *.
    replace ((c =? 92) || (c =? 34) || (c <? 32)) with false by lia.
    replace (c <? 128) with true by lia. now rewrite E.
  - rewrite length_app in Hl. pose proof (enc_length r Hr) as Hlen. unfold len in Hlen. lia.
  - rewrite length_app in Hl. pose proof (enc_length r Hr) as Hlen.
    pose proof (DecodeRune_enc r b Hr (stands_bytes _ _ Hb)) as D.
    pose proof (enc_high r Hr H) as Hh. pose proof (skipn_len_app (enc r) b) as Es.
    destruct (enc_cons r Hr) as (c & u & E).
    assert (Hsz : (r =? RuneError) && (len (enc r) =? 1) = false).
    { apply andb_false_iff. destruct (Z.eqb_spec r RuneError) as [->|]; [right; reflexivity|now left]. }
    destruct (IH fuel) as (u' & b' & s' & -> & -> & E' & H'); [unfold len in Hlen; lia|].
    exists (enc r ++ u'), b', s'. rewrite <- !app_assoc. repeat split; [|exact H'].
    rewrite E in Hh, D, Es, Hsz, Hlen |- *. cbn [app] in *. inversion Hh as [|? ? Hc _]; subst. cbn [plain_prefix].
    replace ((c =? 92) || (c =? 34) || (c <? 32)) with false by lia.
    replace (c <? RuneSelf) with false by (unfold RuneSelf; lia).
    rewrite D, Hsz, Es, E'. unfold len. cbn [length]. rewrite length_app. lia.
  - exists [], (92 :: e :: b), (x :: s). repeat split. now constructor.
  - eexists [], _, _. repeat split. eapply stands_u; eassumption.
Qed.

(** A literal is read as what it stands for. *)
Lemma unquote_stands b s : stands b s -> unquoteBytes (quoted b) = Some s.
Proof.
  intros H. rewrite unquote_quoted. cbv zeta.
  destruct (stands_prefix b s H (length b) (le_n _)) as (u & b' & s' & -> & -> & -> & H').
  assert (Ef : firstn (length u) (u ++ b') = u)
    by (rewrite firstn_app, firstn_all, Nat.sub_diag; apply app_nil_r).
  assert (Es : skipn (length u) (u ++ b') = b')
    by (rewrite skipn_app, skipn_all, Nat.sub_diag; reflexivity).
  rewrite Ef, Es, length_app. case_if.
  - apply Nat.eqb_eq in Heqb. destruct b' as [|c b']; [|cbn in Heqb; lia].
    pose proof (stands_unquote [] s' H' 0%nat (le_n _)) as E. injection E as <-. reflexivity.
  - rewrite (stands_unquote b' s' H') by lia. reflexivity.
Qed.

(** ** What the encoder writes for a string *)

Definition escape_ok (b : Z) : bool :=
  match escape_ascii b with
  | [92; e] => existsb (fun p => (fst p =? e) && (snd p =? b)) short_escapes
  | [92; 117; a1; a2; a3; a4] =>
      forallb is_hex [a1; a2; a3; a4] && (getu4 [92; 117; a1; a2; a3; a4] =? b)
  | _ => false
  end.

Lemma escapes_ok b : 0 <= b < RuneSelf -> escape_ok b = true.
Proof.
  intros Hb. assert (E : forallb escape_ok (range 128) = true) by (vm_compute; reflexivity).
  rewrite forallb_forall in E. apply E, range_In. exact Hb.
Qed.

Lemma ascii_valid b : 0 <= b < RuneSelf -> valid_rune b.
Proof. unfold valid_rune, surrogateMin, RuneSelf. lia. Qed.

Lemma stands_escape c b s :
  0 <= c < RuneSelf -> stands b s -> stands (escape_ascii c ++ b) (c :: s).
Proof.
  intros Hc Hb. pose proof (escapes_ok c Hc) as E. unfold escape_ok in E.
  assert (Hu : forall a1 a2 a3 a4, forallb is_hex [a1; a2; a3; a4] &&
            (getu4 [92; 117; a1; a2; a3; a4] =? c) = true ->
            stands ([92; 117; a1; a2; a3; a4] ++ b) (c :: s)).
  { intros a1 a2 a3 a4 [Hh Eg]%andb_true_iff. apply Z.eqb_eq in Eg.
    change (c :: s) with ([c] ++ s). rewrite <- (enc_ascii c Hc).
    apply stands_u; [now apply Forall_forall, forallb_forall|intros b'; exact Eg|now apply ascii_valid|exact Hb]. }
  assert (Hs : forall e, existsb (fun p => (fst p =? e) && (snd p =? c)) short_escapes = true ->
            stands ([92; e] ++ b) (c :: s)).
  { intros e ([e' x] & Hin & He)%existsb_exists. cbn [fst snd] in He.
    replace e with e' by lia. replace c with x by lia. now constructor. }
  revert E. unfold escape_ascii. case_if.
  { intros _. apply Hs. assert (Ec : c = 92 \/ c = 34) by lia. destruct Ec as [->| ->]; reflexivity. }
  repeat case_if; intros E; first [now apply Hs | now apply Hu].
Qed.

Lemma DecodeRune_window src : Forall is_byte src -> DecodeRune (firstn UTFMax src) = DecodeRune src.
Proof.
  intros H. rewrite !DecodeRune_closed by auto using firstn_Forall.
  unfold UTFMax. destruct src as [|c0 [|c1 [|c2 [|c3 src]]]]; reflexivity.
Qed.

Lemma RuneError_valid : valid_rune RuneError.
Proof. unfold valid_rune, surrogateMax, RuneError, MaxRune. lia. Qed.

Lemma stands_string_loop h fuel : forall src, Forall is_byte src -> (length src <= fuel)%nat ->
  stands (string_loop fuel src h) (concat (map (fun p => enc (fst p)) (runes_fuel fuel src))).
Proof.
  induction fuel as [|fuel IH]; intros src Hb Hl; [constructor|].
  destruct src as [|c src]; [constructor|]. cbn [string_loop runes_fuel].
  destruct (Z.ltb_spec c RuneSelf) as [Hc|Hc].
  - inversion Hb as [|? ? H0 Hb']; subst. cbn [length] in Hl. unfold is_byte in H0.
    specialize (IH src Hb' ltac:(lia)).
    pose proof (DecodeRune_enc c src (ascii_valid c ltac:(lia)) Hb') as D.
    rewrite enc_ascii in D by lia. cbn [app] in D. rewrite D. change (len [c]) with 1.
    cbn [Z.to_nat Pos.to_nat Pos.iter_op Nat.add skipn map concat fst]. rewrite enc_ascii by lia. cbn [app].
    case_if; [|now apply stands_escape; [lia|]].
    unfold htmlSafeSet, safeSet in Heqb. constructor; [lia..|exact IH].
  - rewrite DecodeRune_window by exact Hb.
    destruct (DecodeRune_cases c src Hb) as [(r & rest & Hr & E)|[D _]].
    + rewrite E in Hb, Hl |- *. apply Forall_app in Hb as Hb'. destruct Hb' as [_ Hrest].
      rewrite (DecodeRune_enc r rest Hr Hrest). rewrite skipn_len_app. rewrite length_app in Hl.
      pose proof (enc_length r Hr) as Hlen. cbn [map concat fst].
      specialize (IH rest Hrest ltac:(unfold len in Hlen; lia)).
      assert (Hhi : RuneSelf <= r).
      { destruct (Z.ltb_spec r RuneSelf) as [Hlt|]; [|lia]. exfalso.
        assert (0 <= r) by (unfold valid_rune, surrogateMin, surrogateMax in Hr; lia).
        rewrite enc_ascii in E by lia. injection E as -> _. lia. }
      assert (Hsz : (r =? RuneError) && (len (enc r) =? 1) = false).
      { apply andb_false_iff. destruct (Z.eqb_spec r RuneError) as [->|]; [right; reflexivity|now left]. }
      rewrite Hsz. case_if.
      * apply stands_u; [|intros b'|exact Hr|exact IH];
          (assert (Er : r = 0x2028 \/ r = 0x2029) by lia; destruct Er as [->| ->]);
          first [reflexivity|repeat (constructor; [reflexivity|]); constructor].
      * unfold len at 1. rewrite Nat2Z.id, firstn_app, firstn_all, Nat.sub_diag. cbn [firstn].
        rewrite app_nil_r. now apply stands_rune.
    + rewrite D. rewrite !Z.eqb_refl. cbn [andb map concat fst].
      inversion Hb as [|? ? _ Hb']; subst. cbn [length] in Hl.
      change (skipn (Z.to_nat 1) (c :: src)) with src.
      apply (stands_u 102 102 102 100 RuneError); [repeat constructor|reflexivity|exact RuneError_valid|].
      apply IH; [exact Hb'|lia].
Qed.

Lemma stands_string h s : Forall is_byte s -> stands (string_loop (length s) s h) (ToValidUTF8 s).
Proof. intros Hb. now apply stands_string_loop. Qed.

Lemma stringEncoder_quoted h s : stringEncoder h s = quoted (string_loop (length (bytes s)) (bytes s) h).
Proof. reflexivity. Qed.

Lemma stringEncoder_lit h s : string_lit (stringEncoder h s).
Proof. constructor. eapply stands_strchars, stands_string, bytes_range. Qed.

Lemma stringEncoder_bytes h s : Forall is_byte (stringEncoder h s).
Proof.
  rewrite stringEncoder_quoted. pose proof (stands_bytes _ _ (stands_string h (bytes s) (bytes_range s))) as H.
  repeat constructor; try lia. apply Forall_app. split; [exact H|repeat constructor; lia].
Qed.

(** C39: Strings survive the trip through JSON: the literal [Marshal] writes for a Go string
    is a literal of RFC 8259, and [unquoteBytes] reads it back as the string itself when
    that is UTF-8, and with U+FFFD for every stray byte otherwise. *)
Lemma string_roundtrip h s : unquoteBytes (stringEncoder h s) = Some (ToValidUTF8 (bytes s)).
Proof. apply unquote_stands, stands_string, bytes_range. Qed.

(** * Integers *)

Lemma decimal_loop_head fuel : forall us a, 0 < us < 100 ^ Z.of_nat fuel ->
  exists d p, decimal_loop fuel us a = d :: p /\ 49 <= d <= 57.
Proof.
  induction fuel as [|fuel IH]; intros us a Hus; [cbn in Hus; lia|]. cbn [decimal_loop].
  destruct (Z.leb_spec 100 us).
  - apply IH. split; [apply Z.div_str_pos; lia|]. apply Z.div_lt_upper_bound; [lia|].
    rewrite <- Z.pow_succ_r by lia. now replace (Z.succ (Z.of_nat fuel)) with (Z.of_nat (S fuel)) by lia.
  - rewrite smalls_units, smalls_tens by lia. destruct (Z.leb_spec 10 us); eexists _, _;
      (split; [reflexivity|]); Z.to_euclidean_division_equations; lia.
Qed.

(** Digits without a leading zero. *)
Lemma int_part_digits p : p <> [] -> digits p -> (forall d q, p = d :: q -> d <> 48) -> int_part p.
Proof.
  intros Hne Hd Hh. destruct p as [|d p]; [contradiction|]. inversion Hd as [|? ? H1 H2]; subst.
  apply is_digit_iff in H1. specialize (Hh d p eq_refl). constructor; [lia|exact H2].
Qed.

Lemma uint_int_part u : 0 < u < 2 ^ 64 -> int_part (decimal_loop 65 u []).
Proof.
  intros Hu.
  destruct (uint_value u) as (p & E & Hne & Hv & Hd); [lia|].
  destruct (decimal_loop_head 65 u []) as (d & q & E' & Hq).
  { split; [lia|]. eapply Z.lt_trans; [apply Hu|reflexivity]. }
  rewrite E in E'. rewrite E. apply int_part_digits; [exact Hne|exact Hd|].
  intros d' q' E2. rewrite E' in E2. injection E2 as <- _. lia.
Qed.

Lemma intEncoder_number z : int64 z -> number (intEncoder z).
Proof.
  intros Hz. pose proof (number_intro [] (intEncoder z) [] []) as Hpos. cbn [app] in Hpos.
  rewrite !app_nil_r in Hpos. unfold int64 in Hz.
  unfold intEncoder, AppendInt, formatBits, nSmalls, wrap64 in *. cbn [Z.eqb Pos.eqb app] in *.
  destruct (Z.leb_spec 0 z); [destruct (Z.ltb_spec z 100)|]; cbn [andb] in *.
  - apply Hpos; [now left| |constructor..].
    destruct (small_value z ltac:(lia)) as (p & E & Hne & _ & Hd). rewrite E.
    destruct (Z.eq_dec z 0) as [->|Hz0]; [rewrite <- E; constructor|].
    apply int_part_digits; [exact Hne|exact Hd|]. rewrite <- E. unfold small, digit_byte.
    intros d q. rewrite smalls_tens by lia.
    destruct (Z.ltb_spec z 10); intros Ed%(f_equal (hd 0)); cbn [hd] in Ed; [lia|].
    Z.to_euclidean_division_equations; lia.
  - destruct (Z.ltb_spec z 0); [lia|]. rewrite Z.mod_small in * by lia.
    apply Hpos; [now left|apply uint_int_part; lia|constructor..].
  - destruct (Z.ltb_spec z 0); [|lia].
    assert (E : (- (z mod 2 ^ 64)) mod 2 ^ 64 = - z).
    { rewrite <- (Z.mod_small (- z) (2 ^ 64)) by lia.
      replace (- z) with (0 - z) by lia. rewrite <- Z.sub_0_l, Zminus_mod_idemp_r. reflexivity. }
    rewrite E. pose proof (number_intro [45] (decimal_loop 65 (- z) []) [] []) as Hneg.
    cbn [app] in Hneg. rewrite app_nil_r in Hneg.
    apply Hneg; [now right|apply uint_int_part; lia|constructor..].
Qed.

(** * Values *)

(** The trees whose literals and keys are literals, and bytes. *)
Definition key_ok (k : list Z) : Prop := string_lit k /\ Forall is_byte k.

Inductive wf : tree -> Prop :=
| wf_lit b : literal b -> Forall is_byte b -> wf (TLit b)
| wf_arr l : Forall wf l -> wf (TArr l)
| wf_obj l : Forall (fun kt => key_ok (fst kt) /\ wf (snd kt)) l -> wf (TObj l).

(** The texts [l] one after the other, with [sep] between them. *)
Definition joined (sep : list Z) (l : list (list Z)) : list Z :=
  match l with
  | [] => []
  | x :: l => x ++ concat (map (app sep) l)
  end.

(** The text of a tree without white space. *)
Fixpoint compact (t : tree) : list Z :=
  match t with
  | TLit b => b
  | TArr l => 91 :: joined [44] (map compact l) ++ [93]
  | TObj l => 123 :: joined [44] (map (fun kt => fst kt ++ 58 :: compact (snd kt)) l) ++ [125]
  end.

Lemma joined_cons sep x y l : joined sep (x :: y :: l) = x ++ sep ++ joined sep (y :: l).
Proof. cbn. now rewrite <- app_assoc. Qed.

Lemma ws_nil : ws [].
Proof. constructor. Qed.
#[export] Hint Resolve ws_nil : cam.

Lemma elems_lead w l b : ws w -> elems l b -> elems l (w ++ b).
Proof.
  intros Hw [t w1 v w2 H1 H2 H3|t w1 v w2 l' b' H1 H2 H3 H4]; rewrite app_assoc; constructor; auto;
    now apply Forall_app.
Qed.

Lemma members_lead w l b : ws w -> members l b -> members l (w ++ b).
Proof.
  intros Hw [k t w1 w2 w3 v w4 H1 H2 H3 H4 H5 H6|k t w1 w2 w3 v w4 l' b' H1 H2 H3 H4 H5 H6 H7];
    rewrite app_assoc; constructor; auto; now apply Forall_app.
Qed.

(** Items written by [f], with white space [w] after the commas, [w'] at the end and [w3]
    after the colons. *)
Lemma spaced_elems f w w' l : ws w -> ws w' -> l <> [] -> Forall (fun t => spells t (f t)) l ->
  elems l (joined (44 :: w) (map f l) ++ w').
Proof.
  intros Hw Hw' Hne Hl. induction Hl as [|t l Ht Hl IH]; [contradiction|]. destruct l as [|t' l].
  - cbn. rewrite app_nil_r. apply (elems_one t [] (f t) w'); auto with cam.
  - cbn [map]. rewrite joined_cons. repeat (rewrite <- ?app_assoc; cbn [app]).
    apply (elems_cons t [] (f t) []); auto with cam. apply elems_lead; [exact Hw|now apply IH].
Qed.

Lemma spaced_members f w w' w3 l : ws w -> ws w' -> ws w3 -> l <> [] ->
  Forall (fun kt => string_lit (fst kt) /\ spells (snd kt) (f (snd kt))) l ->
  members l (joined (44 :: w) (map (fun kt => fst kt ++ 58 :: w3 ++ f (snd kt)) l) ++ w').
Proof.
  intros Hw Hw' Hw3 Hne Hl. induction Hl as [|[k t] l [Hk Ht] Hl IH]; [contradiction|]. cbn [fst snd] in *.
  destruct l as [|kt' l].
  - cbn. rewrite app_nil_r. repeat (rewrite <- ?app_assoc; cbn [app]).
    apply (members_one k t [] [] w3 (f t) w'); auto with cam.
  - cbn [map]. rewrite joined_cons. cbn [fst snd]. repeat (rewrite <- ?app_assoc; cbn [app]).
    apply (members_cons k t [] [] w3 (f t) []); auto with cam. apply members_lead; [exact Hw|now apply IH].
Qed.

Lemma compact_spells t : wf t -> spells t (compact t).
Proof.
  induction t as [b|l IH|l IH] using tree_ind'; intros Hw; inversion Hw as [? Hb _|? Hl|? Hl]; subst; cbn [compact].
  - now constructor.
  - destruct l as [|t l]; [apply (spells_arr_empty []), ws_nil|].
    pose proof (spaced_elems compact [] [] (t :: l)) as H. rewrite app_nil_r in H.
    apply spells_arr, H; [auto with cam..|discriminate|]. rewrite Forall_forall in *. auto.
  - destruct l as [|kt l]; [apply (spells_obj_empty []), ws_nil|].
    pose proof (spaced_members compact [] [] [] (kt :: l)) as H. rewrite app_nil_r in H.
    apply spells_obj, H; [auto with cam..|discriminate|].
    rewrite Forall_forall in *. intros x Hx. split; [now apply Hl|now apply IH, Hl].
Qed.

Lemma joined_bytes sep l : Forall is_byte sep -> Forall (Forall is_byte) l -> Forall is_byte (joined sep l).
Proof.
  intros Hs [|x l' Hx Hl]; [constructor|]. cbn [joined]. apply Forall_app. split; [exact Hx|].
  apply Forall_concat, Forall_map. revert Hl. apply Forall_impl. intros y Hy. now apply Forall_app.
Qed.

Lemma byte_32 c : 32 <= c < 128 -> is_byte c.
Proof. unfold is_byte. lia. Qed.

Lemma enclosed_bytes c b d : 32 <= c < 128 -> 32 <= d < 128 -> Forall is_byte b -> Forall is_byte (c :: b ++ [d]).
Proof.
  intros Hc Hd Hb. constructor; [now apply byte_32|]. apply Forall_app. split; [exact Hb|].
  repeat constructor; lia.
Qed.

Lemma compact_bytes t : wf t -> Forall is_byte (compact t).
Proof.
  induction t as [b|l IH|l IH] using tree_ind'; intros Hw; inversion Hw as [? _ Hb|? Hl|? Hl]; subst; cbn [compact].
  - exact Hb.
  - apply enclosed_bytes; [lia..|]. apply joined_bytes; [repeat constructor; lia|].
    apply Forall_map. rewrite Forall_forall in *. auto.
  - apply enclosed_bytes; [lia..|]. apply joined_bytes; [repeat constructor; lia|].
    apply Forall_map. rewrite Forall_forall in *. intros kt Hkt. destruct (Hl kt Hkt) as [[_ Hk] Ht].
    apply Forall_app. split; [exact Hk|]. constructor; [apply byte_32; lia|]. now apply IH.
Qed.

Lemma compact_text t : wf t -> json_text t (compact t).
Proof.
  intros H. pose proof (json_text_intro t [] (compact t) []) as E. cbn [app] in E.
  rewrite app_nil_r in E. apply E; auto using compact_spells with cam.
Qed.

(** ** The tree of a value *)

Section Collect.
Context {F A B : Type} (f : A -> result F B).

(** All the results of [f], or its first error. *)
Fixpoint collect (l : list A) : result F (list B) :=
  match l with
  | [] => Ok []
  | x :: l => bind (f x) (fun y => bind (collect l) (fun ys => Ok (y :: ys)))
  end.

Lemma collect_cons x l : collect (x :: l) = bind (f x) (fun y => bind (collect l) (fun ys => Ok (y :: ys))).
Proof. reflexivity. Qed.

Lemma collect_Forall (P : A -> Prop) (Q : B -> Prop) l ys :
  (forall x y, P x -> f x = Ok y -> Q y) -> Forall P l -> collect l = Ok ys -> Forall Q ys.
Proof.
  intros H Hl. revert ys. induction Hl as [|x l Hx _ IH]; intros ys; cbn [collect].
  - intros E. injection E as <-. constructor.
  - destruct (f x) as [y|e|] eqn:Ef; try discriminate. cbn [bind].
    destruct (collect l) as [ys'|e|]; try discriminate. cbn [bind].
    intros E. injection E as <-. constructor; eauto.
Qed.
End Collect.

Section Encoding.
Context {F : Type} {GF : GoFloat F} {FT : FloatText F}.
Implicit Types (v : gval F).

Section GvalInd.
Context (P : gval F -> Prop)
  (Hbool : forall b, P (VBool b)) (Hint : forall z, P (VInt z)) (Hfloat : forall x, P (VFloat x))
  (Hstring : forall s, P (VString s))
  (Hptr : forall e o, match o with Some v => P v | None => True end -> P (VPtr e o))
  (Hslice : forall o, match o with Some l => Forall P l | None => True end -> P (VSlice o))
  (Hmap : forall o, match o with Some l => Forall (fun kv => P (snd kv)) l | None => True end -> P (VMap o))
  (Hstruct : forall n fs, Forall (fun f => P (snd f)) fs -> P (VStruct n fs)).

Fixpoint gval_ind' (v : gval F) : P v :=
  let fix values l : Forall P l :=
    match l with [] => Forall_nil _ | v :: l => Forall_cons _ (gval_ind' v) (values l) end in
  let fix entries {A} (l : list (A * gval F)) : Forall (fun kv => P (snd kv)) l :=
    match l with [] => Forall_nil _ | kv :: l => Forall_cons _ (gval_ind' (snd kv)) (entries l) end in
  match v with
  | VBool b => Hbool b
  | VInt z => Hint z
  | VFloat x => Hfloat x
  | VString s => Hstring s
  | VPtr e o => Hptr e o (match o with Some v => gval_ind' v | None => I end)
  | VSlice o => Hslice o (match o with Some l => values l | None => I end)
  | VMap o => Hmap o (match o with Some l => entries l | None => I end)
  | VStruct n fs => Hstruct n fs (entries fs)
  end.
End GvalInd.

(** The key of a field, as it is written. *)
Definition field_key (h : bool) (f : field) : list Z :=
  quoted (if h then appendHTMLEscape (bytes (f_name f)) else bytes (f_name f)).

(** What a value is encoded as: the fields of a struct in order without the omitted ones,
    the entries of a map in the order of the keys. *)
Fixpoint gval_tree (h : bool) v : result F tree :=
  match v with
  | VBool b => Ok (TLit (boolEncoder b))
  | VInt z => Ok (TLit (intEncoder z))
  | VFloat x => bind (floatEncoder x) (fun b => Ok (TLit b))
  | VString s => Ok (TLit (stringEncoder h s))
  | VPtr _ None | VSlice None | VMap None => Ok (TLit null_text)
  | VPtr _ (Some v) => gval_tree h v
  | VSlice (Some l) => bind (collect (gval_tree h) l) (fun l => Ok (TArr l))
  | VMap (Some l) =>
      bind (collect (fun kv => bind (gval_tree h (snd kv)) (fun t => Ok (fst kv, t))) l) (fun l =>
      Ok (TObj (map (fun kt => (stringEncoder h (fst kt), snd kt)) (sort_keys l))))
  | VStruct _ fs =>
      bind (collect (fun f =>
              if f_omitEmpty (fst f) && isEmptyValue (snd f) then Ok []
              else bind (gval_tree h (snd f)) (fun t => Ok [(field_key h (fst f), t)])) fs) (fun l =>
      Ok (TObj (concat l)))
  end.

Definition entry_text (kt : list Z * tree) : list Z := fst kt ++ 58 :: compact (snd kt).

(** The separated texts [l], after a first one or not. *)
Definition separated (first : bool) (l : list (list Z)) : list Z :=
  if first then joined [44] l else concat (map (app [44]) l).

Lemma separated_cons first x l :
  separated first (x :: l) = (if first then [] else [44]) ++ x ++ separated false l.
Proof. now destruct first; cbn. Qed.

Lemma insert_key_map {A B} (f : A -> B) kv l :
  insert_key (fst kv, f (snd kv)) (map (fun kv => (fst kv, f (snd kv))) l) =
  map (fun kv => (fst kv, f (snd kv))) (insert_key kv l).
Proof.
  induction l as [|kv' l IH]; [reflexivity|]. cbn [map insert_key fst].
  case_if; cbn [map]; [reflexivity|]. now rewrite IH.
Qed.

Lemma sort_keys_map {A B} (f : A -> B) l :
  sort_keys (map (fun kv => (fst kv, f (snd kv))) l) = map (fun kv => (fst kv, f (snd kv))) (sort_keys l).
Proof.
  unfold sort_keys. induction l as [|kv l IH]; [reflexivity|]. cbn [map fold_right].
  now rewrite IH, insert_key_map.
Qed.

(** [Marshal] writes the compact text of the tree, and fails where a float has no text. *)
Lemma reflectValue_tree h v : reflectValue h v = bind (gval_tree h v) (fun t => Ok (compact t)).
Proof.
  induction v as [b|z|x|s|e o IH|o IH|o IH|n fs IH] using gval_ind'; cbn [reflectValue gval_tree]; try reflexivity.
  - now destruct (floatEncoder x).
  - destruct o; [exact IH|reflexivity].
  - destruct o as [l|]; [|reflexivity].
    match goal with |- bind (?f true _) _ = _ => enough (H : forall first,
      f first l = bind (collect (gval_tree h) l) (fun ts => Ok (separated first (map compact ts) ++ [93]))) end.
    { rewrite H. now destruct (collect (gval_tree h) l). }
    induction IH as [|x l Hx _ IHl]; intros first; [now destruct first|].
    rewrite Hx, IHl. cbn [collect]. destruct (gval_tree h x) as [t|e|]; try reflexivity. cbn [bind].
    destruct (collect (gval_tree h) l) as [ts|e|]; try reflexivity. cbn [bind map].
    now rewrite separated_cons, <- !app_assoc.
  - destruct o as [l|]; [|reflexivity].
    set (g := fun kv : string * gval F => bind (gval_tree h (snd kv)) (fun t => Ok (fst kv, t))).
    match goal with |- bind (?f _) _ = _ =>
      assert (H : f l = bind (collect g l) (fun ts => Ok (map (fun kt => (fst kt, compact (snd kt))) ts))) end.
    { induction IH as [|[k x] l Hx _ IHl]; [reflexivity|]. cbn [snd] in Hx.
      rewrite Hx, IHl, collect_cons.
      change (g (k, x)) with (bind (gval_tree h x) (fun t => Ok (k, t))).
      destruct (gval_tree h x) as [t|e|]; try reflexivity. cbn [bind].
      now destruct (collect g l). }
    rewrite H. destruct (collect g l) as [ts|e|]; try reflexivity. cbn [bind].
    rewrite sort_keys_map. f_equal. cbn [compact]. f_equal. rewrite !map_map. cbn [fst snd].
    match goal with |- ?f true _ = _ => enough (He : forall first us,
      f first (map (fun kt => (fst kt, compact (snd kt))) us) =
      separated first (map (fun kt => stringEncoder h (fst kt) ++ 58 :: compact (snd kt)) us) ++ [125])
      by apply He end.
    clear. intros first us. revert first. induction us as [|[k t] us IH]; intros first; [now destruct first|].
    cbn [map fst snd]. rewrite IH, separated_cons, <- !app_assoc. reflexivity.
  - set (g := fun f : field * gval F =>
              if f_omitEmpty (fst f) && isEmptyValue (snd f) then Ok []
              else bind (gval_tree h (snd f)) (fun t => Ok [(field_key h (fst f), t)])).
    match goal with |- ?f 123 _ = _ => enough (H : forall first : bool,
      f (if first then 123 else 44) fs =
      bind (collect g fs) (fun ts =>
        Ok ((if first then [123] else []) ++ separated first (map entry_text (concat ts)) ++ [125]))) end.
    { rewrite (H true). now destruct (collect g fs). }
    induction IH as [|[f x] l Hx _ IHl]; intros first; [now destruct first|]. cbn [snd] in Hx.
    rewrite collect_cons.
    change (g (f, x)) with (if f_omitEmpty f && isEmptyValue x then Ok [] : result F (list (list Z * tree))
                            else bind (gval_tree h x) (fun t => Ok [(field_key h f, t)])). case_if.
    + rewrite IHl. cbn [bind]. now destruct (collect g l).
    + rewrite Hx. destruct (gval_tree h x) as [t|e|]; try reflexivity. cbn [bind].
      rewrite (IHl false). destruct (collect g l) as [ts|e|]; try reflexivity. cbn [bind concat app map].
      rewrite separated_cons. unfold entry_text at 2, field_label, field_key, quoted. cbn [fst snd].
      destruct first, h; cbn [app]; now rewrite <- ?app_assoc.
Qed.

(** ** The text of a value is JSON *)

(** The values the encoder takes: integers of 64 bits, floats whose text is a number, and
    structs whose field names are literals as they stand. *)
Inductive encodable (h : bool) : gval F -> Prop :=
| encodable_bool b : encodable h (VBool b)
| encodable_int z : int64 z -> encodable h (VInt z)
| encodable_float x : (forall b, floatEncoder x = Ok b -> number b) -> encodable h (VFloat x)
| encodable_string s : encodable h (VString s)
| encodable_nil e : encodable h (VPtr e None)
| encodable_ptr e v : encodable h v -> encodable h (VPtr e (Some v))
| encodable_slice o : (forall l, o = Some l -> Forall (encodable h) l) -> encodable h (VSlice o)
| encodable_map o :
    (forall l, o = Some l -> Forall (fun kv => encodable h (snd kv)) l) -> encodable h (VMap o)
| encodable_struct n fs :
    Forall (fun f => key_ok (field_key h (fst f)) /\ encodable h (snd f)) fs ->
    encodable h (VStruct n fs).

Lemma number_is_bytes b : number b -> Forall is_byte b.
Proof.
  intros H%number_bytes. revert H. apply Forall_impl. intros c.
  unfold is_number_byte, is_digit, is_byte. lia.
Qed.

Lemma wf_number b : number b -> wf (TLit b).
Proof. intros H. constructor; [now constructor|now apply number_is_bytes]. Qed.

Lemma wf_string h s : wf (TLit (stringEncoder h s)).
Proof. constructor; [constructor; apply stringEncoder_lit|apply stringEncoder_bytes]. Qed.

Lemma wf_null : wf (TLit null_text).
Proof. constructor; [apply literal_null|repeat constructor; lia]. Qed.
Hint Resolve wf_number wf_string wf_null : cam.

Lemma insert_key_Forall {A} (P : string * A -> Prop) kv l : P kv -> Forall P l -> Forall P (insert_key kv l).
Proof.
  intros Hk. induction 1 as [|kv' l Hx Hl IH]; cbn [insert_key]; [auto|]. case_if; auto.
Qed.

Lemma sort_keys_Forall {A} (P : string * A -> Prop) l : Forall P l -> Forall P (sort_keys l).
Proof. induction 1; [constructor|]. now apply insert_key_Forall. Qed.

Lemma gval_tree_wf h v : encodable h v -> forall t, gval_tree h v = Ok t -> wf t.
Proof.
  induction v as [b|z|x|s|e o IH|o IH|o IH|n fs IH] using gval_ind'; intros He t; inversion He; subst;
    cbn [gval_tree].
  - intros E. injection E as <-. destruct b; (apply wf_lit; [|apply bytes_range]);
      [exact literal_true|exact literal_false].
  - intros E. injection E as <-. auto using intEncoder_number with cam.
  - destruct (floatEncoder x); try discriminate. intros E. injection E as <-. auto with cam.
  - intros E. injection E as <-. auto with cam.
  - intros E. injection E as <-. auto with cam.
  - now apply IH.
  - destruct o as [l|]; [|intros E; injection E as <-; auto with cam].
    destruct (collect (gval_tree h) l) as [ts| |] eqn:Ec; try discriminate. intros E. injection E as <-.
    constructor. refine (collect_Forall (gval_tree h) (fun v => encodable h v /\ (encodable h v -> forall t, gval_tree h v = Ok t -> wf t))
      wf l ts _ _ Ec); [intros v t [H1 H2]; now apply H2|].
    rewrite Forall_forall in *. intros v Hv. split; [|now apply IH].
    specialize (H0 l eq_refl). rewrite Forall_forall in H0. now apply H0.
  - destruct o as [l|]; [|intros E; injection E as <-; auto with cam].
    match goal with |- bind (collect ?f l) _ = _ -> _ => destruct (collect f l) as [ts| |] eqn:Ec end; try discriminate.
    intros E. injection E as <-. constructor. apply Forall_map. cbn [fst snd].
    assert (Hts : Forall (fun kt => wf (snd kt)) ts).
    { refine (collect_Forall _ (fun kv => encodable h (snd kv) /\
        (encodable h (snd kv) -> forall t, gval_tree h (snd kv) = Ok t -> wf t)) _ l ts _ _ Ec).
      - intros kv kt [H1 H2]. destruct (gval_tree h (snd kv)); try discriminate.
        cbn [bind]. intros E. injection E as <-. now apply H2.
      - rewrite Forall_forall in *. intros kv Hv. split; [|now apply IH].
        specialize (H0 l eq_refl). rewrite Forall_forall in H0. now apply H0. }
    apply sort_keys_Forall. revert Hts. apply Forall_impl. intros kt Hkt.
    split; [split; [apply stringEncoder_lit|apply stringEncoder_bytes]|exact Hkt].
  - match goal with |- bind (collect ?f fs) _ = _ -> _ => destruct (collect f fs) as [ts| |] eqn:Ec end; try discriminate.
    intros E. injection E as <-. constructor. apply Forall_concat.
    refine (collect_Forall _ (fun f => (key_ok (field_key h (fst f)) /\ encodable h (snd f)) /\
        (encodable h (snd f) -> forall t, gval_tree h (snd f) = Ok t -> wf t)) _ fs ts _ _ Ec).
    + intros f kt [[Hk H1] H2]. case_if; [intros E; injection E as <-; constructor|].
      destruct (gval_tree h (snd f)); try discriminate. cbn [bind]. intros E. injection E as <-.
      constructor; [|constructor]. split; [exact Hk|]. now apply H2.
    + rewrite Forall_forall in *. intros f Hf. split; [now apply H0|now apply IH].
Qed.

(** What [Marshal] writes of a value is the JSON text of its tree. *)
Lemma Marshal_text v b : encodable true v -> Marshal v = Ok b ->
  exists t, gval_tree true v = Ok t /\ wf t /\ b = compact t /\ json_text t b.
Proof.
  intros He E. unfold Marshal in E. rewrite reflectValue_tree in E.
  destruct (gval_tree true v) as [t|e|] eqn:Et; try discriminate. cbn [bind] in E. injection E as <-.
  pose proof (gval_tree_wf true v He t Et) as Hw. exists t. auto using compact_text.
Qed.
End Encoding.
