(* ===== verification/IndentSpec.v ===== *)
(** encoding/json, indent.go: [appendIndent] is the pretty-printer of the tree its input
    spells, whatever the layout of the input. *)
From Stdlib Require Import ZArith Lia String Ascii Bool List.
From S2P Require Import Prelude GoFloat Strconv Utf8 Scanner JsonGrammar ScannerSpec.
From S2P Require Import JsonEncode JsonDecodeSpec JsonEncodeSpec.
Import ListNotations.
Local Open Scope Z_scope.

Section Indent.
Context (prefix indent : list Z).

(** A new line at depth [d]: the prefix, and [d] indents. *)
Definition nl (d : Z) : list Z := 10 :: prefix ++ concat (repeat indent (Z.to_nat d)).

Abbreviation loop b s := (indent_loop b prefix indent s).

Lemma appendNewline_eq dst d : appendNewline dst prefix indent d = dst ++ nl d.
Proof.
  assert (E : forall n, repeat_text n indent = concat (repeat indent n)).
  { induction n as [|n IH]; [reflexivity|]. cbn [repeat_text repeat concat]. now rewrite IH. }
  unfold appendNewline, nl. now rewrite E.
Qed.

(** * The reference: a tree, one item a line *)

(** The items [l] between the brackets [o] and [c], one a line. *)
Definition block (o c d : Z) (l : list (list Z)) : list Z :=
  match l with
  | [] => [o; c]
  | _ => o :: nl (d + 1) ++ joined (44 :: nl (d + 1)) l ++ nl d ++ [c]
  end.

Fixpoint pretty (d : Z) (t : tree) : list Z :=
  match t with
  | TLit b => b
  | TArr l => block 91 93 d (map (pretty (d + 1)) l)
  | TObj l => block 123 125 d (map (fun kt => fst kt ++ [58; 32] ++ pretty (d + 1) (snd kt)) l)
  end.

(** * Turns of the loop *)

Definition begins (op : opcode) : Prop :=
  op = scanBeginLiteral \/ op = scanBeginArray \/ op = scanBeginObject.

(** White space is dropped. *)
Lemma loop_ws f st w : forall n need d dst r, skips f st -> ws w ->
  loop (w ++ r) (mk f st n) need d dst = loop r (mk f st (n + len w)) need d dst.
Proof.
  induction w as [|c w IH]; intros n need d dst r Hs Hw; cbn [app indent_loop].
  - now rewrite Z.add_0_r.
  - apply ws_cons in Hw as [Hc Hw]. change (count (mk f st n)) with (mk f st (n + 1)).
    rewrite step_space by assumption. rewrite IH by assumption. rewrite len_cons. do 2 f_equal. lia.
Qed.

Lemma loop_ws_end p st n s w need d dst r :
  ended (p :: st) n s -> ws w ->
  exists m s', ended (p :: st) m s' /\ loop (w ++ r) s need d dst = loop r s' need d dst.
Proof.
  intros He Hw. destruct w as [|c w]; [now exists n, s|]. apply ws_cons in Hw as [Hc Hw].
  exists (n + 1 + len w), (mk stateEndValue (p :: st) (n + 1 + len w)). split; [auto with cam|].
  cbn [app indent_loop]. rewrite (ended_step _ _ _ _ (ended_count _ _ _ He)) by now left.
  rewrite step_space by first [exact Hc|discriminate]. now apply loop_ws.
Qed.

(** Bytes inside a literal are copied. *)
Lemma loop_cwalk k v : forall s s1 s' d dst r,
  cwalk k s v = Some s' -> sim s s1 ->
  exists s1', sim s' s1' /\ loop (v ++ r) s1 false d dst = loop r s1' false d (dst ++ v).
Proof.
  induction v as [|c v IH]; intros s s1 s' d dst r; cbn [cwalk app indent_loop].
  - intros E H. injection E as <-. exists s1. rewrite app_nil_r. auto.
  - intros E H. pose proof (step_sim s (count s1) c H) as [Hs Hop].
    destruct (step s c) as [s2 op], (step (count s1) c) as [s2' op']. cbn in Hs, Hop. subst op'.
    destruct op; try discriminate. cbn [opcode_eqb negb orb andb] in *. case_if_in E; [discriminate|].
    destruct (IH s2 s2' s' d (dst ++ [c]) r E Hs) as (s1' & H' & ->).
    exists s1'. now rewrite <- app_assoc.
Qed.

Lemma same_mk f st n s : sim (mk f st n) s -> exists m, s = mk f st m.
Proof.
  destruct s as [g e st' er m]. intros (E1 & E2 & E3 & E4). cbn in *. subst.
  exists m. destruct er; [|reflexivity]. destruct E4 as [E4 _]. now specialize (E4 eq_refl).
Qed.

(** The first byte of a literal is none of those the loop looks for. *)
Definition unmarked (c : Z) : Prop := c <> 123 /\ c <> 91 /\ c <> 44 /\ c <> 58 /\ c <> 125 /\ c <> 93.

Lemma literal_unmarked c v : literal (c :: v) -> unmarked c.
Proof.
  unfold unmarked. intros H. inversion H as [b Hs|b Hn| | |]; subst; try lia.
  - apply string_lit_start in Hs as [b E]. injection E as -> _. lia.
  - apply number_start in Hn as (c' & b & E & Hc). injection E as -> _. lia.
Qed.

Lemma loop_spans st n m f v g d dst r :
  spans (length st) st n f v g -> literal v ->
  
  exists m', loop (v ++ r) (mk f st m) false d dst = loop r (mk g st m') false d (dst ++ v).
Proof.
  intros (c & v' & f' & -> & E & W) Hl. apply literal_unmarked in Hl as Hc.
  pose proof (step_sim (mk f st n) (count (mk f st m)) c) as [Hs Hop].
  { unfold sim. cbn. tauto. }
  rewrite E in Hs, Hop. cbn [fst snd] in Hs, Hop.
  apply same_mk in Hs as [m1 E1].
  destruct (loop_cwalk (length st) v' (mk f' st n) (mk f' st m1) (mk g st n) d (dst ++ [c]) r W) as (s & Hs & El).
  { unfold sim. cbn. tauto. }
  apply same_mk in Hs as [m' ->]. exists m'. cbn [app indent_loop].
  destruct (step (count (mk f st m)) c) as [s1 op]. cbn [fst snd] in *. subst s1 op.
  cbn [opcode_eqb andb negb]. unfold unmarked in Hc.
  replace ((c =? 123) || (c =? 91)) with false by lia. replace (c =? 44) with false by lia.
  replace (c =? 58) with false by lia. replace ((c =? 125) || (c =? 93)) with false by lia.
  rewrite El. now rewrite <- app_assoc.
Qed.

(** One turn on a byte that is neither white space nor inside a literal. *)
Lemma loop_turn c r s0 need d dst s op :
  step (count s0) c = (s, op) -> op <> scanSkipSpace -> op <> scanError -> op <> scanContinue ->
  (need = true -> op = scanEndArray \/ op = scanEndObject) ->
  loop (c :: r) s0 need d dst =
  if (c =? 123) || (c =? 91) then loop r s true d (dst ++ [c])
  else if c =? 44 then loop r s need d (dst ++ [c] ++ nl d)
  else if c =? 58 then loop r s need d (dst ++ [c; 32])
  else if (c =? 125) || (c =? 93) then
    loop r s false (if need then d else d - 1) (dst ++ (if need then [] else nl (d - 1)) ++ [c])
  else loop r s need d (dst ++ [c]).
Proof.
  intros E H1 H2 H3 Hn. cbn [indent_loop]. rewrite E.
  assert (Ho : need && negb (opcode_eqb op scanEndObject) && negb (opcode_eqb op scanEndArray) = false).
  { destruct need; [|reflexivity]. destruct Hn as [->| ->]; reflexivity. }
  rewrite Ho. replace (opcode_eqb op scanContinue) with false by (destruct op; cbn; congruence).
  destruct op; try congruence; destruct need; cbv beta iota zeta;
    rewrite ?appendNewline_eq, <- ?app_assoc; reflexivity.
Qed.

(** The first item of an array or object goes on a new line, one level deeper. *)
Lemma loop_first f f' st n c r d dst s op :
  step (mk f st (n + 1)) c = (s, op) -> step (mk f' st (n + 1)) c = (s, op) -> begins op ->
  loop (c :: r) (mk f st n) true d dst = loop (c :: r) (mk f' st n) false (d + 1) (dst ++ nl (d + 1)).
Proof.
  intros E E' Hop. cbn [indent_loop].
  change (count (mk f st n)) with (mk f st (n + 1)). change (count (mk f' st n)) with (mk f' st (n + 1)).
  rewrite E, E', <- appendNewline_eq. destruct Hop as [->|[->| ->]]; reflexivity.
Qed.

Lemma spells_begins t c v st n :
  spells t (c :: v) -> depth_ok (depth t) st ->
  exists s op, step (mk stateBeginValue st n) c = (s, op) /\ begins op.
Proof.
  unfold begins. intros Hs Hd. inversion Hs as [b Hb|w Hw|l b Hb|w Hw|l b Hb]; subst.
  - destruct (spans_literal (length st) st n (le_n _) _ Hb) as (g & (c' & v' & f' & E & Es & _) & _).
    injection E as <- <-. eexists _, _. split; [exact Es|now left].
  - rewrite (step_open_array st n Hd). eexists _, _. split; [reflexivity|auto].
  - rewrite (step_open_array st n (depth_ok_1 _ _ Hd)). eexists _, _. split; [reflexivity|auto].
  - rewrite (step_open_object st n Hd). eexists _, _. split; [reflexivity|auto].
  - rewrite (step_open_object st n (depth_ok_1 _ _ Hd)). eexists _, _. split; [reflexivity|auto].
Qed.

(** What the loop writes for a value, and for the items up to the closing bracket. *)
Definition prints_value (t : tree) (v : list Z) : Prop := forall st n d dst r,
  depth_ok (depth t) st ->
  exists m s, ended st m s /\
    loop (v ++ r) (mk stateBeginValue st n) false d dst = loop r s false d (dst ++ pretty d t).

Definition prints_elems (l : list tree) (b : list Z) : Prop := forall st n d dst r,
  depth_ok (S (depth_elems l)) st ->
  exists m, loop (b ++ 93 :: r) (mk stateBeginValue (parseArrayValue :: st) n) false (d + 1) dst =
    loop r (closed st m) false d
      (dst ++ joined (44 :: nl (d + 1)) (map (pretty (d + 1)) l) ++ nl d ++ [93]).

Definition member_text (d : Z) (kt : list Z * tree) : list Z :=
  fst kt ++ [58; 32] ++ pretty d (snd kt).

Definition prints_members (l : list (list Z * tree)) (b : list Z) : Prop := forall st n d dst r,
  depth_ok (S (depth_members l)) st ->
  exists m, loop (b ++ 125 :: r) (mk stateBeginString (parseObjectKey :: st) n) false (d + 1) dst =
    loop r (closed st m) false d
      (dst ++ joined (44 :: nl (d + 1)) (map (member_text (d + 1)) l) ++ nl d ++ [125]).

Lemma loop_elem t v w1 w2 st n d dst r :
  prints_value t v -> ws w1 -> ws w2 -> depth_ok (S (depth t)) st ->
  exists m s, ended (parseArrayValue :: st) m s /\
    loop (w1 ++ v ++ w2 ++ r) (mk stateBeginValue (parseArrayValue :: st) n) false d dst =
    loop r s false d (dst ++ pretty d t).
Proof.
  intros Hv Hw1 Hw2 Hd. rewrite loop_ws by first [exact I|assumption].
  destruct (Hv (parseArrayValue :: st) (n + len w1) d dst (w2 ++ r)) as (m1 & s1 & H1 & ->);
    [unfold depth_ok in *; cbn [length]; lia|].
  destruct (loop_ws_end _ _ _ _ w2 false d (dst ++ pretty d t) r H1 Hw2) as (m2 & s2 & H2 & ->). eauto.
Qed.

Lemma loop_member t v key w1 w2 w3 w4 st n d dst r :
  prints_value t v -> string_lit key -> ws w1 -> ws w2 -> ws w3 -> ws w4 -> depth_ok (S (depth t)) st ->
  exists m s, ended (parseObjectValue :: st) m s /\
    loop (w1 ++ key ++ w2 ++ 58 :: w3 ++ v ++ w4 ++ r) (mk stateBeginString (parseObjectKey :: st) n) false d dst =
    loop r s false d (dst ++ member_text d (key, t)).
Proof.
  intros Hv Hk Hw1 Hw2 Hw3 Hw4 Hd. rewrite loop_ws by first [exact I|assumption].
  set (n1 := n + len w1).
  destruct (loop_spans (parseObjectKey :: st) n1 n1 stateBeginString key stateEndValue d dst
              (w2 ++ 58 :: w3 ++ v ++ w4 ++ r)) as [m1 ->];
    [apply spans_string; auto|now constructor|].
  destruct (loop_ws_end parseObjectKey st m1 (mk stateEndValue (parseObjectKey :: st) m1) w2 false d
              (dst ++ key) (58 :: w3 ++ v ++ w4 ++ r)) as (m2 & s2 & H2 & ->); [auto with cam|exact Hw2|].
  erewrite loop_turn; [|exact (step_colon _ _ _ (ended_count _ _ _ H2))|discriminate..].
  cbn [Z.eqb Pos.eqb orb]. rewrite loop_ws by first [exact I|assumption].
  destruct (Hv (parseObjectValue :: st) (m2 + 1 + len w3) d ((dst ++ key) ++ [58; 32]) (w4 ++ r))
    as (m3 & s3 & H3 & ->); [unfold depth_ok in *; cbn [length]; lia|].
  destruct (loop_ws_end _ _ _ _ w4 false d (((dst ++ key) ++ [58; 32]) ++ pretty d t) r H3 Hw4) as (m4 & s4 & H4 & ->).
  exists m4, s4. split; [exact H4|]. unfold member_text. cbn [fst snd]. now rewrite <- !app_assoc.
Qed.

(** ** The first item *)

Lemma value_first t v w1 x st n d dst :
  spells t v -> ws w1 -> depth_ok (depth t) st ->
  loop (w1 ++ v ++ x) (mk stateBeginValueOrEmpty st n) true d dst =
  loop (w1 ++ v ++ x) (mk stateBeginValue st n) false (d + 1) (dst ++ nl (d + 1)).
Proof.
  intros Hs Hw Hd. rewrite !(loop_ws _ _ w1) by first [exact I|assumption].
  destruct (spells_start t v Hs) as (c & v' & -> & Hc). cbn [app].
  destruct (spells_begins t c v' st (n + len w1 + 1) Hs Hd) as (s & op & E & Hop).
  apply (loop_first _ _ _ _ _ _ _ _ s op); [|exact E|exact Hop].
  rewrite <- E. now apply step_value_start.
Qed.

Lemma elems_first l b st n d dst r :
  elems l b -> depth_ok (S (depth_elems l)) st ->
  loop (b ++ r) (mk stateBeginValueOrEmpty (parseArrayValue :: st) n) true d dst =
  loop (b ++ r) (mk stateBeginValue (parseArrayValue :: st) n) false (d + 1) (dst ++ nl (d + 1)).
Proof.
  intros [t w1 v w2 Hw1 Hs _|t w1 v w2 l' b' Hw1 Hs _ _] Hd; rewrite <- !app_assoc;
    (apply (value_first t); [exact Hs|exact Hw1|]);
    apply depth_ok_push; revert Hd; apply depth_ok_le; cbn; lia.
Qed.

Lemma members_first l b st n d dst r :
  members l b ->
  loop (b ++ r) (mk stateBeginStringOrEmpty (parseObjectKey :: st) n) true d dst =
  loop (b ++ r) (mk stateBeginString (parseObjectKey :: st) n) false (d + 1) (dst ++ nl (d + 1)).
Proof.
  assert (H : forall k w1 x, ws w1 -> string_lit k ->
    loop (w1 ++ k ++ x) (mk stateBeginStringOrEmpty (parseObjectKey :: st) n) true d dst =
    loop (w1 ++ k ++ x) (mk stateBeginString (parseObjectKey :: st) n) false (d + 1) (dst ++ nl (d + 1))).
  { intros k w1 x Hw1 Hk. rewrite !(loop_ws _ _ w1) by first [exact I|assumption].
    destruct (string_lit_start _ Hk) as [k' ->]. cbn [app].
    now eapply loop_first; [reflexivity|reflexivity|left]. }
  intros [k t w1 w2 w3 v w4 Hw1 Hk _ _ _ _|k t w1 w2 w3 v w4 l' b' Hw1 Hk _ _ _ _ _];
    rewrite <- !app_assoc; now apply H.
Qed.

(** ** All texts *)

Lemma joined_one sep x : joined sep [x] = x.
Proof. apply app_nil_r. Qed.

(** From the opening bracket to the closing one. *)
Lemma prints_array l b : elems l b -> prints_elems l b -> prints_value (TArr l) (91 :: b ++ [93]).
Proof.
  intros Hb Hp st n d dst r Hd. cbn [app]. rewrite <- app_assoc. cbn [app].
  erewrite loop_turn; [|exact (step_open_array st (n + 1) (depth_ok_1 _ _ Hd))|discriminate..].
  cbn [Z.eqb Pos.eqb orb]. rewrite (elems_first l) by first [exact Hb|exact Hd].
  destruct (Hp st (n + 1) d ((dst ++ [91]) ++ nl (d + 1)) r Hd) as [m ->].
  exists m, (closed st m). split; [auto with cam|]. cbn [pretty block].
  destruct Hb; cbn [map]; unfold block; now rewrite <- !app_assoc.
Qed.

Lemma prints_object l b : members l b -> prints_members l b -> prints_value (TObj l) (123 :: b ++ [125]).
Proof.
  intros Hb Hp st n d dst r Hd. cbn [app]. rewrite <- app_assoc. cbn [app].
  erewrite loop_turn; [|exact (step_open_object st (n + 1) (depth_ok_1 _ _ Hd))|discriminate..].
  cbn [Z.eqb Pos.eqb orb]. rewrite (members_first l) by exact Hb.
  destruct (Hp st (n + 1) d ((dst ++ [123]) ++ nl (d + 1)) r Hd) as [m ->].
  exists m, (closed st m). split; [auto with cam|]. cbn [pretty block].
  destruct Hb; cbn [map]; unfold block; now rewrite <- !app_assoc.
Qed.

(** An empty array or object. *)
Lemma prints_empty o c st n s s' op op' w d dst r f st' :
  step (mk stateBeginValue st (n + 1)) o = (s, op) -> op = scanBeginArray \/ op = scanBeginObject ->
  s = mk f st' (n + 1) -> skips f st' -> ws w ->
  o = 123 \/ o = 91 -> c = 125 \/ c = 93 ->
  step (count (mk f st' (n + 1 + len w))) c = (s', op') -> op' = scanEndArray \/ op' = scanEndObject ->
  loop (o :: w ++ c :: r) (mk stateBeginValue st n) false d dst = loop r s' false d (dst ++ [o; c]).
Proof.
  intros E Hop -> Hs Hw Ho Hc E' Hop'.
  erewrite loop_turn; [|exact E|destruct Hop as [->| ->]; discriminate..|discriminate].
  replace ((o =? 123) || (o =? 91)) with true by lia. rewrite loop_ws by assumption.
  erewrite loop_turn; [|exact E'|destruct Hop' as [->| ->]; discriminate..|tauto].
  replace ((c =? 123) || (c =? 91)) with false by lia. replace (c =? 44) with false by lia.
  replace (c =? 58) with false by lia. replace ((c =? 125) || (c =? 93)) with true by lia.
  now rewrite <- app_assoc.
Qed.

Lemma prints_all :
  (forall t v, spells t v -> spells t v /\ prints_value t v) /\
  (forall l b, elems l b -> elems l b /\ prints_elems l b) /\
  (forall l b, members l b -> members l b /\ prints_members l b).
Proof.
  apply spells_elems_members.
  - intros b Hb. split; [now constructor|]. intros st n d dst r _.
    destruct (spans_literal (length st) st n (le_n _) b Hb) as (g & Hg & Hend).
    destruct (loop_spans st n n stateBeginValue b g d dst r Hg Hb) as [m E].
    exists m, (mk g st m). split; [|exact E]. destruct Hend as [->|Hend]; auto with cam.
  - intros w Hw. split; [now constructor|]. intros st n d dst r Hd. cbn [app]. rewrite <- app_assoc. cbn [app].
    exists (n + 1 + len w + 1), (closed st (n + 1 + len w + 1)). split; [apply ended_closed|].
    eapply (prints_empty 91 93 st n _ _ scanBeginArray scanEndArray w d dst r stateBeginValueOrEmpty (parseArrayValue :: st));
      [exact (step_open_array st _ Hd)|auto|reflexivity|exact I|exact Hw|auto|auto|exact (step_empty_array st _)|auto].
  - intros l b Hb [_ Hp]. split; [now constructor|now apply prints_array].
  - intros w Hw. split; [now constructor|]. intros st n d dst r Hd. cbn [app]. rewrite <- app_assoc. cbn [app].
    exists (n + 1 + len w + 1), (closed st (n + 1 + len w + 1)). split; [apply ended_closed|].
    eapply (prints_empty 123 125 st n _ _ scanBeginObject scanEndObject w d dst r stateBeginStringOrEmpty (parseObjectKey :: st));
      [exact (step_open_object st _ Hd)|auto|reflexivity|exact I|exact Hw|auto|auto|exact (step_empty_object st _)|auto].
  - intros l b Hb [_ Hp]. split; [now constructor|now apply prints_object].
  - intros t w1 b w2 Hw1 _ [Hs Hv] Hw2. split; [now constructor|].
    intros st n d dst r Hd. rewrite <- !app_assoc.
    destruct (loop_elem t b w1 w2 st n (d + 1) dst (93 :: r) Hv Hw1 Hw2) as (m & s & H & ->);
      [revert Hd; apply depth_ok_le; cbn; lia|].
    exists (m + 1). erewrite loop_turn; [|exact (step_close_array _ _ _ (ended_count _ _ _ H))|discriminate..].
    cbn [Z.eqb Pos.eqb orb map]. rewrite joined_one, Z.add_simpl_r. now rewrite <- !app_assoc.
  - intros t w1 b w2 l b' Hw1 _ [Hs Hv] Hw2 Hl [_ IH]. split; [now constructor|].
    intros st n d dst r Hd. rewrite <- !app_assoc. cbn [app].
    destruct (loop_elem t b w1 w2 st n (d + 1) dst (44 :: b' ++ 93 :: r) Hv Hw1 Hw2) as (m & s & H & ->);
      [revert Hd; apply depth_ok_le; cbn; lia|].
    erewrite loop_turn; [|exact (step_comma_array _ _ _ (ended_count _ _ _ H))|discriminate..].
    cbn [Z.eqb Pos.eqb orb].
    destruct (IH st (m + 1) d ((dst ++ pretty (d + 1) t) ++ [44] ++ nl (d + 1)) r) as [m' ->];
      [revert Hd; apply depth_ok_le; unfold depth_elems; cbn; lia|].
    exists m'. destruct Hl; cbn [map]; rewrite joined_cons, <- !app_assoc; reflexivity.
  - intros key t w1 w2 w3 b w4 Hw1 Hkey Hw2 Hw3 _ [Hs Hv] Hw4. split; [now constructor|].
    intros st n d dst r Hd. repeat (rewrite <- ?app_assoc; cbn [app]).
    destruct (loop_member t b key w1 w2 w3 w4 st n (d + 1) dst (125 :: r) Hv Hkey Hw1 Hw2 Hw3 Hw4) as (m & s & H & ->);
      [revert Hd; apply depth_ok_le; cbn; lia|].
    exists (m + 1). erewrite loop_turn; [|exact (step_close_object _ _ _ (ended_count _ _ _ H))|discriminate..].
    cbn [Z.eqb Pos.eqb orb map]. rewrite joined_one, Z.add_simpl_r. now rewrite <- !app_assoc.
  - intros key t w1 w2 w3 b w4 l b' Hw1 Hkey Hw2 Hw3 _ [Hs Hv] Hw4 Hl [_ IH]. split; [now constructor|].
    intros st n d dst r Hd. repeat (rewrite <- ?app_assoc; cbn [app]).
    destruct (loop_member t b key w1 w2 w3 w4 st n (d + 1) dst (44 :: b' ++ 125 :: r) Hv Hkey Hw1 Hw2 Hw3 Hw4)
      as (m & s & H & ->); [revert Hd; apply depth_ok_le; cbn; lia|].
    erewrite loop_turn; [|exact (step_comma_object _ _ _ (ended_count _ _ _ H))|discriminate..].
    cbn [Z.eqb Pos.eqb orb].
    destruct (IH st (m + 1) d ((dst ++ member_text (d + 1) (key, t)) ++ [44] ++ nl (d + 1)) r) as [m' ->];
      [revert Hd; apply depth_ok_le; unfold depth_members; cbn; lia|].
    exists m'. destruct Hl; cbn [map]; rewrite joined_cons, <- !app_assoc; reflexivity.
Qed.

(** * The whole input *)

(** Past the end of the value white space is kept. *)
Lemma loop_top w : forall n d dst, ws w ->
  exists m, loop w (top n) false d dst = (dst ++ w, top m).
Proof.
  induction w as [|c w IH]; intros n d dst Hw; cbn [indent_loop]; [exists n; now rewrite app_nil_r|].
  apply ws_cons in Hw as [Hc Hw].
  assert (E : step (count (top n)) c = (top (n + 1), scanEnd)).
  { unfold step, count, top, do_EndTop. cbn [sc_step]. now rewrite Hc. }
  rewrite E. cbn [opcode_eqb andb negb].
  apply isSpace_iff in Hc. replace ((c =? 123) || (c =? 91)) with false by lia.
  replace (c =? 44) with false by lia. replace (c =? 58) with false by lia.
  replace ((c =? 125) || (c =? 93)) with false by lia.
  destruct (IH (n + 1) d (dst ++ [c]) Hw) as [m ->]. exists m. now rewrite <- app_assoc.
Qed.

Lemma loop_rest n s w d dst : ended [] n s -> ws w ->
  exists s', loop w s false d dst = (dst ++ w, s') /\ snd (eof s') = scanEnd.
Proof.
  intros He Hw. destruct w as [|c w].
  - exists s. split; [cbn; now rewrite app_nil_r|].
    destruct He as [->|(f & [->|Hf] & ->)]; [reflexivity..|]. now destruct f.
  - apply ws_cons in Hw as [Hc Hw]. cbn [indent_loop].
    rewrite (ended_step _ _ _ _ (ended_count _ _ _ He)) by now left.
    assert (E : step (mk stateEndValue [] (n + 1)) c = (top (n + 1), scanEnd)).
    { unfold step, mk, do_EndValue, do_EndTop. cbn [sc_step parseState]. now rewrite Hc. }
    rewrite E. cbn [opcode_eqb andb negb].
    apply isSpace_iff in Hc. replace ((c =? 123) || (c =? 91)) with false by lia.
    replace (c =? 44) with false by lia. replace (c =? 58) with false by lia.
    replace ((c =? 125) || (c =? 93)) with false by lia.
    destruct (loop_top w (n + 1) d (dst ++ [c]) Hw) as [m ->]. exists (top m).
    split; [now rewrite <- app_assoc|reflexivity].
Qed.

Lemma appendIndent_pretty t w1 v w2 :
  ws w1 -> spells t v -> ws w2 -> depth_ok (depth t) [] ->
  appendIndent (w1 ++ v ++ w2) prefix indent = inl (pretty 0 t ++ w2).
Proof.
  intros Hw1 Hv Hw2 Hd. unfold appendIndent. change newScanner with (mk stateBeginValue [] 0).
  rewrite loop_ws by first [exact I|assumption].
  destruct (proj2 (proj1 prints_all t v Hv) [] (0 + len w1) 0 [] w2 Hd) as (m & s & He & ->).
  destruct (loop_rest m s w2 0 ([] ++ pretty 0 t) He Hw2) as (s' & -> & Hop).
  destruct (eof s') as [s1 op]. cbn [snd] in Hop. subst op. reflexivity.
Qed.

(** ** Input that is not JSON *)

(** The scanner in its error state has an error to show. *)
Definition shown (s : scanner) : Prop := sc_step s = stateError -> err s <> None.

Lemma step_shown s c : shown s -> shown (fst (step s c)) /\ recorded (step s c).
Proof.
  destruct s as [f e st er n]. unfold shown, recorded.
  destruct f; unfold step; cbn [sc_step err]; unfold_states;
    try (destruct st as [|[] [|p2 st]]; unfold_states);
    repeat match goal with
    | |- context [fst (if ?b then _ else _)] => destruct b
    end; cbn; intros H; split; try discriminate; intros; first [now apply H|congruence].
Qed.

Lemma eof_error s : err s <> None -> eof s = (s, scanError).
Proof. unfold eof. destruct (err s); [reflexivity|congruence]. Qed.

(** The loop ends without an error only where the scanner accepts. *)
Lemma loop_accepts b : forall s need d dst, shown s ->
  snd (eof (snd (loop b s need d dst))) <> scanError -> accepts s b.
Proof.
  unfold accepts. induction b as [|c b IH]; intros s need d dst Hs; cbn [indent_loop check_loop].
  - cbn [snd]. destruct (eof s) as [s1 op]. cbn [snd]. intros H.
    now replace (opcode_eqb op scanError) with false by (destruct op; cbn; congruence).
  - pose proof (step_shown (count s) c Hs) as [Hsh Hr].
    destruct (step (count s) c) as [s1 op]. cbn [fst] in Hsh. unfold recorded in Hr. cbn [fst snd] in Hr.
    destruct op; cbn [opcode_eqb]; try (repeat case_if; now apply IH).
    intros H. rewrite eof_error in H by auto. cbn in H. congruence.
Qed.
End Indent.

(** C38: Indentation is pretty-printing.  [appendIndent], with any prefix and indent, writes
    for a JSON text, of whatever layout, the pretty-print of the tree it spells, items one
    a line, each line a new line, the prefix and one indent a depth, empty brackets closed at once, and
    the white space after the value kept; every other input, and one nested deeper than
    10000, is an error. *)
Theorem Indent_pretty b prefix indent :
  (exists t w1 v w2, b = w1 ++ v ++ w2 /\ ws w1 /\ spells t v /\ ws w2 /\
     Z.of_nat (depth t) <= maxNestingDepth /\
     appendIndent b prefix indent = inl (pretty prefix indent 0 t ++ w2)) \/
  ((forall t, json_text t b -> maxNestingDepth < Z.of_nat (depth t)) /\
   exists e, appendIndent b prefix indent = inr e).
Proof.
  assert (Hd : forall t, depth_ok (depth t) [] <-> Z.of_nat (depth t) <= maxNestingDepth)
    by (intros t; unfold depth_ok; cbn; lia).
  destruct (check_loop newScanner b) as [e|] eqn:E.
  - right. split.
    + intros t Ht. destruct (Z.lt_ge_cases maxNestingDepth (Z.of_nat (depth t))) as [|Hle]; [assumption|].
      apply Hd in Hle. pose proof (accepts_json t _ Ht Hle) as H. unfold accepts in H. congruence.
    + unfold appendIndent.
      pose proof (loop_accepts prefix indent b newScanner false 0 [] ltac:(discriminate)) as H.
      destruct (indent_loop b prefix indent newScanner false 0 []) as [dst s]. cbn [snd] in H.
      destruct (eof s) as [s1 op]. cbn [snd] in H.
      destruct (opcode_eqb op scanError) eqn:Eop; [now eexists|].
      exfalso. unfold accepts in H. rewrite E in H. discriminate H. intros ->. discriminate Eop.
  - left. destruct (json_accepts b E) as (t & [w1 v w2 Hw1 Hv Hw2] & Ht).
    exists t, w1, v, w2. repeat split; auto; [now apply Hd|]. now apply appendIndent_pretty.
Qed.

(** ** The indented text spells the same tree *)

Lemma ws_nl prefix indent d : ws prefix -> ws indent -> ws (nl prefix indent d).
Proof.
  intros Hp Hi. unfold nl. apply ws_cons. split; [reflexivity|].
  apply Forall_app. split; [exact Hp|]. induction (Z.to_nat d) as [|k IH]; [constructor|].
  cbn [repeat concat]. apply Forall_app. auto.
Qed.

Lemma pretty_spells prefix indent t : ws prefix -> ws indent -> wf t -> forall d, spells t (pretty prefix indent d t).
Proof.
  intros Hp Hi. pose proof (fun d => ws_nl prefix indent d Hp Hi) as Hn.
  assert (H32 : ws [32]) by now repeat constructor.
  induction t as [b|l IH|l IH] using tree_ind'; intros Hw d; inversion Hw as [? Hb _|? Hl|? Hl]; subst; cbn [pretty].
  - now constructor.
  - destruct l as [|t l]; [apply (spells_arr_empty []), ws_nil|]. cbn [map]. unfold block.
    rewrite app_assoc, (app_assoc _ _ [93]), <- (app_assoc (nl _ _ _)).
    apply spells_arr, elems_lead; [apply Hn|].
    apply (spaced_elems (pretty prefix indent (d + 1)) _ _ (t :: l)); [apply Hn..|discriminate|].
    rewrite Forall_forall in *. auto.
  - destruct l as [|kt l]; [apply (spells_obj_empty []), ws_nil|]. cbn [map]. unfold block.
    rewrite app_assoc, (app_assoc _ _ [125]), <- (app_assoc (nl _ _ _)).
    apply spells_obj, members_lead; [apply Hn|].
    apply (spaced_members (pretty prefix indent (d + 1)) _ _ [32] (kt :: l)); [apply Hn..|exact H32|discriminate|].
    rewrite Forall_forall in *. intros x Hx. split; [now apply Hl|now apply IH, Hl].
Qed.

Lemma pretty_bytes prefix indent t : ws prefix -> ws indent -> wf t ->
  forall d, Forall is_byte (pretty prefix indent d t).
Proof.
  intros Hp Hi. assert (Hn : forall d, Forall is_byte (nl prefix indent d)).
  { intros d. pose proof (ws_nl prefix indent d Hp Hi) as H. revert H. apply Forall_impl.
    intros c Hc. apply isSpace_iff in Hc. unfold is_byte. lia. }
  assert (Hblock : forall o c d l, 32 <= o < 128 -> 32 <= c < 128 -> Forall (Forall is_byte) l ->
            Forall is_byte (block prefix indent o c d l)).
  { intros o c d l Ho Hc Hl. unfold block. destruct l as [|x l]; [repeat constructor; lia|].
    rewrite !(app_assoc _ _ [c]). apply enclosed_bytes; [exact Ho|exact Hc|].
    rewrite !Forall_app. repeat split; auto. apply joined_bytes; [|exact Hl].
    constructor; [apply byte_32; lia|apply Hn]. }
  induction t as [b|l IH|l IH] using tree_ind'; intros Hw d; inversion Hw as [? _ Hb|? Hl|? Hl]; subst; cbn [pretty].
  - exact Hb.
  - apply Hblock; [lia..|]. apply Forall_map. rewrite Forall_forall in *. auto.
  - apply Hblock; [lia..|]. apply Forall_map. rewrite Forall_forall in *. intros kt Hkt.
    destruct (Hl kt Hkt) as [[_ Hk] Ht]. rewrite !Forall_app. repeat split; [exact Hk|repeat constructor; lia|].
    now apply IH.
Qed.
