(* ===== verification/JsonStream.v ===== *)
(** encoding/json, stream.go: [Decoder.Decode] on a request body, for the first value
    of the stream.

    The body is a list of reads, the bytes each call of [Read] returns and the error it
    returns with them; the list ends where the reader does. *)
From Stdlib Require Import ZArith Lia String Ascii Bool List.
From S2P Require Import Prelude GoFloat Strconv Utf8 Scanner JsonDecode.
Import ListNotations.
Local Open Scope Z_scope.

Section Stream.
Context {F : Type} {GS : GoStrconv F}.

(** The error of a read: the end of the body, or another failure. *)
Inductive read_error := EOF | ReadFailed (e : error F).

Definition reads : Type := list (list Z * option read_error).

Definition nonSpace (b : list Z) : bool := existsb (fun c => negb (isSpace c)) b.

(** The text of a read error as [Decode] returns it. *)
Definition io_error (e : read_error) (unexpected : bool) : error F :=
  match e with
  | EOF => if unexpected then ErrNew "unexpected EOF" else ErrNew "EOF"
  | ReadFailed e => e
  end.

(** The inner loop of [readValue] over the bytes of the buffer not yet scanned: the
    value ends after [n] bytes, or a syntax error, or the bytes are used up. *)
Inductive scan_outcome :=
| ValueEnd (n : Z)
| Syntax (e : option SyntaxError)
| NeedMore (s : scanner) (n : Z).

Fixpoint scan_buffer (s : scanner) (b : list Z) (n : Z) : scan_outcome :=
  match b with
  | [] => NeedMore s n
  | c :: b' =>
      let '(s, op) := step (count s) c in
      match op with
      | scanEnd => ValueEnd n
      | scanEndObject | scanEndArray =>
          let '(s, op) := do_EndValue s 32 in
          if opcode_eqb op scanEnd then ValueEnd (n + 1) else scan_buffer s b' (n + 1)
      | scanError => Syntax (err s)
      | _ => scan_buffer s b' (n + 1)
      end
  end.

(** [readValue]: [buf] is what was read so far, [pending] its unscanned end, [e] the
    error of the last read.  The result is the buffer and the length of the value. *)
Fixpoint readValue_loop (rs : reads) (s : scanner) (buf pending : list Z) (n : Z)
    (e : option read_error) : result F (list Z * Z) :=
  match scan_buffer s pending n with
  | ValueEnd n => Ok (buf, n)
  | Syntax (Some se) => Err (syntax_err se)
  | Syntax None => Panic
  | NeedMore s n =>
      match e with
      | Some e =>
          match e with
          | EOF =>
              let '(s, op) := step s 32 in
              if opcode_eqb op scanEnd then Ok (buf, n) else Err (io_error EOF (nonSpace buf))
          | ReadFailed _ => Err (io_error e false)
          end
      | None =>
          match rs with
          | [] => Err (io_error EOF (nonSpace buf))    (* a reader ends with an error *)
          | (b, e) :: rs => readValue_loop rs s (buf ++ b) b n e
          end
      end
  end.

Definition readValue (rs : reads) : result F (list Z * Z) :=
  readValue_loop rs (reset newScanner) [] [] 0 None.

(** [Decode] with [DisallowUnknownFields], as the first call on the decoder. *)
Definition Decoder_Decode (rs : reads) (v : dval F) : result F (dval F) :=
  bind (readValue rs) (fun '(buf, n) => unmarshal (init (slice buf 0 n) true) v).

(** A body that arrives in these pieces, the last of them, which may be empty, together
    with the end of the body or another failure. *)
Definition body_reads (pieces : list (list Z)) (last : list Z) (e : read_error) : reads :=
  (map (fun b => (b, None)) pieces ++ [(last, Some e)])%list.
End Stream.
