(* ===== verification/JsonStreamSpec.v ===== *)
(** The stream decoder reads the first value of a body, however the body arrives. *)
From Stdlib Require Import ZArith Lia String Ascii Bool List.
From S2P Require Import Prelude Strconv Utf8 Scanner JsonGrammar ScannerSpec JsonDecode JsonDecodeSpec.
From S2P Require Import JsonStream.
Import ListNotations.
Local Open Scope Z_scope.

(** * The states of a scanner that has seen no error *)

Inductive running : scanner -> Prop :=
| running_mk f st n :
    f <> stateError -> f <> stateEndTop -> (f = stateBeginValueOrEmpty -> st <> []) -> running (mk f st n)
| running_top n : running (top n).

Lemma running_closed st n : running (closed st n).
Proof. destruct st; [apply running_top|apply running_mk; discriminate]. Qed.
#[export] Hint Resolve running_closed running_top : cam.
#[export] Hint Extern 2 (running (mk _ _ _)) => apply running_mk; discriminate : cam.

(** Past the top-level value. *)
Definition over (s : scanner) : Prop := (exists n, s = top n) \/ sc_step s = stateError.

(** What one step can do: fail, end the value before this byte, close a composite, or
    go on. *)
Inductive stepped (s : scanner) : scanner * opcode -> Prop :=
| stepped_error s' : err s' <> None -> stepped s (s', scanError)
| stepped_end s' : accepts s [] -> snd (step s 32) = scanEnd -> over s' -> stepped s (s', scanEnd)
| stepped_close st n op : op = scanEndObject \/ op = scanEndArray -> stepped s (closed st n, op)
| stepped_on s' op :
    running s' -> op <> scanError -> op <> scanEnd -> op <> scanEndObject -> op <> scanEndArray ->
    stepped s (s', op).

Lemma stepped_s_error s s' c m : stepped s (s_error s' c m).
Proof. apply stepped_error. discriminate. Qed.

Lemma stepped_EndTop s n c : accepts s [] -> snd (step s 32) = scanEnd -> stepped s (do_EndTop (top n) c).
Proof.
  intros H1 H2. unfold do_EndTop. destruct (isSpace c); apply stepped_end; auto.
  - left. now exists n.
  - now right.
Qed.

Lemma on_mk s f st n op :
  f <> stateError -> f <> stateEndTop -> (f = stateBeginValueOrEmpty -> st <> []) ->
  op <> scanError -> op <> scanEnd -> op <> scanEndObject -> op <> scanEndArray ->
  stepped s (mk f st n, op).
Proof. intros. apply stepped_on; auto using running_mk. Qed.

Lemma stepped_EndValue s st f n c :
  (st = [] -> accepts s [] /\ snd (step s 32) = scanEnd) -> stepped s (do_EndValue (mk f st n) c).
Proof.
  intros H. rewrite EndValue_any. destruct st as [|p st].
  { destruct (H eq_refl) as [H1 H2]. now apply stepped_EndTop. }
  unfold do_EndValue, mk. cbn [parseState].
  destruct (isSpace c); [apply (on_mk s stateEndValue (p :: st) n); discriminate|].
  destruct p; repeat case_if; try apply stepped_s_error;
    try (apply on_mk; discriminate).
  - change (popParseState _) with (popParseState (mk stateEndValue (parseObjectValue :: st) n)).
    rewrite pop_closed. apply stepped_close. auto.
  - change (popParseState _) with (popParseState (mk stateEndValue (parseArrayValue :: st) n)).
    rewrite pop_closed. apply stepped_close. auto.
Qed.

Lemma step_stepped s c : running s -> stepped s (step s c).
Proof.
  intros [f st n H1 H2 H3|n]; [|now apply stepped_EndTop].
  assert (Hend : num_end f = true \/ f = stateEndValue -> st = [] ->
            accepts (mk f st n) [] /\ snd (step (mk f st n) 32) = scanEnd).
  { intros Hf ->. destruct f; destruct Hf; try discriminate; split; reflexivity. }
  destruct f; try congruence; unfold step, mk; cbn [sc_step];
    unfold do_BeginValueOrEmpty, do_BeginStringOrEmpty, do_BeginString, do_BeginValue, do_InString,
      do_InStringEsc, do_hex, do_Neg, do_1, do_0, do_Dot, do_Dot0, do_E, do_ESign, do_E0, do_letter,
      pushParseState;
    repeat match goal with
    | |- stepped _ (if ?b then _ else _) => destruct b eqn:?
    end;
    try apply stepped_s_error;
    try (apply stepped_EndValue; intros E; apply Hend; auto; fail);
    try (apply on_mk; discriminate || assumption || (intros _; discriminate)).
  - apply stepped_EndValue. intros ->. now destruct H3.
  - apply (stepped_EndValue _ (parseObjectValue :: tl st) stateBeginStringOrEmpty n). discriminate.
Qed.

Lemma running_count s : running s -> running (count s).
Proof.
  intros [f st n H1 H2 H3|n]; [exact (running_mk f st (n + 1) H1 H2 H3)|exact (running_top (n + 1))].
Qed.

Lemma running_space s : running s -> snd (step s 32) = scanEnd -> accepts s [].
Proof.
  intros H E. pose proof (step_stepped s 32 H) as Hs. destruct Hs as [|? Ha _ _|st n op [-> | ->]|]; cbn in E;
    congruence.
Qed.

(** * The inner loop of [readValue] *)

(** Accepted after one byte more. *)
Lemma accepts_cons s c b s' op :
  step (count s) c = (s', op) -> op <> scanError -> accepts s' b -> accepts s (c :: b).
Proof.
  unfold accepts. cbn [check_loop]. intros -> Hop.
  now replace (opcode_eqb op scanError) with false by (destruct op; cbn; congruence).
Qed.

(** The end of a composite value, seen with an invented space. *)
Lemma closed_space st n :
  do_EndValue (closed st n) 32 =
  (closed st n, match st with [] => scanEnd | _ => scanSkipSpace end).
Proof. now destruct st. Qed.

Definition scanned_to (s : scanner) (b : list Z) (n : Z) (o : scan_outcome) : Prop :=
  match o with
  | ValueEnd m => exists p r, b = p ++ r /\ m = n + len p /\ accepts s p
  | Syntax e => e <> None
  | NeedMore s' m => m = n + len b /\ running s' /\ forall r, accepts s' r -> accepts s (b ++ r)
  end.

Lemma scanned_cons s c b n s' op o :
  step (count s) c = (s', op) -> op <> scanError -> scanned_to s' b (n + 1) o ->
  scanned_to s (c :: b) n o.
Proof.
  intros E Hop. destruct o as [m|e|s2 m]; cbn [scanned_to]; [|auto|].
  - intros (p & r & -> & -> & Ha). exists (c :: p), r. rewrite len_cons. split; [reflexivity|].
    split; [lia|]. now apply (accepts_cons s c p s' op).
  - intros (-> & Hr & Ha). rewrite len_cons. split; [lia|]. split; [exact Hr|].
    intros r Hr'. apply (accepts_cons s c (b ++ r) s' op); auto.
Qed.

Lemma scan_buffer_ok b : forall s n, running s -> scanned_to s b n (scan_buffer s b n).
Proof.
  induction b as [|c b IH]; intros s n Hs; cbn [scan_buffer].
  { cbn. repeat split; [change (len []) with 0; lia|exact Hs|auto]. }
  pose proof (step_stepped (count s) c (running_count s Hs)) as Hst.
  destruct (step (count s) c) as [s1 op] eqn:E.
  inversion Hst as [s' He|s' Ha _ _|st m op' Hop|s' op' Hr H1 H2 H3 H4]; subst.
  - exact He.
  - exists [], (c :: b). repeat split; [change (len []) with 0; lia|].
    apply (accepts_sim [] (count s)); [exact (sim_refl s)|exact Ha].
  - assert (Hgo : scanned_to s (c :: b) n
              (let '(s2, op2) := do_EndValue (closed st m) 32 in
               if opcode_eqb op2 scanEnd then ValueEnd (n + 1) else scan_buffer s2 b (n + 1))).
    { assert (Hne : op <> scanError) by (destruct Hop as [->| ->]; discriminate).
      rewrite closed_space. destruct st as [|p st]; cbn [opcode_eqb].
      - exists [c], b. repeat split. now apply (accepts_cons s c [] _ _ E).
      - apply (scanned_cons s c b n _ _ _ E Hne). apply IH. auto with cam. }
    destruct Hop as [->| ->]; exact Hgo.
  - assert (Hgo : scanned_to s (c :: b) n (scan_buffer s1 b (n + 1)))
      by (eapply (scanned_cons s c b n); [exact E|exact H1|now apply IH]).
    destruct op; congruence || exact Hgo.
Qed.

Lemma scan_buffer_app a : forall s b n,
  scan_buffer s (a ++ b) n =
  match scan_buffer s a n with NeedMore s' n' => scan_buffer s' b n' | o => o end.
Proof.
  induction a as [|c a IH]; intros s b n; cbn [app scan_buffer]; [reflexivity|].
  destruct (step (count s) c) as [s1 op].
  destruct op; try apply IH; try reflexivity;
    destruct (do_EndValue s1 32) as [s2 op2]; case_if; try apply IH; reflexivity.
Qed.

(** * The scanner stops where the value ends *)

Lemma walk_over u : forall s s', over s -> walk 0 s u = Some s' -> over s'.
Proof.
  induction u as [|c u IH]; intros s s' Ho; cbn [walk]; [intros E; now injection E as <-|].
  destruct Ho as [[n ->]|E].
  - unfold step, top. cbn [sc_step]. unfold do_EndTop. destruct (isSpace c); cbn [negb].
    + apply IH. left. now exists n.
    + apply IH. now right.
  - unfold step. rewrite E. discriminate.
Qed.

Lemma sim_mk f st n s : sim (mk f st n) s -> exists m, s = mk f st m.
Proof.
  destruct s as [f' e st' er m]. intros (Hf & He & Hst & Her). cbn in Hf, He, Hst, Her.
  subst f' e st'. exists m. destruct er as [x|]; [|reflexivity].
  discriminate (proj1 Her eq_refl).
Qed.

(** Along a value that does not end yet. *)
Lemma scan_buffer_walk u : forall s s' s1 r n,
  running s -> walk 0 s u = Some s' -> ~ over s' -> sim s s1 ->
  exists s2, sim s' s2 /\ scan_buffer s1 (u ++ r) n = scan_buffer s2 r (n + len u).
Proof.
  induction u as [|c u IH]; intros s s' s1 r n Hr; cbn [walk app].
  { intros E _ H. injection E as <-. exists s1. split; [exact H|]. change (len []) with 0. now rewrite Z.add_0_r. }
  intros E Ho Hsim. pose proof (step_stepped s c Hr) as Hst.
  destruct (step_sim s (count s1) c Hsim) as [Hs Hop]. cbn [scan_buffer].
  destruct (step s c) as [t op] eqn:Es, (step (count s1) c) as [t1 op1]. cbn [fst snd] in Hs, Hop. subst op1.
  assert (Hnext : running t -> exists s2, sim s' s2 /\
            scan_buffer t1 (u ++ r) (n + 1) = scan_buffer s2 r (n + len (c :: u))).
  { intros Ht. case_if_in E; [discriminate|].
    destruct (IH t s' t1 r (n + 1) Ht E Ho Hs) as (s2 & H2 & E2). exists s2. split; [exact H2|].
    rewrite E2, len_cons. f_equal. lia. }
  inversion Hst as [x He|x Ha _ Hov|st m op' Hcl|x op' Hx H1 H2 H3 H4]; subst.
  - discriminate E.
  - exfalso. apply Ho. case_if_in E; [discriminate|]. exact (walk_over u t s' Hov E).
  - destruct st as [|p st].
    + exfalso. apply Ho. case_if_in E; [discriminate|]. refine (walk_over u _ s' _ E). left. now exists m.
    + destruct (Hnext (running_closed _ _)) as (s2 & H2 & E2). exists s2. split; [exact H2|].
      apply sim_mk in Hs as [m1 ->].
      change (mk stateEndValue (p :: st) m1) with (closed (p :: st) m1).
      rewrite closed_space. cbn [opcode_eqb]. destruct Hcl as [->| ->]; exact E2.
  - destruct (Hnext Hx) as (s2 & H5 & E2). exists s2. split; [exact H5|].
    destruct op; congruence || exact E2.
Qed.

Lemma walk_0 k u : forall s x, walk k s u = Some x -> walk 0 s u = Some x.
Proof.
  induction u as [|c u IH]; intros s x; cbn [walk]; [auto|].
  destruct (step s c) as [s1 op]. case_if; [discriminate|]. apply orb_false_iff in Heqb as [-> _].
  cbn [orb Nat.ltb Nat.leb]. apply IH.
Qed.

Lemma walk_high k u : forall s x,
  walk k s u = Some x -> (k <= length (parseState s))%nat -> (k <= length (parseState x))%nat.
Proof.
  induction u as [|c u IH]; intros s x; cbn [walk]; [intros E; now injection E as <-|].
  destruct (step s c) as [s1 op]. case_if; [discriminate|]. apply orb_false_iff in Heqb as [_ E].
  intros Hx _. apply (IH _ _ Hx). now apply Nat.ltb_ge.
Qed.

(** A value that the rest of the text cannot prolong. *)
Definition complete (t : tree) (r : list Z) : Prop :=
  match t with TLit _ => match r with [] => True | c :: _ => delimiter c end | _ => True end.

Lemma walk_text w v s : ws w -> walk 0 (mk stateBeginValue [] 0) v = Some s ->
  walk 0 (mk stateBeginValue [] 0) (w ++ v) = Some s.
Proof. intros Hw E. now rewrite walk_app, walk_ws by first [exact I|assumption|reflexivity]. Qed.

(** * The value of a body *)

Section Stream.
Context {F : Type} {GS : GoStrconv F}.

(** The text [readValue] finds at the head of a body that stops with [e]. *)
Definition stream_value (e : read_error) (b : list Z) : result F (list Z) :=
  match scan_buffer newScanner b 0 with
  | ValueEnd n => Ok (slice b 0 n)
  | Syntax (Some se) => Err (syntax_err se)
  | Syntax None => Panic
  | NeedMore s n =>
      match e with
      | EOF =>
          if opcode_eqb (snd (step s 32)) scanEnd then Ok (slice b 0 n) else Err (io_error EOF (nonSpace b))
      | ReadFailed e => Err e
      end
  end.

Lemma newScanner_running : running newScanner.
Proof. apply (running_mk stateBeginValue [] 0); discriminate. Qed.

Lemma slice_head (p r : list Z) : slice (p ++ r) 0 (len p) = p.
Proof. exact (slice_app [] p r). Qed.

(** A value that ends in what was read does not depend on what comes after. *)
Lemma stream_value_app e b r :
  match scan_buffer newScanner b 0 with
  | ValueEnd n => stream_value e (b ++ r) = Ok (slice b 0 n)
  | Syntax _ => stream_value e (b ++ r) = stream_value e b
  | NeedMore _ _ => True
  end.
Proof.
  pose proof (scan_buffer_ok b newScanner 0 newScanner_running) as Hok. unfold stream_value.
  rewrite scan_buffer_app. destruct (scan_buffer newScanner b 0) as [m|[se|]|s1 n1]; trivial.
  destruct Hok as (p & t & -> & -> & _). rewrite <- app_assoc, !Z.add_0_l. now rewrite !slice_head.
Qed.

Lemma readValue_loop_whole last e pieces : forall s buf pending n pre,
  scan_buffer newScanner pre 0 = NeedMore s n -> buf = pre ++ pending ->
  bind (readValue_loop (body_reads pieces last e) s buf pending n None) (fun '(buf, n) => Ok (slice buf 0 n)) =
  stream_value e (buf ++ concat pieces ++ last).
Proof.
  induction pieces as [|x pieces IH]; intros s buf pending n pre Hpre Hbuf.
  all: assert (Eb : scan_buffer newScanner buf 0 = scan_buffer s pending n)
         by (subst buf; now rewrite scan_buffer_app, Hpre).
  - pose proof (stream_value_app e buf last) as Happ. rewrite Eb in Happ.
    cbn [body_reads map app readValue_loop concat].
    destruct (scan_buffer s pending n) as [m|[se|]|s1 n1]; cbn [bind].
    1: now rewrite Happ. 1,2: rewrite Happ; unfold stream_value; now rewrite Eb.
    unfold stream_value. rewrite scan_buffer_app, Eb.
    destruct (scan_buffer s1 last n1) as [m|[se|]|s2 n2]; try reflexivity.
    destruct e as [|err]; [|reflexivity]. destruct (step s2 32) as [s3 op]. cbn [snd].
    now destruct (opcode_eqb op scanEnd).
  - pose proof (stream_value_app e buf (concat (x :: pieces) ++ last)) as Happ. rewrite Eb in Happ.
    cbn [body_reads map app readValue_loop].
    destruct (scan_buffer s pending n) as [m|[se|]|s1 n1]; cbn [bind].
    1: now rewrite Happ. 1,2: rewrite Happ; unfold stream_value; now rewrite Eb.
    cbn [concat]. rewrite <- app_assoc, (app_assoc buf x). apply (IH s1 (buf ++ x) x n1 buf Eb eq_refl).
Qed.

Lemma decode_whole pieces last e (v : dval F) :
  Decoder_Decode (body_reads pieces last e) v =
  bind (stream_value e (concat pieces ++ last)) (fun b => unmarshal (init b true) v).
Proof.
  unfold Decoder_Decode, readValue.
  pose proof (readValue_loop_whole last e pieces newScanner [] [] 0 [] eq_refl eq_refl) as H. cbn [app] in H.
  rewrite <- H. change (reset newScanner) with newScanner.
  now destruct (readValue_loop (body_reads pieces last e) newScanner [] [] 0 None) as [[buf n]|err|].
Qed.

(** A body that is cut off gives what it gives where it just ends, or the failure. *)
Lemma stream_value_cut e b : stream_value (ReadFailed e) b = stream_value EOF b \/ stream_value (ReadFailed e) b = Err e.
Proof. unfold stream_value. destruct (scan_buffer newScanner b 0) as [m|[se|]|s n]; auto. Qed.

(** What is read is a JSON text, or the error is one of syntax or of the stream. *)
Lemma stream_value_text b :
  (exists p r, b = p ++ r /\ stream_value EOF b = Ok p /\ accepts newScanner p) \/
  exists msg, stream_value EOF b = Err (ErrNew msg).
Proof.
  pose proof (scan_buffer_ok b newScanner 0 newScanner_running) as Hok. unfold stream_value.
  destruct (scan_buffer newScanner b 0) as [m|[e|]|s n]; cbn [scanned_to] in Hok.
  - destruct Hok as (p & r & -> & -> & Ha). left. exists p, r. rewrite Z.add_0_l, slice_head. auto.
  - right. now eexists.
  - congruence.
  - destruct Hok as (-> & Hr & Ha). destruct (opcode_eqb (snd (step s 32)) scanEnd) eqn:E.
    + left. exists b, []. rewrite app_nil_r, Z.add_0_l, slice_all. split; [reflexivity|].
      split; [reflexivity|]. rewrite <- (app_nil_r b). apply Ha, running_space; [exact Hr|].
      now apply opcode_eqb_eq.
    + right. unfold io_error. case_if; now eexists.
Qed.

Lemma stream_value_literal w v r :
  ws w -> literal v -> complete (TLit v) r -> stream_value EOF (w ++ v ++ r) = Ok (w ++ v).
Proof.
  intros Hw Hv Hr. destruct (walk_literal_mk 0 [] 0 (Nat.le_refl 0) v Hv) as (g & E & Hg).
  apply (walk_text w) in E; [|exact Hw]. unfold stream_value. rewrite app_assoc.
  destruct (scan_buffer_walk (w ++ v) _ _ newScanner r 0 newScanner_running E) as (s2 & Hs2 & ->).
  - intros [[m H]|H]; [discriminate H|]. cbn in H. subst g. destruct Hg; discriminate.
  - apply sim_refl.
  - apply sim_mk in Hs2 as [m ->]. rewrite Z.add_0_l.
    assert (He : forall m, ended [] m (mk g [] m)) by (intros; right; eauto).
    destruct r as [|c r]; cbn [scan_buffer].
    + rewrite (ended_step [] m) by (auto; now left). cbn [snd]. rewrite app_nil_r.
      change (opcode_eqb _ scanEnd) with true. cbn iota. now rewrite slice_all.
    + change (count (mk g [] m)) with (mk g [] (m + 1)).
      rewrite (ended_step [] (m + 1)) by auto. unfold step, mk, do_EndValue, do_EndTop.
      cbn [sc_step parseState]. destruct (isSpace c); cbn [negb]; now rewrite slice_head.
Qed.

Lemma stream_value_composite w c0 op0 u c1 r :
  ws w -> encloses [] 0 c0 op0 u c1 -> op0 <> scanError ->
  stream_value EOF (w ++ (c0 :: u ++ [c1]) ++ r) = Ok (w ++ c0 :: u ++ [c1]).
Proof.
  intros Hw (s0 & x & op1 & E0 & El & Hu & E1 & Hop) Hop0.
  assert (E : walk 0 (mk stateBeginValue [] 0) (w ++ c0 :: u) = Some x).
  { apply walk_text; [exact Hw|]. rewrite (walk_step _ _ _ _ _ _ E0) by (auto; lia). now apply walk_0 in Hu. }
  assert (Hx : (1 <= length (parseState x))%nat) by (apply (walk_high _ _ _ _ Hu); rewrite El; auto).
  unfold stream_value.
  replace (w ++ (c0 :: u ++ [c1]) ++ r) with ((w ++ c0 :: u) ++ c1 :: r) by same_place.
  destruct (scan_buffer_walk (w ++ c0 :: u) _ _ newScanner (c1 :: r) 0 newScanner_running E)
    as (s2 & Hs2 & ->).
  - intros [[m ->]|H]; [cbn in Hx; lia|]. unfold step in E1. rewrite H in E1. injection E1 as E1 _.
    rewrite E1 in H. discriminate H.
  - apply sim_refl.
  - cbn [scan_buffer]. destruct (step_sim x (count s2) c1 Hs2) as [Hs Eop]. rewrite E1 in Hs, Eop.
    destruct (step (count s2) c1) as [t op]. cbn [fst snd] in Hs, Eop. subst op.
    assert (Ht : exists m, t = top m).
    { destruct t as [f e st er m]. destruct Hs as (Hf & He & Hst & Her). cbn in Hf, He, Hst, Her.
      subst f e st. exists m. destruct er as [y|]; [|reflexivity]. discriminate (proj1 Her eq_refl). }
    destruct Ht as [m ->]. change (do_EndValue (top m) 32) with (top m, scanEnd).
    replace ((w ++ c0 :: u) ++ c1 :: r) with ((w ++ c0 :: u ++ [c1]) ++ r) by same_place.
    replace (0 + len (w ++ c0 :: u) + 1) with (len (w ++ c0 :: u ++ [c1])) by same_place.
    destruct Hop as [->| ->]; cbn [opcode_eqb]; now rewrite slice_head.
Qed.

Lemma stream_value_at w t v r :
  ws w -> spells t v -> Z.of_nat (depth t) <= maxNestingDepth -> complete t r ->
  stream_value EOF (w ++ v ++ r) = Ok (w ++ v).
Proof.
  intros Hw Hv Hd Hr. assert (Hd' : depth_ok (depth t) []) by (unfold depth_ok; cbn; lia).
  destruct t as [b|l|l].
  - inversion Hv; subst. now apply stream_value_literal.
  - destruct (array_encloses l v [] 0 Hv Hd') as (u & -> & Hu).
    now apply (stream_value_composite w _ _ _ _ _ Hw Hu).
  - destruct (object_encloses l v [] 0 Hv Hd') as (u & -> & Hu).
    now apply (stream_value_composite w _ _ _ _ _ Hw Hu).
Qed.

(** C28: decoding a request body.  However the body is cut into reads, whether its last
    bytes come alone or together with the end of the body, [Decode] gives what it gives on
    the body in one piece; the same holds where the body breaks off with another failure,
    and then it is that failure or what the body would give if it ended there.  When the
    body starts with a value, after white space, [Decode] does what [store] does with the
    tree of that value, unknown keys being errors, and never looks at what follows.  In
    every case it either decodes a JSON text the body starts with, or reports an error of
    syntax or the end of the stream.  It never panics. *)
Theorem Decode_refines (pieces : list string) (last : string) (x : dval F) :
  let body := concat (map bytes pieces) ++ bytes last in
  let whole := Decoder_Decode (body_reads [body] [] EOF) x in
  Decoder_Decode (body_reads (map bytes pieces) (bytes last) EOF) x = whole /\
  (forall e, let cut := Decoder_Decode (body_reads (map bytes pieces) (bytes last) (ReadFailed e)) x in
     cut = Decoder_Decode (body_reads [body] [] (ReadFailed e)) x /\ (cut = whole \/ cut = Err e)) /\
  (forall w t v r, body = w ++ v ++ r -> ws w -> spells t v ->
     Z.of_nat (depth t) <= maxNestingDepth -> complete t r -> whole = decoded_tree t true x) /\
  ((exists p r t, body = p ++ r /\ json_text t p /\ Z.of_nat (depth t) <= maxNestingDepth /\
      whole = decoded_tree t true x) \/
   exists msg, whole = Err (ErrNew msg)).
Proof.
  intros body whole. unfold whole. rewrite !decode_whole. cbn [concat]. rewrite !app_nil_r. fold body.
  assert (Hb : Forall is_byte body).
  { apply Forall_app. split; [|apply bytes_range].
    apply Forall_concat, Forall_map, Forall_forall. intros s _. apply bytes_range. }
  split; [reflexivity|]. split; [|split].
  - intros e. cbn zeta. rewrite !decode_whole. cbn [concat]. rewrite !app_nil_r. split; [reflexivity|]. fold body.
    destruct (stream_value_cut e body) as [-> | ->]; auto.
  - intros w t v r Eb Hw Hv Hd Hr. rewrite Eb, (stream_value_at w t v r) by assumption. cbn [bind].
    apply unmarshal_tree.
    + rewrite <- (app_nil_r v). constructor; [exact Hw|exact Hv|constructor].
    + unfold depth_ok. cbn. lia.
    + rewrite Eb, app_assoc in Hb. now apply Forall_app in Hb.
  - destruct (stream_value_text body) as [(p & r & Eb & -> & Ha)|[msg ->]].
    + left. apply json_accepts in Ha as (t & Ht & Hd). exists p, r, t.
      repeat split; [exact Eb|exact Ht|unfold depth_ok in Hd; cbn in Hd; lia|].
      apply unmarshal_tree; [exact Ht|exact Hd|]. rewrite Eb in Hb. now apply Forall_app in Hb.
    + right. now exists msg.
Qed.

Lemma Decode_total (s : string) (v : dval F) : Decoder_Decode (body_reads [] (bytes s) EOF) v <> Panic.
Proof.
  rewrite decode_whole. cbn [concat app].
  destruct (stream_value_text (bytes s)) as [(p & r & Eb & -> & Ha)|[msg ->]]; [|discriminate].
  apply unmarshal_total; [|exact Ha]. pose proof (bytes_range s) as H. rewrite Eb in H.
  now apply Forall_app in H.
Qed.
End Stream.
