(* ===== verification/GoStrings.v ===== *)
(** Package strings on Go strings as byte lists: what net/url, path and net/http use of it.
    Where Go's function returns an index or -1, the model returns an option. *)
From Stdlib Require Import ZArith Lia String Bool List.
From S2P Require Import Prelude Strconv Utf8.
Import ListNotations.
Local Open Scope Z_scope.

(** ASCII bytes by name. *)
Notation slash := 47 (only parsing).
Notation percent := 37 (only parsing).
Notation colon := 58 (only parsing).
Notation ampersand := 38 (only parsing).
Notation equals := 61 (only parsing).
Notation semicolon := 59 (only parsing).
Notation question := 63 (only parsing).
Notation at_sign := 64 (only parsing).
Notation hash := 35 (only parsing).
Notation dot := 46 (only parsing).
Notation plus_sign := 43 (only parsing).
Notation space := 32 (only parsing).
Notation star := 42 (only parsing).
Notation lbracket := 91 (only parsing).
Notation rbracket := 93 (only parsing).
Notation lbrace := 123 (only parsing).
Notation rbrace := 125 (only parsing).
Notation dollar := 36 (only parsing).

(** [a == b] on strings. *)
Definition str_eqb (a b : list Z) : bool := if list_eq_dec Z.eq_dec a b then true else false.

Lemma str_eqb_eq a b : str_eqb a b = true <-> a = b.
Proof. unfold str_eqb. destruct (list_eq_dec Z.eq_dec a b); split; congruence. Qed.

Lemma str_eqb_refl a : str_eqb a a = true.
Proof. now apply str_eqb_eq. Qed.

Lemma str_eqb_neq a b : str_eqb a b = false <-> a <> b.
Proof. unfold str_eqb. destruct (list_eq_dec Z.eq_dec a b); split; congruence. Qed.

Lemma str_eqb_spec a b : reflect (a = b) (str_eqb a b).
Proof. unfold str_eqb. destruct (list_eq_dec Z.eq_dec a b); now constructor. Qed.

Lemma eq_str_eqb a b : a = b -> str_eqb a b = true.
Proof. apply str_eqb_eq. Qed.

Lemma neq_str_eqb a b : a <> b -> str_eqb a b = false.
Proof. apply str_eqb_neq. Qed.

(** * Package strings *)

Fixpoint HasPrefix (s prefix : list Z) {struct prefix} : bool :=
  match prefix, s with
  | [], _ => true
  | p :: prefix', c :: s' => (c =? p) && HasPrefix s' prefix'
  | _ :: _, [] => false
  end.

Definition HasSuffix (s suffix : list Z) : bool := HasPrefix (rev s) (rev suffix).

Definition CutSuffix (s suffix : list Z) : list Z * bool :=
  if negb (HasSuffix s suffix) then (s, false)
  else (firstn (length s - length suffix) s, true).

Fixpoint IndexByte (s : list Z) (c : Z) : option nat :=
  match s with
  | [] => None
  | x :: s' => if x =? c then Some O else option_map S (IndexByte s' c)
  end.

(** The first place where [substr] begins. *)
Fixpoint Index (s substr : list Z) : option nat :=
  if HasPrefix s substr then Some O
  else match s with
       | [] => None
       | _ :: s' => option_map S (Index s' substr)
       end.

Definition Contains (s substr : list Z) : bool :=
  match Index s substr with Some _ => true | None => false end.

(** [LastIndex] of a string of one byte. *)
Fixpoint LastIndexByte (s : list Z) (c : Z) : option nat :=
  match s with
  | [] => None
  | x :: s' =>
      match LastIndexByte s' c with
      | Some i => Some (S i)
      | None => if x =? c then Some O else None
      end
  end.

(** [Count] of a string of one byte. *)
Fixpoint CountByte (s : list Z) (c : Z) : nat :=
  match s with
  | [] => O
  | x :: s' => ((if (x =? c)%Z then 1 else 0) + CountByte s' c)%nat
  end.

Definition Cut (s sep : list Z) : list Z * list Z * bool :=
  match Index s sep with
  | Some i => (firstn i s, skipn (i + length sep) s, true)
  | None => (s, [], false)
  end.

(** [ToLower] of an ASCII string; the only one it is applied to is a scheme. *)
Definition ToLower_ascii (s : list Z) : list Z :=
  map (fun c => if (65 <=? c) && (c <=? 90) then c + 32 else c) s.

(** [Join]. *)
Fixpoint Join (elems : list (list Z)) (sep : list Z) : list Z :=
  match elems with
  | [] => []
  | [e] => e
  | e :: elems' => e ++ sep ++ Join elems' sep
  end.

(** * Their behaviour *)

Lemma HasPrefix_spec s p : HasPrefix s p = true <-> exists t, s = p ++ t.
Proof.
  revert s. induction p as [|c p IH]; intros s; cbn [HasPrefix].
  - split; [intros _; now exists s|]. now destruct s.
  - destruct s as [|d s]; [split; [discriminate|intros (t & E); discriminate E]|].
    cbn [HasPrefix]. rewrite andb_true_iff, Z.eqb_eq, IH. split.
    + intros (-> & t & ->). now exists t.
    + intros (t & E). injection E as -> ->. split; [reflexivity|now exists t].
Qed.

Lemma HasPrefix_app p t : HasPrefix (p ++ t) p = true.
Proof. apply HasPrefix_spec. now exists t. Qed.

Lemma Index_byte_none s c : ~ In c s -> Index s [c] = None.
Proof.
  induction s as [|x s IH]; intros H; [reflexivity|].
  cbn [Index HasPrefix]. destruct (Z.eqb_spec x c) as [->|_]; [exfalso; apply H; now left|].
  cbn [andb]. rewrite IH; [reflexivity|]. intros Hi. apply H. now right.
Qed.

Lemma Index_byte_app u v c : ~ In c u -> Index (u ++ c :: v) [c] = Some (length u).
Proof.
  induction u as [|x u IH]; intros H; [cbn; now rewrite Z.eqb_refl|].
  cbn [Index HasPrefix app]. destruct (Z.eqb_spec x c) as [->|_]; [exfalso; apply H; now left|].
  cbn [andb]. rewrite IH; [reflexivity|]. intros Hi. apply H. now right.
Qed.

Lemma IndexByte_none s c : ~ In c s -> IndexByte s c = None.
Proof.
  induction s as [|x s IH]; intros H; [reflexivity|].
  cbn. destruct (Z.eqb_spec x c) as [->|_]; [exfalso; apply H; now left|].
  rewrite IH; [reflexivity|]. intros Hi. apply H. now right.
Qed.

Lemma IndexByte_app u v c : ~ In c u -> IndexByte (u ++ c :: v) c = Some (length u).
Proof.
  induction u as [|x u IH]; intros H; [cbn; now rewrite Z.eqb_refl|].
  cbn. destruct (Z.eqb_spec x c) as [->|_]; [exfalso; apply H; now left|].
  rewrite IH; [reflexivity|]. intros Hi. apply H. now right.
Qed.

(** A string either lacks a byte or splits at its first occurrence. *)
Lemma first_byte (c : Z) s : ~ In c s \/ exists u v, s = u ++ c :: v /\ ~ In c u.
Proof.
  induction s as [|x s IH]; [left; auto|].
  destruct (Z.eq_dec x c) as [->|Hx]; [right; now exists [], s|].
  destruct IH as [H|(u & v & -> & H)].
  - left. intros [E|E]; contradiction.
  - right. exists (x :: u), v. split; [reflexivity|]. intros [E|E]; contradiction.
Qed.

Lemma firstn_length_app {A} (u v : list A) : firstn (length u) (u ++ v) = u.
Proof. rewrite firstn_app, Nat.sub_diag, firstn_all. cbn. apply app_nil_r. Qed.

Lemma skipn_length_app {A} (u v : list A) : skipn (length u) (u ++ v) = v.
Proof. rewrite skipn_app, Nat.sub_diag, skipn_all. reflexivity. Qed.

Lemma Cut_none s c : ~ In c s -> Cut s [c] = (s, [], false).
Proof. intros H. unfold Cut. now rewrite Index_byte_none. Qed.

Lemma Cut_app u v c : ~ In c u -> Cut (u ++ c :: v) [c] = (u, v, true).
Proof.
  intros H. unfold Cut. rewrite Index_byte_app by exact H. rewrite firstn_length_app.
  replace (length u + length [c])%nat with (length (u ++ [c])) by (rewrite length_app; reflexivity).
  replace (u ++ c :: v) with ((u ++ [c]) ++ v) by (rewrite <- app_assoc; reflexivity).
  now rewrite skipn_length_app.
Qed.

Lemma Contains_byte s c : Contains s [c] = true <-> In c s.
Proof.
  unfold Contains. destruct (first_byte c s) as [H|(u & v & -> & H)].
  - rewrite Index_byte_none by exact H. split; [discriminate|contradiction].
  - rewrite Index_byte_app by exact H. split; [|reflexivity]. intros _. apply in_or_app. right. now left.
Qed.

Lemma not_Contains s c : ~ In c s -> Contains s [c] = false.
Proof. intros H. apply not_true_iff_false. now rewrite Contains_byte. Qed.

Lemma CountByte_app u v c : CountByte (u ++ v) c = (CountByte u c + CountByte v c)%nat.
Proof. induction u as [|x u IH]; cbn; [reflexivity|]. rewrite IH. lia. Qed.

Lemma CountByte_none s c : ~ In c s -> CountByte s c = O.
Proof.
  induction s as [|x s IH]; intros H; [reflexivity|].
  cbn. destruct (Z.eqb_spec x c) as [->|_]; [exfalso; apply H; now left|].
  apply IH. intros Hi. apply H. now right.
Qed.

(** ** Splitting at a byte *)

(** The texts between the occurrences of [c]: the reference for loops over [Cut]. *)
Fixpoint split_at (c : Z) (s : list Z) : list (list Z) :=
  match s with
  | [] => [[]]
  | x :: s' =>
      if x =? c then [] :: split_at c s'
      else match split_at c s' with
           | f :: fs => (x :: f) :: fs
           | [] => [[x]]
           end
  end.

Lemma Join_more c s l : Join (s :: l) [c] = s ++ flat_map (cons c) l.
Proof.
  revert s. induction l as [|t l IH]; intros s; [cbn; now rewrite app_nil_r|].
  change (Join (s :: t :: l) [c]) with (s ++ c :: Join (t :: l) [c]). now rewrite IH.
Qed.

Lemma split_at_cons c s : exists f fs, split_at c s = f :: fs.
Proof.
  destruct s as [|x s]; cbn; [eauto|]. case_if; [eauto|]. destruct (split_at c s); eauto.
Qed.

Lemma split_at_none c s : ~ In c s -> split_at c s = [s].
Proof.
  induction s as [|x s IH]; intros H; [reflexivity|].
  cbn. destruct (Z.eqb_spec x c) as [->|_]; [exfalso; apply H; now left|].
  rewrite IH; [reflexivity|]. intros Hi. apply H. now right.
Qed.

Lemma split_at_app c u v : ~ In c u -> split_at c (u ++ c :: v) = u :: split_at c v.
Proof.
  induction u as [|x u IH]; intros H; cbn; [now rewrite Z.eqb_refl|].
  destruct (Z.eqb_spec x c) as [->|_]; [exfalso; apply H; now left|].
  rewrite IH; [reflexivity|]. intros Hi. apply H. now right.
Qed.

Lemma split_at_Join c l :
  l <> [] -> Forall (fun f => ~ In c f) l -> split_at c (Join l [c]) = l.
Proof.
  intros Hl H. induction H as [|f l Hf H IH]; [contradiction|].
  destruct l as [|g l]; [now apply split_at_none|].
  change (Join (f :: g :: l) [c]) with (f ++ c :: Join (g :: l) [c]).
  rewrite split_at_app by exact Hf. f_equal. apply IH. discriminate.
Qed.

Lemma split_at_free c s : Forall (fun f => ~ In c f) (split_at c s).
Proof.
  induction s as [|x s IH]; cbn; [repeat constructor; auto|].
  destruct (Z.eqb_spec x c) as [->|Hx]; [constructor; auto|].
  destruct (split_at_cons c s) as (f & fs & E). rewrite E in *. inversion IH; subst.
  constructor; [intros [E'|E']; contradiction|assumption].
Qed.

Lemma Join_split_at c s : Join (split_at c s) [c] = s.
Proof.
  induction s as [|x s IH]; [reflexivity|].
  cbn. destruct (Z.eqb_spec x c) as [->|Hx].
  - destruct (split_at_cons c s) as (f & fs & E). rewrite E in *.
    change (Join ([] :: f :: fs) [c]) with (c :: Join (f :: fs) [c]). now rewrite IH.
  - destruct (split_at_cons c s) as (f & fs & E). rewrite E in *.
    destruct fs as [|g fs]; cbn in *; now rewrite <- IH.
Qed.

Lemma split_at_app_last c s t : ~ In c t -> split_at c (s ++ c :: t) = split_at c s ++ [t].
Proof.
  intros Ht. induction s as [|x s IH]; cbn.
  - rewrite Z.eqb_refl. now rewrite split_at_none.
  - case_if; rewrite IH; [reflexivity|]. now destruct (split_at_cons c s) as (f & fs & ->).
Qed.
