(* ===== verification/Url.v ===== *)
(** Package net/url, url.go: escaping, parsing of URLs and of queries, and back.

    Strings are byte lists.  A function that returns an error returns a sum, the error on
    the left; none of these panics. *)
From stdpp Require Import gmap.
From Stdlib Require Import ZArith Lia String Bool List.
From S2P Require Import Prelude Strconv Utf8 GoStrings.
Import ListNotations.
Local Open Scope Z_scope.

Declare Scope url_scope.
Delimit Scope url_scope with url.
Local Open Scope url_scope.

(** * Errors *)

Inductive url_error :=
| EscapeError (s : list Z)
| InvalidHostError (s : list Z)
| InvalidPort (colonPort : list Z)      (* fmt.Errorf("invalid port %q after host") *)
| UrlErr (msg : string)                 (* errors.New *)
| UrlError (op : string) (url : list Z) (err : url_error).   (* &Error{...} *)

Notation "'or_error' A" := (sum url_error A) (at level 10) : type_scope.

Definition let_ok {A B} (m : or_error A) (k : A -> or_error B) : or_error B :=
  match m with inl e => inl e | inr a => k a end.
Notation "'ok' x <- m ; k" := (let_ok m (fun x => k))
  (at level 10, x pattern, m at level 100, k at level 200) : url_scope.

(** * Escaping *)

Definition upperhex : list Z := bytes "0123456789ABCDEF".

Definition ishex (c : Z) : bool :=
  (48 <=? c) && (c <=? 57) || (97 <=? c) && (c <=? 102) || (65 <=? c) && (c <=? 70).

Definition unhex (c : Z) : Z :=
  if (48 <=? c) && (c <=? 57) then c - 48
  else if (97 <=? c) && (c <=? 102) then c - 97 + 10
  else if (65 <=? c) && (c <=? 70) then c - 65 + 10
  else 0.

Inductive encoding :=
  encodePath | encodePathSegment | encodeHost | encodeZone | encodeUserPassword
| encodeQueryComponent | encodeFragment.

Definition is_query (mode : encoding) : bool :=
  match mode with encodeQueryComponent => true | _ => false end.
Definition is_host_or_zone (mode : encoding) : bool :=
  match mode with encodeHost | encodeZone => true | _ => false end.

(** [switch c { case ... }] on a list of bytes. *)
Definition one_of (c : Z) (l : string) : bool := existsb (Z.eqb c) (bytes l).

Definition alphanum (c : Z) : bool :=
  (97 <=? c) && (c <=? 122) || (65 <=? c) && (c <=? 90) || (48 <=? c) && (c <=? 57).

Definition shouldEscape (c : Z) (mode : encoding) : bool :=
  if alphanum c then false
  else if is_host_or_zone mode && (one_of c "!$&'()*+,;=:[]<>" || (c =? 34)) then false
  else if one_of c "-_.~" then false
  else
    let tail :=
      match mode with
      | encodeFragment => negb (one_of c "!()*")
      | _ => true
      end in
    if one_of c "$&+,/:;=?@" then
      match mode with
      | encodePath => c =? question
      | encodePathSegment => (c =? slash) || (c =? semicolon) || (c =? 44) || (c =? question)
      | encodeUserPassword => (c =? at_sign) || (c =? slash) || (c =? question) || (c =? colon)
      | encodeQueryComponent => true
      | encodeFragment => false
      | encodeHost | encodeZone => tail
      end
    else tail.

(** The byte two hexadecimal digits stand for. *)
Definition hexbyte (a b : Z) : Z := Z.lor (byte_ (Z.shiftl (unhex a) 4)) (unhex b).

(** The first loop of [unescape]: the number of escapes, and whether a plus stands for a
    space, or the first error. *)
Fixpoint check_escapes (mode : encoding) (s : list Z) (n : Z) (hasPlus : bool) : or_error (Z * bool) :=
  match s with
  | [] => inr (n, hasPlus)
  | c :: s' =>
      if c =? percent then
        match s' with
        | a :: b :: s'' =>
            if negb (ishex a) || negb (ishex b) then inl (EscapeError [c; a; b])
            else
              let is25 := (a =? 50) && (b =? 53) in
              match mode with
              | encodeHost =>
                  if (unhex a <? 8) && negb is25 then inl (EscapeError [c; a; b])
                  else check_escapes mode s'' (n + 1) hasPlus
              | encodeZone =>
                  let v := hexbyte a b in
                  if negb is25 && negb (v =? space) && shouldEscape v encodeHost
                  then inl (EscapeError [c; a; b])
                  else check_escapes mode s'' (n + 1) hasPlus
              | _ => check_escapes mode s'' (n + 1) hasPlus
              end
        | _ => inl (EscapeError s)
        end
      else if c =? plus_sign then check_escapes mode s' n (is_query mode)
      else if is_host_or_zone mode && (c <? 0x80) && shouldEscape c mode
      then inl (InvalidHostError [c])
      else check_escapes mode s' n hasPlus
  end.

(** The second loop, on a string that passed the first. *)
Fixpoint decode_escapes (mode : encoding) (s : list Z) : list Z :=
  match s with
  | [] => []
  | c :: s' =>
      if c =? percent then
        match s' with
        | a :: b :: s'' => hexbyte a b :: decode_escapes mode s''
        | _ => []
        end
      else if c =? plus_sign then
        (if is_query mode then space else plus_sign) :: decode_escapes mode s'
      else c :: decode_escapes mode s'
  end.

Definition unescape (s : list Z) (mode : encoding) : or_error (list Z) :=
  ok (n, hasPlus) <- check_escapes mode s 0 false;
  inr (if (n =? 0) && negb hasPlus then s else decode_escapes mode s).

Definition QueryUnescape (s : list Z) : or_error (list Z) := unescape s encodeQueryComponent.
Definition PathUnescape (s : list Z) : or_error (list Z) := unescape s encodePathSegment.

(** The number of bytes written as a plus, and as an escape. *)
Fixpoint count_escapes (mode : encoding) (s : list Z) (spaceCount hexCount : Z) : Z * Z :=
  match s with
  | [] => (spaceCount, hexCount)
  | c :: s' =>
      if shouldEscape c mode then
        if (c =? space) && is_query mode then count_escapes mode s' (spaceCount + 1) hexCount
        else count_escapes mode s' spaceCount (hexCount + 1)
      else count_escapes mode s' spaceCount hexCount
  end.

Definition hexdigit (d : Z) : Z := nth (Z.to_nat d) upperhex 0.

Definition escape_byte (mode : encoding) (c : Z) : list Z :=
  if (c =? space) && is_query mode then [plus_sign]
  else if shouldEscape c mode
  then [percent; hexdigit (Z.shiftr c 4); hexdigit (Z.land c 15)]
  else [c].

Definition escape (s : list Z) (mode : encoding) : list Z :=
  let '(spaceCount, hexCount) := count_escapes mode s 0 0 in
  if (spaceCount =? 0) && (hexCount =? 0) then s
  else if hexCount =? 0 then map (fun c => if c =? space then plus_sign else c) s
  else flat_map (escape_byte mode) s.

Definition QueryEscape (s : list Z) : list Z := escape s encodeQueryComponent.
Definition PathEscape (s : list Z) : list Z := escape s encodePathSegment.

(** * URLs *)

Record Userinfo := mkUserinfo { username : list Z; password : list Z; passwordSet : bool }.

Record URL := mkURL {
  Scheme : list Z;
  Opaque : list Z;
  User : option Userinfo;
  Host : list Z;
  Path : list Z;
  RawPath : list Z;
  OmitHost : bool;
  ForceQuery : bool;
  RawQuery : list Z;
  Fragment : list Z;
  RawFragment : list Z
}.

Definition zero_URL : URL := mkURL [] [] None [] [] [] false false [] [] [].

Definition nonempty (s : list Z) : bool := match s with [] => false | _ => true end.

Definition Userinfo_String (u : Userinfo) : list Z :=
  let s := escape (username u) encodeUserPassword in
  if passwordSet u then s ++ colon :: escape (password u) encodeUserPassword else s.

(** [getScheme] from index [i]; [before] is [rawURL[:i]]. *)
Fixpoint getScheme_from (rawURL before s : list Z) : or_error (list Z * list Z) :=
  match s with
  | [] => inr ([], rawURL)
  | c :: s' =>
      if (97 <=? c) && (c <=? 122) || (65 <=? c) && (c <=? 90)
      then getScheme_from rawURL (before ++ [c]) s'
      else if (48 <=? c) && (c <=? 57) || (c =? plus_sign) || (c =? 45) || (c =? dot) then
        if negb (nonempty before) then inr ([], rawURL)
        else getScheme_from rawURL (before ++ [c]) s'
      else if c =? colon then
        if negb (nonempty before) then inl (UrlErr "missing protocol scheme")
        else inr (before, s')
      else inr ([], rawURL)
  end.

Definition getScheme (rawURL : list Z) : or_error (list Z * list Z) :=
  getScheme_from rawURL [] rawURL.

Definition stringContainsCTLByte (s : list Z) : bool :=
  existsb (fun b => (b <? space) || (b =? 0x7f)) s.

(** [validOptionalPort] ranges over the runes of the port; an ASCII range test holds of a
    rune when it holds of its byte. *)
Definition validOptionalPort (port : list Z) : bool :=
  match port with
  | [] => true
  | c :: digits =>
      if negb (c =? colon) then false
      else forallb (fun '(b, _) => negb ((b <? 48) || (57 <? b))) (runes digits)
  end.

Definition validUserinfo (s : list Z) : bool :=
  forallb (fun '(r, _) => alphanum r || one_of r "-._:~!$&'()*+,;=%@") (runes s).

Definition parseHost (host : list Z) : or_error (list Z) :=
  if HasPrefix host [lbracket] then
    match LastIndexByte host rbracket with
    | None => inl (UrlErr "missing ']' in host")
    | Some i =>
        let colonPort := skipn (i + 1) host in
        if negb (validOptionalPort colonPort) then inl (InvalidPort colonPort)
        else
          match Index (firstn i host) (bytes "%25") with
          | Some zone =>
              ok host1 <- unescape (firstn zone host) encodeHost;
              ok host2 <- unescape (skipn zone (firstn i host)) encodeZone;
              ok host3 <- unescape (skipn i host) encodeHost;
              inr (host1 ++ host2 ++ host3)
          | None => unescape host encodeHost
          end
    end
  else
    match LastIndexByte host colon with
    | Some i =>
        let colonPort := skipn i host in
        if negb (validOptionalPort colonPort) then inl (InvalidPort colonPort)
        else unescape host encodeHost
    | None => unescape host encodeHost
    end.

Definition parseAuthority (authority : list Z) : or_error (option Userinfo * list Z) :=
  match LastIndexByte authority at_sign with
  | None => ok host <- parseHost authority; inr (None, host)
  | Some i =>
      ok host <- parseHost (skipn (i + 1) authority);
      let userinfo := firstn i authority in
      if negb (validUserinfo userinfo) then inl (UrlErr "net/url: invalid userinfo")
      else if negb (Contains userinfo [colon]) then
        ok name <- unescape userinfo encodeUserPassword;
        inr (Some (mkUserinfo name [] false), host)
      else
        let '(name, pass, _) := Cut userinfo [colon] in
        ok name' <- unescape name encodeUserPassword;
        ok pass' <- unescape pass encodeUserPassword;
        inr (Some (mkUserinfo name' pass' true), host)
  end.

Definition setPath (u : URL) (p : list Z) : or_error URL :=
  ok path <- unescape p encodePath;
  inr (mkURL (Scheme u) (Opaque u) (User u) (Host u) path
         (if str_eqb p (escape path encodePath) then [] else p)
         (OmitHost u) (ForceQuery u) (RawQuery u) (Fragment u) (RawFragment u)).

Definition setFragment (u : URL) (f : list Z) : or_error URL :=
  ok frag <- unescape f encodeFragment;
  inr (mkURL (Scheme u) (Opaque u) (User u) (Host u) (Path u) (RawPath u)
         (OmitHost u) (ForceQuery u) (RawQuery u) frag
         (if str_eqb f (escape frag encodeFragment) then [] else f)).

(** A byte that [validEncoded] lets pass. *)
Definition valid_byte (mode : encoding) (c : Z) : bool :=
  one_of c "!$&'()*+,;=:@" || one_of c "[]" || (c =? percent) || negb (shouldEscape c mode).

Definition validEncoded (s : list Z) (mode : encoding) : bool := forallb (valid_byte mode) s.

(** [p, err := unescape(raw, mode); err == nil && p == decoded]. *)
Definition decodes_to (raw decoded : list Z) (mode : encoding) : bool :=
  match unescape raw mode with inr p => str_eqb p decoded | inl _ => false end.

Definition EscapedPath (u : URL) : list Z :=
  if nonempty (RawPath u) && validEncoded (RawPath u) encodePath
     && decodes_to (RawPath u) (Path u) encodePath
  then RawPath u
  else if str_eqb (Path u) [star] then [star]
  else escape (Path u) encodePath.

Definition EscapedFragment (u : URL) : list Z :=
  if nonempty (RawFragment u) && validEncoded (RawFragment u) encodeFragment
     && decodes_to (RawFragment u) (Fragment u) encodeFragment
  then RawFragment u
  else escape (Fragment u) encodeFragment.

(** [parse] up to the query: the scheme, [ForceQuery], the query and the rest. *)
Definition split_query (rest : list Z) : bool * list Z * list Z :=
  if HasSuffix rest [question] && (CountByte rest question =? 1)%nat
  then (true, [], firstn (length rest - 1) rest)
  else let '(rest', query, _) := Cut rest [question] in (false, query, rest').

Definition parse (rawURL : list Z) (viaRequest : bool) : or_error URL :=
  if stringContainsCTLByte rawURL
  then inl (UrlErr "net/url: invalid control character in URL")
  else if negb (nonempty rawURL) && viaRequest then inl (UrlErr "empty url")
  else if str_eqb rawURL [star]
  then inr (mkURL [] [] None [] [star] [] false false [] [] [])
  else
    ok (scheme0, rest0) <- getScheme rawURL;
    let scheme := ToLower_ascii scheme0 in
    let '(forceQuery, rawQuery, rest) := split_query rest0 in
    let opaque := inr (mkURL scheme rest None [] [] [] false forceQuery rawQuery [] []) in
    let with_path rest :=
      if (nonempty scheme || negb viaRequest && negb (HasPrefix rest (bytes "///")))
         && HasPrefix rest (bytes "//")
      then
        let authority := skipn 2 rest in
        let '(authority, rest) :=
          match Index authority [slash] with
          | Some i => (firstn i authority, skipn i authority)
          | None => (authority, [])
          end in
        ok (user, host) <- parseAuthority authority;
        setPath (mkURL scheme [] user host [] [] false forceQuery rawQuery [] []) rest
      else
        setPath (mkURL scheme [] None [] [] []
                   (nonempty scheme && HasPrefix rest [slash]) forceQuery rawQuery [] []) rest in
    if negb (HasPrefix rest [slash]) then
      if nonempty scheme then opaque
      else if viaRequest then inl (UrlErr "invalid URI for request")
      else
        let '(segment, _, _) := Cut rest [slash] in
        if Contains segment [colon]
        then inl (UrlErr "first path segment in URL cannot contain colon")
        else with_path rest
    else with_path rest.

Definition parse_error (url : list Z) {A} (r : or_error A) : or_error A :=
  match r with inl e => inl (UrlError "parse" url e) | inr a => inr a end.

Definition Parse (rawURL : list Z) : or_error URL :=
  let '(u, frag, _) := Cut rawURL [hash] in
  ok url <- parse_error u (parse u false);
  if negb (nonempty frag) then inr url else parse_error rawURL (setFragment url frag).

Definition ParseRequestURI (rawURL : list Z) : or_error URL :=
  parse_error rawURL (parse rawURL true).

(** [String]: [buf] is what was written before the path. *)
Definition URL_String (u : URL) : list Z :=
  let buf := if nonempty (Scheme u) then Scheme u ++ [colon] else [] in
  let has_user := match User u with Some _ => true | None => false end in
  let buf :=
    if nonempty (Opaque u) then buf ++ Opaque u
    else
      let buf :=
        if nonempty (Scheme u) || nonempty (Host u) || has_user then
          if OmitHost u && negb (nonempty (Host u)) && negb has_user then buf
          else
            buf ++ (if nonempty (Host u) || nonempty (Path u) || has_user then bytes "//" else [])
                ++ (match User u with Some ui => Userinfo_String ui ++ [at_sign] | None => [] end)
                ++ (if nonempty (Host u) then escape (Host u) encodeHost else [])
        else buf in
      let path := EscapedPath u in
      let buf := if nonempty path && negb (HasPrefix path [slash]) && nonempty (Host u)
                 then buf ++ [slash] else buf in
      let buf := if negb (nonempty buf)
                    && (let '(segment, _, _) := Cut path [slash] in Contains segment [colon])
                 then buf ++ bytes "./" else buf in
      buf ++ path in
  let buf := if ForceQuery u || nonempty (RawQuery u) then buf ++ question :: RawQuery u else buf in
  if nonempty (Fragment u) then buf ++ hash :: EscapedFragment u else buf.

(** * Queries *)

Notation Values := (gmap (list Z) (list (list Z))).

Definition Get (v : Values) (key : list Z) : list Z :=
  match v !! key with Some (x :: _) => x | _ => [] end.
Definition Set_ (v : Values) (key value : list Z) : Values := <[key := [value]]> v.
Definition Add (v : Values) (key value : list Z) : Values :=
  <[key := default [] (v !! key) ++ [value]]> v.
Definition Del (v : Values) (key : list Z) : Values := delete key v.
Definition Has (v : Values) (key : list Z) : bool := bool_decide (is_Some (v !! key)).

Definition first_error (err : option url_error) (e : url_error) : option url_error :=
  match err with None => Some e | Some _ => err end.

(** One turn of the loop of [parseQuery]: what a setting, the text between two ampersands,
    does to the map and to the error. *)
Definition query_setting (key : list Z) (m : Values) (err : option url_error)
  : Values * option url_error :=
  if Contains key [semicolon] then
    (m, Some (UrlErr "invalid semicolon separator in query"))
  else if negb (nonempty key) then (m, err)
  else
    let '(key, value, _) := Cut key [equals] in
    match QueryUnescape key with
    | inl e => (m, first_error err e)
    | inr key =>
        match QueryUnescape value with
        | inl e => (m, first_error err e)
        | inr value => (Add m key value, err)
        end
    end.

(** The loop of [parseQuery]; the length of the query bounds the number of turns. *)
Fixpoint parseQuery_loop (fuel : nat) (m : Values) (query : list Z) (err : option url_error)
  : Values * option url_error :=
  match fuel with
  | O => (m, err)
  | S fuel =>
      if negb (nonempty query) then (m, err)
      else
        let '(key, query, _) := Cut query [ampersand] in
        let '(m, err) := query_setting key m err in
        parseQuery_loop fuel m query err
  end.

Definition parseQuery (m : Values) (query : list Z) : Values * option url_error :=
  parseQuery_loop (length query) m query None.

Definition ParseQuery (query : list Z) : Values * option url_error := parseQuery ∅ query.

Definition URL_Query (u : URL) : Values := fst (ParseQuery (RawQuery u)).

(** [sort.Strings]: bytewise order. *)
Fixpoint bytes_leb (a b : list Z) : bool :=
  match a, b with
  | [], _ => true
  | _ :: _, [] => false
  | x :: a', y :: b' => (x <? y) || (x =? y) && bytes_leb a' b'
  end.

Fixpoint insert_key (k : list Z) (l : list (list Z)) : list (list Z) :=
  match l with
  | [] => [k]
  | k' :: l' => if bytes_leb k k' then k :: l else k' :: insert_key k l'
  end.

Definition sort_keys (l : list (list Z)) : list (list Z) := fold_right insert_key [] l.

(** What [Encode] writes for one value of a key; an ampersand goes before it when the
    buffer is not empty. *)
Definition write_setting (keyEscaped : list Z) (buf v : list Z) : list Z :=
  (if nonempty buf then buf ++ [ampersand] else buf) ++ keyEscaped ++ equals :: QueryEscape v.

Definition Encode (v : Values) : list Z :=
  fold_left (fun buf k =>
    fold_left (write_setting (QueryEscape k)) (default [] (v !! k)) buf)
    (sort_keys (map fst (map_to_list v))) [].
