(* ===== verification/UrlSpec.v ===== *)
(** Theorems about net/url: what is escaped is unescaped, [EscapedPath] stands for the
    path, a query is its settings in order, and what [Encode] writes [ParseQuery] reads. *)
From stdpp Require Import gmap.
From Stdlib Require Import ZArith Lia String Bool List Permutation.
From S2P Require Import Prelude Strconv Utf8 GoStrings Url.
Import ListNotations.
Local Open Scope Z_scope.
Local Open Scope url_scope.

(** * Escaping and back *)

Definition all_bytes : list Z := map Z.of_nat (seq 0 256).

Lemma all_bytes_In c : is_byte c -> In c all_bytes.
Proof.
  intros H. unfold is_byte in H. apply in_map_iff. exists (Z.to_nat c).
  rewrite Z2Nat.id by lia. split; [reflexivity|]. apply in_seq. lia.
Qed.

Lemma all_bytes_forallb f c : forallb f all_bytes = true -> is_byte c -> f c = true.
Proof. intros H Hc. rewrite forallb_forall in H. now apply H, all_bytes_In. Qed.

(** The bytes whose escape a mode reads back: all of them, except that a host takes
    escapes of non-ASCII bytes and of the percent sign only, and a zone those of the
    percent sign and the space. *)
Definition escapable (mode : encoding) (c : Z) : bool :=
  match mode with
  | encodeHost => negb (shouldEscape c mode) || (128 <=? c) || (c =? percent)
  | encodeZone => negb (shouldEscape c mode) || (c =? percent) || (c =? space)
  | _ => true
  end.

(** What the escape of one byte is, for the two loops of [unescape]. *)
Definition escape_byte_reads (mode : encoding) (c : Z) : bool :=
  negb (escapable mode c) ||
  match escape_byte mode c with
  | [p; a; b] =>
      (p =? percent) && ishex a && ishex b && (hexbyte a b =? c) && shouldEscape c mode &&
      match mode with
      | encodeHost => (8 <=? unhex a) || (a =? 50) && (b =? 53)
      | encodeZone => (a =? 50) && (b =? 53) || (hexbyte a b =? space)
      | _ => true
      end
  | [d] =>
      (d =? plus_sign) && (c =? space) && is_query mode ||
      (d =? c) && negb (d =? percent) && negb ((d =? plus_sign) && is_query mode)
      && (negb (is_host_or_zone mode) || (128 <=? c) || negb (shouldEscape c mode))
  | _ => false
  end.

Lemma escape_byte_reads_ok mode c : is_byte c -> escape_byte_reads mode c = true.
Proof. intros H. apply all_bytes_forallb; [|exact H]. now destruct mode; vm_compute. Qed.

(** [e] is read as the byte [c]: the loops of [unescape] pass over it; it adds [k] to the
    number of escapes and [plus] to the pluses. *)
Definition reads_as (mode : encoding) (e : list Z) (c k : Z) (plus : bool) : Prop :=
  (forall s n hp, (hp = true -> is_query mode = true) ->
     check_escapes mode (e ++ s) n hp = check_escapes mode s (n + k) (plus || hp)) /\
  (forall s, decode_escapes mode (e ++ s) = c :: decode_escapes mode s) /\
  0 <= k /\ (plus = true -> is_query mode = true) /\ (k = 0 -> plus = false -> e = [c]).

Lemma reads_escape mode a b :
  ishex a && ishex b = true ->
  match mode with
  | encodeHost => (8 <=? unhex a) || (a =? 50) && (b =? 53)
  | encodeZone => (a =? 50) && (b =? 53) || (hexbyte a b =? space)
  | _ => true
  end = true ->
  reads_as mode [percent; a; b] (hexbyte a b) 1 false.
Proof.
  intros Hx Hm. apply andb_true_iff in Hx as [Ha Hb].
  unfold reads_as. repeat split; try lia; try discriminate.
  intros s n hp _. cbn [app check_escapes orb]. rewrite Ha, Hb. cbn [negb orb Z.eqb Pos.eqb].
  destruct mode; try reflexivity.
  - apply orb_true_iff in Hm as [Hm| ->]; [|now rewrite andb_false_r].
    now replace (unhex a <? 8) with false by lia.
  - apply orb_true_iff in Hm as [-> | ->]; [reflexivity|now rewrite andb_false_r].
Qed.

Lemma reads_itself mode c :
  c <> percent -> (c = plus_sign -> is_query mode = false) ->
  (is_host_or_zone mode && (c <? 0x80) && shouldEscape c mode = false) ->
  reads_as mode [c] c 0 false.
Proof.
  intros Hp Hq Hh. unfold reads_as. repeat split; try lia; try discriminate.
  - intros s n hp Hhp. cbn [app check_escapes orb]. apply Z.eqb_neq in Hp. rewrite Hp, Z.add_0_r.
    destruct (Z.eqb_spec c plus_sign) as [->|_]; [|now rewrite Hh].
    rewrite (Hq eq_refl) in *. destruct hp; [now specialize (Hhp eq_refl)|reflexivity].
  - intros s. cbn [app decode_escapes]. apply Z.eqb_neq in Hp. rewrite Hp.
    destruct (Z.eqb_spec c plus_sign) as [->|_]; [now rewrite (Hq eq_refl)|reflexivity].
Qed.

Lemma reads_plus mode : is_query mode = true -> reads_as mode [plus_sign] space 0 true.
Proof.
  intros Hq. unfold reads_as. repeat split; try lia; try discriminate; auto.
  - intros s n hp _. cbn. now rewrite Hq, Z.add_0_r.
  - intros s. cbn. now rewrite Hq.
Qed.

Lemma escape_byte_read mode c :
  is_byte c -> escapable mode c = true -> exists k plus, reads_as mode (escape_byte mode c) c k plus.
Proof.
  intros Hc He. pose proof (escape_byte_reads_ok mode c Hc) as H.
  unfold escape_byte_reads in H. rewrite He in H. cbn [negb orb] in H.
  destruct (escape_byte mode c) as [|p [|a [|b [|]]]]; try discriminate H.
  - apply orb_true_iff in H as [H|H]; rewrite !andb_true_iff in H.
    + destruct H as ((Hp & Hs) & Hq). apply Z.eqb_eq in Hp as ->, Hs as ->.
      exists 0, true. now apply reads_plus.
    + destruct H as (((Hd & Hp) & Hq) & Hh). apply Z.eqb_eq in Hd as ->.
      exists 0, false. apply reads_itself.
      * intros ->. discriminate Hp.
      * intros ->. now destruct (is_query mode).
      * destruct (is_host_or_zone mode), (shouldEscape c mode); cbn in *; try lia; reflexivity.
  - rewrite !andb_true_iff in H. destruct H as (((((Hp & Ha) & Hb) & Hx) & _) & Hm).
    apply Z.eqb_eq in Hp as ->, Hx as <-. exists 1, false.
    apply reads_escape; [now rewrite Ha, Hb|exact Hm].
Qed.

Lemma escape_bytes_read mode s :
  Forall is_byte s -> forallb (escapable mode) s = true ->
  exists k plus, 0 <= k /\
    (forall n hp, (hp = true -> is_query mode = true) ->
       check_escapes mode (flat_map (escape_byte mode) s) n hp = inr (n + k, plus || hp)) /\
    decode_escapes mode (flat_map (escape_byte mode) s) = s /\
    (k = 0 -> plus = false -> flat_map (escape_byte mode) s = s).
Proof.
  intros Hs. induction Hs as [|c s Hc _ IH]; intros He; cbn [forallb] in He.
  - exists 0, false. repeat split; try lia. intros n hp _. cbn. now rewrite Z.add_0_r.
  - apply andb_true_iff in He as [He Hes]. destruct (IH Hes) as (k & plus & Hk & Hc2 & Hd & Hz).
    destruct (escape_byte_read mode c Hc He) as (k1 & plus1 & Hc1 & Hd1 & Hk1 & Hq1 & Hz1).
    exists (k1 + k), (plus || plus1). cbn [flat_map]. repeat split; [lia| | |].
    + intros n hp Hhp. rewrite Hc1 by exact Hhp. rewrite Hc2, Z.add_assoc, orb_assoc; [reflexivity|].
      intros Hp. apply orb_true_iff in Hp as [Hp|Hp]; auto.
    + now rewrite Hd1, Hd.
    + intros Hk0 Hp. apply orb_false_iff in Hp as [Hp Hp1]. rewrite (Hz1 ltac:(lia) Hp1), (Hz ltac:(lia) Hp).
      reflexivity.
Qed.

(** The three ways of [escape] write the same. *)
Lemma count_escapes_grows mode s sp hx :
  0 <= sp -> 0 <= hx ->
  let '(sp', hx') := count_escapes mode s sp hx in
  sp <= sp' /\ hx <= hx' /\
  (sp' = sp -> hx' = hx -> flat_map (escape_byte mode) s = s) /\
  (hx' = hx -> is_query mode = false -> sp' = sp) /\
  (hx' = hx -> is_query mode = true ->
     flat_map (escape_byte mode) s = map (fun c => if c =? space then plus_sign else c) s).
Proof.
  revert sp hx. induction s as [|c s IH]; intros sp hx Hsp Hhx; cbn [count_escapes flat_map map].
  { repeat split; lia. }
  destruct (shouldEscape c mode) eqn:Ec.
  - destruct (Z.eqb_spec c space) as [->|Hc]; cbn [andb]; [destruct (is_query mode) eqn:Eq|].
    + specialize (IH (sp + 1) hx ltac:(lia) Hhx). destruct (count_escapes mode s (sp + 1) hx) as [sp' hx'].
      destruct IH as (H1 & H2 & _ & _ & H5). repeat split; try lia; try congruence.
      intros Hx _. unfold escape_byte at 1. cbn. rewrite Eq. cbn. f_equal. now apply H5.
    + specialize (IH sp (hx + 1) Hsp ltac:(lia)). destruct (count_escapes mode s sp (hx + 1)) as [sp' hx'].
      destruct IH as (H1 & H2 & _). repeat split; lia.
    + specialize (IH sp (hx + 1) Hsp ltac:(lia)). destruct (count_escapes mode s sp (hx + 1)) as [sp' hx'].
      destruct IH as (H1 & H2 & _). repeat split; lia.
  - assert (Hb : escape_byte mode c = [c]).
    { unfold escape_byte. destruct (Z.eqb_spec c space) as [->|_]; cbn [andb]; [|now rewrite Ec].
      destruct (is_query mode) eqn:Eq; [destruct mode; try discriminate Eq; discriminate Ec|now rewrite Ec]. }
    specialize (IH sp hx Hsp Hhx). destruct (count_escapes mode s sp hx) as [sp' hx'].
    destruct IH as (H1 & H2 & H3 & H4 & H5). rewrite Hb. cbn [app]. repeat split; try lia; auto.
    + intros. f_equal. auto.
    + intros Hx Hq. rewrite H5 by assumption. f_equal.
      destruct (Z.eqb_spec c space) as [->|_]; [|reflexivity].
      destruct mode; try discriminate Hq; discriminate Ec.
Qed.

Lemma escape_flat mode s : escape s mode = flat_map (escape_byte mode) s.
Proof.
  unfold escape. pose proof (count_escapes_grows mode s 0 0 ltac:(lia) ltac:(lia)) as H.
  destruct (count_escapes mode s 0 0) as [sp hx]. destruct H as (H1 & H2 & H3 & H4 & H5).
  destruct (Z.eqb_spec hx 0) as [->|Hx]; [|now rewrite andb_false_r].
  destruct (Z.eqb_spec sp 0) as [->|Hs]; cbn [andb]; [now rewrite H3|].
  destruct (is_query mode); [now rewrite H5|]. specialize (H4 eq_refl eq_refl). contradiction.
Qed.

Lemma unescape_escape mode s :
  Forall is_byte s -> forallb (escapable mode) s = true -> unescape (escape s mode) mode = inr s.
Proof.
  intros Hs He. destruct (escape_bytes_read mode s Hs He) as (k & plus & Hk & Hc & Hd & Hz).
  unfold unescape. rewrite escape_flat, Hc by discriminate. cbn [let_ok]. rewrite orb_false_r, Z.add_0_l.
  destruct (Z.eqb_spec k 0) as [->|_]; cbn [andb]; [|now rewrite Hd].
  destruct plus; cbn [negb]; [now rewrite Hd|now rewrite Hz].
Qed.

Lemma escapable_mode mode s : is_host_or_zone mode = false -> forallb (escapable mode) s = true.
Proof. intros H. apply forallb_forall. intros c _. now destruct mode. Qed.

(** What is escaped uses only the bytes that stand for themselves, escapes, and pluses for
    the spaces of a query. *)
Definition escaped_char (mode : encoding) (c : Z) : bool :=
  negb (shouldEscape c mode) || (c =? percent) || (c =? plus_sign) && is_query mode || alphanum c.

Lemma escape_chars mode s :
  Forall is_byte s -> Forall (fun c => escaped_char mode c = true) (escape s mode).
Proof.
  intros Hs. rewrite escape_flat. apply Forall_flat_map. eapply List.Forall_impl; [|exact Hs].
  intros c Hc. apply List.Forall_forall. apply forallb_forall. revert c Hc. intros c.
  apply (all_bytes_forallb (fun c => forallb (escaped_char mode) (escape_byte mode c))).
  now destruct mode; vm_compute.
Qed.

(** A byte that is no such character does not occur. *)
Lemma escape_not_In mode s c : Forall is_byte s -> escaped_char mode c = false -> ~ In c (escape s mode).
Proof.
  intros Hs Hc Hi. pose proof (escape_chars mode s Hs) as H. rewrite List.Forall_forall in H.
  apply H in Hi. congruence.
Qed.

(** [EscapedPath] stands for the path, whatever the hint. *)
Lemma EscapedPath_decodes u :
  Forall is_byte (Path u) -> unescape (EscapedPath u) encodePath = inr (Path u).
Proof.
  intros Hp. unfold EscapedPath. case_if.
  - rewrite !andb_true_iff in *. destruct Heqb as [_ H]. unfold decodes_to in H.
    destruct (unescape (RawPath u) encodePath) as [e|p]; [discriminate H|]. now apply str_eqb_eq in H as ->.
  - case_if; [now apply str_eqb_eq in Heqb0 as ->|].
    apply unescape_escape; [exact Hp|now apply escapable_mode].
Qed.

(** * Queries *)

(** What one setting says, if it is accepted. *)
Definition setting_pair (s : list Z) : option (list Z * list Z) :=
  if Contains s [semicolon] || negb (nonempty s) then None
  else
    let '(key, value, _) := Cut s [equals] in
    match QueryUnescape key, QueryUnescape value with
    | inr key, inr value => Some (key, value)
    | _, _ => None
    end.

Definition accepted (ps : list (option (list Z * list Z))) : list (list Z * list Z) :=
  flat_map (fun o => match o with Some p => [p] | None => [] end) ps.

(** The settings of a query in order. *)
Definition query_pairs (q : list Z) : list (list Z * list Z) :=
  accepted (map setting_pair (split_at ampersand q)).

Definition add_pair (m : Values) (p : list Z * list Z) : Values := Add m (fst p) (snd p).

Lemma parseQuery_loop_fold fuel : forall m q err, (length q <= fuel)%nat ->
  parseQuery_loop fuel m q err =
  fold_left (fun st s => query_setting s (fst st) (snd st)) (split_at ampersand q) (m, err).
Proof.
  induction fuel as [|fuel IH]; intros m q err Hq.
  { now destruct q; [|cbn in Hq; lia]. }
  destruct q as [|c q0]; [reflexivity|]. set (q := c :: q0) in *.
  cbn [parseQuery_loop]. replace (nonempty q) with true by reflexivity. cbn [negb].
  destruct (first_byte ampersand q) as [H|(u & v & E & H)].
  - rewrite Cut_none, split_at_none by exact H. cbn [fold_left fst snd].
    destruct (query_setting q m err) as [m' err']. destruct fuel; reflexivity.
  - rewrite E in *. rewrite Cut_app, split_at_app by exact H. cbn [fold_left fst snd].
    destruct (query_setting u m err) as [m' err']. apply IH.
    rewrite length_app in Hq. cbn in Hq. lia.
Qed.

Lemma query_setting_pair s m err :
  fst (query_setting s m err) = match setting_pair s with Some p => add_pair m p | None => m end /\
  (setting_pair s <> None -> snd (query_setting s m err) = err).
Proof.
  unfold query_setting, setting_pair. case_if; [cbn; tauto|]. cbn [orb].
  case_if; [cbn; tauto|]. destruct (Cut s [equals]) as [[k v] b].
  destruct (QueryUnescape k); [cbn; tauto|]. destruct (QueryUnescape v); cbn; tauto.
Qed.

Lemma fold_settings l : forall m err,
  fst (fold_left (fun st s => query_setting s (fst st) (snd st)) l (m, err)) =
    fold_left add_pair (accepted (map setting_pair l)) m /\
  (Forall (fun s => setting_pair s <> None) l ->
   snd (fold_left (fun st s => query_setting s (fst st) (snd st)) l (m, err)) = err).
Proof.
  induction l as [|s l IH]; intros m err; [split; reflexivity|].
  cbn [fold_left map accepted flat_map fst snd]. fold (accepted (map setting_pair l)).
  destruct (query_setting_pair s m err) as [Hm He].
  destruct (query_setting s m err) as [m' err']. cbn [fst snd] in *. subst m'.
  destruct (IH (match setting_pair s with Some p => add_pair m p | None => m end) err') as [H1 H2].
  rewrite H1, fold_left_app. split; [now destruct (setting_pair s)|].
  intros H. inversion H; subst. rewrite H2 by assumption. auto.
Qed.

Lemma ParseQuery_pairs q : fst (ParseQuery q) = fold_left add_pair (query_pairs q) ∅.
Proof.
  unfold ParseQuery, parseQuery. rewrite parseQuery_loop_fold by lia.
  apply (fold_settings (split_at ampersand q) ∅ None).
Qed.

(** The values of a key. *)
Definition values_of (k : list Z) (ps : list (list Z * list Z)) : list (list Z) :=
  map snd (List.filter (fun p => str_eqb (fst p) k) ps).

Lemma fold_add_lookup ps k : forall m : Values,
  fold_left add_pair ps m !! k =
  match values_of k ps with [] => m !! k | vs => Some (default [] (m !! k) ++ vs) end.
Proof.
  unfold values_of. induction ps as [|[k' v] ps IH]; intros m; [reflexivity|].
  cbn [fold_left List.filter map fst]. rewrite IH. unfold add_pair, Add. cbn [fst snd].
  destruct (str_eqb_spec k' k) as [->|Hk].
  - rewrite lookup_insert_eq. cbn [map snd default].
    destruct (map snd (List.filter _ ps)); [reflexivity|]. cbn. now rewrite <- app_assoc.
  - now rewrite lookup_insert_ne by exact Hk.
Qed.

(** [Get] finds the first setting of the key. *)
Lemma Get_ParseQuery q k :
  Get (fst (ParseQuery q)) k = match values_of k (query_pairs q) with v :: _ => v | [] => [] end.
Proof.
  unfold Get. rewrite ParseQuery_pairs, fold_add_lookup, lookup_empty.
  now destruct (values_of k (query_pairs q)).
Qed.

(** ** [Encode] *)

Definition setting (k v : list Z) : list Z := QueryEscape k ++ equals :: QueryEscape v.

Lemma QueryEscape_not_In s c : Forall is_byte s -> escaped_char encodeQueryComponent c = false ->
  ~ In c (QueryEscape s).
Proof. apply escape_not_In. Qed.

Lemma setting_free k v c :
  Forall is_byte k -> Forall is_byte v -> escaped_char encodeQueryComponent c = false -> c <> equals ->
  ~ In c (setting k v).
Proof.
  intros Hk Hv Hc Hne Hi. apply in_app_or in Hi as [Hi|[Hi|Hi]]; [|congruence|];
    now apply QueryEscape_not_In in Hi.
Qed.

Lemma setting_nonempty k v : nonempty (setting k v) = true.
Proof. unfold setting. now destruct (QueryEscape k). Qed.

Lemma setting_pair_setting k v :
  Forall is_byte k -> Forall is_byte v -> setting_pair (setting k v) = Some (k, v).
Proof.
  intros Hk Hv. unfold setting_pair. rewrite setting_nonempty.
  rewrite not_Contains by (apply setting_free; [assumption..|reflexivity|discriminate]).
  cbn [negb orb]. unfold setting at 1. rewrite Cut_app by (now apply QueryEscape_not_In).
  unfold QueryUnescape, QueryEscape.
  now rewrite !unescape_escape by first [assumption|now apply escapable_mode].
Qed.

(** Writing settings one after the other. *)
Definition write (buf s : list Z) : list Z := (if nonempty buf then buf ++ [ampersand] else buf) ++ s.

Lemma write_more l : forall buf, nonempty buf = true ->
  fold_left write l buf = buf ++ flat_map (cons ampersand) l.
Proof.
  induction l as [|s l IH]; intros buf Hb; cbn [fold_left flat_map]; [now rewrite app_nil_r|].
  unfold write at 2. rewrite Hb, IH, <- !app_assoc; [reflexivity|]. now destruct buf.
Qed.

Lemma write_Join l : Forall (fun s => nonempty s = true) l -> fold_left write l [] = Join l [ampersand].
Proof.
  intros H. destruct H as [|s l Hs _]; [reflexivity|].
  rewrite Join_more. cbn [fold_left]. now apply write_more.
Qed.

Definition pairs_of (v : Values) (k : list Z) : list (list Z * list Z) :=
  map (pair k) (default [] (v !! k)).

Definition key_settings (v : Values) (k : list Z) : list (list Z) :=
  map (fun p => setting (fst p) (snd p)) (pairs_of v k).

Lemma Encode_write (v : Values) ks buf :
  fold_left (fun buf k => fold_left (write_setting (QueryEscape k)) (default [] (v !! k)) buf) ks buf =
  fold_left write (flat_map (key_settings v) ks) buf.
Proof.
  revert buf. induction ks as [|k ks IH]; intros buf; [reflexivity|].
  cbn [fold_left flat_map]. rewrite IH, fold_left_app. f_equal.
  unfold key_settings, pairs_of. rewrite map_map. revert buf.
  induction (default [] (v !! k)) as [|x l IHl]; intros buf; [reflexivity|].
  cbn [fold_left map fst snd]. rewrite IHl. reflexivity.
Qed.

(** The keys come once each, whatever their order. *)
Lemma insert_key_perm k l : Permutation (insert_key k l) (k :: l).
Proof.
  induction l as [|x l IH]; cbn; [reflexivity|]. case_if; [reflexivity|].
  rewrite IH. apply perm_swap.
Qed.

Lemma sort_keys_perm l : Permutation (sort_keys l) l.
Proof.
  induction l as [|x l IH]; cbn; [reflexivity|]. rewrite insert_key_perm. now constructor.
Qed.

Definition keys_of (v : Values) : list (list Z) := sort_keys (map fst (map_to_list v)).

Lemma keys_of_NoDup v : List.NoDup (keys_of v).
Proof.
  eapply Permutation_NoDup; [symmetry; apply sort_keys_perm|].
  apply base.NoDup_ListNoDup, NoDup_fst_map_to_list.
Qed.

Lemma keys_of_In v k : In k (keys_of v) <-> is_Some (v !! k).
Proof.
  unfold keys_of. split.
  - intros H. eapply Permutation_in in H; [|apply sort_keys_perm].
    apply in_map_iff in H as ([k' x] & <- & H). exists x. now apply elem_of_map_to_list, list_elem_of_In.
  - intros [x H]. eapply Permutation_in; [symmetry; apply sort_keys_perm|].
    apply in_map_iff. exists (k, x). split; [reflexivity|]. now apply list_elem_of_In, elem_of_map_to_list.
Qed.

Lemma values_of_pairs v k k' :
  values_of k (pairs_of v k') = if str_eqb k' k then default [] (v !! k) else [].
Proof.
  unfold values_of, pairs_of. destruct (str_eqb_spec k' k) as [->|Hk].
  - induction (default [] (v !! k)) as [|x l IH]; [reflexivity|].
    cbn [map List.filter fst]. rewrite str_eqb_refl. cbn [map snd]. now rewrite IH.
  - induction (default [] (v !! k')) as [|x l IH]; [reflexivity|].
    cbn [map List.filter fst]. now rewrite neq_str_eqb by exact Hk.
Qed.

Lemma values_of_app k a b : values_of k (a ++ b) = values_of k a ++ values_of k b.
Proof. unfold values_of. now rewrite List.filter_app, map_app. Qed.

Lemma values_of_keys v k ks :
  List.NoDup ks -> values_of k (flat_map (pairs_of v) ks) = if in_dec (list_eq_dec Z.eq_dec) k ks
                                                            then default [] (v !! k) else [].
Proof.
  induction 1 as [|k' ks Hk' _ IH]; [reflexivity|].
  cbn [flat_map]. rewrite values_of_app, values_of_pairs, IH.
  destruct (str_eqb_spec k' k) as [->|Hne].
  - destruct (in_dec (list_eq_dec Z.eq_dec) k ks); [contradiction|].
    destruct (in_dec (list_eq_dec Z.eq_dec) k (k :: ks)) as [_|Hn]; [apply app_nil_r|].
    exfalso. apply Hn. now left.
  - destruct (in_dec (list_eq_dec Z.eq_dec) k ks) as [Hi|Hi],
      (in_dec (list_eq_dec Z.eq_dec) k (k' :: ks)) as [Hj|Hj]; try reflexivity.
    + exfalso. apply Hj. now right.
    + destruct Hj; contradiction.
Qed.

Definition values_are_bytes (v : Values) : Prop :=
  map_Forall (fun k vs => Forall is_byte k /\ Forall (Forall is_byte) vs) v.

Lemma pairs_of_bytes v k p :
  values_are_bytes v -> In p (pairs_of v k) -> Forall is_byte (fst p) /\ Forall is_byte (snd p).
Proof.
  intros Hv Hp. unfold pairs_of in Hp. destruct (v !! k) as [vs|] eqn:E; [|destruct Hp].
  apply in_map_iff in Hp as (x & <- & Hx). destruct (Hv _ _ E) as [Hk Hvs].
  rewrite List.Forall_forall in Hvs. split; [exact Hk|now apply Hvs].
Qed.

Lemma accepted_settings ps :
  (forall p, In p ps -> Forall is_byte (fst p) /\ Forall is_byte (snd p)) ->
  accepted (map setting_pair (map (fun p => setting (fst p) (snd p)) ps)) = ps.
Proof.
  induction ps as [|[k v] ps IH]; intros H; [reflexivity|].
  cbn [map accepted flat_map fst snd]. fold (accepted (map setting_pair (map (fun p => setting (fst p) (snd p)) ps))).
  destruct (H _ (or_introl eq_refl)) as [Hk Hv]. rewrite setting_pair_setting by assumption.
  rewrite IH; [reflexivity|]. intros p Hp. apply H. now right.
Qed.

Lemma flat_map_map {A B C} (f : B -> C) (g : A -> list B) l :
  flat_map (fun x => map f (g x)) l = map f (flat_map g l).
Proof. induction l as [|x l IH]; cbn; [reflexivity|]. now rewrite IH, map_app. Qed.

(** The settings [Encode] writes, as the parser finds them. *)
Lemma Encode_settings v (ps := flat_map (pairs_of v) (keys_of v)) (ss := map (fun p => setting (fst p) (snd p)) ps) :
  values_are_bytes v ->
  Encode v = Join ss [ampersand] /\ Forall (fun s => ~ In ampersand s /\ setting_pair s <> None) ss /\
  accepted (map setting_pair ss) = ps.
Proof.
  intros Hv.
  assert (Hps : forall p, In p ps -> Forall is_byte (fst p) /\ Forall is_byte (snd p)).
  { intros p Hp. apply in_flat_map in Hp as (k & _ & Hp). now apply pairs_of_bytes with (v := v) (k := k). }
  split; [|split; [|now apply accepted_settings]].
  - unfold Encode. fold (keys_of v). rewrite Encode_write. unfold key_settings.
    rewrite flat_map_map. apply write_Join. apply List.Forall_forall. intros s Hs.
    apply in_map_iff in Hs as (p & <- & _). apply setting_nonempty.
  - apply List.Forall_forall. intros s Hs. apply in_map_iff in Hs as (p & <- & Hp).
    destruct (Hps p Hp) as [H1 H2]. split.
    + now apply setting_free.
    + now rewrite setting_pair_setting.
Qed.

Lemma ParseQuery_Join ss :
  Forall (fun s => ~ In ampersand s /\ setting_pair s <> None) ss ->
  ParseQuery (Join ss [ampersand]) = (fold_left add_pair (accepted (map setting_pair ss)) ∅, None).
Proof.
  intros H. unfold ParseQuery, parseQuery. rewrite parseQuery_loop_fold by lia.
  destruct ss as [|s ss]; [reflexivity|]. set (l := s :: ss) in *.
  rewrite split_at_Join; [|discriminate|eapply List.Forall_impl; [|exact H]; now intros ? []].
  destruct (fold_settings l ∅ None) as [Hm He]. rewrite (surjective_pairing (fold_left _ l _)).
  rewrite Hm, He; [reflexivity|]. eapply List.Forall_impl; [|exact H]. now intros ? [].
Qed.

(** A key without values is not written; everything else comes back. *)
Definition written (v : Values) : Values :=
  base.filter (fun kv : list Z * list (list Z) => snd kv <> []) v.

Lemma ParseQuery_Encode v : values_are_bytes v -> ParseQuery (Encode v) = (written v, None).
Proof.
  intros Hv. destruct (Encode_settings v Hv) as (-> & Hs & Ha).
  rewrite ParseQuery_Join, Ha by exact Hs. f_equal. apply map_eq. intros k.
  rewrite fold_add_lookup, lookup_empty, values_of_keys by apply keys_of_NoDup.
  unfold written. rewrite map_lookup_filter.
  destruct (in_dec (list_eq_dec Z.eq_dec) k (keys_of v)) as [Hi|Hi].
  - apply keys_of_In in Hi as [vs E]. rewrite E. cbn [default from_option id option_bind mbind].
    destruct vs as [|x vs]; cbn; reflexivity.
  - rewrite keys_of_In in Hi. apply eq_None_not_Some in Hi. now rewrite Hi.
Qed.

(** What is escaped in any part of a URL is read back there byte for byte: [unescape]
    inverts [escape], for a host and a zone on the bytes their escapes may stand for. *)
Theorem escape_roundtrip mode s :
  Forall is_byte s -> forallb (escapable mode) s = true -> unescape (escape s mode) mode = inr s.
Proof. apply unescape_escape. Qed.

Lemma escape_roundtrip_witness :
  escape (bytes "50% off/day?") encodePathSegment = bytes "50%25%20off%2Fday%3F" /\
  unescape (bytes "50%25%20off%2Fday%3F") encodePathSegment = inr (bytes "50% off/day?").
Proof.
  split; [reflexivity|].
  apply (escape_roundtrip encodePathSegment (bytes "50% off/day?")); [apply bytes_range|reflexivity].
Defined.

(** C29: The values of a form survive the query string: [ParseQuery] of what [Encode] writes is
    the same map, keys without values apart, and reports no error. *)
Theorem query_roundtrip (v : Values) :
  values_are_bytes v -> ParseQuery (Encode v) = (written v, None).
Proof. apply ParseQuery_Encode. Qed.

Definition form_example : Values :=
  {[bytes "recipe" := [bytes "a&b=c;d"]; bytes "points" := [bytes "3"; bytes "+4"]; bytes "x" := []]}.

Lemma query_roundtrip_witness :
  Encode form_example = bytes "points=3&points=%2B4&recipe=a%26b%3Dc%3Bd" /\
  ParseQuery (Encode form_example) = (written form_example, None).
Proof.
  split; [vm_compute; reflexivity|]. apply (query_roundtrip form_example).
  unfold values_are_bytes, form_example. repeat (apply map_Forall_insert_2; [|]); try apply map_Forall_empty.
  all: split; repeat constructor; try apply bytes_range; cbv; discriminate.
Defined.
