(* ===== verification/PathClean.v ===== *)
(** Package path, path.go: [Clean] with its lazy buffer, and the [cleanPath] of net/http
    that the router applies to every path.  The reference works on the elements of the
    path; the loop with the buffer does the same and never leaves the buffer. *)
From Stdlib Require Import ZArith Lia String Bool List.
From S2P Require Import Prelude Strconv GoStrings.
Import ListNotations.
Local Open Scope Z_scope.

(** * The buffer *)

Record lazybuf := mkLazybuf { lb_s : list Z; lb_buf : option (list Z); lb_w : nat }.

(** The bytes an index refers to. *)
Definition lb_bytes (b : lazybuf) : list Z :=
  match lb_buf b with Some buf => buf | None => lb_s b end.

Definition lb_index (b : lazybuf) (i : nat) : option Z := nth_error (lb_bytes b) i.

(** [buf[w] = c; w++]; nothing when [w] is out of range, where Go panics. *)
Definition lb_put (b : lazybuf) (buf : list Z) (c : Z) : option lazybuf :=
  let w := lb_w b in
  if (w <? length buf)%nat
  then Some (mkLazybuf (lb_s b) (Some (firstn w buf ++ c :: skipn (S w) buf)) (S w))
  else None.

Definition lb_append (b : lazybuf) (c : Z) : option lazybuf :=
  let w := lb_w b in
  match lb_buf b with
  | Some buf => lb_put b buf c
  | None =>
      if (w <? length (lb_s b))%nat && (nth w (lb_s b) 0 =? c)
      then Some (mkLazybuf (lb_s b) None (S w))
      else lb_put b (firstn w (lb_s b) ++ repeat 0 (length (lb_s b) - w)) c
  end.

Definition lb_string (b : lazybuf) : list Z := firstn (lb_w b) (lb_bytes b).

Definition opt_bind {A B} (m : option A) (k : A -> option B) : option B :=
  match m with Some a => k a | None => None end.

(** * Clean *)

Definition with_w (b : lazybuf) (w : nat) : lazybuf := mkLazybuf (lb_s b) (lb_buf b) w.

(** [for out.w > dotdot && out.index(out.w) != '/' { out.w-- }] from [w]. *)
Fixpoint backtrack (b : lazybuf) (dotdot w : nat) : option nat :=
  match w with
  | O => Some O
  | S w' =>
      if (dotdot <? w)%nat
      then opt_bind (lb_index b w) (fun c => if c =? slash then Some w else backtrack b dotdot w')
      else Some w
  end.

(** [r == n || path[r] == '/'], [rest] being [path[r:]]. *)
Definition ends (rest : list Z) : bool :=
  match rest with [] => true | c :: _ => c =? slash end.

(** The copy of an element: what is left of the path, and the buffer. *)
Fixpoint copy_element (rest : list Z) (out : lazybuf) : option (list Z * lazybuf) :=
  match rest with
  | [] => Some ([], out)
  | c :: rest' =>
      if c =? slash then Some (rest, out)
      else opt_bind (lb_append out c) (copy_element rest')
  end.

(** The loop of [Clean] at [rest = path[r:]]; every turn reads a byte or more. *)
Fixpoint clean_loop (fuel : nat) (rooted : bool) (rest : list Z) (dotdot : nat) (out : lazybuf)
  : option lazybuf :=
  match fuel with
  | O => Some out
  | S fuel =>
      match rest with
      | [] => Some out
      | c :: rest1 =>
          if c =? slash then clean_loop fuel rooted rest1 dotdot out
          else if (c =? dot) && ends rest1 then clean_loop fuel rooted rest1 dotdot out
          else if (c =? dot) && (hd 0 rest1 =? dot) && ends (tl rest1) then
            if (dotdot <? lb_w out)%nat then
              opt_bind (backtrack out dotdot (lb_w out - 1)) (fun w =>
                clean_loop fuel rooted (tl rest1) dotdot (with_w out w))
            else if negb rooted then
              opt_bind (if (0 <? lb_w out)%nat then lb_append out slash else Some out) (fun out =>
              opt_bind (lb_append out dot) (fun out =>
              opt_bind (lb_append out dot) (fun out =>
                clean_loop fuel rooted (tl rest1) (lb_w out) out)))
            else clean_loop fuel rooted (tl rest1) dotdot out
          else
            opt_bind (if rooted && negb (lb_w out =? 1)%nat || negb rooted && negb (lb_w out =? 0)%nat
                      then lb_append out slash else Some out) (fun out =>
            opt_bind (copy_element rest out) (fun '(rest', out) =>
              clean_loop fuel rooted rest' dotdot out))
      end
  end.

(** [Clean]; nothing stands for an index out of range, which does not happen. *)
Definition Clean (path : list Z) : option (list Z) :=
  match path with
  | [] => Some [dot]
  | c :: rest =>
      let rooted := c =? slash in
      let out := mkLazybuf path None 0 in
      opt_bind
        (if rooted then
           opt_bind (lb_append out slash) (clean_loop (length path) rooted rest 1)
         else clean_loop (length path) rooted path 0 out)
        (fun out => if (lb_w out =? 0)%nat then Some [dot] else Some (lb_string out))
  end.

(** [cleanPath] of net/http. *)
Definition cleanPath (p : list Z) : option (list Z) :=
  match p with
  | [] => Some [slash]
  | c :: _ =>
      let p := if c =? slash then p else slash :: p in
      opt_bind (Clean p) (fun np =>
        if (last p 0 =? slash) && negb (str_eqb np [slash]) then
          if (length p =? length np + 1)%nat && HasPrefix p np then Some p
          else Some (np ++ [slash])
        else Some np)
  end.

(** * The reference *)

(** The elements kept so far: the number of leading [..], and the names after them, the
    last one first. *)
Definition elements : Type := nat * list (list Z).

Definition element_step (rooted : bool) (st : elements) (e : list Z) : elements :=
  let '(ups, names) := st in
  if str_eqb e [] || str_eqb e [dot] then st
  else if str_eqb e [dot; dot] then
    match names with
    | _ :: names' => (ups, names')
    | [] => if rooted then st else (S ups, [])
    end
  else (ups, e :: names).

Definition element_list (st : elements) : list (list Z) :=
  repeat [dot; dot] (fst st) ++ rev (snd st).

Definition render (rooted : bool) (st : elements) : list Z :=
  (if rooted then [slash] else []) ++ Join (element_list st) [slash].

Definition clean_elements (rooted : bool) (path : list Z) : elements :=
  fold_left (element_step rooted) (split_at slash path) (O, []).

Definition clean_spec (path : list Z) : list Z :=
  let rooted := HasPrefix path [slash] in
  let r := render rooted (clean_elements rooted path) in
  match r with [] => [dot] | _ => r end.

(** * The buffer holds what was written *)

(** [t] has been written to a buffer for [n] bytes. *)
Definition holds (n : nat) (b : lazybuf) (t : list Z) : Prop :=
  length (lb_s b) = n /\ length (lb_bytes b) = n /\ lb_w b = length t /\ lb_string b = t.

Lemma holds_le n b t : holds n b t -> (length t <= n)%nat.
Proof.
  intros (_ & Hb & Hw & Ht). rewrite <- Ht. unfold lb_string. rewrite length_firstn. lia.
Qed.

Lemma put_holds n b buf t c :
  length (lb_s b) = n -> length buf = n -> lb_w b = length t -> firstn (length t) buf = t ->
  (length t < n)%nat ->
  exists b', lb_put b buf c = Some b' /\ holds n b' (t ++ [c]).
Proof.
  intros Hs Hb Hw Ht Hlt. unfold lb_put. rewrite Hw, Hb.
  replace (length t <? n)%nat with true by (symmetry; now apply Nat.ltb_lt).
  rewrite Ht. eexists. split; [reflexivity|]. unfold holds, lb_string, lb_bytes. cbn [lb_s lb_buf lb_w].
  repeat split; [exact Hs| |now rewrite length_app; cbn; lia|].
  - rewrite length_app. cbn [length]. rewrite length_skipn. lia.
  - replace (t ++ c :: skipn (S (length t)) buf) with ((t ++ [c]) ++ skipn (S (length t)) buf)
      by (rewrite <- app_assoc; reflexivity).
    replace (S (length t)) with (length (t ++ [c])) at 1 by (rewrite length_app; cbn; lia).
    apply firstn_length_app.
Qed.

Lemma firstn_snoc k (l : list Z) : (k < length l)%nat -> firstn (S k) l = firstn k l ++ [nth k l 0].
Proof.
  revert l. induction k as [|k IH]; intros [|x l] H; cbn in *; try lia; [reflexivity|].
  now rewrite <- IH by lia.
Qed.

Lemma append_holds n b t c :
  holds n b t -> (length t < n)%nat -> exists b', lb_append b c = Some b' /\ holds n b' (t ++ [c]).
Proof.
  intros (Hs & Hb & Hw & Ht) Hlt. unfold lb_append, lb_string, lb_bytes in *.
  rewrite Hw in Ht. destruct (lb_buf b) as [buf|]; [now apply put_holds|].
  rewrite Hw, Hs. destruct (Nat.ltb_spec (length t) n); [|lia]. cbn [andb].
  destruct (Z.eqb_spec (nth (length t) (lb_s b) 0) c) as [Hc|_].
  - eexists. split; [reflexivity|]. unfold holds, lb_string, lb_bytes. cbn [lb_s lb_buf lb_w].
    repeat split; [exact Hs|exact Hs|rewrite length_app; cbn; lia|].
    rewrite firstn_snoc by lia. now rewrite Ht, Hc.
  - rewrite Ht. apply put_holds; auto.
    + rewrite length_app, repeat_length. lia.
    + apply firstn_length_app.
Qed.

Lemma with_w_holds n b t u : holds n b (t ++ u) -> holds n (with_w b (length t)) t.
Proof.
  intros (Hs & Hb & Hw & Ht). unfold holds, with_w, lb_string, lb_bytes in *. cbn [lb_s lb_buf lb_w].
  repeat split; [exact Hs|exact Hb|]. rewrite Hw, length_app in Ht.
  apply (f_equal (firstn (length t))) in Ht. rewrite firstn_firstn, firstn_length_app in Ht.
  now rewrite Nat.min_l in Ht by lia.
Qed.

Lemma holds_nth n b t i : holds n b t -> (i < length t)%nat -> nth i (lb_bytes b) 0 = nth i t 0.
Proof.
  intros (Hs & Hb & Hw & Ht) Hi. rewrite <- Ht. unfold lb_string. rewrite Hw.
  rewrite nth_firstn. now replace (i <? length t)%nat with true by (symmetry; now apply Nat.ltb_lt).
Qed.

(** Going back stops at the first slash from the end, or at [dotdot]. *)
Lemma backtrack_stops b dotdot k w :
  (dotdot <= k <= w)%nat -> (w < length (lb_bytes b))%nat -> (dotdot = k \/ nth k (lb_bytes b) 0 = slash) ->
  (forall i, (k < i <= w)%nat -> nth i (lb_bytes b) 0 <> slash) ->
  backtrack b dotdot w = Some k.
Proof.
  intros Hk Hw Hstop Hno. induction w as [|w IH]; [cbn; f_equal; lia|].
  cbn [backtrack]. unfold lb_index. rewrite (nth_error_nth' _ 0) by exact Hw. cbn [opt_bind].
  destruct (Nat.eq_dec k (S w)) as [->|Hne].
  - destruct Hstop as [->|Hs]; [now rewrite Nat.ltb_irrefl|]. rewrite Hs, Z.eqb_refl. now case_if.
  - replace (dotdot <? S w)%nat with true by (symmetry; apply Nat.ltb_lt; lia).
    destruct (Z.eqb_spec (nth (S w) (lb_bytes b) 0) slash) as [Hs|_]; [exfalso; apply (Hno (S w)); [lia|exact Hs]|].
    apply IH; [lia|lia|]. intros i Hi. apply Hno. lia.
Qed.

Lemma copy_element_holds n e : forall rest b t,
  ~ In slash e -> ends rest = true -> holds n b t -> (length t + length e <= n)%nat ->
  exists b', copy_element (e ++ rest) b = Some (rest, b') /\ holds n b' (t ++ e).
Proof.
  induction e as [|c e IH]; intros rest b t He Hr Hb Hn; cbn [app].
  - exists b. rewrite app_nil_r. split; [|exact Hb].
    destruct rest as [|c rest]; [reflexivity|]. cbn in *. now rewrite Hr.
  - cbn [copy_element]. destruct (Z.eqb_spec c slash) as [->|_]; [exfalso; apply He; now left|].
    cbn in Hn. destruct (append_holds n b t c Hb ltac:(lia)) as (b1 & -> & Hb1). cbn [opt_bind].
    destruct (IH rest b1 (t ++ [c])) as (b2 & -> & Hb2); auto.
    + intros Hi. apply He. now right.
    + rewrite length_app. cbn. lia.
    + exists b2. split; [reflexivity|]. now rewrite <- app_assoc in Hb2.
Qed.

(** * The loop follows the elements *)

Lemma Join_snoc c l e : Join (l ++ [e]) [c] = Join l [c] ++ (match l with [] => [] | _ => [c] end) ++ e.
Proof.
  destruct l as [|x l]; [reflexivity|]. revert x.
  induction l as [|y l IH]; intros x; [reflexivity|].
  change (Join ((x :: y :: l) ++ [e]) [c]) with (x ++ c :: Join ((y :: l) ++ [e]) [c]).
  rewrite IH. change (Join (x :: y :: l) [c]) with (x ++ c :: Join (y :: l) [c]).
  now rewrite <- !app_assoc.
Qed.

(** What goes before the next element. *)
Definition separator (st : elements) : list Z :=
  match element_list st with [] => [] | _ => [slash] end.

Lemma render_push rooted ups names e :
  render rooted (ups, e :: names) = render rooted (ups, names) ++ separator (ups, names) ++ e.
Proof.
  unfold render, separator, element_list. cbn [fst snd rev]. rewrite app_assoc, Join_snoc.
  now rewrite <- !app_assoc.
Qed.

Lemma render_up ups : render false (S ups, []) = render false (ups, []) ++ separator (ups, []) ++ [dot; dot].
Proof.
  unfold render, separator, element_list. cbn [fst snd rev app repeat]. rewrite !app_nil_r.
  now rewrite repeat_cons, Join_snoc.
Qed.

(** An element as it is written: not empty, no slash. *)
Definition good (e : list Z) : Prop := e <> [] /\ ~ In slash e.

Lemma names_length ups names :
  Forall good names -> element_list (ups, names) <> [] -> (0 < length (Join (element_list (ups, names)) [slash]))%nat.
Proof.
  intros Hg Hne. unfold element_list in *. cbn [fst snd] in *. destruct names as [|e names].
  - destruct ups as [|ups]; [contradiction|]. cbn [rev repeat app]. rewrite app_nil_r.
    destruct (repeat [dot; dot] ups); cbn; lia.
  - cbn [rev]. rewrite app_assoc, Join_snoc, !length_app. inversion Hg as [|? ? [He _] _]; subst.
    destruct e; [contradiction|]. cbn [length]. lia.
Qed.

(** The test before an element: something other than the root is there already. *)
Lemma render_base rooted ups names :
  Forall good names ->
  (rooted && negb (length (render rooted (ups, names)) =? 1)%nat
   || negb rooted && negb (length (render rooted (ups, names)) =? 0)%nat) =
  match separator (ups, names) with [] => false | _ => true end.
Proof.
  intros Hg. unfold separator, render. destruct (element_list (ups, names)) eqn:E.
  - now destruct rooted.
  - pose proof (names_length ups names Hg ltac:(congruence)) as H. rewrite E in H.
    destruct rooted; rewrite length_app; destruct (length (Join (l :: l0) [slash])); [lia|reflexivity|lia|reflexivity].
Qed.

Lemma render_prefix rooted ups names :
  (length (render rooted (ups, [])) <= length (render rooted (ups, names)))%nat.
Proof.
  induction names as [|e names IH]; [lia|]. rewrite render_push, !length_app. lia.
Qed.

(** One element of the path, with what follows it. *)
Lemma fold_element rooted e tail st :
  ~ In slash e -> ends tail = true ->
  fold_left (element_step rooted) (split_at slash (e ++ tail)) st =
  fold_left (element_step rooted) (split_at slash tail) (element_step rooted st e).
Proof.
  intros He Ht. assert (Hs : forall st, element_step rooted st [] = st) by (now intros []).
  destruct tail as [|c v].
  - rewrite app_nil_r, split_at_none by exact He. cbn [split_at fold_left]. now rewrite Hs.
  - apply Z.eqb_eq in Ht as ->. rewrite split_at_app by exact He.
    change (split_at slash (slash :: v)) with ([] :: split_at slash v). cbn [fold_left]. now rewrite Hs.
Qed.

Lemma first_element rest :
  ends rest = false -> exists c e tail, rest = (c :: e) ++ tail /\ good (c :: e) /\ ends tail = true.
Proof.
  destruct rest as [|c rest]; [discriminate|]. cbn [ends]. intros Hc.
  destruct (first_byte slash rest) as [H|(u & v & -> & H)].
  - exists c, rest, []. rewrite app_nil_r. repeat split; [discriminate|].
    intros [->|Hi]; [discriminate|contradiction].
  - exists c, u, (slash :: v). repeat split; [discriminate|].
    intros [->|Hi]; [discriminate|contradiction].
Qed.

(** The tests of the loop on the element at hand. *)
Lemma ends_app e tail : ~ In slash e -> ends tail = true -> ends (e ++ tail) = match e with [] => true | _ => false end.
Proof.
  intros He Ht. destruct e as [|c e]; [exact Ht|]. cbn. apply Z.eqb_neq. intros ->. apply He. now left.
Qed.

Inductive element_kind (c : Z) (e tail : list Z) : Prop :=
| IsDot : c = dot -> e = [] -> element_kind c e tail
| IsDotDot : c = dot -> e = [dot] -> element_kind c e tail
| IsName :
    (c =? dot) && ends (e ++ tail) = false ->
    (c =? dot) && (hd 0 (e ++ tail) =? dot) && ends (tl (e ++ tail)) = false ->
    str_eqb (c :: e) [dot] = false -> str_eqb (c :: e) [dot; dot] = false ->
    element_kind c e tail.

Lemma element_cases c e tail : good (c :: e) -> ends tail = true -> element_kind c e tail.
Proof.
  intros [_ He] Ht. assert (Hne : ~ In slash e) by (intros Hi; apply He; now right).
  destruct (Z.eqb_spec c dot) as [->|Hc].
  - destruct e as [|d e]; [now constructor|].
    destruct (Z.eqb_spec d dot) as [->|Hd].
    + destruct e as [|d' e]; [now constructor 2|].
      constructor 3; cbn [hd tl app]; rewrite ?Z.eqb_refl; cbn [andb].
      * reflexivity.
      * apply (ends_app (d' :: e) tail); [|exact Ht]. intros Hi. apply Hne. now right.
      * now apply neq_str_eqb.
      * now apply neq_str_eqb.
    + constructor 3; cbn [hd tl app]; rewrite ?Z.eqb_refl; cbn [andb].
      * now apply (ends_app (d :: e) tail).
      * now replace (d =? dot) with false by (symmetry; now apply Z.eqb_neq).
      * now apply neq_str_eqb.
      * apply neq_str_eqb. congruence.
  - apply Z.eqb_neq in Hc as Hb. constructor 3; rewrite ?Hb; cbn [andb]; try reflexivity;
      apply neq_str_eqb; congruence.
Qed.

(** Room for what can still be written. *)
Definition room (n : nat) (rooted : bool) (st : elements) (rest : list Z) : Prop :=
  (length (render rooted st) + (if ends rest then 0 else length (separator st)) + length rest <= n)%nat.

Lemma room_ends n rooted st rest :
  ends rest = true -> (length (render rooted st) + length rest <= n)%nat -> room n rooted st rest.
Proof. intros H Hn. unfold room. rewrite H. lia. Qed.

Lemma separator_length st : (length (separator st) <= 1)%nat.
Proof. unfold separator. destruct (element_list st); cbn; lia. Qed.

(** Writing an element, with a slash before it where one is due. *)
Lemma write_name n rooted ups names e tail out :
  holds n out (render rooted (ups, names)) -> Forall good names -> good e -> ends tail = true ->
  room n rooted (ups, names) (e ++ tail) ->
  exists out', opt_bind
    (if rooted && negb (lb_w out =? 1)%nat || negb rooted && negb (lb_w out =? 0)%nat
     then lb_append out slash else Some out) (copy_element (e ++ tail)) = Some (tail, out') /\
    holds n out' (render rooted (ups, e :: names)).
Proof.
  intros Ho Hg [He Hs] Ht Hr. unfold room in Hr. rewrite ends_app in Hr by assumption.
  replace (match e with [] => true | _ => false end) with false in Hr by now destruct e.
  rewrite length_app in Hr. pose proof Ho as (_ & _ & Hw & _).
  rewrite Hw, render_base by exact Hg. rewrite render_push. unfold separator in *.
  destruct (element_list (ups, names)).
  - destruct (copy_element_holds n e tail out _ Hs Ht Ho) as (o & E & H); [cbn in Hr; lia|].
    exists o. split; [exact E|exact H].
  - cbn in Hr. destruct (append_holds n out _ slash Ho ltac:(lia)) as (o1 & -> & H1). cbn [opt_bind].
    destruct (copy_element_holds n e tail o1 _ Hs Ht H1) as (o2 & -> & H2); [rewrite length_app; cbn; lia|].
    exists o2. split; [reflexivity|]. now rewrite <- app_assoc in H2.
Qed.

(** Writing [..] where nothing can be dropped. *)
Lemma write_up n ups tail out :
  holds n out (render false (ups, [])) -> ends tail = true ->
  room n false (ups, []) ([dot; dot] ++ tail) ->
  exists out1 out2 out',
    (if (0 <? lb_w out)%nat then lb_append out slash else Some out) = Some out1 /\
    lb_append out1 dot = Some out2 /\ lb_append out2 dot = Some out' /\
    holds n out' (render false (S ups, [])).
Proof.
  intros Ho Ht Hr. unfold room in Hr. rewrite length_app in Hr. cbn [ends app length] in Hr.
  replace (dot =? slash) with false in Hr by reflexivity; cbv iota in Hr. pose proof Ho as (_ & _ & Hw & _).
  assert (Hsep : (0 <? lb_w out)%nat = match separator (ups, []) with [] => false | _ => true end).
  { rewrite Hw, <- (render_base false) by constructor. cbn [andb orb].
    now destruct (length (render false (ups, []))). }
  rewrite Hsep, render_up.
  assert (H1 : exists o1, (if match separator (ups, []) with [] => false | _ => true end
      then lb_append out slash else Some out) = Some o1 /\
      holds n o1 (render false (ups, []) ++ separator (ups, []))).
  { unfold separator in *. destruct (element_list (ups, [])); [exists out; now rewrite app_nil_r|].
    cbn [length] in Hr. apply append_holds; [exact Ho|lia]. }
  destruct H1 as (o1 & E1 & H1). rewrite E1.
  destruct (append_holds n o1 _ dot H1) as (o2 & E2 & H2); [rewrite length_app; lia|].
  destruct (append_holds n o2 _ dot H2) as (o3 & E3 & H3); [rewrite !length_app; cbn [length]; lia|].
  exists o1, o2, o3. repeat split; try assumption; rewrite <- !app_assoc in H3; apply H3.
Qed.

(** Dropping the last name. *)
Lemma drop_name n rooted ups e names out :
  holds n out (render rooted (ups, e :: names)) -> good e -> Forall good names ->
  (length (render rooted (ups, [])) < lb_w out)%nat /\
  exists w, backtrack out (length (render rooted (ups, []))) (lb_w out - 1) = Some w /\
    holds n (with_w out w) (render rooted (ups, names)).
Proof.
  intros Ho [He Hs] Hg. pose proof Ho as (_ & _ & Hw & _).
  pose proof (render_prefix rooted ups names) as Hp.
  set (P := render rooted (ups, names)) in *. set (D := length (render rooted (ups, []))) in *.
  rewrite render_push in Ho, Hw. fold P in Ho, Hw. rewrite !length_app in Hw.
  assert (Hl : (0 < length e)%nat) by (destruct e; [contradiction|cbn; lia]).
  split; [lia|]. exists (length P). split; [|now apply (with_w_holds _ _ P (separator (ups, names) ++ e))].
  pose proof (holds_le _ _ _ Ho) as Hle. rewrite !length_app in Hle.
  apply backtrack_stops; [lia|destruct Ho as (_ & Hb & _); lia| |].
  - unfold separator in *. destruct (element_list (ups, names)) eqn:E.
    + left. assert (names = []) as ->; [|reflexivity]. unfold element_list in E. cbn [fst snd] in E.
      apply app_eq_nil in E as [_ E]. now destruct names; [|apply app_eq_nil in E as [_ E]].
    + right. rewrite (holds_nth n out _ (length P) Ho) by (rewrite length_app; cbn; lia).
      rewrite app_nth2, Nat.sub_diag by lia. reflexivity.
  - intros i Hi Hn. apply Hs. rewrite (holds_nth n out _ i Ho) in Hn by (rewrite !length_app; lia).
    pose proof (separator_length (ups, names)) as Hsl.
    rewrite app_nth2, app_nth2 in Hn by lia. rewrite <- Hn. apply nth_In. lia.
Qed.

Lemma clean_loop_spec n rooted fuel : forall rest ups names out,
  (length rest <= fuel)%nat -> holds n out (render rooted (ups, names)) ->
  (rooted = true -> ups = O) -> Forall good names -> room n rooted (ups, names) rest ->
  exists out', clean_loop fuel rooted rest (length (render rooted (ups, []))) out = Some out' /\
    holds n out' (render rooted (fold_left (element_step rooted) (split_at slash rest) (ups, names))).
Proof.
  induction fuel as [|fuel IH]; intros rest ups names out Hf Ho Hu Hg Hr.
  { destruct rest; [|cbn in Hf; lia]. exists out. now split. }
  destruct (ends rest) eqn:Er.
  { destruct rest as [|c rest]; [exists out; now split|]. apply Z.eqb_eq in Er as ->.
    cbn [clean_loop]. rewrite Z.eqb_refl. cbn [length] in Hf.
    change (split_at slash (slash :: rest)) with ([] :: split_at slash rest). cbn [fold_left].
    apply IH; try assumption; [lia|]. unfold room in *. cbn [length ends] in Hr. rewrite Z.eqb_refl in Hr.
    pose proof (separator_length (ups, names)). case_if; lia. }
  destruct (first_element rest Er) as (c & e & tail & -> & Hge & Ht).
  pose proof Hge as [_ Hs]. rewrite fold_element by assumption.
  assert (Hc : (c =? slash) = false) by (apply Z.eqb_neq; intros ->; apply Hs; now left).
  assert (Htl : (length tail <= fuel)%nat) by (rewrite length_app in Hf; cbn in Hf; lia).
  assert (Hrt : (length (render rooted (ups, names)) + length (c :: e) + length tail <= n)%nat).
  { unfold room in Hr. rewrite length_app in Hr. lia. }
  cbn [app clean_loop]. rewrite Hc.
  destruct (element_cases c e tail Hge Ht) as [Ec Ee|Ec Ee|H1 H2 H3 H4]; try subst c e.
  - (* a single dot *)
    cbn [app]. rewrite Z.eqb_refl, Ht. cbn [andb].
    change (element_step rooted (ups, names) [dot]) with (ups, names).
    apply IH; try assumption. apply room_ends; [exact Ht|lia].
  - (* two dots *)
    cbn [app hd tl ends]. rewrite Z.eqb_refl, Ht. replace (dot =? slash) with false by reflexivity.
    cbn [andb]. unfold element_step.
    replace (str_eqb [dot; dot] [] || str_eqb [dot; dot] [dot]) with false by reflexivity.
    rewrite str_eqb_refl. destruct names as [|d names].
    + pose proof Ho as (_ & _ & Hw & _). rewrite Hw, Nat.ltb_irrefl. destruct rooted; cbn [negb].
      * apply IH; try assumption. apply room_ends; [exact Ht|lia].
      * destruct (write_up n ups tail out Ho Ht Hr) as (o1 & o2 & o3 & E1 & E2 & E3 & H3).
        rewrite <- Hw, E1. cbn [opt_bind]. rewrite E2. cbn [opt_bind]. rewrite E3. cbn [opt_bind].
        pose proof H3 as (_ & _ & Hw3 & _). rewrite Hw3. apply IH; try assumption; [discriminate|].
        apply room_ends; [exact Ht|]. unfold room in Hr. rewrite length_app in Hr.
        cbn [ends app length] in Hr. replace (dot =? slash) with false in Hr by reflexivity; cbv iota in Hr.
        rewrite render_up, !length_app. cbn [length]. lia.
    + inversion Hg as [|? ? Hd Hgn]; subst. destruct (drop_name n rooted ups d names out Ho Hd Hgn) as [Hlt (w & Ew & Hb)].
      replace (length (render rooted (ups, [])) <? lb_w out)%nat with true by (symmetry; now apply Nat.ltb_lt).
      rewrite Ew. cbn [opt_bind].
      apply IH; try assumption. apply room_ends; [exact Ht|].
      rewrite render_push, !length_app in Hrt. lia.
  - (* a name *)
    rewrite H1, H2. destruct (write_name n rooted ups names (c :: e) tail out Ho Hg Hge Ht Hr) as (o & E & H).
    destruct (if rooted && _ || _ then lb_append out slash else Some out) as [o1|]; [|discriminate E].
    cbn [opt_bind] in E |- *. change (c :: e ++ tail) with ((c :: e) ++ tail). rewrite E. cbn [opt_bind].
    unfold element_step. rewrite H3, H4. replace (str_eqb (c :: e) []) with false by reflexivity. cbn [orb].
    apply IH; try assumption; [now constructor|]. apply room_ends; [exact Ht|].
    unfold room in Hr. rewrite ends_app in Hr by assumption. rewrite render_push, !length_app in *. lia.
Qed.

(** The loop and its buffer do what the elements say, for every path. *)
Lemma Clean_spec path : Clean path = Some (clean_spec path).
Proof.
  destruct path as [|c rest]; [reflexivity|].
  unfold Clean, clean_spec, clean_elements. set (path := c :: rest).
  replace (HasPrefix path [slash]) with (c =? slash) by (unfold path; cbn; now rewrite andb_true_r).
  set (out := mkLazybuf path None 0).
  assert (Ho : holds (length path) out (render false (O, []))) by (unfold out; repeat split).
  destruct (Z.eqb_spec c slash) as [->|Hc]; cbv iota.
  - destruct (append_holds (length path) out [] slash Ho ltac:(cbn; lia)) as (o & -> & H). cbn [opt_bind].
    change ([] ++ [slash]) with (render true (O, [])) in H.
    destruct (clean_loop_spec (length path) true (length path) rest O [] o) as (o' & E & H');
      [cbn; lia|exact H|reflexivity|constructor|unfold room; cbn; case_if; lia|].
    change (length (render true (O, []))) with 1%nat in E. rewrite E. cbn [opt_bind].
    change (split_at slash path) with ([] :: split_at slash rest). cbn [fold_left].
    change (element_step true (O, []) []) with (O, @nil (list Z)).
    destruct H' as (_ & _ & Hw & Hs). rewrite Hw, Hs. reflexivity.
  - destruct (clean_loop_spec (length path) false (length path) path O [] out) as (o' & E & H');
      [lia|exact Ho|discriminate|constructor|unfold room; cbn; case_if; lia|].
    change (length (render false (O, []))) with O in E. rewrite E. cbn [opt_bind].
    destruct H' as (_ & _ & Hw & Hs). rewrite Hw, Hs. now destruct (render false (fold_left _ _ _)).
Qed.

(** * Canonical paths *)

(** An element that stays as it is. *)
Definition fine (e : list Z) : Prop := good e /\ e <> [dot] /\ e <> [dot; dot].

Lemma fine_step ups names e : fine e -> element_step true (ups, names) e = (ups, e :: names).
Proof.
  intros ((Hne & _) & Hd & Hdd). unfold element_step.
  now rewrite !neq_str_eqb by assumption.
Qed.

Lemma fine_fold L : forall ups names,
  Forall fine L -> fold_left (element_step true) L (ups, names) = (ups, rev L ++ names).
Proof.
  induction L as [|e L IH]; intros ups names H; [reflexivity|].
  inversion H; subst. cbn [fold_left rev]. rewrite fine_step, IH, <- app_assoc by assumption. reflexivity.
Qed.

Lemma rooted_step names e :
  ~ In slash e -> Forall fine names ->
  exists names', element_step true (O, names) e = (O, names') /\ Forall fine names'.
Proof.
  intros He Hn. unfold element_step.
  destruct (str_eqb_spec e []) as [->|H1]; cbn [orb]; [eauto|].
  destruct (str_eqb_spec e [dot]) as [->|H2]; [eauto|].
  destruct (str_eqb_spec e [dot; dot]) as [->|H3].
  - destruct names as [|d names]; [eauto|]. inversion Hn; subst. eauto.
  - exists (e :: names). split; [reflexivity|]. constructor; [|assumption]. repeat split; assumption.
Qed.

Lemma clean_fine (es : list (list Z)) : forall names,
  Forall (fun e => ~ In slash e) es -> Forall fine names ->
  exists names', fold_left (element_step true) es (O, names) = (O, names') /\ Forall fine names'.
Proof.
  induction es as [|e es IH]; intros names He Hn; [now exists names|].
  apply List.Forall_cons_iff in He as [He1 He2]. cbn [fold_left].
  destruct (rooted_step names e) as (names1 & -> & H1); [assumption..|]. now apply IH.
Qed.

(** A rooted path of such elements, with or without a slash at its end. *)
Definition canonical (L : list (list Z)) (trailing : bool) : list Z :=
  slash :: Join L [slash] ++ (match L with [] => [] | _ => if trailing then [slash] else [] end).

Lemma render_canonical names : render true (O, names) = canonical (rev names) false.
Proof. unfold render, canonical, element_list. cbn [fst snd repeat app]. f_equal. destruct (rev names); now rewrite app_nil_r. Qed.

Lemma canonical_root L : Forall fine L -> canonical L false = [slash] -> L = [].
Proof.
  intros H E. destruct L as [|e L]; [reflexivity|]. inversion H as [|? ? ((He & _) & _) _]; subst.
  unfold canonical in E. rewrite app_nil_r, Join_more in E. now destruct e.
Qed.

Lemma canonical_trailing L : canonical L true = canonical L false ++ match L with [] => [] | _ => [slash] end.
Proof. unfold canonical. destruct L; [reflexivity|]. now rewrite app_nil_r, app_comm_cons. Qed.

Lemma last_slash (p : list Z) : last p 0 = slash -> exists q, p = q ++ [slash].
Proof.
  intros H. destruct p as [|c p] using rev_ind; [discriminate H|]. rewrite last_last in H. subst. eauto.
Qed.

Lemma prefix_of_slash (p np : list Z) :
  last p 0 = slash ->
  (if (length p =? length np + 1)%nat && HasPrefix p np then p else np ++ [slash]) = np ++ [slash].
Proof.
  intros H. case_if; [|reflexivity]. apply andb_true_iff in Heqb as [Hl Hp].
  apply Nat.eqb_eq in Hl. apply HasPrefix_spec in Hp as (t & ->). rewrite length_app in Hl.
  destruct t as [|x [|]]; cbn in Hl; try lia. rewrite last_last in H. now subst.
Qed.

(** The elements a rooted path is cleaned to. *)
Definition cleaned (p : list Z) : list (list Z) := rev (snd (clean_elements true p)).

Lemma cleaned_fine p : Forall fine (cleaned p) /\ clean_elements true p = (O, rev (cleaned p)).
Proof.
  unfold cleaned, clean_elements. destruct (clean_fine (split_at slash p) []) as (names & -> & H);
    [apply split_at_free|constructor|]. cbn [snd]. rewrite rev_involutive. split; [|reflexivity].
  now apply Forall_rev.
Qed.

(** What the router makes of a rooted path: its elements, and a slash at the end if there
    was one. *)
Lemma cleanPath_rooted p :
  HasPrefix p [slash] = true -> cleanPath p = Some (canonical (cleaned p) (last p 0 =? slash)).
Proof.
  intros Hp. destruct p as [|c rest]; [discriminate Hp|]. set (p := c :: rest) in *.
  assert (Hc : (c =? slash) = true) by (unfold p in Hp; cbn in Hp; now rewrite andb_true_r in Hp).
  unfold cleanPath, p. rewrite Hc. fold p. rewrite Clean_spec. cbn [opt_bind].
  destruct (cleaned_fine p) as [Hf He].
  assert (Hs : clean_spec p = canonical (cleaned p) false).
  { unfold clean_spec. rewrite Hp, He, render_canonical, rev_involutive. reflexivity. }
  rewrite Hs. destruct (Z.eqb_spec (last p 0) slash) as [Hl|_]; cbn [andb]; [|reflexivity].
  destruct (str_eqb_spec (canonical (cleaned p) false) [slash]) as [E|E]; cbn [negb].
  - apply canonical_root in E as E'; [|exact Hf]. rewrite E'. reflexivity.
  - rewrite canonical_trailing. pose proof (prefix_of_slash p (canonical (cleaned p) false) Hl) as Hx.
    destruct (cleaned p); [now exfalso; apply E|]. case_if; congruence.
Qed.

Lemma canonical_elements L trailing : Forall fine L -> cleaned (canonical L trailing) = L.
Proof.
  intros H. unfold cleaned, clean_elements.
  assert (Hs : exists t, split_at slash (canonical L trailing) = [] :: L ++ t /\ Forall (eq []) t).
  { unfold canonical. destruct L as [|e L]; [exists [[]]; split; [reflexivity|now repeat constructor]|].
    set (M := e :: L) in *. assert (HM : split_at slash (Join M [slash]) = M).
    { apply split_at_Join; [discriminate|]. eapply List.Forall_impl; [|exact H]. now intros ? ((_ & ?) & _). }
    cbn [split_at]. rewrite Z.eqb_refl. destruct trailing.
    - exists [[]]. rewrite split_at_app_last by auto. rewrite HM. auto.
    - exists []. rewrite !app_nil_r, HM. auto. }
  destruct Hs as (t & -> & Ht). cbn [fold_left]. change (element_step true (O, []) []) with (O, @nil (list Z)).
  rewrite fold_left_app, fine_fold by exact H. rewrite app_nil_r.
  assert (Hn : forall st, fold_left (element_step true) t st = st).
  { induction Ht as [|? ? <- _ IH]; intros []; [reflexivity|]. apply IH. }
  rewrite Hn. cbn [snd]. apply rev_involutive.
Qed.

(** A canonical path is clean: the router does not redirect it. *)
Lemma cleanPath_canonical L trailing :
  Forall fine L -> cleanPath (canonical L trailing) = Some (canonical L trailing).
Proof.
  intros H. rewrite cleanPath_rooted by reflexivity. rewrite canonical_elements by exact H. f_equal.
  destruct L as [|e L]; [reflexivity|]. set (M := e :: L) in *.
  destruct trailing.
  - replace (last (canonical M true) 0) with slash; [reflexivity|]. rewrite canonical_trailing.
    change (match M with [] => [] | _ => [slash] end) with [slash]. now rewrite last_last.
  - replace (last (canonical M false) 0 =? slash) with false; [reflexivity|]. symmetry.
    apply Z.eqb_neq. intros Hl. apply last_slash in Hl as (q & E).
    unfold canonical in E. destruct (exists_last (l := M)) as (M' & f & EM); [discriminate|].
    rewrite EM in E, H. apply Forall_app in H as [_ H]. inversion H as [|? ? ((Hne & Hs) & _) _]; subst.
    rewrite Join_snoc, app_assoc in E. destruct (exists_last (l := f)) as (f' & x & ->); [exact Hne|].
    rewrite !app_assoc in E. destruct (M' ++ [_]); rewrite ?app_nil_r, ?app_comm_cons in E;
      apply app_inj_tail in E as [_ ->]; apply Hs, in_or_app; right; now left.
Qed.

(** C23: Cleaning a path is done element by element: empty ones and [.] go, [..] takes the name
    before it, or stays in front of a path without a root.  The loop over the lazily copied
    buffer computes this for every path and never indexes out of the buffer. *)
Theorem Clean_refines path : Clean path = Some (clean_spec path).
Proof. apply Clean_spec. Qed.
