(* ===== verification/Glob.v ===== *)
(** Package path/filepath on Unix: match.go, and Split and Join of path.go and path_unix.go.
    The file system is given by what it answers: whether a name exists, and the names in a
    directory, nothing where it is not one or cannot be read. *)
From Stdlib Require Import ZArith Lia String Bool List.
From S2P Require Import Prelude Strconv Utf8 GoStrings Url PathClean.
Import ListNotations.
Local Open Scope Z_scope.
Local Open Scope go_scope.

Notation backslash := 92 (only parsing).
Notation caret := 94 (only parsing).
Notation dash := 45 (only parsing).

(** * Matching *)

Section Match.
Context {F : Type}.

Definition ErrBadPattern : error F := ErrNew "syntax error in pattern".

(** The stars at the beginning of a pattern, and the rest. *)
Fixpoint skip_stars (pattern : list Z) : list Z :=
  match pattern with
  | c :: p => if c =? star then skip_stars p else pattern
  | [] => []
  end.

(** The length of the chunk: up to the next star outside a class. *)
Fixpoint chunk_length (p : list Z) (inrange : bool) : nat :=
  match p with
  | [] => O
  | c :: p' =>
      if c =? backslash then
        match p' with
        | [] => 1%nat
        | _ :: p'' => S (S (chunk_length p'' inrange))
        end
      else if c =? lbracket then S (chunk_length p' true)
      else if c =? rbracket then S (chunk_length p' false)
      else if (c =? star) && negb inrange then O
      else S (chunk_length p' inrange)
  end.

(** [scanChunk]: whether there was a star, the chunk, and the rest. *)
Definition scanChunk (pattern : list Z) : bool * list Z * list Z :=
  let p := skip_stars pattern in
  let i := chunk_length p false in
  (HasPrefix pattern [star], firstn i p, skipn i p).

(** The rune at the beginning of a string, and what follows it. *)
Definition next_rune (s : list Z) : Z * Z * list Z :=
  let '(r, n) := DecodeRune s in (r, n, skipn (Z.to_nat n) s).

Definition getEsc (chunk : list Z) : result F (Z * list Z) :=
  let rune_of chunk :=
    let '(r, n, nchunk) := next_rune chunk in
    if (r =? RuneError) && (n =? 1) || negb (nonempty nchunk) then Err ErrBadPattern
    else Ok (r, nchunk) in
  match chunk with
  | [] => Err ErrBadPattern
  | c :: chunk' =>
      if (c =? dash) || (c =? rbracket) then Err ErrBadPattern
      else if c =? backslash then
        match chunk' with [] => Err ErrBadPattern | _ => rune_of chunk' end
      else rune_of chunk
  end.

(** The ranges of a class, after [nrange] of them: whether [r] is in one, and what follows
    the class.  Every range takes a byte or more. *)
Fixpoint class_loop (fuel : nat) (r : Z) (chunk : list Z) (nrange : nat) (match_ : bool)
  : result F (bool * list Z) :=
  match fuel with
  | O => Err ErrBadPattern
  | S fuel =>
      if HasPrefix chunk [rbracket] && (0 <? nrange)%nat then Ok (match_, tl chunk)
      else
        bind (getEsc chunk) (fun '(lo, chunk) =>
        bind (if HasPrefix chunk [dash] then getEsc (tl chunk) else Ok (lo, chunk)) (fun '(hi, chunk) =>
          class_loop fuel r chunk (S nrange) (match_ || (lo <=? r) && (r <=? hi))))
  end.

(** [matchChunk]: what follows the match, nothing where there is none.  [failed] is kept
    while the rest of the chunk is checked.  Every turn takes a byte of the chunk. *)
Fixpoint matchChunk_loop (fuel : nat) (chunk s : list Z) (failed : bool)
  : result F (option (list Z)) :=
  match fuel with
  | O => Err ErrBadPattern
  | S fuel =>
      match chunk with
      | [] => Ok (if failed then None else Some s)
      | c :: chunk' =>
          let failed := failed || negb (nonempty s) in
          let literal chunk :=
            match chunk with
            | [] => Err ErrBadPattern
            | c :: chunk' =>
                if failed then matchChunk_loop fuel chunk' s true
                else matchChunk_loop fuel chunk' (tl s) (negb (c =? hd 0 s))
            end in
          if c =? lbracket then
            let '(r, _, s') := if failed then (0, 0, s) else next_rune s in
            let negated := HasPrefix chunk' [caret] in
            let chunk := if negated then tl chunk' else chunk' in
            bind (class_loop (length chunk) r chunk 0 false) (fun '(match_, chunk) =>
              matchChunk_loop fuel chunk s' (failed || Bool.eqb match_ negated))
          else if c =? question then
            if failed then matchChunk_loop fuel chunk' s true
            else
              let '(_, _, s') := next_rune s in
              matchChunk_loop fuel chunk' s' (hd 0 s =? slash)
          else if c =? backslash then literal chunk'
          else literal chunk
      end
  end.

Definition matchChunk (chunk s : list Z) : result F (option (list Z)) :=
  matchChunk_loop (S (length chunk)) chunk s false.

(** The bytes a star takes: [k] on the name after the first match of the chunk behind one
    byte or more; the last chunk has to take the whole name. *)
Fixpoint star_loop (k : list Z -> result F bool) (chunk : list Z) (final : bool) (name : list Z)
  : result F bool :=
  match name with
  | [] => Ok false
  | c :: name' =>
      if c =? slash then Ok false
      else
        bind (matchChunk chunk name') (fun m =>
          match m with
          | Some t => if final && nonempty t then star_loop k chunk final name' else k t
          | None => star_loop k chunk final name'
          end)
  end.

(** The loop over the chunks; every turn takes a byte of the pattern. *)
Fixpoint Match_loop (fuel : nat) (pattern name : list Z) : result F bool :=
  match fuel with
  | O => Err ErrBadPattern
  | S fuel =>
      if negb (nonempty pattern) then Ok (negb (nonempty name))
      else
        let '(starred, chunk, rest) := scanChunk pattern in
        if starred && negb (nonempty chunk) then Ok (negb (Contains name [slash]))
        else
          let final := negb (nonempty rest) in
          let next := Match_loop fuel rest in
          let later := if starred then star_loop next chunk final name else Ok false in
          bind (matchChunk chunk name) (fun m =>
            match m with
            | Some t => if negb (nonempty t) || negb final then next t else later
            | None => later
            end)
  end.

Definition Match (pattern name : list Z) : result F bool :=
  Match_loop (S (length pattern)) pattern name.
End Match.

(** * Paths *)

(** [Split] at the last slash. *)
Definition Split (path : list Z) : list Z * list Z :=
  match LastIndexByte path slash with
  | Some i => (firstn (S i) path, skipn (S i) path)
  | None => ([], path)
  end.

(** [Join] from the first element that is not empty; [Clean] of path/filepath is that of
    path where there are no volumes. *)
Fixpoint Join (elem : list (list Z)) : option (list Z) :=
  match elem with
  | [] => Some []
  | e :: elem' => if nonempty e then Clean (GoStrings.Join elem [slash]) else Join elem'
  end.

Definition hasMeta (path : list Z) : bool :=
  existsb (fun c => one_of c "*?[" || (c =? backslash)) path.

(** [cleanGlobPath] chops off the trailing slash. *)
Definition cleanGlobPath (path : list Z) : list Z :=
  if str_eqb path [] then [dot]
  else if str_eqb path [slash] then path
  else firstn (length path - 1) path.

(** * Glob *)

Section Glob.
Context {F : Type}.
Variable Lstat : list Z -> bool.
Variable Readdirnames : list Z -> option (list (list Z)).

(** The loop of [glob] over the names of [dir]. *)
Fixpoint glob_loop (dir pattern : list Z) (names matches : list (list Z)) : result F (list (list Z)) :=
  match names with
  | [] => Ok matches
  | n :: names' =>
      matched <- Match pattern n ;;
      if matched : bool then
        p <- from_option (Join [dir; n]) ;;
        glob_loop dir pattern names' (matches ++ [p])
      else glob_loop dir pattern names' matches
  end.

Definition glob (dir pattern : list Z) (matches : list (list Z)) : result F (list (list Z)) :=
  match Readdirnames dir with
  | None => Ok matches
  | Some names => glob_loop dir pattern (sort_keys names) matches
  end.

(** The directories of the pattern, in turn. *)
Fixpoint glob_dirs (dirs : list (list Z)) (file : list Z) (matches : list (list Z))
  : result F (list (list Z)) :=
  match dirs with
  | [] => Ok matches
  | d :: dirs' => m <- glob d file matches ;; glob_dirs dirs' file m
  end.

(** [globWithLimit] with [limit] levels left. *)
Fixpoint globWithLimit (limit : nat) (pattern : list Z) : result F (list (list Z)) :=
  match limit with
  | O => Err ErrBadPattern
  | S limit =>
      check Match pattern [] ;;
      if negb (hasMeta pattern) then Ok (if Lstat pattern then [pattern] else [])
      else
        let '(dir, file) := Split pattern in
        let dir := cleanGlobPath dir in
        if negb (hasMeta dir) then glob dir file []
        else if str_eqb dir pattern then Err ErrBadPattern
        else
          m <- globWithLimit limit dir ;;
          glob_dirs m file []
  end.

Definition pathSeparatorsLimit : Z := 10000.

Definition Glob (pattern : list Z) : result F (list (list Z)) :=
  globWithLimit (Z.to_nat pathSeparatorsLimit) pattern.
End Glob.
