(* ===== verification/GlobSpec.v ===== *)
(** Theorems about path/filepath: [Match] against the terms it reads, and [Glob] on the
    pattern of a directory and a name. *)
From Stdlib Require Import ZArith Lia String Bool List Permutation.
From S2P Require Import Prelude Strconv Utf8 GoStrings Url UrlSpec PathClean Glob.
Import ListNotations.
Local Open Scope Z_scope.

(** * Patterns *)

(** What stands for one character. *)
Inductive op :=
| OLit (c : Z)
| OAny
| OClass (negated : bool) (ranges : list (Z * Z)).

Inductive term := TStar | TOp (o : op).

Definition in_ranges (ranges : list (Z * Z)) (r : Z) : bool :=
  existsb (fun lh => (fst lh <=? r) && (r <=? snd lh)) ranges.

(** What follows a character that the operator takes. *)
Definition op_step (o : op) (s : list Z) : option (list Z) :=
  match s with
  | [] => None
  | c :: s' =>
      match o with
      | OLit x => if x =? c then Some s' else None
      | OAny => if c =? slash then None else Some (snd (next_rune s))
      | OClass negated ranges =>
          if Bool.eqb (in_ranges ranges (fst (fst (next_rune s)))) negated then None
          else Some (snd (next_rune s))
      end
  end.

Fixpoint ops_match (ops : list op) (s : list Z) : option (list Z) :=
  match ops with
  | [] => Some s
  | o :: ops' => match op_step o s with Some s' => ops_match ops' s' | None => None end
  end.

(** The reference: a star takes any bytes but a separator, tried one after the other. *)
Fixpoint wild_match (terms : list term) (s : list Z) : bool :=
  match terms with
  | [] => negb (nonempty s)
  | TOp o :: terms' => match op_step o s with Some s' => wild_match terms' s' | None => false end
  | TStar :: terms' =>
      (fix star_match s :=
         wild_match terms' s ||
         match s with [] => false | c :: s' => negb (c =? slash) && star_match s' end) s
  end.

(** * Reading a pattern *)

Section Read.
Context {F : Type}.

Fixpoint read_ranges (fuel : nat) (chunk : list Z) (nrange : nat) : option (list (Z * Z) * list Z) :=
  match fuel with
  | O => None
  | S fuel =>
      if HasPrefix chunk [rbracket] && (0 <? nrange)%nat then Some ([], tl chunk)
      else
        match getEsc (F := F) chunk with
        | Ok (lo, chunk) =>
            match (if HasPrefix chunk [dash] then getEsc (F := F) (tl chunk) else Ok (lo, chunk)) with
            | Ok (hi, chunk) =>
                match read_ranges fuel chunk (S nrange) with
                | Some (rs, rest) => Some ((lo, hi) :: rs, rest)
                | None => None
                end
            | _ => None
            end
        | _ => None
        end
  end.

Fixpoint read_chunk (fuel : nat) (chunk : list Z) : option (list op) :=
  match fuel with
  | O => None
  | S fuel =>
      match chunk with
      | [] => Some []
      | c :: chunk' =>
          if c =? lbracket then
            let negated := HasPrefix chunk' [caret] in
            let chunk := if negated then tl chunk' else chunk' in
            match read_ranges (length chunk) chunk 0 with
            | Some (rs, rest) => option_map (cons (OClass negated rs)) (read_chunk fuel rest)
            | None => None
            end
          else if c =? question then option_map (cons OAny) (read_chunk fuel chunk')
          else if c =? backslash then
            match chunk' with
            | [] => None
            | x :: chunk'' => option_map (cons (OLit x)) (read_chunk fuel chunk'')
            end
          else option_map (cons (OLit c)) (read_chunk fuel chunk')
      end
  end.

Fixpoint read_pattern (fuel : nat) (pattern : list Z) : option (list term) :=
  match fuel with
  | O => None
  | S fuel =>
      if negb (nonempty pattern) then Some []
      else
        let '(starred, chunk, rest) := scanChunk pattern in
        match read_chunk (S (length chunk)) chunk, read_pattern fuel rest with
        | Some ops, Some terms => Some ((if starred then [TStar] else []) ++ map TOp ops ++ terms)
        | _, _ => None
        end
  end.

(** The terms of a pattern; nothing where it is malformed. *)
Definition terms_of (pattern : list Z) : option (list term) := read_pattern (S (length pattern)) pattern.

(** ** The matcher reads the same *)

Lemma getEsc_cases chunk :
  (exists r rest, getEsc (F := F) chunk = Ok (r, rest)) \/ getEsc (F := F) chunk = Err ErrBadPattern.
Proof.
  unfold getEsc. destruct chunk as [|c chunk]; [now right|]. case_if; [now right|].
  assert (H : forall ch, (exists r rest,
    (let '(r, n, nchunk) := next_rune ch in
     if (r =? RuneError) && (n =? 1) || negb (nonempty nchunk) then Err ErrBadPattern else Ok (r, nchunk))
    = Ok (F := F) (r, rest)) \/
    (let '(r, n, nchunk) := next_rune ch in
     if (r =? RuneError) && (n =? 1) || negb (nonempty nchunk) then Err ErrBadPattern else Ok (F := F) (r, nchunk))
    = Err ErrBadPattern).
  { intros ch. destruct (next_rune ch) as [[r n] nchunk]. case_if; [now right|]. left. eauto. }
  case_if; [destruct chunk; [now right|]|]; apply H.
Qed.

Lemma class_loop_reads r fuel : forall chunk nrange m,
  class_loop (F := F) fuel r chunk nrange m =
  match read_ranges fuel chunk nrange with
  | Some (rs, rest) => Ok (m || in_ranges rs r, rest)
  | None => Err ErrBadPattern
  end.
Proof.
  induction fuel as [|fuel IH]; intros chunk nrange m; [reflexivity|].
  cbn [class_loop read_ranges]. case_if; [cbn; now rewrite orb_false_r|].
  destruct (getEsc_cases chunk) as [(lo & c1 & ->)| ->]; [|reflexivity]. cbn [bind].
  assert (Hh : (exists hi rest, (if HasPrefix c1 [dash] then getEsc (F := F) (tl c1) else Ok (lo, c1)) = Ok (hi, rest)) \/
               (if HasPrefix c1 [dash] then getEsc (F := F) (tl c1) else Ok (lo, c1)) = Err ErrBadPattern).
  { case_if; [apply getEsc_cases|left; eauto]. }
  destruct Hh as [(hi & c2 & ->)| ->]; [|reflexivity]. cbn [bind]. rewrite IH.
  destruct (read_ranges fuel c2 (S nrange)) as [[rs rest]|]; [|reflexivity].
  cbn [in_ranges existsb fst snd]. now rewrite orb_assoc.
Qed.

Lemma matchChunk_loop_reads fuel : forall chunk s failed,
  matchChunk_loop (F := F) fuel chunk s failed =
  match read_chunk fuel chunk with
  | Some ops => Ok (if failed then None else ops_match ops s)
  | None => Err ErrBadPattern
  end.
Proof.
  induction fuel as [|fuel IH]; intros chunk s failed; [reflexivity|].
  destruct chunk as [|c chunk]; [reflexivity|].
  assert (Hlit : forall x rest,
    (if failed || negb (nonempty s) then matchChunk_loop fuel rest s true
     else matchChunk_loop fuel rest (tl s) (negb (x =? hd 0 s))) =
    match option_map (cons (OLit x)) (read_chunk fuel rest) with
    | Some ops => Ok (F := F) (if failed then None else ops_match ops s)
    | None => Err ErrBadPattern
    end).
  { intros x rest. rewrite !IH. destruct (read_chunk fuel rest) as [ops|]; cbn [option_map];
      destruct failed, s as [|y s]; cbn; try reflexivity; destruct (x =? y); reflexivity. }
  cbn [matchChunk_loop read_chunk]. case_if.
  { destruct (if failed || negb (nonempty s) then (0, 0, s) else next_rune s) as [[r n] s'] eqn:Er.
    set (ch := if HasPrefix chunk [caret] then tl chunk else chunk). rewrite class_loop_reads.
    destruct (read_ranges (length ch) ch 0) as [[rs rest]|]; [|reflexivity]. cbn [bind orb]. rewrite IH.
    destruct (read_chunk fuel rest) as [ops|]; [|reflexivity]. cbn [option_map].
    destruct failed, s as [|y s]; try reflexivity. cbn [orb negb nonempty ops_match op_step] in *.
    rewrite Er. cbn [fst snd]. now case_if. }
  case_if.
  { destruct failed, s as [|y s]; cbn [orb negb nonempty]; try (rewrite IH; now destruct (read_chunk fuel chunk)).
    destruct (next_rune (y :: s)) as [[r n] s'] eqn:Er. rewrite IH.
    destruct (read_chunk fuel chunk) as [ops|]; [|reflexivity]. cbn [option_map ops_match op_step hd].
    rewrite Er. now case_if. }
  case_if; [|apply Hlit]. destruct chunk as [|x chunk]; [reflexivity|apply Hlit].
Qed.

Lemma matchChunk_reads chunk s :
  matchChunk (F := F) chunk s =
  match read_chunk (S (length chunk)) chunk with
  | Some ops => Ok (ops_match ops s)
  | None => Err ErrBadPattern
  end.
Proof. apply matchChunk_loop_reads. Qed.

(** ** Chunks *)

Lemma skip_stars_length p : (length (skip_stars p) <= length p)%nat.
Proof. induction p as [|c p IH]; cbn; [lia|]. case_if; cbn [length]; lia. Qed.

Lemma skip_stars_no_star p : HasPrefix (skip_stars p) [star] = false.
Proof.
  induction p as [|c p IH]; [reflexivity|]. cbn [skip_stars]. case_if; [exact IH|].
  cbn [HasPrefix]. now rewrite Heqb.
Qed.

Lemma skip_stars_none p : HasPrefix p [star] = false -> skip_stars p = p.
Proof.
  destruct p as [|c p]; [reflexivity|]. cbn [HasPrefix skip_stars]. rewrite andb_true_r. now intros ->.
Qed.

(** The rest begins with a star, if there is any. *)
Lemma chunk_rest p inrange : HasPrefix (skipn (chunk_length p inrange) p) [star] = true \/ skipn (chunk_length p inrange) p = [].
Proof.
  revert inrange. induction p as [p IH] using (induction_ltof1 _ (@length Z)). unfold ltof in IH. intros inrange.
  destruct p as [|c p]; [now right|]. cbn [chunk_length]. case_if.
  { destruct p as [|d p]; [now right|]. cbn [skipn]. apply IH. cbn [length]. lia. }
  case_if; [cbn [skipn]; apply IH; cbn [length]; lia|].
  case_if; [cbn [skipn]; apply IH; cbn [length]; lia|].
  case_if; [|cbn [skipn]; apply IH; cbn [length]; lia].
  left. apply andb_true_iff in Heqb2 as [E _]. cbn. now rewrite E.
Qed.

Lemma chunk_empty p : HasPrefix p [star] = false -> chunk_length p false = O -> p = [].
Proof.
  destruct p as [|c p]; [reflexivity|]. cbn [HasPrefix chunk_length]. rewrite andb_true_r. intros E.
  rewrite E. repeat case_if; try destruct p; discriminate.
Qed.

(** What [scanChunk] gives. *)
Lemma scanChunk_spec pattern starred chunk rest :
  scanChunk pattern = (starred, chunk, rest) -> pattern <> [] ->
  (length rest < length pattern)%nat /\ (rest = [] \/ HasPrefix rest [star] = true) /\
  (chunk = [] -> rest = [] /\ starred = true).
Proof.
  unfold scanChunk. intros [= <- <- <-] Hp. set (p := skip_stars pattern).
  pose proof (skip_stars_no_star pattern) as Hn. pose proof (skip_stars_length pattern) as Hl. fold p in Hn, Hl.
  pose proof (chunk_rest p false) as Hr. split; [|split].
  - assert (0 < length pattern)%nat by (destruct pattern; [contradiction|cbn; lia]).
    rewrite length_skipn. destruct (chunk_length p false) eqn:E; [|lia].
    apply chunk_empty in E; [|exact Hn]. rewrite E. cbn. lia.
  - tauto.
  - intros E. assert (Ep : p = []).
    { destruct p as [|c p']; [reflexivity|]. apply chunk_empty; [exact Hn|].
      destruct (chunk_length (c :: p') false); [reflexivity|discriminate E]. }
    rewrite Ep. split; [reflexivity|]. apply not_false_iff_true. intros Es. apply Hp. rewrite <- (skip_stars_none pattern Es). exact Ep.
Qed.
End Read.

(** * Operators that take one byte *)

(** Every character of an ASCII name is a byte; a class or a question mark may otherwise
    start inside a character.  A class that takes the separator is left out too. *)
Definition tame_op (ascii : bool) (o : op) : bool :=
  match o with
  | OLit _ => true
  | OAny => ascii
  | OClass negated ranges => ascii && Bool.eqb (in_ranges ranges slash) negated
  end.

Definition tame_term (ascii : bool) (t : term) : bool :=
  match t with TStar => true | TOp o => tame_op ascii o end.

Definition is_ascii (c : Z) : Prop := 0 <= c < 0x80.
Definition name_is (ascii : bool) (name : list Z) : Prop := ascii = true -> Forall is_ascii name.

Lemma name_is_tl ascii c s : name_is ascii (c :: s) -> name_is ascii s.
Proof. intros H E. specialize (H E). now inversion H. Qed.

Lemma DecodeRune_ascii c s : is_ascii c -> DecodeRune (c :: s) = (c, 1).
Proof.
  intros H. unfold is_ascii in H. rewrite DecodeRune_head, first_of_closed by (unfold is_byte; lia).
  unfold first_closed. now replace (c <? 0x80) with true by (symmetry; apply Z.ltb_lt; lia).
Qed.

Lemma next_rune_ascii c s : is_ascii c -> next_rune (c :: s) = (c, 1, s).
Proof. intros H. unfold next_rune. rewrite DecodeRune_ascii by exact H. reflexivity. Qed.

Lemma tame_step ascii o s s' :
  tame_op ascii o = true -> name_is ascii s -> op_step o s = Some s' ->
  exists c, s = c :: s' /\ (c = slash <-> o = OLit slash).
Proof.
  intros Ht Hn E. destruct s as [|c s]; [discriminate E|]. exists c.
  destruct o as [x| |negated rs]; cbn [op_step tame_op] in *.
  - destruct (Z.eqb_spec x c) as [->|]; [|discriminate E]. injection E as ->.
    split; [reflexivity|]. split; congruence.
  - destruct (Z.eqb_spec c slash) as [|Hc]; [discriminate E|]. specialize (Hn Ht). inversion Hn; subst.
    rewrite next_rune_ascii in E by assumption. injection E as <-.
    split; [reflexivity|]. split; [contradiction|discriminate].
  - apply andb_true_iff in Ht as [Ha Hs]. specialize (Hn Ha). inversion Hn; subst.
    rewrite next_rune_ascii in E by assumption. cbn [fst snd] in E. case_if_in E; [discriminate E|].
    injection E as ->. split; [reflexivity|]. split; [intros ->; congruence|discriminate].
Qed.

Lemma ops_match_bytes ascii ops : forall s t,
  forallb (tame_op ascii) ops = true -> name_is ascii s -> ops_match ops s = Some t ->
  exists u, s = u ++ t /\ Forall2 (fun o c => c = slash <-> o = OLit slash) ops u.
Proof.
  induction ops as [|o ops IH]; intros s t Ht Hn E.
  { injection E as ->. exists []. split; [reflexivity|constructor]. }
  cbn [forallb ops_match] in *. apply andb_true_iff in Ht as [Ho Ht].
  destruct (op_step o s) as [s1|] eqn:Es; [|discriminate E].
  destruct (tame_step ascii o s s1 Ho Hn Es) as (c & -> & Hc).
  destruct (IH s1 t Ht (name_is_tl _ _ _ Hn) E) as (u & -> & Hu). exists (c :: u). split; [reflexivity|]. now constructor.
Qed.

(** ** The first match is enough *)

Lemma Forall2_nth {A B} (R : A -> B -> Prop) l m d a b :
  Forall2 R l m -> nth_error l d = Some a -> nth_error m d = Some b -> R a b.
Proof.
  intros H. revert d. induction H as [|x y l m Hxy _ IH]; intros [|d] Ha Hb; try discriminate Ha.
  - cbn in *. congruence.
  - now apply (IH d).
Qed.

(** Of two matches, the later one behind bytes that are no separators, neither takes a
    separator. *)
Lemma no_separator ops (u v w t t' : list Z) :
  Forall2 (fun o c => c = slash <-> o = OLit slash) ops u ->
  Forall2 (fun o c => c = slash <-> o = OLit slash) ops v ->
  u ++ t = w ++ v ++ t' -> w <> [] -> ~ In slash w -> ~ In slash u.
Proof.
  intros Hu Hv E Hw Hs. assert (Hlen : length u = length v).
  { apply Forall2_length in Hu. apply Forall2_length in Hv. congruence. }
  assert (Hno : forall d, nth_error u d <> Some slash).
  { induction d as [d IH] using (well_founded_induction Wf_nat.lt_wf). intros Hd.
    assert (Hdu : (d < length u)%nat) by (apply nth_error_Some; congruence).
    assert (Hin : nth_error (w ++ v ++ t') d = Some slash) by (rewrite <- E, nth_error_app1; assumption).
    destruct (Nat.lt_ge_cases d (length w)) as [Hlt|Hge].
    { rewrite nth_error_app1 in Hin by exact Hlt. apply nth_error_In in Hin. contradiction. }
    rewrite nth_error_app2 in Hin by exact Hge. rewrite nth_error_app1 in Hin by (destruct w; [contradiction|cbn in *; lia]).
    assert (Hd' : (d - length w < d)%nat) by (destruct w; [contradiction|cbn in *; lia]).
    destruct (nth_error ops (d - length w)) as [o|] eqn:Eo.
    2: { apply nth_error_None in Eo. apply Forall2_length in Hv. lia. }
    pose proof (Forall2_nth _ _ _ _ _ _ Hv Eo Hin) as [Ho _]. specialize (Ho eq_refl). subst o.
    destruct (nth_error u (d - length w)) as [c|] eqn:Ec.
    2: { apply nth_error_None in Ec. lia. }
    pose proof (Forall2_nth _ _ _ _ _ _ Hu Eo Ec) as [_ Hc]. specialize (Hc eq_refl). subst c.
    exact (IH _ Hd' Ec). }
  intros Hi. apply In_nth_error in Hi as [d Hd]. exact (Hno d Hd).
Qed.

(** * The matcher and the reference *)

Lemma wild_star_eq T s :
  wild_match (TStar :: T) s =
  wild_match T s || match s with [] => false | c :: s' => negb (c =? slash) && wild_match (TStar :: T) s' end.
Proof. now destruct s. Qed.

Lemma wild_star T s :
  wild_match (TStar :: T) s = true <-> exists w s', s = w ++ s' /\ ~ In slash w /\ wild_match T s' = true.
Proof.
  induction s as [|c s IH]; rewrite wild_star_eq, orb_true_iff.
  - split; [intros [H|H]; [exists [], []; auto|discriminate]|]. intros ([|x w] & s' & E & _ & H); [|discriminate E].
    left. cbn in E. now subst s'.
  - rewrite andb_true_iff, IH. split.
    + intros [H|[Hc (w & s' & -> & Hw & H)]]; [exists [], (c :: s); auto|].
      exists (c :: w), s'. repeat split; [|exact H]. apply negb_true_iff, Z.eqb_neq in Hc. intros [E|E]; [congruence|contradiction].
    + intros ([|x w] & s' & E & Hw & H); [left; cbn in E; now subst s'|right]. injection E as <- ->.
      split; [apply negb_true_iff, Z.eqb_neq; intros ->; apply Hw; now left|].
      exists w, s'. repeat split; [|exact H]. intros Hi. apply Hw. now right.
Qed.

Lemma wild_ops ops T s :
  wild_match (map TOp ops ++ T) s = match ops_match ops s with Some t => wild_match T t | None => false end.
Proof.
  revert s. induction ops as [|o ops IH]; intros s; [reflexivity|]. cbn [map app wild_match ops_match].
  destruct (op_step o s); [apply IH|reflexivity].
Qed.

Lemma Forall2_same_slash ops u v :
  Forall2 (fun o c => c = slash <-> o = OLit slash) ops u ->
  Forall2 (fun o c => c = slash <-> o = OLit slash) ops v -> ~ In slash u -> ~ In slash v.
Proof.
  intros Hu. revert v. induction Hu as [|o c ops u Hc _ IH]; intros v Hv Hs Hi; inversion Hv as [|? d ? v' Hd Hv']; subst; [destruct Hi|].
  destruct Hi as [->|Hi]; [apply Hs; left; tauto|]. apply (IH v' Hv'); [|exact Hi]. intros H. apply Hs. now right.
Qed.

(** If a later match of the chunk leads to a match, so does the first. *)
Lemma first_is_enough ascii ops T c w s t :
  forallb (tame_op ascii) ops = true -> name_is ascii (c :: w ++ s) ->
  ~ In slash (c :: w) -> ops_match ops (c :: w ++ s) = Some t ->
  wild_match (map TOp ops ++ TStar :: T) s = true -> wild_match (TStar :: T) t = true.
Proof.
  intros Ht Hn Hw E1 H. rewrite wild_ops in H. destruct (ops_match ops s) as [t'|] eqn:E2; [|discriminate H].
  destruct (ops_match_bytes ascii ops _ _ Ht Hn E1) as (u & Eu & Hu).
  assert (Hns : name_is ascii s).
  { intros Ha. specialize (Hn Ha). change (c :: w ++ s) with ((c :: w) ++ s) in Hn. now apply List.Forall_app in Hn. }
  destruct (ops_match_bytes ascii ops _ _ Ht Hns E2) as (v & -> & Hv).
  change (c :: w ++ v ++ t') with ((c :: w) ++ v ++ t') in Eu. set (w' := c :: w) in *.
  pose proof (no_separator ops u v w' t t' Hu Hv (eq_sym Eu) ltac:(discriminate) Hw) as Hsu.
  pose proof (Forall2_same_slash ops u v Hu Hv Hsu) as Hsv.
  assert (Hlen : length u = length v).
  { apply Forall2_length in Hu. apply Forall2_length in Hv. congruence. }
  apply wild_star in H as (w2 & s2 & -> & Hw2 & H). apply wild_star.
  exists (skipn (length u) (w' ++ v) ++ w2), s2. split; [|split; [|exact H]].
  - apply (f_equal (skipn (length u))) in Eu. rewrite skipn_length_app in Eu. rewrite <- Eu, <- !app_assoc.
    rewrite (app_assoc w' v), skipn_app. replace (length u - length (w' ++ v))%nat with O by (rewrite length_app; lia).
    reflexivity.
  - intros Hi. apply in_app_or in Hi as [Hi|Hi]; [|contradiction].
    assert (Hin : In slash (w' ++ v)).
    { rewrite <- (firstn_skipn (length u) (w' ++ v)). apply in_or_app. now right. }
    apply in_app_or in Hin as [?|?]; contradiction.
Qed.

Section Matcher.
Context {F : Type}.

(** What follows a chunk: nothing after the last one, and a star after every other. *)
Definition follows (final : bool) (T : list term) : Prop :=
  if final then T = [] else exists T', T = TStar :: T'.

(** The search behind a star, started before a byte [c] that the star takes. *)
Lemma star_loop_spec (k : list Z -> result F bool) chunk ops ascii final T :
  read_chunk (F := F) (S (length chunk)) chunk = Some ops -> forallb (tame_op ascii) ops = true ->
  (forall t, name_is ascii t -> k t = Ok (wild_match T t)) -> follows final T ->
  forall name c, name_is ascii name -> c <> slash ->
  star_loop k chunk final (c :: name) = Ok (wild_match (TStar :: map TOp ops ++ T) name).
Proof.
  intros Hr Ht Hk Hf. induction name as [|d name IH]; intros c Hn Hc; apply Z.eqb_neq in Hc.
  all: cbn [star_loop]; rewrite Hc, matchChunk_reads, Hr; cbn [bind]; rewrite wild_star_eq, wild_ops.
  - destruct (ops_match ops []) as [t|] eqn:E; [|reflexivity]. rewrite orb_false_r.
    destruct (ops_match_bytes ascii ops [] t Ht Hn E) as (u & Eu & _). symmetry in Eu. apply app_eq_nil in Eu as [_ ->].
    rewrite andb_false_r. now apply Hk.
  - assert (Hl : star_loop k chunk final (d :: name) = Ok (negb (d =? slash) && wild_match (TStar :: map TOp ops ++ T) name)).
    { destruct (Z.eqb_spec d slash) as [->|Hd]; [reflexivity|]. cbn [negb andb]. apply IH; [|exact Hd]. exact (name_is_tl _ _ _ Hn). }
    destruct (ops_match ops (d :: name)) as [t|] eqn:E; [|exact Hl].
    destruct (ops_match_bytes ascii ops _ t Ht Hn E) as (u & Eu & _).
    assert (Hnt : name_is ascii t).
    { intros Ha. specialize (Hn Ha). rewrite Eu in Hn. now apply List.Forall_app in Hn. }
    unfold follows in Hf. destruct final; cbn [andb].
    + subst T. destruct t as [|x t]; cbn [nonempty].
      * rewrite Hk by exact Hnt. reflexivity.
      * cbn [wild_match nonempty negb orb]. exact Hl.
    + destruct Hf as [T' ->]. rewrite Hk by exact Hnt. f_equal.
      destruct (wild_match (TStar :: T') t) eqn:Ew; [reflexivity|]. cbn [orb]. symmetry. apply not_true_iff_false.
      intros [Hd H]%andb_true_iff. apply negb_true_iff, Z.eqb_neq in Hd. apply wild_star in H as (w & s' & -> & Hw & H).
      rewrite (first_is_enough ascii ops T' d w s' t) in Ew; try assumption; [discriminate Ew|].
      intros [?|?]; [congruence|contradiction].
Qed.

Lemma read_pattern_star fuel rest T :
  read_pattern (F := F) fuel rest = Some T -> rest = [] \/ HasPrefix rest [star] = true ->
  follows (negb (nonempty rest)) T.
Proof.
  intros E [->|Hs].
  - destruct fuel; cbn in E; [discriminate E|]. injection E as <-. reflexivity.
  - destruct rest as [|c rest]; [discriminate Hs|]. cbn [nonempty negb follows].
    destruct fuel; cbn [read_pattern] in E; [discriminate E|].
    cbn [nonempty negb] in E. destruct (scanChunk (c :: rest)) as [[st ch] rs] eqn:Ec.
    assert (st = true) as -> by (unfold scanChunk in Ec; rewrite Hs in Ec; now injection Ec).
    destruct (read_chunk _ ch) as [ops|]; [|discriminate E].
    destruct (read_pattern fuel rs) as [T'|]; [|discriminate E]. injection E as <-. cbn. eauto.
Qed.

Lemma tame_ops ascii ops : forallb (tame_term ascii) (map TOp ops) = forallb (tame_op ascii) ops.
Proof. induction ops as [|o ops IH]; [reflexivity|]. cbn. now rewrite IH. Qed.

Lemma Match_loop_terms ascii fuel : forall pattern terms name,
  read_pattern (F := F) fuel pattern = Some terms -> forallb (tame_term ascii) terms = true ->
  name_is ascii name -> Match_loop (F := F) fuel pattern name = Ok (wild_match terms name).
Proof.
  induction fuel as [|fuel IH]; intros pattern terms name E Ht Hn; [discriminate E|].
  cbn [read_pattern Match_loop] in *. destruct (nonempty pattern) eqn:Ep; cbn [negb] in *.
  2: { injection E as <-. reflexivity. }
  assert (Hp : pattern <> []) by (destruct pattern; [discriminate Ep|discriminate]).
  destruct (scanChunk pattern) as [[starred chunk] rest] eqn:Ec.
  destruct (scanChunk_spec pattern starred chunk rest Ec Hp) as (_ & Hrest & Hempty).
  destruct (read_chunk (S (length chunk)) chunk) as [ops|] eqn:Er; [|discriminate E].
  destruct (read_pattern fuel rest) as [T|] eqn:Et; [|discriminate E]. injection E as <-.
  rewrite !forallb_app, tame_ops in Ht. apply andb_true_iff in Ht as [_ Ht]. apply andb_true_iff in Ht as [Hto HtT].
  pose proof (read_pattern_star fuel rest T Et Hrest) as Hf.
  assert (Hk : forall t, name_is ascii t -> Match_loop fuel rest t = Ok (F := F) (wild_match T t)).
  { intros t Hnt. now apply IH. }
  destruct (starred && negb (nonempty chunk)) eqn:Es.
  { apply andb_true_iff in Es as [-> Es]. destruct chunk; [|discriminate Es]. injection Er as <-.
    destruct (Hempty eq_refl) as [-> _]. cbn in Hf. subst T. cbn [map app]. f_equal. symmetry.
    apply eq_true_iff_eq. rewrite wild_star, negb_true_iff, <- not_true_iff_false, Contains_byte. split.
    - intros (w & s' & -> & Hw & H). destruct s'; [|discriminate H]. now rewrite app_nil_r.
    - intros H. exists name, []. now rewrite app_nil_r. }
  destruct starred; cbn [map app].
  - (* a star before the chunk is the search, started before a byte it takes *)
    pose proof (star_loop_spec (Match_loop fuel rest) chunk ops ascii _ T Er Hto Hk Hf name 65 Hn ltac:(discriminate)) as Hs.
    cbn [star_loop] in Hs. change (65 =? slash) with false in Hs. rewrite <- Hs.
    destruct (matchChunk chunk name) as [[t|]|e|]; cbn [bind]; try reflexivity.
    destruct (nonempty t), (nonempty rest); reflexivity.
  - rewrite matchChunk_reads, Er. cbn [bind]. rewrite wild_ops.
    destruct (ops_match ops name) as [t|] eqn:Eo; [|reflexivity].
    destruct (ops_match_bytes ascii ops name t Hto Hn Eo) as (u & Eu & _).
    assert (Hnt : name_is ascii t).
    { intros Ha. specialize (Hn Ha). rewrite Eu in Hn. now apply List.Forall_app in Hn. }
    destruct (nonempty rest) eqn:Enr; cbn [negb orb].
    + rewrite orb_true_r. now apply Hk.
    + rewrite orb_false_r. cbn in Hf. subst T. destruct t; [now apply Hk|reflexivity].
Qed.

(** On a well-formed pattern of tame operators, [Match] is the reference. *)
Lemma Match_wild ascii pattern terms name :
  terms_of (F := F) pattern = Some terms -> forallb (tame_term ascii) terms = true -> name_is ascii name ->
  Match (F := F) pattern name = Ok (wild_match terms name).
Proof. apply Match_loop_terms. Qed.
End Matcher.

(** ** The fuel is enough *)

Section Fuel.
Context {F : Type}.

Lemma getEsc_shrinks chunk r rest :
  Forall is_byte chunk -> getEsc (F := F) chunk = Ok (r, rest) -> (length rest < length chunk)%nat /\ Forall is_byte rest.
Proof.
  intros Hb E. unfold getEsc in E. destruct chunk as [|c chunk]; [discriminate E|]. case_if_in E; [discriminate E|].
  assert (Hk : forall ch, ch <> [] -> Forall is_byte ch ->
    (let '(r, n, nchunk) := next_rune ch in
     if (r =? RuneError) && (n =? 1) || negb (nonempty nchunk) then Err ErrBadPattern else Ok (F := F) (r, nchunk)) = Ok (r, rest) ->
    (length rest < length ch)%nat /\ Forall is_byte rest).
  { intros ch Hne Hch Ek. unfold next_rune in Ek. destruct (DecodeRune ch) as [r' n] eqn:Ed.
    pose proof (DecodeRune_size ch r' n Hch Hne Ed) as Hn. case_if_in Ek; [discriminate Ek|]. injection Ek as <- <-.
    split; [|now apply skipn_Forall]. rewrite length_skipn. destruct ch; [contradiction|]. cbn [length]. lia. }
  case_if_in E.
  - destruct chunk as [|d chunk]; [discriminate E|]. destruct (Hk (d :: chunk)) as [Hl Hr]; [discriminate|now inversion Hb|exact E|].
    split; [cbn [length] in *; lia|exact Hr].
  - now apply Hk.
Qed.

(** A byte of the chunk is taken by every range. *)
Lemma read_ranges_fuel f1 : forall f2 chunk nrange,
  (length chunk <= f1)%nat -> (length chunk <= f2)%nat -> Forall is_byte chunk ->
  read_ranges (F := F) f1 chunk nrange = read_ranges (F := F) f2 chunk nrange /\
  forall rs rest, read_ranges (F := F) f1 chunk nrange = Some (rs, rest) -> (length rest < length chunk)%nat /\ Forall is_byte rest.
Proof.
  induction f1 as [|f1 IH]; intros f2 chunk nrange H1 H2 Hb.
  { destruct chunk; [|cbn in H1; lia]. destruct f2; split; try discriminate; reflexivity. }
  destruct f2 as [|f2].
  { destruct chunk; [|cbn in H2; lia]. split; [reflexivity|discriminate]. }
  cbn [read_ranges]. case_if.
  { split; [reflexivity|]. intros rs rest [= <- <-]. apply andb_true_iff in Heqb as [Hp _].
    destruct chunk; [discriminate Hp|]. inversion Hb; subst. cbn [tl length]. split; [lia|assumption]. }
  destruct (getEsc chunk) as [[lo c1]|e|] eqn:E1; [|split; [reflexivity|discriminate]..].
  destruct (getEsc_shrinks _ _ _ Hb E1) as [L1 B1].
  assert (Hh : forall hi c2, (if HasPrefix c1 [dash] then getEsc (F := F) (tl c1) else Ok (lo, c1)) = Ok (hi, c2) ->
    (length c2 < length chunk)%nat /\ Forall is_byte c2).
  { intros hi c2 E. case_if_in E.
    - destruct c1 as [|d c1]; [discriminate Heqb0|]. inversion B1; subst. cbn [tl] in E.
      destruct (getEsc_shrinks _ _ _ ltac:(eassumption) E). cbn [length] in *. split; [lia|assumption].
    - injection E as <- <-. auto. }
  destruct (if HasPrefix c1 [dash] then getEsc (F := F) (tl c1) else Ok (lo, c1)) as [[hi c2]|e|]; [|split; [reflexivity|discriminate]..].
  destruct (Hh hi c2 eq_refl) as [L2 B2].
  destruct (IH f2 c2 (S nrange)) as [Ei Hi]; [lia|lia|exact B2|]. rewrite <- Ei. split; [reflexivity|].
  intros rs rest E. destruct (read_ranges f1 c2 (S nrange)) as [[rs' rest']|]; [|discriminate E]. injection E as <- <-.
  destruct (Hi _ _ eq_refl). split; [lia|assumption].
Qed.

Lemma read_chunk_fuel f1 : forall f2 chunk,
  (length chunk < f1)%nat -> (length chunk < f2)%nat -> Forall is_byte chunk ->
  read_chunk (F := F) f1 chunk = read_chunk (F := F) f2 chunk.
Proof.
  induction f1 as [|f1 IH]; intros f2 chunk H1 H2 Hb; [lia|]. destruct f2 as [|f2]; [lia|].
  cbn [read_chunk]. destruct chunk as [|c chunk]; [reflexivity|]. inversion Hb; subst. cbn [length] in *.
  case_if.
  { assert (Hc : let ch := if HasPrefix chunk [caret] then tl chunk else chunk in
      (length ch <= length chunk)%nat /\ Forall is_byte ch).
    { destruct chunk as [|d chunk]; [split; [cbn; lia|assumption]|]. case_if; cbn [tl length];
        (split; [lia|]); [|assumption]. match goal with H : Forall is_byte (_ :: _) |- _ => now inversion H end. }
    set (ch := if HasPrefix chunk [caret] then tl chunk else chunk) in *. destruct Hc as [Lc Bc].
    destruct (read_ranges_fuel (length ch) (length ch) ch 0 (le_n _) (le_n _) Bc) as [_ Hi].
    destruct (read_ranges (length ch) ch 0) as [[rs rest]|]; [|reflexivity]. destruct (Hi _ _ eq_refl).
    f_equal. apply IH; [lia|lia|assumption]. }
  case_if; [f_equal; apply IH; [lia|lia|assumption]|]. case_if; [|f_equal; apply IH; [lia|lia|assumption]].
  destruct chunk as [|x chunk]; [reflexivity|]. cbn [length] in *. f_equal. apply IH; [lia|lia|].
  match goal with H : Forall is_byte (_ :: _) |- _ => now inversion H end.
Qed.
End Fuel.

Lemma read_pattern_fuel {F} f1 : forall f2 pattern,
  (length pattern < f1)%nat -> (length pattern < f2)%nat ->
  read_pattern (F := F) f1 pattern = read_pattern (F := F) f2 pattern.
Proof.
  induction f1 as [|f1 IH]; intros f2 pattern H1 H2; [lia|]. destruct f2 as [|f2]; [lia|]. cbn [read_pattern].
  destruct (nonempty pattern) eqn:Ep; cbn [negb]; [|reflexivity].
  destruct (scanChunk pattern) as [[starred chunk] rest] eqn:Ec.
  destruct (scanChunk_spec pattern starred chunk rest Ec) as (Hl & _); [destruct pattern; discriminate|].
  rewrite (IH f2 rest) by lia. reflexivity.
Qed.

(** * Paths of a directory *)

(** The directory's path as [Join] writes it before a name. *)
Definition dir_state (d : list Z) : elements := clean_elements (HasPrefix d [slash]) d.
Definition dir_prefix (d : list Z) : list Z :=
  render (HasPrefix d [slash]) (dir_state d) ++ separator (dir_state d).

Lemma fine_push rooted st e : fine e -> element_step rooted st e = (fst st, e :: snd st).
Proof.
  intros ((Hne & _) & Hd & Hdd). destruct st as [ups names]. unfold element_step.
  now rewrite !neq_str_eqb by assumption.
Qed.

Lemma HasPrefix_app_slash d t : d <> [] -> HasPrefix (d ++ t) [slash] = HasPrefix d [slash].
Proof. destruct d as [|c d]; [contradiction|]. reflexivity. Qed.

Lemma Join_fine e : fine e -> Glob.Join [[]; e] = Some e.
Proof.
  intros He. pose proof He as [[Hne Hs] _]. cbn [Glob.Join nonempty]. replace (nonempty e) with true by now destruct e.
  cbn [GoStrings.Join]. rewrite Clean_spec. unfold clean_spec, clean_elements. rewrite split_at_none by exact Hs.
  cbn [fold_left]. rewrite fine_push by exact He. cbn [fst snd].
  assert (Hr : HasPrefix e [slash] = false).
  { destruct e as [|c e]; [reflexivity|]. cbn [HasPrefix]. rewrite andb_true_r. apply Z.eqb_neq. intros ->. apply Hs. now left. }
  rewrite Hr. change (render false (O, [e])) with e. now destruct e.
Qed.

(** [Join] of a directory and a name. *)
Lemma Join_dir d e : fine e -> Glob.Join [d; e] = Some (dir_prefix d ++ e).
Proof.
  intros He. destruct d as [|c d]; [now apply Join_fine|].
  assert (Hd : c :: d <> []) by discriminate. cbn [Glob.Join nonempty]. set (D := c :: d) in *.
  change (GoStrings.Join [D; e] [slash]) with (D ++ slash :: e).
  rewrite Clean_spec. f_equal. unfold clean_spec, clean_elements. rewrite HasPrefix_app_slash by exact Hd.
  destruct He as [[Hne Hs] Hdot]. rewrite split_at_app_last by exact Hs. rewrite fold_left_app. cbn [fold_left].
  rewrite fine_push by (repeat split; tauto). fold (clean_elements (HasPrefix D [slash]) D). fold (dir_state D).
  rewrite (surjective_pairing (dir_state D)) at 1 2. cbn [fst snd]. rewrite render_push.
  rewrite <- (surjective_pairing (dir_state D)). unfold dir_prefix. rewrite <- app_assoc.
  destruct (render (HasPrefix D [slash]) (dir_state D) ++ separator (dir_state D) ++ e) eqn:E; [|reflexivity].
  apply app_eq_nil in E as [_ E]. apply app_eq_nil in E as [_ E]. contradiction.
Qed.

(** ** Its own elements *)

Lemma step_names rooted st e :
  ~ In slash e -> Forall fine (snd st) -> (rooted = true -> fst st = O) ->
  Forall fine (snd (element_step rooted st e)) /\ (rooted = true -> fst (element_step rooted st e) = O).
Proof.
  intros He Hn Hu. destruct st as [ups names]. unfold element_step. cbn [fst snd] in *.
  destruct (str_eqb_spec e []) as [->|H1]; cbn [orb]; [auto|].
  destruct (str_eqb_spec e [dot]) as [->|H2]; [auto|].
  destruct (str_eqb_spec e [dot; dot]) as [->|H3].
  - destruct names as [|x names]; [|inversion Hn; subst; auto]. destruct rooted; cbn; auto. split; [constructor|discriminate].
  - cbn [fst snd]. split; [|exact Hu]. constructor; [|exact Hn]. repeat split; assumption.
Qed.

Lemma clean_names rooted es : forall st,
  Forall (fun e => ~ In slash e) es -> Forall fine (snd st) -> (rooted = true -> fst st = O) ->
  Forall fine (snd (fold_left (element_step rooted) es st)) /\ (rooted = true -> fst (fold_left (element_step rooted) es st) = O).
Proof.
  induction es as [|e es IH]; intros st He Hn Hu; [auto|]. cbn [fold_left].
  apply List.Forall_cons_iff in He as [He1 He2].
  destruct (step_names rooted st e He1 Hn Hu) as [H1 H2]. now apply IH.
Qed.

Lemma dir_names d : Forall fine (snd (dir_state d)) /\ (HasPrefix d [slash] = true -> fst (dir_state d) = O).
Proof. apply clean_names; [apply split_at_free|constructor|auto]. Qed.

Lemma element_list_free st : Forall fine (snd st) -> Forall (fun e => ~ In slash e /\ e <> []) (element_list st).
Proof.
  intros H. unfold element_list. apply List.Forall_app. split.
  - apply List.Forall_forall. intros e He. apply repeat_spec in He as ->. split; [intros [|[|[]]]; discriminate|discriminate].
  - apply Forall_rev. eapply List.Forall_impl; [|exact H]. intros e [[? ?] _]. auto.
Qed.

Lemma names_fold rooted L : forall ups names,
  Forall fine L -> fold_left (element_step rooted) L (ups, names) = (ups, rev L ++ names).
Proof.
  induction L as [|e L IH]; intros ups names H; [reflexivity|]. inversion H; subst. cbn [fold_left rev].
  rewrite fine_push by assumption. cbn [fst snd]. rewrite IH, <- app_assoc by assumption. reflexivity.
Qed.

Lemma ups_fold n : forall ups, fold_left (element_step false) (repeat [dot; dot] n) (ups, []) = ((n + ups)%nat, []).
Proof.
  induction n as [|n IH]; intros ups; [reflexivity|]. cbn [repeat fold_left].
  change (element_step false (ups, []) [dot; dot]) with (S ups, @nil (list Z)). rewrite IH. f_equal. lia.
Qed.

(** A clean path that is not a root reads as its elements. *)
Lemma state_of_render rooted st :
  Forall fine (snd st) -> (rooted = true -> fst st = O) -> element_list st <> [] ->
  HasPrefix (render rooted st) [slash] = rooted /\ dir_state (render rooted st) = st.
Proof.
  intros Hf Hu Hne. pose proof (element_list_free st Hf) as Hfree.
  assert (Hs : split_at slash (GoStrings.Join (element_list st) [slash]) = element_list st).
  { apply split_at_Join; [exact Hne|]. eapply List.Forall_impl; [|exact Hfree]. now intros ? []. }
  assert (Hp : HasPrefix (render rooted st) [slash] = rooted).
  { unfold render. destruct rooted; [reflexivity|]. cbn [app].
    destruct (element_list st) as [|e es]; [contradiction|]. inversion Hfree as [|? ? [He Hee] _]; subst. rewrite Join_more.
    destruct e as [|c e]; [contradiction|]. cbn [app HasPrefix]. rewrite andb_true_r. apply Z.eqb_neq. intros ->. apply He. now left. }
  split; [exact Hp|]. unfold dir_state. rewrite Hp. unfold clean_elements.
  assert (He : fold_left (element_step rooted) (element_list st) (O, []) = st).
  { destruct st as [ups names]. unfold element_list. cbn [fst snd] in *. rewrite fold_left_app.
    assert (E : fold_left (element_step rooted) (repeat [dot; dot] ups) (O, []) = (ups, [])).
    { destruct rooted; [now rewrite Hu|]. now rewrite ups_fold, Nat.add_0_r. }
    rewrite E, names_fold, rev_involutive, app_nil_r by now apply Forall_rev. reflexivity. }
  unfold render. destruct rooted; cbn [app]; [|now rewrite Hs].
  cbn [split_at]. rewrite Z.eqb_refl, Hs. exact He.
Qed.

(** The directory [Glob] reads: the path without its last slash. *)
Definition dir_name (d : list Z) : list Z := cleanGlobPath (dir_prefix d).

Lemma cleanGlobPath_chop (u : list Z) : u <> [] -> cleanGlobPath (u ++ [slash]) = u.
Proof.
  intros Hu. unfold cleanGlobPath. rewrite (neq_str_eqb (u ++ [slash]) []) by now destruct u.
  rewrite (neq_str_eqb (u ++ [slash]) [slash]).
  - rewrite length_app. cbn [length]. replace (length u + 1 - 1)%nat with (length u) by lia. apply firstn_length_app.
  - destruct u as [|x [|y u]]; [contradiction|discriminate..].
Qed.

Lemma dir_name_prefix d : dir_name d <> [] /\ dir_prefix (dir_name d) = dir_prefix d.
Proof.
  unfold dir_name, dir_prefix. destruct (dir_names d) as [Hf Hu]. set (rooted := HasPrefix d [slash]) in *.
  set (st := dir_state d) in *. unfold separator. destruct (element_list st) as [|e es] eqn:E.
  - assert (Er : render rooted st = if rooted then [slash] else []).
    { unfold render. rewrite E. now destruct rooted. }
    rewrite Er, app_nil_r. destruct rooted; (split; [discriminate|reflexivity]).
  - assert (Hne : element_list st <> []) by congruence.
    destruct (state_of_render rooted st Hf Hu Hne) as [Hp Hst].
    assert (Hr : render rooted st <> []).
    { unfold render. pose proof (element_list_free st Hf) as Hfree. rewrite E in *. inversion Hfree as [|? ? [_ He] _]; subst.
      rewrite Join_more. destruct rooted, e; discriminate || contradiction. }
    rewrite cleanGlobPath_chop by exact Hr. split; [exact Hr|]. rewrite Hp, Hst, E. reflexivity.
Qed.

(** The directory's own path, clean. *)
Lemma dir_prefix_cases d :
  clean_spec d = dir_name d /\
  (dir_prefix d = dir_name d ++ [slash] /\ dir_name d <> [] \/ dir_prefix d = [] \/ dir_prefix d = [slash]).
Proof.
  destruct (dir_names d) as [Hf Hu]. unfold dir_name, clean_spec, dir_prefix, separator. fold (dir_state d).
  destruct (element_list (dir_state d)) as [|e es] eqn:E.
  - unfold render. rewrite E. cbn [GoStrings.Join]. rewrite !app_nil_r.
    destruct (HasPrefix d [slash]); (split; [reflexivity|auto]).
  - assert (Hr : render (HasPrefix d [slash]) (dir_state d) <> []).
    { pose proof (element_list_free (dir_state d) Hf) as Hfree. unfold render. rewrite E in *.
      inversion Hfree as [|? ? [_ He] _]; subst. rewrite Join_more. destruct (HasPrefix d [slash]), e; discriminate || contradiction. }
    rewrite cleanGlobPath_chop by exact Hr. split; [now destruct (render _ _)|auto].
Qed.

Lemma Clean_dir d : Clean d = Some (dir_name d).
Proof. rewrite Clean_spec. f_equal. apply dir_prefix_cases. Qed.

Lemma Clean_dir_name d : Clean (dir_name d) = Some (dir_name d).
Proof. rewrite Clean_dir. unfold dir_name at 1. now rewrite (proj2 (dir_name_prefix d)). Qed.

Lemma Clean_dir_prefix d : Clean (dir_prefix d) = Some (dir_name d).
Proof.
  destruct (dir_prefix_cases d) as [_ [[E Hne]|[E|E]]].
  - rewrite <- (Clean_dir_name d), E, !Clean_spec. f_equal. unfold clean_spec, clean_elements.
    rewrite HasPrefix_app_slash by exact Hne. rewrite split_at_app_last by (intros []). rewrite fold_left_app.
    cbn [fold_left]. now destruct (fold_left _ _ _).
  - unfold dir_name. now rewrite E.
  - unfold dir_name. now rewrite E.
Qed.

Lemma Join_dir_name d e : fine e -> Glob.Join [dir_name d; e] = Some (dir_prefix d ++ e).
Proof.
  intros He. destruct (dir_name_prefix d) as [Hne Hp]. now rewrite Join_dir, Hp.
Qed.

Lemma LastIndexByte_none s c : ~ In c s -> LastIndexByte s c = None.
Proof.
  induction s as [|x s IH]; intros H; [reflexivity|]. cbn [LastIndexByte].
  rewrite IH by (intros Hi; apply H; now right). destruct (Z.eqb_spec x c) as [->|_]; [exfalso; apply H; now left|reflexivity].
Qed.

Lemma LastIndexByte_app u v c : ~ In c v -> LastIndexByte (u ++ c :: v) c = Some (length u).
Proof.
  intros Hv. induction u as [|x u IH]; cbn [app LastIndexByte length].
  - rewrite LastIndexByte_none by exact Hv. now rewrite Z.eqb_refl.
  - now rewrite IH.
Qed.

Lemma Split_dir d e : ~ In slash e -> Split (dir_prefix d ++ e) = (dir_prefix d, e).
Proof.
  intros He. unfold Split, dir_prefix, separator. destruct (element_list (dir_state d)) as [|x es] eqn:E.
  - unfold render. rewrite E. cbn [GoStrings.Join]. rewrite !app_nil_r. destruct (HasPrefix d [slash]); cbn [app].
    + pose proof (LastIndexByte_app [] e slash He) as Hl. cbn [app length] in Hl. now rewrite Hl.
    + now rewrite LastIndexByte_none.
  - rewrite <- app_assoc. cbn [app]. rewrite LastIndexByte_app by exact He.
    set (u := render (HasPrefix d [slash]) (dir_state d)).
    change (u ++ slash :: e) with (u ++ [slash] ++ e). rewrite app_assoc.
    replace (S (length u)) with (length (u ++ [slash])) by (rewrite length_app; cbn; lia).
    now rewrite firstn_length_app, skipn_length_app.
Qed.

(** ** Paths without magic characters *)

Definition plain_char (c : Z) : Prop := (one_of c "*?[" || (c =? backslash)) = false.
Definition plain_path (s : list Z) : Prop := Forall plain_char s.

Lemma plain_hasMeta s : plain_path s <-> hasMeta s = false.
Proof.
  unfold plain_path, hasMeta. induction s as [|c s IH]; [split; [reflexivity|constructor]|].
  cbn [existsb]. rewrite orb_false_iff, <- IH, List.Forall_cons_iff. reflexivity.
Qed.

Lemma split_at_Forall (P : Z -> Prop) c s : Forall P s -> Forall (Forall P) (split_at c s).
Proof.
  induction 1 as [|x s Hx _ IH]; cbn [split_at]; [repeat constructor|].
  case_if; [constructor; [constructor|exact IH]|].
  destruct (split_at_cons c s) as (f & fs & E). rewrite E in *. inversion IH; subst.
  constructor; [constructor|]; assumption.
Qed.

Lemma fold_names (P : list Z -> Prop) rooted es : forall st,
  Forall P es -> Forall P (snd st) -> Forall P (snd (fold_left (element_step rooted) es st)).
Proof.
  induction es as [|e es IH]; intros [ups names] He Hn; [exact Hn|]. cbn [fold_left snd] in *.
  inversion He; subst. apply IH; [assumption|]. unfold element_step.
  case_if; [exact Hn|]. case_if; [|now constructor]. destruct names; [destruct rooted; constructor|now inversion Hn].
Qed.

Lemma Join_Forall (P : Z -> Prop) c l : P c -> Forall (Forall P) l -> Forall P (GoStrings.Join l [c]).
Proof.
  intros Hc H. destruct H as [|e l He Hl]; [constructor|]. rewrite Join_more. apply List.Forall_app. split; [exact He|].
  apply List.Forall_flat_map. eapply List.Forall_impl; [|exact Hl]. intros a Ha. now constructor.
Qed.

Lemma dir_prefix_Forall (P : Z -> Prop) d : P slash -> P dot -> Forall P d -> Forall P (dir_prefix d).
Proof.
  intros Hs Hdot Hd. assert (Hl : Forall (Forall P) (element_list (dir_state d))).
  { unfold element_list. apply List.Forall_app. split.
    - apply List.Forall_forall. intros e He. apply repeat_spec in He as ->. now repeat constructor.
    - apply Forall_rev. apply fold_names; [|constructor]. now apply split_at_Forall. }
  unfold dir_prefix, separator, render. apply List.Forall_app. split; [apply List.Forall_app; split|].
  - destruct (HasPrefix d [slash]); now repeat constructor.
  - now apply Join_Forall.
  - destruct (element_list (dir_state d)); now repeat constructor.
Qed.

Lemma dir_prefix_plain d : plain_path d -> plain_path (dir_prefix d).
Proof. now apply dir_prefix_Forall. Qed.

Lemma dir_name_plain d : plain_path d -> plain_path (dir_name d).
Proof.
  intros Hd. apply dir_prefix_plain in Hd. unfold dir_name, cleanGlobPath. case_if; [repeat constructor|].
  case_if; [exact Hd|]. unfold plain_path in *. rewrite <- (firstn_skipn (length (dir_prefix d) - 1)) in Hd.
  now apply List.Forall_app in Hd.
Qed.

(** ** The pattern of a prefix and a suffix *)

Lemma chunk_length_plain p rest inrange :
  plain_path p -> inrange = false ->
  chunk_length (p ++ star :: rest) inrange = length p /\ chunk_length p inrange = length p.
Proof.
  intros Hp ->. induction Hp as [|c p Hc _ IH]; [split; reflexivity|]. unfold plain_char in Hc.
  cbn [one_of bytes existsb] in Hc. destruct IH as [I1 I2].
  assert (Hn : (c =? star) = false /\ (c =? lbracket) = false /\ (c =? backslash) = false).
  { apply orb_false_iff in Hc as [H1 H2]. unfold one_of in H1. cbn in H1.
    rewrite !orb_false_iff in H1. tauto. }
  destruct Hn as (N1 & N2 & N3). cbn [app chunk_length length]. rewrite N1, N2, N3. cbn [andb].
  rewrite I1, I2. split; case_if; reflexivity.
Qed.

Lemma read_chunk_plain {F} p : plain_path p -> forall fuel, (length p < fuel)%nat ->
  read_chunk (F := F) fuel p = Some (map OLit p).
Proof.
  induction 1 as [|c p Hc _ IH]; intros fuel Hf; (destruct fuel as [|fuel]; [cbn in Hf; lia|]); [reflexivity|].
  assert (Hn : (c =? lbracket) = false /\ (c =? question) = false /\ (c =? backslash) = false).
  { unfold plain_char in Hc. apply orb_false_iff in Hc as [H1 H2]. unfold one_of in H1. cbn in H1.
    rewrite !orb_false_iff in H1. tauto. }
  destruct Hn as (N1 & N2 & N3). cbn [read_chunk]. rewrite N1, N2, N3, IH by (cbn in Hf; lia). reflexivity.
Qed.

Lemma plain_no_star p : plain_path p -> HasPrefix p [star] = false.
Proof.
  destruct 1 as [|c p Hc _]; [reflexivity|]. unfold plain_char in Hc. apply orb_false_iff in Hc as [H1 _].
  unfold one_of in H1. cbn in H1. rewrite !orb_false_iff in H1. cbn [HasPrefix]. rewrite andb_true_r. tauto.
Qed.

Definition star_terms (p q : list Z) : list term := map TOp (map OLit p) ++ TStar :: map TOp (map OLit q).

Lemma terms_of_star {F} p q : plain_path p -> p <> [] -> plain_path q ->
  terms_of (F := F) (p ++ star :: q) = Some (star_terms p q).
Proof.
  intros Hp Hne Hq. unfold terms_of.
  assert (H1 : scanChunk (p ++ star :: q) = (false, p, star :: q)).
  { unfold scanChunk. assert (Hs : HasPrefix (p ++ star :: q) [star] = false).
    { pose proof (plain_no_star p Hp) as E. now destruct p. }
    rewrite skip_stars_none, Hs by exact Hs. destruct (chunk_length_plain p q false Hp eq_refl) as [-> _].
    now rewrite firstn_length_app, skipn_length_app. }
  assert (H2 : scanChunk (star :: q) = (true, q, [])).
  { unfold scanChunk. cbn [skip_stars HasPrefix]. rewrite Z.eqb_refl, skip_stars_none by now apply plain_no_star.
    destruct (chunk_length_plain q [] false Hq eq_refl) as [_ ->]. now rewrite firstn_all, skipn_all. }
  destruct (length (p ++ star :: q)) as [|n] eqn:El; [rewrite length_app in El; cbn in El; lia|].
  assert (Hn : (1 <= n)%nat) by (rewrite length_app in El; destruct p; [contradiction|cbn in El; lia]).
  destruct n as [|n]; [lia|]. cbn [read_pattern].
  replace (nonempty (p ++ star :: q)) with true by now destruct p. cbn [negb]. rewrite H1.
  rewrite read_chunk_plain by (auto; lia). cbn [nonempty negb]. rewrite H2, read_chunk_plain by (auto; lia).
  cbn [nonempty negb app]. now rewrite app_nil_r.
Qed.

Lemma ops_match_lits p s : ops_match (map OLit p) s = if HasPrefix s p then Some (skipn (length p) s) else None.
Proof.
  revert s. induction p as [|c p IH]; intros s; [reflexivity|]. cbn [map ops_match]. destruct s as [|x s]; [reflexivity|].
  cbn [op_step HasPrefix length skipn]. rewrite (Z.eqb_sym c x). destruct (x =? c); [apply IH|reflexivity].
Qed.

(** A name with the prefix, the suffix, and no separator between. *)
Lemma star_terms_match p q name :
  wild_match (star_terms p q) name = true <-> exists w, name = p ++ w ++ q /\ ~ In slash w.
Proof.
  unfold star_terms. rewrite wild_ops, ops_match_lits.
  assert (Hlit : forall s, wild_match (map TOp (map OLit q)) s = true <-> s = q).
  { intros s. rewrite <- (app_nil_r (map TOp (map OLit q))), wild_ops, ops_match_lits. split.
    - case_if; [|discriminate]. apply HasPrefix_spec in Heqb as (t & ->). rewrite skipn_length_app.
      destruct t; [now rewrite app_nil_r|discriminate].
    - intros ->. replace (HasPrefix q q) with true by (symmetry; apply HasPrefix_spec; exists []; now rewrite app_nil_r).
      now rewrite skipn_all. }
  split.
  - case_if; [|discriminate]. apply HasPrefix_spec in Heqb as (t & ->). rewrite skipn_length_app. intros H.
    apply wild_star in H as (w & s' & -> & Hw & H). apply Hlit in H as ->. eauto.
  - intros (w & -> & Hw). rewrite HasPrefix_app, skipn_length_app. apply wild_star. exists w, q.
    repeat split; [exact Hw|now apply Hlit].
Qed.

Lemma lits_tame p q : forallb (tame_term false) (star_terms p q) = true.
Proof.
  unfold star_terms. rewrite forallb_app. apply andb_true_iff. split; [|cbn [forallb tame_term andb]];
    rewrite tame_ops; apply forallb_forall; intros o Ho; apply in_map_iff in Ho as (c & <- & _); reflexivity.
Qed.

Lemma Match_star {F} p q name : plain_path p -> p <> [] -> plain_path q ->
  Match (F := F) (p ++ star :: q) name = Ok (wild_match (star_terms p q) name).
Proof.
  intros Hp Hne Hq. apply (Match_wild false _ (star_terms p q)); [now apply terms_of_star|apply lits_tame|discriminate].
Qed.

(** * Glob *)

Section GlobDir.
Context {F : Type}.
Variable Lstat : list Z -> bool.
Variable Readdirnames : list Z -> option (list (list Z)).

(** The names [filepath.Glob] finds for a prefix and a suffix in a directory. *)
Definition found_names (d pre suf : list Z) : list (list Z) :=
  match Readdirnames (dir_name d) with
  | Some names => filter (wild_match (star_terms pre suf)) (sort_keys names)
  | None => []
  end.

Lemma glob_loop_names d pre suf names : forall matches,
  plain_path pre -> pre <> [] -> plain_path suf -> Forall fine names ->
  glob_loop (F := F) (dir_name d) (pre ++ star :: suf) names matches =
  Ok (matches ++ map (app (dir_prefix d)) (filter (wild_match (star_terms pre suf)) names)).
Proof.
  induction names as [|n names IH]; intros matches Hp Hne Hs Hn; [cbn; now rewrite app_nil_r|].
  inversion Hn; subst. cbn [glob_loop filter]. rewrite Match_star by assumption. cbn [bind].
  destruct (wild_match (star_terms pre suf) n); [|now apply IH].
  rewrite Join_dir_name by assumption. cbn [from_option bind map]. rewrite IH by assumption. now rewrite <- app_assoc.
Qed.

Lemma fine_pattern pre suf : plain_path pre -> pre <> [] -> ~ In slash pre -> ~ In slash suf -> fine (pre ++ star :: suf).
Proof.
  intros Hp Hne H1 H2. repeat split.
  - now destruct pre.
  - intros Hi. apply in_app_or in Hi as [?|[E|?]]; [contradiction|discriminate E|contradiction].
  - destruct pre as [|x [|y pre]]; [contradiction|discriminate..].
  - destruct pre as [|x [|y pre]]; [contradiction|discriminate|]. destruct pre; discriminate.
Qed.

Lemma sorted_keys_Forall (P : list Z -> Prop) l : Forall P l -> Forall P (sort_keys l).
Proof.
  rewrite !List.Forall_forall. intros H x Hx. eapply H, Permutation_in; [apply sort_keys_perm|exact Hx].
Qed.

Lemma Glob_names d pre suf :
  plain_path d -> plain_path pre -> pre <> [] -> plain_path suf ->
  ~ In slash pre -> ~ In slash suf ->
  (forall names, Readdirnames (dir_name d) = Some names -> Forall fine names) ->
  exists pattern, Glob.Join [d; pre ++ star :: suf] = Some pattern /\
    Glob (F := F) Lstat Readdirnames pattern = Ok (map (app (dir_prefix d)) (found_names d pre suf)).
Proof.
  intros Hpd Hp Hne Hs H1 H2 Hn. exists (dir_prefix d ++ pre ++ star :: suf).
  pose proof (fine_pattern pre suf Hp Hne H1 H2) as Hf. split; [now apply Join_dir|].
  unfold Glob. destruct (Z.to_nat pathSeparatorsLimit) as [|limit] eqn:El; [discriminate El|]. clear El.
  cbn [globWithLimit].
  assert (Hm : Match (F := F) (dir_prefix d ++ pre ++ star :: suf) [] = Ok (wild_match (star_terms (dir_prefix d ++ pre) suf) [])).
  { rewrite app_assoc. apply Match_star; [|destruct (dir_prefix d); [exact Hne|discriminate]|exact Hs].
    apply List.Forall_app. split; [now apply dir_prefix_plain|exact Hp]. }
  rewrite Hm. cbn [bind].
  assert (Hmeta : hasMeta (dir_prefix d ++ pre ++ star :: suf) = true).
  { unfold hasMeta. rewrite !existsb_app. cbn [existsb]. change (one_of star "*?[") with true. now rewrite !orb_true_r. }
  rewrite Hmeta. cbn [negb]. rewrite Split_dir by apply Hf. fold (dir_name d).
  destruct (plain_hasMeta (dir_name d)) as [Hpl _]. rewrite Hpl by now apply dir_name_plain. cbn [negb].
  unfold glob, found_names. destruct (Readdirnames (dir_name d)) as [names|]; [|reflexivity].
  rewrite glob_loop_names; [reflexivity|assumption..|]. now apply sorted_keys_Forall, Hn.
Qed.
End GlobDir.

(** ** The only error *)

Section Good.
Context {F : Type}.

(** A result, or the error of a malformed pattern. *)
Definition ok_or_bad {A} (r : result F A) : Prop := is_ok r = true \/ r = Err ErrBadPattern.

Lemma ok_or_bad_bind {A B} (r : result F A) (k : A -> result F B) :
  ok_or_bad r -> (forall a, ok_or_bad (k a)) -> ok_or_bad (bind r k).
Proof. intros [H| ->] Hk; [|now right]. destruct r; [apply Hk|discriminate H..]. Qed.

Lemma ok_or_bad_ok {A} (a : A) : ok_or_bad (Ok a).
Proof. now left. Qed.

Lemma matchChunk_good chunk s : ok_or_bad (matchChunk (F := F) chunk s).
Proof. rewrite matchChunk_reads. destruct (read_chunk _ chunk); [now left|now right]. Qed.

Lemma star_loop_good (k : list Z -> result F bool) chunk final :
  (forall t, ok_or_bad (k t)) -> forall name, ok_or_bad (star_loop k chunk final name).
Proof.
  intros Hk. induction name as [|c name IH]; cbn [star_loop]; [apply ok_or_bad_ok|]. case_if; [apply ok_or_bad_ok|].
  apply ok_or_bad_bind; [apply matchChunk_good|]. intros [t|]; [case_if; auto|exact IH].
Qed.

Lemma Match_good pattern name : ok_or_bad (Match (F := F) pattern name).
Proof.
  unfold Match. generalize (S (length pattern)) as fuel. intros fuel. revert pattern name.
  induction fuel as [|fuel IH]; intros pattern name; cbn [Match_loop]; [now right|]. case_if; [apply ok_or_bad_ok|].
  destruct (scanChunk pattern) as [[starred chunk] rest]. case_if; [apply ok_or_bad_ok|].
  assert (Hl : ok_or_bad (if starred then star_loop (Match_loop fuel rest) chunk (negb (nonempty rest)) name else Ok false)).
  { destruct starred; [|apply ok_or_bad_ok]. now apply star_loop_good. }
  apply ok_or_bad_bind; [apply matchChunk_good|]. intros [t|]; [case_if; [apply IH|exact Hl]|exact Hl].
Qed.

Lemma Join_total elem : exists p, Glob.Join elem = Some p.
Proof.
  induction elem as [|e elem IH]; cbn [Glob.Join]; [eauto|]. case_if; [|exact IH]. rewrite Clean_spec. eauto.
Qed.

Variable Lstat : list Z -> bool.
Variable Readdirnames : list Z -> option (list (list Z)).

Lemma glob_good dir pattern matches : ok_or_bad (glob (F := F) Readdirnames dir pattern matches).
Proof.
  unfold glob. destruct (Readdirnames dir) as [names|]; [|apply ok_or_bad_ok].
  revert matches. induction (sort_keys names) as [|n l IH]; intros matches; cbn [glob_loop]; [apply ok_or_bad_ok|].
  apply ok_or_bad_bind; [apply Match_good|]. intros [|]; [|apply IH].
  destruct (Join_total [dir; n]) as [p ->]. apply IH.
Qed.

Lemma globWithLimit_good limit : forall pattern, ok_or_bad (globWithLimit (F := F) Lstat Readdirnames limit pattern).
Proof.
  induction limit as [|limit IH]; intros pattern; cbn [globWithLimit]; [now right|].
  apply ok_or_bad_bind; [apply Match_good|]. intros _. case_if; [apply ok_or_bad_ok|].
  destruct (Split pattern) as [dir file]. case_if; [apply glob_good|]. case_if; [now right|].
  apply ok_or_bad_bind; [apply IH|]. intros dirs. generalize (@nil (list Z)) as m.
  induction dirs as [|d dirs IHd]; intros m; cbn [glob_dirs]; [apply ok_or_bad_ok|].
  apply ok_or_bad_bind; [apply glob_good|exact IHd].
Qed.

(** [Glob] never panics, and [ErrBadPattern] is its only error. *)
Lemma Glob_good pattern : ok_or_bad (Glob (F := F) Lstat Readdirnames pattern).
Proof. apply globWithLimit_good. Qed.

Lemma Glob_malformed pattern e :
  Match (F := F) pattern [] = Err e -> Glob (F := F) Lstat Readdirnames pattern = Err e.
Proof.
  intros E. unfold Glob. destruct (Z.to_nat pathSeparatorsLimit) as [|n] eqn:El; [discriminate El|].
  cbn [globWithLimit]. now rewrite E.
Qed.
End Good.
