(* ===== verification/PatternSpec.v ===== *)
(** The patterns of [filepath.Match], as its documentation spells them, and the theorem that
    [Match] reads exactly these and matches them. *)
From Stdlib Require Import ZArith Lia String Bool List.
From S2P Require Import Prelude Strconv Utf8 GoStrings Url Glob GlobSpec.
Import ListNotations.
Local Open Scope Z_scope.

(** * The grammar *)

(** A character of a class: bare, or behind a backslash. *)
Inductive char_text : Z -> list Z -> Prop :=
| char_bare r : valid_rune r -> r <> backslash -> r <> dash -> r <> rbracket -> char_text r (enc r)
| char_escaped r : valid_rune r -> char_text r (backslash :: enc r).

Inductive range_text : Z * Z -> list Z -> Prop :=
| range_one r u : char_text r u -> range_text (r, r) u
| range_span lo hi u v : char_text lo u -> char_text hi v -> range_text (lo, hi) (u ++ dash :: v).

Inductive ranges_text : list (Z * Z) -> list Z -> Prop :=
| ranges_nil : ranges_text [] []
| ranges_cons x u xs us : range_text x u -> ranges_text xs us -> ranges_text (x :: xs) (u ++ us).

(** A caret right behind the bracket negates. *)
Inductive term_text : term -> list Z -> Prop :=
| text_star : term_text TStar [star]
| text_any : term_text (TOp OAny) [question]
| text_char c : c <> star -> c <> question -> c <> backslash -> c <> lbracket -> term_text (TOp (OLit c)) [c]
| text_escaped c : term_text (TOp (OLit c)) [backslash; c]
| text_class xs u : ranges_text xs u -> xs <> [] -> HasPrefix u [caret] = false ->
    term_text (TOp (OClass false xs)) (lbracket :: u ++ [rbracket])
| text_negated xs u : ranges_text xs u -> xs <> [] ->
    term_text (TOp (OClass true xs)) (lbracket :: caret :: u ++ [rbracket]).

Inductive pattern_text : list Z -> list term -> Prop :=
| pattern_nil : pattern_text [] []
| pattern_cons t u p ts : term_text t u -> pattern_text p ts -> pattern_text (u ++ p) (t :: ts).

Lemma pattern_text_app p ts : pattern_text p ts -> forall q us, pattern_text q us -> pattern_text (p ++ q) (ts ++ us).
Proof.
  induction 1 as [|t u p ts Ht _ IH]; intros q us Hq; [exact Hq|]. rewrite <- app_assoc. cbn [app].
  constructor; auto.
Qed.

(** * Characters *)

(** The first byte of a character is its code if it is below 0x80, and the others are not. *)
Lemma enc_head r : valid_rune r ->
  (enc r = [r] /\ 0 <= r < 0x80) \/
  (0x80 <= r /\ exists c s, enc r = c :: s /\ 0x80 <= c /\ Forall (fun x => 0x80 <= x) s).
Proof.
  intros Hr. rewrite enc_valid by exact Hr. unfold enc_closed.
  unfold valid_rune, surrogateMin, surrogateMax, MaxRune in Hr.
  pose proof (Z.mod_pos_bound r 64 eq_refl). pose proof (Z.mod_pos_bound (r / 64) 64 eq_refl).
  pose proof (Z.mod_pos_bound (r / 4096) 64 eq_refl).
  assert (0 <= r / 64 /\ 0 <= r / 4096 /\ 0 <= r / 262144) by (repeat split; apply Z.div_pos; lia).
  destruct (Z.ltb_spec r 0x80); [left; split; [reflexivity|lia]|right; split; [lia|]].
  repeat case_if; do 2 eexists; (split; [reflexivity|]); (split; [lia|]); repeat constructor; lia.
Qed.

Lemma next_rune_enc r rest : valid_rune r -> Forall is_byte rest -> next_rune (enc r ++ rest) = (r, len (enc r), rest).
Proof. intros Hr Hb. unfold next_rune. now rewrite DecodeRune_enc, skipn_len_app. Qed.

Lemma char_not_error r : valid_rune r -> (r =? RuneError) && (len (enc r) =? 1) = false.
Proof.
  intros Hr. destruct (Z.eqb_spec r RuneError) as [->|]; reflexivity.
Qed.

Section Chars.
Context {F : Type}.

Lemma getEsc_char r u rest :
  char_text r u -> Forall is_byte rest -> rest <> [] -> getEsc (F := F) (u ++ rest) = Ok (r, rest).
Proof.
  intros Hc Hb Hne. destruct rest as [|x rest]; [contradiction|]. unfold getEsc. destruct Hc as [r Hr H1 H2 H3|r Hr].
  - assert (Hh : exists c s, enc r = c :: s /\ c <> backslash /\ c <> dash /\ c <> rbracket).
    { destruct (enc_head r Hr) as [[E _]|(Hge & c & s & E & Hc & _)]; rewrite E; do 2 eexists; (split; [reflexivity|]);
        repeat split; assumption || lia. }
    pose proof (next_rune_enc r (x :: rest) Hr Hb) as En. pose proof (char_not_error r Hr) as Hn.
    destruct Hh as (c & s & E & N1 & N2 & N3). rewrite E in *. cbn [app] in *.
    apply Z.eqb_neq in N1, N2, N3. rewrite N1, N2, N3. cbn [orb]. rewrite En, Hn. reflexivity.
  - cbn [app]. change (backslash =? dash) with false. change (backslash =? rbracket) with false.
    change (backslash =? backslash) with true. cbn [orb].
    pose proof (next_rune_enc r (x :: rest) Hr Hb) as En. pose proof (char_not_error r Hr) as Hn.
    destruct (enc_cons r Hr) as (c & s & E). rewrite E in *. cbn [app] in *. rewrite En, Hn. reflexivity.
Qed.

Lemma getEsc_reads chunk r rest :
  Forall is_byte chunk -> getEsc (F := F) chunk = Ok (r, rest) ->
  exists u, char_text r u /\ chunk = u ++ rest /\ rest <> [].
Proof.
  intros Hb E. unfold getEsc in E. destruct chunk as [|c chunk]; [discriminate E|].
  assert (Hk : forall ch, ch <> [] -> Forall is_byte ch ->
    (let '(r, n, nchunk) := next_rune ch in
     if (r =? RuneError) && (n =? 1) || negb (nonempty nchunk) then Err ErrBadPattern else Ok (F := F) (r, nchunk)) = Ok (r, rest) ->
    valid_rune r /\ ch = enc r ++ rest /\ rest <> []).
  { intros ch Hne Hch Ek. destruct ch as [|x ch]; [contradiction|].
    destruct (DecodeRune_cases x ch Hch) as [(r' & rest' & Hr & Ech)|[Ed _]].
    - rewrite Ech in *. apply Forall_app in Hch as [_ Hch]. rewrite next_rune_enc, char_not_error in Ek by assumption.
      destruct rest' as [|y rest']; [discriminate Ek|]. injection Ek as <- <-. now repeat split.
    - unfold next_rune in Ek. rewrite Ed in Ek. discriminate Ek. }
  destruct (Z.eqb_spec c dash) as [|N1]; [discriminate E|]. destruct (Z.eqb_spec c rbracket) as [|N2]; [discriminate E|].
  cbn [orb] in E. destruct (Z.eqb_spec c backslash) as [->|N3].
  - destruct chunk as [|d chunk]; [discriminate E|]. inversion Hb; subst.
    apply Hk in E as (Hr & -> & Hne); [|discriminate|assumption].
    exists (backslash :: enc r). repeat split; [now constructor|exact Hne].
  - apply Hk in E as (Hr & Ec & Hne); [|discriminate|exact Hb]. exists (enc r). rewrite Ec. repeat split; [|exact Hne].
    destruct (enc_head r Hr) as [[Er _]|(Hge & _)].
    + rewrite Er in Ec. injection Ec as <- _. now constructor.
    + constructor; [exact Hr|lia..].
Qed.

(** ** Classes *)

Lemma char_text_length r u : char_text r u -> (1 <= length u)%nat.
Proof. intros [r' Hr _ _ _|r' Hr]; [|cbn; lia]. destruct (enc_cons r' Hr) as (c & s & ->). cbn. lia. Qed.

(** The first byte of a range is neither a dash nor a closing bracket. *)
Lemma char_text_head r u : char_text r u -> exists c s, u = c :: s /\ c <> dash /\ c <> rbracket.
Proof.
  intros [r' Hr _ H2 H3|r' Hr]; [|do 2 eexists; split; [reflexivity|split; discriminate]].
  destruct (enc_head r' Hr) as [[E _]|(_ & c & s & E & Hc & _)]; rewrite E; do 2 eexists; (split; [reflexivity|]); lia.
Qed.

Lemma range_text_head x u : range_text x u -> exists c s, u = c :: s /\ c <> dash /\ c <> rbracket.
Proof.
  intros [r u' H|lo hi u' v H _]; [exact (char_text_head _ _ H)|].
  destruct (char_text_head _ _ H) as (c & s & -> & Hc). now exists c, (s ++ dash :: v).
Qed.

(** After a range there is no dash. *)
Lemma ranges_no_dash xs u rest : ranges_text xs u -> HasPrefix (u ++ rbracket :: rest) [dash] = false.
Proof.
  intros [|x w xs' us Hx _]; [reflexivity|]. destruct (range_text_head _ _ Hx) as (c & s & -> & Hc & _).
  cbn [app HasPrefix]. apply Z.eqb_neq in Hc. now rewrite Hc.
Qed.

Lemma read_ranges_text xs u : ranges_text xs u -> forall fuel n rest,
  Forall is_byte (u ++ rbracket :: rest) -> (length u < fuel)%nat -> (xs = [] -> (0 < n)%nat) ->
  read_ranges (F := F) fuel (u ++ rbracket :: rest) n = Some (xs, rest).
Proof.
  induction 1 as [|x w xs us Hx Hxs IH]; intros fuel n rest Hb Hf Hn; (destruct fuel as [|fuel]; [lia|]).
  - cbn [app read_ranges HasPrefix tl]. specialize (Hn eq_refl). rewrite Z.eqb_refl. now apply Nat.ltb_lt in Hn as ->.
  - cbn [read_ranges].
    assert (Hp : HasPrefix ((w ++ us) ++ rbracket :: rest) [rbracket] = false).
    { destruct (range_text_head _ _ Hx) as (c & s & -> & _ & Hc). cbn [app HasPrefix]. apply Z.eqb_neq in Hc. now rewrite Hc. }
    rewrite Hp. cbn [andb]. rewrite <- app_assoc in *. rewrite length_app in Hf.
    pose proof (ranges_no_dash _ _ rest Hxs) as Hd. set (q := us ++ rbracket :: rest) in *.
    assert (Hq : q <> []) by (unfold q; destruct us; discriminate).
    assert (Hbq : Forall is_byte q) by (apply Forall_app in Hb; tauto).
    destruct Hx as [r w Hw|lo hi w v Hw Hv].
    + rewrite (getEsc_char r w q Hw Hbq Hq), Hd. pose proof (char_text_length _ _ Hw).
      unfold q in *. rewrite IH by (assumption || lia). reflexivity.
    + rewrite length_app in Hf. cbn [length] in Hf. rewrite <- app_assoc in *. cbn [app] in *.
      apply Forall_app in Hb as [_ Hb]. pose proof (char_text_length _ _ Hw). pose proof (char_text_length _ _ Hv).
      rewrite (getEsc_char lo w) by (assumption || discriminate). cbn [HasPrefix tl]. rewrite Z.eqb_refl. cbn [andb].
      rewrite (getEsc_char hi v q Hv Hbq Hq). unfold q in *. rewrite IH by (assumption || lia). reflexivity.
Qed.

Lemma ranges_read fuel : forall chunk n xs rest,
  Forall is_byte chunk -> read_ranges (F := F) fuel chunk n = Some (xs, rest) ->
  exists u, ranges_text xs u /\ chunk = u ++ rbracket :: rest /\ (n = O -> xs <> []).
Proof.
  induction fuel as [|fuel IH]; intros chunk n xs rest Hb E; [discriminate E|]. cbn [read_ranges] in E.
  case_if_in E.
  { injection E as <- <-. apply andb_true_iff in Heqb as [Hp Hn]. exists []. split; [constructor|].
    destruct chunk as [|c chunk]; [discriminate Hp|]. cbn [HasPrefix] in Hp. rewrite andb_true_r in Hp.
    apply Z.eqb_eq in Hp as ->. split; [reflexivity|]. intros ->. discriminate Hn. }
  destruct (getEsc chunk) as [[lo c1]|e|] eqn:E1; [|discriminate E..].
  destruct (getEsc_reads _ _ _ Hb E1) as (w & Hw & -> & Hne1). apply Forall_app in Hb as [_ Hb1].
  assert (Hx : forall hi c2, (if HasPrefix c1 [dash] then getEsc (F := F) (tl c1) else Ok (lo, c1)) = Ok (hi, c2) ->
    exists v, range_text (lo, hi) (w ++ v) /\ c1 = v ++ c2).
  { intros hi c2 E2. case_if_in E2.
    - destruct c1 as [|d c1]; [discriminate E2|]. cbn [HasPrefix tl] in *. rewrite andb_true_r in Heqb0.
      apply Z.eqb_eq in Heqb0 as ->. inversion Hb1; subst.
      destruct (getEsc_reads _ _ _ ltac:(eassumption) E2) as (v & Hv & -> & _).
      exists (dash :: v). split; [now constructor|reflexivity].
    - injection E2 as <- <-. exists []. rewrite app_nil_r. split; [now constructor|reflexivity]. }
  destruct (if HasPrefix c1 [dash] then getEsc (F := F) (tl c1) else Ok (lo, c1)) as [[hi c2]|e|]; [|discriminate E..].
  destruct (Hx hi c2 eq_refl) as (v & Hr & ->). apply Forall_app in Hb1 as [_ Hb2].
  destruct (read_ranges fuel c2 (S n)) as [[ys rest']|] eqn:E3; [|discriminate E]. injection E as <- <-.
  destruct (IH _ _ _ _ Hb2 E3) as (u & Hu & -> & _). exists ((w ++ v) ++ u).
  split; [now constructor|]. rewrite !app_assoc. split; [reflexivity|discriminate].
Qed.
End Chars.

(** * Chunks *)

Lemma chunk_length_high s rest inrange :
  Forall (fun x => 0x80 <= x) s -> chunk_length (s ++ rest) inrange = (length s + chunk_length rest inrange)%nat.
Proof.
  induction 1 as [|c s Hc _ IH]; [reflexivity|]. cbn [app chunk_length length].
  replace (c =? backslash) with false by lia. replace (c =? lbracket) with false by lia.
  replace (c =? rbracket) with false by lia. replace (c =? star) with false by lia. cbn [andb]. lia.
Qed.

Lemma chunk_length_char r u rest :
  char_text r u -> chunk_length (u ++ rest) true = (length u + chunk_length rest true)%nat.
Proof.
  assert (Hhead : forall r, valid_rune r -> exists c s, enc r = c :: s /\ Forall (fun x => 0x80 <= x) s /\ (c = r \/ 0x80 <= c)).
  { intros x Hx. destruct (enc_head x Hx) as [[E _]|(_ & c & s & E & Hc & Hs)]; rewrite E; do 2 eexists;
      (split; [reflexivity|]); auto. }
  intros [r' Hr H1 _ H3|r' Hr]; destruct (Hhead r' Hr) as (c & s & -> & Hs & Hc).
  - cbn [app chunk_length length]. replace (c =? backslash) with false by lia.
    replace (c =? rbracket) with false by lia. rewrite andb_false_r, chunk_length_high by exact Hs.
    case_if; reflexivity.
  - cbn [app chunk_length length]. rewrite Z.eqb_refl, chunk_length_high by exact Hs. reflexivity.
Qed.

Lemma chunk_length_range x u rest :
  range_text x u -> chunk_length (u ++ rest) true = (length u + chunk_length rest true)%nat.
Proof.
  intros [r u' H|lo hi u' v Hu Hv]; [now apply (chunk_length_char r)|].
  rewrite <- app_assoc, length_app. cbn [app length]. rewrite (chunk_length_char lo) by exact Hu.
  cbn [chunk_length]. change (dash =? backslash) with false. change (dash =? lbracket) with false.
  change (dash =? rbracket) with false. change (dash =? star) with false. cbn [andb].
  rewrite (chunk_length_char hi) by exact Hv. lia.
Qed.

Lemma chunk_length_ranges xs u rest :
  ranges_text xs u -> chunk_length (u ++ rest) true = (length u + chunk_length rest true)%nat.
Proof.
  induction 1 as [|x w xs us Hx _ IH]; [reflexivity|].
  rewrite <- app_assoc, (chunk_length_range x), IH, length_app by exact Hx. lia.
Qed.

Lemma chunk_length_le p : forall inrange, (chunk_length p inrange <= length p)%nat.
Proof.
  induction p as [p IH] using (induction_ltof1 _ (@length Z)). unfold ltof in IH. intros inrange.
  destruct p as [|c p]; [cbn; lia|]. cbn [chunk_length length].
  assert (Hr : forall b, (chunk_length p b <= length p)%nat) by (intros b; apply IH; cbn; lia).
  pose proof (Hr true). pose proof (Hr false). pose proof (Hr inrange).
  case_if; [|repeat case_if; lia]. destruct p as [|d p]; [lia|]. cbn [length].
  enough (chunk_length p inrange <= length p)%nat by lia. apply IH. cbn. lia.
Qed.

(** The text of an operator is inside one chunk. *)
Lemma chunk_length_op o u rest :
  term_text (TOp o) u -> chunk_length (u ++ rest) false = (length u + chunk_length rest false)%nat.
Proof.
  assert (Hcl : forall xs w, ranges_text xs w ->
    chunk_length ((w ++ [rbracket]) ++ rest) true = (length (w ++ [rbracket]) + chunk_length rest false)%nat).
  { intros xs w Hw. rewrite <- app_assoc, (chunk_length_ranges xs), length_app by exact Hw. cbn [app chunk_length length].
    change (rbracket =? backslash) with false. change (rbracket =? lbracket) with false. rewrite Z.eqb_refl. lia. }
  intros H. inversion H as [| |c N1 N2 N3 N4|c|xs w Hw Hne Hc|xs w Hw Hne]; subst; cbn [app].
  - reflexivity.
  - cbn [chunk_length length]. apply Z.eqb_neq in N1, N3, N4. rewrite N1, N3, N4. cbn [andb]. case_if; reflexivity.
  - reflexivity.
  - cbn [chunk_length]. change (lbracket =? backslash) with false. rewrite Z.eqb_refl, (Hcl xs w Hw). reflexivity.
  - cbn [chunk_length]. change (lbracket =? backslash) with false. rewrite Z.eqb_refl.
    change (caret =? backslash) with false. change (caret =? lbracket) with false.
    change (caret =? rbracket) with false. change (caret =? star) with false. cbn [andb].
    rewrite (Hcl xs w Hw). reflexivity.
Qed.

Section Chunks.
Context {F : Type}.

Lemma read_chunk_op o u p fuel :
  term_text (TOp o) u -> Forall is_byte (u ++ p) ->
  read_chunk (F := F) (S fuel) (u ++ p) = option_map (cons o) (read_chunk (F := F) fuel p).
Proof.
  intros H Hb. inversion H as [| |c N1 N2 N3 N4|c|xs w Hw Hne Hc|xs w Hw Hne]; subst; cbn [app] in *.
  - reflexivity.
  - cbn [read_chunk]. apply Z.eqb_neq in N2, N3, N4. now rewrite N2, N3, N4.
  - reflexivity.
  - inversion Hb; subst. cbn [read_chunk]. rewrite Z.eqb_refl, <- app_assoc in *. cbn [app] in *.
    replace (HasPrefix (w ++ rbracket :: p) [caret]) with false.
    + rewrite (read_ranges_text xs w Hw); [reflexivity|assumption|rewrite length_app; cbn; lia|contradiction].
    + destruct w as [|x w]; [reflexivity|]. cbn [app HasPrefix] in *. now rewrite Hc.
  - inversion Hb as [|? ? _ Hb1]; subst. inversion Hb1; subst. cbn [read_chunk HasPrefix tl].
    rewrite Z.eqb_refl, <- app_assoc in *. cbn [app] in *. change (caret =? caret) with true. cbn [andb].
    rewrite (read_ranges_text xs w Hw); [reflexivity|assumption|rewrite length_app; cbn; lia|contradiction].
Qed.

(** The operators before the first star make up the first chunk. *)
Lemma pattern_text_chunk p ts : pattern_text p ts -> Forall is_byte p ->
  exists u ops q T, p = u ++ q /\ ts = map TOp ops ++ T /\ pattern_text q T /\
    chunk_length p false = length u /\ forall fuel, (length u < fuel)%nat -> read_chunk (F := F) fuel u = Some ops.
Proof.
  assert (Hnil : forall fuel, (length (@nil Z) < fuel)%nat -> read_chunk (F := F) fuel [] = Some []).
  { intros [|fuel] Hf; [lia|reflexivity]. }
  induction 1 as [|t u p ts Ht Hp IH]; intros Hb.
  - exists [], [], [], []. repeat split; [constructor|exact Hnil].
  - destruct t as [|o].
    + inversion Ht; subst. exists [], [], ([star] ++ p), (TStar :: ts). repeat split; [|exact Hnil].
      now constructor.
    + pose proof Hb as Hb'. apply Forall_app in Hb' as [Hbu Hbp].
      destruct (IH Hbp) as (w & ops & q & T & -> & -> & Hq & Hl & Hr).
      exists (u ++ w), (o :: ops), q, T. rewrite !app_assoc. repeat split; [exact Hq| |].
      * rewrite <- app_assoc, (chunk_length_op o) by exact Ht. rewrite length_app. lia.
      * intros fuel Hf. rewrite length_app in Hf.
        assert (1 <= length u)%nat by (inversion Ht; cbn [length]; lia).
        destruct fuel as [|fuel]; [lia|]. rewrite (read_chunk_op o); [rewrite Hr by lia; reflexivity|exact Ht|].
        apply Forall_app. split; [exact Hbu|]. now apply Forall_app in Hbp.
Qed.

Lemma pattern_text_stars p ts : pattern_text p ts ->
  exists k T, ts = repeat TStar k ++ T /\ pattern_text (skip_stars p) T /\ HasPrefix p [star] = (0 <? k)%nat.
Proof.
  assert (Hno : forall p ts, HasPrefix p [star] = false -> pattern_text p ts ->
    exists k T, ts = repeat TStar k ++ T /\ pattern_text (skip_stars p) T /\ HasPrefix p [star] = (0 <? k)%nat).
  { intros q us Hq H. exists O, us. rewrite skip_stars_none by exact Hq. auto. }
  induction 1 as [|t u p ts Ht Hp IH]; [apply Hno; [reflexivity|constructor]|].
  destruct t as [|o].
  - inversion Ht; subst. destruct IH as (k & T & -> & HT & _). exists (S k), T. now repeat split.
  - apply Hno; [|now constructor]. inversion Ht as [| |c N1| | |]; subst; try reflexivity.
    cbn [app HasPrefix]. apply Z.eqb_neq in N1. now rewrite N1.
Qed.

(** ** The other way *)

(** What is read up to the next star outside a class is a text of operators. *)
Lemma chunk_read fuel : forall u q ops,
  Forall is_byte u -> chunk_length (u ++ q) false = length u -> read_chunk (F := F) fuel u = Some ops ->
  pattern_text u (map TOp ops).
Proof.
  induction fuel as [|fuel IH]; intros u q ops Hb Hl E; [discriminate E|].
  assert (Hgo : forall o w u', term_text (TOp o) w -> u = w ++ u' ->
    (exists ops', read_chunk (F := F) fuel u' = Some ops' /\ ops = o :: ops') -> pattern_text u (map TOp ops)).
  { intros o w u' Hw -> (ops' & E' & ->). cbn [map]. constructor; [exact Hw|].
    apply (IH u' q); [now apply Forall_app in Hb| |exact E'].
    rewrite <- app_assoc, (chunk_length_op o), length_app in Hl by exact Hw. lia. }
  destruct u as [|c u]; [injection E as <-; constructor|]. cbn [read_chunk] in E.
  assert (Hs : forall (m : option (list op)) o, option_map (cons o) m = Some ops -> exists ops', m = Some ops' /\ ops = o :: ops').
  { intros [ops'|] o Em; [|discriminate Em]. injection Em as <-. eauto. }
  destruct (Z.eqb_spec c lbracket) as [->|N1].
  { inversion Hb as [|? ? _ Hb1]; subst. destruct (HasPrefix u [caret]) eqn:Ec.
    - destruct u as [|d u]; [discriminate Ec|]. cbn [HasPrefix tl] in *. rewrite andb_true_r in Ec.
      apply Z.eqb_eq in Ec as ->. inversion Hb1; subst.
      destruct (read_ranges (length u) u 0) as [[xs rest]|] eqn:Er; [|discriminate E].
      apply ranges_read in Er as (w & Hw & -> & Hne); [|assumption].
      apply (Hgo (OClass true xs) (lbracket :: caret :: w ++ [rbracket]) rest); [constructor; auto| |auto].
      cbn [app]. now rewrite <- app_assoc.
    - destruct (read_ranges (length u) u 0) as [[xs rest]|] eqn:Er; [|discriminate E].
      apply ranges_read in Er as (w & Hw & -> & Hne); [|assumption].
      apply (Hgo (OClass false xs) (lbracket :: w ++ [rbracket]) rest); [constructor; auto| |auto].
      + destruct w as [|x w]; [reflexivity|exact Ec].
      + cbn [app]. now rewrite <- app_assoc. }
  destruct (Z.eqb_spec c question) as [->|N2]; [apply (Hgo OAny [question] u); [constructor|reflexivity|auto]|].
  destruct (Z.eqb_spec c backslash) as [->|N3].
  { destruct u as [|x u]; [discriminate E|]. apply (Hgo (OLit x) [backslash; x] u); [constructor|reflexivity|auto]. }
  apply (Hgo (OLit c) [c] u); [|reflexivity|auto]. constructor; try assumption.
  intros ->. cbn [app chunk_length length] in Hl. change (star =? rbracket) with false in Hl. discriminate Hl.
Qed.

Lemma stars_text p T : pattern_text (skip_stars p) T -> exists ts, pattern_text p ts.
Proof.
  induction p as [|c p IH]; cbn [skip_stars]; [eauto|].
  destruct (Z.eqb_spec c star) as [->|_]; [|eauto]. intros H. destruct (IH H) as [ts Hts].
  exists (TStar :: ts). change (star :: p) with ([star] ++ p). now constructor; [constructor|].
Qed.

Lemma skip_stars_bytes p : Forall is_byte p -> Forall is_byte (skip_stars p).
Proof. induction 1 as [|c p Hc Hp IH]; cbn [skip_stars]; [constructor|]. case_if; [exact IH|now constructor]. Qed.

Lemma pattern_read fuel : forall p terms,
  Forall is_byte p -> read_pattern (F := F) fuel p = Some terms -> exists ts, pattern_text p ts.
Proof.
  induction fuel as [|fuel IH]; intros p terms Hb E; [discriminate E|]. cbn [read_pattern] in E.
  destruct p as [|c p]; [exists []; constructor|]. cbn [nonempty negb] in E. unfold scanChunk in E.
  set (s := skip_stars (c :: p)) in *. pose proof (skip_stars_bytes _ Hb) as Hbs. fold s in Hbs.
  set (u := firstn (chunk_length s false) s) in *. set (q := skipn (chunk_length s false) s) in *.
  assert (Hs : s = u ++ q) by (unfold u, q; now rewrite firstn_skipn).
  destruct (read_chunk (S (length u)) u) as [ops|] eqn:Er; [|discriminate E].
  destruct (read_pattern fuel q) as [T|] eqn:Eq; [|discriminate E].
  rewrite Hs in Hbs. apply Forall_app in Hbs as [Hbu Hbq]. destruct (IH q T Hbq Eq) as [ts Hts].
  apply (stars_text _ (map TOp ops ++ ts)). fold s. rewrite Hs. apply pattern_text_app; [|exact Hts].
  apply (chunk_read (S (length u)) u q); [exact Hbu| |exact Er]. rewrite <- Hs. unfold u at 1.
  rewrite length_firstn. symmetry. apply Nat.min_l, chunk_length_le.
Qed.
End Chunks.

(** * The terms *)

Lemma wild_app l T T' : (forall s, wild_match T s = wild_match T' s) -> forall s, wild_match (l ++ T) s = wild_match (l ++ T') s.
Proof.
  intros H. induction l as [|[|o] l IH]; intros s; [apply H| |].
  - apply eq_true_iff_eq. cbn [app]. rewrite !wild_star. now setoid_rewrite IH.
  - cbn [app wild_match]. destruct (op_step o s); [apply IH|reflexivity].
Qed.

Lemma wild_stars k T s : wild_match (repeat TStar (S k) ++ T) s = wild_match (TStar :: T) s.
Proof.
  revert s. induction k as [|k IH]; intros s; [reflexivity|]. apply eq_true_iff_eq.
  change (repeat TStar (S (S k)) ++ T) with (TStar :: repeat TStar (S k) ++ T). rewrite wild_star. setoid_rewrite IH.
  rewrite wild_star. split.
  - intros (w & s' & -> & Hw & H). apply wild_star in H as (w' & s2 & -> & Hw' & H). exists (w ++ w'), s2.
    rewrite <- app_assoc. repeat split; [|exact H]. intros Hi. apply in_app_or in Hi as [?|?]; contradiction.
  - intros (w & s' & -> & Hw & H). exists w, s'. repeat split; [exact Hw|].
    apply wild_star. exists [], s'. repeat split; [intros []|exact H].
Qed.

Lemma terms_of_text {F} p ts : pattern_text p ts -> Forall is_byte p ->
  exists terms, terms_of (F := F) p = Some terms /\ (forall s, wild_match terms s = wild_match ts s) /\
    forall ascii, forallb (tame_term ascii) ts = true -> forallb (tame_term ascii) terms = true.
Proof.
  unfold terms_of. assert (Hl : (length p < S (length p))%nat) by lia. revert Hl.
  generalize (S (length p)) as fuel. intros fuel. revert p ts.
  induction fuel as [|fuel IH]; intros p ts Hl Hp Hb; [lia|]. cbn [read_pattern].
  destruct p as [|c p].
  { inversion Hp as [|t u q us Ht Hq E]; [exists []; auto|]. exfalso. inversion Ht; subst; discriminate. }
  cbn [nonempty negb]. destruct (pattern_text_stars _ _ Hp) as (k & T & -> & HT & Hk).
  destruct (pattern_text_chunk (F := F) _ _ HT (skip_stars_bytes _ Hb)) as (u & ops & q & T' & Es & -> & Hq & Hu & Hr).
  destruct (scanChunk (c :: p)) as [[starred chunk] rest] eqn:Ec.
  destruct (scanChunk_spec _ _ _ _ Ec ltac:(discriminate)) as (Hlr & _).
  unfold scanChunk in Ec. rewrite Hk, Hu, Es, firstn_length_app, skipn_length_app in Ec. injection Ec as <- <- <-.
  rewrite Hr by lia. pose proof (skip_stars_bytes _ Hb) as Hbs. rewrite Es in Hbs. apply Forall_app in Hbs as [_ Hbq].
  destruct (IH q T' ltac:(lia) Hq Hbq) as (terms & -> & Hw & Ht). eexists. split; [reflexivity|]. split.
  - intros s. rewrite !app_assoc.
    destruct k as [|k]; cbn [Nat.ltb Nat.leb]; [now apply wild_app|]. rewrite <- !app_assoc, wild_stars.
    apply (wild_app ([TStar] ++ map TOp ops)) with (s := s) in Hw. rewrite <- !app_assoc in Hw. exact Hw.
  - intros ascii. rewrite !forallb_app, !andb_true_iff. intros (_ & Ho & HT'). repeat split; [now destruct k|exact Ho|auto].
Qed.

(** ** A pattern that matches was read to its end *)

Section Read.
Context {F : Type}.

Lemma star_loop_true (k : list Z -> result F bool) chunk final name :
  star_loop k chunk final name = Ok true ->
  exists t ops, k t = Ok true /\ read_chunk (F := F) (S (length chunk)) chunk = Some ops.
Proof.
  induction name as [|c name IH]; intros E; [discriminate E|]. cbn [star_loop] in E. case_if_in E; [discriminate E|].
  rewrite matchChunk_reads in E. destruct (read_chunk (S (length chunk)) chunk) as [ops|] eqn:Er; [|discriminate E].
  cbn [bind] in E. destruct (ops_match ops name) as [t|]; [|auto]. case_if_in E; [auto|]. eauto.
Qed.

Lemma Match_loop_true fuel : forall p name,
  (length p < fuel)%nat -> Match_loop (F := F) fuel p name = Ok true ->
  exists terms, read_pattern (F := F) fuel p = Some terms.
Proof.
  induction fuel as [|fuel IH]; intros p name Hf E; [discriminate E|]. cbn [Match_loop read_pattern] in *.
  destruct (nonempty p) eqn:Ep; cbn [negb] in *; [|eauto].
  destruct (scanChunk p) as [[starred chunk] rest] eqn:Ec.
  destruct (scanChunk_spec _ _ _ _ Ec) as (Hl & _ & He); [now destruct p|].
  assert (Hend : forall t ops, Match_loop (F := F) fuel rest t = Ok true -> read_chunk (F := F) (S (length chunk)) chunk = Some ops ->
    exists terms, match read_chunk (F := F) (S (length chunk)) chunk, read_pattern (F := F) fuel rest with
      | Some ops, Some terms => Some ((if starred then [TStar] else []) ++ map TOp ops ++ terms)
      | _, _ => None end = Some terms).
  { intros t ops Et ->. destruct (IH rest t ltac:(lia) Et) as [terms ->]. eauto. }
  case_if_in E.
  { apply andb_true_iff in Heqb as [-> Hc]. destruct chunk as [|x chunk]; [|discriminate Hc].
    destruct (He eq_refl) as [-> _]. destruct p; [discriminate Ep|]. destruct fuel as [|fuel]; [cbn in Hf; lia|]. cbn. eauto. }
  rewrite matchChunk_reads in E. destruct (read_chunk (S (length chunk)) chunk) as [ops|] eqn:Er; [|discriminate E].
  cbn [bind] in E.
  assert (Hlater : (if starred then star_loop (Match_loop (F := F) fuel rest) chunk (negb (nonempty rest)) name else Ok false) = Ok true ->
    exists t, Match_loop (F := F) fuel rest t = Ok true).
  { destruct starred; [|discriminate]. intros H. apply star_loop_true in H as (t & _ & H & _). eauto. }
  destruct (ops_match ops name) as [t|].
  - case_if_in E; [eapply Hend; eauto|]. destruct (Hlater E) as [t' Ht]. eapply Hend; eauto.
  - destruct (Hlater E) as [t' Ht]. eapply Hend; eauto.
Qed.

(** A pattern that can be read is never an error. *)
Lemma Match_loop_ok fuel : forall p name terms,
  read_pattern (F := F) fuel p = Some terms -> is_ok (Match_loop (F := F) fuel p name) = true.
Proof.
  induction fuel as [|fuel IH]; intros p name terms E; [discriminate E|]. cbn [Match_loop read_pattern] in *.
  destruct (nonempty p); cbn [negb] in *; [|reflexivity].
  destruct (scanChunk p) as [[starred chunk] rest]. case_if; [reflexivity|].
  destruct (read_chunk (S (length chunk)) chunk) as [ops|] eqn:Er; [|discriminate E].
  destruct (read_pattern fuel rest) as [T|] eqn:Et; [|discriminate E].
  assert (Hs : forall s, is_ok (star_loop (Match_loop (F := F) fuel rest) chunk (negb (nonempty rest)) s) = true).
  { induction s as [|c s IHs]; [reflexivity|]. cbn [star_loop]. case_if; [reflexivity|].
    rewrite matchChunk_reads, Er. cbn [bind]. destruct (ops_match ops s) as [t|]; [|exact IHs].
    case_if; [exact IHs|]. exact (IH rest t T Et). }
  rewrite matchChunk_reads, Er. cbn [bind]. destruct (ops_match ops name) as [t|]; [|destruct starred; auto].
  case_if; [exact (IH rest t T Et)|]. destruct starred; auto.
Qed.
End Read.

(** C36: [Match] does what its documentation says.  A pattern spelled by the documented
    grammar is never an error, and a pattern that is not matches no name.  Where the
    pattern has neither a question mark nor a class, the answer is whether the name is a
    match, for names of any bytes: the first place where a chunk fits is enough.  The same
    holds with question marks and classes for names of ASCII characters, provided that no
    class takes the separator. *)
Theorem Match_refines {F} (pattern : list Z) :
  Forall is_byte pattern ->
  (forall terms, pattern_text pattern terms ->
    (forall name, is_ok (Match (F := F) pattern name) = true) /\
    (forall ascii name, forallb (tame_term ascii) terms = true -> (ascii = true -> Forall is_ascii name) ->
      Match (F := F) pattern name = Ok (wild_match terms name))) /\
  ((forall terms, ~ pattern_text pattern terms) -> forall name, Match (F := F) pattern name <> Ok true).
Proof.
  intros Hb. split.
  - intros terms Ht. destruct (terms_of_text (F := F) _ _ Ht Hb) as (terms' & E & Hw & Htame). split.
    + intros name. exact (Match_loop_ok _ _ _ _ E).
    + intros ascii name H Hn. rewrite <- Hw. exact (Match_wild ascii _ _ _ E (Htame _ H) Hn).
  - intros Hno name E. apply Match_loop_true in E as [terms E]; [|lia].
    apply pattern_read in E as [ts Hts]; [|exact Hb]. exact (Hno ts Hts).
Qed.

(** The terms of the pattern of the witness. *)
Definition example_terms : list term :=
  [TOp (OClass false [(97, 99)]); TStar; TOp (OLit 120); TStar; TOp OAny; TOp (OLit 122); TOp (OLit 42)].

Lemma example_text : pattern_text (bytes "[a-c]*x*?z\*") example_terms.
Proof.
  assert (Hc : forall r, 97 <= r < 128 -> char_text r [r]).
  { intros r Hr. rewrite <- (enc_ascii r) by (unfold RuneSelf; lia). constructor; try lia.
    left. unfold surrogateMin. lia. }
  apply (pattern_cons _ (lbracket :: ([97] ++ [45; 99]) ++ [rbracket]) (bytes "*x*?z\*")).
  - constructor; [|discriminate|reflexivity]. refine (ranges_cons (97, 99) ([97] ++ [45; 99]) [] [] _ _); [|constructor].
    apply (range_span 97 99 [97] [99]); apply Hc; lia.
  - apply (pattern_cons _ [star] (bytes "x*?z\*")); [constructor|].
    apply (pattern_cons _ [120] (bytes "*?z\*")); [now constructor|].
    apply (pattern_cons _ [star] (bytes "?z\*")); [constructor|].
    apply (pattern_cons _ [question] (bytes "z\*")); [constructor|].
    apply (pattern_cons _ [122] (bytes "\*")); [now constructor|].
    apply (pattern_cons _ [backslash; 42] []); constructor.
Qed.

Lemma Match_refines_witness :
  Match (F := Empty_set) (bytes "[a-c]*x*?z\*") (bytes "bxxzxyz*") = Ok (wild_match example_terms (bytes "bxxzxyz*")) /\
  wild_match example_terms (bytes "bxxzxyz*") = true.
Proof.
  split; [|vm_compute; reflexivity].
  refine (proj2 (proj1 (Match_refines (bytes "[a-c]*x*?z\*") (bytes_range _)) example_terms example_text) true _ _ _).
  - reflexivity.
  - intros _. unfold is_ascii. repeat constructor; vm_compute; discriminate.
Defined.

(** Malformed patterns. *)
Lemma malformed_patterns :
  Match (F := Empty_set) (bytes "[]a]") (bytes "a") = Err ErrBadPattern /\
  Match (F := Empty_set) (bytes "[-]") (bytes "-") = Err ErrBadPattern /\
  Match (F := Empty_set) (bytes "a[") (bytes "a") = Err ErrBadPattern /\
  Match (F := Empty_set) (bytes "[*]x*") (bytes "*xy") = Ok true.
Proof. repeat split. Qed.

(** Outside those bounds it does not: behind a star a class is tried inside a character,
    and finds the bytes of the euro sign to be other characters; and where a class takes
    the separator the first fit hides a later one. *)
Lemma Match_exceptions :
  Match (F := Empty_set) (bytes "*[^€]") (bytes "€") = Ok true /\
  Match (F := Empty_set) (bytes "*[/a]/*b") (bytes "a//b") = Ok false /\
  (exists terms, terms_of (F := Empty_set) (bytes "*[/a]/*b") = Some terms /\ wild_match terms (bytes "a//b") = true).
Proof. split; [vm_compute; reflexivity|]. split; [vm_compute; reflexivity|]. eexists. split; vm_compute; reflexivity. Qed.
