(* ===== verification/Store.v ===== *)
(** internal/store: the records, their checks, and the store of one JSON file per
    record in a data directory, over a file system whose calls may fail.

    The directory is a finite map from base names to contents; the code's path
    [filepath.Join(s.dir, name)] is such a base name.  The lists look for their files
    with [filepath.Glob], modelled in [Glob], which takes the directory's path for a
    pattern too and may so look into other directories, or fail: the path and what the
    system says of other paths are the interface [DataDir].  Every system call consumes
    the head of [faults], the failure the environment has in store for it; an
    exhausted list means no more failures.  Encoding and decoding of records is
    the interface [RecordCodec]. *)
From stdpp Require Import gmap strings.
From Stdlib Require Import ZArith String Bool List.
From S2P Require Import Prelude GoFloat Strconv Utf8.
From S2P Require Law Kinematics Cycle GoStrings PathClean Glob.
Import ListNotations.
Local Open Scope go_scope.
Local Open Scope string_scope.

(** ** Records *)

Record Recipe (F : Type) := mkRecipe {
  Recipe_Name : string;
  Recipe_Type : string;
  Recipe_H : F;
  Recipe_Beta : F
}.
Arguments mkRecipe {F}.
Arguments Recipe_Name {F} _.
Arguments Recipe_Type {F} _.
Arguments Recipe_H {F} _.
Arguments Recipe_Beta {F} _.

Record CycleRecord (F : Type) := mkCycleRecord {
  CR_Name : string;
  CR_H : F;
  CR_RiseLaw : string;
  CR_ReturnLaw : string;
  CR_RiseAngle : F;
  CR_OuterDwell : F;
  CR_ReturnAngle : F;
  CR_InnerDwell : F
}.
Arguments mkCycleRecord {F}.
Arguments CR_Name {F} _.
Arguments CR_H {F} _.
Arguments CR_RiseLaw {F} _.
Arguments CR_ReturnLaw {F} _.
Arguments CR_RiseAngle {F} _.
Arguments CR_OuterDwell {F} _.
Arguments CR_ReturnAngle {F} _.
Arguments CR_InnerDwell {F} _.

Definition is_blank (s : string) : bool :=
  match TrimSpace (bytes s) with [] => true | _ => false end.

Section Records.
Context {F : Type} {GF : GoFloat F}.

Definition Recipe_Validate (r : Recipe F) : result F unit :=
  if is_blank (Recipe_Name r) then Err (ErrNew "配方名不能为空")
  else if negb (Law.Known (Recipe_Type r)) then Err (Sentinel ErrUnknownLaw)
  else if Kinematics.not_positive (Recipe_H r) then Err (ErrNew "h 必须为正数")
  else if Kinematics.not_positive (Recipe_Beta r) then Err (ErrNew "β 必须为正数")
  else if fleb (K 360) (Recipe_Beta r) then
    Err (Errorf [Lit "β 必须小于一周（360°），当前为 "; FmtG (Recipe_Beta r); Lit "°"])
  else Ok tt.

Definition ToConfig (r : CycleRecord F) (omega : F) : Cycle.Config F := {|
  Cycle.RiseLaw := CR_RiseLaw r;
  Cycle.ReturnLaw := CR_ReturnLaw r;
  Cycle.H := CR_H r;
  Cycle.RiseAngle := CR_RiseAngle r;
  Cycle.OuterDwell := CR_OuterDwell r;
  Cycle.ReturnAngle := CR_ReturnAngle r;
  Cycle.InnerDwell := CR_InnerDwell r;
  Cycle.Omega := omega
|}.

Definition CycleRecord_Validate (r : CycleRecord F) : result F unit :=
  if is_blank (CR_Name r) then Err (ErrNew "循环档名不能为空")
  else
    let cfg := {|
      Cycle.RiseLaw := CR_RiseLaw r;
      Cycle.ReturnLaw := CR_ReturnLaw r;
      Cycle.H := CR_H r;
      Cycle.RiseAngle := CR_RiseAngle r;
      Cycle.OuterDwell := CR_OuterDwell r;
      Cycle.ReturnAngle := CR_ReturnAngle r;
      Cycle.InnerDwell := CR_InnerDwell r;
      Cycle.Omega := K 1
    |} in
    Cycle.Validate cfg.
End Records.

(** ** Names *)

(** The character class of [nameRe]: letters, digits, [_ . -] and U+4E00..U+9FFF. *)
Definition name_rune (r : Z) : bool :=
  ((65 <=? r) && (r <=? 90) || (97 <=? r) && (r <=? 122) || (48 <=? r) && (r <=? 57)
  || (r =? 95) || (r =? 46) || (r =? 45) || (0x4E00 <=? r) && (r <=? 0x9FFF))%Z.

(** [nameRe.MatchString]: one rune or more, all of the class.  A byte that is not
    UTF-8 reads as the error rune, which is not of the class. *)
Definition nameRe_MatchString (s : string) : bool :=
  match map fst (runes (bytes s)) with
  | [] => false
  | rs => forallb name_rune rs
  end.

Definition checkName {F} (name : string) : result F unit :=
  if is_blank name then Err (ErrNew "名字不能为空")
  else if negb (nameRe_MatchString name) then
    Err (ErrNew "名字只能含字母、数字、下划线、点、连字符与中文")
  else if String.eqb name "." || String.eqb name ".." then Err (ErrNew "名字非法")
  else Ok tt.

(** ** The file system *)

(** A failure the environment injects into a call: the system's error number, and
    for a write how many bytes reached the file, [None] when it could not even be
    opened. *)
Record fault := mkFault { fault_errno : errno; fault_wrote : option nat }.

(** The data directory: contents by base name, and the failures to come. *)
Record FS := mkFS { files : gmap string string; faults : list (option fault) }.

(** A computation on the file system that returns a value or an error. *)
Definition io (F A : Type) : Type := FS -> result F A * FS.

Definition ret {F A} (a : A) : io F A := fun w => (Ok a, w).
Definition fail {F A} (e : error F) : io F A := fun w => (Err e, w).
Definition of_result {F A} (r : result F A) : io F A := fun w => (r, w).

Definition io_bind {F A B} (m : io F A) (k : A -> io F B) : io F B := fun w =>
  match m w with
  | (Ok a, w') => k a w'
  | (Err e, w') => (Err e, w')
  | (Panic, w') => (Panic, w')
  end.

(** [io_catch m h]: on an error, continue with [h]. *)
Definition io_catch {F A} (m : io F A) (h : error F -> io F A) : io F A := fun w =>
  match m w with
  | (Err e, w') => h e w'
  | r => r
  end.

Notation "x <~ m ;; k" := (io_bind m (fun x => k))
  (at level 60, m at next level, right associativity) : go_scope.
Notation "'check~' m ;; k" := (io_bind m (fun _ => k))
  (at level 60, m at next level, right associativity) : go_scope.

Definition next_fault (w : FS) : option fault * FS :=
  match faults w with
  | [] => (None, w)
  | f :: fs => (f, mkFS (files w) fs)
  end.

Definition set_files (w : FS) (m : gmap string string) : FS := mkFS m (faults w).

(** *fs.PathError: operation, path, and the system's error. *)
Definition PathError {F} (op path : string) (e : errno) : error F :=
  ErrorfW [FmtS op; Lit " "; FmtS path; Lit ": "; FmtW] (Sentinel (Errno e)).

Definition LinkError {F} (op old new : string) (e : errno) : error F :=
  ErrorfW [FmtS op; Lit " "; FmtS old; Lit " "; FmtS new; Lit ": "; FmtW] (Sentinel (Errno e)).

Definition os_ReadFile {F} (path : string) : io F string := fun w =>
  let '(f, w) := next_fault w in
  match f with
  | Some f => (Err (PathError "open" path (fault_errno f)), w)
  | None =>
      match files w !! path with
      | Some b => (Ok b, w)
      | None => (Err (PathError "open" path ENOENT), w)
      end
  end.

(** Truncate or create the file, then write: a failure leaves a prefix. *)
Definition os_WriteFile {F} (path data : string) : io F unit := fun w =>
  let '(f, w) := next_fault w in
  match f with
  | Some (mkFault e None) => (Err (PathError "open" path e), w)
  | Some (mkFault e (Some n)) =>
      (Err (PathError "write" path e),
       set_files w (<[path := String.substring 0 n data]> (files w)))
  | None => (Ok tt, set_files w (<[path := data]> (files w)))
  end.

Definition os_Rename {F} (old new : string) : io F unit := fun w =>
  let '(f, w) := next_fault w in
  match f with
  | Some f => (Err (LinkError "rename" old new (fault_errno f)), w)
  | None =>
      match files w !! old with
      | Some b => (Ok tt, set_files w (<[new := b]> (delete old (files w))))
      | None => (Err (LinkError "rename" old new ENOENT), w)
      end
  end.

Definition os_Remove {F} (path : string) : io F unit := fun w =>
  let '(f, w) := next_fault w in
  match f with
  | Some f => (Err (PathError "remove" path (fault_errno f)), w)
  | None =>
      match files w !! path with
      | Some _ => (Ok tt, set_files w (delete path (files w)))
      | None => (Err (PathError "remove" path ENOENT), w)
      end
  end.

(** ** Where the directory is *)

(** The path [s.dir] of the data directory, and what the system says of the rest of the
    file system: whether [os.Lstat] finds a path, and the names in another directory,
    nothing where it is not one or cannot be read. *)
Class DataDir := {
  data_dir : string;
  lstat : list Z -> bool;
  other_names : list Z -> option (list (list Z))
}.

(** The same directory, written in two ways. *)
Definition same_dir (a b : list Z) : bool :=
  match PathClean.Clean a, PathClean.Clean b with
  | Some x, Some y => GoStrings.str_eqb x y
  | _, _ => false
  end.

(** What can be the name of a file in a directory. *)
Definition entry_name (n : list Z) : bool :=
  negb (GoStrings.str_eqb n []) && negb (GoStrings.Contains n [GoStrings.slash])
  && negb (GoStrings.str_eqb n [GoStrings.dot]) && negb (GoStrings.str_eqb n [GoStrings.dot; GoStrings.dot]).

(** The names in the data directory. *)
Definition entries (m : gmap string string) : list (list Z) :=
  List.filter entry_name (map bytes (map fst (map_to_list m))).

Section Glob.
Context {DD : DataDir}.

(** [Readdirnames], which [filepath.Glob] asks and whose errors it ignores: a failure
    before the directory is open gives nothing, a later one the names up to then. *)
Definition readdirnames (m : gmap string string) (f : option fault) (dir : list Z) : option (list (list Z)) :=
  if same_dir dir (bytes data_dir) then
    match f with
    | None => Some (entries m)
    | Some (mkFault _ None) => None
    | Some (mkFault _ (Some n)) => Some (firstn n (entries m))
    end
  else other_names dir.

(** [filepath.Glob(filepath.Join(s.dir, name))]. *)
Definition filepath_Glob {F} (name : string) : io F (list string) := fun w =>
  let '(f, w) := next_fault w in
  match Glob.Join [bytes data_dir; bytes name] with
  | Some pattern =>
      match Glob.Glob lstat (readdirnames (files w) f) pattern with
      | Ok fs => (Ok (map text fs), w)
      | Err e => (Err e, w)
      | Panic => (Panic, w)
      end
  | None => (Panic, w)
  end.

(** The base name of a path in the data directory; any other path as it is. *)
Definition file_of (path : string) : string :=
  let '(dir, base) := Glob.Split (bytes path) in
  if same_dir dir (bytes data_dir) then text base else path.
End Glob.

(** [sort.Strings]: bytewise order. *)
Fixpoint insert_sorted (x : string) (l : list string) : list string :=
  match l with
  | [] => [x]
  | y :: l' => if String.leb x y then x :: l else y :: insert_sorted x l'
  end.

Definition sort_Strings (l : list string) : list string := fold_right insert_sorted [] l.

(** ** Encoding and decoding of records *)

(** [json.MarshalIndent(v, "", "  ")], and [json.Unmarshal] into a zero value. *)
Class RecordCodec (F A : Type) := {
  MarshalIndent : A -> result F string;
  Unmarshal : string -> result F A
}.

(** What a codec promises: it returns, and its errors are its own. *)
Class CodecLaws (F A : Type) {RC : RecordCodec F A} : Prop := {
  MarshalIndent_total : forall v, MarshalIndent v <> Panic;
  Unmarshal_total : forall b, Unmarshal (A := A) b <> Panic;
  Unmarshal_error : forall b e s, Unmarshal (A := A) b = Err e -> errors_Is e s = false
}.

(** ** jsonfile.go *)

Section JsonFile.
Context {F A : Type} {RC : RecordCodec F A}.

Definition readJSONFile (file : string) : io F A :=
  b <~ os_ReadFile file ;;
  match Unmarshal b with
  | Ok v => ret v
  | Err e => fail (ErrorfW [Lit "解析 "; FmtS file; Lit " 失败: "; FmtW] e)
  | Panic => of_result Panic
  end.

Definition atomicWriteJSON (name : string) (v : A) : io F unit :=
  b <~ of_result (MarshalIndent v) ;;
  let final := name in
  let tmp := final ++ ".tmp" in
  check~ io_catch (os_WriteFile tmp b) (fun e =>
    fail (ErrorfW [Lit "写入 "; FmtS name; Lit " 失败: "; FmtW] e)) ;;
  io_catch (os_Rename tmp final) (fun e =>
    check~ io_catch (os_Remove tmp) (fun _ => ret tt) ;;
    fail (ErrorfW [Lit "保存 "; FmtS name; Lit " 失败: "; FmtW] e)).

(** The loop of the list operations: an unreadable or corrupt file is skipped. *)
Fixpoint read_all (fs : list string) : io F (list A) :=
  match fs with
  | [] => ret []
  | f :: fs' => fun w =>
      match readJSONFile f w with
      | (Ok r, w') => (rs <~ read_all fs' ;; ret (r :: rs)) w'
      | (Err _, w') => read_all fs' w'
      | (Panic, w') => (Panic, w')
      end
  end.
End JsonFile.

(** ** store.go *)

Section Store.
Context {F : Type} {GF : GoFloat F} {DD : DataDir}.
Context {RC : RecordCodec F (Recipe F)} {CC : RecordCodec F (CycleRecord F)}.

Definition recipe_file (name : string) : string := "recipe_" ++ name ++ ".json".
Definition cycle_file (name : string) : string := "cycle_" ++ name ++ ".json".

Definition SaveRecipe (r : Recipe F) : io F unit :=
  check~ of_result (Recipe_Validate r) ;;
  check~ of_result (checkName (Recipe_Name r)) ;;
  atomicWriteJSON (recipe_file (Recipe_Name r)) r.

Definition GetRecipe (name : string) : io F (Recipe F) :=
  check~ of_result (checkName name) ;;
  io_catch (readJSONFile (recipe_file name)) (fun err =>
    if errors_Is err ErrNotExist then
      fail (ErrorfW [FmtW; Lit ": 配方 "; FmtQ name] (Sentinel ErrNotFound))
    else fail err).

Definition ListRecipes : io F (list (Recipe F)) :=
  fs <~ filepath_Glob "recipe_*.json" ;;
  read_all (map file_of (sort_Strings fs)).

Definition SaveCycle (r : CycleRecord F) : io F unit :=
  check~ of_result (CycleRecord_Validate r) ;;
  check~ of_result (checkName (CR_Name r)) ;;
  atomicWriteJSON (cycle_file (CR_Name r)) r.

Definition GetCycle (name : string) : io F (CycleRecord F) :=
  check~ of_result (checkName name) ;;
  io_catch (readJSONFile (cycle_file name)) (fun err =>
    if errors_Is err ErrNotExist then
      fail (ErrorfW [FmtW; Lit ": 循环档 "; FmtQ name] (Sentinel ErrNotFound))
    else fail err).

Definition ListCycles : io F (list (CycleRecord F)) :=
  fs <~ filepath_Glob "cycle_*.json" ;;
  read_all (map file_of (sort_Strings fs)).
End Store.
