(* ===== verification/StoreSpec.v ===== *)
(** Theorems about internal/store: which names it takes, that saving is atomic
    whatever system call fails, that a saved record is read back and disturbs no
    other, and when a record is reported missing. *)
From stdpp Require Import gmap strings sorting.
From Stdlib Require Import ZArith Lia String Bool List Permutation.
From S2P Require Import Prelude GoFloat Float64 Strconv Utf8 Store.
From S2P Require Law Kinematics Cycle.
Import ListNotations.
Local Open Scope go_scope.
Local Open Scope string_scope.

(** ** Files *)

(** The file of a record, for the two kinds of records. *)
Definition record_file (pre name : string) : string := pre ++ name ++ ".json".

Lemma record_file_inj pre n m : record_file pre n = record_file pre m -> n = m.
Proof.
  unfold record_file. intros E. apply (sapp_inj_r _ _ ".json"). now apply sapp_inj_l in E.
Qed.

Lemma record_file_last pre name : exists s, record_file pre name = s ++ "n".
Proof.
  exists (pre ++ name ++ ".jso"). unfold record_file. now rewrite !sapp_assoc.
Qed.

Lemma tmp_last f : exists s, f ++ ".tmp" = s ++ "p".
Proof. exists (f ++ ".tm"). now rewrite sapp_assoc. Qed.

(** No record file is the temporary file of another. *)
Lemma record_file_not_tmp pre name f : record_file pre name <> f ++ ".tmp".
Proof.
  destruct (record_file_last pre name) as [s ->]. destruct (tmp_last f) as [t ->].
  intros E. apply app_char_inj in E as [_ E]. discriminate E.
Qed.

Lemma tmp_ne f : f ++ ".tmp" <> f.
Proof.
  intros E. apply (f_equal String.length) in E. rewrite sapp_length in E. cbn in E. lia.
Qed.

Lemma recipe_cycle_disjoint n m : recipe_file n <> cycle_file m.
Proof. discriminate. Qed.

(** ** Names *)

Definition valid_name (name : string) : Prop :=
  exists rs, encodes (bytes name) rs /\ rs <> [] /\ Forall (fun r => name_rune r = true) rs /\
             name <> "." /\ name <> "..".

Lemma name_rune_not_space r : name_rune r = true -> IsSpace r = false.
Proof.
  intros Hn. destruct (IsSpace r) eqn:E; [exfalso|reflexivity].
  unfold IsSpace in E. case_if_in E.
  - apply existsb_exists in E as (c & Hin & Ec). apply Z.eqb_eq in Ec. subst c.
    repeat (destruct Hin as [<- | Hin]; [discriminate Hn|]). destruct Hin.
  - unfold isExcludingLatin in E. cbn [White_Space LatinOffset skipn last_option] in E.
    apply andb_true_iff in E as [E _]. unfold name_rune in Hn. unfold MaxLatin1 in *. rewrite Z.mod_small in Heqb by lia. lia.
Qed.

Lemma nameRe_iff name :
  nameRe_MatchString name = true <->
  exists rs, encodes (bytes name) rs /\ rs <> [] /\ Forall (fun r => name_rune r = true) rs.
Proof.
  unfold nameRe_MatchString. split.
  - intros Hm. exists (map fst (runes (bytes name))).
    assert (Hall : Forall (fun r => name_rune r = true) (map fst (runes (bytes name)))).
    { destruct (map fst (runes (bytes name))); [discriminate Hm|].
      apply Forall_forall, forallb_forall, Hm. }
    split; [|split; [|exact Hall]].
    + apply runes_valid; [apply bytes_range|auto|]. rewrite Forall_map in Hall.
      eapply Forall_impl; [|exact Hall]. intros p Hp E. cbv beta in Hp. rewrite E in Hp. discriminate Hp.
    + destruct (map fst (runes (bytes name))); [discriminate Hm|discriminate].
  - intros (rs & He & Hne & Hall). rewrite (runes_encodes _ _ He).
    destruct rs; [easy|]. apply forallb_forall, Forall_forall, Hall.
Qed.

Lemma nameRe_not_blank name : nameRe_MatchString name = true -> is_blank name = false.
Proof.
  intros Hm. unfold is_blank. destruct (TrimSpace (bytes name)) eqn:E; [exfalso|reflexivity].
  apply nameRe_iff in Hm as (rs & He & Hne & Hall).
  assert (Hb : blank (bytes name)).
  { apply (runes_space _ (bytes_range name)). unfold all_space. rewrite Forall_map.
    apply TrimSpace_nil_iff; [apply bytes_range|exact E]. }
  apply (runes_space _ (bytes_range name)) in Hb. rewrite (runes_encodes _ _ He) in Hb.
  destruct rs as [|r rs]; [easy|]. inversion Hb; inversion Hall; subst.
  pose proof (name_rune_not_space r). intuition congruence.
Qed.

Lemma checkName_iff {F} name : checkName (F := F) name = Ok tt <-> valid_name name.
Proof.
  unfold checkName, valid_name. split.
  - destruct (is_blank name); [discriminate|].
    destruct (nameRe_MatchString name) eqn:Hm; cbn [negb]; [|discriminate].
    destruct (String.eqb_spec name "."); [discriminate|].
    destruct (String.eqb_spec name ".."); [discriminate|]. intros _.
    apply nameRe_iff in Hm as (rs & H1 & H2 & H3). eauto 8.
  - intros (rs & H1 & H2 & H3 & H4 & H5).
    assert (Hm : nameRe_MatchString name = true) by (apply nameRe_iff; eauto).
    rewrite (nameRe_not_blank name Hm), Hm. cbn [negb].
    destruct (String.eqb_spec name "."); [contradiction|].
    destruct (String.eqb_spec name ".."); [contradiction|]. reflexivity.
Qed.

(** [checkName] takes exactly the names that are the UTF-8 encoding of one rune or
    more, each a letter, a digit, [_], [.], [-] or in U+4E00..U+9FFF, except [.] and
    [..]: the test for blank names rejects nothing else, and invalid UTF-8 is never
    a name. *)
Theorem checkName_accepts name :
  (checkName (F := unit) name = Ok tt <-> valid_name name) /\
  (forall rs, valid_name name -> encodes (bytes name) rs ->
     Forall (fun r => r <> 0x2F /\ r <> 0x5C /\ r <> 0x22 /\ 0x20 < r)%Z rs).
Proof.
  split; [apply checkName_iff|].
  intros rs (rs' & He & _ & Hall & _) He'.
  replace rs with rs' by (rewrite <- (runes_encodes _ _ He), <- (runes_encodes _ _ He'); reflexivity).
  eapply Forall_impl; [|exact Hall]. intros r Hr. unfold name_rune in Hr. cbv beta. lia.
Qed.

(** ** Saving *)

Lemma next_fault_files w f w' : next_fault w = (f, w') -> files w' = files w.
Proof.
  unfold next_fault. destruct (faults w); intros E; injection E as <- <-; reflexivity.
Qed.

Section Atomic.
Context {F A : Type} {RC : RecordCodec F A}.
Implicit Types (v : A) (w : FS).

(** What a call to [atomicWriteJSON] can have done, whatever failed. *)
Definition write_outcome (name : string) v w (res : result F unit) w' : Prop :=
  (forall f, f <> name -> f <> name ++ ".tmp" -> files w' !! f = files w !! f) /\
  ((res = Ok tt /\ exists b, MarshalIndent v = Ok b /\ files w' !! name = Some b /\
                             files w' !! (name ++ ".tmp") = None) \/
   (res <> Ok tt /\ files w' !! name = files w !! name)).

Lemma write_outcome_refuse name v w e : write_outcome name v w (Err e) w.
Proof. split; [reflexivity|]. right. split; [discriminate|reflexivity]. Qed.

Lemma remove_tmp name w u (w' : FS) :
  io_catch (os_Remove (F := F) (name ++ ".tmp")) (fun _ => ret tt) w = (u, w') ->
  u = Ok tt /\ forall f, f <> name ++ ".tmp" -> files w' !! f = files w !! f.
Proof.
  unfold io_catch, os_Remove. destruct (next_fault w) as [f w1] eqn:E.
  apply next_fault_files in E. destruct f as [f|].
  { intros R. injection R as <- <-. split; [reflexivity|]. intros; now rewrite E. }
  destruct (files w1 !! (name ++ ".tmp")); intros R; injection R as <- <-;
    (split; [reflexivity|]); intros g Hg; unfold set_files; cbn [files].
  - rewrite lookup_delete_ne by congruence. now rewrite E.
  - now rewrite E.
Qed.

Lemma rename_outcome name v b w w0 res w' :
  MarshalIndent v = Ok b -> files w !! (name ++ ".tmp") = Some b ->
  (forall f, f <> name ++ ".tmp" -> files w !! f = files w0 !! f) ->
  io_catch (os_Rename (name ++ ".tmp") name) (fun e =>
    check~ io_catch (os_Remove (name ++ ".tmp")) (fun _ => ret tt) ;;
    fail (ErrorfW [Lit "保存 "; FmtS name; Lit " 失败: "; FmtW] e)) w = (res, w') ->
  write_outcome name v w0 res w'.
Proof.
  intros Hm Ht Hf. unfold io_catch at 1, os_Rename.
  destruct (next_fault w) as [f w1] eqn:E. apply next_fault_files in E. rewrite E.
  pose proof (tmp_ne name) as Hne.
  destruct f as [f|]; [|rewrite Ht].
  - unfold io_bind. destruct (io_catch _ _ w1) as [u w2] eqn:R.
    apply remove_tmp in R as [-> R]. intros Q. injection Q as <- <-. split.
    + intros g Hg1 Hg2. rewrite R, E by assumption. now apply Hf.
    + right. split; [discriminate|]. rewrite R, E by congruence. apply Hf. congruence.
  - intros Q. injection Q as <- <-. unfold write_outcome, set_files. cbn [files]. split.
    + intros g Hg1 Hg2. rewrite lookup_insert_ne, lookup_delete_ne by congruence.
      now apply Hf.
    + left. split; [reflexivity|]. exists b. split; [exact Hm|]. split.
      * apply lookup_insert_eq.
      * rewrite lookup_insert_ne, lookup_delete_eq by congruence. reflexivity.
Qed.

Lemma write_spec name v w res w' :
  atomicWriteJSON name v w = (res, w') -> write_outcome name v w res w'.
Proof.
  unfold atomicWriteJSON, io_bind at 1, of_result.
  destruct (MarshalIndent v) as [b|e|] eqn:Hm;
    [|intros Q; injection Q as <- <-; apply write_outcome_refuse
     |intros Q; injection Q as <- <-; split; [reflexivity|];
      right; split; [discriminate|reflexivity]].
  unfold io_bind at 1, io_catch at 1, os_WriteFile.
  destruct (next_fault w) as [f w1] eqn:E. apply next_fault_files in E.
  pose proof (tmp_ne name) as Hne.
  destruct f as [[e [n|]]|].
  - intros Q. injection Q as <- <-. unfold write_outcome, set_files. cbn [files]. split.
    + intros g Hg1 Hg2. rewrite lookup_insert_ne by congruence. now rewrite E.
    + right. split; [discriminate|]. rewrite lookup_insert_ne by congruence. now rewrite E.
  - intros Q. injection Q as <- <-. split; [intros; now rewrite E|].
    right. split; [discriminate|now rewrite E].
  - intros Q. eapply rename_outcome in Q; [exact Q|exact Hm| |].
    + unfold set_files; cbn [files]. apply lookup_insert_eq.
    + intros g Hg. unfold set_files; cbn [files]. rewrite lookup_insert_ne by congruence. now rewrite E.
Qed.

(** With no failure to come, the write goes through. *)
Lemma write_ok name v w b :
  faults w = [] -> MarshalIndent v = Ok b ->
  atomicWriteJSON name v w =
  (Ok tt, mkFS (<[name := b]> (delete (name ++ ".tmp") (<[name ++ ".tmp" := b]> (files w)))) []).
Proof.
  intros Hf Hm. destruct w as [m fs]. cbn in Hf. subst fs.
  unfold atomicWriteJSON, io_bind, io_catch, of_result, os_WriteFile, os_Rename, next_fault, set_files.
  rewrite Hm. cbn [files faults]. rewrite lookup_insert_eq. reflexivity.
Qed.

(** ** Reading *)

Definition read_outcome (file : string) w : result F A * FS :=
  let '(f, w') := next_fault w in
  (match f with
   | Some f => Err (PathError "open" file (fault_errno f))
   | None =>
       match files w !! file with
       | Some b =>
           match Unmarshal b with
           | Ok v => Ok v
           | Err e => Err (ErrorfW [Lit "解析 "; FmtS file; Lit " 失败: "; FmtW] e)
           | Panic => Panic
           end
       | None => Err (PathError "open" file ENOENT)
       end
   end, w').

Lemma read_spec file w : readJSONFile (A := A) file w = read_outcome file w.
Proof.
  unfold readJSONFile, read_outcome, io_bind, os_ReadFile.
  destruct (next_fault w) as [f w1] eqn:E. apply next_fault_files in E. rewrite <- E.
  destruct f; [reflexivity|]. destruct (files w1 !! file) as [b|]; [|reflexivity].
  destruct (Unmarshal b); reflexivity.
Qed.

(** What a lookup of a record by file gives, the failures aside. *)
Lemma read_same file w1 w2 :
  faults w1 = faults w2 -> files w1 !! file = files w2 !! file ->
  fst (readJSONFile (A := A) file w1) = fst (readJSONFile (A := A) file w2).
Proof.
  intros Hf Hm. rewrite !read_spec. unfold read_outcome, next_fault.
  rewrite Hf, Hm. destruct (faults w2); reflexivity.
Qed.
End Atomic.

(** * The store *)

Section StoreSpec.
Context {F : Type} {GF : GoFloat F}.
Context {RC : RecordCodec F (Recipe F)} {CC : RecordCodec F (CycleRecord F)}.

(** A system call sequence that saved a record of a kind, or left the directory's
    records as they were. *)
Definition saved_or_kept {A} {_ : RecordCodec F A} (pre name : string) (v : A)
    (w : FS) (res : result F unit) (w' : FS) : Prop :=
  (res = Ok tt /\ exists b, MarshalIndent v = Ok b /\
     files w' !! record_file pre name = Some b /\
     files w' !! (record_file pre name ++ ".tmp") = None /\
     forall pre' m, record_file pre' m <> record_file pre name ->
       files w' !! record_file pre' m = files w !! record_file pre' m) \/
  (res <> Ok tt /\
     forall pre' m, files w' !! record_file pre' m = files w !! record_file pre' m).

Lemma saved_or_kept_refuse {A} {_ : RecordCodec F A} pre name (v : A) w res :
  res <> Ok tt -> saved_or_kept pre name v w res w.
Proof. intros H. right. split; [exact H|reflexivity]. Qed.

Lemma write_saved_or_kept {A} {_ : RecordCodec F A} pre name (v : A) w res w' :
  atomicWriteJSON (record_file pre name) v w = (res, w') ->
  saved_or_kept pre name v w res w'.
Proof.
  intros W. apply write_spec in W as [Hother [(-> & b & Hm & Hn & Ht) | [Hres Hn]]].
  - left. split; [reflexivity|]. exists b. repeat split; try assumption.
    intros pre' m Hne. apply Hother; [exact Hne|apply record_file_not_tmp].
  - right. split; [exact Hres|]. intros pre' m.
    destruct (String.eqb_spec (record_file pre' m) (record_file pre name)) as [->|Hne];
      [exact Hn|]. apply Hother; [exact Hne|apply record_file_not_tmp].
Qed.

Lemma SaveRecipe_spec r w res w' :
  SaveRecipe r w = (res, w') -> saved_or_kept "recipe_" (Recipe_Name r) r w res w'.
Proof.
  unfold SaveRecipe, io_bind, of_result.
  destruct (Recipe_Validate r) as [[]|e|];
    [|intros Q; injection Q as <- <-; now apply saved_or_kept_refuse..].
  destruct (checkName (Recipe_Name r)) as [[]|e|];
    [|intros Q; injection Q as <- <-; now apply saved_or_kept_refuse..].
  apply (write_saved_or_kept "recipe_").
Qed.

Lemma SaveCycle_spec r w res w' :
  SaveCycle r w = (res, w') -> saved_or_kept "cycle_" (CR_Name r) r w res w'.
Proof.
  unfold SaveCycle, io_bind, of_result.
  destruct (CycleRecord_Validate r) as [[]|e|];
    [|intros Q; injection Q as <- <-; now apply saved_or_kept_refuse..].
  destruct (checkName (CR_Name r)) as [[]|e|];
    [|intros Q; injection Q as <- <-; now apply saved_or_kept_refuse..].
  apply (write_saved_or_kept "cycle_").
Qed.

(** C3: saving is atomic.  Whatever system calls fail, and however far a write got,
    [SaveRecipe] and [SaveCycle] either succeed, and then the record's file holds
    its whole encoding, the temporary file is gone and every other record file is
    untouched, or return an error, and then every record file, the one being
    replaced included, is exactly what it was. *)
Theorem save_atomic (r : Recipe F) (c : CycleRecord F) (w : FS) :
  saved_or_kept "recipe_" (Recipe_Name r) r w (fst (SaveRecipe r w)) (snd (SaveRecipe r w)) /\
  saved_or_kept "cycle_" (CR_Name c) c w (fst (SaveCycle c w)) (snd (SaveCycle c w)).
Proof.
  split.
  - destruct (SaveRecipe r w) eqn:E. now apply SaveRecipe_spec.
  - destruct (SaveCycle c w) eqn:E. now apply SaveCycle_spec.
Qed.

Lemma Get_recipe_same name w1 w2 :
  faults w1 = faults w2 -> files w1 !! recipe_file name = files w2 !! recipe_file name ->
  fst (GetRecipe name w1) = fst (GetRecipe name w2).
Proof.
  intros Hf Hm. unfold GetRecipe, io_bind, of_result, io_catch.
  destruct (checkName name) as [[]|e|]; try reflexivity.
  pose proof (read_same (A := Recipe F) (recipe_file name) w1 w2 Hf Hm) as Hr.
  destruct (readJSONFile (recipe_file name) w1) as [[v1|e1|] w1'];
    destruct (readJSONFile (recipe_file name) w2) as [[v2|e2|] w2']; cbn in Hr;
    try discriminate Hr; try (injection Hr as ->); try reflexivity.
  case_if; reflexivity.
Qed.

Lemma Get_cycle_same name w1 w2 :
  faults w1 = faults w2 -> files w1 !! cycle_file name = files w2 !! cycle_file name ->
  fst (GetCycle name w1) = fst (GetCycle name w2).
Proof.
  intros Hf Hm. unfold GetCycle, io_bind, of_result, io_catch.
  destruct (checkName name) as [[]|e|]; try reflexivity.
  pose proof (read_same (A := CycleRecord F) (cycle_file name) w1 w2 Hf Hm) as Hr.
  destruct (readJSONFile (cycle_file name) w1) as [[v1|e1|] w1'];
    destruct (readJSONFile (cycle_file name) w2) as [[v2|e2|] w2']; cbn in Hr;
    try discriminate Hr; try (injection Hr as ->); try reflexivity.
  case_if; reflexivity.
Qed.

Lemma read_stored {A} {_ : RecordCodec F A} file b (v : A) m :
  m !! file = Some b -> Unmarshal b = Ok v ->
  readJSONFile file (mkFS m []) = (Ok v, mkFS m []).
Proof.
  intros Hm Hu. rewrite read_spec. unfold read_outcome, next_fault. cbn [faults files].
  now rewrite Hm, Hu.
Qed.

Lemma GetRecipe_stored name b v m :
  checkName (F := F) name = Ok tt -> m !! recipe_file name = Some b -> Unmarshal b = Ok v ->
  GetRecipe name (mkFS m []) = (Ok v, mkFS m []).
Proof.
  intros Hn Hm Hu. unfold GetRecipe, io_bind, of_result, io_catch. rewrite Hn.
  now rewrite (read_stored _ b v).
Qed.

Lemma GetCycle_stored name b v m :
  checkName (F := F) name = Ok tt -> m !! cycle_file name = Some b -> Unmarshal b = Ok v ->
  GetCycle name (mkFS m []) = (Ok v, mkFS m []).
Proof.
  intros Hn Hm Hu. unfold GetCycle, io_bind, of_result, io_catch. rewrite Hn.
  now rewrite (read_stored _ b v).
Qed.

(** A save that went through, as a new map of files. *)
Lemma SaveRecipe_ok r m b :
  Recipe_Validate r = Ok tt -> checkName (F := F) (Recipe_Name r) = Ok tt ->
  MarshalIndent r = Ok b ->
  exists m', SaveRecipe r (mkFS m []) = (Ok tt, mkFS m' []) /\
    m' !! recipe_file (Recipe_Name r) = Some b /\
    (forall n, n <> Recipe_Name r -> m' !! recipe_file n = m !! recipe_file n) /\
    (forall n, m' !! cycle_file n = m !! cycle_file n).
Proof.
  intros Hv Hn Hm. unfold SaveRecipe, io_bind, of_result. rewrite Hv, Hn.
  set (f := recipe_file (Recipe_Name r)).
  rewrite (write_ok f r (mkFS m []) b eq_refl Hm). cbn [files].
  eexists. split; [reflexivity|]. split; [apply lookup_insert_eq|]. split; intros n.
  - intros Hne. rewrite lookup_insert_ne, lookup_delete_ne, lookup_insert_ne; [reflexivity|..].
    + intros E. symmetry in E. now apply (record_file_not_tmp "recipe_") in E.
    + intros E. symmetry in E. now apply (record_file_not_tmp "recipe_") in E.
    + intros E. symmetry in E. now apply (record_file_inj "recipe_") in E.
  - rewrite lookup_insert_ne, lookup_delete_ne, lookup_insert_ne; [reflexivity|..].
    + intros E. symmetry in E. now apply (record_file_not_tmp "cycle_") in E.
    + intros E. symmetry in E. now apply (record_file_not_tmp "cycle_") in E.
    + apply recipe_cycle_disjoint.
Qed.

Lemma SaveCycle_ok r m b :
  CycleRecord_Validate r = Ok tt -> checkName (F := F) (CR_Name r) = Ok tt ->
  MarshalIndent r = Ok b ->
  exists m', SaveCycle r (mkFS m []) = (Ok tt, mkFS m' []) /\
    m' !! cycle_file (CR_Name r) = Some b /\
    (forall n, n <> CR_Name r -> m' !! cycle_file n = m !! cycle_file n) /\
    (forall n, m' !! recipe_file n = m !! recipe_file n).
Proof.
  intros Hv Hn Hm. unfold SaveCycle, io_bind, of_result. rewrite Hv, Hn.
  set (f := cycle_file (CR_Name r)).
  rewrite (write_ok f r (mkFS m []) b eq_refl Hm). cbn [files].
  eexists. split; [reflexivity|]. split; [apply lookup_insert_eq|]. split; intros n.
  - intros Hne. rewrite lookup_insert_ne, lookup_delete_ne, lookup_insert_ne; [reflexivity|..].
    + intros E. symmetry in E. now apply (record_file_not_tmp "cycle_") in E.
    + intros E. symmetry in E. now apply (record_file_not_tmp "cycle_") in E.
    + intros E. symmetry in E. now apply (record_file_inj "cycle_") in E.
  - rewrite lookup_insert_ne, lookup_delete_ne, lookup_insert_ne; [reflexivity|..].
    + intros E. symmetry in E. now apply (record_file_not_tmp "recipe_") in E.
    + intros E. symmetry in E. now apply (record_file_not_tmp "recipe_") in E.
    + intros E. symmetry in E. now apply recipe_cycle_disjoint in E.
Qed.

(** a recipe that passes its checks is saved, and from then on read back by its
    name as it was given, whatever was stored under the name before; every other
    name reads as it did, and so does every cycle record. *)
Theorem save_get_recipe r m b :
  Recipe_Validate r = Ok tt -> checkName (F := F) (Recipe_Name r) = Ok tt ->
  MarshalIndent r = Ok b -> Unmarshal b = Ok r ->
  exists m', SaveRecipe r (mkFS m []) = (Ok tt, mkFS m' []) /\
    GetRecipe (Recipe_Name r) (mkFS m' []) = (Ok r, mkFS m' []) /\
    (forall n, n <> Recipe_Name r ->
       fst (GetRecipe n (mkFS m' [])) = fst (GetRecipe n (mkFS m []))) /\
    (forall n, fst (GetCycle n (mkFS m' [])) = fst (GetCycle n (mkFS m []))).
Proof.
  intros Hv Hn Hm Hu. destruct (SaveRecipe_ok r m b Hv Hn Hm) as (m' & E & Hb & Hr & Hc).
  exists m'. split; [exact E|]. split; [now apply (GetRecipe_stored _ b)|].
  split; intros n; [intros Hne; apply Get_recipe_same; [reflexivity|]; now apply Hr|].
  apply Get_cycle_same; [reflexivity|]. apply Hc.
Qed.

(** the same for a cycle record; no recipe is disturbed. *)
Theorem save_get_cycle r m b :
  CycleRecord_Validate r = Ok tt -> checkName (F := F) (CR_Name r) = Ok tt ->
  MarshalIndent r = Ok b -> Unmarshal b = Ok r ->
  exists m', SaveCycle r (mkFS m []) = (Ok tt, mkFS m' []) /\
    GetCycle (CR_Name r) (mkFS m' []) = (Ok r, mkFS m' []) /\
    (forall n, n <> CR_Name r ->
       fst (GetCycle n (mkFS m' [])) = fst (GetCycle n (mkFS m []))) /\
    (forall n, fst (GetRecipe n (mkFS m' [])) = fst (GetRecipe n (mkFS m []))).
Proof.
  intros Hv Hn Hm Hu. destruct (SaveCycle_ok r m b Hv Hn Hm) as (m' & E & Hb & Hc & Hr).
  exists m'. split; [exact E|]. split; [now apply (GetCycle_stored _ b)|].
  split; intros n; [intros Hne; apply Get_cycle_same; [reflexivity|]; now apply Hc|].
  apply Get_recipe_same; [reflexivity|]. apply Hr.
Qed.

(** The file of a record is not there: by the file map, or by what the system says. *)
Definition missing (file : string) (w : FS) : Prop :=
  match fst (next_fault w) with
  | Some f => fault_errno f = ENOENT
  | None => files w !! file = None
  end.

Lemma read_not_exist {A} {_ : RecordCodec F A} file w :
  (forall b e s, Unmarshal (A := A) b = Err e -> errors_Is e s = false) ->
  match fst (readJSONFile (A := A) file w) with
  | Err e => errors_Is e ErrNotFound = false /\
             (errors_Is e ErrNotExist = true <-> missing file w)
  | _ => ~ missing file w
  end.
Proof.
  intros Hu. rewrite read_spec. unfold read_outcome, missing.
  destruct (next_fault w) as [[f|] w']; cbn [fst].
  - cbn [PathError errors_Is]. destruct (fault_errno f); cbn; split; split; congruence || reflexivity.
  - destruct (files w !! file) as [b|].
    + destruct (Unmarshal b) as [v|e|] eqn:E; try discriminate. cbn [errors_Is].
      rewrite !(Hu _ _ _ E). split; [reflexivity|]. split; discriminate.
    + cbn. split; [reflexivity|]. split; reflexivity.
Qed.

Lemma checkName_error name (e : error F) s : checkName name = Err e -> errors_Is e s = false.
Proof.
  unfold checkName. repeat case_if; intros E; try discriminate E; injection E as <-; reflexivity.
Qed.

Definition not_found {A} (r : result F A) : Prop :=
  exists e, r = Err e /\ errors_Is e ErrNotFound = true.

(** C33: a lookup answers "not found" exactly when the name is one the store takes and
    the system has no such file; a bad name, a corrupt file and any other system
    error are other errors. *)
Theorem get_not_found (name : string) (w : FS) :
  CodecLaws F (Recipe F) -> CodecLaws F (CycleRecord F) ->
  (not_found (fst (GetRecipe name w)) <->
     checkName (F := F) name = Ok tt /\ missing (recipe_file name) w) /\
  (not_found (fst (GetCycle name w)) <->
     checkName (F := F) name = Ok tt /\ missing (cycle_file name) w).
Proof.
  intros [_ _ Hr] [_ _ Hc]. unfold GetRecipe, GetCycle, io_bind, io_catch, of_result, not_found.
  destruct (checkName name) as [[]|e|] eqn:Hn; cbn [fst].
  - pose proof (read_not_exist (A := Recipe F) (recipe_file name) w Hr) as R.
    pose proof (read_not_exist (A := CycleRecord F) (cycle_file name) w Hc) as C.
    destruct (readJSONFile (recipe_file name) w) as [r w1], (readJSONFile (cycle_file name) w) as [c w2].
    cbn [fst] in R, C. split.
    + destruct r as [v|e|]; [|destruct R as [R1 R2]|]; try (split; [intros (e & E & _); discriminate E|tauto]).
      destruct (errors_Is e ErrNotExist); cbn [fst fail].
      * split; [tauto|]. intros _. eexists. split; reflexivity.
      * split; [intros (e' & E & E'); injection E as <-; congruence|].
        intros [_ M]. apply R2 in M. discriminate M.
    + destruct c as [v|e|]; [|destruct C as [C1 C2]|]; try (split; [intros (e & E & _); discriminate E|tauto]).
      destruct (errors_Is e ErrNotExist); cbn [fst fail].
      * split; [tauto|]. intros _. eexists. split; reflexivity.
      * split; [intros (e' & E & E'); injection E as <-; congruence|].
        intros [_ M]. apply C2 in M. discriminate M.
  - pose proof (checkName_error name e ErrNotFound Hn) as He.
    split; (split; [intros (e' & E & E'); injection E as <-; congruence|intros [E _]; discriminate E]).
  - split; (split; [intros (e' & E & E'); discriminate E|intros [E _]; discriminate E]).
Qed.
End StoreSpec.

Section StoreRecords.
Context {F : Type} {GF : GoFloat F}.
Context {RC : RecordCodec F (Recipe F)} {CC : RecordCodec F (CycleRecord F)}.

(** A stored cycle is computable at every speed.  Once [CycleRecord.Validate]
    takes a record, the configuration [ToConfig] makes of it with a speed passes
    [Config.Validate] exactly when the speed is a positive number, and then nothing
    else can be wrong with it. *)
Theorem record_to_config (r : CycleRecord F) (omega : F) :
  CycleRecord_Validate r = Ok tt ->
  Cycle.Validate (ToConfig r omega) =
  if Kinematics.not_positive omega then Err (ErrNew "ω 必须为正数") else Ok tt.
Proof.
  unfold CycleRecord_Validate, Cycle.Validate, ToConfig.
  destruct (is_blank (CR_Name r)); [discriminate|]. cbn.
  destruct (Law.Known (CR_RiseLaw r)); cbn [negb]; [|discriminate].
  destruct (Law.Known (CR_ReturnLaw r)); cbn [negb]; [|discriminate].
  destruct (Kinematics.not_positive (CR_H r)); [discriminate|].
  destruct (Kinematics.not_positive (K 1)); [discriminate|]. intros E.
  destruct (Kinematics.not_positive omega); [reflexivity|exact E].
Qed.
End StoreRecords.

(** * The theorems at concrete records *)

(** A codec that knows one record; the package's own is in [JsonRecords]. *)
Definition one_record {F A : Type} (v : A) : RecordCodec F A := {|
  MarshalIndent := fun _ => Ok "{}";
  Unmarshal := fun _ => Ok v
|}.

#[export] Instance one_record_laws {F A} (v : A) : CodecLaws F A (RC := one_record v).
Proof. constructor; cbn; congruence. Qed.

Definition sample_recipe : Recipe float64 :=
  mkRecipe "cycloid-lift" Law.Cycloid (of_Z 10) (of_Z 60).

Definition sample_record : CycleRecord float64 :=
  mkCycleRecord "c" (of_Z 10) Law.Cosine Law.Parabolic (of_Z 90) (of_Z 90) (of_Z 120) (of_Z 60).

Lemma get_not_found_witness :
  let RC := one_record (F := float64) sample_recipe in let CC := one_record (F := float64) sample_record in
  not_found (fst (GetRecipe "x" (mkFS ∅ []))) /\ not_found (fst (GetCycle "x" (mkFS ∅ []))) /\
  ~ not_found (fst (GetRecipe "a/b" (mkFS ∅ []))).
Proof.
  intros RC CC. split; [|split].
  - apply (get_not_found "x" (mkFS ∅ [])); [apply one_record_laws..|].
    split; [vm_compute; reflexivity|reflexivity].
  - apply (get_not_found "x" (mkFS ∅ [])); [apply one_record_laws..|].
    split; [vm_compute; reflexivity|reflexivity].
  - intros H. apply (get_not_found "a/b" (mkFS ∅ [])) in H; [|apply one_record_laws..].
    destruct H as [H _]. vm_compute in H. discriminate H.
Defined.

Lemma record_to_config_witness :
  Cycle.Validate (ToConfig sample_record (of_Z 360)) = Ok tt /\
  Cycle.Validate (ToConfig sample_record (of_Z 0)) = Err (ErrNew "ω 必须为正数").
Proof.
  split; rewrite record_to_config by (vm_compute; reflexivity); vm_compute; reflexivity.
Defined.
