(* ===== verification/StoreGlob.v ===== *)
(** The lists of the store: what [filepath.Glob] finds for the pattern of a list operation,
    and the records that [ListRecipes] and [ListCycles] give for it. *)
From stdpp Require Import gmap strings sorting.
From Stdlib Require Import ZArith Lia String Ascii Bool List Permutation.
From S2P Require Import Prelude GoFloat Float64 Strconv Utf8 GoStrings Url UrlSpec PathClean Glob GlobSpec PatternSpec Store StoreSpec.
Import ListNotations.
Local Open Scope Z_scope.

(** * The reference *)

(** A name with the prefix and the suffix. *)
Definition ends_with (s suffix : string) : bool :=
  (String.length suffix <=? String.length s)%nat
  && String.eqb (String.substring (String.length s - String.length suffix)
                                  (String.length suffix) s) suffix.

Definition wild_name (pre suffix name : string) : bool :=
  String.prefix pre name
  && (String.length pre + String.length suffix <=? String.length name)%nat
  && ends_with name suffix.

Section Names.
Local Open Scope string_scope.

Lemma ends_with_iff s suf : ends_with s suf = true <-> exists u, s = u ++ suf.
Proof.
  unfold ends_with. rewrite andb_true_iff, Nat.leb_le, String.eqb_eq. split.
  - intros [Hl E]. destruct (string_split (String.length s - String.length suf) s) as (u & v & -> & Hu);
      [lia|]. exists u. f_equal. rewrite <- E, <- Hu. rewrite <- (substring_app u v) at 1.
    f_equal. rewrite sapp_length in Hu, Hl. lia.
  - intros (u & ->). rewrite sapp_length. split; [lia|].
    replace (String.length u + String.length suf - String.length suf)%nat
      with (String.length u) by lia. apply substring_app.
Qed.

(** The pattern of a list operation takes the files of records, and no others. *)
Lemma wild_name_iff pre suf f : wild_name pre suf f = true <-> exists n, f = pre ++ n ++ suf.
Proof.
  unfold wild_name. rewrite !andb_true_iff, prefix_iff, ends_with_iff, Nat.leb_le. split.
  - intros [[(t & ->) Hl] (u & E)]. rewrite E, sapp_length in Hl.
    destruct (app_prefix_le pre t u suf E) as (n & ->); [lia|].
    exists n. now rewrite E, sapp_assoc.
  - intros (n & ->). rewrite !sapp_length. split; [split|]; [eauto|lia|].
    exists (pre ++ n). now rewrite sapp_assoc.
Qed.

Lemma insert_sorted_perm x l : Permutation (insert_sorted x l) (x :: l).
Proof.
  induction l as [|y l IH]; cbn; [reflexivity|]. case_if; [reflexivity|].
  rewrite IH. apply perm_swap.
Qed.

Lemma sort_Strings_perm l : Permutation (sort_Strings l) l.
Proof.
  induction l as [|x l IH]; cbn; [reflexivity|]. now rewrite insert_sorted_perm, IH.
Qed.

Definition string_le (a b : string) : Prop := String.leb a b = true.

Lemma sort_Strings_sorted l : Sorted string_le (sort_Strings l).
Proof.
  induction l as [|x l IH]; cbn; [constructor|].
  fold (sort_Strings l). induction IH as [|y l' Hl IH' Hd]; cbn; [repeat constructor|].
  destruct (String.leb x y) eqn:E; [repeat constructor; assumption|].
  assert (Hyx : string_le y x) by (destruct (String.leb_total x y); [congruence|assumption]).
  constructor; [exact IH'|]. destruct Hd as [|z l' Hyz]; cbn; [now constructor|].
  case_if; now constructor.
Qed.

End Names.

(** * The order of strings *)

Lemma text_app a b : text (a ++ b)%list = (text a ++ text b)%string.
Proof. unfold text. rewrite map_app. induction (map _ a) as [|c l IH]; [reflexivity|]. cbn. now rewrite IH. Qed.

Lemma bytes_app s t : bytes (s ++ t)%string = (bytes s ++ bytes t)%list.
Proof.
  unfold bytes. rewrite <- map_app. f_equal. induction s as [|c s IH]; [reflexivity|].
  change (list_ascii_of_string (String c s ++ t)%string) with (c :: list_ascii_of_string (s ++ t)%string). now rewrite IH.
Qed.

Lemma bytes_leb_string s t : bytes_leb (bytes s) (bytes t) = String.leb s t.
Proof.
  revert t. induction s as [|a s IH]; intros [|b t]; try reflexivity.
  unfold String.leb in *. cbn [String.compare]. unfold bytes in *. cbn [list_ascii_of_string map bytes_leb].
  unfold Ascii.compare. rewrite IH. destruct (N.compare_spec (N_of_ascii a) (N_of_ascii b)) as [E|E|E].
  - rewrite E. rewrite Z.ltb_irrefl, Z.eqb_refl. reflexivity.
  - replace (Z.of_N (N_of_ascii a) <? Z.of_N (N_of_ascii b)) with true by (symmetry; apply Z.ltb_lt; lia). reflexivity.
  - replace (Z.of_N (N_of_ascii a) <? Z.of_N (N_of_ascii b)) with false by (symmetry; apply Z.ltb_ge; lia).
    replace (Z.of_N (N_of_ascii a) =? Z.of_N (N_of_ascii b)) with false by (symmetry; apply Z.eqb_neq; lia). reflexivity.
Qed.

Lemma bytes_leb_trans a : forall b c, bytes_leb a b = true -> bytes_leb b c = true -> bytes_leb a c = true.
Proof.
  induction a as [|x a IH]; intros [|y b] [|z c] H1 H2; try reflexivity; try discriminate.
  cbn [bytes_leb] in *. rewrite !orb_true_iff, !andb_true_iff, !Z.ltb_lt, !Z.eqb_eq in *.
  destruct H1 as [H1|[-> H1]], H2 as [H2|[-> H2]]; [left; lia|left; lia|left; lia|right; split; [reflexivity|now apply (IH b)]].
Qed.

#[export] Instance string_le_trans : Transitive string_le.
Proof. intros a b c. unfold string_le. rewrite <- !bytes_leb_string. apply bytes_leb_trans. Qed.

#[export] Instance string_le_antisym : AntiSymm (=) string_le.
Proof. intros a b. apply String.leb_antisym. Qed.

Lemma insert_key_text k l :
  Forall is_byte k -> Forall (Forall is_byte) l -> map text (insert_key k l) = insert_sorted (text k) (map text l).
Proof.
  intros Hk. induction 1 as [|x l Hx _ IH]; [reflexivity|]. cbn [insert_key map insert_sorted].
  rewrite <- (bytes_leb_string (text k)), !bytes_text by assumption. case_if; cbn [map]; [reflexivity|]. now rewrite IH.
Qed.

Lemma sort_keys_text l : Forall (Forall is_byte) l -> map text (sort_keys l) = sort_Strings (map text l).
Proof.
  induction 1 as [|x l Hx Hl IH]; [reflexivity|]. unfold sort_keys, sort_Strings in *. cbn [map fold_right].
  rewrite <- IH. apply insert_key_text; [exact Hx|]. now apply (sorted_keys_Forall (Forall is_byte)).
Qed.

Lemma filter_sorted (f : string -> bool) l : Sorted string_le l -> Sorted string_le (List.filter f l).
Proof.
  intros H. apply StronglySorted_Sorted. apply Sorted_StronglySorted in H; [|exact _].
  induction H as [|x l _ IH Hx]; [constructor|]. cbn [List.filter]. case_if; [|exact IH]. constructor; [exact IH|].
  rewrite List.Forall_forall in *. intros y Hy. apply filter_In in Hy as [Hy _]. auto.
Qed.

#[local] Instance filter_Permutation {A} (f : A -> bool) : Proper (Permutation ==> Permutation) (List.filter f).
Proof.
  intros l l' H. induction H as [|x l l' _ IH|x y l|l l' l'' _ IH1 _ IH2]; cbn [List.filter].
  - reflexivity.
  - case_if; now rewrite IH.
  - repeat case_if; try reflexivity. apply perm_swap.
  - now rewrite IH1.
Qed.

(** A sorted list is what sorting gives. *)
Lemma sort_Strings_unique l l' : Sorted string_le l -> Permutation l l' -> l = sort_Strings l'.
Proof.
  intros Hs Hp. apply (Sorted_unique string_le); [exact Hs|apply sort_Strings_sorted|].
  now rewrite sort_Strings_perm.
Qed.

Lemma prefix_le p a b : string_le (p ++ a) (p ++ b) <-> string_le a b.
Proof.
  unfold string_le. rewrite <- !bytes_leb_string, !bytes_app. induction (bytes p) as [|c q IH]; [reflexivity|].
  cbn [app bytes_leb]. rewrite Z.ltb_irrefl, Z.eqb_refl. exact IH.
Qed.

Lemma prefix_sorted p l : Sorted string_le l -> Sorted string_le (map (append p) l).
Proof.
  induction 1 as [|x l _ IH Hd]; [constructor|]. cbn [map]. constructor; [exact IH|].
  destruct Hd; constructor. now apply prefix_le.
Qed.

(** * Names *)

(** An entry of a directory. *)
Definition entry (n : list Z) : Prop := Forall is_byte n /\ fine n.

Lemma entry_name_fine n : entry_name n = true <-> fine n.
Proof.
  unfold entry_name, fine, good. rewrite !andb_true_iff, !negb_true_iff, !str_eqb_neq.
  rewrite <- not_true_iff_false, Contains_byte. tauto.
Qed.

Lemma entry_match pre suf n :
  entry n -> wild_match (star_terms (bytes pre) (bytes suf)) n = wild_name pre suf (text n).
Proof.
  intros [Hb Hf]. apply eq_true_iff_eq. rewrite star_terms_match, wild_name_iff. split.
  - intros (w & -> & _). exists (text w). now rewrite !text_app, !text_bytes.
  - intros (t & E). assert (En : n = (bytes pre ++ bytes t ++ bytes suf)%list).
    { rewrite <- (bytes_text n Hb), E. now rewrite !bytes_app. }
    exists (bytes t). split; [exact En|]. destruct Hf as [[_ Hs] _]. intros Hi. apply Hs. rewrite En.
    apply in_or_app. right. apply in_or_app. now left.
Qed.

Lemma filter_text pre suf l :
  Forall entry l ->
  map text (List.filter (wild_match (star_terms (bytes pre) (bytes suf))) l) = List.filter (wild_name pre suf) (map text l).
Proof.
  induction 1 as [|n l Hn _ IH]; [reflexivity|]. cbn [List.filter map]. rewrite entry_match by exact Hn.
  case_if; cbn [map]; now rewrite IH.
Qed.

(** The files of the list operation with this prefix, among these names, sorted. *)
Definition record_names (pre : string) (names : list string) : list string :=
  sort_Strings (List.filter (wild_name pre ".json") names).

(** ** What Glob finds *)

(** The prefix of a list operation. *)
Definition list_prefix (pre : string) : Prop := pre = "recipe_"%string \/ pre = "cycle_"%string.

Lemma Glob_record_names {F} (Lstat : list Z -> bool) (ls : list Z -> option (list (list Z))) (d : list Z) pre :
  plain_path d -> list_prefix pre ->
  (forall names, ls (dir_name d) = Some names -> Forall entry names) ->
  exists pattern files, Glob.Join [d; bytes (pre ++ "*.json")] = Some pattern /\
    Glob (F := F) Lstat ls pattern = Ok files /\
    map text files = map (append (text (dir_prefix d)))
      (record_names pre (map text match ls (dir_name d) with Some names => names | None => [] end)).
Proof.
  intros Hp Hpre He.
  assert (Eb : bytes (pre ++ "*.json") = (bytes pre ++ star :: bytes ".json")%list).
  { rewrite bytes_app. reflexivity. }
  assert (Hpl : plain_path (bytes pre) /\ bytes pre <> [] /\ ~ In slash (bytes pre)).
  { destruct Hpre as [->| ->]; (split; [repeat constructor|]); (split; [discriminate|]); cbv; intuition discriminate. }
  destruct Hpl as (H1 & H2 & H3).
  destruct (Glob_names (F := F) Lstat ls d (bytes pre) (bytes ".json") Hp H1 H2) as (pattern & Ej & Eg);
    [repeat constructor|exact H3|cbv; intuition discriminate| |].
  { intros names E. eapply List.Forall_impl; [|exact (He names E)]. now intros n []. }
  rewrite Eb. do 2 eexists. split; [exact Ej|]. split; [exact Eg|].
  rewrite map_map, (map_ext _ (fun n => append (text (dir_prefix d)) (text n))) by (intros n; apply text_app).
  rewrite <- (map_map text). f_equal. unfold found_names, record_names.
  destruct (ls (dir_name d)) as [names|]; [|reflexivity]. specialize (He names eq_refl).
  assert (Hb : Forall (Forall is_byte) names) by (eapply List.Forall_impl; [|exact He]; now intros n []).
  rewrite filter_text by now apply sorted_keys_Forall. rewrite sort_keys_text by exact Hb.
  apply sort_Strings_unique; [apply filter_sorted, sort_Strings_sorted|]. now rewrite sort_Strings_perm.
Qed.

Lemma prefixed_names_sorted p pre names :
  sort_Strings (map (append p) (record_names pre names)) = map (append p) (record_names pre names).
Proof. symmetry. apply sort_Strings_unique; [|reflexivity]. apply prefix_sorted, sort_Strings_sorted. Qed.

(** The directory of a file map, as the system lists it: in any order. *)
Definition lists_directory (names : list (list Z)) (m : gmap string string) : Prop :=
  Forall entry names /\ Permutation (map text names) (map fst (map_to_list m)).

(** C35: The list operations read the right files: for a data directory whose path holds no magic
    character, [filepath.Glob] of its pattern, whatever the order in which the system lists
    the directory, gives exactly the names of the files [recipe_*.json], or [cycle_*.json],
    each under the directory's clean path and already in the order [sort.Strings] puts
    them in. *)
Theorem glob_lists_records {F} (Lstat : list Z -> bool) (ls : list Z -> option (list (list Z)))
    (d : list Z) (names : list (list Z)) (m : gmap string string) (pre : string) :
  plain_path d -> ls (dir_name d) = Some names -> lists_directory names m -> list_prefix pre ->
  exists pattern files, Glob.Join [d; bytes (pre ++ "*.json")] = Some pattern /\
    Glob (F := F) Lstat ls pattern = Ok files /\
    sort_Strings (map text files) = map text files /\
    map text files = map (append (text (dir_prefix d)))
      (sort_Strings (List.filter (wild_name pre ".json") (map fst (map_to_list m)))).
Proof.
  intros Hp Hls [He Hm] Hpre.
  destruct (Glob_record_names (F := F) Lstat ls d pre Hp Hpre) as (pattern & files & Ej & Eg & Ef).
  { intros names' E. rewrite Hls in E. now injection E as <-. }
  exists pattern, files. rewrite Ef, prefixed_names_sorted, Hls. repeat split; try assumption.
  f_equal. apply sort_Strings_unique; [apply sort_Strings_sorted|].
  unfold record_names. rewrite sort_Strings_perm. now rewrite Hm.
Qed.

(** * The lists *)

Section ListSpec.
Local Open Scope string_scope.
Context {F A : Type} {RC : RecordCodec F A}.

(** The record a file holds, if it holds one. *)
Definition decodable (m : gmap string string) (f : string) : list A :=
  match m !! f with
  | Some b => match Unmarshal b with Ok v => [v] | _ => [] end
  | None => []
  end.

Lemma read_all_spec (m : gmap string string) fs :
  (forall b, Unmarshal (A := A) b <> Panic) ->
  read_all fs (mkFS m []) = (Ok (flat_map (decodable m) fs), mkFS m []).
Proof.
  intros Hp. induction fs as [|f fs IH]; [reflexivity|].
  cbn [read_all flat_map]. rewrite read_spec. unfold read_outcome, next_fault, decodable at 1.
  cbn [faults files]. destruct (m !! f) as [b|]; [|cbn [app]; exact IH].
  destruct (Unmarshal b) eqn:E; cbn [app]; [|exact IH|now apply Hp in E].
  unfold io_bind. rewrite IH. reflexivity.
Qed.

(** Reading files that are all there and decode. *)
Lemma read_all_found (m : gmap string string) fs rs :
  Forall2 (fun f v => exists b, m !! f = Some b /\ Unmarshal b = Ok v) fs rs ->
  read_all fs (mkFS m []) = (Ok rs, mkFS m []).
Proof.
  induction 1 as [|f v fs rs (b & Hb & Hv) H IH]; [reflexivity|].
  cbn [read_all]. rewrite read_spec. unfold read_outcome, next_fault. cbn [faults files].
  rewrite Hb, Hv. unfold io_bind. rewrite IH. reflexivity.
Qed.

Lemma read_all_ok fs w :
  (forall b, Unmarshal (A := A) b <> Panic) -> is_ok (fst (read_all (A := A) fs w)) = true.
Proof.
  intros Hp. revert w. induction fs as [|f fs IH]; intros w; [reflexivity|].
  cbn [read_all]. rewrite read_spec. unfold read_outcome.
  destruct (next_fault w) as [[f'|] w']; [apply IH|].
  destruct (files w !! f) as [b|]; [|apply IH].
  destruct (Unmarshal b) eqn:E; [|apply IH|now apply Hp in E].
  unfold io_bind. specialize (IH w').
  destruct (read_all fs w') as [[rs|e|] w'']; [reflexivity|discriminate IH..].
Qed.

(** What a list operation gives: the records of the files [fs]. *)
Definition lists (pre : string) (m : gmap string string) (r : result F (list A) * FS) : Prop :=
  exists fs, r = (Ok (flat_map (decodable m) fs), mkFS m []) /\
    Sorted string_le fs /\ NoDup fs /\
    forall f, In f fs <-> exists n, f = record_file pre n /\ ~ In slash (bytes n) /\ is_Some (m !! f).
End ListSpec.

Section Listing.
Context {DD : DataDir}.
Local Open Scope string_scope.

Lemma entries_entry m : Forall entry (entries m).
Proof.
  apply List.Forall_forall. intros n Hn. unfold entries in Hn. apply filter_In in Hn as [Hn He].
  apply in_map_iff in Hn as (s & <- & _). split; [apply bytes_range|now apply entry_name_fine].
Qed.

Lemma same_dir_name : same_dir (dir_name (bytes data_dir)) (bytes data_dir) = true.
Proof. unfold same_dir. rewrite Clean_dir_name, Clean_dir. apply str_eqb_refl. Qed.

Lemma same_dir_prefix : same_dir (dir_prefix (bytes data_dir)) (bytes data_dir) = true.
Proof. unfold same_dir. rewrite Clean_dir_prefix, Clean_dir. apply str_eqb_refl. Qed.

(** What the system lists of the data directory, given its failure. *)
Definition names_read (m : gmap string string) (f : option fault) : list (list Z) :=
  match f with
  | None => entries m
  | Some (mkFault _ None) => []
  | Some (mkFault _ (Some n)) => firstn n (entries m)
  end.

Lemma readdirnames_data m f :
  readdirnames m f (dir_name (bytes data_dir)) =
  match f with Some (mkFault _ None) => None | _ => Some (names_read m f) end.
Proof. unfold readdirnames. rewrite same_dir_name. now destruct f as [[e [n|]]|]. Qed.

Lemma names_read_entry m f : Forall entry (names_read m f).
Proof.
  pose proof (entries_entry m) as H. destruct f as [[e [n|]]|]; cbn [names_read]; [now apply firstn_Forall|constructor|exact H].
Qed.

Definition listed (pre : string) (f : option fault) (m : gmap string string) : list string :=
  record_names pre (map text (names_read m f)).

(** A path in the data directory is the file of its base name. *)
Lemma file_of_entry n : entry n -> file_of (text (dir_prefix (bytes data_dir)) ++ text n) = text n.
Proof.
  intros [Hb Hf]. unfold file_of. rewrite bytes_app, !bytes_text; [|exact Hb|].
  - rewrite Split_dir by apply Hf. now rewrite same_dir_prefix.
  - apply dir_prefix_Forall; [unfold is_byte; lia..|apply bytes_range].
Qed.

Lemma file_of_listed pre f m :
  map file_of (sort_Strings (map (append (text (dir_prefix (bytes data_dir)))) (listed pre f m))) = listed pre f m.
Proof.
  unfold listed. rewrite prefixed_names_sorted, map_map. rewrite <- (map_id (record_names _ _)) at 2.
  apply map_ext_in. intros s Hs. eapply Permutation_in in Hs; [|apply sort_Strings_perm].
  apply filter_In in Hs as [Hs _]. apply in_map_iff in Hs as (n & <- & Hn).
  apply file_of_entry. eapply List.Forall_forall; [apply names_read_entry|exact Hn].
Qed.

Lemma filepath_Glob_plain {F} pre w :
  plain_path (bytes data_dir) -> list_prefix pre ->
  filepath_Glob (F := F) (pre ++ "*.json") w =
  let '(f, w') := next_fault w in
  (Ok (map (append (text (dir_prefix (bytes data_dir)))) (listed pre f (files w'))), w').
Proof.
  intros Hp Hpre. unfold filepath_Glob. destruct (next_fault w) as [f w'].
  destruct (Glob_record_names (F := F) lstat (readdirnames (files w') f) (bytes data_dir) pre Hp Hpre) as (pattern & fs & Ej & Eg & Ef).
  - intros names E. rewrite readdirnames_data in E. pose proof (names_read_entry (files w') f) as H.
    destruct f as [[e [n|]]|]; [|discriminate E|]; now injection E as <-.
  - rewrite Ej, Eg, Ef, readdirnames_data. do 3 f_equal. unfold listed. now destruct f as [[e [n|]]|].
Qed.

Lemma listed_files pre (m : gmap string string) : list_prefix pre ->
  Sorted string_le (listed pre None m) /\ NoDup (listed pre None m) /\
  forall f, In f (listed pre None m) <-> exists n, f = record_file pre n /\ ~ In slash (bytes n) /\ is_Some (m !! f).
Proof.
  intros Hpre. unfold listed, record_names, names_read.
  assert (Ht : map text (entries m) = List.filter (fun s => entry_name (bytes s)) (map fst (map_to_list m))).
  { unfold entries. induction (map fst (map_to_list m)) as [|s l IH]; [reflexivity|]. cbn [map List.filter].
    case_if; cbn [map]; rewrite IH; [now rewrite text_bytes|reflexivity]. }
  rewrite Ht. split; [apply sort_Strings_sorted|]. split.
  - rewrite sort_Strings_perm. apply List.NoDup_filter, List.NoDup_filter, NoDup_ListNoDup, NoDup_fst_map_to_list.
  - intros f. rewrite sort_Strings_perm, !filter_In, wild_name_iff, in_map_iff.
    assert (Hn : forall n, entry_name (bytes (record_file pre n)) = true <-> ~ In slash (bytes n)).
    { intros n. rewrite entry_name_fine. unfold record_file, fine, good. rewrite !bytes_app. split.
      - intros ((_ & Hs) & _) Hi. apply Hs. apply in_or_app. right. apply in_or_app. now left.
      - intros Hs. destruct Hpre as [->| ->]; repeat split; try discriminate; intros Hi;
          (apply in_app_or in Hi as [Hi|Hi]; [cbv in Hi; intuition discriminate|]);
          (apply in_app_or in Hi as [Hi|Hi]; [contradiction|cbv in Hi; intuition discriminate]). }
    split.
    + intros ((((k & v) & <- & Hin) & He) & (n & E)). cbn [fst] in *. exists n. split; [exact E|].
      split; [apply Hn; unfold record_file; now rewrite <- E|].
      exists v. apply elem_of_map_to_list. now apply list_elem_of_In.
    + intros (n & -> & Hs & v & Hv). split; [split|now exists n]; [|now apply Hn].
      exists (record_file pre n, v). split; [reflexivity|].
      apply list_elem_of_In. now apply elem_of_map_to_list.
Qed.

Lemma filepath_Glob_files {F} name w : files (snd (filepath_Glob (F := F) name w)) = files w.
Proof.
  unfold filepath_Glob. destruct (next_fault w) as [f w'] eqn:E. apply next_fault_files in E.
  destruct (Glob.Join _) as [pattern|]; [|exact E]. now destruct (Glob.Glob _ _ _).
Qed.

Lemma filepath_Glob_good {F} name w : ok_or_bad (fst (filepath_Glob (F := F) name w)).
Proof.
  unfold filepath_Glob. destruct (next_fault w) as [f w'].
  destruct (Join_total [bytes data_dir; bytes name]) as [pattern ->].
  pose proof (Glob_good (F := F) lstat (readdirnames (files w') f) pattern) as [H|H].
  - destruct (Glob.Glob _ _ _); [now left|discriminate H..].
  - rewrite H. now right.
Qed.
End Listing.

Section StoreLists.
Context {F : Type} {GF : GoFloat F} {DD : DataDir}.
Context {RC : RecordCodec F (Recipe F)} {CC : RecordCodec F (CycleRecord F)}.
Local Open Scope string_scope.

Lemma list_good {A} {RA : RecordCodec F A} (name : string) (w : FS) :
  (forall b, Unmarshal (A := A) b <> Panic) ->
  ok_or_bad (fst ((io_bind (filepath_Glob name) (fun fs => read_all (A := A) (map file_of (sort_Strings fs)))) w)).
Proof.
  intros Hp. unfold io_bind. pose proof (filepath_Glob_good (F := F) name w) as Hg.
  destruct (filepath_Glob name w) as [[fs|e|] w']; cbn [fst] in *; [left; now apply read_all_ok|..];
    destruct Hg as [Hg|Hg]; try discriminate Hg. right. now injection Hg as ->.
Qed.

Lemma list_plain {A} {RA : RecordCodec F A} pre (w : FS) :
  plain_path (bytes data_dir) -> list_prefix pre ->
  io_bind (filepath_Glob (pre ++ "*.json")) (fun fs => read_all (A := A) (map file_of (sort_Strings fs))) w =
  let '(f, w') := next_fault w in read_all (A := A) (listed pre f (files w')) w'.
Proof.
  intros Hp Hpre. unfold io_bind. rewrite filepath_Glob_plain by assumption.
  destruct (next_fault w) as [f w']. now rewrite file_of_listed.
Qed.

Lemma recipe_prefix : list_prefix "recipe_".
Proof. now left. Qed.
Lemma cycle_prefix : list_prefix "cycle_".
Proof. now right. Qed.

(** With a data directory whose path is plain, no list ever fails. *)
Lemma lists_total (w : FS) :
  CodecLaws F (Recipe F) -> CodecLaws F (CycleRecord F) -> plain_path (bytes data_dir) ->
  is_ok (fst (ListRecipes w)) = true /\ is_ok (fst (ListCycles w)) = true.
Proof.
  intros [_ Hr _] [_ Hc _] Hp. unfold ListRecipes, ListCycles.
  change "recipe_*.json" with ("recipe_" ++ "*.json"). change "cycle_*.json" with ("cycle_" ++ "*.json").
  rewrite !list_plain by first [exact Hp|apply recipe_prefix|apply cycle_prefix].
  destruct (next_fault w) as [f w']. split; now apply read_all_ok.
Qed.

(** C34: the lists are exact.  When the path of the data directory has none of the
    characters that mean something in a pattern, [ListRecipes] and [ListCycles] never fail,
    whatever system calls do; and when no call fails they give the records of the files
    [recipe_<n>.json], [cycle_<n>.json] of the directory, each file once, in bytewise order
    of the file names, a corrupt file left out and everything else in the directory
    ignored.  Whatever the path is, they never panic, and fail only with the error of
    [filepath.Glob] on a malformed pattern. *)
Theorem lists_exact (w : FS) (m : gmap string string) :
  CodecLaws F (Recipe F) -> CodecLaws F (CycleRecord F) ->
  ok_or_bad (fst (ListRecipes w)) /\ ok_or_bad (fst (ListCycles w)) /\
  (plain_path (bytes data_dir) ->
   is_ok (fst (ListRecipes w)) = true /\ is_ok (fst (ListCycles w)) = true /\
   lists "recipe_" m (ListRecipes (mkFS m [])) /\ lists "cycle_" m (ListCycles (mkFS m []))).
Proof.
  intros HR HC. pose proof HR as [_ Hr _]. pose proof HC as [_ Hc _].
  split; [now apply list_good|]. split; [now apply list_good|]. intros Hp.
  destruct (lists_total w HR HC Hp) as [H1 H2]. split; [exact H1|]. split; [exact H2|].
  unfold ListRecipes, ListCycles.
  change "recipe_*.json" with ("recipe_" ++ "*.json"). change "cycle_*.json" with ("cycle_" ++ "*.json").
  rewrite !list_plain by first [exact Hp|apply recipe_prefix|apply cycle_prefix].
  cbn [next_fault faults files]. rewrite !read_all_spec by assumption.
  split; eexists; (split; [reflexivity|]); apply listed_files; [apply recipe_prefix|apply cycle_prefix].
Qed.

(** The lists follow the file names, not the record names: of the recipes named
    [a] and [a-b], the second is listed first, although [a] is the smaller name,
    because the hyphen is smaller than the dot of [.json]. *)
Theorem list_order_by_file ba bb (ra rb : Recipe F) :
  plain_path (bytes data_dir) -> Unmarshal ba = Ok ra -> Unmarshal bb = Ok rb ->
  fst (ListRecipes (mkFS (<[recipe_file "a" := ba]> (<[recipe_file "a-b" := bb]> ∅)) [])) = Ok [rb; ra] /\
  String.ltb "a" "a-b" = true.
Proof.
  intros Hp Ha Hb. split; [|reflexivity]. unfold ListRecipes.
  change "recipe_*.json" with ("recipe_" ++ "*.json"). rewrite list_plain by first [exact Hp|apply recipe_prefix].
  cbn [next_fault faults files]. set (m := <[recipe_file "a" := ba]> _).
  assert (E : listed "recipe_" None m = [recipe_file "a-b"; recipe_file "a"]).
  { assert (Hm : Permutation (map_to_list m) [(recipe_file "a", ba); (recipe_file "a-b", bb)]).
    { unfold m. rewrite map_to_list_insert by reflexivity.
      rewrite map_to_list_insert by reflexivity. now rewrite map_to_list_empty. }
    apply (Permutation_map fst) in Hm. cbn [map fst] in Hm. unfold listed, names_read, entries.
    destruct (map fst (map_to_list m)) as [|x [|y [|z l]]];
      try (apply Permutation_length in Hm; discriminate Hm).
    apply Permutation_length_2_inv in Hm.
    destruct Hm as [Hm | Hm]; injection Hm as <- <-; vm_compute; reflexivity. }
  assert (Ea : m !! recipe_file "a" = Some ba) by apply lookup_insert_eq.
  assert (Eb : m !! recipe_file "a-b" = Some bb).
  { unfold m. rewrite lookup_insert_ne by discriminate. apply lookup_insert_eq. }
  rewrite E, read_all_found with (fs := [recipe_file "a-b"; recipe_file "a"]) (rs := [rb; ra]);
    [reflexivity|]. repeat constructor; eauto.
Qed.
End StoreLists.

(** * The theorems at a concrete directory *)

(** The data directory of the program's default, on a system that has no other. *)
Definition plain_dir : DataDir := {| data_dir := "data"; lstat := fun _ => false; other_names := fun _ => None |}.

Lemma lists_exact_witness :
  let RC := one_record (F := float64) sample_recipe in let CC := one_record (F := float64) sample_record in
  let DD := plain_dir in
  is_ok (fst (ListRecipes (mkFS ∅ [Some (mkFault EIO None)]))) = true /\
  lists "recipe_" {["recipe_a.json" := "{}"]} (ListRecipes (mkFS {["recipe_a.json" := "{}"]} [])).
Proof.
  intros RC CC DD.
  destruct (lists_exact (mkFS ∅ [Some (mkFault EIO None)]) {["recipe_a.json" := "{}"]}) as (_ & _ & H);
    [apply one_record_laws..|]. destruct H as (H1 & _ & H2 & _); [repeat constructor|]. split; [exact H1|exact H2].
Defined.

Lemma list_order_by_file_witness :
  let RC := one_record (F := float64) sample_recipe in let CC := one_record (F := float64) sample_record in
  let DD := plain_dir in
  fst (ListRecipes (mkFS (<[recipe_file "a" := "{}"]> (<[recipe_file "a-b" := "{}"]> ∅)) [])) =
    Ok [sample_recipe; sample_recipe] /\
  String.ltb "a" "a-b" = true.
Proof. intros RC CC DD. apply list_order_by_file; [repeat constructor|reflexivity..]. Defined.

(** A bracket in the path that is not closed makes every list fail. *)
Lemma bad_directory {F} {GF : GoFloat F} {RC : RecordCodec F (Recipe F)} ls names w :
  let DD := {| data_dir := "da[ta"; lstat := ls; other_names := names |} in
  fst (ListRecipes w) = Err ErrBadPattern.
Proof.
  intros DD. unfold ListRecipes, io_bind, filepath_Glob. destruct (next_fault w) as [f w'].
  replace (Glob.Join [bytes data_dir; bytes "recipe_*.json"]) with (Some (bytes "da[ta/recipe_*.json"))
    by (vm_compute; reflexivity).
  rewrite (Glob_malformed _ _ _ ErrBadPattern) by (vm_compute; reflexivity). reflexivity.
Qed.

Definition demo_files : gmap string string :=
  <["recipe_b.json" := "{}"]> (<["cycle_a.json" := "{}"]> (<["recipe_升程.json" := "{}"]>
  (<["recipe_b.json.tmp" := ""]> (<["recipe_a-1.json" := "{}"]> ∅)))).

Definition demo_names : list (list Z) := map bytes (map fst (map_to_list demo_files)).

Definition demo_ls (dir : list Z) : option (list (list Z)) :=
  if str_eqb dir (bytes "var/data") then Some demo_names else None.

Lemma glob_lists_records_witness :
  exists pattern files, Glob.Join [bytes "./var//data/"; bytes ("recipe_" ++ "*.json")] = Some pattern /\
    Glob (F := Empty_set) (fun _ => true) demo_ls pattern = Ok files /\
    sort_Strings (map text files) = map text files /\
    map text files = map (append (text (dir_prefix (bytes "./var//data/"))))
      (sort_Strings (List.filter (wild_name "recipe_" ".json") (map fst (map_to_list demo_files)))).
Proof.
  apply (glob_lists_records (fun _ => true) demo_ls (bytes "./var//data/") demo_names demo_files "recipe_").
  - repeat constructor.
  - vm_compute. reflexivity.
  - split.
    + assert (E : forallb (fun n => forallb (fun c => (0 <=? c) && (c <? 256)) n && negb (Contains n [slash])
        && nonempty n && negb (str_eqb n [dot]) && negb (str_eqb n [dot; dot])) demo_names = true) by (vm_compute; reflexivity).
      rewrite forallb_forall in E. apply List.Forall_forall. intros n Hn. specialize (E n Hn).
      rewrite !andb_true_iff, !negb_true_iff, !str_eqb_neq in E. destruct E as ((((E1 & E2) & E3) & E4) & E5).
      split; [|repeat split; try assumption].
      * rewrite forallb_forall in E1. apply List.Forall_forall. intros c Hc. specialize (E1 c Hc).
        clear -E1. unfold is_byte. rewrite andb_true_iff in E1. lia.
      * clear -E3. destruct n; [discriminate E3|discriminate].
      * rewrite <- Contains_byte, E2. discriminate.
    + unfold demo_names. rewrite map_map, (map_ext _ (fun s => s)), map_id by apply text_bytes. reflexivity.
  - now left.
Defined.

(** A magic character in the path makes it a pattern: the records of [data[1]] are not
    found, those of [data1] are. *)
Lemma magic_directory :
  let ls d := if str_eqb d [dot] then Some [bytes "data1"; bytes "data[1]"]
              else if str_eqb d (bytes "data[1]") then Some [bytes "recipe_a.json"]
              else if str_eqb d (bytes "data1") then Some [bytes "recipe_b.json"] else None in
  Glob (F := Empty_set) (fun _ => true) ls (bytes "data[1]/recipe_*.json") = Ok [bytes "data1/recipe_b.json"].
Proof. vm_compute. reflexivity. Qed.
