(* ===== verification/Handlers.v ===== *)
(** handlers.go and main.go: the HTTP handlers over the store, the kinematics and
    the cycle packages, and the start-up of the service.

    A request is what the router hands over: the method, the segments of the path
    unescaped (a slash at the end of the path is a segment of its own), the query parameters
    in order, the body; [HttpServe] has the way from the request line to it.  A handler runs on the file
    system of the store and gives one reply; the body of a reply is the JSON value
    written, or nothing where [Encode] fails.  Reading a body into a request record
    is the interface [BodyDecoder]. *)
From stdpp Require Import gmap strings.
From Stdlib Require Import ZArith String Bool List.
From S2P Require Import Prelude GoFloat Strconv Store.
From S2P Require Law Kinematics Cycle.
Import ListNotations.
Local Open Scope go_scope.
Local Open Scope string_scope.

(** ** JSON values as written *)

Inductive json (F : Type) :=
| JNull
| JBool (b : bool)
| JInt (z : Z)
| JFloat (x : F)
| JStr (s : string)
| JMsg (m : list (frag F))                  (* the text of an error *)
| JArr (l : list (json F))
| JObj (fields : list (string * json F)).
Arguments JNull {F}.
Arguments JBool {F} b.
Arguments JInt {F} z.
Arguments JFloat {F} x.
Arguments JStr {F} s.
Arguments JMsg {F} m.
Arguments JArr {F} l.
Arguments JObj {F} fields.

(** The text of a sentinel error. *)
Definition sentinel_text (s : sentinel) : string :=
  match s with
  | ErrUnknownLaw => Law.ErrUnknownLaw_text
  | ErrNotFound => "档不存在"
  | ErrNotExist => "file does not exist"
  | Errno ENOENT => "no such file or directory"
  | Errno EACCES => "permission denied"
  | Errno EIO => "input/output error"
  | Errno ENOSPC => "no space left on device"
  | Errno ENAMETOOLONG => "file name too long"
  | Errno EISDIR => "is a directory"
  | Errno ENOTDIR => "not a directory"
  | Errno EROFS => "read-only file system"
  end.

(** [err.Error()]: the message, the wrapped error's text in the place of [%w]. *)
Fixpoint Error_text {F} (e : error F) : list (frag F) :=
  match e with
  | Sentinel s => [Lit (sentinel_text s)]
  | ErrNew m => [Lit m]
  | Errorf m => m
  | ErrorfW m e' =>
      flat_map (fun f => match f with FmtW => Error_text e' | _ => [f] end) m
  end.

(** ** Requests and replies *)

Inductive method := GET | HEAD | POST | OtherMethod.

Record Request := mkRequest {
  Method : method;
  Path : list string;
  Query : list (string * string);
  Body : string
}.

(** [Crash] is a panic of the handler. *)
Inductive reply (F : Type) :=
| Reply (code : Z) (body : option (json F))
| Crash.
Arguments Reply {F} code body.
Arguments Crash {F}.

Definition handler (F : Type) : Type := FS -> reply F * FS.

Definition StatusOK : Z := 200.
Definition StatusCreated : Z := 201.
Definition StatusBadRequest : Z := 400.
Definition StatusNotFound : Z := 404.
Definition StatusMethodNotAllowed : Z := 405.
Definition StatusInternalServerError : Z := 500.

(** [url.Values.Get]: the first value of the key, or the empty string. *)
Fixpoint query_Get (q : list (string * string)) (key : string) : string :=
  match q with
  | [] => ""
  | (k, v) :: q' => if String.eqb k key then v else query_Get q' key
  end.

Section Write.
Context {F : Type} {GF : GoFloat F}.

(** The encoder refuses a float that is not a number or infinite. *)
Fixpoint encodable (v : json F) : bool :=
  match v with
  | JFloat x => negb (IsNaN x || IsInf0 x)
  | JArr l => forallb encodable l
  | JObj fs => forallb (fun f => encodable (snd f)) fs
  | _ => true
  end.

(** [Encode]: the whole value, or nothing. *)
Definition Encode (v : json F) : option (json F) := if encodable v then Some v else None.

(** The status is sent first, and an encoding error is dropped. *)
Definition writeJSON (code : Z) (v : json F) : reply F := Reply code (Encode v).

Definition writeErr (code : Z) (msg : list (frag F)) : reply F :=
  writeJSON code (JObj [("error", JMsg msg); ("status", JInt code)]).
End Write.

(** ** The records as JSON values *)

Section Values.
Context {F : Type} {GF : GoFloat F}.

Definition json_Recipe (r : Recipe F) : json F :=
  JObj [("name", JStr (Recipe_Name r)); ("type", JStr (Recipe_Type r));
        ("h", JFloat (Recipe_H r)); ("beta_deg", JFloat (Recipe_Beta r))].

Definition json_CycleRecord (r : CycleRecord F) : json F :=
  JObj [("name", JStr (CR_Name r)); ("h", JFloat (CR_H r));
        ("rise_law", JStr (CR_RiseLaw r)); ("return_law", JStr (CR_ReturnLaw r));
        ("rise_angle_deg", JFloat (CR_RiseAngle r));
        ("outer_dwell_deg", JFloat (CR_OuterDwell r));
        ("return_angle_deg", JFloat (CR_ReturnAngle r));
        ("inner_dwell_deg", JFloat (CR_InnerDwell r))].

Definition motion_fields (m : Kinematics.Motion F) : list (string * json F) :=
  [("theta_deg", JFloat (Kinematics.Theta m)); ("t_s", JFloat (Kinematics.Time m));
   ("s", JFloat (Kinematics.S_ m)); ("v", JFloat (Kinematics.V_ m));
   ("a", JFloat (Kinematics.A_ m)); ("j", JFloat (Kinematics.J_ m))].

Definition json_Motion (m : Kinematics.Motion F) : json F := JObj (motion_fields m).

Definition json_Peaks (p : Kinematics.Peaks F) : json F :=
  JObj [("v_max", JFloat (Kinematics.VMax p)); ("a_max", JFloat (Kinematics.AMax p));
        ("j_max", JFloat (Kinematics.JMax p))].

Definition seam_fields (s : Kinematics.Seam F) : list (string * json F) :=
  [("theta_deg", JFloat (Kinematics.seam_Theta s)); ("kind", JStr (Kinematics.seam_Kind s));
   ("left", json_Motion (Kinematics.Left s)); ("right", json_Motion (Kinematics.Right s));
   ("s_continuous", JBool (Kinematics.SCont s)); ("v_continuous", JBool (Kinematics.VCont s));
   ("a_continuous", JBool (Kinematics.ACont s)); ("j_continuous", JBool (Kinematics.JCont s));
   ("s_jump", JBool (Kinematics.SJump s))].

Definition json_Seam (s : Kinematics.Seam F) : json F := JObj (seam_fields s).

(** The nil slice of [InternalSeams] is written [null]. *)
Definition json_seams (l : list (Kinematics.Seam F)) : json F :=
  match l with [] => JNull | _ => JArr (map json_Seam l) end.

(** [omitempty]: a zero value is left out. *)
Definition json_Segment (s : Cycle.Segment F) : json F :=
  JObj ([("kind", JStr (Cycle.Kind s))]
        ++ (if String.eqb (Cycle.seg_Law s) "" then [] else [("law", JStr (Cycle.seg_Law s))])
        ++ [("start_deg", JFloat (Cycle.Start s)); ("end_deg", JFloat (Cycle.End_ s))]
        ++ (if feqb (Cycle.Beta s) (K 0) then [] else [("beta_deg", JFloat (Cycle.Beta s))]))%list.

(** Embedded structs give their fields to the value that embeds them. *)
Definition json_CurveSample (c : Cycle.CurveSample F) : json F :=
  JObj (("segment", JStr (Cycle.cs_Segment c)) :: motion_fields (Cycle.cs_Motion c)).

Definition json_Joint (j : Cycle.Joint F) : json F :=
  JObj (("left_segment", JStr (Cycle.LeftSegment j))
        :: ("right_segment", JStr (Cycle.RightSegment j)) :: seam_fields (Cycle.joint_Seam j)).
End Values.

(** ** Request bodies *)

Record liftRequest (F : Type) := mkLiftRequest {
  lift_Recipe : string;
  lift_Type : option string;
  lift_H : option F;
  lift_Beta : option F;
  lift_Omega : F;
  lift_Points : Z
}.
Arguments mkLiftRequest {F}.
Arguments lift_Recipe {F} _.
Arguments lift_Type {F} _.
Arguments lift_H {F} _.
Arguments lift_Beta {F} _.
Arguments lift_Omega {F} _.
Arguments lift_Points {F} _.

Record cycleCurveRequest (F : Type) := mkCycleCurveRequest {
  ccr_Cycle : string;
  ccr_Config : Cycle.Config F;
  ccr_Points : Z
}.
Arguments mkCycleCurveRequest {F}.
Arguments ccr_Cycle {F} _.
Arguments ccr_Config {F} _.
Arguments ccr_Points {F} _.

(** [json.NewDecoder(body)], unknown fields disallowed, one [Decode] into a zero
    value of the type. *)
Class BodyDecoder (F A : Type) := { Decode : string -> result F A }.

Class DecoderLaws (F A : Type) {BD : BodyDecoder F A} : Prop :=
  Decode_total : forall b, Decode (A := A) b <> Panic.

(** ** The handlers *)

Section Handlers.
Context {F : Type} {GF : GoFloat F} {GS : GoStrconv F} {DD : DataDir}.
Context {RC : RecordCodec F (Recipe F)} {CC : RecordCodec F (CycleRecord F)}.
Context {BR : BodyDecoder F (Recipe F)} {BC : BodyDecoder F (CycleRecord F)}.
Context {BL : BodyDecoder F (liftRequest F)} {BCC : BodyDecoder F (cycleCurveRequest F)}.

Implicit Types (r : Request) (w : FS).

(** [decode]: a body that does not decode is answered and the handler returns. *)
Definition decode {A} {_ : BodyDecoder F A} (body : string) (k : A -> handler F) : handler F :=
  fun w =>
    match Decode body with
    | Ok v => k v w
    | Err e => (writeErr StatusBadRequest
                  (Lit "请求体不是合法 JSON 或含未知字段: " :: Error_text e), w)
    | Panic => (Crash, w)
    end.

(** [if v, err := m; err != nil { h } else { k v }] on a store operation. *)
Definition store_call {A} (m : io F A) (h : error F -> reply F) (k : A -> handler F) : handler F :=
  fun w =>
    match m w with
    | (Ok v, w') => k v w'
    | (Err e, w') => (h e, w')
    | (Panic, w') => (Crash, w')
    end.

(** The same on a pure computation. *)
Definition pure_call {A} (m : result F A) (h : error F -> reply F) (k : A -> handler F) : handler F :=
  store_call (fun w => (m, w)) h k.

Definition reply_with (rp : reply F) : handler F := fun w => (rp, w).

Definition bad_request (e : error F) : reply F := writeErr StatusBadRequest (Error_text e).
Definition server_error (e : error F) : reply F :=
  writeErr StatusInternalServerError (Error_text e).

(** [recipeStoreError], and the same lines in the cycle handlers. *)
Definition recipeStoreError (e : error F) : reply F :=
  if errors_Is e ErrNotFound then writeErr StatusNotFound (Error_text e)
  else writeErr StatusBadRequest (Error_text e).

Definition healthz : handler F :=
  reply_with (writeJSON StatusOK (JObj [("status", JStr "ok")])).

Definition listRecipes : handler F :=
  store_call ListRecipes server_error (fun rs =>
    reply_with (writeJSON StatusOK (JObj [("recipes", JArr (map json_Recipe rs))]))).

Definition putRecipe r : handler F :=
  decode (Body r) (fun rec : Recipe F =>
    pure_call (Recipe_Validate rec) bad_request (fun _ =>
      store_call (SaveRecipe rec) bad_request (fun _ =>
        reply_with (writeJSON StatusCreated (JObj [("recipe", json_Recipe rec)]))))).

Definition getRecipe (name : string) : handler F :=
  store_call (GetRecipe name) recipeStoreError (fun rec =>
    reply_with (writeJSON StatusOK (JObj [("recipe", json_Recipe rec)]))).

Definition listCycles : handler F :=
  store_call ListCycles server_error (fun cs =>
    reply_with (writeJSON StatusOK (JObj [("cycles", JArr (map json_CycleRecord cs))]))).

Definition putCycle r : handler F :=
  decode (Body r) (fun rec : CycleRecord F =>
    pure_call (CycleRecord_Validate rec) bad_request (fun _ =>
      store_call (SaveCycle rec) bad_request (fun _ =>
        reply_with (writeJSON StatusCreated (JObj [("cycle", json_CycleRecord rec)]))))).

Definition getCycle (name : string) : handler F :=
  store_call (GetCycle name) recipeStoreError (fun rec =>
    reply_with (writeJSON StatusOK (JObj [("cycle", json_CycleRecord rec)]))).

Definition recipe_and_values : error F :=
  ErrNew "已指定 recipe 时不得再在请求体中重给 type/h/beta_deg（以配方为准）".
Definition nothing_given : error F :=
  ErrNew "必须指定 recipe，或给全 type、h、beta_deg".

Definition is_some {A} (o : option A) : bool := match o with Some _ => true | None => false end.

Definition resolveSpec (req : liftRequest F) : io F (Kinematics.Spec F) :=
  if negb (String.eqb (lift_Recipe req) "") then
    if is_some (lift_Type req) || is_some (lift_H req) || is_some (lift_Beta req) then
      fail recipe_and_values
    else
      rec <~ GetRecipe (lift_Recipe req) ;;
      ret (Kinematics.mkSpec (Recipe_Type rec) (Recipe_H rec) (Recipe_Beta rec) (lift_Omega req))
  else
    match lift_Type req, lift_H req, lift_Beta req with
    | Some tp, Some h, Some beta => ret (Kinematics.mkSpec tp h beta (lift_Omega req))
    | _, _, _ => fail nothing_given
    end.

Definition json_liftResponse (spec : Kinematics.Spec F) (pts : list (Kinematics.Motion F))
    (peaks : Kinematics.Peaks F) (seams : list (Kinematics.Seam F)) : json F :=
  JObj [("law", JStr (Kinematics.Type_ spec)); ("h", JFloat (Kinematics.H spec));
        ("beta_deg", JFloat (Kinematics.Beta spec));
        ("omega_deg_s", JFloat (Kinematics.Omega spec));
        ("angle_unit", JStr Kinematics.AngleUnit); ("omega_unit", JStr Kinematics.OmegaUnit);
        ("points", JArr (map json_Motion pts)); ("closed_form_peaks", json_Peaks peaks);
        ("internal_seams", json_seams seams)].

Definition points_too_few : reply F := writeErr StatusBadRequest [Lit "points 至少为 2"].

Definition serveLift (req : liftRequest F) : handler F :=
  store_call (resolveSpec req) recipeStoreError (fun spec =>
    pure_call (Kinematics.Validate spec) bad_request (fun _ =>
      if (lift_Points req <? Kinematics.MinPoints)%Z then reply_with points_too_few
      else
        pure_call (Kinematics.Curve spec (lift_Points req)) bad_request (fun '(pts, peaks) =>
          pure_call (Kinematics.InternalSeams spec (K 0)) bad_request (fun seams =>
            reply_with (writeJSON StatusOK (json_liftResponse spec pts peaks seams)))))).

(** The query parameters the two GET handlers read: the angular speed, and the
    number of points with its default. *)
Definition query_omega (q : list (string * string)) : option F :=
  let '(omega, err) := ParseFloat (query_Get q "omega_deg_s") in
  if is_some err || fleb omega (K 0) then None else Some omega.

Definition query_points (q : list (string * string)) : option Z :=
  let v := query_Get q "points" in
  if negb (String.eqb v "") then
    let '(points, err) := Atoi (bytes v) in
    if is_some err then None else Some points
  else Some Kinematics.DefaultPoints.

Definition liftCurveGET r : handler F :=
  let q := Query r in
  let name := query_Get q "recipe" in
  if String.eqb name "" then
    reply_with (writeErr StatusBadRequest
      [Lit "GET /lift 必须带 recipe 参数；临时计算请用 POST /lift"])
  else
    match query_omega q with
    | None => reply_with (writeErr StatusBadRequest [Lit "omega_deg_s 必须为正数"])
    | Some omega =>
        match query_points q with
        | None => reply_with (writeErr StatusBadRequest [Lit "points 必须是整数"])
        | Some points => serveLift (mkLiftRequest name None None None omega points)
        end
    end.

Definition or_default (points : Z) : Z :=
  if (points =? 0)%Z then Kinematics.DefaultPoints else points.

Definition liftCurvePOST r : handler F :=
  decode (Body r) (fun req : liftRequest F =>
    serveLift (mkLiftRequest (lift_Recipe req) (lift_Type req) (lift_H req) (lift_Beta req)
                 (lift_Omega req) (or_default (lift_Points req)))).

Definition json_cycleCurveResponse (cfg : Cycle.Config F) (segs : Cycle.Segments F)
    (pts : list (Cycle.CurveSample F)) (joints : list (Cycle.Joint F)) : json F :=
  JObj [("h", JFloat (Cycle.H cfg)); ("omega_deg_s", JFloat (Cycle.Omega cfg));
        ("angle_unit", JStr Kinematics.AngleUnit); ("omega_unit", JStr Kinematics.OmegaUnit);
        ("total_angle_deg", JFloat (Cycle.TotalAngle segs));
        ("segments", JArr (map json_Segment (Cycle.All segs)));
        ("points", JArr (map json_CurveSample pts)); ("joints", JArr (map json_Joint joints));
        ("displacement_jump", JBool (Cycle.HasDisplacementJump joints))].

Definition serveCycle (cfg : Cycle.Config F) (points : Z) : handler F :=
  pure_call (Cycle.Validate cfg) bad_request (fun _ =>
    if (points <? Kinematics.MinPoints)%Z then reply_with points_too_few
    else if negb (Law.Known (Cycle.RiseLaw cfg)) || negb (Law.Known (Cycle.ReturnLaw cfg)) then
      reply_with (bad_request (Sentinel ErrUnknownLaw))
    else
      pure_call (Cycle.Build cfg) bad_request (fun segs =>
        pure_call (Cycle.Curve segs points) bad_request (fun pts =>
          pure_call (Cycle.Discontinuities segs) server_error (fun joints =>
            reply_with (writeJSON StatusOK (json_cycleCurveResponse cfg segs pts joints)))))).

Definition cycleCurveGET r : handler F :=
  let q := Query r in
  let name := query_Get q "cycle" in
  if String.eqb name "" then
    reply_with (writeErr StatusBadRequest
      [Lit "GET /cycle-curve 必须带 cycle 参数；临时计算请用 POST /cycle-curve"])
  else
    match query_omega q with
    | None => reply_with (writeErr StatusBadRequest [Lit "omega_deg_s 必须为正数"])
    | Some omega =>
        match query_points q with
        | None => reply_with (writeErr StatusBadRequest [Lit "points 必须是整数"])
        | Some points =>
            store_call (GetCycle name) recipeStoreError (fun rec =>
              serveCycle (ToConfig rec omega) points)
        end
    end.

Definition cycleCurvePOST r : handler F :=
  decode (Body r) (fun req : cycleCurveRequest F =>
    let points := or_default (ccr_Points req) in
    if negb (String.eqb (ccr_Cycle req) "") then
      store_call (GetCycle (ccr_Cycle req)) recipeStoreError (fun rec =>
        serveCycle (ToConfig rec (Cycle.Omega (ccr_Config req))) points)
    else serveCycle (ccr_Config req) points).

(** ** Routing *)

(** The patterns of [routes] by path; a GET pattern also takes HEAD. *)
Definition by_method (get post : option (handler F)) r : handler F :=
  let h := match Method r with
           | GET | HEAD => get
           | POST => post
           | OtherMethod => None
           end in
  match h with
  | Some h => h
  | None => reply_with (Reply StatusMethodNotAllowed None)
  end.

(** The mux's own replies, 404 and 405, are plain text; their JSON body is none.  A
    wildcard does not take the slash at the end of a path. *)
Definition not_routed : handler F := reply_with (Reply StatusNotFound None).

Definition routes r : handler F :=
  match Path r with
  | [p] =>
      if String.eqb p "healthz" then by_method (Some healthz) None r
      else if String.eqb p "recipes" then by_method (Some listRecipes) (Some (putRecipe r)) r
      else if String.eqb p "cycles" then by_method (Some listCycles) (Some (putCycle r)) r
      else if String.eqb p "lift" then
        by_method (Some (liftCurveGET r)) (Some (liftCurvePOST r)) r
      else if String.eqb p "cycle-curve" then
        by_method (Some (cycleCurveGET r)) (Some (cycleCurvePOST r)) r
      else not_routed
  | [p; name] =>
      if String.eqb name "/" then not_routed
      else if String.eqb p "recipes" then by_method (Some (getRecipe name)) None r
      else if String.eqb p "cycles" then by_method (Some (getCycle name)) None r
      else not_routed
  | _ => not_routed
  end.

(** ** main.go *)

Definition seed_name : string := "cycloid-lift".
Definition seed_recipe : Recipe F := mkRecipe seed_name Law.Cycloid (K 10) (K 60).

(** [seed]: keep what is there, register the recipe when it is missing. *)
Definition seed : io F unit := fun w =>
  match GetRecipe seed_name w with
  | (Ok _, w') => (Ok tt, w')
  | (Err e, w') =>
      if negb (errors_Is e ErrNotFound) then (Err e, w') else SaveRecipe seed_recipe w'
  | (Panic, w') => (Panic, w')
  end.

(** [envOr]: an environment variable, or the default when it is empty or unset. *)
Definition envOr (env : string -> string) (key def : string) : string :=
  let v := env key in if negb (String.eqb v "") then v else def.
End Handlers.
