(* ===== verification/Mux.v ===== *)
(** Package net/http, the router: pattern.go, mapping.go, routing_tree.go, routing_index.go
    and the ServeMux of server.go.

    A tree of nodes branches on host, method and the segments of the path.  Nothing
    ([None]) stands for a panic: a leaf set twice, a nil pattern looked at. *)
From stdpp Require Import gmap.
From Stdlib Require Import ZArith Lia String Bool List.
From S2P Require Import Prelude Strconv Utf8 Letter GoStrings Url PathClean.
Import ListNotations.
Local Open Scope Z_scope.

(** * pattern.go *)

Record segment := mkSegment { seg_s : list Z; wild : bool; multi : bool }.

Record pattern := mkPattern {
  str : list Z;
  method : list Z;
  host : list Z;
  segments : list segment
}.

(** [p.segments[len(p.segments)-1]]; a parsed pattern has a segment. *)
Definition lastSegment (p : pattern) : segment := last (segments p) (mkSegment [] false false).

Definition pathUnescape (path : list Z) : list Z :=
  match PathUnescape path with inr u => u | inl _ => path end.

(** isTokenTable of vendor/golang.org/x/net/http/httpguts. *)
Definition IsTokenRune (r : Z) : bool := alphanum r || one_of r "!#$%&'*+-.^_`|~".
Definition isNotToken (r : Z) : bool := negb (IsTokenRune r).

Definition validMethod (method : list Z) : bool :=
  (0 <? Z.of_nat (length method)) && (indexFunc method isNotToken true =? -1).

Fixpoint wildcard_runes (first : bool) (rs : list (Z * Z)) : bool :=
  match rs with
  | [] => true
  | (c, _) :: rs' =>
      if negb (IsLetter c) && negb (c =? 95) && (first || negb (IsDigit c)) then false
      else wildcard_runes false rs'
  end.

Definition isValidWildcardName (s : list Z) : bool := nonempty s && wildcard_runes true (runes s).

Inductive pattern_error :=
| PatternErr (msg : string)
| PatternErrQ (msg : string) (arg : list Z).   (* a message with %q *)

(** The segments of a path, [off] being where parsing stands in the whole pattern. *)
Fixpoint parse_segments (fuel : nat) (slen : nat) (rest : list Z) (seenNames : list (list Z))
  : (nat * pattern_error) + list segment :=
  match fuel with
  | O => inr []
  | S fuel =>
      match rest with
      | [] => inr []
      | _ :: rest =>
          let off := (slen - length rest)%nat in
          let fail msg := inl (off, PatternErr msg) in
          if negb (nonempty rest) then inr [mkSegment [] true true]
          else
            let i := match IndexByte rest slash with Some i => i | None => length rest end in
            let seg := firstn i rest in
            let rest := skipn i rest in
            let more sg names :=
              match parse_segments fuel slen rest names with
              | inl e => inl e
              | inr segs => inr (sg :: segs)
              end in
            match IndexByte seg lbrace with
            | None => more (mkSegment (pathUnescape seg) false false) seenNames
            | Some (S _) => fail "bad wildcard segment (must start with '{')"%string
            | Some O =>
                if negb (last seg 0 =? rbrace)
                then fail "bad wildcard segment (must end with '}')"%string
                else
                  let name := firstn (length seg - 2) (tl seg) in
                  if str_eqb name [dollar] then
                    if nonempty rest then fail "{$} not at end"%string
                    else inr [mkSegment [slash] false false]
                  else
                    let '(name, multi) := CutSuffix name (bytes "...") in
                    if multi && nonempty rest then fail "{...} wildcard not at end"%string
                    else if negb (nonempty name) then fail "empty wildcard"%string
                    else if negb (isValidWildcardName name)
                    then inl (off, PatternErrQ "bad wildcard name"%string name)
                    else if existsb (str_eqb name) seenNames
                    then inl (off, PatternErrQ "duplicate wildcard name"%string name)
                    else more (mkSegment name true multi) (name :: seenNames)
            end
      end
  end.

(** [rest != cleanPath(rest)] *)
Definition unclean (rest : list Z) : bool :=
  match cleanPath rest with Some c => negb (str_eqb rest c) | None => true end.

Definition parsePattern (s : list Z) : (nat * pattern_error) + pattern :=
  if negb (nonempty s) then inl (O, PatternErr "empty pattern")
  else
    let '(m, r, found) := Cut s [space] in
    let '(method, rest) := if found then (m, r) else ([], m) in
    if nonempty method && negb (validMethod method)
    then inl (O, PatternErrQ "invalid method" method)
    else
      let off := if found then S (length method) else O in
      match IndexByte rest slash with
      | None => inl (off, PatternErr "host/path missing /")
      | Some i =>
          let host := firstn i rest in
          let rest := skipn i rest in
          match IndexByte host lbrace with
          | Some j => inl ((off + j)%nat, PatternErr "host contains '{' (missing initial '/'?)")
          | None =>
              if nonempty method && negb (str_eqb method (bytes "CONNECT")) && unclean rest
              then inl ((off + i)%nat, PatternErr "non-CONNECT pattern with unclean path can never match")
              else
                match parse_segments (length rest) (length s) rest [] with
                | inl e => inl e
                | inr segs => inr (mkPattern s method host segs)
                end
          end
      end.

Inductive relationship := equivalent | moreGeneral | moreSpecific | disjoint | overlaps.

#[export] Instance relationship_eq_dec : EqDecision relationship.
Proof. solve_decision. Defined.

Definition inverseRelationship (r : relationship) : relationship :=
  match r with
  | moreSpecific => moreGeneral
  | moreGeneral => moreSpecific
  | _ => r
  end.

Definition combineRelationships (r1 r2 : relationship) : relationship :=
  match r1 with
  | equivalent => r2
  | disjoint => disjoint
  | overlaps => match r2 with disjoint => disjoint | _ => overlaps end
  | moreGeneral | moreSpecific =>
      match r2 with
      | equivalent => r1
      | _ => if decide (r2 = inverseRelationship r1) then overlaps else r2
      end
  end.

Definition compareSegments (s1 s2 : segment) : relationship :=
  if multi s1 && multi s2 then equivalent
  else if multi s1 then moreGeneral
  else if multi s2 then moreSpecific
  else if wild s1 && wild s2 then equivalent
  else if wild s1 then if str_eqb (seg_s s2) [slash] then disjoint else moreGeneral
  else if wild s2 then if str_eqb (seg_s s1) [slash] then disjoint else moreSpecific
  else if str_eqb (seg_s s1) (seg_s s2) then equivalent else disjoint.

(** The loop of [comparePaths] over corresponding segments: the relationship, and what is
    left of either list. *)
Fixpoint compare_loop (rel : relationship) (segs1 segs2 : list segment)
  : relationship * list segment * list segment :=
  match segs1, segs2 with
  | s1 :: segs1', s2 :: segs2' =>
      let rel := combineRelationships rel (compareSegments s1 s2) in
      match rel with
      | disjoint => (disjoint, [], [])
      | _ => compare_loop rel segs1' segs2'
      end
  | _, _ => (rel, segs1, segs2)
  end.

Definition comparePaths (p1 p2 : pattern) : relationship :=
  if negb (length (segments p1) =? length (segments p2))%nat
     && negb (multi (lastSegment p1)) && negb (multi (lastSegment p2))
  then disjoint
  else
    let '(rel, segs1, segs2) := compare_loop equivalent (segments p1) (segments p2) in
    match segs1, segs2 with
    | [], [] => rel
    | _, _ =>
        if (length segs1 <? length segs2)%nat && multi (lastSegment p1)
        then combineRelationships rel moreGeneral
        else if (length segs2 <? length segs1)%nat && multi (lastSegment p2)
        then combineRelationships rel moreSpecific
        else disjoint
    end.

Definition compareMethods (p1 p2 : pattern) : relationship :=
  let has m p := str_eqb (method p) m in
  if str_eqb (method p1) (method p2) then equivalent
  else if has [] p1 then moreGeneral
  else if has [] p2 then moreSpecific
  else if has (bytes "GET") p1 && has (bytes "HEAD") p2 then moreGeneral
  else if has (bytes "GET") p2 && has (bytes "HEAD") p1 then moreSpecific
  else disjoint.

Definition comparePathsAndMethods (p1 p2 : pattern) : relationship :=
  match compareMethods p1 p2 with
  | disjoint => disjoint
  | mrel => combineRelationships mrel (comparePaths p1 p2)
  end.

Definition conflictsWith (p1 p2 : pattern) : bool :=
  if negb (str_eqb (host p1) (host p2)) then false
  else match comparePathsAndMethods p1 p2 with
       | equivalent | overlaps => true
       | _ => false
       end.

(** * mapping.go *)

Section Mapping.
Context {V : Type}.

(** A [mapping]: the pairs in order of insertion.  Beyond eight pairs Go keeps them in a
    map, which finds the same values. *)
Definition mapping : Type := list (list Z * V).

Definition add (h : mapping) (k : list Z) (v : V) : mapping := h ++ [(k, v)].

Fixpoint find (h : mapping) (k : list Z) : option V :=
  match h with
  | [] => None
  | (k', v) :: h' => if str_eqb k' k then Some v else find h' k
  end.

(** The child [find] gives is a pointer; changing it changes the pair. *)
Fixpoint update (h : mapping) (k : list Z) (v : V) : mapping :=
  match h with
  | [] => []
  | (k', v') :: h' => if str_eqb k' k then (k', v) :: h' else (k', v') :: update h' k v
  end.
End Mapping.
Arguments mapping V : clear implicits.

(** * routing_tree.go *)

Section Tree.
Context {H : Type}.

(** The pattern and the handler of a leaf are set together. *)
Inductive routingNode :=
| Node (leaf : option (pattern * H)) (children : list (list Z * routingNode))
    (emptyChild : option routingNode).

Definition leaf (n : routingNode) : option (pattern * H) := let 'Node l _ _ := n in l.
Definition children (n : routingNode) : mapping routingNode := let 'Node _ c _ := n in c.
Definition emptyChild (n : routingNode) : option routingNode := let 'Node _ _ e := n in e.

Definition new_node : routingNode := Node None [] None.

Definition findChild (n : routingNode) (key : list Z) : option routingNode :=
  if negb (nonempty key) then emptyChild n else find (children n) key.

(** [addChild], and then [f] on the child. *)
Definition addChild (n : routingNode) (key : list Z) (f : routingNode -> option routingNode)
  : option routingNode :=
  if negb (nonempty key) then
    opt_bind (f (default new_node (emptyChild n))) (fun c =>
      Some (Node (leaf n) (children n) (Some c)))
  else
    match find (children n) key with
    | Some c => opt_bind (f c) (fun c => Some (Node (leaf n) (update (children n) key c) (emptyChild n)))
    | None => opt_bind (f new_node) (fun c => Some (Node (leaf n) (add (children n) key c) (emptyChild n)))
    end.

Definition set (p : pattern) (h : H) (n : routingNode) : option routingNode :=
  match leaf n with
  | Some _ => None
  | None => Some (Node (Some (p, h)) (children n) (emptyChild n))
  end.

Fixpoint addSegments (segs : list segment) (p : pattern) (h : H) (n : routingNode)
  : option routingNode :=
  match segs with
  | [] => set p h n
  | seg :: segs' =>
      if multi seg then
        match segs' with
        | [] => addChild n [star] (set p h)
        | _ => None
        end
      else if wild seg then addChild n [] (addSegments segs' p h)
      else addChild n (seg_s seg) (addSegments segs' p h)
  end.

Definition addPattern (root : routingNode) (p : pattern) (h : H) : option routingNode :=
  addChild root (host p) (fun n => addChild n (method p) (addSegments (segments p) p h)).

Definition firstSegment (path : list Z) : list Z * list Z :=
  if str_eqb path [slash] then ([slash], [])
  else
    let path := tl path in
    let i := match IndexByte path slash with Some i => i | None => length path end in
    (pathUnescape (firstn i path), skipn i path).

(** A match, no match, or a nil pattern looked at. *)
Inductive found :=
| Found (l : pattern * H) (matches : list (list Z))
| Missing
| NilPattern.

Definition or_else (m m' : found) : found := match m with Missing => m' | _ => m end.

Definition on_child (n : option routingNode) (k : routingNode -> found) : found :=
  match n with Some c => k c | None => Missing end.

(** Every turn takes a byte of the path. *)
Fixpoint matchPath (fuel : nat) (path : list Z) (matches : list (list Z)) (n : routingNode) : found :=
  match fuel with
  | O => Missing
  | S fuel =>
      if negb (nonempty path) then
        match leaf n with Some l => Found l matches | None => Missing end
      else
        let '(seg, rest) := firstSegment path in
        or_else (on_child (findChild n seg) (matchPath fuel rest matches))
        (or_else (if negb (str_eqb seg [slash])
                  then on_child (emptyChild n) (matchPath fuel rest (matches ++ [seg])) else Missing)
        (on_child (findChild n [star]) (fun c =>
           match leaf c with
           | None => NilPattern
           | Some (p, h) =>
               Found (p, h)
                 (if nonempty (seg_s (lastSegment p)) then matches ++ [pathUnescape (tl path)] else matches)
           end)))
  end.

Definition match_path (path : list Z) (n : option routingNode) : found :=
  on_child n (matchPath (S (length path)) path []).

Definition child_of (n : option routingNode) (key : list Z) : option routingNode :=
  match n with Some n => findChild n key | None => None end.

Definition matchMethodAndPath (n : option routingNode) (method path : list Z) : found :=
  or_else (match_path path (child_of n method))
  (or_else (if str_eqb method (bytes "HEAD") then match_path path (child_of n (bytes "GET")) else Missing)
  (match_path path (child_of n []))).

Definition match_ (root : routingNode) (host method path : list Z) : found :=
  or_else (if nonempty host then matchMethodAndPath (findChild root host) method path else Missing)
    (matchMethodAndPath (emptyChild root) method path).

(** The methods of the children that match the path. *)
Definition matchingMethodsPath (path : list Z) (n : option routingNode) : option (gset (list Z)) :=
  match n with
  | None => Some ∅
  | Some n =>
      fold_left (fun set '(method, c) =>
        opt_bind set (fun set =>
          match match_path path (Some c) with
          | Found _ _ => Some ({[method]} ∪ set)
          | Missing => Some set
          | NilPattern => None
          end)) (children n) (Some ∅)
  end.

Definition node_matchingMethods (root : routingNode) (host path : list Z) : option (gset (list Z)) :=
  opt_bind (if nonempty host then matchingMethodsPath path (findChild root host) else Some ∅) (fun s1 =>
  opt_bind (matchingMethodsPath path (emptyChild root)) (fun s2 =>
    let set := s1 ∪ s2 in
    Some (if bool_decide (bytes "GET" ∈ set) then {[bytes "HEAD"]} ∪ set else set))).
End Tree.
Arguments routingNode H : clear implicits.
Arguments found H : clear implicits.

(** * routing_index.go *)

Record routingIndex := mkIndex {
  idx_segments : gmap (nat * list Z) (list pattern);
  idx_multis : list pattern
}.

Definition empty_index : routingIndex := mkIndex ∅ [].

Definition index_key (pos : nat) (seg : segment) : nat * list Z :=
  (pos, if wild seg then [] else seg_s seg).

Definition patterns_at (idx : routingIndex) (key : nat * list Z) : list pattern :=
  default [] (idx_segments idx !! key).

Fixpoint index_segments (pat : pattern) (pos : nat) (segs : list segment)
    (m : gmap (nat * list Z) (list pattern)) : gmap (nat * list Z) (list pattern) :=
  match segs with
  | [] => m
  | seg :: segs' =>
      let key := index_key pos seg in
      index_segments pat (S pos) segs' (<[key := default [] (m !! key) ++ [pat]]> m)
  end.

Definition index_addPattern (idx : routingIndex) (pat : pattern) : routingIndex :=
  if multi (lastSegment pat) then mkIndex (idx_segments idx) (idx_multis idx ++ [pat])
  else mkIndex (index_segments pat 0 (segments pat) (idx_segments idx)) (idx_multis idx).

(** The literal position with the fewest patterns: those with the same literal there, then
    those with a wildcard; nothing when there is no literal. *)
Fixpoint fewest_loop (idx : routingIndex) (pos : nat) (segs : list segment)
    (best : option (list pattern * list pattern)) : option (list pattern * list pattern) :=
  match segs with
  | [] => best
  | seg :: segs' =>
      if multi seg then best
      else if wild seg then fewest_loop idx (S pos) segs' best
      else
        let lpats := patterns_at idx (pos, seg_s seg) in
        let wpats := patterns_at idx (pos, []) in
        let fewer := match best with
                     | None => true
                     | Some (lmin, wmin) =>
                         (length lpats + length wpats <? length lmin + length wmin)%nat
                     end in
        fewest_loop idx (S pos) segs' (if fewer then Some (lpats, wpats) else best)
  end.

(** The patterns [f] is called on, in order, until one call fails.  The last loop runs over a
    Go map, in an order of its own. *)
Definition possiblyConflictingPatterns (idx : routingIndex) (pat : pattern) : list pattern :=
  idx_multis idx ++
  (if str_eqb (seg_s (lastSegment pat)) [slash]
   then patterns_at idx ((length (segments pat) - 1)%nat, [slash])
   else
     match fewest_loop idx 0 (segments pat) None with
     | Some (lmin, wmin) => lmin ++ wmin
     | None => concat (map snd (map_to_list (idx_segments idx)))
     end).

(** * The ServeMux of server.go *)

Section ServeMux.
Context {H : Type}.

Record ServeMux := mkServeMux {
  tree : routingNode H;
  index : routingIndex;
  patterns : list pattern
}.

Definition NewServeMux : ServeMux := mkServeMux new_node empty_index [].

Inductive register_error :=
| InvalidPattern
| ParsingPattern (at_offset : nat) (err : pattern_error)
| ConflictsWith (pat pat2 : pattern).

(** [registerErr]; nothing when the tree panics. *)
Definition registerErr (mux : ServeMux) (patstr : list Z) (h : H) : option (register_error + ServeMux) :=
  if negb (nonempty patstr) then Some (inl InvalidPattern)
  else
    match parsePattern patstr with
    | inl (off, err) => Some (inl (ParsingPattern off err))
    | inr pat =>
        match List.find (conflictsWith pat) (possiblyConflictingPatterns (index mux) pat) with
        | Some pat2 => Some (inl (ConflictsWith pat pat2))
        | None =>
            opt_bind (addPattern (tree mux) pat h) (fun t =>
              Some (inr (mkServeMux t (index_addPattern (index mux) pat) (patterns mux ++ [pat]))))
        end
    end.

(** [HandleFunc] panics on an error. *)
Definition HandleFunc (patstr : list Z) (h : H) (mux : ServeMux) : option ServeMux :=
  match registerErr mux patstr h with Some (inr mux') => Some mux' | _ => None end.

(** Registrations in a row. *)
Fixpoint register_all (ps : list (list Z * H)) (mux : ServeMux) : option ServeMux :=
  match ps with
  | [] => Some mux
  | (s, h) :: ps' => opt_bind (HandleFunc s h mux) (register_all ps')
  end.

(** A request as the router sees it. *)
Record Request := mkRequest {
  Method : list Z;
  req_URL : URL;
  ProtoMajor : Z;
  ProtoMinor : Z;
  req_Host : list Z;
  RequestURI : list Z
}.

Definition ProtoAtLeast (r : Request) (major minor : Z) : bool :=
  (major <? ProtoMajor r) || (ProtoMajor r =? major) && (minor <=? ProtoMinor r).

(** [net.SplitHostPort]: the host, or nothing on an error. *)
Definition SplitHostPort (hostport : list Z) : option (list Z * list Z) :=
  match LastIndexByte hostport colon with
  | None => None
  | Some i =>
      let bracket := HasPrefix hostport [lbracket] in
      let parts :=
        if bracket then
          match IndexByte hostport rbracket with
          | None => None
          | Some end_ => if (end_ + 1 =? i)%nat
                         then Some (firstn (end_ - 1) (tl hostport), 1%nat, (end_ + 1)%nat) else None
          end
        else
          let host := firstn i hostport in
          match IndexByte host colon with Some _ => None | None => Some (host, O, O) end in
      match parts with
      | None => None
      | Some (host, j, k) =>
          match IndexByte (skipn j hostport) lbracket, IndexByte (skipn k hostport) rbracket with
          | None, None => Some (host, skipn (i + 1) hostport)
          | _, _ => None
          end
      end
  end.

Definition stripHostPort (h : list Z) : list Z :=
  if negb (Contains h [colon]) then h
  else match SplitHostPort h with Some (host, _) => host | None => h end.

Definition exactMatch (n : found H) (path : list Z) : bool :=
  match n with
  | Found (p, _) _ =>
      if negb (multi (lastSegment p)) then true
      else if nonempty path && negb (last path 0 =? slash) then false
      else (length (segments p) =? CountByte path slash)%nat
  | _ => false
  end.

(** What serves a request. *)
Inductive dispatch :=
| Handle (h : H) (p : pattern) (matches : list (list Z))
| RedirectHandler (url : list Z) (code : Z)
| MethodNotAllowed (allowed : list (list Z))
| NotFoundHandler
| StarRequest.                    (* the 400 of ServeHTTP for the target [*] *)

(** [matchOrRedirect]: the match, or where to redirect. *)
Definition matchOrRedirect (mux : ServeMux) (host method path : list Z) (u : option URL)
  : option (found H + URL) :=
  match match_ (tree mux) host method path with
  | NilPattern => None
  | n =>
      match u with
      | Some u =>
          if negb (exactMatch n path) then
            let path' := path ++ [slash] in
            match match_ (tree mux) host method path' with
            | NilPattern => None
            | n2 =>
                if exactMatch n2 path' then
                  opt_bind (cleanPath (Path u)) (fun c =>
                    Some (inr (mkURL [] [] None [] (c ++ [slash]) [] false false (RawQuery u) [] [])))
                else Some (inl n)
            end
          else Some (inl n)
      | None => Some (inl n)
      end
  end.

(** [matchingMethods] of the mux: sorted. *)
Definition matchingMethods (mux : ServeMux) (host path : list Z) : option (list (list Z)) :=
  opt_bind (node_matchingMethods (tree mux) host path) (fun s1 =>
  opt_bind (node_matchingMethods (tree mux) host (path ++ [slash])) (fun s2 =>
    Some (sort_keys (base.elements (s1 ∪ s2))))).

Definition StatusMovedPermanently : Z := 301.

(** The end of [findHandler]: the handler of the node, or why there is none. *)
Definition handler_of (mux : ServeMux) (host path : list Z) (n : found H) : option dispatch :=
  match n with
  | Found (p, h) matches => Some (Handle h p matches)
  | NilPattern => None
  | Missing =>
      opt_bind (matchingMethods mux host path) (fun allowed =>
        Some (match allowed with [] => NotFoundHandler | _ => MethodNotAllowed allowed end))
  end.

Definition findHandler (mux : ServeMux) (r : Request) : option dispatch :=
  let escapedPath := EscapedPath (req_URL r) in
  if str_eqb (Method r) (bytes "CONNECT") then
    opt_bind (matchOrRedirect mux (Host (req_URL r)) (Method r) escapedPath (Some (req_URL r))) (fun m =>
      match m with
      | inr u => Some (RedirectHandler (URL_String u) StatusMovedPermanently)
      | inl _ =>
          opt_bind (matchOrRedirect mux (req_Host r) (Method r) escapedPath None) (fun m =>
            match m with
            | inl n => handler_of mux (Host (req_URL r)) escapedPath n
            | inr _ => None
            end)
      end)
  else
    let host := stripHostPort (req_Host r) in
    opt_bind (cleanPath escapedPath) (fun path =>
    opt_bind (matchOrRedirect mux host (Method r) path (Some (req_URL r))) (fun m =>
      match m with
      | inr u => Some (RedirectHandler (URL_String u) StatusMovedPermanently)
      | inl n =>
          if negb (str_eqb path escapedPath) then
            let u := mkURL [] [] None [] path [] false false (RawQuery (req_URL r)) [] [] in
            Some (RedirectHandler (URL_String u) StatusMovedPermanently)
          else handler_of mux host path n
      end)).

Definition ServeHTTP (mux : ServeMux) (r : Request) : option dispatch :=
  if str_eqb (RequestURI r) [star] then Some StarRequest else findHandler mux r.
End ServeMux.
Arguments ServeMux H : clear implicits.
Arguments dispatch H : clear implicits.

(** * Path values, request.go *)

Fixpoint wildcard_index (segs : list segment) (name : list Z) (i : nat) : option nat :=
  match segs with
  | [] => None
  | seg :: segs' =>
      if wild seg && nonempty (seg_s seg) then
        if str_eqb name (seg_s seg) then Some i else wildcard_index segs' name (S i)
      else wildcard_index segs' name i
  end.

Definition patIndex (p : pattern) (name : list Z) : option nat := wildcard_index (segments p) name 0.

(** [PathValue] of a matched request; nothing where [matches[i]] is out of range. *)
Definition PathValue (p : pattern) (matches : list (list Z)) (name : list Z) : option (list Z) :=
  match patIndex p name with
  | Some i => nth_error matches i
  | None => Some []
  end.
