(* ===== verification/MuxSpec.v ===== *)
(** Theorems about the router: the tree finds the most specific registered pattern, the
    index misses no conflict, and registration does not panic.

    The patterns are the plain ones, without a literal segment that is empty or a star: the
    tree uses these two as keys of its own, and for such a literal the theorems are false
    (see the examples at the end). *)
From stdpp Require Import gmap.
From Stdlib Require Import ZArith Lia String Bool List.
From S2P Require Import Prelude Strconv Utf8 GoStrings Url PathClean Mux.
Import ListNotations.
Local Open Scope Z_scope.

(** * Segments and keys *)

(** The key of a segment in the tree. *)
Definition key (sg : segment) : list Z :=
  if multi sg then [star] else if wild sg then [] else seg_s sg.

(** Segments as [parsePattern] makes them: at least one, a multi wildcard only at the end,
    no wildcard named like a slash; and no literal that the tree takes for a wildcard. *)
Definition plain_segment (sg : segment) : bool :=
  if wild sg then negb (str_eqb (seg_s sg) [slash]) else negb (multi sg) && nonempty (seg_s sg) && negb (str_eqb (seg_s sg) [star]).

Fixpoint multi_last (segs : list segment) : bool :=
  match segs with
  | [] => true
  | [_] => true
  | sg :: segs' => negb (multi sg) && multi_last segs'
  end.

Definition plain (p : pattern) : bool :=
  match segments p with [] => false | _ => true end
  && multi_last (segments p) && forallb plain_segment (segments p).

Lemma multi_last_tl sg segs : multi_last (sg :: segs) = true -> multi_last segs = true.
Proof. destruct segs; [reflexivity|]. cbn [multi_last]. now intros [_ H]%andb_true_iff. Qed.

Lemma multi_last_skipn k segs : multi_last segs = true -> multi_last (skipn k segs) = true.
Proof.
  revert segs. induction k as [|k IH]; intros segs H; [exact H|].
  destruct segs as [|sg segs]; [reflexivity|]. cbn [skipn]. apply IH. exact (multi_last_tl _ _ H).
Qed.

Lemma forallb_skipn {A} (f : A -> bool) k l : forallb f l = true -> forallb f (skipn k l) = true.
Proof.
  revert l. induction k as [|k IH]; intros [|x l] H; try exact H.
  cbn in *. apply andb_true_iff in H as [_ H]. now apply IH.
Qed.

Lemma last_skipn {A} k (l : list A) d : skipn k l <> [] -> last (skipn k l) d = last l d.
Proof.
  revert l. induction k as [|k IH]; intros [|x l] H; try reflexivity. cbn [skipn] in *.
  rewrite IH by exact H. destruct l; [now destruct k|reflexivity].
Qed.

(** * The tree as a map from keys to leaves *)

Section Trie.
Context {H : Type}.
Implicit Types (n c : routingNode H) (l : pattern * H).

Fixpoint lookup (n : routingNode H) (ks : list (list Z)) : option (pattern * H) :=
  match ks with
  | [] => leaf n
  | k :: ks' => match findChild n k with Some c => lookup c ks' | None => None end
  end.

(** [addSegments] on keys. *)
Fixpoint add_keys (ks : list (list Z)) (p : pattern) (h : H) (n : routingNode H)
  : option (routingNode H) :=
  match ks with
  | [] => set p h n
  | k :: ks' => addChild n k (add_keys ks' p h)
  end.

Lemma addSegments_keys segs p h : forall n,
  multi_last segs = true -> addSegments segs p h n = add_keys (map key segs) p h n.
Proof.
  induction segs as [|sg segs IH]; intros n Hm; [reflexivity|].
  assert (Hs : forall n, addSegments segs p h n = add_keys (map key segs) p h n)
    by (intros; apply IH; exact (multi_last_tl _ _ Hm)).
  assert (He : forall k, addChild n k (addSegments segs p h) = addChild n k (add_keys (map key segs) p h)).
  { intros k. unfold addChild. case_if; [now rewrite Hs|]. destruct (find (children n) k); now rewrite Hs. }
  cbn [addSegments map add_keys]. unfold key at 1. destruct (multi sg) eqn:Em.
  - destruct segs; [reflexivity|]. cbn [multi_last] in Hm. now rewrite Em in Hm.
  - destruct (wild sg); apply He.
Qed.

Lemma find_add (V : Type) (m : mapping V) k v k' :
  find m k = None -> find (add m k v) k' = if str_eqb k k' then Some v else find m k'.
Proof.
  unfold add. induction m as [|[k0 v0] m IH]; intros Hk; cbn [find app] in *; [reflexivity|].
  destruct (str_eqb_spec k0 k) as [->|Hne]; [discriminate Hk|].
  destruct (str_eqb_spec k0 k') as [->|]; [|now apply IH].
  now rewrite neq_str_eqb by congruence.
Qed.

Lemma find_update (V : Type) (m : mapping V) k v k' :
  find m k <> None -> find (update m k v) k' = if str_eqb k k' then Some v else find m k'.
Proof.
  induction m as [|[k0 v0] m IH]; intros Hk; cbn [find update] in *; [contradiction|].
  destruct (str_eqb_spec k0 k) as [->|Hne]; cbn [find].
  - now destruct (str_eqb_spec k k').
  - destruct (str_eqb_spec k0 k') as [->|]; [|now apply IH].
    now rewrite neq_str_eqb by congruence.
Qed.

(** The child under another key is untouched, the one under the key is what [f] made. *)
Lemma addChild_child n k f n' :
  addChild n k f = Some n' ->
  exists c, f (default new_node (findChild n k)) = Some c /\ leaf n' = leaf n /\
    forall k', findChild n' k' = if str_eqb k k' then Some c else findChild n k'.
Proof.
  unfold addChild, findChild. destruct k as [|x k]; cbn [nonempty negb].
  - destruct (f (default new_node (emptyChild n))) as [c|] eqn:Ef; [|discriminate].
    cbn [opt_bind]. intros E. apply Some_inj in E as <-. exists c. split; [first [assumption|reflexivity]|split; [reflexivity|]].
    intros k'. now destruct k'.
  - set (kk := x :: k). destruct (find (children n) kk) as [c0|] eqn:Ec.
    + destruct (f c0) as [c|] eqn:Ef; [|discriminate]. cbn [opt_bind]. intros E. apply Some_inj in E as <-.
      exists c. split; [first [assumption|reflexivity]|split; [reflexivity|]]. intros k'. destruct k' as [|y k']; [reflexivity|].
      cbn [nonempty negb children]. rewrite find_update by (now rewrite Ec). reflexivity.
    + destruct (f new_node) as [c|] eqn:Ef; [|discriminate]. cbn [opt_bind]. intros E. apply Some_inj in E as <-.
      exists c. split; [first [assumption|reflexivity]|split; [reflexivity|]]. intros k'. destruct k' as [|y k']; [reflexivity|].
      cbn [nonempty negb children]. rewrite find_add by exact Ec. reflexivity.
Qed.

Lemma addChild_defined n k f : f (default new_node (findChild n k)) <> None -> addChild n k f <> None.
Proof.
  unfold addChild, findChild. destruct k as [|x k]; cbn [nonempty negb].
  - intros Hf. cbn [opt_bind]. destruct (f (default new_node (emptyChild n))) eqn:E; cbn; [discriminate|congruence].
  - destruct (find (children n) (x :: k)) as [c|]; cbn [default]; intros Hf.
    + cbn in Hf. destruct (f c) eqn:E; cbn; congruence.
    + cbn in Hf. destruct (f new_node) eqn:E; cbn; congruence.
Qed.

Lemma lookup_new ks : lookup (new_node (H := H)) ks = None.
Proof. destruct ks as [|k ks]; [reflexivity|]. cbn. unfold findChild. now destruct k. Qed.

Lemma lookup_default n k ks : lookup (default new_node (findChild n k)) ks = lookup n (k :: ks).
Proof. cbn [lookup]. destruct (findChild n k); [reflexivity|apply lookup_new]. Qed.

(** Adding a leaf sets it at its keys and nowhere else. *)
Lemma lookup_add ks p h : forall n n' ks',
  add_keys ks p h n = Some n' ->
  lookup n' ks' = if list_eq_dec (list_eq_dec Z.eq_dec) ks ks' then Some (p, h) else lookup n ks'.
Proof.
  induction ks as [|k ks IH]; intros n n' ks' E; cbn [add_keys] in E.
  - unfold set in E. destruct (leaf n) eqn:El; [discriminate|]. apply Some_inj in E as <-.
    destruct ks' as [|k' ks']; [reflexivity|].
    destruct (list_eq_dec _ [] (k' :: ks')); [discriminate|reflexivity].
  - apply addChild_child in E as (c & Ec & El & Hc).
    destruct ks' as [|k' ks'].
    { destruct (list_eq_dec _ (k :: ks) []); [discriminate|exact El]. }
    cbn [lookup]. rewrite Hc. destruct (str_eqb_spec k k') as [<-|Hne].
    + rewrite (IH _ _ ks' Ec), lookup_default.
      destruct (list_eq_dec _ ks ks') as [<-|Hk], (list_eq_dec _ (k :: ks) (k :: _)) as [E'|E'];
        try reflexivity; [now exfalso; apply E'|]. now injection E'.
    + destruct (list_eq_dec _ (k :: ks) (k' :: ks')) as [E'|E']; [now injection E'|reflexivity].
Qed.

(** A leaf can be added where there is none. *)
Lemma add_keys_defined ks p h : forall n, lookup n ks = None -> add_keys ks p h n <> None.
Proof.
  induction ks as [|k ks IH]; intros n Hn; cbn [add_keys].
  - unfold set. cbn in Hn. now rewrite Hn.
  - apply addChild_defined, IH. now rewrite lookup_default.
Qed.
End Trie.

(** * Paths and what a pattern says of them *)

(** A path of raw segments; an empty one at the end is the trailing slash. *)
Definition path_of (raws : list (list Z)) : list Z := flat_map (cons slash) raws.

(** The first segment as the tree sees it. *)
Definition seg_of (r : list Z) (rs : list (list Z)) : list Z :=
  match r, rs with
  | [], [] => [slash]
  | _, _ => pathUnescape r
  end.

(** Segments without a slash, and none that the tree takes for one of its own keys.  A star
    is such a key only where there are patterns with a multi wildcard; without them [stars]
    may be true. *)
Fixpoint tame (stars : bool) (raws : list (list Z)) : Prop :=
  match raws with
  | [] => True
  | r :: rs =>
      ~ In slash r /\ seg_of r rs <> [] /\ (stars = false -> seg_of r rs <> [star]) /\ tame stars rs
  end.

Definition no_multis (p : pattern) : bool := forallb (fun sg => negb (multi sg)) (segments p).

(** The values of the wildcards when the segments match, segment by segment. *)
Fixpoint seg_match (segs : list segment) (raws : list (list Z)) : option (list (list Z)) :=
  match segs, raws with
  | [], [] => Some []
  | sg :: segs', r :: rs =>
      if multi sg then
        match segs' with
        | [] => Some (if nonempty (seg_s sg) then [pathUnescape (tl (path_of raws))] else [])
        | _ => None
        end
      else
        let x := seg_of r rs in
        if wild sg then
          if str_eqb x [slash] then None else option_map (cons x) (seg_match segs' rs)
        else if str_eqb x (seg_s sg) then seg_match segs' rs else None
  | _, _ => None
  end.

(** Literals before wildcards before the rest of the path, the first difference deciding. *)
Definition rank (sg : segment) : nat := if multi sg then 2 else if wild sg then 1 else 0.

Fixpoint prefers (segs segs' : list segment) : Prop :=
  match segs, segs' with
  | sg :: t, sg' :: t' => (rank sg < rank sg')%nat \/ rank sg = rank sg' /\ prefers t t'
  | _, _ => True
  end.

Lemma firstSegment_path r rs :
  ~ In slash r -> firstSegment (path_of (r :: rs)) = (seg_of r rs, path_of rs).
Proof.
  intros Hr. unfold firstSegment. cbn [path_of flat_map app]. fold (path_of rs).
  destruct (str_eqb_spec (slash :: r ++ path_of rs) [slash]) as [E|E].
  { assert (E' : r ++ path_of rs = []) by congruence. apply app_eq_nil in E' as [-> Hp].
    rewrite Hp. now destruct rs. }
  cbn [tl]. unfold seg_of. assert (Hs : match r, rs with [], [] => [slash] | _, _ => pathUnescape r end = pathUnescape r).
  { destruct r, rs; try reflexivity. now contradict E. }
  rewrite Hs. destruct rs as [|r' rs].
  - cbn [path_of flat_map]. rewrite app_nil_r, IndexByte_none by exact Hr. now rewrite firstn_all, skipn_all.
  - cbn [path_of flat_map app]. rewrite IndexByte_app by exact Hr.
    now rewrite firstn_length_app, skipn_length_app.
Qed.

(** * The tree finds the preferred pattern *)

Section Match.
Context {H : Type}.
Implicit Types (n c : routingNode H) (l : pattern * H).

Definition below n l : Prop := exists ks, lookup n ks = Some l.

(** The leaves of a node at depth [k] are at the keys of their patterns. *)
Definition keyed (k : nat) n : Prop :=
  forall ks l, lookup n ks = Some l -> ks = map key (skipn k (segments (fst l))) /\ plain (fst l) = true.

(** Every node below has a leaf. *)
Inductive live n : Prop :=
| Live : (forall k c, findChild n k = Some c -> live c /\ exists l, below c l) -> live n.

(** No pattern below has a multi wildcard. *)
Definition star_free n : Prop := forall l, below n l -> no_multis (fst l) = true.

Definition suffix (k : nat) l : list segment := skipn k (segments (fst l)).

Lemma skipn_cons {A} k (l : list A) x t : skipn k l = x :: t -> skipn (S k) l = t.
Proof.
  revert l. induction k as [|k IH]; intros [|y l] E; try discriminate E.
  - now injection E.
  - cbn [skipn] in E. apply IH in E. exact E.
Qed.

Lemma keyed_child k n ck c : keyed k n -> findChild n ck = Some c -> keyed (S k) c.
Proof.
  intros Hk Hc ks l Hl. destruct (Hk (ck :: ks) l) as [E Hp]; [cbn; now rewrite Hc|].
  split; [|exact Hp]. destruct (skipn k (segments (fst l))) as [|sg t] eqn:Es; [discriminate E|].
  apply skipn_cons in Es. rewrite Es. now injection E.
Qed.

Lemma live_child n k c : live n -> findChild n k = Some c -> live c /\ exists l, below c l.
Proof. intros [Hl]. apply Hl. Qed.

Lemma below_child n k c l : findChild n k = Some c -> below c l -> below n l.
Proof. intros Hc [ks Hl]. exists (k :: ks). cbn. now rewrite Hc. Qed.

(** A leaf under a child has the child's key at its head, and conversely. *)
Lemma child_suffix k n ck c l :
  keyed k n -> findChild n ck = Some c -> below c l ->
  exists sg, suffix k l = sg :: suffix (S k) l /\ key sg = ck.
Proof.
  intros Hk Hc [ks Hl]. destruct (Hk (ck :: ks) l) as [E _]; [cbn; now rewrite Hc|].
  unfold suffix. destruct (skipn k (segments (fst l))) as [|sg t] eqn:Es; [discriminate E|].
  exists sg. apply skipn_cons in Es as Es'. rewrite Es'. split; [reflexivity|now injection E].
Qed.

Lemma suffix_child k n l sg t :
  keyed k n -> below n l -> suffix k l = sg :: t ->
  t = suffix (S k) l /\ exists c, findChild n (key sg) = Some c /\ below c l.
Proof.
  intros Hk [ks Hl] Es. destruct (Hk ks l Hl) as [E _]. unfold suffix in *. rewrite Es in E.
  split; [symmetry; now apply skipn_cons in Es|]. subst ks. cbn in Hl.
  destruct (findChild n (key sg)) as [c|] eqn:Ec; [|discriminate Hl]. exists c. split; [reflexivity|].
  now exists (map key t).
Qed.

Lemma suffix_plain k n l sg :
  keyed k n -> below n l -> In sg (suffix k l) -> plain_segment sg = true.
Proof.
  intros Hk [ks Hl] Hi. destruct (Hk ks l Hl) as [_ Hp]. unfold plain in Hp.
  apply andb_true_iff in Hp as [_ Hp]. apply (forallb_skipn _ k) in Hp.
  rewrite forallb_forall in Hp. now apply Hp.
Qed.

Lemma suffix_multi k n l sg t :
  keyed k n -> below n l -> suffix k l = sg :: t -> multi sg = true -> t = [] /\ sg = lastSegment (fst l).
Proof.
  intros Hk [ks Hl] Es Hm. destruct (Hk ks l Hl) as [_ Hp]. unfold plain in Hp.
  rewrite !andb_true_iff in Hp. destruct Hp as [[_ Hp] _]. apply (multi_last_skipn k) in Hp.
  unfold suffix in Es. rewrite Es in Hp. assert (t = []) as ->.
  { destruct t as [|sg' t]; [reflexivity|]. cbn [multi_last] in Hp. now rewrite Hm in Hp. }
  split; [reflexivity|]. unfold lastSegment.
  rewrite <- (last_skipn k) by (rewrite Es; discriminate). now rewrite Es.
Qed.

Lemma suffix_no_multis k n l sg : star_free n -> below n l -> In sg (suffix k l) -> multi sg = false.
Proof.
  intros Hs Hn Hi. specialize (Hs l Hn). apply (forallb_skipn _ k) in Hs. rewrite forallb_forall in Hs.
  now apply negb_true_iff, Hs.
Qed.

Lemma star_free_child n k c : star_free n -> findChild n k = Some c -> star_free c.
Proof. intros Hs Hc l Hl. exact (Hs l (below_child _ _ _ _ Hc Hl)). Qed.

(** The kinds of key. *)
Lemma key_cases sg :
  plain_segment sg = true ->
  multi sg = true /\ key sg = [star] \/
  multi sg = false /\ wild sg = true /\ key sg = [] \/
  multi sg = false /\ wild sg = false /\ key sg = seg_s sg /\ key sg <> [] /\ key sg <> [star].
Proof.
  unfold plain_segment, key. destruct (multi sg), (wild sg); cbn [negb andb]; try tauto; try discriminate.
  intros Hp. apply andb_true_iff in Hp as [Hn Hs]. apply negb_true_iff, str_eqb_neq in Hs.
  right. right. repeat split; [now intros E; rewrite E in Hn|exact Hs].
Qed.

(** What a search may answer: among the candidates that match, one that stands in [R] to
    all of them; [tail] is what is left of a pattern. *)
Definition answers_by (R : pattern * H -> pattern * H -> Prop) (tail : pattern * H -> list segment)
    (cand : pattern * H -> Prop) (raws ms : list (list Z)) (f : found H) : Prop :=
  match f with
  | Found l ms' => cand l /\ (exists vs, seg_match (tail l) raws = Some vs /\ ms' = ms ++ vs) /\
      forall l', cand l' -> seg_match (tail l') raws <> None -> R l l'
  | Missing => forall l', cand l' -> seg_match (tail l') raws = None
  | NilPattern => False
  end.

Definition answers (tail : pattern * H -> list segment) :=
  answers_by (fun l l' => prefers (tail l) (tail l')) tail.

(** The three steps of [matchPath] at a node, each over the patterns of its kind. *)
Definition of_kind n (k r : nat) l : Prop :=
  below n l /\ exists sg, suffix k l = sg :: suffix (S k) l /\ rank sg = r.

Lemma literal_step n k r rs ms sub :
  keyed k n -> seg_of r rs <> [] -> seg_of r rs <> [star] \/ star_free n ->
  (forall c, findChild n (seg_of r rs) = Some c -> answers (suffix (S k)) (below c) rs ms (sub c)) ->
  answers (suffix k) (of_kind n k 0) (r :: rs) ms (on_child (findChild n (seg_of r rs)) sub).
Proof.
  intros Hk H1 H2 Hsub. set (x := seg_of r rs) in *.
  assert (Hc : forall l, of_kind n k 0 l -> exists sg, suffix k l = sg :: suffix (S k) l /\ rank sg = O /\
      seg_match (suffix k l) (r :: rs) = (if str_eqb x (seg_s sg) then seg_match (suffix (S k) l) rs else None) /\
      (x = seg_s sg -> exists c, findChild n x = Some c /\ below c l)).
  { intros l (Hl & sg & Es & Hr). exists sg. split; [exact Es|]. split; [exact Hr|].
    unfold rank in Hr. destruct (multi sg) eqn:Em, (wild sg) eqn:Ew; try discriminate Hr.
    rewrite Es. split; [cbn [seg_match]; now rewrite Em, Ew|]. intros Hx.
    destruct (suffix_child k n l sg _ Hk Hl Es) as (_ & c & Hc & Hlc).
    unfold key in Hc. rewrite Em, Ew, <- Hx in Hc. eauto. }
  assert (Hkind : forall c l, findChild n x = Some c -> below c l -> of_kind n k 0 l).
  { intros c l Ec Hl. pose proof (below_child _ _ _ _ Ec Hl) as Hn.
    destruct (child_suffix k n x c l Hk Ec Hl) as (sg & Es & Ek). split; [exact Hn|]. exists sg.
    split; [exact Es|]. unfold rank.
    assert (Hi : In sg (suffix k l)) by (rewrite Es; now left).
    destruct (key_cases sg) as [[Em E]|[(_ & _ & E)|(Em & Ew & _)]];
      [exact (suffix_plain k n l sg Hk Hn Hi)| |congruence|now rewrite Em, Ew].
    destruct H2 as [H2|H2]; [congruence|]. pose proof (suffix_no_multis k n l sg H2 Hn Hi). congruence. }
  destruct (findChild n x) as [c|] eqn:Ec; cbn [on_child].
  - specialize (Hsub c eq_refl). unfold answers, answers_by in *. destruct (sub c) as [l ms'| |]; [|..].
    + destruct Hsub as (Hl & (vs & Hv & ->) & Hp). specialize (Hkind c l eq_refl Hl).
      destruct (Hc l Hkind) as (sg & Es & Hr & Hm & Hx).
      assert (Hxs : x = seg_s sg).
      { destruct Hkind as (_ & sg' & Es' & _). rewrite Es in Es'. injection Es' as <-.
        destruct (child_suffix k n x c l Hk Ec Hl) as (sg' & Es' & Ek). rewrite Es in Es'. injection Es' as <-.
        unfold key, rank in *. now destruct (multi sg), (wild sg). }
      split; [exact Hkind|split].
      * exists vs. rewrite Hm, Hxs, str_eqb_refl. now split.
      * intros l' Hl' Hm'. destruct (Hc l' Hl') as (sg' & Es' & Hr' & Em' & Hx').
        rewrite Em' in Hm'. destruct (str_eqb_spec x (seg_s sg')) as [Hxs'|]; [|contradiction].
        destruct (Hx' Hxs') as (c' & Ec' & Hlc'). apply Some_inj in Ec' as <-.
        rewrite Es, Es'. right. split; [congruence|]. now apply Hp.
    + intros l' Hl'. destruct (Hc l' Hl') as (sg' & Es' & _ & -> & Hx').
      destruct (str_eqb_spec x (seg_s sg')) as [Hxs'|]; [|reflexivity].
      destruct (Hx' Hxs') as (c' & Ec' & Hlc'). apply Some_inj in Ec' as <-. now apply Hsub.
    + exact Hsub.
  - intros l' Hl'. destruct (Hc l' Hl') as (sg' & Es' & _ & -> & Hx').
    destruct (str_eqb_spec x (seg_s sg')) as [Hxs'|]; [|reflexivity].
    destruct (Hx' Hxs') as (c' & Ec' & _). discriminate Ec'.
Qed.

Lemma wild_step k n r rs ms sub :
  keyed k n ->
  (forall c, findChild n [] = Some c -> answers (suffix (S k)) (below c) rs (ms ++ [seg_of r rs]) (sub c)) ->
  answers (suffix k) (of_kind n k 1) (r :: rs) ms
    (if negb (str_eqb (seg_of r rs) [slash]) then on_child (emptyChild n) sub else Missing).
Proof.
  intros Hk Hsub. set (x := seg_of r rs) in *.
  assert (Hc : forall l, of_kind n k 1 l -> exists sg, suffix k l = sg :: suffix (S k) l /\ rank sg = 1%nat /\
      seg_match (suffix k l) (r :: rs) =
        (if str_eqb x [slash] then None else option_map (cons x) (seg_match (suffix (S k) l) rs)) /\
      exists c, findChild n [] = Some c /\ below c l).
  { intros l (Hl & sg & Es & Hr). exists sg. split; [exact Es|]. split; [exact Hr|].
    unfold rank in Hr. destruct (multi sg) eqn:Em, (wild sg) eqn:Ew; try discriminate Hr.
    destruct (suffix_child k n l sg _ Hk Hl Es) as (_ & c & Hc & Hlc).
    unfold key in Hc. rewrite Em, Ew in Hc. rewrite Es. cbn [seg_match]. rewrite Em, Ew. eauto. }
  assert (Hkind : forall c l, findChild n [] = Some c -> below c l -> of_kind n k 1 l).
  { intros c l Ec Hl. pose proof (below_child _ _ _ _ Ec Hl) as Hn.
    destruct (child_suffix k n [] c l Hk Ec Hl) as (sg & Es & Ek). split; [exact Hn|]. exists sg.
    split; [exact Es|]. unfold rank.
    destruct (key_cases sg) as [[_ E]|[(Em & Ew & _)|(_ & _ & _ & E & _)]];
      [apply (suffix_plain k n l sg Hk Hn); rewrite Es; now left|congruence|now rewrite Em, Ew|congruence]. }
  destruct (str_eqb_spec x [slash]) as [Hx|Hx]; cbn [negb].
  { intros l Hl. destruct (Hc l Hl) as (sg & _ & _ & -> & _). reflexivity. }
  change (emptyChild n) with (findChild n []). destruct (findChild n []) as [c|] eqn:Ec; cbn [on_child].
  - specialize (Hsub c eq_refl). unfold answers, answers_by in *. destruct (sub c) as [l ms'| |]; [| |exact Hsub].
    + destruct Hsub as (Hl & (vs & Hv & ->) & Hp). specialize (Hkind c l eq_refl Hl).
      destruct (Hc l Hkind) as (sg & Es & Hr & Hm & _).
      split; [exact Hkind|split].
      * exists (x :: vs). rewrite Hm, Hv. split; [reflexivity|now rewrite <- app_assoc].
      * intros l' Hl' Hm'. destruct (Hc l' Hl') as (sg' & Es' & Hr' & Em' & c' & Ec' & Hlc').
        apply Some_inj in Ec' as <-. rewrite Es, Es'. right. split; [congruence|]. apply Hp; [exact Hlc'|].
        intros En. apply Hm'. now rewrite Em', En.
    + intros l' Hl'. destruct (Hc l' Hl') as (sg' & Es' & _ & -> & c' & Ec' & Hlc').
      apply Some_inj in Ec' as <-. now rewrite Hsub.
  - intros l' Hl'. destruct (Hc l' Hl') as (sg' & _ & _ & _ & c' & Ec' & _). discriminate Ec'.
Qed.

Definition multi_answer (path : list Z) (ms : list (list Z)) (c : routingNode H) : found H :=
  match leaf c with
  | None => NilPattern
  | Some (p, h) =>
      Found (p, h) (if nonempty (seg_s (lastSegment p)) then ms ++ [pathUnescape (tl path)] else ms)
  end.

Lemma multi_step k n r rs ms :
  keyed k n -> live n ->
  answers (suffix k) (of_kind n k 2) (r :: rs) ms
    (on_child (findChild n [star]) (multi_answer (path_of (r :: rs)) ms)).
Proof.
  intros Hk Hlive.
  assert (Hc : forall l, of_kind n k 2 l -> suffix k l = [lastSegment (fst l)] /\ multi (lastSegment (fst l)) = true /\
      exists c, findChild n [star] = Some c /\ leaf c = Some l).
  { intros l (Hl & sg & Es & Hr). unfold rank in Hr. destruct (multi sg) eqn:Em; [|now destruct (wild sg)].
    destruct (suffix_multi k n l sg _ Hk Hl Es Em) as [Et ->]. rewrite Es, Et. split; [reflexivity|].
    split; [exact Em|]. destruct (suffix_child k n l _ _ Hk Hl Es) as (_ & c & Hc & ks & Hlc).
    unfold key in Hc. rewrite Em in Hc. exists c. split; [exact Hc|].
    destruct (keyed_child k n _ c Hk Hc ks l Hlc) as [Eks _]. fold (suffix (S k) l) in Eks.
    rewrite Et in Eks. now subst ks. }
  assert (Hm : forall l, of_kind n k 2 l -> seg_match (suffix k l) (r :: rs) =
      Some (if nonempty (seg_s (lastSegment (fst l))) then [pathUnescape (tl (path_of (r :: rs)))] else [])).
  { intros l Hl. destruct (Hc l Hl) as (-> & Em & _). cbn [seg_match]. now rewrite Em. }
  destruct (findChild n [star]) as [c|] eqn:Ec; cbn [on_child].
  - destruct (live_child n _ c Hlive Ec) as (_ & l & ks & Hl).
    assert (Hkind : of_kind n k 2 l).
    { assert (Hn : below n l) by (exists ([star] :: ks); cbn [lookup]; now rewrite Ec).
      destruct (child_suffix k n [star] c l Hk Ec) as (sg & Es & Ek); [now exists ks|]. split; [exact Hn|].
      exists sg. split; [exact Es|]. unfold rank.
      destruct (key_cases sg) as [[-> _]|[(_ & _ & E)|(_ & _ & _ & _ & E)]];
        [apply (suffix_plain k n l sg Hk Hn); rewrite Es; now left|reflexivity|congruence|congruence]. }
    destruct (Hc l Hkind) as (Es & _ & c' & Ec' & El). apply Some_inj in Ec' as <-.
    unfold multi_answer, answers, answers_by. rewrite El. destruct l as [p h]. split; [exact Hkind|split].
    + eexists. split; [exact (Hm _ Hkind)|]. cbn [fst]. case_if; [reflexivity|now rewrite app_nil_r].
    + intros l' Hl' _. destruct (Hc l' Hl') as (-> & Em' & _). destruct (Hc _ Hkind) as (-> & Em & _).
      right. unfold rank. now rewrite Em, Em'.
  - intros l Hl. destruct (Hc l Hl) as (_ & _ & c & Ec' & _). discriminate Ec'.
Qed.

(** A search that failed over to the next one. *)
Lemma or_else_answers R tail (P Q : pattern * H -> Prop) raws ms f1 f2 :
  answers_by R tail P raws ms f1 -> answers_by R tail Q raws ms f2 ->
  (forall l l', P l -> Q l' -> R l l') ->
  answers_by R tail (fun l => P l \/ Q l) raws ms (or_else f1 f2).
Proof.
  intros H1 H2 Hp. unfold answers_by in *. destruct f1 as [l ms1| |]; cbn [or_else]; [| |contradiction].
  - destruct H1 as (Hl & (vs & Hv & ->) & H1). split; [now left|]. split; [now exists vs|].
    intros l' [Hl'|Hl'] Hm'; [now apply H1|now apply Hp].
  - destruct f2 as [l ms2| |]; [| |contradiction].
    + destruct H2 as (Hl & Hv & H2). split; [now right|]. split; [exact Hv|].
      intros l' [Hl'|Hl'] Hm'; [|now apply H2]. now rewrite H1 in Hm'.
    + intros l' [Hl'|Hl']; auto.
Qed.

Lemma answers_ext (R R' : pattern * H -> pattern * H -> Prop) tail (P Q : pattern * H -> Prop) raws ms f :
  (forall l, P l -> Q l) -> (forall l, Q l -> seg_match (tail l) raws <> None -> P l) ->
  (forall l l', P l -> P l' -> R l l' -> R' l l') ->
  answers_by R tail P raws ms f -> answers_by R' tail Q raws ms f.
Proof.
  intros H12 H21 HR Hf. unfold answers_by in *. destruct f as [l ms'| |]; [| |contradiction].
  - destruct Hf as (Hl & Hv & Hf). repeat split; auto.
  - intros l Hl. destruct (seg_match (tail l) raws) eqn:E; [|reflexivity].
    rewrite <- E. apply Hf, H21; [exact Hl|]. congruence.
Qed.

Lemma prefers_kind n k r r' l l' : (r < r')%nat -> of_kind n k r l -> of_kind n k r' l' -> prefers (suffix k l) (suffix k l').
Proof. intros Hr (_ & sg & -> & Hs) (_ & sg' & -> & Hs'). left. lia. Qed.

(** [matchPath] at a node answers for all the patterns below it. *)
Lemma matchPath_answers stars raws : forall fuel k n ms,
  tame stars raws -> (stars = true -> star_free n) -> keyed k n -> live n ->
  (length (path_of raws) < fuel)%nat ->
  answers (suffix k) (below n) raws ms (matchPath fuel (path_of raws) ms n).
Proof.
  induction raws as [|r rs IH]; intros fuel k n ms Ht Hsf Hk Hl Hf; (destruct fuel as [|fuel]; [lia|]).
  - cbn [matchPath path_of flat_map nonempty negb]. destruct (leaf n) as [l|] eqn:El.
    + assert (Hb : below n l) by now exists []. destruct (Hk [] l El) as [E _].
      destruct (skipn k (segments (fst l))) eqn:Es; [|discriminate E].
      split; [exact Hb|]. unfold suffix. rewrite Es. split; [exists []; now rewrite app_nil_r|]. now intros.
    + intros l [ks Hb]. destruct (Hk ks l Hb) as [E _]. unfold suffix.
      destruct (skipn k (segments (fst l))); [|reflexivity]. subst ks. cbn in Hb. congruence.
  - destruct Ht as (Hs & H1 & H2 & Ht). cbn [matchPath]. rewrite firstSegment_path by exact Hs.
    replace (nonempty (path_of (r :: rs))) with true by reflexivity. cbn [negb].
    assert (Hlen : (length (path_of rs) < fuel)%nat).
    { cbn [path_of flat_map app length] in Hf. rewrite length_app in Hf. unfold path_of. lia. }
    apply (answers_ext (fun l l' => prefers (suffix k l) (suffix k l')) _ _
             (fun l => of_kind n k 0 l \/ (of_kind n k 1 l \/ of_kind n k 2 l))).
    { now intros l [[? _]|[[? _]|[? _]]]. }
    { intros l Hb Hm. pose proof Hb as [ks Hlk]. destruct (suffix k l) as [|sg t] eqn:Es; [now contradict Hm|].
      destruct (suffix_child k n l sg t Hk Hb Es) as [-> _].
      assert (Hkd : of_kind n k (rank sg) l) by (split; [exact Hb|]; now exists sg).
      unfold rank in Hkd. destruct (multi sg), (wild sg); tauto. }
    { auto. }
    apply or_else_answers; [|apply or_else_answers|].
    + apply literal_step; try assumption; [destruct stars; auto|]. intros c Hc.
      destruct (live_child _ _ _ Hl Hc). apply IH; try assumption; [|exact (keyed_child _ _ _ _ Hk Hc)].
      intros E. exact (star_free_child _ _ _ (Hsf E) Hc).
    + apply wild_step; try assumption. intros c Hc.
      destruct (live_child _ _ _ Hl Hc). apply IH; try assumption; [|exact (keyed_child _ _ _ _ Hk Hc)].
      intros E. exact (star_free_child _ _ _ (Hsf E) Hc).
    + now apply multi_step.
    + intros l l' Hl1 Hl2. now apply (prefers_kind n k 1 2); [lia| |].
    + intros l l' Hl1 [Hl2|Hl2]; [now apply (prefers_kind n k 0 1); [lia| |]|now apply (prefers_kind n k 0 2); [lia| |]].
Qed.
End Match.

(** * Hosts and methods *)

Section Root.
Context {H : Type}.
Implicit Types (t n c : routingNode H) (l : pattern * H) (L : list (pattern * H)).

Definition full_keys (p : pattern) : list (list Z) := host p :: method p :: map key (segments p).

(** The tree holds exactly the registered patterns, each at its keys. *)
Definition stored t L : Prop :=
  live t /\ Forall (fun l => plain (fst l) = true) L /\
  forall ks l, lookup t ks = Some l <-> In l L /\ ks = full_keys (fst l).

Definition segs_of l : list segment := segments (fst l).

(** How a pattern takes a method: by name, GET for HEAD, or any method. *)
Definition method_class (m : list Z) (p : pattern) : option nat :=
  if str_eqb (method p) m then Some 0%nat
  else if str_eqb m (bytes "HEAD") && str_eqb (method p) (bytes "GET") then Some 1%nat
  else if str_eqb (method p) [] then Some 2%nat
  else None.

Definition host_class (h : list Z) (p : pattern) : option nat :=
  if nonempty h && str_eqb (host p) h then Some 0%nat
  else if str_eqb (host p) [] then Some 1%nat
  else None.

(** The pattern takes the request. *)
Definition takes (h m : list Z) (raws : list (list Z)) (p : pattern) : Prop :=
  host_class h p <> None /\ method_class m p <> None /\ seg_match (segments p) raws <> None.

(** The order of the search: host, then method, then the segments. *)
Definition better (h m : list Z) (p q : pattern) : Prop :=
  match host_class h p, host_class h q with
  | Some a, Some b =>
      (a < b)%nat \/ a = b /\
      match method_class m p, method_class m q with
      | Some c, Some d => (c < d)%nat \/ c = d /\ prefers (segments p) (segments q)
      | _, _ => False
      end
  | _, _ => False
  end.

Lemma stored_keyed t L h c m n :
  stored t L -> findChild t h = Some c -> findChild c m = Some n ->
  keyed 0 n /\ live n /\ forall l, below n l <-> In l L /\ host (fst l) = h /\ method (fst l) = m.
Proof.
  intros (Hl & Hp & Hs) Hc Hn.
  assert (Hk : forall ks, lookup t (h :: m :: ks) = lookup n ks) by (intros; cbn; now rewrite Hc, Hn).
  split; [|split].
  - intros ks l E. rewrite <- Hk in E. apply Hs in E as [Hi E]. unfold full_keys in E.
    injection E as _ _ ->. split; [reflexivity|]. rewrite List.Forall_forall in Hp. now apply Hp.
  - destruct (live_child _ _ _ Hl Hc) as [Hlc _]. now destruct (live_child _ _ _ Hlc Hn).
  - intros l. split.
    + intros [ks E]. rewrite <- Hk in E. apply Hs in E as [Hi E]. unfold full_keys in E.
      injection E as -> -> _. auto.
    + intros (Hi & <- & <-). exists (map key (segments (fst l))). rewrite <- Hk. now apply Hs.
Qed.

(** The patterns of one host and one method. *)
Definition of_class L h m l : Prop := In l L /\ host (fst l) = h /\ method (fst l) = m.

(** The paths a router can be asked for: no segment is a star unless no pattern has a multi
    wildcard. *)
Definition askable L (raws : list (list Z)) : Prop :=
  exists stars, tame stars raws /\ (stars = true -> forallb (fun l => no_multis (fst l)) L = true).

Lemma match_path_answers t L h m raws :
  stored t L -> askable L raws ->
  answers segs_of (of_class L h m) raws [] (match_path (path_of raws) (child_of (findChild t h) m)).
Proof.
  intros Hs (stars & Ht & Hsf). unfold match_path, child_of.
  destruct (findChild t h) as [c|] eqn:Ec; [destruct (findChild c m) as [n|] eqn:En|]; cbn [on_child].
  - destruct (stored_keyed t L h c m n Hs Ec En) as (Hk & Hl & Hb).
    apply (answers_ext (fun l l' => prefers (segs_of l) (segs_of l')) _ _ (below n)).
    + intros l Hi. now apply Hb.
    + intros l Hi _. now apply Hb.
    + auto.
    + apply (matchPath_answers stars raws _ 0 n []); try assumption; [|lia].
      intros E l Hi. apply Hb in Hi as [Hi _]. specialize (Hsf E). rewrite forallb_forall in Hsf. now apply Hsf.
  - intros l (Hi & <- & <-). destruct Hs as (_ & _ & Hs).
    assert (E : lookup t (full_keys (fst l)) = Some l) by now apply Hs.
    unfold full_keys in E. cbn in E. now rewrite Ec, En in E.
  - intros l (Hi & <- & <-). destruct Hs as (_ & _ & Hs).
    assert (E : lookup t (full_keys (fst l)) = Some l) by now apply Hs.
    unfold full_keys in E. cbn in E. now rewrite Ec in E.
Qed.

Definition better_method (m : list Z) l l' : Prop :=
  match method_class m (fst l), method_class m (fst l') with
  | Some c, Some d => (c < d)%nat \/ c = d /\ prefers (segs_of l) (segs_of l')
  | _, _ => False
  end.

Lemma class_same m p : method p = m -> method_class m p = Some 0%nat.
Proof. intros <-. unfold method_class. now rewrite str_eqb_refl. Qed.

Lemma class_get m p : m = bytes "HEAD" -> method p = bytes "GET" -> method_class m p = Some 1%nat.
Proof. intros -> E. unfold method_class. now rewrite E. Qed.

Lemma class_any m p : m <> [] -> method p = [] -> method_class m p = Some 2%nat.
Proof.
  intros Hm E. unfold method_class. rewrite E, (neq_str_eqb [] m) by congruence. now rewrite andb_false_r.
Qed.

(** The ways a method is taken. *)
Lemma class_cases m p :
  method_class m p <> None ->
  method p = m \/ m = bytes "HEAD" /\ method p = bytes "GET" \/ method p = [].
Proof.
  unfold method_class. destruct (str_eqb_spec (method p) m); [auto|].
  destruct (str_eqb_spec m (bytes "HEAD")), (str_eqb_spec (method p) (bytes "GET")); cbn [andb];
    destruct (str_eqb_spec (method p) []); auto; now intros.
Qed.

(** Among patterns of one method, the preferred one is the better one. *)
Lemma of_class_better L h m mm k raws (f : found H) :
  (forall l, of_class L h mm l -> method_class m (fst l) = Some k) ->
  answers segs_of (of_class L h mm) raws [] f ->
  answers_by (better_method m) segs_of (of_class L h mm) raws [] f.
Proof.
  intros Hk. apply answers_ext; [auto|auto|]. intros l l' Hl Hl' Hp.
  unfold better_method. rewrite (Hk l Hl), (Hk l' Hl'). auto.
Qed.

Definition takes_method L h m l : Prop := In l L /\ host (fst l) = h /\ method_class m (fst l) <> None.

Lemma matchMethodAndPath_answers t L h m raws :
  stored t L -> askable L raws -> m <> [] ->
  answers_by (better_method m) segs_of (takes_method L h m) raws []
    (matchMethodAndPath (findChild t h) m (path_of raws)).
Proof.
  intros Hs Ht Hm. unfold matchMethodAndPath.
  set (head := str_eqb_spec m (bytes "HEAD")).
  pose proof (fun mm => match_path_answers t L h mm raws Hs Ht) as Ha.
  apply (answers_ext (better_method m) _ _
    (fun l => of_class L h m l \/ ((m = bytes "HEAD" /\ of_class L h (bytes "GET") l) \/ of_class L h [] l))).
  - intros l [Hl|[[E Hl]|Hl]]; destruct Hl as (Hi & Hh & Hme); repeat split; try assumption.
    + now rewrite class_same.
    + now rewrite class_get.
    + now rewrite class_any.
  - intros l (Hi & Hh & Hc) _. apply class_cases in Hc as [E|[[E1 E2]|E]].
    + left. now repeat split.
    + right. left. now repeat split.
    + right. right. now repeat split.
  - auto.
  - apply or_else_answers; [|apply or_else_answers|].
    + apply (of_class_better L h m m 0); [|apply Ha]. intros l (_ & _ & E). now apply class_same.
    + destruct head as [E|E].
      * apply (answers_ext (better_method m) _ _ (of_class L h (bytes "GET"))); [auto|now intros l [_ ?]|auto|].
        apply (of_class_better L h m _ 1); [|apply Ha]. intros l (_ & _ & El). now apply class_get.
      * intros l [E' _]. contradiction.
    + apply (of_class_better L h m [] 2); [|apply Ha]. intros l (_ & _ & E). now apply class_any.
    + intros l l' [E (_ & _ & E1)] (_ & _ & E2). unfold better_method.
      rewrite (class_get m) by assumption. rewrite (class_any m) by assumption. left. lia.
    + intros l l' (_ & _ & E1) [[E (_ & _ & E2)]|(_ & _ & E2)]; unfold better_method; rewrite (class_same m) by assumption.
      * rewrite (class_get m) by assumption. left. lia.
      * rewrite (class_any m) by assumption. left. lia.
Qed.

Lemma better_hosts h m l l' a b :
  host_class h (fst l) = Some a -> host_class h (fst l') = Some b ->
  (a < b)%nat \/ a = b /\ better_method m l l' -> better h m (fst l) (fst l').
Proof. intros Ha Hb Hab. unfold better. now rewrite Ha, Hb. Qed.

Lemma host_same h p : h <> [] -> host p = h -> host_class h p = Some 0%nat.
Proof. intros Hh <-. unfold host_class. destruct (host p); [contradiction|]. now rewrite str_eqb_refl. Qed.

Lemma host_none h p : host p = [] -> host_class h p = Some 1%nat.
Proof. intros E. unfold host_class. rewrite E. now destruct h. Qed.

Lemma host_cases h p : host_class h p <> None -> h <> [] /\ host p = h \/ host p = [].
Proof.
  unfold host_class. destruct h as [|c h]; cbn [nonempty andb].
  - destruct (str_eqb_spec (host p) []); [auto|congruence].
  - destruct (str_eqb_spec (host p) (c :: h)); [left; split; [discriminate|assumption]|].
    destruct (str_eqb_spec (host p) []); [auto|congruence].
Qed.

(** The search over the whole tree. *)
Lemma match_answers t L h m raws :
  stored t L -> askable L raws -> m <> [] ->
  answers_by (fun l l' => better h m (fst l) (fst l')) segs_of
    (fun l => In l L /\ host_class h (fst l) <> None /\ method_class m (fst l) <> None) raws []
    (match_ t h m (path_of raws)).
Proof.
  intros Hs Ht Hm. unfold match_.
  pose proof (fun hh => matchMethodAndPath_answers t L hh m raws Hs Ht Hm) as Ha.
  apply (answers_ext (fun l l' => better h m (fst l) (fst l')) _ _
    (fun l => (h <> [] /\ takes_method L h m l) \/ takes_method L [] m l)).
  - intros l [[Hh (Hi & E & Hc)]|(Hi & E & Hc)]; repeat split; try assumption.
    + now rewrite host_same.
    + now rewrite host_none.
  - intros l (Hi & Hh & Hc) _. apply host_cases in Hh as [[Hh E]|E]; [left|right]; now repeat split.
  - auto.
  - apply or_else_answers.
    + destruct h as [|c h]; cbn [nonempty].
      * intros l [E _]. contradiction.
      * apply (answers_ext (better_method m) _ _ (takes_method L (c :: h) m));
          [intros l Hl; split; [discriminate|exact Hl]|now intros l [_ ?]| |apply Ha].
        intros l l' (_ & E & _) (_ & E' & _) Hb.
        apply (better_hosts _ _ _ _ 0 0); [now apply host_same..|auto].
    + change (emptyChild t) with (findChild t []).
      apply (answers_ext (better_method m) _ _ (takes_method L [] m)); [auto|auto| |apply Ha].
      intros l l' (_ & E & _) (_ & E' & _) Hb. apply (better_hosts _ _ _ _ 1 1); [now apply host_none..|auto].
    + intros l l' [Hh (_ & E & _)] (_ & E' & _).
      apply (better_hosts _ _ _ _ 0 1); [now apply host_same|now apply host_none|left; lia].
Qed.
End Root.

(** * How patterns compare *)

Lemma inverse_combine a b :
  inverseRelationship (combineRelationships a b) =
  combineRelationships (inverseRelationship a) (inverseRelationship b).
Proof. now destruct a, b. Qed.

Lemma combine_disjoint a b : combineRelationships a b = disjoint <-> a = disjoint \/ b = disjoint.
Proof. destruct a, b; vm_compute; split; intros E; first [discriminate|now auto|now destruct E]. Qed.

Lemma compareSegments_sym s1 s2 : compareSegments s2 s1 = inverseRelationship (compareSegments s1 s2).
Proof.
  unfold compareSegments.
  destruct (multi s1), (multi s2), (wild s1), (wild s2); cbn [andb]; try reflexivity;
    try (now case_if).
  destruct (str_eqb_spec (seg_s s1) (seg_s s2)) as [->|]; [now rewrite str_eqb_refl|].
  now rewrite neq_str_eqb by congruence.
Qed.

Lemma compare_loop_sym segs1 : forall segs2 rel,
  compare_loop (inverseRelationship rel) segs2 segs1 =
  let '(r, a, b) := compare_loop rel segs1 segs2 in (inverseRelationship r, b, a).
Proof.
  induction segs1 as [|s1 segs1 IH]; intros [|s2 segs2] rel; try reflexivity.
  cbn [compare_loop]. rewrite compareSegments_sym, <- inverse_combine.
  specialize (IH segs2 (combineRelationships rel (compareSegments s1 s2))).
  now destruct (combineRelationships rel (compareSegments s1 s2)).
Qed.

Lemma comparePaths_sym p q : comparePaths q p = inverseRelationship (comparePaths p q).
Proof.
  unfold comparePaths. rewrite (Nat.eqb_sym (length (segments q))).
  rewrite <- andb_assoc, (andb_comm (negb (multi (lastSegment q)))), andb_assoc. case_if; [reflexivity|].
  change equivalent with (inverseRelationship equivalent) at 1. rewrite compare_loop_sym.
  destruct (compare_loop equivalent (segments p) (segments q)) as [[r a] b].
  assert (Hend : (if (length b <? length a)%nat && multi (lastSegment q)
      then combineRelationships (inverseRelationship r) moreGeneral
      else if (length a <? length b)%nat && multi (lastSegment p)
      then combineRelationships (inverseRelationship r) moreSpecific else disjoint) =
    inverseRelationship (if (length a <? length b)%nat && multi (lastSegment p)
      then combineRelationships r moreGeneral
      else if (length b <? length a)%nat && multi (lastSegment q)
      then combineRelationships r moreSpecific else disjoint)).
  { destruct (Nat.ltb_spec (length a) (length b)), (Nat.ltb_spec (length b) (length a)); try lia;
      cbn [andb]; try reflexivity; case_if; now rewrite ?inverse_combine. }
  destruct a, b; try reflexivity; exact Hend.
Qed.

Lemma compareMethods_sym p q : compareMethods q p = inverseRelationship (compareMethods p q).
Proof.
  unfold compareMethods.
  destruct (str_eqb_spec (method p) (method q)) as [->|Hne]; [now rewrite str_eqb_refl|].
  rewrite (neq_str_eqb (method q)) by congruence.
  destruct (str_eqb_spec (method p) []) as [E1|], (str_eqb_spec (method q) []) as [E2|]; try reflexivity; try congruence.
  destruct (str_eqb_spec (method p) (bytes "GET")) as [E1|], (str_eqb_spec (method q) (bytes "GET")) as [E2|],
    (str_eqb_spec (method p) (bytes "HEAD")) as [E3|], (str_eqb_spec (method q) (bytes "HEAD")) as [E4|];
    try reflexivity; congruence.
Qed.

Lemma comparePathsAndMethods_sym p q :
  comparePathsAndMethods q p = inverseRelationship (comparePathsAndMethods p q).
Proof.
  unfold comparePathsAndMethods. rewrite compareMethods_sym, comparePaths_sym.
  destruct (compareMethods p q); cbn [inverseRelationship]; try reflexivity; now rewrite inverse_combine.
Qed.

Lemma conflictsWith_sym p q : conflictsWith q p = conflictsWith p q.
Proof.
  unfold conflictsWith. rewrite comparePathsAndMethods_sym.
  destruct (str_eqb_spec (host p) (host q)) as [->|]; [rewrite str_eqb_refl|rewrite neq_str_eqb by congruence; reflexivity].
  now destruct (comparePathsAndMethods p q).
Qed.

(** ** Patterns that match one path *)

Definition ends_multi (segs : list segment) : bool := multi (last segs (mkSegment [] false false)).

Lemma ends_multi_cons sg segs : ends_multi segs = true -> ends_multi (sg :: segs) = true.
Proof. destruct segs; [discriminate|auto]. Qed.

(** A relationship to which something more specific has contributed, and nothing that rules
    out a common path. *)
Definition specific (r : relationship) : bool :=
  match r with moreSpecific | overlaps => true | _ => false end.

Lemma combine_specific a b : specific a = true -> b <> disjoint -> specific (combineRelationships a b) = true.
Proof. destruct a, b; intros H1 H2; try discriminate; try reflexivity; now contradict H2. Qed.

(** The comparison of two segments that match the same one. *)
Lemma compare_matching s1 s2 t1 t2 r rs :
  seg_match (s1 :: t1) (r :: rs) <> None -> seg_match (s2 :: t2) (r :: rs) <> None ->
  compareSegments s1 s2 <> disjoint /\
  ((rank s1 < rank s2)%nat -> compareSegments s1 s2 = moreSpecific) /\
  (rank s1 = rank s2 -> compareSegments s1 s2 = equivalent).
Proof.
  intros H1 H2. cbn [seg_match] in H1, H2. unfold compareSegments, rank in *.
  destruct (multi s1), (multi s2); cbn [andb]; try (repeat split; intros; (discriminate || reflexivity || lia || idtac)).
  all: try (destruct (wild s1); lia).
  all: try (destruct (wild s2); lia).
  all: destruct (wild s1), (wild s2); cbn [andb] in *; try (discriminate || reflexivity || lia).
  all: destruct (str_eqb_spec (seg_of r rs) [slash]) as [E|E]; try (now contradict H1); try (now contradict H2).
  all: try (destruct (str_eqb_spec (seg_of r rs) (seg_s s1)) as [E1|]; [|now contradict H1]).
  all: try (destruct (str_eqb_spec (seg_of r rs) (seg_s s2)) as [E2|]; [|now contradict H2]).
  all: try (rewrite neq_str_eqb by congruence).
  all: try (rewrite eq_str_eqb by congruence).
  all: try discriminate; try reflexivity; lia.
Qed.

(** What the loop leaves, over two patterns that match one path. *)
Definition loop_outcome (segs1 segs2 : list segment) (res : relationship * list segment * list segment) : Prop :=
  let '(rel, a, b) := res in
  (a = [] /\ b = [] /\ (specific rel = true \/ rel = equivalent)) \/
  (a = [] /\ b <> [] /\ ends_multi segs1 = true /\ specific rel = true) \/
  (a <> [] /\ b = [] /\ ends_multi segs2 = true /\ (specific rel = true \/ rel = equivalent)).

Lemma loop_outcome_cons s1 s2 segs1 segs2 res :
  loop_outcome segs1 segs2 res -> loop_outcome (s1 :: segs1) (s2 :: segs2) res.
Proof.
  destruct res as [[rel a] b]. intros [H|[(H1 & H2 & H3 & H4)|(H1 & H2 & H3 & H4)]].
  - now left.
  - right. left. auto using ends_multi_cons.
  - right. right. auto using ends_multi_cons.
Qed.

Lemma compare_loop_matching segs1 : forall segs2 raws rel,
  seg_match segs1 raws <> None -> seg_match segs2 raws <> None ->
  specific rel = true \/ rel = equivalent /\ prefers segs1 segs2 ->
  loop_outcome segs1 segs2 (compare_loop rel segs1 segs2).
Proof.
  assert (Hrel : forall rel segs1 segs2, specific rel = true \/ rel = equivalent /\ prefers segs1 segs2 ->
      specific rel = true \/ rel = equivalent) by tauto.
  induction segs1 as [|s1 segs1 IH]; intros segs2 raws rel H1 H2 Hr.
  - destruct raws; [|now contradict H1]. destruct segs2; [|now contradict H2]. left. cbn. eauto.
  - destruct raws as [|r rs]; [now contradict H1|]. destruct segs2 as [|s2 segs2]; [now contradict H2|].
    destruct (compare_matching s1 s2 segs1 segs2 r rs H1 H2) as (Hd & Hlt & Heq).
    set (rel' := combineRelationships rel (compareSegments s1 s2)).
    assert (Hr' : specific rel' = true \/ rel' = equivalent /\ prefers segs1 segs2 /\ rank s1 = rank s2).
    { unfold rel'. destruct Hr as [Hr|[-> [Hp|[He Hp]]]].
      - left. now apply combine_specific.
      - left. now rewrite Hlt.
      - right. now rewrite Heq. }
    assert (Hstep : compare_loop rel (s1 :: segs1) (s2 :: segs2) = compare_loop rel' segs1 segs2).
    { cbn [compare_loop]. fold rel'. destruct rel'; try reflexivity. destruct Hr' as [E|[E _]]; discriminate E. }
    rewrite Hstep. cbn [seg_match] in H1, H2. destruct (multi s1) eqn:E1, (multi s2) eqn:E2.
    + destruct segs1; [|now contradict H1]. destruct segs2; [|now contradict H2]. left. cbn. tauto.
    + destruct segs1; [|now contradict H1]. destruct Hr' as [Hr'|(_ & _ & Hk)].
      * destruct segs2; [left; cbn; tauto|]. right. left. cbn [compare_loop]. repeat split; auto; discriminate.
      * unfold rank in Hk. rewrite E1, E2 in Hk. now destruct (wild s2).
    + destruct segs2; [|now contradict H2]. destruct segs1 as [|s1' segs1]; [left; cbn; tauto|].
      right. right. cbn [compare_loop]. repeat split; [discriminate|exact E2|tauto].
    + apply loop_outcome_cons. apply (IH segs2 rs).
      * destruct (wild s1); [destruct (str_eqb (seg_of r rs) [slash]); [now contradict H1|]|
          destruct (str_eqb (seg_of r rs) (seg_s s1)); [|now contradict H1]]; intros E; now rewrite E in H1.
      * destruct (wild s2); [destruct (str_eqb (seg_of r rs) [slash]); [now contradict H2|]|
          destruct (str_eqb (seg_of r rs) (seg_s s2)); [|now contradict H2]]; intros E; now rewrite E in H2.
      * tauto.
Qed.

Lemma seg_match_length segs : forall raws,
  seg_match segs raws <> None -> ends_multi segs = false -> length segs = length raws.
Proof.
  induction segs as [|sg segs IH]; intros [|r rs] Hm He; try reflexivity; try now contradict Hm.
  cbn [seg_match] in Hm. destruct (multi sg) eqn:Em.
  - destruct segs; [|now contradict Hm]. unfold ends_multi in He. cbn in He. congruence.
  - cbn [length]. f_equal. apply IH.
    + destruct (wild sg); [destruct (str_eqb (seg_of r rs) [slash]); [now contradict Hm|]|
        destruct (str_eqb (seg_of r rs) (seg_s sg)); [|now contradict Hm]]; intros E; now rewrite E in Hm.
    + destruct (ends_multi segs) eqn:E; [|reflexivity]. now rewrite (ends_multi_cons sg) in He.
Qed.

(** The preferred of two patterns that match one path is not the more general one. *)
Lemma comparePaths_prefers p q raws :
  seg_match (segments p) raws <> None -> seg_match (segments q) raws <> None ->
  prefers (segments p) (segments q) ->
  specific (comparePaths p q) = true \/ comparePaths p q = equivalent.
Proof.
  intros Hp Hq Hpr. pose proof (compare_loop_matching (segments p) (segments q) raws equivalent Hp Hq
    (or_intror (conj eq_refl Hpr))) as Ho.
  unfold comparePaths, lastSegment. fold (ends_multi (segments p)) (ends_multi (segments q)).
  case_if.
  { rewrite !andb_true_iff, !negb_true_iff in Heqb. destruct Heqb as [[Hl H1] H2].
    apply Nat.eqb_neq in Hl. apply (seg_match_length _ _ Hp) in H1. apply (seg_match_length _ _ Hq) in H2. congruence. }
  destruct (compare_loop equivalent (segments p) (segments q)) as [[rel a] b].
  destruct Ho as [(-> & -> & H)|[(-> & Hb & H1 & H)|(Ha & -> & H1 & H)]]; [exact H| |].
  - destruct b; [contradiction|]. cbn [length]. replace (0 <? S (length b))%nat with true by reflexivity.
    rewrite H1. left. now apply combine_specific.
  - destruct a; [contradiction|]. cbn [length]. replace (0 <? S (length a))%nat with true by reflexivity.
    replace (S (length a) <? 0)%nat with false by reflexivity. rewrite H1. left. cbn [andb].
    destruct H as [H| ->]; [now apply combine_specific|reflexivity].
Qed.

Lemma prefers_total segs1 : forall segs2, prefers segs1 segs2 \/ prefers segs2 segs1.
Proof.
  induction segs1 as [|s1 segs1 IH]; intros [|s2 segs2]; cbn; auto.
  destruct (IH segs2), (Nat.lt_total (rank s1) (rank s2)) as [?|[?|?]]; auto.
Qed.

Lemma comparePaths_common p q raws :
  seg_match (segments p) raws <> None -> seg_match (segments q) raws <> None -> comparePaths p q <> disjoint.
Proof.
  intros Hp Hq. destruct (prefers_total (segments p) (segments q)) as [H|H].
  - destruct (comparePaths_prefers p q raws Hp Hq H) as [E|E]; intros E'; rewrite E' in E; discriminate E.
  - destruct (comparePaths_prefers q p raws Hq Hp H) as [E|E]; rewrite comparePaths_sym in E; intros E'; rewrite E' in E; discriminate E.
Qed.

Lemma compareMethods_classes m p q c d :
  method_class m p = Some c -> method_class m q = Some d ->
  (c = d -> compareMethods p q = equivalent) /\ ((c < d)%nat -> compareMethods p q = moreSpecific).
Proof.
  unfold method_class, compareMethods.
  destruct (str_eqb_spec (method p) m) as [Ep|Ep], (str_eqb_spec (method q) m) as [Eq|Eq].
  - intros [= <-] [= <-]. split; [|lia]. intros _. now rewrite eq_str_eqb by congruence.
  - destruct (str_eqb_spec m (bytes "HEAD")) as [Em|Em], (str_eqb_spec (method q) (bytes "GET")) as [Eg|Eg]; cbn [andb].
    1: { intros [= <-] [= <-]. split; [lia|]. intros _. rewrite Ep, Eg, Em. reflexivity. }
    all: destruct (str_eqb_spec (method q) []) as [E0|E0]; [|discriminate].
    all: intros [= <-] [= <-]; split; [lia|]; intros _; rewrite E0, Ep in *.
    all: rewrite (neq_str_eqb m) by congruence; reflexivity.
  - intros H1 [= <-]. assert (0 < c)%nat; [|lia]. repeat case_if_in H1; try discriminate H1; apply Some_inj in H1; lia.
  - destruct (str_eqb_spec m (bytes "HEAD")) as [Em|Em], (str_eqb_spec (method p) (bytes "GET")) as [Gp|Gp],
      (str_eqb_spec (method q) (bytes "GET")) as [Gq|Gq]; cbn [andb];
    destruct (str_eqb_spec (method p) []) as [Zp|Zp], (str_eqb_spec (method q) []) as [Zq|Zq]; try discriminate;
    try congruence; intros [= <-] [= <-]; split; try lia; intros _;
    first [now rewrite eq_str_eqb by congruence | rewrite Gp, Zq; reflexivity].
Qed.

(** Of two patterns that take one request and do not conflict, the better one is the more
    specific one. *)
Lemma better_specific h m p q raws :
  takes h m raws p -> takes h m raws q -> conflictsWith p q = false -> better h m p q ->
  host p = host q /\ comparePathsAndMethods p q = moreSpecific \/ host p <> [] /\ host q = [].
Proof.
  intros (Hhp & Hmp & Hsp) (Hhq & Hmq & Hsq) Hc Hb. unfold better in Hb.
  apply host_cases in Hhp as Hcp. apply host_cases in Hhq as Hcq.
  destruct (host_class h p) as [a|] eqn:Ea; [|contradiction].
  destruct (host_class h q) as [b|] eqn:Eb; [|contradiction].
  destruct (method_class m p) as [c|] eqn:Ec; [|contradiction].
  destruct (method_class m q) as [d|] eqn:Ed; [|contradiction].
  destruct Hcp as [[Hh E]|E], Hcq as [[Hh' E']|E'].
  2: { right. split; congruence. }
  2: { rewrite (host_none h p E) in Ea. rewrite (host_same h q Hh' E') in Eb.
       apply Some_inj in Ea. apply Some_inj in Eb. lia. }
  all: assert (Hpq : host p = host q) by congruence; left; split; [exact Hpq|].
  all: assert (a = b) as -> by (unfold host_class in Ea, Eb; rewrite Hpq in Ea; congruence).
  all: destruct Hb as [Hb|[_ Hb]]; [lia|].
  all: unfold conflictsWith in Hc; rewrite Hpq, str_eqb_refl in Hc; cbn [negb] in Hc.
  all: destruct (compareMethods_classes m p q c d Ec Ed) as [H1 H2].
  all: pose proof (comparePaths_common p q raws Hsp Hsq) as Hd; unfold comparePathsAndMethods in *.
  all: destruct Hb as [Hb|[Hb Hp]]; [rewrite (H2 Hb) in *|rewrite (H1 Hb) in *];
    [|destruct (comparePaths_prefers p q raws Hsp Hsq Hp) as [Hx|Hx]];
    destruct (comparePaths p q); try reflexivity; try discriminate; now contradict Hd.
Qed.

(** ** Patterns at the same keys *)

Lemma key_equivalent s1 s2 :
  plain_segment s1 = true -> plain_segment s2 = true -> key s1 = key s2 ->
  compareSegments s1 s2 = equivalent /\ multi s1 = multi s2.
Proof.
  intros H1 H2 E. unfold compareSegments.
  destruct (key_cases s1 H1) as [[M1 K1]|[(M1 & W1 & K1)|(M1 & W1 & K1 & N1 & S1)]],
    (key_cases s2 H2) as [[M2 K2]|[(M2 & W2 & K2)|(M2 & W2 & K2 & N2 & S2)]]; try congruence;
    rewrite M1, M2; cbn [andb]; [now split|rewrite W1, W2; now split|].
  rewrite W1, W2. cbn [andb]. now rewrite eq_str_eqb by congruence.
Qed.

Lemma keys_loop segs1 : forall segs2,
  forallb plain_segment segs1 = true -> forallb plain_segment segs2 = true ->
  map key segs1 = map key segs2 -> compare_loop equivalent segs1 segs2 = (equivalent, [], []).
Proof.
  induction segs1 as [|s1 segs1 IH]; intros [|s2 segs2] H1 H2 E; try discriminate E; [reflexivity|].
  cbn [forallb map] in *. apply andb_true_iff in H1 as [P1 H1], H2 as [P2 H2]. injection E as Ek E.
  destruct (key_equivalent s1 s2 P1 P2 Ek) as [Hc _]. cbn [compare_loop]. rewrite Hc. now apply IH.
Qed.

Lemma same_keys_conflict p q :
  plain p = true -> plain q = true -> full_keys p = full_keys q -> conflictsWith p q = true.
Proof.
  unfold plain, full_keys. rewrite !andb_true_iff. intros [_ Hp] [_ Hq] E. injection E as Eh Em Ek.
  unfold conflictsWith, comparePathsAndMethods, compareMethods, comparePaths.
  rewrite Eh, Em, !str_eqb_refl, (keys_loop _ _ Hp Hq Ek). cbn [negb].
  apply (f_equal (@length _)) in Ek. rewrite !length_map in Ek. rewrite Ek, Nat.eqb_refl. reflexivity.
Qed.

(** * The index misses no conflict *)

Definition indexed (idx : routingIndex) (pats : list pattern) : Prop :=
  forall q, In q pats ->
    if multi (lastSegment q) then In q (idx_multis idx)
    else forall i sg, nth_error (segments q) i = Some sg -> In q (patterns_at idx (index_key i sg)).

Definition index_holds (idx : routingIndex) (q : pattern) : Prop :=
  In q (idx_multis idx) \/ exists key, In q (patterns_at idx key).

Lemma index_segments_spec q segs : forall pos m key,
  incl (default [] (m !! key)) (default [] (index_segments q pos segs m !! key)) /\
  forall i sg, nth_error segs i = Some sg -> key = index_key (pos + i) sg ->
    In q (default [] (index_segments q pos segs m !! key)).
Proof.
  induction segs as [|sg segs IH]; intros pos m key; cbn [index_segments].
  { split; [now intros x Hx|]. intros [|i] sg E; discriminate E. }
  set (k := index_key pos sg). set (m' := <[k := _]> m).
  assert (Hm : incl (default [] (m !! key)) (default [] (m' !! key))).
  { unfold m'. destruct (decide (k = key)) as [->|Hne].
    - rewrite lookup_insert_eq. cbn. intros x Hx. apply in_or_app. now left.
    - rewrite lookup_insert_ne by exact Hne. now intros x Hx. }
  destruct (IH (S pos) m' key) as [Hi Hq]. split; [now apply (incl_tran Hm)|].
  intros [|i] sg' E Hk.
  - cbn in E. apply Some_inj in E as <-. rewrite Nat.add_0_r in Hk. apply Hi.
    unfold m'. subst key. fold k. rewrite lookup_insert_eq. cbn. apply in_or_app. right. now left.
  - cbn in E. apply (Hq i sg'); [exact E|]. rewrite Hk. f_equal. lia.
Qed.

Lemma index_add idx pats pat : indexed idx pats -> indexed (index_addPattern idx pat) (pats ++ [pat]).
Proof.
  intros Hi q Hq. unfold index_addPattern. apply in_app_or in Hq as [Hq|[<-|[]]].
  - specialize (Hi q Hq). destruct (multi (lastSegment pat)); cbn [idx_multis idx_segments patterns_at].
    + destruct (multi (lastSegment q)); [apply in_or_app; now left|exact Hi].
    + destruct (multi (lastSegment q)); [exact Hi|]. intros i sg E.
      apply (index_segments_spec pat (segments pat) 0 (idx_segments idx)). now apply Hi.
  - destruct (multi (lastSegment pat)); cbn [idx_multis]; [apply in_or_app; right; now left|].
    intros i sg E. now apply (index_segments_spec pat (segments pat) 0 (idx_segments idx) (index_key i sg)) with (i := i) (sg := sg).
Qed.

(** What two patterns that are not disjoint have in common, position by position. *)
Lemma loop_positions segs1 : forall segs2 rel res a b,
  compare_loop rel segs1 segs2 = (res, a, b) -> res <> disjoint ->
  rel <> disjoint /\
  (forall i s1 s2, nth_error segs1 i = Some s1 -> nth_error segs2 i = Some s2 -> compareSegments s1 s2 <> disjoint) /\
  (length a + length segs2 = length b + length segs1)%nat /\ (a = [] \/ b = []).
Proof.
  induction segs1 as [|s1 segs1 IH]; intros segs2 rel res a b E Hr.
  { injection E as <- <- <-. repeat split; [exact Hr| |cbn; lia|now left]. intros [|i] s1 s2 E; discriminate E. }
  destruct segs2 as [|s2 segs2].
  { injection E as <- <- <-. repeat split; [exact Hr| |cbn; lia|now right]. intros [|i] ? ? _ E; discriminate E. }
  cbn [compare_loop] in E. set (rel' := combineRelationships rel (compareSegments s1 s2)) in *.
  assert (Hstep : compare_loop rel' segs1 segs2 = (res, a, b) /\ rel' <> disjoint).
  { destruct rel'; try (split; [exact E|discriminate]). injection E as <- _ _. now contradict Hr. }
  destruct Hstep as [E' Hd]. destruct (IH _ _ _ _ _ E' Hr) as (_ & Hpos & Hlen & Hab).
  assert (Hne : rel <> disjoint /\ compareSegments s1 s2 <> disjoint).
  { split; intros Ed; apply Hd; apply combine_disjoint; auto. }
  repeat split; try tauto; [|cbn [length]; lia].
  intros [|i] x y Ex Ey; cbn in Ex, Ey; [apply Some_inj in Ex as <-; apply Some_inj in Ey as <-; tauto|eauto].
Qed.

Lemma conflict_positions p q :
  conflictsWith p q = true -> multi (lastSegment q) = false ->
  (forall i s1 s2, nth_error (segments p) i = Some s1 -> nth_error (segments q) i = Some s2 ->
     compareSegments s1 s2 <> disjoint) /\
  (length (segments p) <= length (segments q))%nat /\
  (multi (lastSegment p) = false -> length (segments p) = length (segments q)).
Proof.
  intros Hc Hq. unfold conflictsWith in Hc. case_if_in Hc; [discriminate|].
  assert (Hd : comparePaths p q <> disjoint).
  { intros E. unfold comparePathsAndMethods in Hc. rewrite E in Hc. now destruct (compareMethods p q). }
  unfold comparePaths in Hd. rewrite Hq in Hd. cbn [negb] in Hd. rewrite !andb_true_r in Hd.
  case_if_in Hd; [now contradict Hd|].
  destruct (compare_loop equivalent (segments p) (segments q)) as [[rel a] b] eqn:El.
  assert (Hrel : rel <> disjoint).
  { intros ->. destruct a, b; apply Hd; try reflexivity; case_if; try reflexivity; now rewrite andb_false_r. }
  destruct (loop_positions _ _ _ _ _ _ El Hrel) as (_ & Hpos & Hlen & Hab). split; [exact Hpos|].
  assert (Ha : a = []).
  { destruct Hab as [->| ->]; [reflexivity|]. destruct a as [|x a]; [reflexivity|]. exfalso. apply Hd.
    cbn [length]. replace (S (length a) <? 0)%nat with false by reflexivity. cbn [andb]. now rewrite andb_false_r. }
  subst a. cbn [length] in Hlen. split; [lia|]. intros Hp. rewrite Hp in Heqb0. cbn [negb] in Heqb0.
  rewrite andb_true_r in Heqb0. apply negb_false_iff, Nat.eqb_eq in Heqb0. exact Heqb0.
Qed.

Lemma index_segments_only q segs : forall pos m key x,
  In x (default [] (index_segments q pos segs m !! key)) -> x = q \/ In x (default [] (m !! key)).
Proof.
  induction segs as [|sg segs IH]; intros pos m key x Hx; cbn [index_segments] in Hx; [now right|].
  apply IH in Hx as [Hx|Hx]; [now left|]. destruct (decide (index_key pos sg = key)) as [<-|Hne].
  - rewrite lookup_insert_eq in Hx. cbn in Hx. apply in_app_or in Hx as [Hx|[<-|[]]]; [now right|now left].
  - rewrite lookup_insert_ne in Hx by exact Hne. now right.
Qed.

Lemma index_add_only idx pat q : index_holds (index_addPattern idx pat) q -> q = pat \/ index_holds idx q.
Proof.
  unfold index_addPattern. destruct (multi (lastSegment pat)).
  - intros [Hq|[k Hq]]; cbn [idx_multis] in Hq; [apply in_app_or in Hq as [Hq|[<-|[]]]|].
    + right. now left.
    + now left.
    + right. right. now exists k.
  - intros [Hq|[k Hq]]; [right; now left|]. apply index_segments_only in Hq as [->|Hq]; [now left|].
    right. right. now exists k.
Qed.

(** The literal position the index chooses. *)
Lemma fewest_loop_spec idx segs : forall pos best,
  match fewest_loop idx pos segs best with
  | Some (l, w) => best = Some (l, w) \/
      exists i sg, nth_error segs i = Some sg /\ multi sg = false /\ wild sg = false /\
        l = patterns_at idx ((pos + i)%nat, seg_s sg) /\ w = patterns_at idx ((pos + i)%nat, [])
  | None => best = None
  end.
Proof.
  induction segs as [|sg segs IH]; intros pos best; cbn [fewest_loop]; [destruct best as [[l w]|]; auto|].
  destruct (multi sg) eqn:Em; [destruct best as [[l w]|]; auto|].
  assert (Hup : forall b, match fewest_loop idx (S pos) segs b with
     | Some (l, w) => b = Some (l, w) \/ exists i sg', nth_error (sg :: segs) i = Some sg' /\ multi sg' = false /\
         wild sg' = false /\ l = patterns_at idx ((pos + i)%nat, seg_s sg') /\ w = patterns_at idx ((pos + i)%nat, [])
     | None => b = None end).
  { intros b. specialize (IH (S pos) b). destruct (fewest_loop idx (S pos) segs b) as [[l w]|]; [|exact IH].
    destruct IH as [IH|(i & sg' & E & Hm & Hw & -> & ->)]; [now left|]. right. exists (S i), sg'.
    rewrite Nat.add_succ_r. now repeat split. }
  destruct (wild sg) eqn:Ew; [apply Hup|]. cbv zeta. case_if; [|apply Hup].
  match goal with |- context [fewest_loop idx (S pos) segs ?b] => specialize (Hup b) end.
  destruct (fewest_loop idx (S pos) segs _) as [[l w]|]; [|discriminate Hup]. right.
  destruct Hup as [Hup|Hup]; [|exact Hup]. injection Hup as <- <-. exists O, sg. rewrite Nat.add_0_r. now repeat split.
Qed.

Lemma possibly_holds idx pat q : In q (possiblyConflictingPatterns idx pat) -> index_holds idx q.
Proof.
  unfold possiblyConflictingPatterns. intros Hq. apply in_app_or in Hq as [Hq|Hq]; [now left|]. right.
  case_if_in Hq; [eexists; exact Hq|]. destruct (fewest_loop idx 0 (segments pat) None) as [[l w]|] eqn:E.
  - pose proof (fewest_loop_spec idx (segments pat) 0 None) as Hf. rewrite E in Hf.
    destruct Hf as [Hf|(i & sg & _ & _ & _ & -> & ->)]; [discriminate Hf|].
    apply in_app_or in Hq as [Hq|Hq]; eexists; exact Hq.
  - apply in_concat in Hq as (x & Hx & Hq). apply in_map_iff in Hx as ([k y] & <- & Hx).
    exists k. apply list_elem_of_In, elem_of_map_to_list in Hx. unfold patterns_at. now rewrite Hx.
Qed.

Lemma no_multi segs i sg :
  multi_last segs = true -> ends_multi segs = false -> nth_error segs i = Some sg -> multi sg = false.
Proof.
  revert i. induction segs as [|s1 segs IH]; intros i Hm He E; [destruct i; discriminate E|].
  destruct segs as [|s2 segs].
  - destruct i as [|[|i]]; try discriminate E. apply Some_inj in E as <-. exact He.
  - destruct i as [|i]; [|exact (IH i (multi_last_tl _ _ Hm) He E)].
    apply Some_inj in E as <-. cbn [multi_last] in Hm. apply andb_true_iff in Hm as [Hm _]. now apply negb_true_iff.
Qed.

(** The key of a segment that a literal is not disjoint from. *)
Lemma literal_key s1 s2 pos :
  multi s1 = false -> wild s1 = false -> multi s2 = false -> compareSegments s1 s2 <> disjoint ->
  index_key pos s2 = (pos, seg_s s1) \/ index_key pos s2 = (pos, []) /\ seg_s s1 <> [slash].
Proof.
  unfold compareSegments, index_key. intros -> -> -> Hd. cbn [andb] in Hd. destruct (wild s2).
  - right. split; [reflexivity|]. destruct (str_eqb_spec (seg_s s1) [slash]); [now contradict Hd|assumption].
  - left. destruct (str_eqb_spec (seg_s s1) (seg_s s2)) as [->|]; [reflexivity|now contradict Hd].
Qed.

Lemma nth_error_last {A} (l : list A) d : l <> [] -> nth_error l (length l - 1) = Some (last l d).
Proof.
  intros Hl. destruct (exists_last Hl) as (l' & x & ->). rewrite length_app, last_last. cbn [length].
  rewrite nth_error_app2 by lia. now replace (length l' + 1 - 1 - length l')%nat with 0%nat by lia.
Qed.

Lemma index_complete idx pats pat q :
  indexed idx pats -> In q pats -> plain pat = true -> plain q = true -> conflictsWith pat q = true ->
  In q (possiblyConflictingPatterns idx pat).
Proof.
  intros Hi Hq Hp Hpq Hc. specialize (Hi q Hq). unfold possiblyConflictingPatterns. apply in_or_app.
  destruct (multi (lastSegment q)) eqn:Em; [now left|]. right.
  destruct (conflict_positions pat q Hc Em) as (Hpos & Hle & Heq).
  unfold plain in Hp, Hpq. rewrite !andb_true_iff in Hp, Hpq. destruct Hp as [[Hne Hm] Hs], Hpq as [[Hne' Hm'] Hs'].
  assert (Hnm : forall i sg, nth_error (segments q) i = Some sg -> multi sg = false)
    by (intros i sg; now apply no_multi).
  assert (Hne1 : segments pat <> []) by (now destruct (segments pat)).
  pose proof (nth_error_last (segments pat) (mkSegment [] false false) Hne1) as Hl.
  fold (lastSegment pat) in Hl. rewrite forallb_forall in Hs.
  destruct (str_eqb_spec (seg_s (lastSegment pat)) [slash]) as [E|_].
  - assert (Hlit : multi (lastSegment pat) = false /\ wild (lastSegment pat) = false).
    { specialize (Hs _ (nth_error_In _ _ Hl)). unfold plain_segment in Hs. rewrite E in Hs.
      destruct (wild (lastSegment pat)); [discriminate Hs|]. destruct (multi (lastSegment pat)); [discriminate Hs|]. auto. }
    destruct Hlit as [H1 H2]. specialize (Heq H1). rewrite Heq in Hl |- *.
    destruct (nth_error (segments q) (length (segments q) - 1)) as [sg|] eqn:En.
    2: { apply nth_error_None in En. destruct (segments q); [discriminate Hne'|cbn in En; lia]. }
    specialize (Hi _ _ En). destruct (literal_key (lastSegment pat) sg (length (segments q) - 1)) as [K|[_ K]];
      [assumption|assumption|now apply (Hnm _ _ En)|now apply (Hpos _ _ _ Hl En)| |contradiction].
    now rewrite K, E in Hi.
  - pose proof (fewest_loop_spec idx (segments pat) 0 None) as Hf.
    destruct (fewest_loop idx 0 (segments pat) None) as [[l w]|].
    + destruct Hf as [Hf|(i & sg & En & H1 & H2 & -> & ->)]; [discriminate Hf|]. cbn [Nat.add].
      destruct (nth_error (segments q) i) as [sq|] eqn:Enq.
      2: { apply nth_error_None in Enq. assert (i < length (segments pat))%nat by (apply nth_error_Some; congruence). lia. }
      specialize (Hi _ _ Enq). apply in_or_app.
      destruct (literal_key sg sq i) as [K|[K _]]; [assumption..|now apply (Hnm _ _ Enq)|now apply (Hpos _ _ _ En Enq)| |];
        rewrite K in Hi; auto.
    + destruct (segments q) as [|sg segs] eqn:Es; [discriminate Hne'|]. specialize (Hi 0%nat sg eq_refl).
      unfold patterns_at in Hi. destruct (idx_segments idx !! index_key 0 sg) as [l|] eqn:El; [|destruct Hi].
      apply in_concat. exists l. split; [|exact Hi]. apply in_map_iff. exists (index_key 0 sg, l).
      split; [reflexivity|]. now apply list_elem_of_In, elem_of_map_to_list.
Qed.

(** * The router after its registrations *)

Section Registered.
Context {H : Type}.
Implicit Types (mux : ServeMux H) (t n c : routingNode H) (l : pattern * H) (L : list (pattern * H)).

(** The states of a router: successful registrations of plain patterns, one after another. *)
Inductive registered : ServeMux H -> list (pattern * H) -> Prop :=
| reg_new : registered NewServeMux []
| reg_add mux L s pat h mux' :
    registered mux L -> parsePattern s = inr pat -> plain pat = true ->
    registerErr mux s h = Some (inr mux') -> registered mux' (L ++ [(pat, h)]).

Lemma live_add ks p h : forall n n', live n -> add_keys ks p h n = Some n' -> live n'.
Proof.
  induction ks as [|k ks IH]; intros n n' Hl E; cbn [add_keys] in E.
  - unfold set in E. destruct (leaf n); [discriminate|]. apply Some_inj in E as <-. now destruct Hl as [Hl]; constructor.
  - apply addChild_child in E as (c & Ec & _ & Hc). constructor. intros k' c' Hk'. rewrite Hc in Hk'.
    destruct (str_eqb_spec k k') as [<-|]; [|now apply (live_child n k')].
    apply Some_inj in Hk' as <-. split.
    + apply (IH (default new_node (findChild n k))); [|exact Ec].
      destruct (findChild n k) as [c0|] eqn:E0; [now apply (live_child n k)|]. constructor. intros k0 c0 E.
      unfold findChild in E. now destruct k0.
    + exists (p, h), ks. rewrite (lookup_add _ _ _ _ _ ks Ec). now destruct (list_eq_dec _ ks ks).
Qed.

Lemma addPattern_keys t p h :
  multi_last (segments p) = true -> addPattern t p h = add_keys (full_keys p) p h t.
Proof.
  intros Hm. unfold addPattern, full_keys. cbn [add_keys].
  assert (Hext : forall n k f g, (forall c, f c = g c) -> addChild n k f = addChild (H := H) n k g).
  { intros n k f g E. unfold addChild. case_if; [now rewrite E|]. destruct (find (children n) k); now rewrite E. }
  apply Hext. intros n. apply Hext. intros c. now apply addSegments_keys.
Qed.

Lemma stored_add t L p h t' :
  stored t L -> plain p = true -> addPattern t p h = Some t' ->
  (forall l, In l L -> conflictsWith p (fst l) = false) -> stored t' (L ++ [(p, h)]).
Proof.
  intros (Hl & Hp & Hs) Hpl E Hnc. pose proof Hpl as Hpl'. unfold plain in Hpl'.
  rewrite !andb_true_iff in Hpl'. rewrite addPattern_keys in E by tauto. split; [|split].
  - exact (live_add _ _ _ _ _ Hl E).
  - apply Forall_app. split; [exact Hp|]. repeat constructor. exact Hpl.
  - intros ks l. rewrite (lookup_add _ _ _ _ _ ks E), in_app_iff.
    destruct (list_eq_dec (list_eq_dec Z.eq_dec) (full_keys p) ks) as [<-|Hne].
    + split.
      * intros E'. apply Some_inj in E' as <-. split; [right; now left|reflexivity].
      * intros [[Hi|[<-|[]]] Hk]; [|reflexivity]. rewrite List.Forall_forall in Hp.
        pose proof (same_keys_conflict p (fst l) Hpl (Hp l Hi) Hk) as Hc. now rewrite (Hnc l Hi) in Hc.
    + rewrite Hs. split; [intros [Hi Hk]; auto|]. intros [[Hi|[<-|[]]] Hk]; [now split|]. now contradict Hne.
Qed.

(** What a router always is. *)
Definition mux_ok mux L : Prop :=
  stored (tree mux) L /\ indexed (index mux) (map fst L) /\
  (forall q, index_holds (index mux) q -> In q (map fst L)) /\
  forall l l', In l L -> In l' L -> l = l' \/ conflictsWith (fst l) (fst l') = false.

Lemma mux_ok_new : mux_ok NewServeMux [].
Proof.
  split; [|split; [|split]].
  - split; [|split; [constructor|]].
    + constructor. intros k c E. unfold findChild in E. now destruct k.
    + intros ks l. cbn [tree NewServeMux]. rewrite lookup_new. split; [discriminate|now intros [[] _]].
  - intros q [].
  - intros q [[]|[key Hq]]. unfold patterns_at in Hq. cbn in Hq. now rewrite lookup_empty in Hq.
  - intros l l' [].
Qed.

(** Registering a plain pattern fails exactly when it conflicts with one before it; the
    tree does not panic. *)
Lemma register_outcome mux L s pat h :
  mux_ok mux L -> parsePattern s = inr pat -> plain pat = true ->
  (exists l, In l L /\ conflictsWith pat (fst l) = true /\
     registerErr mux s h = Some (inl (ConflictsWith pat (fst l)))) \/
  ((forall l, In l L -> conflictsWith pat (fst l) = false) /\
   exists t, addPattern (tree mux) pat h = Some t /\
     registerErr mux s h =
       Some (inr (mkServeMux t (index_addPattern (index mux) pat) (patterns mux ++ [pat])))).
Proof.
  intros (Hst & Hi & Ho & Hnc) Hs Hp. unfold registerErr. rewrite Hs.
  replace (nonempty s) with true by (now destruct s; [discriminate Hs|]). cbn [negb].
  destruct (List.find (conflictsWith pat) (possiblyConflictingPatterns (index mux) pat)) as [q|] eqn:Ef.
  - left. apply find_some in Ef as [Hq Hc]. apply possibly_holds, Ho, in_map_iff in Hq as (l & <- & Hl). eauto.
  - right. assert (Hno : forall l, In l L -> conflictsWith pat (fst l) = false).
    { intros l Hl. destruct (conflictsWith pat (fst l)) eqn:Ec; [|reflexivity].
      destruct Hst as (_ & Hpl & _). rewrite List.Forall_forall in Hpl.
      assert (Hin : In (fst l) (possiblyConflictingPatterns (index mux) pat)).
      { apply (index_complete _ (map fst L)); auto. now apply in_map. }
      pose proof (find_none _ _ Ef _ Hin) as Hx. congruence. }
    split; [exact Hno|]. destruct (addPattern (tree mux) pat h) as [t|] eqn:Ea; [now exists t|exfalso].
    unfold plain in Hp. rewrite !andb_true_iff in Hp. rewrite addPattern_keys in Ea by tauto.
    apply (add_keys_defined (full_keys pat) pat h (tree mux)); [|exact Ea].
    destruct (lookup (tree mux) (full_keys pat)) as [l|] eqn:El; [|reflexivity].
    destruct Hst as (_ & Hpl & Hlk). apply Hlk in El as [Hl Hk]. rewrite List.Forall_forall in Hpl.
    assert (Hpp : plain pat = true) by (unfold plain; rewrite !andb_true_iff; tauto).
    pose proof (same_keys_conflict pat (fst l) Hpp (Hpl l Hl) Hk) as Hc. now rewrite (Hno l Hl) in Hc.
Qed.

Lemma registered_ok mux L : registered mux L -> mux_ok mux L.
Proof.
  induction 1 as [|mux L s pat h mux' _ IH Hs Hp Hr]; [exact mux_ok_new|].
  destruct (register_outcome mux L s pat h IH Hs Hp) as [(l & _ & _ & E)|(Hno & t & Ht & E)];
    rewrite E in Hr; [discriminate Hr|]. apply Some_inj in Hr. injection Hr as <-.
  destruct IH as (Hst & Hi & Ho & Hnc). cbn [tree index]. split; [|split; [|split]].
  - now apply (stored_add (tree mux)).
  - rewrite map_app. now apply index_add.
  - intros q Hq. rewrite map_app, in_app_iff. cbn [map index] in *.
    apply index_add_only in Hq as [->|Hq]; [right; now left|left; auto].
  - intros l l' Hl Hl'. apply in_app_or in Hl as [Hl|[<-|[]]], Hl' as [Hl'|[<-|[]]]; auto.
    right. rewrite conflictsWith_sym. now apply Hno.
Qed.

(** The search over a router finds the pattern of the request, if there is one, and of all
    that take the request the most specific. *)
Lemma match_registered mux L h m raws :
  registered mux L -> askable L raws -> m <> [] ->
  match match_ (tree mux) h m (path_of raws) with
  | Found l ms =>
      In l L /\ takes h m raws (fst l) /\ seg_match (segments (fst l)) raws = Some ms /\
      forall l', In l' L -> takes h m raws (fst l') ->
        l' = l \/
        host (fst l) = host (fst l') /\ comparePathsAndMethods (fst l) (fst l') = moreSpecific \/
        host (fst l) <> [] /\ host (fst l') = []
  | Missing => forall l, In l L -> ~ takes h m raws (fst l)
  | NilPattern => False
  end.
Proof.
  intros Hr Ht Hm. destruct (registered_ok mux L Hr) as (Hs & _ & _ & Hnc).
  pose proof (match_answers (tree mux) L h m raws Hs Ht Hm) as Ha. unfold answers_by, segs_of in Ha.
  destruct (match_ (tree mux) h m (path_of raws)) as [l ms| |]; [| |exact Ha].
  - destruct Ha as ((Hi & Hh & Hme) & (vs & Hv & ->) & Hb). cbn [app].
    assert (Htk : takes h m raws (fst l)) by (repeat split; congruence).
    split; [exact Hi|]. split; [exact Htk|]. split; [exact Hv|].
    intros l' Hi' Htk'. destruct (Hnc l l' Hi Hi') as [->|Hc]; [now left|right].
    pose proof Htk' as (Hh' & Hm' & Hs'). apply (better_specific h m _ _ raws); auto.
  - intros l Hi (Hh & Hme & Hsm). now apply Hsm, Ha.
Qed.
End Registered.

(** ** Routers without trailing slashes *)

(** No pattern ends in a slash, [{$}] or a multi wildcard. *)
Definition slashless (p : pattern) : bool :=
  forallb (fun sg => negb (multi sg) && (wild sg || negb (str_eqb (seg_s sg) [slash]))) (segments p).

Section Trailing.
Context {H : Type}.
Implicit Types (n c : routingNode H) (l : pattern * H) (L : list (pattern * H)).

Lemma slashless_child k n ck c :
  keyed k n -> live n -> (forall l, below n l -> slashless (fst l) = true) ->
  findChild n ck = Some c -> ck <> [slash] /\ ck <> [star].
Proof.
  intros Hk Hl Hs Hc. destruct (live_child _ _ _ Hl Hc) as (_ & l & Hlc).
  pose proof (below_child _ _ _ _ Hc Hlc) as Hn.
  destruct (child_suffix k n ck c l Hk Hc Hlc) as (sg & Es & Ek).
  assert (Hi : In sg (suffix k l)) by (rewrite Es; now left).
  pose proof (suffix_plain k n l sg Hk Hn Hi) as Hp. specialize (Hs l Hn).
  apply (forallb_skipn _ k) in Hs. rewrite forallb_forall in Hs. specialize (Hs sg Hi).
  apply andb_true_iff in Hs as [Hm Hw]. apply negb_true_iff in Hm.
  destruct (key_cases sg Hp) as [[M _]|[(_ & _ & K)|(_ & W & K & _ & N)]]; [congruence|subst ck; rewrite K; split; discriminate|].
  rewrite W in Hw. cbn [orb] in Hw. apply negb_true_iff, str_eqb_neq in Hw. rewrite <- Ek. split; [congruence|exact N].
Qed.

(** Such a router matches no path that ends in a slash. *)
Lemma matchPath_trailing fuel : forall k n q ms,
  keyed k n -> live n -> (forall l, below n l -> slashless (fst l) = true) ->
  matchPath fuel (q ++ [slash]) ms n = Missing.
Proof.
  induction fuel as [|fuel IH]; intros k n q ms Hk Hl Hs; [reflexivity|].
  assert (Hstar : findChild n [star] = None).
  { destruct (findChild n [star]) as [c|] eqn:E; [|reflexivity].
    destruct (slashless_child k n _ c Hk Hl Hs E) as [_ N]. contradiction. }
  assert (Hchild : forall ck q' ms', on_child (findChild n ck) (matchPath fuel (q' ++ [slash]) ms') = Missing).
  { intros ck q' ms'. destruct (findChild n ck) as [c|] eqn:E; [|reflexivity]. cbn [on_child].
    apply (IH (S k)); [exact (keyed_child _ _ _ _ Hk E)|now apply (live_child n ck)|].
    intros l Hlc. exact (Hs l (below_child _ _ _ _ E Hlc)). }
  cbn [matchPath]. replace (nonempty (q ++ [slash])) with true by now destruct q. cbn [negb].
  destruct q as [|x q].
  - cbn [app]. change (firstSegment [slash]) with ([slash], @nil Z). cbv iota beta.
    destruct (findChild n [slash]) as [c|] eqn:E.
    { destruct (slashless_child k n _ c Hk Hl Hs E) as [N _]. contradiction. }
    cbn [on_child or_else]. rewrite str_eqb_refl, Hstar. reflexivity.
  - assert (Hrest : exists seg q', firstSegment ((x :: q) ++ [slash]) = (seg, q' ++ [slash])).
    { unfold firstSegment. rewrite neq_str_eqb by (destruct q; discriminate). cbn [app tl].
      destruct (first_byte slash q) as [Hn|(u & v & -> & Hu)].
      - rewrite IndexByte_app by exact Hn. rewrite skipn_length_app. eexists. now exists [].
      - rewrite <- app_assoc. cbn [app]. rewrite IndexByte_app by exact Hu. rewrite skipn_length_app.
        eexists. now exists (slash :: v). }
    destruct Hrest as (seg & q' & ->). rewrite Hchild. change (emptyChild n) with (findChild n []).
    rewrite Hchild, Hstar. cbn [or_else on_child]. now case_if.
Qed.

Lemma match_trailing mux L h m q :
  registered mux L -> forallb (fun l => slashless (fst l)) L = true ->
  match_ (tree mux) h m (q ++ [slash]) = Missing /\
  forall mm, match_path (q ++ [slash]) (child_of (findChild (tree mux) []) mm) = Missing.
Proof.
  intros Hr Hs. destruct (registered_ok mux L Hr) as (Hst & _). rewrite forallb_forall in Hs.
  assert (Hp : forall hh mm, match_path (q ++ [slash]) (child_of (findChild (tree mux) hh) mm) = Missing).
  { intros hh mm. unfold match_path, child_of. destruct (findChild (tree mux) hh) as [c|] eqn:Ec; [|reflexivity].
    destruct (findChild c mm) as [n|] eqn:En; [|reflexivity]. cbn [on_child].
    destruct (stored_keyed (tree mux) L hh c mm n Hst Ec En) as (Hk & Hl & Hb).
    apply (matchPath_trailing _ 0); try assumption. intros l Hi. now apply Hs, Hb. }
  split; [|intros mm; apply Hp]. unfold match_, matchMethodAndPath.
  change (emptyChild (tree mux)) with (findChild (tree mux) []). rewrite !Hp. now repeat case_if.
Qed.
End Trailing.

(** ** What parsing guarantees *)

Definition literal_ok (sg : segment) : bool :=
  wild sg || nonempty (seg_s sg) && negb (str_eqb (seg_s sg) [star]).

Definition well_parsed (sg : segment) : Prop :=
  (multi sg = true -> wild sg = true) /\ (wild sg = true -> seg_s sg <> [slash]).

Lemma parse_segments_shape fuel slen : forall rest names segs,
  (length rest <= fuel)%nat -> parse_segments fuel slen rest names = inr segs ->
  multi_last segs = true /\ Forall well_parsed segs /\ (rest <> [] -> segs <> []) /\ (rest = [] -> segs = []).
Proof.
  induction fuel as [|fuel IH]; intros rest names segs Hf E.
  { destruct rest; [|cbn in Hf; lia]. injection E as <-. repeat split; [constructor|congruence]. }
  destruct rest as [|c rest0]; cbn [parse_segments] in E.
  { injection E as <-. repeat split; [constructor|congruence]. }
  destruct (nonempty rest0) eqn:En; cbn [negb] in E.
  2: { injection E as <-. split; [reflexivity|]. split; [|split; [discriminate|discriminate]].
       constructor; [|constructor]. split; [reflexivity|discriminate]. }
  set (i := match IndexByte rest0 slash with Some i => i | None => length rest0 end) in E.
  set (seg := firstn i rest0) in E. set (rest := skipn i rest0) in E.
  assert (Hlen : (length rest <= fuel)%nat).
  { unfold rest. rewrite length_skipn. cbn [length] in Hf. lia. }
  assert (Hmore : forall sg names, well_parsed sg -> (multi sg = true -> rest = []) ->
      match parse_segments fuel slen rest names with inl e => inl e | inr segs => inr (sg :: segs) end = inr segs ->
      multi_last segs = true /\ Forall well_parsed segs /\ (c :: rest0 <> [] -> segs <> []) /\ (c :: rest0 = [] -> segs = [])).
  { intros sg names' Hsg Hlast Em. destruct (parse_segments fuel slen rest names') as [e|segs'] eqn:Ep; [discriminate Em|].
    injection Em as <-. destruct (IH _ _ _ Hlen Ep) as (H1 & H2 & H3 & H4).
    split; [|split; [now constructor|split; discriminate]].
    destruct segs' as [|s1 segs']; [reflexivity|]. cbn [multi_last]. apply andb_true_iff. split; [|exact H1].
    destruct (multi sg) eqn:Emu; [|reflexivity]. specialize (H4 (Hlast eq_refl)). discriminate H4. }
  destruct (IndexByte seg lbrace) as [[|j]|]; [|discriminate E|].
  - case_if_in E; [discriminate E|].
    destruct (str_eqb _ [dollar]); [case_if_in E; [discriminate E|]|].
    { injection E as <-. split; [reflexivity|]. split; [|split; discriminate]. constructor; [|constructor].
      split; discriminate. }
    destruct (CutSuffix (firstn (length seg - 2) (tl seg)) (bytes "...")) as [name mu] eqn:Ec.
    destruct (mu && nonempty rest) eqn:Emu; [discriminate E|].
    destruct (nonempty name); cbn [negb] in E; [|discriminate E].
    destruct (isValidWildcardName name) eqn:Ev; cbn [negb] in E; [|discriminate E].
    destruct (existsb (str_eqb name) names); [discriminate E|].
    apply (Hmore (mkSegment name true mu) (name :: names)); [|cbn; intros ->|exact E].
    + split; [reflexivity|]. cbn. intros _ ->. discriminate Ev.
    + now destruct rest.
  - apply (Hmore (mkSegment (pathUnescape seg) false false) names); [|discriminate|exact E]. split; discriminate.
Qed.

(** A parsed pattern is plain when its literals are. *)
Lemma parsePattern_plain s p : parsePattern s = inr p -> plain p = forallb literal_ok (segments p).
Proof.
  unfold parsePattern. intros E. case_if_in E; [discriminate E|]. destruct (Cut s [space]) as [[m r] fnd].
  destruct (if fnd then (m, r) else ([], m)) as [me rest]. case_if_in E; [discriminate E|].
  destruct (IndexByte rest slash) as [i|] eqn:Ei; [|discriminate E].
  destruct (IndexByte (firstn i rest) lbrace); [discriminate E|]. case_if_in E; [discriminate E|].
  destruct (parse_segments _ _ (skipn i rest) []) as [e|segs] eqn:Ep; [discriminate E|]. injection E as <-.
  destruct (parse_segments_shape _ _ _ _ _ (le_n _) Ep) as (Hm & Hw & Hne & _). unfold plain. cbn [segments].
  assert (Hr : skipn i rest <> []).
  { destruct (first_byte slash rest) as [Hn|(u & v & -> & Hu)]; [now rewrite IndexByte_none in Ei|].
    rewrite IndexByte_app in Ei by exact Hu. apply Some_inj in Ei as <-. rewrite skipn_length_app. discriminate. }
  specialize (Hne Hr). replace (match segs with [] => false | _ => true end) with true by now destruct segs.
  rewrite Hm. cbn [andb]. clear -Hw. induction Hw as [|sg segs [H1 H2] _ IH]; [reflexivity|].
  cbn [forallb]. rewrite IH. f_equal. unfold plain_segment, literal_ok. destruct (wild sg) eqn:Ew; cbn [orb].
  - apply negb_true_iff, str_eqb_neq. auto.
  - destruct (multi sg) eqn:Em; [specialize (H1 eq_refl); congruence|reflexivity].
Qed.

(** ** Several registrations *)

Section RegisterAll.
Context {H : Type}.
Implicit Types (mux : ServeMux H) (L : list (pattern * H)) (ps : list (list Z * H)).

(** The patterns of the texts, where all parse and are plain. *)
Fixpoint parsed_all ps : option (list (pattern * H)) :=
  match ps with
  | [] => Some []
  | (s, h) :: ps' =>
      match parsePattern s with
      | inl _ => None
      | inr p => if plain p then option_map (cons (p, h)) (parsed_all ps') else None
      end
  end.

Lemma register_all_registered ps : forall mux L mux' L',
  registered mux L -> register_all ps mux = Some mux' -> parsed_all ps = Some L' ->
  registered mux' (L ++ L').
Proof.
  induction ps as [|[s h] ps IH]; intros mux L mux' L' Hr E Ep; cbn [register_all parsed_all] in *.
  { apply Some_inj in E as <-. apply Some_inj in Ep as <-. now rewrite app_nil_r. }
  destruct (parsePattern s) as [e|p] eqn:Es; [discriminate Ep|]. destruct (plain p) eqn:Epl; [|discriminate Ep].
  destruct (parsed_all ps) as [L1|]; [|discriminate Ep]. apply Some_inj in Ep as <-.
  unfold HandleFunc in E. destruct (registerErr mux s h) as [[err|mux1]|] eqn:Er; try discriminate E.
  cbn [opt_bind] in E. change (L ++ (p, h) :: L1) with (L ++ [(p, h)] ++ L1). rewrite app_assoc.
  apply (IH mux1); [|exact E|reflexivity]. now apply (reg_add mux L s p h).
Qed.
End RegisterAll.

(** C22: Among plain patterns - those with no literal segment that is empty or a star, which the
    tree takes for wildcards ([star_and_empty_literals] shows what happens with them) -
    registering a pattern that parses fails exactly when it conflicts with a registered one,
    and then with that error; otherwise it succeeds.  The index finds every conflict, and
    adding to the tree never panics. *)
Theorem registration_decides {H} (mux : ServeMux H) L s pat h :
  registered mux L -> parsePattern s = inr pat -> plain pat = true ->
  (exists l, In l L /\ conflictsWith pat (fst l) = true /\
     registerErr mux s h = Some (inl (ConflictsWith pat (fst l)))) \/
  ((forall l, In l L -> conflictsWith pat (fst l) = false) /\
   exists mux', registerErr mux s h = Some (inr mux') /\ registered mux' (L ++ [(pat, h)])).
Proof.
  intros Hr Hs Hp. destruct (register_outcome mux L s pat h (registered_ok mux L Hr) Hs Hp) as [Hc|(Hn & t & _ & E)];
    [now left|right]. split; [exact Hn|]. eexists. split; [exact E|]. exact (reg_add mux L s pat h _ Hr Hs Hp E).
Qed.

(** C21: The router finds the most specific pattern, when the registered patterns are plain, without
    a literal segment that is empty or a star, and the path asked for has no such segment
    that the tree could take for a wildcard: what [match_] gives is registered, takes the
    request's host, method and path with the values it gives, and is more specific than every
    other registered pattern that takes the request, or has a host where the other has none;
    when it gives nothing, no registered pattern takes the request. *)
Theorem most_specific_wins {H} (mux : ServeMux H) L host_ method_ raws :
  registered mux L -> askable L raws -> method_ <> [] ->
  match match_ (tree mux) host_ method_ (path_of raws) with
  | Found l ms =>
      In l L /\ takes host_ method_ raws (fst l) /\ seg_match (segments (fst l)) raws = Some ms /\
      forall l', In l' L -> takes host_ method_ raws (fst l') ->
        l' = l \/
        host (fst l) = host (fst l') /\ comparePathsAndMethods (fst l) (fst l') = moreSpecific \/
        host (fst l) <> [] /\ host (fst l') = []
  | Missing => forall l, In l L -> ~ takes host_ method_ raws (fst l)
  | NilPattern => False
  end.
Proof. apply match_registered. Qed.

(** *** At concrete routers *)

Definition demo_texts : list (list Z * nat) :=
  [(bytes "/files/", 0%nat); (bytes "GET /files/{id}/{$}", 1%nat); (bytes "GET /files/{id}/raw", 2%nat);
   (bytes "example.com/files/{rest...}", 3%nat)].

Definition demo_mux : ServeMux nat :=
  match register_all demo_texts NewServeMux with Some mux => mux | None => NewServeMux end.
Definition demo_patterns : list (pattern * nat) :=
  match parsed_all demo_texts with Some L => L | None => [] end.

Lemma demo_registered : registered demo_mux demo_patterns.
Proof.
  apply (register_all_registered demo_texts NewServeMux []); [constructor|vm_compute; reflexivity|vm_compute; reflexivity].
Qed.

Definition demo_path : list (list Z) := [bytes "files"; bytes "a%20b"; bytes "raw"].

Lemma most_specific_wins_witness :
  match match_ (tree demo_mux) [] (bytes "HEAD") (path_of demo_path) with
  | Found (_, h) ms => h = 2%nat /\ ms = [bytes "a b"]
  | _ => False
  end /\
  match match_ (tree demo_mux) [] (bytes "HEAD") (path_of demo_path) with
  | Found l ms =>
      In l demo_patterns /\ takes [] (bytes "HEAD") demo_path (fst l) /\
      seg_match (segments (fst l)) demo_path = Some ms /\
      forall l', In l' demo_patterns -> takes [] (bytes "HEAD") demo_path (fst l') ->
        l' = l \/
        host (fst l) = host (fst l') /\ comparePathsAndMethods (fst l) (fst l') = moreSpecific \/
        host (fst l) <> [] /\ host (fst l') = []
  | Missing => forall l, In l demo_patterns -> ~ takes [] (bytes "HEAD") demo_path (fst l)
  | NilPattern => False
  end.
Proof.
  split; [vm_compute; auto|].
  apply (most_specific_wins demo_mux demo_patterns [] (bytes "HEAD") demo_path); [exact demo_registered| |discriminate].
  exists false. split; [|discriminate]. unfold demo_path. cbn [tame].
  repeat split; try (vm_compute; discriminate); cbv; intuition discriminate.
Defined.

Definition demo_new : pattern :=
  mkPattern (bytes "/files/x/{y}") [] []
    [mkSegment (bytes "files") false false; mkSegment (bytes "x") false false; mkSegment (bytes "y") true false].

Lemma registration_decides_witness :
  (exists l, In l demo_patterns /\ conflictsWith demo_new (fst l) = true) /\
  ((exists l, In l demo_patterns /\ conflictsWith demo_new (fst l) = true /\
     registerErr demo_mux (bytes "/files/x/{y}") 9%nat = Some (inl (ConflictsWith demo_new (fst l)))) \/
   ((forall l, In l demo_patterns -> conflictsWith demo_new (fst l) = false) /\
    exists mux', registerErr demo_mux (bytes "/files/x/{y}") 9%nat = Some (inr mux') /\
      registered mux' (demo_patterns ++ [(demo_new, 9%nat)]))).
Proof.
  split.
  - eexists. split; [right; right; left; reflexivity|]. vm_compute. reflexivity.
  - apply (registration_decides demo_mux demo_patterns (bytes "/files/x/{y}") demo_new 9%nat demo_registered);
      vm_compute; reflexivity.
Defined.

(** *** Where a literal is a key of the tree *)

(** The tree keeps a multi wildcard under the key [*] and a wildcard under the empty key, and
    takes literals for them: the pattern [/a/*] matches whatever follows; registering [/a/]
    after it panics, though the two do not conflict; the request [/a/*] loses the value of
    the wildcard of [/a/{x...}], which [PathValue] then indexes out of range; and [/a//b]
    serves [/a/x/b]. *)
Lemma star_and_empty_literals :
  (exists p, opt_bind (register_all [(bytes "/a/*", tt)] NewServeMux) (fun mux =>
     Some (match_ (tree mux) [] (bytes "GET") (bytes "/a/b"))) = Some (Found (p, tt) [bytes "b"])) /\
  register_all [(bytes "/a/*", tt); (bytes "/a/", tt)] NewServeMux = None /\
  (exists p, opt_bind (register_all [(bytes "/a/{x...}", tt)] NewServeMux) (fun mux =>
     Some (match_ (tree mux) [] (bytes "GET") (bytes "/a/*"))) = Some (Found (p, tt) []) /\
     PathValue p [] (bytes "x") = None) /\
  (exists p ms, opt_bind (register_all [(bytes "/a//b", tt)] NewServeMux) (fun mux =>
     Some (match_ (tree mux) [] (bytes "GET") (bytes "/a/x/b"))) = Some (Found (p, tt) ms)).
Proof.
  split; [|split; [|split]].
  - eexists. vm_compute. reflexivity.
  - vm_compute. reflexivity.
  - eexists. split; [vm_compute; reflexivity|reflexivity].
  - do 2 eexists. vm_compute. reflexivity.
Qed.
