(* ===== verification/JsonRecords.v ===== *)
(** The service's records and requests as encoding/json sees them: the interfaces
    [RecordCodec] and [BodyDecoder] of the store and the handlers, implemented by the
    decoder and the encoder of the tool chain on the struct types of the source. *)
From Stdlib Require Import ZArith String Bool List.
From S2P Require Import Prelude GoFloat Strconv Scanner JsonEncode JsonDecode JsonStream Store Handlers.
From S2P Require Cycle.
Import ListNotations.
Local Open Scope string_scope.

Section Records.
Context {F : Type} {GF : GoFloat F} {GS : GoStrconv F} {FT : FloatText F}.

Abbreviation zero := (of_const 0%const : F).

Definition plain (name : string) : field := mkField name false.

(** ** store.Recipe and store.CycleRecord *)

Definition gval_Recipe (r : Recipe F) : gval F :=
  VStruct "Recipe"
    [(plain "name", VString (Recipe_Name r)); (plain "type", VString (Recipe_Type r));
     (plain "h", VFloat (Recipe_H r)); (plain "beta_deg", VFloat (Recipe_Beta r))].

Definition dval_Recipe (r : Recipe F) : dval F :=
  DStruct "store" "Recipe"
    [("name", DString (Recipe_Name r)); ("type", DString (Recipe_Type r));
     ("h", DFloat (Recipe_H r)); ("beta_deg", DFloat (Recipe_Beta r))].

Definition Recipe_of (v : dval F) : option (Recipe F) :=
  match v with
  | DStruct _ _ [(_, DString n); (_, DString t); (_, DFloat h); (_, DFloat b)] =>
      Some (mkRecipe n t h b)
  | _ => None
  end.

Definition gval_CycleRecord (r : CycleRecord F) : gval F :=
  VStruct "CycleRecord"
    [(plain "name", VString (CR_Name r)); (plain "h", VFloat (CR_H r));
     (plain "rise_law", VString (CR_RiseLaw r)); (plain "return_law", VString (CR_ReturnLaw r));
     (plain "rise_angle_deg", VFloat (CR_RiseAngle r));
     (plain "outer_dwell_deg", VFloat (CR_OuterDwell r));
     (plain "return_angle_deg", VFloat (CR_ReturnAngle r));
     (plain "inner_dwell_deg", VFloat (CR_InnerDwell r))].

Definition dval_CycleRecord (r : CycleRecord F) : dval F :=
  DStruct "store" "CycleRecord"
    [("name", DString (CR_Name r)); ("h", DFloat (CR_H r));
     ("rise_law", DString (CR_RiseLaw r)); ("return_law", DString (CR_ReturnLaw r));
     ("rise_angle_deg", DFloat (CR_RiseAngle r));
     ("outer_dwell_deg", DFloat (CR_OuterDwell r));
     ("return_angle_deg", DFloat (CR_ReturnAngle r));
     ("inner_dwell_deg", DFloat (CR_InnerDwell r))].

Definition CycleRecord_of (v : dval F) : option (CycleRecord F) :=
  match v with
  | DStruct _ _ [(_, DString n); (_, DFloat h); (_, DString l1); (_, DString l2);
                 (_, DFloat a1); (_, DFloat a2); (_, DFloat a3); (_, DFloat a4)] =>
      Some (mkCycleRecord n h l1 l2 a1 a2 a3 a4)
  | _ => None
  end.

(** ** The request types of handlers.go *)

Definition opt_ptr {A} (zero_ : dval F) (put : A -> dval F) (o : option A) : dval F :=
  DPtr zero_ (option_map put o).

Definition dval_liftRequest (r : liftRequest F) : dval F :=
  DStruct "main" "liftRequest"
    [("recipe", DString (lift_Recipe r));
     ("type", opt_ptr (DString "") DString (lift_Type r));
     ("h", opt_ptr (DFloat zero) DFloat (lift_H r));
     ("beta_deg", opt_ptr (DFloat zero) DFloat (lift_Beta r));
     ("omega_deg_s", DFloat (lift_Omega r)); ("points", DInt (lift_Points r))].

Definition string_of (v : option (dval F)) : option (option string) :=
  match v with
  | None => Some None
  | Some (DString s) => Some (Some s)
  | Some _ => None
  end.

Definition float_of (v : option (dval F)) : option (option F) :=
  match v with
  | None => Some None
  | Some (DFloat x) => Some (Some x)
  | Some _ => None
  end.

Definition liftRequest_of (v : dval F) : option (liftRequest F) :=
  match v with
  | DStruct _ _ [(_, DString r); (_, DPtr _ t); (_, DPtr _ h); (_, DPtr _ b);
                 (_, DFloat o); (_, DInt p)] =>
      match string_of t, float_of h, float_of b with
      | Some t, Some h, Some b => Some (mkLiftRequest r t h b o p)
      | _, _, _ => None
      end
  | _ => None
  end.

(** The embedded cycle.Config gives its fields to the request. *)
Definition dval_cycleCurveRequest (r : cycleCurveRequest F) : dval F :=
  let c := ccr_Config r in
  DStruct "main" "cycleCurveRequest"
    [("cycle", DString (ccr_Cycle r));
     ("rise_law", DString (Cycle.RiseLaw c)); ("return_law", DString (Cycle.ReturnLaw c));
     ("h", DFloat (Cycle.H c)); ("rise_angle_deg", DFloat (Cycle.RiseAngle c));
     ("outer_dwell_deg", DFloat (Cycle.OuterDwell c));
     ("return_angle_deg", DFloat (Cycle.ReturnAngle c));
     ("inner_dwell_deg", DFloat (Cycle.InnerDwell c)); ("omega_deg_s", DFloat (Cycle.Omega c));
     ("points", DInt (ccr_Points r))].

Definition cycleCurveRequest_of (v : dval F) : option (cycleCurveRequest F) :=
  match v with
  | DStruct _ _ [(_, DString n); (_, DString l1); (_, DString l2); (_, DFloat h);
                 (_, DFloat a1); (_, DFloat a2); (_, DFloat a3); (_, DFloat a4);
                 (_, DFloat o); (_, DInt p)] =>
      Some (mkCycleCurveRequest n (Cycle.mkConfig l1 l2 h a1 a2 a3 a4 o) p)
  | _ => None
  end.

(** ** The zero values the code declares before it decodes into them *)

Definition zero_Recipe : Recipe F := mkRecipe "" "" zero zero.
Definition zero_CycleRecord : CycleRecord F := mkCycleRecord "" zero "" "" zero zero zero zero.
Definition zero_liftRequest : liftRequest F := mkLiftRequest "" None None None zero 0%Z.
Definition zero_cycleCurveRequest : cycleCurveRequest F :=
  mkCycleCurveRequest "" (Cycle.mkConfig "" "" zero zero zero zero zero zero) 0%Z.

(** ** The interfaces *)

Definition indented (v : gval F) : result F string :=
  bind (JsonEncode.MarshalIndent v "" "  ") (fun b => Ok (text b)).

Definition decoded {A} (of_ : dval F -> option A) (r : result F (dval F)) : result F A :=
  bind r (fun v => from_option (of_ v)).

#[export] Instance Recipe_codec : RecordCodec F (Recipe F) := {|
  MarshalIndent r := indented (gval_Recipe r);
  Unmarshal b := decoded Recipe_of (JsonDecode.Unmarshal (bytes b) (dval_Recipe zero_Recipe))
|}.

#[export] Instance CycleRecord_codec : RecordCodec F (CycleRecord F) := {|
  MarshalIndent r := indented (gval_CycleRecord r);
  Unmarshal b :=
    decoded CycleRecord_of (JsonDecode.Unmarshal (bytes b) (dval_CycleRecord zero_CycleRecord))
|}.

Definition decode_body {A} (of_ : dval F -> option A) (v : dval F) (b : string) : result F A :=
  decoded of_ (Decoder_Decode (body_reads [] (bytes b) EOF) v).

#[export] Instance Recipe_body : BodyDecoder F (Recipe F) := {|
  Decode := decode_body Recipe_of (dval_Recipe zero_Recipe)
|}.
#[export] Instance CycleRecord_body : BodyDecoder F (CycleRecord F) := {|
  Decode := decode_body CycleRecord_of (dval_CycleRecord zero_CycleRecord)
|}.
#[export] Instance liftRequest_body : BodyDecoder F (liftRequest F) := {|
  Decode := decode_body liftRequest_of (dval_liftRequest zero_liftRequest)
|}.
#[export] Instance cycleCurveRequest_body : BodyDecoder F (cycleCurveRequest F) := {|
  Decode := decode_body cycleCurveRequest_of (dval_cycleCurveRequest zero_cycleCurveRequest)
|}.
End Records.
