(* ===== verification/JsonTyping.v ===== *)
(** Decoding keeps the type of its target: whatever the text, a variable of a struct type
    still holds a value of that type afterwards.  With that the decoder and the encoder
    are what the store and the handlers ask of a codec. *)
From Stdlib Require Import ZArith Lia String Ascii Bool List SpecFloat.
From S2P Require Import Prelude GoFloat Float64 Strconv Utf8 Scanner JsonGrammar ScannerSpec JsonEncode JsonDecode.
From S2P Require Import JsonDecodeSpec JsonStream JsonStreamSpec Store Handlers JsonRecords.
Import ListNotations.
Local Open Scope Z_scope.

(** * Types *)

Inductive ty :=
| TyString
| TyFloat
| TyInt
| TyPtr (t : ty)
| TyStruct (pkg name : string) (fields : list (string * ty)).

Section Typing.
Context {F : Type} {GS : GoStrconv F}.
Implicit Types (d : decodeState (F := F)) (v : dval F).

(** What is known of every float that [ParseFloat] returns without an error. *)
Context (P : F -> Prop).
Definition parse_gives : Prop := forall s y, ParseFloat s = (y, None) -> P y.

(** A value of a type, its floats as [P] says. *)
Inductive has_type : dval F -> ty -> Prop :=
| type_string s : has_type (DString s) TyString
| type_float x : P x -> has_type (DFloat x) TyFloat
| type_int z : has_type (DInt z) TyInt
| type_nil e t : has_type e t -> has_type (DPtr e None) (TyPtr t)
| type_ptr e x t : has_type e t -> has_type x t -> has_type (DPtr e (Some x)) (TyPtr t)
| type_struct pkg name fs ts :
    Forall2 (fun f t => fst f = fst t /\ has_type (snd f) (snd t)) fs ts ->
    has_type (DStruct pkg name fs) (TyStruct pkg name ts).

(** What may be put at the end of the pointers. *)
Lemma indirect_typed null : forall v t, has_type v t ->
  exists t', has_type (fst (indirect v null)) t' /\
    forall x, has_type x t' -> has_type (snd (indirect v null) x) t.
Proof.
  destruct null.
  { intros v t H. exists t. destruct v; split; auto. }
  fix IH 1. intros v t H. destruct v as [s|x|z|e o|pkg name fs]; try (exists t; split; [exact H|auto]).
  cbn [indirect]. destruct o as [x|].
  - inversion H as [| | | |e' x' t' He Hx|]; subst.
    destruct (IH x t' Hx) as (t1 & H1 & H2). exists t1.
    destruct (indirect x false) as [leaf put]. cbn [fst snd] in *.
    split; [exact H1|]. intros y Hy. constructor; auto.
  - inversion H as [| | |e' t' He| |]; subst.
    destruct (IH e t' He) as (t1 & H1 & H2). exists t1.
    destruct (indirect e false) as [leaf put]. cbn [fst snd] in *.
    split; [exact H1|]. intros y Hy. constructor; auto.
Qed.

Hypothesis HP : parse_gives.

Lemma literal_typed d b v t : has_type v t -> has_type (snd (store_literal d b v)) t.
Proof.
  intros H. unfold store_literal. destruct b as [|c b]; [exact H|]. cbn [literalStore].
  destruct (indirect_typed (c =? 110) v t H) as (t' & Hl & Hput).
  destruct (indirect v (c =? 110)) as [leaf put]. cbn [fst snd] in Hl, Hput.
  repeat case_if; cbn [snd]; auto.
  - destruct leaf as [s|x|z|e o|pkg name fs]; cbn [snd]; auto.
    apply Hput. inversion Hl; subst; constructor; assumption.
  - destruct (unquoteBytes (c :: b)); [|exact H]. destruct leaf; cbn [snd]; auto.
    apply Hput. inversion Hl; subst. constructor.
  - destruct leaf as [s|x|z|e o|pkg name fs]; cbn [snd]; auto.
    + destruct (ParseFloat (text (c :: b))) as [y [e|]] eqn:Ep; cbn [snd]; auto.
      apply Hput. inversion Hl; subst. constructor. exact (HP _ _ Ep).
    + destruct (ParseInt (c :: b) 10 64) as [y [e|]]; cbn [snd]; auto.
      apply Hput. inversion Hl; subst. constructor.
Qed.

Definition fields_typed (fs : list (string * dval F)) (ts : list (string * ty)) : Prop :=
  Forall2 (fun f t => fst f = fst t /\ has_type (snd f) (snd t)) fs ts.

Lemma set_field_typed fs ts : fields_typed fs ts -> forall i fname x x',
  nth_error fs i = Some (fname, x) -> (forall t, has_type x t -> has_type x' t) ->
  fields_typed (set_field i x' fs) ts.
Proof.
  induction 1 as [|[m y] [m' t] fs ts [Hm Hy] H IH]; intros i fname x x' Hi Hx; [now destruct i|].
  destruct i as [|i]; cbn [nth_error set_field] in *.
  - injection Hi as <- <-. constructor; [|exact H]. split; [exact Hm|]. now apply Hx.
  - constructor; [now split|]. now apply (IH i fname x).
Qed.

Lemma member_typed (f : decodeState (F := F) -> dval F -> decodeState (F := F) * dval F) name k d fs ts :
  (forall d v t, has_type v t -> has_type (snd (f d v)) t) ->
  fields_typed fs ts -> fields_typed (snd (store_member f name k d fs)) ts.
Proof.
  intros Hf H. unfold store_member. destruct (find_field (unquoted k) fs) as [i|]; [|exact H].
  destruct (nth_error fs i) as [[fname x]|] eqn:E; [|exact H].
  pose proof (fun t => Hf (with_context d (Some name) (d_FieldStack d ++ [fname])) x t) as Hx.
  destruct (f _ x) as [d1 x']. cbn [snd] in *. now apply (set_field_typed fs ts H i fname x).
Qed.

Lemma store_typed t : forall d v T, has_type v T -> has_type (snd (store t d v)) T.
Proof.
  induction t as [b|l _|l IH] using tree_ind'; intros d v T H.
  - now apply literal_typed.
  - cbn [store]. destruct (indirect_typed false v T H) as (t' & Hl & Hput).
    destruct (indirect v false) as [leaf put]. now apply Hput.
  - rewrite store_obj. destruct (indirect_typed false v T H) as (t' & Hl & Hput).
    destruct (indirect v false) as [leaf put]. cbn [fst snd] in Hl, Hput.
    destruct leaf as [s|x|z|e o|pkg name fs]; try (now apply Hput).
    inversion Hl as [| | | | |p' n' fs' ts Hts]; subst.
    assert (Hm : forall d fs, fields_typed fs ts -> fields_typed (snd (store_members name l d fs)) ts).
    { clear d Hts Hl Hput H fs. induction IH as [|[k t] l Ht _ IHl]; intros d fs Hfs; [exact Hfs|].
      cbn [store_members]. pose proof (member_typed (store t) name k d fs ts Ht Hfs) as E.
      destruct (store_member (store t) name k d fs) as [d1 fs1]. now apply IHl. }
    specialize (Hm d fs Hts). destruct (store_members name l d fs) as [d1 fs1].
    apply Hput. now constructor.
Qed.

Lemma decoded_tree_typed t dis v v' T :
  has_type v T -> decoded_tree t dis v = Ok v' -> has_type v' T.
Proof.
  intros H. unfold decoded_tree. pose proof (store_typed t (init [] dis) v T H) as Ht.
  destruct (store t (init [] dis) v) as [d x]. destruct (d_savedError d); [discriminate|].
  intros E. now injection E as <-.
Qed.

Lemma decoding_typed (s : string) v v' T :
  has_type v T ->
  JsonDecode.Unmarshal (bytes s) v = Ok v' \/ Decoder_Decode (body_reads [] (bytes s) EOF) v = Ok v' ->
  has_type v' T.
Proof.
  intros H [E|E].
  - unfold JsonDecode.Unmarshal in E. destruct (checkValid (bytes s) newScanner) as [e|] eqn:Ev; [discriminate|].
    apply checkValid_accepts, json_accepts in Ev as (t & Ht & Hd).
    rewrite (unmarshal_tree t) in E by auto using bytes_range.
    exact (decoded_tree_typed t false v v' T H E).
  - rewrite decode_whole in E. cbn [concat app] in E.
    pose proof (bytes_range s) as Hb.
    destruct (stream_value_text (F := F) (bytes s)) as [(p & r & Eb & Ep & Ha)|[msg Ep]]; rewrite Ep in E;
      [|discriminate]. cbn [bind] in E.
    apply json_accepts in Ha as (t & Ht & Hd). rewrite Eb in Hb. apply Forall_app in Hb as [Hb _].
    rewrite (unmarshal_tree t) in E by assumption. exact (decoded_tree_typed t true v v' T H E).
Qed.
End Typing.

(** * The records and requests of the service *)

Section Records.
Context {F : Type} {GF : GoFloat F} {GS : GoStrconv F} {FT : FloatText F} {FL : FloatTextLaws F}.

(** Any float will do. *)
Definition any (x : F) : Prop := True.

Lemma parse_any : parse_gives any.
Proof. intros s y _. exact I. Qed.

Definition Recipe_ty : ty :=
  TyStruct "store" "Recipe"
    [("name", TyString); ("type", TyString); ("h", TyFloat); ("beta_deg", TyFloat)]%string.

Definition CycleRecord_ty : ty :=
  TyStruct "store" "CycleRecord"
    [("name", TyString); ("h", TyFloat); ("rise_law", TyString); ("return_law", TyString);
     ("rise_angle_deg", TyFloat); ("outer_dwell_deg", TyFloat); ("return_angle_deg", TyFloat);
     ("inner_dwell_deg", TyFloat)]%string.

Definition liftRequest_ty : ty :=
  TyStruct "main" "liftRequest"
    [("recipe", TyString); ("type", TyPtr TyString); ("h", TyPtr TyFloat); ("beta_deg", TyPtr TyFloat);
     ("omega_deg_s", TyFloat); ("points", TyInt)]%string.

Definition cycleCurveRequest_ty : ty :=
  TyStruct "main" "cycleCurveRequest"
    [("cycle", TyString); ("rise_law", TyString); ("return_law", TyString); ("h", TyFloat);
     ("rise_angle_deg", TyFloat); ("outer_dwell_deg", TyFloat); ("return_angle_deg", TyFloat);
     ("inner_dwell_deg", TyFloat); ("omega_deg_s", TyFloat); ("points", TyInt)]%string.

(** The conversions read back what they are given, and miss nothing of the type. *)
Class Converts {A : Type} (T : ty) (to : A -> dval F) (of_ : dval F -> option A) : Prop := {
  to_typed : forall a, has_type any (to a) T;
  of_to : forall a, of_ (to a) = Some a;
  of_typed : forall v, has_type any v T -> exists a, of_ v = Some a
}.

Ltac typed :=
  repeat first
    [ progress (constructor; cbn [fst snd])
    | match goal with |- _ /\ _ => split end
    | reflexivity
    | exact I ].

Ltac leaves :=
  unfold Recipe_ty, CycleRecord_ty, liftRequest_ty, cycleCurveRequest_ty in *;
  repeat match goal with
  | H : Forall2 _ _ (_ :: _) |- _ => inversion H; clear H; subst
  | H : Forall2 _ _ [] |- _ => inversion H; clear H; subst
  | H : _ /\ _ |- _ => destruct H
  | H : has_type _ _ (TyStruct _ _ _) |- _ => inversion H; clear H; subst
  | f : (string * dval F)%type |- _ => destruct f; cbn [fst snd] in *; subst
  | H : has_type _ _ TyString |- _ => inversion H; clear H; subst
  | H : has_type _ _ TyFloat |- _ => inversion H; clear H; subst
  | H : has_type _ _ TyInt |- _ => inversion H; clear H; subst
  | H : has_type _ _ (TyPtr _) |- _ => inversion H; clear H; subst
  end.

#[export] Instance Recipe_converts : Converts Recipe_ty dval_Recipe Recipe_of.
Proof.
  split.
  - intros []. typed.
  - now intros [].
  - intros v H. leaves. eexists. reflexivity.
Qed.

#[export] Instance CycleRecord_converts : Converts CycleRecord_ty dval_CycleRecord CycleRecord_of.
Proof.
  split.
  - intros []. typed.
  - now intros [].
  - intros v H. leaves. eexists. reflexivity.
Qed.

Lemma opt_ptr_typed {A} (z : dval F) (put : A -> dval F) o t :
  has_type any z t -> (forall a, has_type any (put a) t) -> has_type any (opt_ptr z put o) (TyPtr t).
Proof. intros Hz Hp. destruct o; constructor; auto. Qed.

#[export] Instance liftRequest_converts : Converts liftRequest_ty dval_liftRequest liftRequest_of.
Proof.
  split.
  - intros [r t h b o p]. cbn. typed; apply opt_ptr_typed; intros; constructor; exact I.
  - now intros [r [t|] [h|] [b|] o p].
  - intros v H. leaves; eexists; reflexivity.
Qed.

#[export] Instance cycleCurveRequest_converts :
  Converts cycleCurveRequest_ty dval_cycleCurveRequest cycleCurveRequest_of.
Proof.
  split.
  - intros [n [] p]. cbn. typed.
  - now intros [n [] p].
  - intros v H. leaves. eexists. reflexivity.
Qed.

(** The floats of what a typed variable holds. *)
Lemma Recipe_floats (P : F -> Prop) v r : has_type P v Recipe_ty -> Recipe_of v = Some r -> P (Recipe_H r) /\ P (Recipe_Beta r).
Proof. intros H. leaves. cbn. intros [= <-]. now split. Qed.

Definition record_floats (r : CycleRecord F) : list F := [CR_H r; CR_RiseAngle r; CR_OuterDwell r; CR_ReturnAngle r; CR_InnerDwell r].

Lemma CycleRecord_floats (P : F -> Prop) v r : has_type P v CycleRecord_ty -> CycleRecord_of v = Some r -> Forall P (record_floats r).
Proof. intros H. leaves. cbn. intros [= <-]. repeat constructor; assumption. Qed.

(** ** The laws of the interfaces *)

Lemma decoded_total {A} T to of_ {C : Converts (A := A) T to of_} (r : result F (dval F)) :
  r <> Panic -> (forall v, r = Ok v -> has_type any v T) -> decoded of_ r <> Panic.
Proof.
  intros Hp Hr. destruct r as [v|e|]; cbn [decoded bind]; [|discriminate|contradiction].
  destruct (of_typed v (Hr v eq_refl)) as [a ->]. discriminate.
Qed.

Lemma unmarshal_record_total {A} T to of_ {C : Converts (A := A) T to of_} (b : string) a :
  decoded of_ (JsonDecode.Unmarshal (bytes b) (to a)) <> Panic.
Proof.
  apply (decoded_total T to of_).
  - apply JsonDecodeSpec.Unmarshal_total.
  - intros v E. apply (decoding_typed any parse_any b (to a)); [apply to_typed|now left].
Qed.

Lemma unmarshal_record_error {A} (of_ : dval F -> option A) (b : string) x e s :
  decoded of_ (JsonDecode.Unmarshal (bytes b) x) = Err e -> errors_Is e s = false.
Proof.
  pose proof (Unmarshal_Is (GS := GS) b x) as H.
  destruct (JsonDecode.Unmarshal (bytes b) x) as [v|e'|]; cbn [decoded bind].
  - destruct (of_ v); discriminate.
  - intros E. injection E as <-. now apply H.
  - discriminate.
Qed.

Lemma decode_body_total {A} T to of_ {C : Converts (A := A) T to of_} (b : string) a :
  decode_body of_ (to a) b <> Panic.
Proof.
  apply (decoded_total T to of_).
  - apply JsonStreamSpec.Decode_total.
  - intros v E. apply (decoding_typed any parse_any b (to a)); [apply to_typed|now right].
Qed.

Lemma floatEncoder_total (x : F) : floatEncoder x <> Panic.
Proof.
  unfold floatEncoder. case_if; [discriminate|]. cbv zeta.
  pose proof (AppendFloat_returns x) as H. now destruct (AppendFloat x _) eqn:E; [|destruct (H _ E)].
Qed.

Lemma indented_total (v : gval F) : Marshal v <> Panic -> indented v <> Panic.
Proof.
  unfold indented, JsonEncode.MarshalIndent. destruct (Marshal v) as [b|e|]; cbn [bind]; try congruence.
  now destruct (appendIndent _ _ _).
Qed.

Section GvalInd.
Context (P : gval F -> Prop)
  (Hbool : forall b, P (VBool b)) (Hint : forall z, P (VInt z)) (Hfloat : forall x, P (VFloat x))
  (Hstring : forall s, P (VString s))
  (Hptr : forall e o, match o with Some v => P v | None => True end -> P (VPtr e o))
  (Hslice : forall o, match o with Some l => Forall P l | None => True end -> P (VSlice o))
  (Hmap : forall o, match o with Some l => Forall (fun kv => P (snd kv)) l | None => True end -> P (VMap o))
  (Hstruct : forall n fs, Forall (fun f => P (snd f)) fs -> P (VStruct n fs)).

Fixpoint gval_ind' (v : gval F) : P v :=
  let fix values l : Forall P l :=
    match l with [] => @List.Forall_nil _ _ | v :: l => @List.Forall_cons _ _ _ _ (gval_ind' v) (values l) end in
  let fix entries {A} (l : list (A * gval F)) : Forall (fun kv => P (snd kv)) l :=
    match l with [] => @List.Forall_nil _ _ | kv :: l => @List.Forall_cons _ _ _ _ (gval_ind' (snd kv)) (entries l) end in
  match v with
  | VBool b => Hbool b
  | VInt z => Hint z
  | VFloat x => Hfloat x
  | VString s => Hstring s
  | VPtr e o => Hptr e o (match o with Some v => gval_ind' v | None => I end)
  | VSlice o => Hslice o (match o with Some l => values l | None => I end)
  | VMap o => Hmap o (match o with Some l => entries l | None => I end)
  | VStruct n fs => Hstruct n fs (entries fs)
  end.
End GvalInd.

Lemma bind_total {A B} (m : result F A) (k : A -> result F B) :
  m <> Panic -> (forall a, k a <> Panic) -> bind m k <> Panic.
Proof. destruct m; cbn [bind]; auto; discriminate. Qed.

(** Encoding a value gives its text or an error. *)
Lemma reflectValue_total h (v : gval F) : reflectValue h v <> Panic.
Proof.
  induction v as [b|z|x|s|e o IH|o IH|o IH|n fs IH] using gval_ind'; cbn [reflectValue]; try discriminate.
  - apply floatEncoder_total.
  - destruct o; [exact IH|discriminate].
  - destruct o as [l|]; [|discriminate]. apply bind_total; [|discriminate].
    generalize true. induction IH as [|x l Hx _ IHl]; intros fst_; [discriminate|].
    apply bind_total; [exact Hx|]. intros b. apply bind_total; [apply IHl|discriminate].
  - destruct o as [l|]; [|discriminate]. apply bind_total; [|discriminate].
    induction IH as [|[k x] l Hx _ IHl]; [discriminate|].
    apply bind_total; [exact Hx|]. intros b. apply bind_total; [apply IHl|discriminate].
  - match goal with |- ?f 123 _ <> _ => enough (H : forall next, f next fs <> Panic) by apply H end.
    induction IH as [|[f x] l Hx _ IHl]; intros next; [now case_if|].
    case_if; [apply IHl|]. apply bind_total; [exact Hx|]. intros b.
    apply bind_total; [apply IHl|discriminate].
Qed.

#[export] Instance Recipe_codec_laws : CodecLaws F (Recipe F).
Proof.
  split.
  - intros r. apply indented_total, reflectValue_total.
  - intros b. exact (unmarshal_record_total Recipe_ty dval_Recipe Recipe_of b zero_Recipe).
  - intros b e s. apply unmarshal_record_error.
Qed.

#[export] Instance CycleRecord_codec_laws : CodecLaws F (CycleRecord F).
Proof.
  split.
  - intros r. apply indented_total, reflectValue_total.
  - intros b. exact (unmarshal_record_total CycleRecord_ty dval_CycleRecord CycleRecord_of b zero_CycleRecord).
  - intros b e s. apply unmarshal_record_error.
Qed.

#[export] Instance Recipe_body_laws : DecoderLaws F (Recipe F).
Proof. intros b. exact (decode_body_total Recipe_ty dval_Recipe Recipe_of b zero_Recipe). Qed.
#[export] Instance CycleRecord_body_laws : DecoderLaws F (CycleRecord F).
Proof. intros b. exact (decode_body_total CycleRecord_ty dval_CycleRecord CycleRecord_of b zero_CycleRecord). Qed.
#[export] Instance liftRequest_body_laws : DecoderLaws F (liftRequest F).
Proof. intros b. exact (decode_body_total liftRequest_ty dval_liftRequest liftRequest_of b zero_liftRequest). Qed.
#[export] Instance cycleCurveRequest_body_laws : DecoderLaws F (cycleCurveRequest F).
Proof.
  intros b.
  exact (decode_body_total cycleCurveRequest_ty dval_cycleCurveRequest cycleCurveRequest_of b zero_cycleCurveRequest).
Qed.
End Records.
