(* ===== verification/JsonRoundtrip.v ===== *)
(** The records of the store through the JSON codec and back: what [MarshalIndent] writes
    for a recipe or a cycle record, [Unmarshal] reads as the same record. *)
From Stdlib Require Import ZArith Lia String Ascii Bool List.
From S2P Require Import Prelude GoFloat Strconv Utf8 Scanner JsonGrammar ScannerSpec JsonEncode JsonDecode.
From S2P Require Import JsonDecodeSpec JsonEncodeSpec IndentSpec JsonTyping Store StoreSpec JsonRecords.
From S2P Require Law Cycle.
From stdpp Require gmap.
Import ListNotations.
Local Open Scope Z_scope.

(** * Storing the members of an object into the fields they name *)

Section Store.
Context {F : Type} {GS : GoStrconv F}.
Implicit Types (d : decodeState (F := F)) (v : dval F).

Lemma find_index_exact n v pre post i :
  ~ In n (map fst pre) ->
  find_index (fun m => bytes_eqb (bytes m) (bytes n)) i (pre ++ (n, v) :: post) = Some (i + length pre)%nat.
Proof.
  revert i. induction pre as [|[m x] pre IH]; intros i Hn; cbn [app find_index length].
  - unfold bytes_eqb. destruct (list_eq_dec Z.eq_dec (bytes n) (bytes n)); [f_equal; lia|congruence].
  - unfold bytes_eqb at 1. destruct (list_eq_dec Z.eq_dec (bytes m) (bytes n)) as [E|_].
    + apply bytes_inj in E. cbn in Hn. tauto.
    + rewrite IH by (cbn in Hn; tauto). f_equal. lia.
Qed.

Lemma find_field_exact n v pre post :
  ~ In n (map fst pre) -> find_field (bytes n) (pre ++ (n, v) :: post) = Some (length pre).
Proof. intros H. unfold find_field. now rewrite (find_index_exact n v pre post 0 H). Qed.

Lemma set_field_at n (v v' : dval F) pre post :
  set_field (length pre) v' (pre ++ (n, v) :: post) = pre ++ (n, v') :: post.
Proof.
  induction pre as [|[m x] pre IH]; cbn [length app set_field]; [reflexivity|]. now rewrite IH.
Qed.

(** The literal [k] names the field, and the tree [t] turns its value into the new one,
    without an error. *)
Definition fills (kt : list Z * tree) (f f' : string * dval F) : Prop :=
  unquoteBytes (fst kt) = Some (bytes (fst f)) /\ fst f' = fst f /\
  forall d, store (snd kt) d (snd f) = (d, snd f').

Inductive fills_all : list (list Z * tree) -> list (string * dval F) -> list (string * dval F) -> Prop :=
| fills_nil : fills_all [] [] []
| fills_cons kt l f fs f' fs' : fills kt f f' -> fills_all l fs fs' -> fills_all (kt :: l) (f :: fs) (f' :: fs').

Lemma fills_all_names l fs fs' : fills_all l fs fs' -> map fst fs' = map fst fs.
Proof. induction 1 as [|kt l f fs f' fs' (_ & E & _) _ IH]; cbn; congruence. Qed.

(** A struct is filled field by field. *)
Lemma store_members_fills name l fs fs' d : fills_all l fs fs' -> forall pre,
  NoDup (map fst (pre ++ fs)) -> store_members name l d (pre ++ fs) = (d, pre ++ fs').
Proof.
  induction 1 as [|[k t] l [n v] fs [n' v'] fs' (Hk & Hn & Hv) _ IH]; intros pre Hd; [reflexivity|].
  cbn [fst snd] in *. subst n'. rewrite map_app in Hd. cbn [map fst] in Hd.
  cbn [store_members]. unfold store_member, unquoted. rewrite Hk.
  rewrite find_field_exact by (apply NoDup_remove_2 in Hd; rewrite in_app_iff in Hd; tauto).
  rewrite nth_error_app2, Nat.sub_diag by lia. cbn [nth_error]. rewrite Hv.
  rewrite set_field_at. cbn [with_context d_Struct d_FieldStack].
  replace (with_context (with_context d (Some name) (d_FieldStack d ++ [n])) (d_Struct d) (d_FieldStack d))
    with d by now destruct d.
  change (pre ++ (n, v') :: fs) with (pre ++ [(n, v')] ++ fs). rewrite app_assoc, IH.
  - now rewrite <- app_assoc.
  - rewrite <- app_assoc, map_app. exact Hd.
Qed.

Lemma store_struct_fills pkg name l fs fs' d :
  fills_all l fs fs' -> NoDup (map fst fs) ->
  store (TObj l) d (DStruct pkg name fs) = (d, DStruct pkg name fs').
Proof.
  intros Hf Hd. rewrite store_obj. cbn [indirect].
  pose proof (store_members_fills name l fs fs' d Hf [] Hd) as E. cbn [app] in E. now rewrite E.
Qed.

(** ** Literals *)

Lemma store_string_lit k s d x : string_lit k -> unquoteBytes k = Some (bytes s) ->
  store (TLit k) d (DString x) = (d, DString s).
Proof.
  intros Hk E. destruct (string_lit_start k Hk) as [b ->]. cbn [store]. unfold store_literal, literalStore.
  cbn [Z.eqb Pos.eqb orb indirect]. now rewrite E, text_bytes.
Qed.

Lemma store_number_lit b y d x : number b -> ParseFloat (text b) = (y, None) ->
  store (TLit b) d (DFloat x) = (d, DFloat y).
Proof.
  intros Hb E. destruct (number_start b Hb) as (c & b' & -> & Hc). cbn [store].
  unfold store_literal, literalStore. replace (c =? 110) with false by lia.
  replace ((c =? 116) || (c =? 102)) with false by lia. replace (c =? 34) with false by lia.
  replace (negb (c =? 45) && ((c <? 48) || (57 <? c))) with false by lia.
  cbn [indirect]. now rewrite E.
Qed.
End Store.

(** * The records *)

(** A string of whole runes. *)
Definition utf8 (s : string) : Prop := exists rs, encodes (bytes s) rs.

Section Records.
Context {F : Type} {GF : GoFloat F} {GS : GoStrconv F} {FT : FloatText F}.

(** The text written for the float is a number that is read back as the float. *)
Definition float_kept (x : F) : Prop :=
  exists b, floatEncoder x = Ok b /\ number b /\ ParseFloat (text b) = (x, None).

(** A leaf of a struct, the variable it is read into, and what is read. *)
Definition leaf_kept (v : gval F) (x x' : dval F) : Prop :=
  match v, x, x' with
  | VString s, DString _, DString s' => utf8 s /\ s' = s
  | VFloat y, DFloat _, DFloat y' => float_kept y /\ y' = y
  | _, _, _ => False
  end.

Lemma leaf_tree v x x' : leaf_kept v x x' ->
  exists t, gval_tree true v = Ok t /\ wf t /\ depth t = 0%nat /\
    forall d, store t d x = (d, x').
Proof.
  destruct v as [| |y|s| | | |]; cbn [leaf_kept]; try contradiction.
  - destruct x as [|x| | |]; try contradiction. destruct x' as [|x'| | |]; try contradiction.
    intros [(b & E & Hb & Hp) ->]. exists (TLit b). cbn [gval_tree]. rewrite E. cbn [bind].
    repeat split; auto using store_number_lit. now apply wf_number.
  - destruct x as [x| | | |]; try contradiction. destruct x' as [x'| | | |]; try contradiction.
    intros [[rs Hrs] ->]. exists (TLit (stringEncoder true s)). cbn [gval_tree].
    repeat split; auto using wf_string. intros d. apply store_string_lit; [apply stringEncoder_lit|].
    rewrite string_roundtrip. f_equal. eapply ToValidUTF8_encodes; exact Hrs.
Qed.

(** ** Names that are written as they are *)

Definition plain_name (n : string) : bool := forallb htmlSafeSet (bytes n).

Lemma plain_name_stands b : forallb htmlSafeSet b = true -> stands b b /\ appendHTMLEscape b = b.
Proof.
  induction b as [|c b IH]; intros H; [split; constructor|]. cbn [forallb] in H.
  apply andb_true_iff in H as [Hc Hb]. destruct (IH Hb) as [IH1 IH2].
  unfold htmlSafeSet, safeSet, RuneSelf in Hc. split.
  - constructor; [unfold RuneSelf; lia|lia|lia|exact IH1].
  - cbn [appendHTMLEscape]. replace ((c =? 60) || (c =? 62) || (c =? 38)) with false by lia.
    replace (c =? 0xE2) with false by lia. rewrite IH2. now destruct b as [|? [|? ?]].
Qed.

Lemma plain_key n : plain_name n = true ->
  key_ok (field_key true (plain n)) /\ unquoteBytes (field_key true (plain n)) = Some (bytes n).
Proof.
  intros H. destruct (plain_name_stands _ H) as [Hs He]. unfold field_key, plain. cbn [f_name]. rewrite He.
  split; [|now apply unquote_stands]. split; [constructor; exact (stands_strchars _ _ Hs)|].
  apply enclosed_bytes; [lia..|apply bytes_range].
Qed.

(** ** Structs of leaves *)

(** Plain fields with their values, and the fields of a variable before and after. *)
Inductive fields_kept : list (field * gval F) -> list (string * dval F) -> list (string * dval F) -> Prop :=
| fields_kept_nil : fields_kept [] [] []
| fields_kept_cons n v x x' fs xs xs' :
    plain_name n = true -> leaf_kept v x x' -> fields_kept fs xs xs' ->
    fields_kept ((plain n, v) :: fs) ((n, x) :: xs) ((n, x') :: xs').

Lemma struct_tree name fs xs xs' : fields_kept fs xs xs' ->
  exists l, gval_tree true (VStruct name fs) = Ok (TObj l) /\ wf (TObj l) /\
    depth_members l = 0%nat /\ fills_all l xs xs'.
Proof.
  cbn [gval_tree]. induction 1 as [|n v x x' fs xs xs' Hn Hv _ IH].
  - exists []. repeat split; constructor. constructor.
  - destruct IH as (l & E & Hw & Hd & Hf). destruct (leaf_tree v x x' Hv) as (t & Et & Hwt & Hdt & Hst).
    destruct (plain_key n Hn) as [Hk Hu]. exists ((field_key true (plain n), t) :: l).
    rewrite collect_cons. cbn [fst snd plain f_omitEmpty andb]. rewrite Et. cbn [bind].
    destruct (collect _ fs) as [ts| |]; try discriminate. cbn [bind] in E |- *. injection E as <-.
    split; [reflexivity|]. split; [constructor; constructor; [now split|now inversion Hw]|].
    split; [cbn; rewrite Hdt; exact Hd|]. constructor; [|exact Hf]. repeat split; [exact Hu|exact Hst].
Qed.

(** A struct of leaves is read back from its indented text. *)
Lemma struct_roundtrip name fs pkg tname xs xs' : fields_kept fs xs xs' -> NoDup (map fst xs) ->
  exists s, indented (VStruct name fs) = Ok s /\
    JsonDecode.Unmarshal (bytes s) (DStruct pkg tname xs) = Ok (DStruct pkg tname xs').
Proof.
  intros Hf Hd. destruct (struct_tree name fs xs xs' Hf) as (l & E & Hw & Hdl & Hfill).
  assert (Hdep : depth_ok (depth (TObj l)) []).
  { unfold depth_ok. cbn [depth]. fold (depth_members l). rewrite Hdl. cbn. discriminate. }
  assert (Ws : ws (bytes "  ")) by repeat constructor.
  set (p := pretty [] (bytes "  ") 0 (TObj l)).
  assert (Hp : spells (TObj l) p) by (apply pretty_spells; auto using ws_nil).
  pose proof (appendIndent_pretty [] (bytes "  ") (TObj l) [] (compact (TObj l)) []
                ws_nil (compact_spells _ Hw) ws_nil Hdep) as Ei.
  cbn [app] in Ei. rewrite !app_nil_r in Ei. fold p in Ei.
  exists (text p). split.
  - unfold indented, JsonEncode.MarshalIndent, Marshal. rewrite reflectValue_tree, E. cbn [bind].
    change (bytes "") with (@nil Z). now rewrite Ei.
  - rewrite bytes_text by (apply pretty_bytes; auto using ws_nil).
    assert (Ht : json_text (TObj l) p).
    { pose proof (json_text_intro (TObj l) [] p []) as H. cbn [app] in H. rewrite app_nil_r in H.
      auto using ws_nil. }
    unfold JsonDecode.Unmarshal. pose proof (accepts_json _ _ Ht Hdep) as Ha. unfold accepts in Ha.
    unfold checkValid, reset. cbn [sc_bytes newScanner]. change (mkScanner _ _ _ _ 0) with newScanner. rewrite Ha.
    rewrite (unmarshal_tree (TObj l)) by (auto; apply pretty_bytes; auto using ws_nil).
    unfold decoded_tree. rewrite (store_struct_fills pkg tname l xs xs') by assumption. reflexivity.
Qed.

(** ** The records *)

(** The value [g] fills the variable [z] and makes it [z']. *)
Definition struct_kept (g : gval F) (z z' : dval F) : Prop :=
  match g, z, z' with
  | VStruct _ fs, DStruct p n xs, DStruct p' n' xs' =>
      p' = p /\ n' = n /\ fields_kept fs xs xs' /\ NoDup (map fst xs)
  | _, _, _ => False
  end.

Lemma record_roundtrip {A} (of_ : dval F -> option A) g z z' a :
  struct_kept g z z' -> of_ z' = Some a ->
  exists s, indented g = Ok s /\ decoded of_ (JsonDecode.Unmarshal (bytes s) z) = Ok a.
Proof.
  destruct g as [| | | | | | |gn fs]; try contradiction. destruct z as [| | | |p n xs]; try contradiction.
  destruct z' as [| | | |p' n' xs']; try contradiction. intros (-> & -> & Hf & Hd) Ha.
  destruct (struct_roundtrip gn fs p n xs xs' Hf Hd) as (s & E & Es).
  exists s. rewrite Es. cbn [decoded bind]. now rewrite Ha.
Qed.

Ltac keep :=
  cbn [struct_kept gval_Recipe dval_Recipe gval_CycleRecord dval_CycleRecord];
  repeat split;
    [ repeat (apply fields_kept_cons; [reflexivity|now split|]); apply fields_kept_nil
    | repeat constructor; cbn; intuition discriminate ].

Lemma Recipe_roundtrip (r : Recipe F) :
  utf8 (Recipe_Name r) -> utf8 (Recipe_Type r) -> float_kept (Recipe_H r) -> float_kept (Recipe_Beta r) ->
  exists s, MarshalIndent r = Ok s /\ Store.Unmarshal s = Ok r.
Proof.
  intros H1 H2 H3 H4. apply (record_roundtrip Recipe_of _ _ (dval_Recipe r)); [keep|apply of_to].
Qed.

Lemma CycleRecord_roundtrip (r : CycleRecord F) :
  utf8 (CR_Name r) -> utf8 (CR_RiseLaw r) -> utf8 (CR_ReturnLaw r) -> float_kept (CR_H r) ->
  float_kept (CR_RiseAngle r) -> float_kept (CR_OuterDwell r) -> float_kept (CR_ReturnAngle r) ->
  float_kept (CR_InnerDwell r) ->
  exists s, MarshalIndent r = Ok s /\ Store.Unmarshal s = Ok r.
Proof.
  intros H1 H2 H3 H4 H5 H6 H7 H8.
  apply (record_roundtrip CycleRecord_of _ _ (dval_CycleRecord r)); [keep|apply of_to].
Qed.

(** ** Through the files of the store *)

Lemma utf8_runes s : Forall (fun p => fst p <> RuneError) (runes (bytes s)) -> utf8 s.
Proof.
  intros H. exists (map fst (runes (bytes s))). unfold runes in *.
  apply runes_valid; [apply bytes_range|apply le_n|exact H].
Qed.

Lemma known_utf8 t : Law.Known t = true -> utf8 t.
Proof.
  unfold Law.Known. rewrite !orb_true_iff, !String.eqb_eq.
  intros [[->| ->]| ->]; apply utf8_runes; vm_compute; repeat constructor; discriminate.
Qed.

Lemma name_utf8 name : checkName (F := F) name = Ok tt -> utf8 name.
Proof. intros (rs & He & _)%checkName_iff. now exists rs. Qed.

Lemma valid_recipe_law (r : Recipe F) : Recipe_Validate r = Ok tt -> utf8 (Recipe_Type r).
Proof.
  unfold Recipe_Validate. case_if; [discriminate|]. case_if; [discriminate|]. intros _.
  apply known_utf8. now apply negb_false_iff.
Qed.

Lemma valid_cycle_laws (r : CycleRecord F) :
  CycleRecord_Validate r = Ok tt -> utf8 (CR_RiseLaw r) /\ utf8 (CR_ReturnLaw r).
Proof.
  unfold CycleRecord_Validate, Cycle.Validate. case_if; [discriminate|]. cbn [Cycle.RiseLaw Cycle.ReturnLaw].
  case_if; [discriminate|]. case_if; [discriminate|]. intros _.
  split; apply known_utf8; now apply negb_false_iff.
Qed.
End Records.
