(* ===== verification/JsonFloat.v ===== *)
(** The records of the store with float64 fields: JSON keeps every finite float, so a
    record survives the disk bit for bit. *)
From stdpp Require gmap.
From Stdlib Require Import ZArith Reals Lia String Bool List SpecFloat.
From S2P Require Import Prelude GoFloat Float64 Rounding Nearest Strconv Utf8 Atof AtofSpec DecimalSpec Scanner JsonGrammar JsonEncode JsonDecode JsonDecodeSpec Ftoa FtoaRoundtrip.
From S2P Require Law Kinematics Cycle.
From S2P Require Import Store StoreSpec Handlers JsonStream JsonRecords JsonTyping JsonRoundtrip.
Import ListNotations.
Local Open Scope list_scope.
Local Open Scope Z_scope.

(** * Texts of numbers are bytes *)

Lemma bytes_of_number b : number b -> Forall is_byte b.
Proof.
  intros H. apply number_bytes in H. revert H. apply Forall_impl. intros c H. unfold is_byte, is_number_byte, is_digit in *. lia.
Qed.

(** * Floats *)

Definition is64 (v : float64) : Prop := valid v = true.

(** A binary64 that is neither an infinity nor a NaN. *)
Definition finite64 (v : float64) : Prop := valid v = true /\ finite v = true.

Lemma ordered_magnitudes (s : bool) m e M E : (m <= M)%positive -> e <= E ->
  (if s then SFltb (S754_finite true m e) (S754_finite true M E) else SFltb (S754_finite false M E) (S754_finite false m e)) = false.
Proof.
  intros Hm He. unfold SFltb. pose proof (Pos.compare_spec m M) as C1. pose proof (Pos.compare_spec M m) as C2. unfold Pos.compare in C1, C2.
  destruct s; cbn [SFcompare].
  - destruct (Z.compare_spec e E); [|reflexivity|lia]. destruct C1; [reflexivity|reflexivity|lia].
  - destruct (Z.compare_spec E e); [|lia|reflexivity]. destruct C2; [reflexivity|lia|reflexivity].
Qed.

(** The tests of the code for it. *)
Lemma finite64_iff v : valid v = true -> finite64 v <-> IsNaN v = false /\ IsInf0 v = false.
Proof.
  intros Hv. unfold finite64. cbn [IsNaN IsInf0 Binary64]. destruct v as [s|s| |s m e].
  - now destruct s.
  - split; [easy|]. now destruct s.
  - easy.
  - split; [intros _|easy]. destruct (valid_bounds s m e Hv) as (Hm & He & _).
    split.
    + unfold is_nan, SFeqb. cbn [SFcompare]. rewrite Z.compare_refl. change (Pos.compare_cont Eq m m) with (Pos.compare m m).
      rewrite Pos.compare_refl. now destruct s.
    + unfold is_inf. change (0 <=? 0) with true. cbn [andb].
      assert (Hp : (m <= 9007199254740991)%positive) by (apply Pos.leb_le; rewrite Pos2Z.inj_leb; apply Z.leb_le; change (2 ^ 53) with 9007199254740992 in Hm; lia).
      pose proof (ordered_magnitudes s m e 9007199254740991 971 Hp (proj2 He)) as H.
      destruct s; [exact H|]. cbn [Z.leb orb]. rewrite orb_false_r. exact H.
Qed.

(** JSON keeps it: [floatEncoder] writes a number that [ParseFloat] reads as the float. *)
Lemma float64_kept v : finite64 v -> float_kept v.
Proof.
  intros Hfin. pose proof Hfin as [Hv Hf]. unfold float_kept, floatEncoder.
  destruct (proj1 (finite64_iff v Hv) Hfin) as [-> ->]. cbn [orb].
  set (large := _ && _). cbn [AppendFloat FloatText64].
  destruct (shortest_printed v (if large then 101 else 102) Hv Hf) as (txt & neg & n & x & -> & Ev & Hr & Hx & Hp & He).
  { destruct large; cbn; tauto. }
  assert (Fin : forall b, printed b neg x -> number b /\ ParseFloat (text b) = (v, None)).
  { intros b Hb. pose proof (printed_number b neg x Hb) as Hnum. split; [exact Hnum|]. cbn [ParseFloat Strconv64].
    rewrite bytes_text by (now apply bytes_of_number). rewrite Ev. now apply (printed_parses b neg x n). }
  destruct large.
  - destruct (He eq_refl) as (body & sg & e & E & Her & Hsg & H). change (101 =? 101) with true. cbv iota. rewrite E.
    destruct (trim_exponent_spec body sg e Her Hsg) as (ds & -> & H1 & H2 & H3 & H4).
    eexists. split; [reflexivity|]. apply Fin. now apply H.
  - eexists. split; [reflexivity|]. now apply Fin.
Qed.

(** * Records *)

Lemma positive_finite v : valid v = true -> Kinematics.not_positive v = false -> finite64 v.
Proof. unfold Kinematics.not_positive. rewrite !orb_false_iff. intros Hv [[H1 H2] _]. now apply finite64_iff. Qed.

Lemma motion_finite name v : valid v = true -> Cycle.checkMotionAngle name v = Ok tt -> finite64 v.
Proof.
  unfold Cycle.checkMotionAngle. intros Hv. destruct (Kinematics.not_positive v) eqn:E; [discriminate|]. intros _.
  now apply positive_finite.
Qed.

Lemma dwell_finite name v : valid v = true -> Cycle.checkDwellAngle name v = Ok tt -> finite64 v.
Proof.
  unfold Cycle.checkDwellAngle. intros Hv. destruct (_ || _ || _) eqn:E; [discriminate|]. intros _.
  apply orb_false_iff in E as [E _]. apply orb_false_iff in E. now apply finite64_iff.
Qed.

(** What the store accepts has no infinities and no NaN. *)
Lemma valid_recipe_finite (r : Recipe float64) :
  valid (Recipe_H r) = true -> valid (Recipe_Beta r) = true -> Recipe_Validate r = Ok tt ->
  finite64 (Recipe_H r) /\ finite64 (Recipe_Beta r).
Proof.
  intros H1 H2. unfold Recipe_Validate. case_if; [discriminate|]. case_if; [discriminate|].
  destruct (Kinematics.not_positive (Recipe_H r)) eqn:E1; [discriminate|].
  destruct (Kinematics.not_positive (Recipe_Beta r)) eqn:E2; [discriminate|]. intros _. split; now apply positive_finite.
Qed.

Lemma valid_record_finite (r : CycleRecord float64) :
  Forall is64 (record_floats r) -> CycleRecord_Validate r = Ok tt -> Forall finite64 (record_floats r).
Proof.
  unfold record_floats. rewrite !Forall_cons_iff. intros (V1 & V2 & V3 & V4 & V5 & _).
  unfold CycleRecord_Validate, Cycle.Validate. case_if; [discriminate|].
  cbn [Cycle.RiseLaw Cycle.ReturnLaw Cycle.H Cycle.RiseAngle Cycle.OuterDwell Cycle.ReturnAngle Cycle.InnerDwell].
  case_if; [discriminate|]. case_if; [discriminate|].
  destruct (Kinematics.not_positive (CR_H r)) eqn:E1; [discriminate|]. case_if; [discriminate|]. intros H. inv_binds.
  repeat match goal with u : unit |- _ => destruct u end.
  split; [now apply positive_finite|]. split; [eapply motion_finite; eassumption|]. split; [eapply dwell_finite; eassumption|].
  split; [eapply motion_finite; eassumption|]. split; [eapply dwell_finite; eassumption|constructor].
Qed.

(** What a body is decoded to holds binary64s. *)
Lemma parse_is64 : parse_gives is64.
Proof. intros s y E. pose proof (ParseFloat64_valid (bytes s)) as H. cbn [ParseFloat Strconv64] in E. now rewrite E in H. Qed.

Ltac zero_floats := repeat first [progress (constructor; cbn [fst snd]) | reflexivity].

Lemma decoded_inv {F A} (of_ : dval F -> option A) (m : result F (dval F)) a :
  decoded of_ m = Ok a -> exists v, m = Ok v /\ of_ v = Some a.
Proof.
  unfold decoded. destruct m as [v|e|]; try discriminate. cbn [bind]. destruct (of_ v) as [x|] eqn:E; [|discriminate].
  intros [= <-]. now exists v.
Qed.

Lemma decoded_recipe_valid body (r : Recipe float64) : Decode body = Ok r -> is64 (Recipe_H r) /\ is64 (Recipe_Beta r).
Proof.
  intros E. apply decoded_inv in E as (v & E & Er). apply (Recipe_floats is64 v r); [|exact Er].
  apply (decoding_typed is64 parse_is64 body (dval_Recipe zero_Recipe)); [zero_floats|now right].
Qed.

Lemma decoded_record_valid body (r : CycleRecord float64) : Decode body = Ok r -> Forall is64 (record_floats r).
Proof.
  intros E. apply decoded_inv in E as (v & E & Er). apply (CycleRecord_floats is64 v r); [|exact Er].
  apply (decoding_typed is64 parse_is64 body (dval_CycleRecord zero_CycleRecord)); [zero_floats|now right].
Qed.

(** The record is what its text is decoded to. *)
Lemma recipe_text (r : Recipe float64) :
  valid (Recipe_H r) = true -> valid (Recipe_Beta r) = true ->
  Recipe_Validate r = Ok tt -> checkName (F := float64) (Recipe_Name r) = Ok tt ->
  exists s, MarshalIndent r = Ok s /\ Store.Unmarshal s = Ok r.
Proof.
  intros V1 V2 Hv Hn. destruct (valid_recipe_finite r V1 V2 Hv) as [F1 F2].
  exact (Recipe_roundtrip r (name_utf8 _ Hn) (valid_recipe_law r Hv) (float64_kept _ F1) (float64_kept _ F2)).
Qed.

Lemma record_text (r : CycleRecord float64) :
  Forall is64 (record_floats r) ->
  CycleRecord_Validate r = Ok tt -> checkName (F := float64) (CR_Name r) = Ok tt ->
  exists s, MarshalIndent r = Ok s /\ Store.Unmarshal s = Ok r.
Proof.
  intros V Hv Hn. destruct (valid_cycle_laws r Hv) as [L1 L2]. pose proof (valid_record_finite r V Hv) as Hf.
  unfold record_floats in Hf. rewrite !Forall_cons_iff in Hf. destruct Hf as (F1 & F2 & F3 & F4 & F5 & _).
  apply CycleRecord_roundtrip; try assumption; try (now apply float64_kept). exact (name_utf8 _ Hn).
Qed.

(** C11: The records survive the disk.  A recipe or cycle record that the store accepts is
    written to its file as indented JSON and read back from it by name as the same record,
    every float the same float64: names in any script, numbers and law names, through the
    encoder, the shortest printing, the scanner, the decoder and ParseFloat of the program.
    Every other record of either kind reads as it did before. *)
Theorem records_survive (m : gmap.gmap string string) :
  (forall r : Recipe float64,
     valid (Recipe_H r) = true -> valid (Recipe_Beta r) = true ->
     Recipe_Validate r = Ok tt -> checkName (F := float64) (Recipe_Name r) = Ok tt ->
     exists m', SaveRecipe r (mkFS m []) = (Ok tt, mkFS m' []) /\
       GetRecipe (Recipe_Name r) (mkFS m' []) = (Ok r, mkFS m' []) /\
       (forall n, n <> Recipe_Name r -> fst (GetRecipe n (mkFS m' [])) = fst (GetRecipe n (mkFS m []))) /\
       (forall n, fst (GetCycle n (mkFS m' [])) = fst (GetCycle n (mkFS m [])))) /\
  (forall r : CycleRecord float64,
     Forall is64 (record_floats r) ->
     CycleRecord_Validate r = Ok tt -> checkName (F := float64) (CR_Name r) = Ok tt ->
     exists m', SaveCycle r (mkFS m []) = (Ok tt, mkFS m' []) /\
       GetCycle (CR_Name r) (mkFS m' []) = (Ok r, mkFS m' []) /\
       (forall n, n <> CR_Name r -> fst (GetCycle n (mkFS m' [])) = fst (GetCycle n (mkFS m []))) /\
       (forall n, fst (GetRecipe n (mkFS m' [])) = fst (GetRecipe n (mkFS m [])))).
Proof.
  split.
  - intros r V1 V2 Hv Hn. destruct (recipe_text r V1 V2 Hv Hn) as (s & E & Es). now apply (save_get_recipe r m s).
  - intros r V Hv Hn. destruct (record_text r V Hv Hn) as (s & E & Es). now apply (save_get_cycle r m s).
Qed.

(** A recipe with a stroke of 0.1 through an empty directory. *)
Lemma records_survive_witness :
  let r := mkRecipe "cycloid-lift"%string Law.Cycloid (lit (1 / 10)%const) (of_Z 60) in
  Recipe_Validate r = Ok tt /\
  exists m', SaveRecipe r (mkFS gmap.gmap_empty []) = (Ok tt, mkFS m' []) /\
    GetRecipe "cycloid-lift"%string (mkFS m' []) = (Ok r, mkFS m' []).
Proof.
  intros r. split; [vm_compute; reflexivity|].
  destruct (proj1 (records_survive gmap.gmap_empty) r) as (m' & E & G & _); [vm_compute; reflexivity..|].
  exists m'. split; [exact E|exact G].
Defined.
