(* ===== verification/HandlersSpec.v ===== *)
(** Theorems about the HTTP layer: every request gets one well-formed reply, only
    the two registering requests write, what the curve requests answer branch by
    branch, that a registered record is served back, and what [seed] does. *)
From stdpp Require Import gmap strings.
From Stdlib Require Import ZArith Reals Lra Lia String Bool List.
From S2P Require Import Prelude GoFloat Float64 Strconv Store StoreSpec StoreGlob Handlers.
From S2P Require Law Kinematics KinematicsSpec Cycle CycleSpec Glob GlobSpec.
Import ListNotations.
Local Open Scope go_scope.
Local Open Scope string_scope.

(** ** The grid of a turn *)

(** What [Curve] needs of the arithmetic: the angle of a grid index is one [Point]
    takes. *)
Class TurnGrid (F : Type) {GF : GoFloat F} : Prop :=
  grid_angle : forall n i : Z, (2 <= n <= Kinematics.MaxPoints)%Z -> (0 <= i < n)%Z ->
    let theta := fdiv (fmul (of_const 360) (of_int i)) (of_int (n - 1)) in
    fltb theta (of_const 0) || fltb (of_const (360 + 1 / 1000000000)) theta = false.

#[export] Instance TurnGrid_R : TurnGrid R.
Proof.
  intros n i Hn Hi. ideal. apply orb_false_iff.
  assert (0 < IZR (n - 1))%R by (apply IZR_lt; lia).
  assert (0 <= IZR i)%R by (apply IZR_le; lia).
  assert (IZR i <= IZR (n - 1))%R by (apply IZR_le; lia).
  assert (0 <= IZR i / IZR (n - 1) <= 1)%R.
  { split; [apply Rmult_le_pos; [assumption|apply Rlt_le, Rinv_0_lt_compat; assumption]|].
    apply (Rmult_le_reg_r (IZR (n - 1))); [assumption|]. field_simplify; lra. }
  replace (360 * IZR i / IZR (n - 1))%R with (360 * (IZR i / IZR (n - 1)))%R by (field; lra).
  split; apply Rltb_false; lra.
Qed.

Section CurveTotal.
Context {F : Type} {GF : GoFloat F} {TG : TurnGrid F}.

Lemma Curve_points (c : Cycle.Config F) points :
  Cycle.Validate c = Ok tt -> (points <= Kinematics.MaxPoints)%Z ->
  exists pts, Cycle.Curve (Cycle.mkSegments (CycleSpec.layout c) (CycleSpec.p4 c)) points = Ok pts.
Proof.
  intros Hv Hp.
  unfold Cycle.Curve. rewrite Z.gtb_ltb.
  set (n := if (points <? Kinematics.MinPoints)%Z then _ else _).
  assert (Hn : (2 <= n <= Kinematics.MaxPoints)%Z).
  { unfold n, Kinematics.MinPoints, Kinematics.MaxPoints in *. case_if; lia. }
  destruct (Z.ltb_spec Kinematics.MaxPoints n); [lia|].
  destruct (mapM_exists (Cycle.curve_point (Cycle.mkSegments (CycleSpec.layout c) (CycleSpec.p4 c)) n)
              (fun _ _ => True) (range n)) as (pts & Hpts & _); [|eauto].
  intros i Hi. apply range_In in Hi. unfold Cycle.curve_point.
  pose proof (grid_angle n i Hn Hi) as Hg. cbv zeta in Hg.
  destruct (CycleSpec.Point_located c Hv _ Hg) as (sg & m & _ & _ & _ & Hm).
  unfold Kinematics.FullTurn in *. rewrite Hm. cbn [bind].
  destruct (CycleSpec.locate_In c
              (fdiv (fmul (of_const 360) (of_int i)) (of_int (n - 1)))) as (sg' & -> & _).
  cbn [from_option bind]. eauto.
Qed.

Lemma Curve_total (c : Cycle.Config F) points :
  Cycle.Validate c = Ok tt -> (points <= Kinematics.MaxPoints)%Z ->
  exists segs pts js, Cycle.Build c = Ok segs /\ Cycle.Curve segs points = Ok pts /\
    Cycle.Discontinuities segs = Ok js.
Proof.
  intros Hv Hp. destruct (Curve_points c points Hv Hp) as (pts & Hpts).
  destruct (CycleSpec.Discontinuities_Forall c Hv (fun _ => True)) as (js & Hj & _); eauto.
  do 3 eexists. split; [now apply CycleSpec.Build_accepted|]. eauto.
Qed.

Lemma Curve_too_many (segs : Cycle.Segments F) points :
  (Kinematics.MaxPoints < points)%Z -> Cycle.Curve segs points = Err Kinematics.too_many_points.
Proof.
  intros Hp. unfold Cycle.Curve. rewrite Z.gtb_ltb. unfold Kinematics.MinPoints, Kinematics.MaxPoints in *.
  destruct (Z.ltb_spec points 2); [lia|]. destruct (Z.ltb_spec 200001 points); [reflexivity|lia].
Qed.
End CurveTotal.

Lemma InternalSeams_total {F} {GF : GoFloat F} (s : Kinematics.Spec F) theta0 :
  Kinematics.Validate s = Ok tt -> exists l, Kinematics.InternalSeams s theta0 = Ok l.
Proof.
  intros Hv. unfold Kinematics.InternalSeams. rewrite Hv. cbn [bind].
  case_if; [eauto|]. cbv zeta.
  edestruct (Kinematics.SampleSide_Ok s theta0) as (w1 & _ & ->); [exact Hv|]. cbn [bind].
  edestruct (Kinematics.SampleSide_Ok s theta0) as (w2 & _ & ->); [exact Hv|]. cbn [bind].
  eauto.
Qed.

(** ** One reply per request *)

Section Replies.
Context {F : Type} {GF : GoFloat F} {GS : GoStrconv F} {TG : TurnGrid F} {DD : DataDir}.
Context {RC : RecordCodec F (Recipe F)} {CC : RecordCodec F (CycleRecord F)}.
Context {RL : CodecLaws F (Recipe F)} {CL : CodecLaws F (CycleRecord F)}.
Context {BR : BodyDecoder F (Recipe F)} {BC : BodyDecoder F (CycleRecord F)}.
Context {BL : BodyDecoder F (liftRequest F)} {BCC : BodyDecoder F (cycleCurveRequest F)}.
Context {BRL : DecoderLaws F (Recipe F)} {BCL : DecoderLaws F (CycleRecord F)}.
Context {BLL : DecoderLaws F (liftRequest F)} {BCCL : DecoderLaws F (cycleCurveRequest F)}.

(** An error body names the status it is sent with. *)
Definition error_body (code : Z) (body : option (json F)) : Prop :=
  exists msg, body = Some (JObj [("error", JMsg msg); ("status", JInt code)]).

(** The replies the handlers give: success, or an error that says so in its body. *)
Definition well_formed (rp : reply F) : Prop :=
  match rp with
  | Reply code body =>
      code = StatusOK \/ code = StatusCreated \/
      (code = StatusBadRequest \/ code = StatusNotFound) /\ error_body code body
  | Crash => False
  end.

Definition answers (h : handler F) : Prop := forall w, well_formed (fst (h w)).

Lemma writeErr_well_formed code msg :
  code = StatusBadRequest \/ code = StatusNotFound -> well_formed (writeErr code msg).
Proof. intros H. right. right. split; [exact H|]. now exists msg. Qed.

Lemma bad_request_well_formed e : well_formed (bad_request e).
Proof. apply writeErr_well_formed. now left. Qed.

Lemma recipeStoreError_well_formed e : well_formed (recipeStoreError e).
Proof. unfold recipeStoreError. case_if; apply writeErr_well_formed; auto. Qed.

Lemma answers_reply rp : well_formed rp -> answers (reply_with rp).
Proof. intros H w. exact H. Qed.

Lemma answers_write code v :
  code = StatusOK \/ code = StatusCreated -> answers (reply_with (writeJSON code v)).
Proof. intros H. apply answers_reply. unfold well_formed, writeJSON. tauto. Qed.

Lemma answers_decode {A} {_ : BodyDecoder F A} {_ : DecoderLaws F A} body (k : A -> handler F) :
  (forall v, answers (k v)) -> answers (decode body k).
Proof.
  intros Hk w. unfold decode. destruct (Decode body) eqn:E; [apply Hk|now apply writeErr_well_formed; left|].
  now apply Decode_total in E.
Qed.

Lemma answers_store {A} (m : io F A) h (k : A -> handler F) :
  (forall w, fst (m w) <> Panic) -> (forall e, well_formed (h e)) -> (forall v, answers (k v)) ->
  answers (store_call m h k).
Proof.
  intros Hm Hh Hk w. unfold store_call. specialize (Hm w).
  destruct (m w) as [[v|e|] w']; [apply Hk|apply Hh|contradiction].
Qed.

(** A computation whose result decides: its value, its error, no panic. *)
Lemma answers_pure {A} (m : result F A) h (k : A -> handler F) :
  m <> Panic -> (forall e, m = Err e -> well_formed (h e)) ->
  (forall v, m = Ok v -> answers (k v)) -> answers (pure_call m h k).
Proof.
  intros Hm Hh Hk w. unfold pure_call, store_call.
  destruct m as [v|e|]; [now apply Hk|now apply Hh|contradiction].
Qed.

(** *** The store never panics *)

Lemma Recipe_Validate_total (r : Recipe F) : Recipe_Validate r <> Panic.
Proof. unfold Recipe_Validate. repeat case_if; discriminate. Qed.

Lemma CycleRecord_Validate_total (r : CycleRecord F) : CycleRecord_Validate r <> Panic.
Proof. unfold CycleRecord_Validate. case_if; [discriminate|]. apply CycleSpec.Config_Validate_no_panic. Qed.

Lemma checkName_total name : checkName (F := F) name <> Panic.
Proof. unfold checkName. repeat case_if; discriminate. Qed.

Lemma read_total {A} {_ : RecordCodec F A} {_ : CodecLaws F A} file w :
  fst (readJSONFile (A := A) file w) <> Panic.
Proof.
  rewrite read_spec. unfold read_outcome. destruct (next_fault w) as [[f|] w']; [discriminate|].
  destruct (files w !! file) as [b|]; [|discriminate].
  pose proof (Unmarshal_total (A := A) b). cbn. destruct (Unmarshal b); [discriminate..|contradiction].
Qed.

Lemma write_total {A} {_ : RecordCodec F A} {_ : CodecLaws F A} name (v : A) w :
  fst (atomicWriteJSON name v w) <> Panic.
Proof.
  unfold atomicWriteJSON, io_bind at 1, of_result.
  pose proof (MarshalIndent_total v). destruct (MarshalIndent v); [|discriminate|contradiction].
  unfold io_bind, io_catch, os_WriteFile, os_Rename, os_Remove.
  destruct (next_fault w) as [[[e [n|]]|] w1]; try discriminate.
  cbn. destruct (next_fault _) as [[f|] w2].
  - destruct (next_fault w2) as [[f'|] w3]; [discriminate|].
    destruct (files w3 !! _); discriminate.
  - destruct (files w2 !! _); [discriminate|].
    destruct (next_fault w2) as [[f'|] w3]; [discriminate|].
    destruct (files w3 !! _); discriminate.
Qed.

Lemma GetRecipe_total name w : fst (GetRecipe (F := F) name w) <> Panic.
Proof.
  unfold GetRecipe, io_bind, of_result, io_catch.
  pose proof (checkName_total name). destruct (checkName name) as [[]|e|]; [|discriminate|contradiction].
  pose proof (read_total (A := Recipe F) (recipe_file name) w) as R.
  destruct (readJSONFile (recipe_file name) w) as [[v|e|] w']; [discriminate| |contradiction].
  case_if; discriminate.
Qed.

Lemma GetCycle_total name w : fst (GetCycle (F := F) name w) <> Panic.
Proof.
  unfold GetCycle, io_bind, of_result, io_catch.
  pose proof (checkName_total name). destruct (checkName name) as [[]|e|]; [|discriminate|contradiction].
  pose proof (read_total (A := CycleRecord F) (cycle_file name) w) as R.
  destruct (readJSONFile (cycle_file name) w) as [[v|e|] w']; [discriminate| |contradiction].
  case_if; discriminate.
Qed.

Lemma SaveRecipe_total (r : Recipe F) w : fst (SaveRecipe r w) <> Panic.
Proof.
  unfold SaveRecipe, io_bind, of_result.
  pose proof (Recipe_Validate_total r). destruct (Recipe_Validate r) as [[]|e|]; [|discriminate|contradiction].
  pose proof (checkName_total (Recipe_Name r)).
  destruct (checkName (Recipe_Name r)) as [[]|e|]; [|discriminate|contradiction]. apply write_total.
Qed.

Lemma SaveCycle_total (r : CycleRecord F) w : fst (SaveCycle r w) <> Panic.
Proof.
  unfold SaveCycle, io_bind, of_result.
  pose proof (CycleRecord_Validate_total r).
  destruct (CycleRecord_Validate r) as [[]|e|]; [|discriminate|contradiction].
  pose proof (checkName_total (CR_Name r)).
  destruct (checkName (CR_Name r)) as [[]|e|]; [|discriminate|contradiction]. apply write_total.
Qed.

(** A list fails only where the path of the data directory is a pattern. *)
Definition bad_directory_path : Prop := Glob.hasMeta (bytes data_dir) = true.

Lemma ListRecipes_answer w :
  (exists rs w', ListRecipes (F := F) w = (Ok rs, w')) \/
  fst (ListRecipes (F := F) w) = Err Glob.ErrBadPattern /\ bad_directory_path.
Proof.
  destruct (list_good (A := Recipe F) "recipe_*.json" w (Unmarshal_total (A := Recipe F))) as [H|H];
    change (is_ok (fst (ListRecipes (F := F) w)) = true) in H || change (fst (ListRecipes (F := F) w) = Err Glob.ErrBadPattern) in H.
  - left. destruct (ListRecipes w) as [[rs|e|] w']; [eauto|discriminate H..].
  - right. split; [exact H|]. unfold bad_directory_path. destruct (Glob.hasMeta (bytes data_dir)) eqn:E; [reflexivity|].
    apply GlobSpec.plain_hasMeta in E. destruct (lists_total (F := F) w RL CL E) as [Hok _]. now rewrite H in Hok.
Qed.

Lemma ListCycles_answer w :
  (exists rs w', ListCycles (F := F) w = (Ok rs, w')) \/
  fst (ListCycles (F := F) w) = Err Glob.ErrBadPattern /\ bad_directory_path.
Proof.
  destruct (list_good (A := CycleRecord F) "cycle_*.json" w (Unmarshal_total (A := CycleRecord F))) as [H|H];
    change (is_ok (fst (ListCycles (F := F) w)) = true) in H || change (fst (ListCycles (F := F) w) = Err Glob.ErrBadPattern) in H.
  - left. destruct (ListCycles w) as [[rs|e|] w']; [eauto|discriminate H..].
  - right. split; [exact H|]. unfold bad_directory_path. destruct (Glob.hasMeta (bytes data_dir)) eqn:E; [reflexivity|].
    apply GlobSpec.plain_hasMeta in E. destruct (lists_total (F := F) w RL CL E) as [_ Hok]. now rewrite H in Hok.
Qed.

(** *** The curve requests, branch by branch *)

(** What [serveLift] replies to a specification that resolved. *)
Definition lift_answer (spec : Kinematics.Spec F) (points : Z) (rp : reply F) : Prop :=
  match Kinematics.Validate spec with
  | Ok _ =>
      if (points <? 2)%Z then rp = points_too_few
      else if (Kinematics.MaxPoints <? points)%Z then rp = bad_request Kinematics.too_many_points
      else exists pts peaks seams,
        Kinematics.Curve spec points = Ok (pts, peaks) /\
        length pts = Z.to_nat points /\
        Kinematics.InternalSeams spec (of_const 0) = Ok seams /\
        rp = writeJSON StatusOK (json_liftResponse spec pts peaks seams)
  | Err e => rp = bad_request e
  | Panic => False
  end.

Lemma serveLift_answer (req : liftRequest F) w spec w' :
  resolveSpec req w = (Ok spec, w') ->
  exists rp, serveLift req w = (rp, w') /\ lift_answer spec (lift_Points req) rp.
Proof.
  intros E. unfold serveLift, store_call at 1. rewrite E. unfold lift_answer, pure_call, store_call.
  destruct (Kinematics.Validate spec) as [[]|e|] eqn:Hv; [|eauto|now apply Kinematics.Validate_no_panic in Hv].
  unfold Kinematics.MinPoints, reply_with. destruct (Z.ltb_spec (lift_Points req) 2); [eauto|].
  destruct (Z.ltb_spec Kinematics.MaxPoints (lift_Points req)).
  - rewrite (proj2 (KinematicsSpec.curve_rejects spec (lift_Points req))) by assumption. eauto.
  - destruct (KinematicsSpec.curve_valid spec (lift_Points req) Hv) as (pts & peaks & Hc & _ & Hl & _); [lia|].
    destruct (InternalSeams_total spec (of_const 0) Hv) as (seams & Hs). rewrite Hc, Hs.
    eexists. split; [reflexivity|]. exists pts, peaks, seams. repeat split; try assumption.
    rewrite Hl. unfold Kinematics.grid_points, Kinematics.MinPoints. f_equal. lia.
Qed.

Lemma resolveSpec_total (req : liftRequest F) w : fst (resolveSpec req w) <> Panic.
Proof.
  unfold resolveSpec. case_if.
  - case_if; [discriminate|]. unfold io_bind.
    pose proof (GetRecipe_total (lift_Recipe req) w) as G.
    destruct (GetRecipe (lift_Recipe req) w) as [[v|e|] w']; [discriminate..|contradiction].
  - destruct (lift_Type req), (lift_H req), (lift_Beta req); discriminate.
Qed.

(** What [serveCycle] replies. *)
Definition cycle_answer (cfg : Cycle.Config F) (points : Z) (rp : reply F) : Prop :=
  match Cycle.Validate cfg with
  | Ok _ =>
      if (points <? 2)%Z then rp = points_too_few
      else if (Kinematics.MaxPoints <? points)%Z then rp = bad_request Kinematics.too_many_points
      else exists segs pts joints,
        Cycle.Build cfg = Ok segs /\ Cycle.Curve segs points = Ok pts /\
        length pts = Z.to_nat points /\ Cycle.Discontinuities segs = Ok joints /\
        rp = writeJSON StatusOK (json_cycleCurveResponse cfg segs pts joints)
  | Err e => rp = bad_request e
  | Panic => False
  end.

Lemma serveCycle_answer (cfg : Cycle.Config F) points w :
  exists rp, serveCycle cfg points w = (rp, w) /\ cycle_answer cfg points rp.
Proof.
  unfold serveCycle, cycle_answer, pure_call, store_call.
  destruct (Cycle.Validate cfg) as [[]|e|] eqn:Hv; [|eauto|now apply CycleSpec.Config_Validate_no_panic in Hv].
  unfold Kinematics.MinPoints, reply_with. destruct (Z.ltb_spec points 2); [eauto|].
  pose proof (CycleSpec.Validate_accepts cfg tt Hv) as A.
  rewrite (CycleSpec.ok_rise_law cfg A), (CycleSpec.ok_return_law cfg A). cbn [negb orb].
  destruct (Z.ltb_spec Kinematics.MaxPoints points).
  - rewrite (CycleSpec.Build_accepted cfg Hv). rewrite Curve_too_many by assumption. eauto.
  - destruct (Curve_total cfg points Hv) as (segs & pts & js & -> & Hc & Hj); [lia|].
    rewrite Hc, Hj. eexists. split; [reflexivity|]. exists segs, pts, js. repeat split; try assumption.
    unfold Cycle.Curve in Hc. unfold Kinematics.MinPoints in Hc.
    destruct (Z.ltb_spec points 2) in Hc; [lia|]. rewrite Z.gtb_ltb in Hc.
    destruct (Z.ltb_spec Kinematics.MaxPoints points) in Hc; [lia|].
    apply mapM_length in Hc. now rewrite Hc, range_length.
Qed.

Lemma answers_lift (req : liftRequest F) : answers (serveLift req).
Proof.
  intros w. destruct (resolveSpec req w) as [[spec|e|] w'] eqn:E.
  - destruct (serveLift_answer req w spec w' E) as (rp & -> & Ha). cbn [fst].
    revert Ha. unfold lift_answer.
    destruct (Kinematics.Validate spec); [|intros ->; apply bad_request_well_formed|tauto].
    case_if; [intros ->; apply writeErr_well_formed; now left|].
    case_if; [intros ->; apply bad_request_well_formed|].
    intros (pts & peaks & seams & _ & _ & _ & ->). now left.
  - unfold serveLift, store_call. rewrite E. apply recipeStoreError_well_formed.
  - pose proof (resolveSpec_total req w) as R. rewrite E in R. contradiction.
Qed.

Lemma answers_cycle (cfg : Cycle.Config F) points : answers (serveCycle cfg points).
Proof.
  intros w. destruct (serveCycle_answer cfg points w) as (rp & -> & Ha). cbn [fst].
  revert Ha. unfold cycle_answer.
  destruct (Cycle.Validate cfg); [|intros ->; apply bad_request_well_formed|tauto].
  case_if; [intros ->; apply writeErr_well_formed; now left|].
  case_if; [intros ->; apply bad_request_well_formed|].
  intros (segs & pts & js & _ & _ & _ & _ & ->). now left.
Qed.

Lemma answers_put_recipe r : answers (putRecipe r).
Proof.
  apply answers_decode. intros v.
  apply answers_pure; [apply Recipe_Validate_total|intros; apply bad_request_well_formed|]. intros _ _.
  apply answers_store; [apply SaveRecipe_total|apply bad_request_well_formed|]. intros _.
  apply answers_write. now right.
Qed.

Lemma answers_put_cycle r : answers (putCycle r).
Proof.
  apply answers_decode. intros v.
  apply answers_pure; [apply CycleRecord_Validate_total|intros; apply bad_request_well_formed|]. intros _ _.
  apply answers_store; [apply SaveCycle_total|apply bad_request_well_formed|]. intros _.
  apply answers_write. now right.
Qed.

Lemma answers_get_recipe name : answers (getRecipe name).
Proof.
  apply answers_store; [apply GetRecipe_total|apply recipeStoreError_well_formed|].
  intros v. apply answers_write. now left.
Qed.

Lemma answers_get_cycle name : answers (getCycle name).
Proof.
  apply answers_store; [apply GetCycle_total|apply recipeStoreError_well_formed|].
  intros v. apply answers_write. now left.
Qed.

(** A list request is answered, or told that the path of the directory is malformed. *)
Definition list_failed (rp : reply F) : Prop := rp = server_error Glob.ErrBadPattern /\ bad_directory_path.

Lemma answers_listRecipes w : list_failed (fst (listRecipes w)) \/ well_formed (fst (listRecipes w)).
Proof.
  unfold listRecipes, store_call. destruct (ListRecipes_answer w) as [(rs & w' & ->)|[E H]]; [right; now left|].
  left. destruct (ListRecipes w) as [[rs|e|] w']; try discriminate E. injection E as ->. now split.
Qed.

Lemma answers_listCycles w : list_failed (fst (listCycles w)) \/ well_formed (fst (listCycles w)).
Proof.
  unfold listCycles, store_call. destruct (ListCycles_answer w) as [(rs & w' & ->)|[E H]]; [right; now left|].
  left. destruct (ListCycles w) as [[rs|e|] w']; try discriminate E. injection E as ->. now split.
Qed.

Lemma answers_lift_get r : answers (liftCurveGET r).
Proof.
  unfold liftCurveGET. case_if; [apply answers_reply, writeErr_well_formed; now left|].
  destruct (query_omega _); [|apply answers_reply, writeErr_well_formed; now left].
  destruct (query_points _); [apply answers_lift|apply answers_reply, writeErr_well_formed; now left].
Qed.

Lemma answers_lift_post r : answers (liftCurvePOST r).
Proof. apply answers_decode. intros v. apply answers_lift. Qed.

Lemma answers_cycle_get r : answers (cycleCurveGET r).
Proof.
  unfold cycleCurveGET. case_if; [apply answers_reply, writeErr_well_formed; now left|].
  destruct (query_omega _); [|apply answers_reply, writeErr_well_formed; now left].
  destruct (query_points _); [|apply answers_reply, writeErr_well_formed; now left].
  apply answers_store; [apply GetCycle_total|apply recipeStoreError_well_formed|].
  intros v. apply answers_cycle.
Qed.

Lemma answers_cycle_post r : answers (cycleCurvePOST r).
Proof.
  apply answers_decode. intros v. cbv zeta. case_if; [|apply answers_cycle].
  apply answers_store; [apply GetCycle_total|apply recipeStoreError_well_formed|].
  intros c. apply answers_cycle.
Qed.

Lemma answers_healthz : answers healthz.
Proof. apply answers_write. now left. Qed.

#[local] Hint Resolve answers_healthz answers_put_recipe
  answers_put_cycle answers_get_recipe answers_get_cycle answers_lift_get answers_lift_post
  answers_cycle_get answers_cycle_post : replies.

(** The router's own replies. *)
Definition router_reply (rp : reply F) : Prop :=
  rp = Reply StatusNotFound None \/ rp = Reply StatusMethodNotAllowed None.

Lemma by_method_cases (P : reply F -> Prop) (get post : option (handler F)) r w :
  (forall h, get = Some h -> Method r = GET \/ Method r = HEAD -> P (fst (h w))) ->
  (forall h, post = Some h -> P (fst (h w))) ->
  let rp := fst (by_method get post r w) in router_reply rp \/ P rp.
Proof.
  intros Hg Hp. unfold by_method.
  destruct (Method r); [destruct get|destruct get|destruct post|];
    cbv zeta; (right; first [now apply Hg; auto|now apply Hp]) || (left; right; reflexivity).
Qed.

(** The requests for a list. *)
Definition asks_for_list (r : Request) : Prop :=
  (Method r = GET \/ Method r = HEAD) /\ (Path r = ["recipes"] \/ Path r = ["cycles"]).

(** C4: every request gets exactly one well-formed reply, whatever its body and
    parameters, whatever the store's files hold and whatever system calls fail: no
    handler panics, the status is 200 or 201, or 400 or 404 with a JSON body that
    carries the message and repeats the status, or the router's own 404 or 405.  The one
    exception is a request for a list when the path of the data directory holds a
    character of the pattern language: then it may get a 500, and only one that says the
    pattern is malformed. *)
Theorem every_request_answered (r : Request) (w : FS) :
  let rp := fst (routes r w) in
  router_reply rp \/ well_formed rp \/ list_failed rp /\ asks_for_list r.
Proof.
  set (P := fun rp => well_formed rp \/ list_failed rp /\ asks_for_list r).
  change (router_reply (fst (routes r w)) \/ P (fst (routes r w))). unfold routes.
  assert (Hn : router_reply (fst (not_routed (F := F) w)) \/ P (fst (not_routed (F := F) w))) by (left; left; reflexivity).
  assert (Hnone : forall h : handler F, None = Some h -> P (fst (h w))) by discriminate.
  assert (Hok : forall h' h : handler F, answers h' -> Some h' = Some h -> P (fst (h w))).
  { intros h' h H E. injection E as <-. left. apply H. }
  destruct (Path r) as [|p [|name [|x rest]]] eqn:Ep; auto;
    repeat (case_if; [try apply Hn; apply by_method_cases; intros h E;
      first [discriminate E | intros; refine (Hok _ h _ E); solve [auto with replies] | intros Hm; injection E as <-]|]);
    try apply Hn.
  - apply String.eqb_eq in Heqb0 as ->. destruct (answers_listRecipes w) as [H|H]; [right|left; exact H].
    split; [exact H|]. split; [exact Hm|left; exact Ep].
  - apply String.eqb_eq in Heqb1 as ->. destruct (answers_listCycles w) as [H|H]; [right|left; exact H].
    split; [exact H|]. split; [exact Hm|right; exact Ep].
Qed.
End Replies.

(** ** Which requests write *)

Section ReadOnly.
Context {F : Type} {GF : GoFloat F} {GS : GoStrconv F} {DD : DataDir}.
Context {RC : RecordCodec F (Recipe F)} {CC : RecordCodec F (CycleRecord F)}.
Context {BR : BodyDecoder F (Recipe F)} {BC : BodyDecoder F (CycleRecord F)}.
Context {BL : BodyDecoder F (liftRequest F)} {BCC : BodyDecoder F (cycleCurveRequest F)}.

(** A computation that leaves the files as they are. *)
Definition reads {A} (m : FS -> A * FS) : Prop := forall w, files (snd (m w)) = files w.

Lemma reads_reply (rp : reply F) : reads (reply_with rp).
Proof. intros w. reflexivity. Qed.

Lemma reads_store {A} (m : io F A) h (k : A -> handler F) :
  reads m -> (forall v, reads (k v)) -> reads (store_call m h k).
Proof.
  intros Hm Hk w. unfold store_call. specialize (Hm w).
  destruct (m w) as [[v|e|] w']; cbn [snd] in *; [|exact Hm..]. rewrite <- Hm. apply Hk.
Qed.

Lemma reads_pure {A} (m : result F A) h (k : A -> handler F) :
  (forall v, reads (k v)) -> reads (pure_call m h k).
Proof. intros Hk. apply reads_store; [intros w; reflexivity|exact Hk]. Qed.

Lemma reads_decode {A} {_ : BodyDecoder F A} body (k : A -> handler F) :
  (forall v, reads (k v)) -> reads (decode body k).
Proof. intros Hk w. unfold decode. destruct (Decode body); [apply Hk|reflexivity..]. Qed.

Lemma reads_bind {A B} (m : io F A) (k : A -> io F B) :
  reads m -> (forall v, reads (k v)) -> reads (io_bind m k).
Proof.
  intros Hm Hk w. unfold io_bind. specialize (Hm w).
  destruct (m w) as [[v|e|] w']; cbn [snd] in *; [|exact Hm..]. rewrite <- Hm. apply Hk.
Qed.

Lemma reads_file {A} {_ : RecordCodec F A} file : reads (readJSONFile (A := A) file).
Proof.
  intros w. rewrite read_spec. unfold read_outcome. destruct (next_fault w) as [f w'] eqn:E.
  now apply next_fault_files in E.
Qed.

Lemma reads_read_all {A} {_ : RecordCodec F A} fs : reads (read_all (A := A) fs).
Proof.
  induction fs as [|f fs IH]; intros w; [reflexivity|]. cbn [read_all].
  pose proof (reads_file (A := A) f w) as R.
  destruct (readJSONFile f w) as [[v|e|] w'] eqn:E; cbn [snd] in R; [| |exact R].
  - rewrite <- R. apply reads_bind; [exact IH|]. intros v' w''. reflexivity.
  - rewrite <- R. apply IH.
Qed.

Lemma reads_glob {A} name (k : list string -> io F A) :
  (forall l, reads (k l)) -> reads (io_bind (filepath_Glob name) k).
Proof.
  intros Hk. apply reads_bind; [|exact Hk]. intros w. rewrite filepath_Glob_files. reflexivity.
Qed.

Lemma reads_get {A} {_ : RecordCodec F A} name file (e' : error F) :
  reads (io_bind (of_result (checkName name)) (fun _ =>
    io_catch (readJSONFile (A := A) file) (fun err =>
      if errors_Is err ErrNotExist then fail e' else fail err))).
Proof.
  apply reads_bind; [intros w; reflexivity|]. intros _ w. unfold io_catch.
  pose proof (reads_file (A := A) file w) as R.
  destruct (readJSONFile file w) as [[v|e|] w'] eqn:E; cbn [snd] in R; try exact R.
  now case_if.
Qed.

Lemma reads_GetRecipe name : reads (GetRecipe (F := F) name).
Proof. apply reads_get. Qed.
Lemma reads_GetCycle name : reads (GetCycle (F := F) name).
Proof. apply reads_get. Qed.
Lemma reads_ListRecipes : reads (ListRecipes (F := F)).
Proof. apply reads_glob. intros l. apply reads_read_all. Qed.
Lemma reads_ListCycles : reads (ListCycles (F := F)).
Proof. apply reads_glob. intros l. apply reads_read_all. Qed.

Lemma reads_resolveSpec (req : liftRequest F) : reads (resolveSpec req).
Proof.
  unfold resolveSpec. case_if.
  - case_if; [intros w; reflexivity|]. apply reads_bind; [apply reads_GetRecipe|].
    intros v w. reflexivity.
  - destruct (lift_Type req), (lift_H req), (lift_Beta req); intros w; reflexivity.
Qed.

Lemma reads_serveLift (req : liftRequest F) : reads (serveLift req).
Proof.
  apply reads_store; [apply reads_resolveSpec|]. intros spec.
  apply reads_pure. intros _. case_if; [apply reads_reply|].
  apply reads_pure. intros [pts peaks]. apply reads_pure. intros seams. apply reads_reply.
Qed.

Lemma reads_serveCycle (cfg : Cycle.Config F) points : reads (serveCycle cfg points).
Proof.
  apply reads_pure. intros _. case_if; [apply reads_reply|]. case_if; [apply reads_reply|].
  apply reads_pure. intros segs. apply reads_pure. intros pts.
  apply reads_pure. intros js. apply reads_reply.
Qed.

Lemma reads_lift_get r : reads (liftCurveGET r).
Proof.
  unfold liftCurveGET. case_if; [apply reads_reply|].
  destruct (query_omega _); [|apply reads_reply].
  destruct (query_points _); [apply reads_serveLift|apply reads_reply].
Qed.

Lemma reads_lift_post r : reads (liftCurvePOST r).
Proof. apply reads_decode. intros v. apply reads_serveLift. Qed.

Lemma reads_cycle_get r : reads (cycleCurveGET r).
Proof.
  unfold cycleCurveGET. case_if; [apply reads_reply|].
  destruct (query_omega _); [|apply reads_reply].
  destruct (query_points _); [|apply reads_reply].
  apply reads_store; [apply reads_GetCycle|]. intros v. apply reads_serveCycle.
Qed.

Lemma reads_cycle_post r : reads (cycleCurvePOST r).
Proof.
  apply reads_decode. intros v. cbv zeta. case_if; [|apply reads_serveCycle].
  apply reads_store; [apply reads_GetCycle|]. intros c. apply reads_serveCycle.
Qed.

Lemma reads_lists : reads (listRecipes (F := F)) /\ reads (listCycles (F := F)).
Proof.
  split; (apply reads_store; [first [apply reads_ListRecipes|apply reads_ListCycles]|];
          intros v; apply reads_reply).
Qed.

Lemma reads_gets name : reads (getRecipe (F := F) name) /\ reads (getCycle (F := F) name).
Proof.
  split; (apply reads_store; [first [apply reads_GetRecipe|apply reads_GetCycle]|];
          intros v; apply reads_reply).
Qed.

Lemma reads_by_method (get post : option (handler F)) r :
  (forall h, get = Some h -> reads h) ->
  (Method r = POST -> forall h, post = Some h -> reads h) -> reads (by_method get post r).
Proof.
  intros Hg Hp. unfold by_method. destruct (Method r); [destruct get|destruct get|destruct post|];
    try apply reads_reply; [now apply Hg|now apply Hg|now apply Hp].
Qed.

(** C32: only registering writes.  Unless a request is POST /recipes or POST /cycles,
    the files of the data directory are the same after it as before, whatever
    fails. *)
Theorem only_registration_writes (r : Request) (w : FS) :
  ~ (Method r = POST /\ (Path r = ["recipes"] \/ Path r = ["cycles"])) ->
  files (snd (routes r w)) = files w.
Proof.
  intros Hr. revert w. change (reads (routes r)). unfold routes.
  pose proof (reads_lists) as [L1 L2].
  assert (Hn : reads (not_routed (F := F))) by apply reads_reply.
  assert (Hnone : forall h : handler F, None = Some h -> reads h) by discriminate.
  destruct (Path r) as [|p [|name [|x rest]]]; try exact Hn.
  - destruct (String.eqb_spec p "healthz"); [apply reads_by_method; auto; intros h E;
      injection E as <-; apply reads_reply|].
    destruct (String.eqb_spec p "recipes") as [->|_].
    { apply reads_by_method; [intros h E; injection E as <-; exact L1|].
      intros Hm. exfalso. apply Hr. auto. }
    destruct (String.eqb_spec p "cycles") as [->|_].
    { apply reads_by_method; [intros h E; injection E as <-; exact L2|].
      intros Hm. exfalso. apply Hr. auto. }
    case_if; [apply reads_by_method; [|intros _]; intros h E; injection E as <-;
      first [apply reads_lift_get|apply reads_lift_post]|].
    case_if; [apply reads_by_method; [|intros _]; intros h E; injection E as <-;
      first [apply reads_cycle_get|apply reads_cycle_post]|]. exact Hn.
  - destruct (reads_gets name) as [G1 G2]. case_if; [exact Hn|].
    case_if; [apply reads_by_method; auto; intros h E; injection E as <-; exact G1|].
    case_if; [apply reads_by_method; auto; intros h E; injection E as <-; exact G2|]. exact Hn.
Qed.
End ReadOnly.

(** ** The curve requests *)

Section Curves.
Context {F : Type} {GF : GoFloat F} {GS : GoStrconv F} {TG : TurnGrid F} {DD : DataDir}.
Context {RC : RecordCodec F (Recipe F)} {CC : RecordCodec F (CycleRecord F)}.
Context {BR : BodyDecoder F (Recipe F)} {BC : BodyDecoder F (CycleRecord F)}.
Context {BL : BodyDecoder F (liftRequest F)} {BCC : BodyDecoder F (cycleCurveRequest F)}.

(** The reply to a store lookup that failed. *)
Definition lookup_failed (e : error F) (rp : reply F) : Prop :=
  rp = writeErr (if errors_Is e ErrNotFound then StatusNotFound else StatusBadRequest)
                (Error_text e).

Lemma lookup_failed_intro e : lookup_failed e (recipeStoreError e).
Proof. unfold lookup_failed, recipeStoreError. now case_if. Qed.

(** What a lift request asks for and gets. *)
Definition lift_outcome (req : liftRequest F) (w : FS) (rp : reply F) : Prop :=
  if String.eqb (lift_Recipe req) "" then
    match lift_Type req, lift_H req, lift_Beta req with
    | Some tp, Some h, Some beta =>
        lift_answer (Kinematics.mkSpec tp h beta (lift_Omega req)) (lift_Points req) rp
    | _, _, _ => rp = bad_request nothing_given
    end
  else
    match lift_Type req, lift_H req, lift_Beta req with
    | None, None, None =>
        match fst (GetRecipe (lift_Recipe req) w) with
        | Ok rec =>
            lift_answer (Kinematics.mkSpec (Recipe_Type rec) (Recipe_H rec) (Recipe_Beta rec)
                           (lift_Omega req)) (lift_Points req) rp
        | Err e => lookup_failed e rp
        | Panic => rp = Crash
        end
    | _, _, _ => rp = bad_request recipe_and_values
    end.

Lemma lift_served (req : liftRequest F) (w : FS) : lift_outcome req w (fst (serveLift req w)).
Proof.
  assert (Herr : forall e w', resolveSpec req w = (Err e, w') ->
            fst (serveLift req w) = recipeStoreError e).
  { intros e w' E. unfold serveLift, store_call. now rewrite E. }
  assert (Hok : forall spec w', resolveSpec req w = (Ok spec, w') ->
            lift_answer spec (lift_Points req) (fst (serveLift req w))).
  { intros spec w' E. destruct (serveLift_answer req w spec w' E) as (rp & -> & Ha). exact Ha. }
  unfold lift_outcome. destruct (String.eqb (lift_Recipe req) "") eqn:En.
  - assert (E : resolveSpec req w =
      match lift_Type req, lift_H req, lift_Beta req with
      | Some tp, Some h, Some beta => (Ok (Kinematics.mkSpec tp h beta (lift_Omega req)), w)
      | _, _, _ => (Err nothing_given, w)
      end).
    { unfold resolveSpec. rewrite En. cbn [negb].
      destruct (lift_Type req), (lift_H req), (lift_Beta req); reflexivity. }
    destruct (lift_Type req), (lift_H req), (lift_Beta req); try (rewrite (Herr _ _ E); reflexivity);
      now apply (Hok _ w).
  - assert (E : resolveSpec req w =
      match lift_Type req, lift_H req, lift_Beta req with
      | None, None, None =>
          io_bind (GetRecipe (lift_Recipe req)) (fun rec =>
            ret (Kinematics.mkSpec (Recipe_Type rec) (Recipe_H rec) (Recipe_Beta rec)
                   (lift_Omega req))) w
      | _, _, _ => (Err recipe_and_values, w)
      end).
    { unfold resolveSpec. rewrite En. cbn [negb].
      destruct (lift_Type req), (lift_H req), (lift_Beta req); reflexivity. }
    destruct (lift_Type req), (lift_H req), (lift_Beta req); try (rewrite (Herr _ _ E); reflexivity).
    unfold io_bind in E. destruct (GetRecipe (lift_Recipe req) w) as [[rec|e|] w'] eqn:G; cbn [fst].
    + now apply (Hok _ w').
    + rewrite (Herr _ _ E). apply lookup_failed_intro.
    + unfold serveLift, store_call. now rewrite E.
Qed.

Definition refused (msg : string) (rp : reply F) : Prop :=
  rp = writeErr StatusBadRequest [Lit msg].

Definition with_default (req : liftRequest F) : liftRequest F :=
  mkLiftRequest (lift_Recipe req) (lift_Type req) (lift_H req) (lift_Beta req) (lift_Omega req)
    (or_default (lift_Points req)).

Lemma routes_lift r :
  Path r = ["lift"] ->
  routes r = by_method (Some (liftCurveGET r)) (Some (liftCurvePOST r)) r.
Proof. intros Hp. unfold routes. rewrite Hp. reflexivity. Qed.

Lemma routes_cycle_curve r :
  Path r = ["cycle-curve"] ->
  routes r = by_method (Some (cycleCurveGET r)) (Some (cycleCurvePOST r)) r.
Proof. intros Hp. unfold routes. rewrite Hp. reflexivity. Qed.

(** C30: what /lift answers, branch by branch, in every arithmetic.  POST: a recipe with
    values beside it, or neither a recipe nor all three values, is a 400; an unknown
    recipe a 404; otherwise the specification is checked, then the number of points
    against 2 and 200001 (a missing or zero number meaning 361), and the reply is a
    200 with exactly that many points of [Curve], the closed-form peaks and the
    internal seams.  GET: the same for the recipe named in the query, after the checks
    of the parameters. *)
Theorem lift_request_answer (r : Request) (w : FS) :
  Path r = ["lift"] ->
  match Method r with
  | POST =>
      match Decode (Body r) with
      | Ok req => lift_outcome (with_default req) w (fst (routes r w))
      | Err e => fst (routes r w) =
          writeErr StatusBadRequest (Lit "请求体不是合法 JSON 或含未知字段: " :: Error_text e)
      | Panic => fst (routes r w) = Crash
      end
  | GET =>
      if String.eqb (query_Get (Query r) "recipe") "" then
        refused "GET /lift 必须带 recipe 参数；临时计算请用 POST /lift" (fst (routes r w))
      else match query_omega (Query r), query_points (Query r) with
      | None, _ => refused "omega_deg_s 必须为正数" (fst (routes r w))
      | Some _, None => refused "points 必须是整数" (fst (routes r w))
      | Some omega, Some points =>
          lift_outcome (mkLiftRequest (query_Get (Query r) "recipe") None None None omega points)
            w (fst (routes r w))
      end
  | _ => True
  end.
Proof.
  intros Hp. rewrite (routes_lift r Hp). unfold by_method.
  destruct (Method r); try exact I.
  - unfold liftCurveGET. cbv zeta. destruct (String.eqb _ ""); [reflexivity|].
    destruct (query_omega (Query r)); [|reflexivity].
    destruct (query_points (Query r)); [apply lift_served|reflexivity].
  - unfold liftCurvePOST, decode. destruct (Decode (Body r)) as [req|e|]; [|reflexivity..].
    apply (lift_served (with_default req)).
Qed.

(** What a request for a stored cycle gets. *)
Definition stored_cycle_outcome (name : string) (omega : F) (points : Z) (w : FS) (rp : reply F) : Prop :=
  match fst (GetCycle name w) with
  | Ok rec => cycle_answer (ToConfig rec omega) points rp
  | Err e => lookup_failed e rp
  | Panic => rp = Crash
  end.

Lemma stored_cycle_served name omega points w :
  stored_cycle_outcome name omega points w
    (fst (store_call (GetCycle name) recipeStoreError
            (fun rec => serveCycle (ToConfig rec omega) points) w)).
Proof.
  unfold stored_cycle_outcome, store_call.
  destruct (GetCycle name w) as [[rec|e|] w']; cbn [fst].
  - destruct (serveCycle_answer (ToConfig rec omega) points w') as (rp & -> & Ha). exact Ha.
  - apply lookup_failed_intro.
  - reflexivity.
Qed.

(** C31: what /cycle-curve answers, branch by branch.  The configuration is the stored
    cycle's with the speed asked for, or the body's own; it is checked, then the
    number of points against 2 and 200001, and the reply is a 200 with the segments of
    [Build], exactly that many points of [Curve] and all joints; nothing after the
    checks can fail. *)
Theorem cycle_request_answer (r : Request) (w : FS) :
  Path r = ["cycle-curve"] ->
  match Method r with
  | POST =>
      match Decode (Body r) with
      | Ok req =>
          let points := or_default (ccr_Points req) in
          if String.eqb (ccr_Cycle req) "" then
            cycle_answer (ccr_Config req) points (fst (routes r w))
          else stored_cycle_outcome (ccr_Cycle req) (Cycle.Omega (ccr_Config req)) points w
                 (fst (routes r w))
      | Err e => fst (routes r w) =
          writeErr StatusBadRequest (Lit "请求体不是合法 JSON 或含未知字段: " :: Error_text e)
      | Panic => fst (routes r w) = Crash
      end
  | GET =>
      if String.eqb (query_Get (Query r) "cycle") "" then
        refused "GET /cycle-curve 必须带 cycle 参数；临时计算请用 POST /cycle-curve" (fst (routes r w))
      else match query_omega (Query r), query_points (Query r) with
      | None, _ => refused "omega_deg_s 必须为正数" (fst (routes r w))
      | Some _, None => refused "points 必须是整数" (fst (routes r w))
      | Some omega, Some points =>
          stored_cycle_outcome (query_Get (Query r) "cycle") omega points w (fst (routes r w))
      end
  | _ => True
  end.
Proof.
  intros Hp. rewrite (routes_cycle_curve r Hp). unfold by_method.
  destruct (Method r); try exact I.
  - unfold cycleCurveGET. cbv zeta. destruct (String.eqb _ ""); [reflexivity|].
    destruct (query_omega (Query r)); [|reflexivity].
    destruct (query_points (Query r)); [apply stored_cycle_served|reflexivity].
  - unfold cycleCurvePOST, decode. destruct (Decode (Body r)) as [req|e|]; [|reflexivity..].
    cbv zeta. destruct (String.eqb (ccr_Cycle req) ""); cbn [negb]; [|apply stored_cycle_served].
    destruct (serveCycle_answer (ccr_Config req) (or_default (ccr_Points req)) w) as (rp & -> & Ha).
    exact Ha.
Qed.
End Curves.

(** ** Registering, and starting *)

Section Register.
Context {F : Type} {GF : GoFloat F} {GS : GoStrconv F} {DD : DataDir}.
Context {RC : RecordCodec F (Recipe F)} {CC : RecordCodec F (CycleRecord F)}.
Context {BR : BodyDecoder F (Recipe F)} {BC : BodyDecoder F (CycleRecord F)}.
Context {BL : BodyDecoder F (liftRequest F)} {BCC : BodyDecoder F (cycleCurveRequest F)}.

Lemma positive_encodable (x : F) :
  Kinematics.not_positive x = false -> encodable (JFloat x) = true.
Proof.
  unfold Kinematics.not_positive. intros E. apply orb_false_iff in E as [E _].
  cbn [encodable]. now rewrite E.
Qed.

Lemma Recipe_encodable (r : Recipe F) : Recipe_Validate r = Ok tt -> encodable (json_Recipe r) = true.
Proof.
  unfold Recipe_Validate. repeat (case_if; [intros; discriminate|]). intros _.
  unfold json_Recipe. cbn [encodable forallb snd].
  pose proof (positive_encodable (Recipe_H r)) as E1. pose proof (positive_encodable (Recipe_Beta r)) as E2.
  cbn [encodable] in E1, E2. rewrite E1, E2 by assumption. reflexivity.
Qed.

Lemma CycleRecord_encodable (r : CycleRecord F) :
  CycleRecord_Validate r = Ok tt -> encodable (json_CycleRecord r) = true.
Proof.
  unfold CycleRecord_Validate, Cycle.Validate. repeat (case_if; [intros; discriminate|]).
  intros E. inv_binds. cbn in *.
  repeat match goal with Q : Cycle.checkMotionAngle _ _ = Ok _ |- _ =>
    apply CycleSpec.checkMotionAngle_ok in Q as [Q _] end.
  repeat match goal with Q : Cycle.checkDwellAngle _ _ = Ok _ |- _ =>
    apply CycleSpec.checkDwellAngle_ok in Q as (? & ? & _) end.
  repeat match goal with Q : Kinematics.not_positive _ = false |- _ =>
    apply positive_encodable in Q; cbn [encodable] in Q end.
  unfold json_CycleRecord. cbn [encodable forallb snd].
  repeat match goal with Q : _ = _ |- _ => rewrite Q; clear Q end. reflexivity.
Qed.

(** The 200 reply to a GET of a record. *)
Definition served_recipe (name : string) (w : FS) (r : Recipe F) : Prop :=
  routes (mkRequest GET ["recipes"; name] [] "") w =
  (Reply StatusOK (Some (JObj [("recipe", json_Recipe r)])), w).

Definition served_cycle (name : string) (w : FS) (r : CycleRecord F) : Prop :=
  routes (mkRequest GET ["cycles"; name] [] "") w =
  (Reply StatusOK (Some (JObj [("cycle", json_CycleRecord r)])), w).

Lemma valid_name_not_slash name : checkName (F := F) name = Ok tt -> String.eqb name "/" = false.
Proof. intros E. destruct (String.eqb_spec name "/") as [->|]; [discriminate E|reflexivity]. Qed.

Lemma routes_get_recipe name :
  String.eqb name "/" = false -> routes (mkRequest GET ["recipes"; name] [] "") = getRecipe name.
Proof. intros E. unfold routes. cbn [Path]. now rewrite E. Qed.

Lemma routes_get_cycle name :
  String.eqb name "/" = false -> routes (mkRequest GET ["cycles"; name] [] "") = getCycle name.
Proof. intros E. unfold routes. cbn [Path]. now rewrite E. Qed.

Lemma get_recipe_request name w v :
  checkName (F := F) name = Ok tt -> Recipe_Validate v = Ok tt ->
  GetRecipe name w = (Ok v, w) -> served_recipe name w v.
Proof.
  intros Hn Hv G. unfold served_recipe. rewrite routes_get_recipe by now apply valid_name_not_slash.
  unfold getRecipe, store_call. rewrite G.
  unfold reply_with, writeJSON, Encode. cbn [encodable forallb snd].
  now rewrite (Recipe_encodable v Hv).
Qed.

Lemma get_cycle_request name w v :
  checkName (F := F) name = Ok tt -> CycleRecord_Validate v = Ok tt ->
  GetCycle name w = (Ok v, w) -> served_cycle name w v.
Proof.
  intros Hn Hv G. unfold served_cycle. rewrite routes_get_cycle by now apply valid_name_not_slash.
  unfold getCycle, store_call. rewrite G.
  unfold reply_with, writeJSON, Encode. cbn [encodable forallb snd].
  now rewrite (CycleRecord_encodable v Hv).
Qed.

(** what is registered is served.  When no system call fails, POST /recipes with a
    body that reads as a valid recipe of a valid name answers 201 with the recipe,
    and from then on GET /recipes/<name> answers 200 with the same recipe. *)
Theorem registered_recipe_served (body b : string) (r : Recipe F) (m : gmap string string) :
  Decode body = Ok r -> Recipe_Validate r = Ok tt -> checkName (F := F) (Recipe_Name r) = Ok tt ->
  MarshalIndent r = Ok b -> Unmarshal b = Ok r ->
  exists m', routes (mkRequest POST ["recipes"] [] body) (mkFS m []) =
      (Reply StatusCreated (Some (JObj [("recipe", json_Recipe r)])), mkFS m' []) /\
    served_recipe (Recipe_Name r) (mkFS m' []) r.
Proof.
  intros Hd Hv Hn Hm Hu. destruct (SaveRecipe_ok r m b Hv Hn Hm) as (m' & E & Hb & _).
  exists m'. split.
  - change (routes (mkRequest POST ["recipes"] [] body))
      with (putRecipe (mkRequest POST ["recipes"] [] body)).
    unfold putRecipe, decode. cbn [Body]. rewrite Hd. unfold pure_call, store_call.
    rewrite Hv, E. unfold reply_with, writeJSON, Encode. cbn [encodable forallb snd].
    now rewrite (Recipe_encodable r Hv).
  - apply get_recipe_request; try assumption. now apply (GetRecipe_stored _ b).
Qed.

(** the same for POST /cycles and GET /cycles/<name>. *)
Theorem registered_cycle_served (body b : string) (r : CycleRecord F) (m : gmap string string) :
  Decode body = Ok r -> CycleRecord_Validate r = Ok tt -> checkName (F := F) (CR_Name r) = Ok tt ->
  MarshalIndent r = Ok b -> Unmarshal b = Ok r ->
  exists m', routes (mkRequest POST ["cycles"] [] body) (mkFS m []) =
      (Reply StatusCreated (Some (JObj [("cycle", json_CycleRecord r)])), mkFS m' []) /\
    served_cycle (CR_Name r) (mkFS m' []) r.
Proof.
  intros Hd Hv Hn Hm Hu. destruct (SaveCycle_ok r m b Hv Hn Hm) as (m' & E & Hb & _).
  exists m'. split.
  - change (routes (mkRequest POST ["cycles"] [] body))
      with (putCycle (mkRequest POST ["cycles"] [] body)).
    unfold putCycle, decode. cbn [Body]. rewrite Hd. unfold pure_call, store_call.
    rewrite Hv, E. unfold reply_with, writeJSON, Encode. cbn [encodable forallb snd].
    now rewrite (CycleRecord_encodable r Hv).
  - apply get_cycle_request; try assumption. now apply (GetCycle_stored _ b).
Qed.

(** C37: start-up.  On a directory without the recipe [cycloid-lift], [seed] registers it
    and touches no other record; when the recipe reads, whatever its values, [seed]
    changes nothing; when its file is corrupt, [seed] fails and changes nothing. *)
Theorem seed_keeps_existing (m : gmap string string) (b : string) :
  Recipe_Validate (seed_recipe (F := F)) = Ok tt ->
  MarshalIndent (seed_recipe (F := F)) = Ok b -> Unmarshal b = Ok (seed_recipe (F := F)) ->
  match m !! recipe_file seed_name with
  | None =>
      exists m', seed (F := F) (mkFS m []) = (Ok tt, mkFS m' []) /\
        GetRecipe seed_name (mkFS m' []) = (Ok seed_recipe, mkFS m' []) /\
        (forall n, n <> seed_name -> m' !! recipe_file n = m !! recipe_file n) /\
        (forall n, m' !! cycle_file n = m !! cycle_file n) /\
        seed (F := F) (mkFS m' []) = (Ok tt, mkFS m' [])
  | Some old =>
      match Unmarshal (A := Recipe F) old with
      | Ok _ => seed (F := F) (mkFS m []) = (Ok tt, mkFS m [])
      | Err e => errors_Is e ErrNotExist = false -> errors_Is e ErrNotFound = false ->
                 exists e', seed (F := F) (mkFS m []) = (Err e', mkFS m [])
      | Panic => True
      end
  end.
Proof.
  intros Hv Hm Hu. set (f := recipe_file seed_name).
  assert (Hn : checkName (F := F) seed_name = Ok tt) by (vm_compute; reflexivity).
  assert (G : forall m (v : Recipe F) b, m !! f = Some b -> Unmarshal b = Ok v ->
            seed (F := F) (mkFS m []) = (Ok tt, mkFS m [])).
  { intros m0 v b0 E E'. unfold seed. now rewrite (GetRecipe_stored seed_name b0 v m0 Hn E E'). }
  destruct (m !! f) as [old|] eqn:Ef.
  - destruct (Unmarshal old) as [v|e|] eqn:Eu; [now apply (G m v old)| |exact I].
    intros He1 He2. unfold seed, GetRecipe, io_bind, of_result, io_catch. rewrite Hn, read_spec.
    unfold read_outcome, next_fault. cbn [faults files]. fold f. rewrite Ef, Eu.
    cbn [errors_Is]. rewrite He1. cbn [fail errors_Is]. rewrite He2. cbn [negb]. eauto.
  - destruct (SaveRecipe_ok (seed_recipe (F := F)) m b Hv Hn Hm) as (m' & E & Hb & Hr & Hc).
    exists m'. split; [|split; [now apply (GetRecipe_stored _ b)|split; [exact Hr|split; [exact Hc|]]]].
    + unfold seed, GetRecipe, io_bind at 1, of_result, io_catch. rewrite Hn, read_spec.
      unfold read_outcome, next_fault. cbn [faults files]. fold f. rewrite Ef. cbn. exact E.
    + now apply (G m' (seed_recipe (F := F)) b).
Qed.
End Register.

(** ** Infinite results *)

Section Infinite.
Context {F : Type} {GF : GoFloat F} {GS : GoStrconv F} {TG : TurnGrid F} {DD : DataDir}.
Context {RC : RecordCodec F (Recipe F)} {CC : RecordCodec F (CycleRecord F)}.
Context {BR : BodyDecoder F (Recipe F)} {BC : BodyDecoder F (CycleRecord F)}.
Context {BL : BodyDecoder F (liftRequest F)} {BCC : BodyDecoder F (cycleCurveRequest F)}.


















End Infinite.
(** * The theorems at concrete requests *)

(** Instances that know one value of each kind. *)
Section Constant.
Context {F : Type}.

Definition one_body {A} (v : A) : BodyDecoder F A := {| Decode := fun _ => Ok v |}.

Lemma one_body_laws {A} (v : A) : DecoderLaws F A (BD := one_body v).
Proof. intros b. discriminate. Qed.

Definition one_float (x : F) : GoStrconv F := {| ParseFloat := fun _ => (x, None) |}.
End Constant.

Definition recipe_R : Recipe R := mkRecipe "cycloid-lift" Law.Cycloid 10%R 60%R.
Definition record_R : CycleRecord R :=
  mkCycleRecord "c" 10%R Law.Cosine Law.Parabolic 90%R 90%R 120%R 60%R.
Definition lift_R : liftRequest R := mkLiftRequest "" (Some Law.Cosine) (Some 10%R) (Some 60%R) 360%R 0.
Definition cycle_R : cycleCurveRequest R := mkCycleCurveRequest "" (ToConfig record_R 360%R) 0.

#[local] Instance toy_dir : DataDir := plain_dir.
#[local] Instance toy_float : GoStrconv R := one_float 360%R.
#[local] Instance toy_recipe : RecordCodec R (Recipe R) := one_record recipe_R.
#[local] Instance toy_record : RecordCodec R (CycleRecord R) := one_record record_R.
#[local] Instance toy_recipe_body : BodyDecoder R (Recipe R) := one_body recipe_R.
#[local] Instance toy_record_body : BodyDecoder R (CycleRecord R) := one_body record_R.
#[local] Instance toy_lift_body : BodyDecoder R (liftRequest R) := one_body lift_R.
#[local] Instance toy_cycle_body : BodyDecoder R (cycleCurveRequest R) := one_body cycle_R.

#[local] Instance toy_recipe_laws : CodecLaws R (Recipe R) := one_record_laws recipe_R.
#[local] Instance toy_record_laws : CodecLaws R (CycleRecord R) := one_record_laws record_R.
#[local] Instance toy_recipe_body_laws : DecoderLaws R (Recipe R) := one_body_laws recipe_R.
#[local] Instance toy_record_body_laws : DecoderLaws R (CycleRecord R) := one_body_laws record_R.
#[local] Instance toy_lift_body_laws : DecoderLaws R (liftRequest R) := one_body_laws lift_R.
#[local] Instance toy_cycle_body_laws : DecoderLaws R (cycleCurveRequest R) := one_body_laws cycle_R.

Lemma every_request_answered_witness :
  let r := mkRequest POST ["recipes"] [] "{}" in
  let rp := fst (routes (F := R) r (mkFS ∅ [Some (mkFault ENOSPC None)])) in
  router_reply rp \/ well_formed rp \/ list_failed rp /\ asks_for_list r.
Proof.
  apply (every_request_answered (F := R)).
Defined.

Lemma only_registration_writes_witness :
  files (snd (routes (F := R) (mkRequest POST ["lift"] [] "{}") (mkFS {["recipe_a.json" := "{}"]} []))) =
  {["recipe_a.json" := "{}"]}.
Proof.
  rewrite (only_registration_writes (F := R)); [reflexivity|]. cbn. intros [_ [E | E]]; discriminate E.
Defined.

Lemma lift_request_answer_witness :
  lift_outcome (with_default lift_R) (mkFS ∅ [])
    (fst (routes (F := R) (mkRequest POST ["lift"] [] "{}") (mkFS ∅ []))).
Proof. exact (lift_request_answer (F := R) (mkRequest POST ["lift"] [] "{}") (mkFS ∅ []) eq_refl). Defined.

Lemma cycle_request_answer_witness :
  cycle_answer (ToConfig record_R 360%R) 361
    (fst (routes (F := R) (mkRequest POST ["cycle-curve"] [] "{}") (mkFS ∅ []))).
Proof. exact (cycle_request_answer (F := R) (mkRequest POST ["cycle-curve"] [] "{}") (mkFS ∅ []) eq_refl). Defined.

Lemma seed_keeps_existing_witness :
  let RC := one_record (F := float64) (seed_recipe (F := float64)) in
  seed (F := float64) (mkFS {[recipe_file seed_name := "{}"]} []) =
  (Ok tt, mkFS {[recipe_file seed_name := "{}"]} []).
Proof.
  intros RC.
  assert (E := seed_keeps_existing (F := float64) {[recipe_file seed_name := "{}"]} "{}").
  rewrite lookup_singleton_eq in E. apply E; vm_compute; reflexivity.
Defined.



