(* ===== verification/HttpServe.v ===== *)
(** From the request line to the handlers: the request line and the target of request.go,
    [serverHandler] and the mux that [routes] of handlers.go builds, with each pattern's
    handler from [Handlers]. *)
From stdpp Require Import gmap strings.
From Stdlib Require Import ZArith String Bool List.
From S2P Require Import Prelude GoFloat Strconv Utf8 Scanner GoStrings Url UrlSpec PathClean Mux Store Handlers.
Import ListNotations.
Local Open Scope Z_scope.
Local Open Scope string_scope.

(** * request.go *)

(** "GET /foo HTTP/1.1" into its three parts. *)
Definition parseRequestLine (line : list Z) : option (list Z * list Z * list Z) :=
  let '(method, rest, ok1) := Cut line [space] in
  let '(requestURI, proto, ok2) := Cut rest [space] in
  if negb ok1 || negb ok2 then None else Some (method, requestURI, proto).

Definition ParseHTTPVersion (vers : list Z) : option (Z * Z) :=
  if str_eqb vers (bytes "HTTP/1.1") then Some (1, 1)
  else if str_eqb vers (bytes "HTTP/1.0") then Some (1, 0)
  else if negb (HasPrefix vers (bytes "HTTP/")) then None
  else if negb (length vers =? length (bytes "HTTP/X.Y"))%nat then None
  else if negb (nth 6 vers 0 =? dot)%Z then None
  else
    match ParseUint (firstn 1 (skipn 5 vers)) 10 0, ParseUint (firstn 1 (skipn 7 vers)) 10 0 with
    | (maj, None), (min, None) => Some (maj, min)
    | _, _ => None
    end.

(** [Header.get] of Host: the first value, or the empty string. *)
Definition get_host (hosts : list (list Z)) : list Z := hd [] hosts.

(** [readRequest] on the request line and the values of the Host headers, taken for the only
    headers; nothing on an error. *)
Definition readRequest (line : list Z) (hosts : list (list Z)) : option Mux.Request :=
  match parseRequestLine line with
  | None => None
  | Some (method, uri, proto) =>
      if negb (validMethod method) then None
      else
        match ParseHTTPVersion proto with
        | None => None
        | Some (major, minor) =>
            let justAuthority := str_eqb method (bytes "CONNECT") && negb (HasPrefix uri [slash]) in
            let rawurl := if justAuthority then bytes "http://" ++ uri else uri in
            match ParseRequestURI rawurl with
            | inl _ => None
            | inr u =>
                let u := if justAuthority
                         then mkURL [] (Opaque u) (User u) (Host u) (Url.Path u) (RawPath u)
                                (OmitHost u) (ForceQuery u) (RawQuery u) (Fragment u) (RawFragment u)
                         else u in
                if (1 <? length hosts)%nat then None
                else
                  let host := if nonempty (Host u) then Host u else get_host hosts in
                  Some (Mux.mkRequest method u major minor host uri)
            end
        end
  end%list.

Definition isH2Upgrade (r : Mux.Request) (hosts : list (list Z)) : bool :=
  str_eqb (Mux.Method r) (bytes "PRI") && (length hosts =? 0)%nat && str_eqb (Url.Path (req_URL r)) [star]
  && ((ProtoMajor r =? 2) && (ProtoMinor r =? 0))%Z.

(** * The connection, server.go *)

(** [http1ServerSupportsRequest] *)
Definition http1ServerSupportsRequest (r : Mux.Request) : bool :=
  (ProtoMajor r =? 1)%Z
  || ((ProtoMajor r =? 2) && (ProtoMinor r =? 0))%Z
     && str_eqb (Mux.Method r) (bytes "PRI") && str_eqb (RequestURI r) [star].

(** httpguts: the bytes of [validHostByte]. *)
Definition validHostByte (c : Z) : bool := alphanum c || one_of c "!$%&()*+,-.:;=[']_~".
Definition ValidHostHeader (h : list Z) : bool := forallb validHostByte h.

Definition StatusHTTPVersionNotSupported : Z := 505.

(** [conn.readRequest]: the request for the handler, or the status the connection answers
    with itself. *)
Definition conn_readRequest (line : list Z) (hosts : list (list Z)) : Z + Mux.Request :=
  match readRequest line hosts with
  | None => inl StatusBadRequest
  | Some r =>
      if negb (http1ServerSupportsRequest r) then inl StatusHTTPVersionNotSupported
      else if ProtoAtLeast r 1 1 && (length hosts =? 0)%nat && negb (isH2Upgrade r hosts)
              && negb (str_eqb (Mux.Method r) (bytes "CONNECT"))
      then inl StatusBadRequest
      else if (length hosts =? 1)%nat && negb (ValidHostHeader (get_host hosts)) then inl StatusBadRequest
      else inr r
  end.

(** * The mux of the service *)

(** The handlers [routes] registers. *)
Inductive endpoint :=
| Healthz | ListRecipes_ | PutRecipe | GetRecipe_ | ListCycles_ | PutCycle | GetCycle_
| LiftCurveGET | LiftCurvePOST | CycleCurveGET | CycleCurvePOST.

Definition route_table : list (list Z * endpoint) :=
  [(bytes "GET /healthz", Healthz);
   (bytes "GET /recipes", ListRecipes_);
   (bytes "POST /recipes", PutRecipe);
   (bytes "GET /recipes/{name}", GetRecipe_);
   (bytes "GET /cycles", ListCycles_);
   (bytes "POST /cycles", PutCycle);
   (bytes "GET /cycles/{name}", GetCycle_);
   (bytes "GET /lift", LiftCurveGET);
   (bytes "POST /lift", LiftCurvePOST);
   (bytes "GET /cycle-curve", CycleCurveGET);
   (bytes "POST /cycle-curve", CycleCurvePOST)].

Definition routes_mux : option (ServeMux endpoint) := register_all route_table NewServeMux.

(** The method as the handlers' requests have it. *)
Definition method_of (m : list Z) : method :=
  if str_eqb m (bytes "GET") then GET
  else if str_eqb m (bytes "HEAD") then HEAD
  else if str_eqb m (bytes "POST") then POST
  else OtherMethod.

(** [r.URL.Query()] as the list of its settings; [Get] finds the same values in it. *)
Definition query_of (u : URL) : list (string * string) :=
  map (fun p => (text (fst p), text (snd p))) (query_pairs (RawQuery u)).

Section Serve.
Context {F : Type} {GF : GoFloat F} {GS : GoStrconv F} {DD : DataDir}.
Context {RC : RecordCodec F (Recipe F)} {CC : RecordCodec F (CycleRecord F)}.
Context {BR : BodyDecoder F (Recipe F)} {BC : BodyDecoder F (CycleRecord F)}.
Context {BL : BodyDecoder F (liftRequest F)} {BCC : BodyDecoder F (cycleCurveRequest F)}.

(** [r.PathValue("name")] passed on. *)
Definition with_name (p : pattern) (matches : list (list Z)) (k : string -> handler F) : handler F :=
  match PathValue p matches (bytes "name") with
  | Some name => k (text name)
  | None => reply_with Crash
  end.

(** The handler of an endpoint on a matched request. *)
Definition run (e : endpoint) (p : pattern) (matches : list (list Z)) (r : Handlers.Request)
  : handler F :=
  match e with
  | Healthz => healthz
  | ListRecipes_ => listRecipes
  | PutRecipe => putRecipe r
  | GetRecipe_ => with_name p matches getRecipe
  | ListCycles_ => listCycles
  | PutCycle => putCycle r
  | GetCycle_ => with_name p matches getCycle
  | LiftCurveGET => liftCurveGET r
  | LiftCurvePOST => liftCurvePOST r
  | CycleCurveGET => cycleCurveGET r
  | CycleCurvePOST => cycleCurvePOST r
  end.

Definition StatusMoved : Z := 301.

(** What the dispatch replies; the replies that are not JSON have no JSON body. *)
Definition dispatched (r : Handlers.Request) (d : option (dispatch endpoint)) : handler F :=
  match d with
  | Some (Handle e p matches) => run e p matches r
  | Some (RedirectHandler _ code) => reply_with (Reply code None)
  | Some (MethodNotAllowed _) => reply_with (Reply StatusMethodNotAllowed None)
  | Some NotFoundHandler => reply_with (Reply StatusNotFound None)
  | Some StarRequest => reply_with (Reply StatusBadRequest None)
  | None => reply_with Crash
  end.

(** [serverHandler.ServeHTTP] with the mux of [routes]: the target [*] of OPTIONS is the
    server's own, an empty 200. *)
Definition serve (r : Mux.Request) (body : string) : handler F :=
  if str_eqb (RequestURI r) [star] && str_eqb (Mux.Method r) (bytes "OPTIONS")
  then reply_with (Reply StatusOK None)
  else
    dispatched
      (mkRequest (method_of (Mux.Method r)) [] (query_of (req_URL r)) body)
      (opt_bind routes_mux (fun mux => ServeHTTP mux r)).

(** A request as it arrives: its line, its Host headers and its body. *)
Definition serve_line (line : list Z) (hosts : list (list Z)) (body : string) : handler F :=
  match conn_readRequest line hosts with
  | inl code => reply_with (Reply code None)
  | inr r => serve r body
  end.
End Serve.
