(* ===== verification/HttpSpec.v ===== *)
(** Theorems about the way from the request line to the handlers: the mux routes as
    [Handlers.routes] says, and a name or a query that was escaped reaches its handler. *)
From stdpp Require Import gmap strings.
From Stdlib Require Import ZArith Lia String Bool List SpecFloat.
From S2P Require Import Prelude GoFloat Float64 Strconv Atof Utf8 Scanner JsonEncode Ftoa GoStrings Url UrlSpec PathClean Mux MuxSpec Store StoreSpec StoreGlob Handlers HandlersSpec JsonRecords JsonTyping JsonRoundtrip JsonFloat HttpServe.
Import ListNotations.
Local Open Scope Z_scope.

(** * Byte strings and strings *)

Lemma text_eqb x s : Forall is_byte x -> String.eqb (text x) s = str_eqb x (bytes s).
Proof.
  intros Hx. destruct (String.eqb_spec (text x) s) as [<-|Hne]; symmetry.
  - apply eq_str_eqb. symmetry. now apply bytes_text.
  - apply neq_str_eqb. intros ->. apply Hne, text_bytes.
Qed.

Lemma hexbyte_byte a b : is_byte (hexbyte a b).
Proof.
  assert (Hu : forall c, 0 <= unhex c < 16).
  { intros c. unfold unhex. repeat case_if; lia. }
  unfold hexbyte, byte_. pose proof (Hu a) as Ha. pose proof (Hu b) as Hb.
  rewrite Z.shiftl_mul_pow2 by lia. change 255 with (2 ^ 8 - 1). rewrite land_mask by lia.
  rewrite Z.mod_small by lia. rewrite (lor_add (unhex a) (unhex b) 4) by lia. unfold is_byte. lia.
Qed.

Lemma decode_escapes_bytes mode s : Forall is_byte s -> Forall is_byte (decode_escapes mode s).
Proof.
  induction s as [s IH] using (induction_ltof1 _ (@length Z)). unfold ltof in IH.
  intros Hs. destruct s as [|c s]; [constructor|]. inversion Hs as [|? ? Hc Hs']; subst.
  cbn [decode_escapes]. case_if.
  - destruct s as [|a [|b s]]; [constructor|constructor|]. constructor; [apply hexbyte_byte|].
    apply IH; [cbn; lia|]. inversion Hs' as [|? ? _ Hs'']; subst. now inversion Hs''.
  - case_if; [constructor; [case_if; unfold is_byte; lia|]|constructor; [exact Hc|]]; apply IH; auto; cbn; lia.
Qed.

Lemma pathUnescape_bytes r : Forall is_byte r -> Forall is_byte (pathUnescape r).
Proof.
  intros Hr. unfold pathUnescape, PathUnescape, unescape.
  destruct (check_escapes encodePathSegment r 0 false) as [e|[n hp]]; cbn [let_ok]; [exact Hr|].
  case_if; [exact Hr|now apply decode_escapes_bytes].
Qed.

Lemma pathUnescape_nonempty r : r <> [] -> pathUnescape r <> [].
Proof.
  intros Hr. unfold pathUnescape, PathUnescape, unescape.
  destruct (check_escapes encodePathSegment r 0 false) as [e|[n hp]] eqn:E; cbn [let_ok]; [exact Hr|].
  case_if; [exact Hr|]. destruct r as [|c r]; [contradiction|]. cbn [check_escapes decode_escapes] in *.
  case_if_in E; [|case_if; discriminate]. destruct r as [|a [|b r]]; try discriminate E. discriminate.
Qed.

(** * The segments of a path *)

(** The raw segments of a path that begins with a slash. *)
Definition raws_of (path : list Z) : list (list Z) := split_at slash (tl path).

(** As the router reads them. *)
Fixpoint path_segs (raws : list (list Z)) : list (list Z) :=
  match raws with
  | [] => []
  | r :: rs => seg_of r rs :: path_segs rs
  end.

Lemma path_of_raws path : HasPrefix path [slash] = true -> path_of (raws_of path) = path.
Proof.
  intros Hp. apply HasPrefix_spec in Hp as (t & ->). cbn [app]. unfold raws_of, path_of. cbn [tl].
  rewrite <- (Join_split_at slash t) at 2. destruct (split_at_cons slash t) as (f & fs & ->).
  rewrite Join_more. reflexivity.
Qed.

Lemma raws_canonical L trailing :
  Forall fine L ->
  raws_of (canonical L trailing) = L ++ (if match L with [] => true | _ => trailing end then [[]] else []).
Proof.
  intros H. unfold raws_of, canonical. cbn [tl]. destruct L as [|e L]; [reflexivity|]. set (M := e :: L) in *.
  assert (HM : split_at slash (Join M [slash]) = M).
  { apply split_at_Join; [discriminate|]. eapply List.Forall_impl; [|exact H]. now intros ? ((_ & ?) & _). }
  destruct trailing.
  - rewrite split_at_app_last by auto. now rewrite HM.
  - now rewrite !app_nil_r.
Qed.

Lemma tame_fine L tr : Forall fine L -> tame true (L ++ (if tr : bool then [[]] else [])).
Proof.
  induction 1 as [|e L ((He & Hs) & _) _ IH]; cbn [app].
  - destruct tr; cbn; [|exact I]. repeat split; auto; discriminate.
  - cbn [tame]. split; [exact Hs|]. split; [|split; [discriminate|exact IH]].
    unfold seg_of. destruct e as [|c e]; [contradiction|]. now apply pathUnescape_nonempty.
Qed.

Lemma clean_tame path : HasPrefix path [slash] = true -> cleanPath path = Some path -> tame true (raws_of path).
Proof.
  intros Hp Hc. rewrite cleanPath_rooted in Hc by exact Hp. apply Some_inj in Hc.
  destruct (cleaned_fine path) as [Hf _]. rewrite <- Hc, raws_canonical by exact Hf. now apply tame_fine.
Qed.

Lemma split_at_bytes c s : Forall is_byte s -> Forall (Forall is_byte) (split_at c s).
Proof.
  induction 1 as [|x s Hx _ IH]; cbn [split_at]; [repeat constructor|].
  case_if; [constructor; [constructor|exact IH]|].
  destruct (split_at_cons c s) as (f & fs & E). rewrite E in *. inversion IH; subst.
  constructor; [constructor|]; assumption.
Qed.

Lemma path_segs_bytes raws : Forall (Forall is_byte) raws -> Forall (Forall is_byte) (path_segs raws).
Proof.
  induction 1 as [|r rs Hr Hrs IH]; [constructor|]. cbn [path_segs]. constructor; [|exact IH].
  unfold seg_of. destruct r; [destruct rs|]; try (now apply pathUnescape_bytes). repeat constructor; unfold is_byte; lia.
Qed.

(** * The routes *)

Definition literal (s : string) : segment := mkSegment (bytes s) false false.
Definition name_wildcard : segment := mkSegment (bytes "name") true false.

Definition route_pattern (m : string) (segs : list segment) (s : string) : pattern :=
  mkPattern (bytes s) (bytes m) [] segs.

Definition route_patterns : list (pattern * endpoint) :=
  [(route_pattern "GET" [literal "healthz"] "GET /healthz", Healthz);
   (route_pattern "GET" [literal "recipes"] "GET /recipes", ListRecipes_);
   (route_pattern "POST" [literal "recipes"] "POST /recipes", PutRecipe);
   (route_pattern "GET" [literal "recipes"; name_wildcard] "GET /recipes/{name}", GetRecipe_);
   (route_pattern "GET" [literal "cycles"] "GET /cycles", ListCycles_);
   (route_pattern "POST" [literal "cycles"] "POST /cycles", PutCycle);
   (route_pattern "GET" [literal "cycles"; name_wildcard] "GET /cycles/{name}", GetCycle_);
   (route_pattern "GET" [literal "lift"] "GET /lift", LiftCurveGET);
   (route_pattern "POST" [literal "lift"] "POST /lift", LiftCurvePOST);
   (route_pattern "GET" [literal "cycle-curve"] "GET /cycle-curve", CycleCurveGET);
   (route_pattern "POST" [literal "cycle-curve"] "POST /cycle-curve", CycleCurvePOST)].

Definition the_mux : ServeMux endpoint :=
  match routes_mux with Some mux => mux | None => NewServeMux end.

Lemma routes_mux_some : routes_mux = Some the_mux.
Proof. vm_compute. reflexivity. Qed.

Lemma the_mux_registered : registered the_mux route_patterns.
Proof.
  apply (register_all_registered route_table NewServeMux []); [constructor|exact routes_mux_some|].
  vm_compute. reflexivity.
Qed.

(** The root of the tree has one child, for no host; it has one for each method. *)
Lemma the_tree :
  exists n c1 c2, findChild (tree the_mux) [] = Some n /\
    (forall h, h <> [] -> findChild (tree the_mux) h = None) /\
    children n = [(bytes "GET", c1); (bytes "POST", c2)] /\
    findChild n (bytes "GET") = Some c1 /\ findChild n (bytes "POST") = Some c2.
Proof.
  do 3 eexists. split; [vm_compute; reflexivity|]. split; [|repeat split; vm_compute; reflexivity].
  intros [|c h] Hh; [contradiction|]. assert (E : children (tree the_mux) = []) by (vm_compute; reflexivity).
  unfold findChild. rewrite E. reflexivity.
Qed.

#[local] Opaque the_mux routes_mux.

(** The patterns on the segments as the router reads them. *)
Fixpoint segs_match (segs : list segment) (parts : list (list Z)) : option (list (list Z)) :=
  match segs, parts with
  | [], [] => Some []
  | sg :: segs', x :: parts' =>
      if wild sg then
        if str_eqb x [slash] then None else option_map (cons x) (segs_match segs' parts')
      else if str_eqb x (seg_s sg) then segs_match segs' parts' else None
  | _, _ => None
  end.

Lemma seg_match_parts segs : forallb (fun sg => negb (multi sg)) segs = true ->
  forall raws, seg_match segs raws = segs_match segs (path_segs raws).
Proof.
  induction segs as [|sg segs IH]; cbn [forallb]; intros H raws; destruct raws as [|r rs]; try reflexivity.
  apply andb_true_iff in H as [Hm Hs]. apply negb_true_iff in Hm. cbn [seg_match segs_match path_segs].
  rewrite Hm, <- IH by exact Hs. reflexivity.
Qed.

Lemma route_seg_match l raws :
  In l route_patterns -> seg_match (segments (fst l)) raws = segs_match (segments (fst l)) (path_segs raws).
Proof.
  intros H. apply seg_match_parts. revert l H. apply List.Forall_forall. repeat constructor.
Qed.

Lemma host_class_any h l : In l route_patterns -> host_class h (fst l) <> None.
Proof.
  intros H. assert (E : host (fst l) = []).
  { revert l H. apply List.Forall_forall. repeat constructor. }
  unfold host_class. rewrite E. destruct h; discriminate.
Qed.

Lemma route_takes h m raws l :
  In l route_patterns ->
  takes h m raws (fst l) <-> method_class m (fst l) <> None /\ segs_match (segments (fst l)) (path_segs raws) <> None.
Proof.
  intros Hi. unfold takes. rewrite (route_seg_match l raws Hi). pose proof (host_class_any h l Hi). tauto.
Qed.

(** Some pattern has the path, whatever its method. *)
Definition path_known (parts : list (list Z)) : bool :=
  existsb (fun l => match segs_match (segments (fst l)) parts with Some _ => true | None => false end) route_patterns.

Lemma askable_routes raws : tame true raws -> askable route_patterns raws.
Proof. intros H. exists true. split; [exact H|]. intros _. vm_compute. reflexivity. Qed.

(** ** The methods a path has *)

Lemma method_answers raws m n c :
  tame true raws -> findChild (tree the_mux) [] = Some n -> findChild n m = Some c ->
  match match_path (path_of raws) (Some c) with
  | Found l _ => In l route_patterns /\ segs_match (segments (fst l)) (path_segs raws) <> None
  | Missing => forall l, In l route_patterns -> Mux.method (fst l) = m -> segs_match (segments (fst l)) (path_segs raws) = None
  | NilPattern => False
  end.
Proof.
  intros Ht Hn Hc. destruct (registered_ok _ _ the_mux_registered) as (Hst & _).
  pose proof (match_path_answers (tree the_mux) route_patterns [] m raws Hst (askable_routes raws Ht)) as Ha.
  rewrite Hn in Ha. cbn [child_of] in Ha. rewrite Hc in Ha. unfold answers, answers_by, of_class, segs_of in Ha.
  destruct (match_path (path_of raws) (Some c)) as [l ms| |]; [| |exact Ha].
  - destruct Ha as ((Hi & _) & (vs & Hv & _) & _). split; [exact Hi|]. rewrite <- route_seg_match by exact Hi. congruence.
  - intros l Hi Hm. rewrite <- route_seg_match by exact Hi. apply Ha. repeat split; try assumption.
    revert l Hi Hm. apply (List.Forall_forall (fun l => Mux.method (fst l) = m -> host (fst l) = [])). repeat constructor.
Qed.

Lemma route_methods l : In l route_patterns -> Mux.method (fst l) = bytes "GET" \/ Mux.method (fst l) = bytes "POST".
Proof.
  revert l. apply List.Forall_forall. unfold route_patterns.
  repeat (apply List.Forall_cons; [cbn; auto|]). apply List.Forall_nil.
Qed.

Lemma with_head_empty (m m' : list Z) (s : gset (list Z)) :
  (if bool_decide (m ∈ s) then {[m']} ∪ s else s) = ∅ <-> s = ∅.
Proof. case_bool_decide as E; [|reflexivity]. split; intros Es; exfalso; [|rewrite Es in E]; set_solver. Qed.

Lemma with_method_nonempty (m : list Z) (s : gset (list Z)) : {[m]} ∪ s <> ∅.
Proof. set_solver. Qed.

(** The methods found below the root: none exactly when no pattern has the path. *)
Lemma routes_methods h raws :
  tame true raws ->
  exists s, node_matchingMethods (tree the_mux) h (path_of raws) = Some s /\
    (s = ∅ <-> path_known (path_segs raws) = false).
Proof.
  intros Ht. destruct the_tree as (n & c1 & c2 & Hn & Hno & Hch & H1 & H2).
  pose proof (method_answers raws _ n c1 Ht Hn H1) as A1. pose proof (method_answers raws _ n c2 Ht Hn H2) as A2.
  unfold node_matchingMethods. change (emptyChild (tree the_mux)) with (findChild (tree the_mux) []). rewrite Hn.
  assert (E0 : (if nonempty h then matchingMethodsPath (path_of raws) (findChild (tree the_mux) h) else Some ∅) = Some ∅).
  { destruct h; cbn [nonempty]; [reflexivity|]. rewrite Hno by discriminate. reflexivity. }
  rewrite E0. cbn [opt_bind]. unfold matchingMethodsPath. rewrite Hch. cbn [fold_left opt_bind].
  assert (Hk : forall l, In l route_patterns -> segs_match (segments (fst l)) (path_segs raws) <> None ->
    path_known (path_segs raws) = true).
  { intros l Hi Hl. apply existsb_exists. exists l. split; [exact Hi|]. now destruct (segs_match _ _). }
  destruct (match_path (path_of raws) (Some c1)) as [l1 ms1| |]; [| |contradiction];
    destruct (match_path (path_of raws) (Some c2)) as [l2 ms2| |]; try contradiction; cbn [opt_bind];
    (eexists; split; [reflexivity|]); rewrite with_head_empty, union_empty_l_L.
  - rewrite (Hk l1) by apply A1. split; [|discriminate]. now intros ?%with_method_nonempty.
  - rewrite (Hk l1) by apply A1. split; [|discriminate]. now intros ?%with_method_nonempty.
  - rewrite (Hk l2) by apply A2. split; [|discriminate]. now intros ?%with_method_nonempty.
  - split; [intros _|intros _; reflexivity].
    apply not_true_iff_false. intros (l & Hi & Hl)%existsb_exists.
    destruct (route_methods l Hi) as [E|E]; [rewrite (A1 l Hi E) in Hl|rewrite (A2 l Hi E) in Hl]; discriminate.
Qed.

Lemma slashless_routes : forallb (fun l => slashless (fst l)) route_patterns = true.
Proof. vm_compute. reflexivity. Qed.

Lemma routes_trailing h q : node_matchingMethods (tree the_mux) h (q ++ [slash]) = Some ∅.
Proof.
  destruct the_tree as (n & c1 & c2 & Hn & Hno & Hch & H1 & H2).
  destruct (match_trailing _ _ h [] q the_mux_registered slashless_routes) as [_ Hm]. rewrite Hn in Hm.
  pose proof (Hm (bytes "GET")) as M1. pose proof (Hm (bytes "POST")) as M2. cbn [child_of] in M1, M2.
  rewrite H1 in M1. rewrite H2 in M2.
  unfold node_matchingMethods. change (emptyChild (tree the_mux)) with (findChild (tree the_mux) []). rewrite Hn.
  assert (E0 : (if nonempty h then matchingMethodsPath (q ++ [slash]) (findChild (tree the_mux) h) else Some ∅) = Some ∅).
  { destruct h; cbn [nonempty]; [reflexivity|]. rewrite Hno by discriminate. reflexivity. }
  rewrite E0. cbn [opt_bind]. unfold matchingMethodsPath. rewrite Hch. cbn [fold_left opt_bind]. rewrite M1, M2.
  cbn [opt_bind]. now apply f_equal, with_head_empty.
Qed.

Lemma routes_allowed h raws :
  tame true raws ->
  exists allowed, matchingMethods the_mux h (path_of raws) = Some allowed /\
    (allowed = [] <-> path_known (path_segs raws) = false).
Proof.
  intros Ht. destruct (routes_methods h raws Ht) as (s & E & Hs). unfold matchingMethods.
  rewrite E, routes_trailing. cbn [opt_bind]. eexists. split; [reflexivity|]. rewrite <- Hs, union_empty_r_L.
  split.
  - intros En. pose proof (sort_keys_perm (base.elements s)) as Hp. rewrite En in Hp.
    apply Permutation_nil in Hp. now apply elements_empty_inv, leibniz_equiv in Hp.
  - intros ->. reflexivity.
Qed.

(** ** The routes of [Handlers] *)

Lemma takes_get m p :
  Mux.method p = bytes "GET" -> method_class m p <> None <-> method_of m = GET \/ method_of m = HEAD.
Proof.
  intros Hp. unfold method_class, method_of. rewrite Hp.
  destruct (str_eqb_spec (bytes "GET") m) as [<-|Hg]; [split; [now left|discriminate]|].
  rewrite (neq_str_eqb m (bytes "GET")) by congruence.
  destruct (str_eqb_spec m (bytes "HEAD")) as [->|Hh]; [split; [now right|discriminate]|].
  cbn [andb]. rewrite neq_str_eqb by discriminate. split; [congruence|]. case_if; intros [?|?]; discriminate.
Qed.

Lemma takes_post m p : Mux.method p = bytes "POST" -> method_class m p <> None <-> method_of m = POST.
Proof.
  intros Hp. unfold method_class, method_of. rewrite Hp.
  destruct (str_eqb_spec (bytes "POST") m) as [<-|Hg]; [split; [reflexivity|discriminate]|].
  rewrite (neq_str_eqb m (bytes "POST")) by congruence.
  replace (str_eqb (bytes "POST") (bytes "GET")) with false by reflexivity. rewrite andb_false_r.
  rewrite neq_str_eqb by discriminate. split; [congruence|]. repeat case_if; discriminate.
Qed.

Lemma segs_match_one s parts ms : segs_match [literal s] parts = Some ms <-> parts = [bytes s] /\ ms = [].
Proof.
  destruct parts as [|x [|y parts]]; cbn [segs_match literal wild seg_s]; try (case_if; (split; [discriminate|now intros [? _]])).
  - split; [discriminate|now intros [? _]].
  - case_if; [|split; [discriminate|intros [[= ->] _]; now rewrite str_eqb_refl in *]].
    split; [intros [= <-]; split; [|reflexivity]; f_equal; now apply str_eqb_eq|now intros [_ ->]].
Qed.

Lemma segs_match_two s parts ms :
  segs_match [literal s; name_wildcard] parts = Some ms <-> exists v, v <> [slash] /\ parts = [bytes s; v] /\ ms = [v].
Proof.
  destruct parts as [|x [|v [|y parts]]]; cbn [segs_match literal name_wildcard wild seg_s].
  - split; [discriminate|now intros (v & _ & [=] & _)].
  - case_if; (split; [discriminate|now intros (w & _ & [=] & _)]).
  - split.
    + case_if; [|discriminate]. destruct (str_eqb_spec v [slash]) as [|Hv]; [discriminate|]. intros [= <-].
      exists v. repeat split; [exact Hv|]. repeat f_equal. now apply str_eqb_eq.
    + intros (w & Hw & [= -> ->] & ->). now rewrite str_eqb_refl, neq_str_eqb.
  - split; [repeat case_if; discriminate|now intros (w & _ & [=] & _)].
Qed.

Section Routes.
Context {F : Type} {GF : GoFloat F} {GS : GoStrconv F} {DD : DataDir}.
Context {RC : RecordCodec F (Recipe F)} {CC : RecordCodec F (CycleRecord F)}.
Context {BR : BodyDecoder F (Recipe F)} {BC : BodyDecoder F (CycleRecord F)}.
Context {BL : BodyDecoder F (liftRequest F)} {BCC : BodyDecoder F (cycleCurveRequest F)}.

(** The request as the handlers see it. *)
Definition handed (m : list Z) (parts : list (list Z)) (q : list (string * string)) (body : string) : Handlers.Request :=
  mkRequest (method_of m) (map text parts) q body.

Lemma by_method_get (g : handler F) p r : Handlers.Method r = GET \/ Handlers.Method r = HEAD -> by_method (Some g) p r = g.
Proof. unfold by_method. intros [-> | ->]; reflexivity. Qed.

Lemma by_method_post (g : handler F) o r : Handlers.Method r = POST -> by_method o (Some g) r = g.
Proof. unfold by_method. now intros ->. Qed.

Lemma routes_one s m q body :
  routes (F := F) (handed m [bytes s] q body) =
  routes (mkRequest (method_of m) [s] q body).
Proof. unfold handed. cbn [map]. now rewrite text_bytes. Qed.

Lemma routes_two s v m q body :
  v <> [slash] -> Forall is_byte v ->
  routes (F := F) (handed m [bytes s; v] q body) =
  if String.eqb s "recipes" then by_method (Some (getRecipe (text v))) None (handed m [bytes s; v] q body)
  else if String.eqb s "cycles" then by_method (Some (getCycle (text v))) None (handed m [bytes s; v] q body)
  else not_routed.
Proof.
  intros Hv Hb. unfold routes. cbn [handed map Handlers.Path]. rewrite text_bytes, text_eqb by exact Hb.
  change (bytes "/") with [slash]. now rewrite neq_str_eqb.
Qed.

(** A pattern that takes the request has its handler in [routes]. *)
Lemma routes_found m parts q body l ms :
  In l route_patterns -> method_class m (fst l) <> None ->
  segs_match (segments (fst l)) parts = Some ms -> Forall (Forall is_byte) parts ->
  run (F := F) (snd l) (fst l) ms (handed m [] q body) = routes (handed m parts q body).
Proof.
  intros Hi Hm Hs Hb. unfold route_patterns in Hi. cbn [In] in Hi.
  repeat destruct Hi as [<-|Hi]; [..|contradiction]; cbn [fst snd segments route_pattern] in *;
    (apply takes_get in Hm; [|reflexivity]) || (apply takes_post in Hm; [|reflexivity]);
    (apply segs_match_one in Hs as [-> ->]; rewrite routes_one) ||
    (apply segs_match_two in Hs as (v & Hv & -> & ->); rewrite routes_two; [|exact Hv|now inversion Hb as [|? ? ? Hb']; inversion Hb']);
    unfold routes; cbn [Handlers.Path String.eqb Ascii.eqb Bool.eqb];
    symmetry; (apply by_method_get; exact Hm) || (apply by_method_post; exact Hm).
Qed.

Definition refused (m : list Z) (l : pattern * endpoint) : Prop := method_class m (fst l) = None.

Lemma refuses_get m p : Mux.method p = bytes "GET" -> method_class m p = None -> method_of m <> GET /\ method_of m <> HEAD.
Proof.
  intros Hp Hm. pose proof (takes_get m p Hp) as Ht.
  split; intros E; (apply Ht; [|exact Hm]); rewrite E; auto.
Qed.

Lemma refuses_post m p : Mux.method p = bytes "POST" -> method_class m p = None -> method_of m <> POST.
Proof. intros Hp Hm E. exact (proj2 (takes_post m p Hp) E Hm). Qed.

Lemma by_method_refused (g p : option (handler F)) r :
  (Handlers.Method r <> GET /\ Handlers.Method r <> HEAD) -> (p = None \/ Handlers.Method r <> POST) ->
  by_method g p r = reply_with (Reply StatusMethodNotAllowed None).
Proof. unfold by_method. intros [? ?] [-> | ?]; destruct (Handlers.Method r); congruence. Qed.

Ltac split_eqbs v :=
  repeat match goal with |- context [str_eqb v ?b] => destruct (str_eqb v b) end; try reflexivity.

Ltac refused H :=
  let Hm := fresh in
  pose proof (H ltac:(cbn; repeat rewrite str_eqb_refl; try rewrite neq_str_eqb by assumption; discriminate)) as Hm;
  (refine (refuses_get _ _ _ Hm); reflexivity) || (refine (refuses_post _ _ _ Hm); reflexivity).

(** Where no pattern takes the request, the reply depends on whether one has the path. *)
Lemma routes_missing m parts q body :
  (forall l, In l route_patterns -> segs_match (segments (fst l)) parts <> None -> method_class m (fst l) = None) ->
  Forall (Forall is_byte) parts ->
  routes (F := F) (handed m parts q body) =
  reply_with (Reply (if path_known parts then StatusMethodNotAllowed else StatusNotFound) None).
Proof.
  intros H Hb. unfold route_patterns in H. apply List.Forall_forall in H. rewrite !List.Forall_cons_iff in H.
  cbn [fst segments route_pattern] in H. destruct H as (H1 & H2 & H3 & H4 & H5 & H6 & H7 & H8 & H9 & H10 & H11 & _).
  destruct parts as [|v [|name [|x parts]]]; [reflexivity| | |].
  - destruct (str_eqb_spec v (bytes "healthz")) as [->|N1].
    { rewrite routes_one. apply by_method_refused; [refused H1|now left]. }
    destruct (str_eqb_spec v (bytes "recipes")) as [->|N2].
    { rewrite routes_one. apply by_method_refused; [refused H2|right; refused H3]. }
    destruct (str_eqb_spec v (bytes "cycles")) as [->|N3].
    { rewrite routes_one. apply by_method_refused; [refused H5|right; refused H6]. }
    destruct (str_eqb_spec v (bytes "lift")) as [->|N4].
    { rewrite routes_one. apply by_method_refused; [refused H8|right; refused H9]. }
    destruct (str_eqb_spec v (bytes "cycle-curve")) as [->|N5].
    { rewrite routes_one. apply by_method_refused; [refused H10|right; refused H11]. }
    inversion Hb as [|? ? Hv _]; subst. unfold routes, path_known.
    cbn [handed map Handlers.Path route_patterns existsb fst segments route_pattern segs_match literal wild seg_s name_wildcard].
    rewrite !text_eqb by exact Hv. now rewrite !neq_str_eqb by assumption.
  - inversion Hb as [|? ? Hv Hb']; subst. inversion Hb' as [|? ? Hn _]; subst.
    unfold path_known.
    cbn [route_patterns existsb fst segments route_pattern segs_match literal wild seg_s name_wildcard].
    destruct (str_eqb_spec name [slash]) as [->|Nn].
    { split_eqbs v. }
    destruct (str_eqb_spec v (bytes "recipes")) as [->|N2].
    { rewrite routes_two by assumption. apply by_method_refused; [refused H4|now left]. }
    destruct (str_eqb_spec v (bytes "cycles")) as [->|N3].
    { rewrite routes_two by assumption. apply by_method_refused; [refused H7|now left]. }
    unfold routes. cbn [handed map Handlers.Path]. rewrite !text_eqb by assumption. change (bytes "/") with [slash]. rewrite (neq_str_eqb name) by assumption.
    rewrite !(neq_str_eqb v) by assumption. now split_eqbs v.
  - unfold path_known.
    cbn [route_patterns existsb fst segments route_pattern segs_match literal wild seg_s name_wildcard].
    now split_eqbs v; split_eqbs name.
Qed.
End Routes.

(** ** The mux implements the routes *)

Lemma cleanPath_shape p : exists L tr, cleanPath p = Some (canonical L tr) /\ Forall fine L.
Proof.
  destruct p as [|c p]; [exists [], false; split; [reflexivity|constructor]|].
  assert (E : exists p', HasPrefix p' [slash] = true /\ cleanPath (c :: p) = cleanPath p').
  { destruct (Z.eqb_spec c slash) as [->|N].
    - exists (slash :: p). split; [apply HasPrefix_spec; now exists p|reflexivity].
    - exists (slash :: c :: p). split; [apply HasPrefix_spec; now exists (c :: p)|]. unfold cleanPath.
      apply Z.eqb_neq in N. now rewrite N. }
  destruct E as (p' & Hp & ->). rewrite (cleanPath_rooted p' Hp). do 2 eexists. split; [reflexivity|].
  apply (proj1 (cleaned_fine p')).
Qed.

Lemma canonical_rooted L tr : HasPrefix (canonical L tr) [slash] = true.
Proof. apply HasPrefix_spec. unfold canonical. cbn [app]. eauto. Qed.

Lemma exactMatch_route l ms path : In l route_patterns -> exactMatch (Found l ms) path = true.
Proof.
  intros Hi. destruct l as [p e]. cbn [exactMatch].
  assert (E : multi (lastSegment p) = false).
  { revert Hi. apply (proj1 (List.Forall_forall (fun l => multi (lastSegment (fst l)) = false) route_patterns)).
    repeat constructor. }
  now rewrite E.
Qed.

(** No request is redirected for a missing slash. *)
Lemma routes_no_redirect h m raws u :
  tame true raws -> m <> [] ->
  matchOrRedirect the_mux h m (path_of raws) u = Some (inl (match_ (tree the_mux) h m (path_of raws))).
Proof.
  intros Ht Hm. pose proof (match_registered _ _ h m raws the_mux_registered (askable_routes raws Ht) Hm) as Ha.
  unfold matchOrRedirect. destruct (match_trailing _ _ h m (path_of raws) the_mux_registered slashless_routes) as [-> _].
  destruct (match_ (tree the_mux) h m (path_of raws)) as [l ms| |]; [| |contradiction]; destruct u; try reflexivity.
  destruct Ha as (Hi & _). now rewrite exactMatch_route.
Qed.

Section Refinement.
Context {F : Type} {GF : GoFloat F} {GS : GoStrconv F} {DD : DataDir}.
Context {RC : RecordCodec F (Recipe F)} {CC : RecordCodec F (CycleRecord F)}.
Context {BR : BodyDecoder F (Recipe F)} {BC : BodyDecoder F (CycleRecord F)}.
Context {BL : BodyDecoder F (liftRequest F)} {BCC : BodyDecoder F (cycleCurveRequest F)}.

Lemma dispatch_routes h m raws q body :
  tame true raws -> m <> [] -> Forall (Forall is_byte) raws ->
  dispatched (F := F) (handed m [] q body)
    (handler_of the_mux h (path_of raws) (match_ (tree the_mux) h m (path_of raws))) =
  routes (handed m (path_segs raws) q body).
Proof.
  intros Ht Hm Hb. pose proof (path_segs_bytes raws Hb) as Hp.
  pose proof (match_registered _ _ h m raws the_mux_registered (askable_routes raws Ht) Hm) as Ha.
  destruct (match_ (tree the_mux) h m (path_of raws)) as [[p e] ms| |]; [| |contradiction].
  - destruct Ha as (Hi & Htk & Hs & _). apply route_takes in Htk as [Hc _]; [|exact Hi].
    rewrite route_seg_match in Hs by exact Hi. exact (routes_found m _ q body (p, e) ms Hi Hc Hs Hp).
  - cbn [handler_of]. destruct (routes_allowed h raws Ht) as (allowed & -> & Hal). cbn [opt_bind].
    rewrite routes_missing; [|intros l Hi Hs|exact Hp].
    + destruct (path_known (path_segs raws)); destruct allowed; try reflexivity;
        [discriminate (proj1 Hal eq_refl)|discriminate (proj2 Hal eq_refl)].
    + destruct (method_class m (fst l)) eqn:E; [|reflexivity]. exfalso. apply (Ha l Hi), route_takes; [exact Hi|].
      now rewrite E.
Qed.

Lemma serve_routes (r : Mux.Request) body :
  Mux.Method r <> [] -> Mux.Method r <> bytes "CONNECT" -> RequestURI r <> [star] ->
  Forall is_byte (EscapedPath (req_URL r)) ->
  exists path, cleanPath (EscapedPath (req_URL r)) = Some path /\
    serve (F := F) r body =
    if str_eqb path (EscapedPath (req_URL r))
    then routes (handed (Mux.Method r) (path_segs (raws_of path)) (query_of (req_URL r)) body)
    else reply_with (Reply StatusMoved None).
Proof.
  intros Hm Hc Hu Hb. destruct (cleanPath_shape (EscapedPath (req_URL r))) as (L & tr & E & Hf).
  exists (canonical L tr). split; [exact E|]. unfold serve. rewrite (neq_str_eqb (RequestURI r)) by exact Hu.
  cbn [andb]. rewrite routes_mux_some. cbn [opt_bind]. unfold ServeHTTP, findHandler.
  rewrite (neq_str_eqb (RequestURI r)), (neq_str_eqb (Mux.Method r)) by assumption. rewrite E. cbn [opt_bind].
  pose proof (path_of_raws _ (canonical_rooted L tr)) as Hr.
  assert (Ht : tame true (raws_of (canonical L tr))).
  { apply clean_tame; [apply canonical_rooted|now apply cleanPath_canonical]. }
  set (path := canonical L tr) in *. set (raws := raws_of path) in *. rewrite <- Hr.
  rewrite routes_no_redirect by assumption. cbn [opt_bind].
  destruct (str_eqb_spec (path_of raws) (EscapedPath (req_URL r))) as [Ep|_]; cbn [negb]; [|reflexivity].
  apply dispatch_routes; [exact Ht|exact Hm|]. apply split_at_bytes. unfold path.
  rewrite Hr in Ep. fold path. rewrite Ep. destruct Hb; [constructor|assumption].
Qed.
End Refinement.

(** C7: The mux that [routes] of handlers.go fills implements the routing of [Handlers]: a request
    whose escaped path is clean gets the reply of [Handlers.routes] on the segments of the
    path and the settings of the query, 404 and 405 included, and every other is redirected. *)
Theorem mux_refines_routes {F} {GF : GoFloat F} {GS : GoStrconv F} {DD : DataDir}
    {RC : RecordCodec F (Recipe F)} {CC : RecordCodec F (CycleRecord F)}
    {BR : BodyDecoder F (Recipe F)} {BC : BodyDecoder F (CycleRecord F)}
    {BL : BodyDecoder F (liftRequest F)} {BCC : BodyDecoder F (cycleCurveRequest F)}
    (r : Mux.Request) (body : string) :
  Mux.Method r <> [] -> Mux.Method r <> bytes "CONNECT" -> RequestURI r <> [star] ->
  Forall is_byte (EscapedPath (req_URL r)) ->
  exists path, cleanPath (EscapedPath (req_URL r)) = Some path /\
    serve (F := F) r body =
    if str_eqb path (EscapedPath (req_URL r))
    then routes (handed (Mux.Method r) (path_segs (raws_of path)) (query_of (req_URL r)) body)
    else reply_with (Reply StatusMoved None).
Proof. apply serve_routes. Qed.

(** A DELETE of a recipe, which the router answers itself. *)
Definition demo_request : Mux.Request :=
  match readRequest (bytes "DELETE /recipes/a%2Fb HTTP/1.1") [bytes "localhost"] with
  | Some r => r
  | None => Mux.mkRequest [] zero_URL 0 0 [] []
  end.

#[local] Existing Instance plain_dir.

Lemma mux_refines_routes_witness :
  EscapedPath (req_URL demo_request) = bytes "/recipes/a%2Fb" /\
  exists path, cleanPath (EscapedPath (req_URL demo_request)) = Some path /\
    serve (F := float64) demo_request ""%string =
    if str_eqb path (EscapedPath (req_URL demo_request))
    then routes (handed (Mux.Method demo_request) (path_segs (raws_of path)) (query_of (req_URL demo_request)) ""%string)
    else reply_with (Reply StatusMoved None).
Proof.
  split; [vm_compute; reflexivity|].
  apply (mux_refines_routes demo_request ""%string); [vm_compute; discriminate..|].
  change (EscapedPath (req_URL demo_request)) with (bytes "/recipes/a%2Fb"). apply bytes_range.
Defined.
