(* ===== verification/RequestSpec.v ===== *)
(** Theorems about a request from its request line: a path written with [PathEscape] and a
    query written with [Encode] reach their handler unchanged. *)
From stdpp Require Import gmap strings.
From Stdlib Require Import ZArith Lia String Bool List SpecFloat.
From S2P Require Import Prelude GoFloat Float64 Strconv Atof Utf8 Scanner JsonEncode Ftoa GoStrings Url UrlSpec PathClean Mux MuxSpec Store StoreSpec StoreGlob Handlers HandlersSpec JsonRecords JsonTyping JsonRoundtrip JsonFloat HttpServe HttpSpec.
Import ListNotations.
Local Open Scope Z_scope.

(** * The bytes of a target *)

Lemma escape_forall (P : Z -> bool) mode s :
  forallb (fun c => forallb P (escape_byte mode c)) all_bytes = true ->
  Forall is_byte s -> Forall (fun c => P c = true) (escape s mode).
Proof.
  intros H Hs. rewrite escape_flat. apply Forall_flat_map. eapply List.Forall_impl; [|exact Hs].
  intros c Hc. apply List.Forall_forall, forallb_forall.
  exact (all_bytes_forallb (fun c => forallb P (escape_byte mode c)) c H Hc).
Qed.

(** No space, control byte or question mark. *)
Definition target_char (c : Z) : bool := (space <? c) && (c <? 0x7f) && negb (c =? question).
Definition target_chars (s : list Z) : Prop := Forall (fun c => target_char c = true) s.

Lemma target_chars_not_In s c : target_chars s -> target_char c = false -> ~ In c s.
Proof. intros H Hc Hi. unfold target_chars in H. rewrite List.Forall_forall in H. apply H in Hi. congruence. Qed.

Lemma target_chars_bytes s : target_chars s -> Forall is_byte s.
Proof. apply List.Forall_impl. intros c. unfold target_char, is_byte. rewrite !andb_true_iff. lia. Qed.

Lemma target_chars_no_ctl s : target_chars s -> stringContainsCTLByte s = false.
Proof.
  intros H. apply not_true_iff_false. intros (c & Hi & Hc)%existsb_exists. unfold target_chars in H.
  rewrite List.Forall_forall in H. apply H in Hi. unfold target_char in *.
  rewrite !andb_true_iff in Hi. rewrite orb_true_iff in Hc. lia.
Qed.

Lemma PathEscape_chars s : Forall is_byte s -> target_chars (PathEscape s).
Proof. intros H. apply escape_forall; [vm_compute; reflexivity|exact H]. Qed.

Lemma QueryEscape_chars s : Forall is_byte s -> target_chars (QueryEscape s).
Proof. intros H. apply escape_forall; [vm_compute; reflexivity|exact H]. Qed.

Lemma Join_chars c l : target_char c = true -> Forall target_chars l -> target_chars (Join l [c]).
Proof.
  intros Hc H. destruct H as [|s l Hs Hl]; [constructor|]. rewrite Join_more.
  apply List.Forall_app. split; [exact Hs|]. apply Forall_flat_map.
  eapply List.Forall_impl; [|exact Hl]. intros a Ha. now constructor.
Qed.

Lemma Encode_chars v : values_are_bytes v -> target_chars (Url.Encode v).
Proof.
  intros Hv. destruct (Encode_settings v Hv) as (-> & _ & _). apply Join_chars; [reflexivity|].
  apply List.Forall_forall. intros s Hs. apply in_map_iff in Hs as (p & <- & Hp).
  apply in_flat_map in Hp as (k & _ & Hp). apply pairs_of_bytes in Hp as [H1 H2]; [|exact Hv].
  apply List.Forall_app. split; [now apply QueryEscape_chars|]. constructor; [reflexivity|now apply QueryEscape_chars].
Qed.

(** * Reading a path *)

Lemma check_escapes_app mode a : forall n hp n' hp' b,
  check_escapes mode a n hp = inr (n', hp') -> check_escapes mode (a ++ b) n hp = check_escapes mode b n' hp'.
Proof.
  induction a as [a IH] using (induction_ltof1 _ (@length Z)). unfold ltof in IH. intros n hp n' hp' b E.
  destruct a as [|c a]; [cbn in E; now injection E as <- <-|]. cbn [app check_escapes] in *. case_if_in E.
  - destruct a as [|x [|y a]]; [discriminate E..|]. cbn [app].
    destruct (negb (ishex x) || negb (ishex y)); [discriminate E|].
    destruct mode; try (case_if_in E; [discriminate E|]); (apply IH; [cbn [length]; lia|exact E]).
  - case_if_in E; [apply IH; [cbn [length]; lia|exact E]|]. case_if_in E; [discriminate E|].
    apply IH; [cbn [length]; lia|exact E].
Qed.

(** A path reads as one of its segments does. *)
Lemma check_escapes_path s : forall n hp, check_escapes encodePath s n hp = check_escapes encodePathSegment s n hp.
Proof.
  induction s as [s IH] using (induction_ltof1 _ (@length Z)). unfold ltof in IH. intros n hp.
  destruct s as [|c s]; [reflexivity|]. cbn [check_escapes]. case_if.
  - destruct s as [|x [|y s]]; [reflexivity..|]. case_if; [reflexivity|]. apply IH. cbn [length]. lia.
  - case_if; apply IH; cbn [length]; lia.
Qed.

(** Whether the escapes of a text are well formed. *)
Definition readable (mode : encoding) (s : list Z) : Prop :=
  forall n hp, exists r, check_escapes mode s n hp = inr r.

Lemma check_escapes_readable mode s : forall n hp r, check_escapes mode s n hp = inr r -> readable mode s.
Proof.
  induction s as [s IH] using (induction_ltof1 _ (@length Z)). unfold ltof in IH. intros n hp r E n2 hp2.
  destruct s as [|c s]; [eexists; reflexivity|]. cbn [check_escapes] in *. case_if_in E.
  - destruct s as [|x [|y s]]; [discriminate E..|].
    destruct (negb (ishex x) || negb (ishex y)); [discriminate E|].
    destruct mode; try (case_if_in E; [discriminate E|]); refine (IH s _ _ _ _ E _ _); cbn [length]; lia.
  - case_if_in E; [refine (IH s _ _ _ _ E _ _); cbn [length]; lia|]. case_if_in E; [discriminate E|].
    refine (IH s _ _ _ _ E _ _); cbn [length]; lia.
Qed.

Lemma readable_app mode a b : readable mode a -> readable mode b -> readable mode (a ++ b).
Proof.
  intros Ha Hb n hp. destruct (Ha n hp) as [[n' hp'] E]. rewrite (check_escapes_app mode a _ _ _ _ b E). apply Hb.
Qed.

Lemma readable_PathEscape e : Forall is_byte e -> readable encodePath (PathEscape e).
Proof.
  intros He. destruct (escape_bytes_read encodePathSegment e He) as (k & plus & _ & Hc & _ & _);
    [now apply escapable_mode|]. specialize (Hc 0 false ltac:(discriminate)).
  intros n hp. rewrite check_escapes_path. unfold PathEscape. rewrite escape_flat.
  exact (check_escapes_readable _ _ _ _ _ Hc n hp).
Qed.

Lemma readable_slash : readable encodePath [slash].
Proof. intros n hp. now eexists. Qed.

Lemma readable_path L : Forall (Forall is_byte) L -> readable encodePath (path_of (map PathEscape L)).
Proof.
  induction 1 as [|e L He _ IH]; [intros n hp; now eexists|]. cbn [map path_of flat_map].
  change (readable encodePath ([slash] ++ PathEscape e ++ path_of (map PathEscape L))).
  apply readable_app; [apply readable_slash|]. apply readable_app; [now apply readable_PathEscape|exact IH].
Qed.

Lemma readable_unescape mode s : readable mode s -> exists x, unescape s mode = inr x.
Proof. intros H. unfold unescape. destruct (H 0 false) as [[n hp] ->]. cbn [let_ok]. eauto. Qed.

(** What [setPath] was given is what [EscapedPath] gives back, when it is rooted and of the
    bytes a path may have. *)
Lemma EscapedPath_setPath u p u' :
  setPath u p = inr u' -> HasPrefix p [slash] = true -> validEncoded p encodePath = true -> EscapedPath u' = p.
Proof.
  intros E Hp Hv. unfold setPath in E. destruct (unescape p encodePath) as [e|x] eqn:Ex; [discriminate E|].
  cbn [let_ok] in E. injection E as <-. unfold EscapedPath. cbn [RawPath Url.Path].
  destruct (str_eqb_spec p (escape x encodePath)) as [Ep|_]; cbn [nonempty andb].
  - destruct (str_eqb_spec x [star]) as [->|_]; [|exact (eq_sym Ep)]. rewrite Ep in Hp. discriminate Hp.
  - rewrite Hv. unfold decodes_to. rewrite Ex, str_eqb_refl. apply HasPrefix_spec in Hp as (t & ->). reflexivity.
Qed.

Lemma validEncoded_path L : Forall (Forall is_byte) L -> validEncoded (path_of (map PathEscape L)) encodePath = true.
Proof.
  intros H. apply forallb_forall. apply List.Forall_forall.
  induction H as [|e L He _ IH]; [constructor|]. cbn [map path_of flat_map app]. constructor; [reflexivity|].
  apply List.Forall_app. split; [|exact IH]. apply escape_forall; [vm_compute; reflexivity|exact He].
Qed.

(** * A request line *)

(** A target of a path and a query, as clients write it. *)
Definition target (L : list (list Z)) (q : list Z) : list Z :=
  path_of (map PathEscape L) ++ (if nonempty q then question :: q else []).

Definition request_line (m : list Z) (L : list (list Z)) (q : list Z) : list Z :=
  m ++ space :: target L q ++ space :: bytes "HTTP/1.1".

Lemma path_chars L : Forall (Forall is_byte) L -> target_chars (path_of (map PathEscape L)).
Proof.
  induction 1 as [|e L He _ IH]; [constructor|]. cbn [map path_of flat_map app]. constructor; [reflexivity|].
  apply List.Forall_app. split; [now apply PathEscape_chars|exact IH].
Qed.

Lemma target_not_In L q c :
  Forall (Forall is_byte) L -> target_chars q -> target_char c = false -> c <> question -> ~ In c (target L q).
Proof.
  intros HL Hq Hc Hn Hi. apply in_app_or in Hi as [Hi|Hi]; [now apply (target_chars_not_In _ c (path_chars L HL) Hc)|].
  destruct q as [|x q]; [destruct Hi|]. destruct Hi as [E|Hi]; [congruence|].
  now apply (target_chars_not_In _ c Hq Hc).
Qed.

Lemma target_no_ctl L q :
  Forall (Forall is_byte) L -> target_chars q -> stringContainsCTLByte (target L q) = false.
Proof.
  intros HL Hq. unfold target, stringContainsCTLByte. rewrite existsb_app. apply orb_false_iff. split.
  - apply target_chars_no_ctl. now apply path_chars.
  - destruct q as [|x q]; [reflexivity|]. cbn [nonempty existsb]. now apply target_chars_no_ctl in Hq.
Qed.

Lemma HasSuffix_byte (u : list Z) (x c : Z) : GoStrings.HasSuffix (u ++ [x]) [c] = true -> x = c.
Proof.
  unfold GoStrings.HasSuffix. rewrite rev_app_distr. cbn. rewrite andb_true_r. apply Z.eqb_eq.
Qed.

Lemma split_query_target p q :
  ~ In question p -> ~ In question q ->
  split_query (p ++ (if nonempty q then question :: q else [])) = (false, q, p).
Proof.
  intros Hp Hq. unfold split_query. destruct q as [|c q].
  - cbn [nonempty]. rewrite app_nil_r, CountByte_none by exact Hp. rewrite andb_false_r. now rewrite Cut_none.
  - destruct (exists_last (l := c :: q) ltac:(discriminate)) as (q' & x & E). rewrite E in *. clear E c q.
    replace (nonempty (q' ++ [x])) with true by now destruct q'. rewrite Cut_app by exact Hp.
    destruct (GoStrings.HasSuffix (p ++ question :: q' ++ [x]) [question]) eqn:Es; [|reflexivity]. exfalso.
    apply Hq. change (p ++ question :: q' ++ [x]) with (p ++ (question :: q') ++ [x]) in Es.
    rewrite app_assoc in Es. apply HasSuffix_byte in Es as ->. apply in_or_app. right. now left.
Qed.

(** The URL of a target. *)
Lemma ParseRequestURI_target L q :
  L <> [] -> Forall (Forall is_byte) L -> target_chars q ->
  exists u, ParseRequestURI (target L q) = inr u /\ EscapedPath u = path_of (map PathEscape L) /\
    RawQuery u = q /\ Host u = [].
Proof.
  intros Hne HL Hq. set (p := path_of (map PathEscape L)).
  assert (Hp : HasPrefix p [slash] = true).
  { apply HasPrefix_spec. unfold p. destruct L as [|e L]; [contradiction|]. cbn [map path_of flat_map app]. eauto. }
  destruct (readable_unescape encodePath p (readable_path L HL)) as [x Ex].
  unfold ParseRequestURI, parse. rewrite target_no_ctl by assumption.
  assert (Ht : exists t, target L q = slash :: t).
  { apply HasPrefix_spec in Hp as (t & E). unfold target. fold p. rewrite E. cbn [app]. eauto. }
  destruct Ht as (t & Et). replace (nonempty (target L q)) with true by now rewrite Et.
  rewrite (neq_str_eqb (target L q)) by (rewrite Et; discriminate). cbn [negb andb].
  assert (Eg : getScheme (target L q) = inr ([], target L q)) by now rewrite Et.
  rewrite Eg. cbn [let_ok ToLower_ascii map]. unfold target. fold p.
  rewrite split_query_target.
  2: { apply (target_chars_not_In p question (path_chars L HL)). reflexivity. }
  2: { now apply (target_chars_not_In q question Hq). }
  rewrite Hp. cbn [negb nonempty andb orb]. unfold setPath at 1. rewrite Ex. cbn [let_ok parse_error].
  eexists. split; [reflexivity|]. split; [|split; reflexivity].
  apply (EscapedPath_setPath (mkURL [] [] None [] [] [] false false q [] []) p); [|exact Hp|now apply validEncoded_path].
  unfold setPath. now rewrite Ex.
Qed.

Lemma readRequest_line m L q host :
  In m [bytes "GET"; bytes "HEAD"; bytes "POST"] -> L <> [] -> Forall (Forall is_byte) L -> target_chars q ->
  ValidHostHeader host = true ->
  exists u, conn_readRequest (request_line m L q) [host] = inr (Mux.mkRequest m u 1 1 host (target L q)) /\
    EscapedPath u = path_of (map PathEscape L) /\ RawQuery u = q.
Proof.
  intros Hm Hne HL Hq Hv. destruct (ParseRequestURI_target L q Hne HL Hq) as (u & E & Hp & Hr & Hh).
  exists u. split; [|now split]. unfold conn_readRequest, readRequest, parseRequestLine, request_line.
  assert (Hsp : ~ In space m) by (destruct Hm as [<-|[<-|[<-|[]]]]; cbv; intuition discriminate).
  rewrite Cut_app by exact Hsp. rewrite Cut_app by (apply target_not_In; [assumption..|reflexivity|discriminate]).
  cbn [negb orb]. replace (validMethod m) with true by (destruct Hm as [<-|[<-|[<-|[]]]]; vm_compute; reflexivity).
  replace (str_eqb m (bytes "CONNECT")) with false by (destruct Hm as [<-|[<-|[<-|[]]]]; vm_compute; reflexivity).
  change (ParseHTTPVersion (bytes "HTTP/1.1")) with (Some (1, 1)). cbn [negb andb].
  rewrite E, Hh. cbn [nonempty get_host hd length Nat.ltb Nat.leb].
  unfold http1ServerSupportsRequest, ProtoAtLeast. cbn [ProtoMajor ProtoMinor Z.eqb Z.ltb Z.compare Z.leb orb negb andb length Nat.eqb].
  now rewrite Hv.
Qed.

(** ** Names that are path segments *)

(** A name that is one segment of a clean path when escaped. *)
Definition segment_name (e : list Z) : Prop :=
  Forall is_byte e /\ e <> [] /\ e <> [dot] /\ e <> [dot; dot].

Lemma PathUnescape_escape e : Forall is_byte e -> PathUnescape (PathEscape e) = inr e.
Proof. intros He. apply unescape_escape; [exact He|now apply escapable_mode]. Qed.

Lemma PathEscape_plain e s : Forall is_byte e -> PathEscape e = s -> PathUnescape s = inr s -> e = s.
Proof. intros He <- Hs. rewrite PathUnescape_escape in Hs by exact He. congruence. Qed.

Lemma segment_name_fine e : segment_name e -> fine (PathEscape e).
Proof.
  intros (He & Hn & Hd & Hdd). split; [split|split].
  - intros E. now apply Hn, PathEscape_plain.
  - apply escape_not_In; [exact He|reflexivity].
  - intros E. now apply Hd, PathEscape_plain.
  - intros E. now apply Hdd, PathEscape_plain.
Qed.

Lemma seg_of_name e rs : segment_name e -> seg_of (PathEscape e) rs = e.
Proof.
  intros H. pose proof (segment_name_fine e H) as ((Hne & _) & _). unfold seg_of.
  assert (E : pathUnescape (PathEscape e) = e).
  { unfold pathUnescape. now rewrite PathUnescape_escape by apply H. }
  now destruct (PathEscape e).
Qed.

Lemma path_segs_names L : Forall segment_name L -> path_segs (map PathEscape L) = L.
Proof. induction 1 as [|e L He _ IH]; [reflexivity|]. cbn [map path_segs]. now rewrite IH, seg_of_name. Qed.

Lemma names_canonical L :
  L <> [] -> Forall segment_name L -> path_of (map PathEscape L) = canonical (map PathEscape L) false.
Proof.
  intros Hne H. unfold canonical. destruct L as [|e L]; [contradiction|].
  cbn [map]. rewrite Join_more, app_nil_r. reflexivity.
Qed.

Lemma names_raws L : L <> [] -> Forall segment_name L ->
  raws_of (path_of (map PathEscape L)) = map PathEscape L /\
  cleanPath (path_of (map PathEscape L)) = Some (path_of (map PathEscape L)).
Proof.
  intros Hne H.
  assert (Hf : Forall fine (map PathEscape L)).
  { apply List.Forall_map. eapply List.Forall_impl; [|exact H]. intros e. apply segment_name_fine. }
  rewrite names_canonical by assumption. split; [|now apply cleanPath_canonical].
  rewrite raws_canonical by exact Hf. destruct L; [contradiction|]. cbn [map]. apply app_nil_r.
Qed.

(** ** The reply *)

(** The settings of a form, as the handlers see them. *)
Definition settings (v : Values) : list (string * string) :=
  map (fun p => (text (fst p), text (snd p))) (flat_map (pairs_of v) (keys_of v)).

Lemma query_of_Encode u v : values_are_bytes v -> RawQuery u = Url.Encode v -> query_of u = settings v.
Proof.
  intros Hv E. unfold query_of, settings, query_pairs. rewrite E. f_equal.
  destruct (Encode_settings v Hv) as (-> & Hs & Ha). etransitivity; [|exact Ha].
  set (ss := map _ (flat_map _ _)) in *. destruct ss as [|s ss]; [reflexivity|].
  rewrite split_at_Join; [reflexivity|discriminate|]. eapply List.Forall_impl; [|exact Hs]. now intros ? [].
Qed.

Lemma written_routes {F} {GF : GoFloat F} {GS : GoStrconv F} {DD : DataDir}
    {RC : RecordCodec F (Recipe F)} {CC : RecordCodec F (CycleRecord F)}
    {BR : BodyDecoder F (Recipe F)} {BC : BodyDecoder F (CycleRecord F)}
    {BL : BodyDecoder F (liftRequest F)} {BCC : BodyDecoder F (cycleCurveRequest F)}
    (m : list Z) (L : list (list Z)) (v : Values) (host : list Z) (body : string) :
  ValidHostHeader host = true ->
  In m [bytes "GET"; bytes "HEAD"; bytes "POST"] -> L <> [] -> Forall segment_name L -> values_are_bytes v ->
  serve_line (F := F) (request_line m L (Url.Encode v)) [host] body =
  routes (mkRequest (method_of m) (map text L) (settings v) body).
Proof.
  intros Hh Hm Hne HL Hv.
  assert (Hb : Forall (Forall is_byte) L) by (eapply List.Forall_impl; [|exact HL]; now intros ? []).
  destruct (readRequest_line m L (Url.Encode v) host Hm Hne Hb (Encode_chars v Hv) Hh) as (u & E & Hp & Hq).
  unfold serve_line. rewrite E. destruct (names_raws L Hne HL) as [Hr Hc].
  destruct (serve_routes (F := F) (Mux.mkRequest m u 1 1 host (target L (Url.Encode v))) body) as (path & Ec & ->);
    cbn [Mux.Method RequestURI req_URL].
  - destruct Hm as [<-|[<-|[<-|[]]]]; discriminate.
  - destruct Hm as [<-|[<-|[<-|[]]]]; discriminate.
  - destruct L; [contradiction|]. discriminate.
  - rewrite Hp. now apply target_chars_bytes, path_chars.
  - cbn [req_URL] in Ec. rewrite Hp in *. rewrite Hc in Ec. apply Some_inj in Ec as <-.
    rewrite str_eqb_refl. unfold handed. rewrite Hr, path_segs_names by exact HL. now rewrite query_of_Encode with (v := v).
Qed.

(** C6: A request written as a client writes it - a GET, HEAD or POST of a path of escaped
    segments with an encoded form - is answered by [Handlers.routes] on exactly those
    segments and the settings of that form: no byte of a name or of a value is lost,
    misread or redirected on the way through the request line, the URL, the path cleaning
    and the router. *)
Theorem written_request_served {F} {GF : GoFloat F} {GS : GoStrconv F} {DD : DataDir}
    {RC : RecordCodec F (Recipe F)} {CC : RecordCodec F (CycleRecord F)}
    {BR : BodyDecoder F (Recipe F)} {BC : BodyDecoder F (CycleRecord F)}
    {BL : BodyDecoder F (liftRequest F)} {BCC : BodyDecoder F (cycleCurveRequest F)}
    (m : list Z) (L : list (list Z)) (v : Values) (host : list Z) (body : string) :
  ValidHostHeader host = true ->
  In m [bytes "GET"; bytes "HEAD"; bytes "POST"] -> L <> [] -> Forall segment_name L -> values_are_bytes v ->
  serve_line (F := F) (request_line m L (Url.Encode v)) [host] body =
  routes (mkRequest (method_of m) (map text L) (settings v) body).
Proof. apply written_routes. Qed.

#[local] Existing Instance plain_dir.

Definition demo_form : Values := {[bytes "points" := [bytes "2"]; bytes "recipe" := [bytes "a&b"]]}.

Lemma written_request_served_witness :
  request_line (bytes "GET") [bytes "recipes"; bytes "50% off/day?"] (Url.Encode demo_form) =
    bytes "GET /recipes/50%25%20off%2Fday%3F?points=2&recipe=a%26b HTTP/1.1" /\
  serve_line (F := float64)
    (request_line (bytes "GET") [bytes "recipes"; bytes "50% off/day?"] (Url.Encode demo_form)) [bytes "localhost:8080"] ""%string =
  routes (mkRequest (method_of (bytes "GET")) (map text [bytes "recipes"; bytes "50% off/day?"]) (settings demo_form) ""%string).
Proof.
  split; [vm_compute; reflexivity|].
  apply (written_request_served (bytes "GET") [bytes "recipes"; bytes "50% off/day?"] demo_form (bytes "localhost:8080"));
    [reflexivity|now left|discriminate| |].
  - repeat constructor; try discriminate; apply bytes_range.
  - unfold values_are_bytes, demo_form. repeat (apply map_Forall_insert_2; [|]); try apply map_Forall_empty.
    all: split; repeat constructor; try apply bytes_range; cbv; discriminate.
Defined.

(** A path that is not clean is redirected to its clean form, escaped once more: [findHandler]
    puts the escaped path where a URL has the decoded one, so that a client that follows the
    redirect asks for another name. *)
Lemma redirect_escapes_twice :
  opt_bind (readRequest (bytes "GET /recipes//50%25 HTTP/1.1") [bytes "h"]) (fun r =>
    opt_bind routes_mux (fun mux => ServeHTTP mux r)) =
  Some (RedirectHandler (bytes "/recipes/50%2525") StatusMovedPermanently).
Proof. vm_compute. reflexivity. Qed.
