(* ===== verification/StoreConc.v ===== *)
(** The store under concurrent requests, partial writes and crashes.

    The operations of [Store] are functions on the file system; here each of the six is
    a program of system calls and of calls of [s.mu], a goroutine makes one step at a
    time, a write reaches the disk in pieces, every call may fail, and the process may
    stop at any moment and be started again.  [s.mu.Lock] blocks while another
    goroutine holds the mutex.  Run without interruption the programs are the
    operations of [Store] ([seq_op_program]); the theorems say what the interleavings
    can add to that. *)
From stdpp Require Import gmap strings.
From Stdlib Require Import ZArith Lia String Bool List.
From S2P Require Import Prelude GoFloat Float64 Store StoreSpec StoreGlob.
From S2P Require Law.
Import ListNotations.
Local Open Scope go_scope.
Local Open Scope string_scope.

(** * Programs of system calls *)

Inductive prog (F A : Type) :=
| Ret (r : result F A)
| ReadFile (path : string) (k : result F string -> prog F A)
| WriteFile (path data : string) (k : result F unit -> prog F A)
| Rename (old new : string) (k : result F unit -> prog F A)
| Remove (path : string) (k : result F unit -> prog F A)
| Glob (name : string) (k : result F (list string) -> prog F A)
| Lock (k : prog F A)                           (* s.mu.Lock() *)
| Unlock (k : prog F A).                        (* s.mu.Unlock() *)
Arguments Ret {F A}.
Arguments ReadFile {F A}.
Arguments WriteFile {F A}.
Arguments Rename {F A}.
Arguments Remove {F A}.
Arguments Glob {F A}.
Arguments Lock {F A}.
Arguments Unlock {F A}.

(** Run to the end by the only goroutine, with the calls of [Store]. *)
Fixpoint run {F A} {DD : DataDir} (p : prog F A) : io F A := fun w =>
  match p with
  | Ret r => (r, w)
  | ReadFile path k => let '(r, w) := os_ReadFile path w in run (k r) w
  | WriteFile path data k => let '(r, w) := os_WriteFile path data w in run (k r) w
  | Rename old new k => let '(r, w) := os_Rename old new w in run (k r) w
  | Remove path k => let '(r, w) := os_Remove path w in run (k r) w
  | Glob name k => let '(r, w) := filepath_Glob name w in run (k r) w
  | Lock k | Unlock k => run k w
  end.

Fixpoint andThen {F A B} (p : prog F A) (h : result F A -> prog F B) : prog F B :=
  match p with
  | Ret r => h r
  | ReadFile path k => ReadFile path (fun r => andThen (k r) h)
  | WriteFile path data k => WriteFile path data (fun r => andThen (k r) h)
  | Rename old new k => Rename old new (fun r => andThen (k r) h)
  | Remove path k => Remove path (fun r => andThen (k r) h)
  | Glob name k => Glob name (fun r => andThen (k r) h)
  | Lock k => Lock (andThen k h)
  | Unlock k => Unlock (andThen k h)
  end.

Definition pbind {F A B} (p : prog F A) (k : A -> prog F B) : prog F B :=
  andThen p (fun r => match r with Ok a => k a | Err e => Ret (Err e) | Panic => Ret Panic end).

Definition pcatch {F A} (p : prog F A) (h : error F -> prog F A) : prog F A :=
  andThen p (fun r => match r with Err e => h e | _ => Ret r end).

(** [defer s.mu.Unlock()]: whatever [p] returns, and when it panics, the mutex is
    released first. *)
Definition defer_Unlock {F A} (p : prog F A) : prog F A := andThen p (fun r => Unlock (Ret r)).

Lemma run_andThen {F A B} {DD : DataDir} (p : prog F A) (h : result F A -> prog F B) w :
  run (andThen p h) w = let '(r, w') := run p w in run (h r) w'.
Proof.
  revert w. induction p as [r|path k IH|path d k IH|old new k IH|path k IH|name k IH|k IH|k IH];
    intros w; cbn [andThen run]; [reflexivity| | | | |  |apply IH|apply IH];
    match goal with |- (let '(_, _) := ?m in _) = _ => destruct m as [r w1] end; apply IH.
Qed.

Lemma run_pbind {F A B} {DD : DataDir} (p : prog F A) (k : A -> prog F B) w :
  run (pbind p k) w = io_bind (run p) (fun a => run (k a)) w.
Proof.
  unfold pbind, io_bind. rewrite run_andThen. now destruct (run p w) as [[a|e|] w'].
Qed.

Lemma run_pcatch {F A} {DD : DataDir} (p : prog F A) (h : error F -> prog F A) w :
  run (pcatch p h) w = io_catch (run p) (fun e => run (h e)) w.
Proof.
  unfold pcatch, io_catch. rewrite run_andThen. now destruct (run p w) as [[a|e|] w'].
Qed.

Lemma run_defer_Unlock {F A} {DD : DataDir} (p : prog F A) w : run (defer_Unlock p) w = run p w.
Proof. unfold defer_Unlock. rewrite run_andThen. now destruct (run p w). Qed.

(** * The files of [jsonfile.go] and the loop of the lists *)

Section Programs.
Context {F A : Type} {DD : DataDir} {RC : RecordCodec F A}.

Definition read_prog (file : string) : prog F A :=
  pbind (ReadFile file Ret) (fun b =>
    match Unmarshal b with
    | Ok v => Ret (Ok v)
    | Err e => Ret (Err (ErrorfW [Lit "解析 "; FmtS file; Lit " 失败: "; FmtW] e))
    | Panic => Ret Panic
    end).

Definition write_prog (name : string) (v : A) : prog F unit :=
  pbind (Ret (MarshalIndent v)) (fun b =>
    let final := name in
    let tmp := final ++ ".tmp" in
    pbind (pcatch (WriteFile tmp b Ret) (fun e =>
      Ret (Err (ErrorfW [Lit "写入 "; FmtS name; Lit " 失败: "; FmtW] e)))) (fun _ =>
    pcatch (Rename tmp final Ret) (fun e =>
      pbind (pcatch (Remove tmp Ret) (fun _ => Ret (Ok tt))) (fun _ =>
      Ret (Err (ErrorfW [Lit "保存 "; FmtS name; Lit " 失败: "; FmtW] e)))))).

Fixpoint read_all_prog (fs : list string) : prog F (list A) :=
  match fs with
  | [] => Ret (Ok [])
  | f :: fs' =>
      andThen (read_prog f) (fun r =>
        match r with
        | Ok v => pbind (read_all_prog fs') (fun rs => Ret (Ok (v :: rs)))
        | Err _ => read_all_prog fs'
        | Panic => Ret Panic
        end)
  end.

Definition list_prog (pre : string) : prog F (list A) :=
  pbind (Glob (pre ++ "*.json") Ret) (fun fs => read_all_prog (map file_of (sort_Strings fs))).

Lemma run_read_prog file w : run (read_prog file) w = readJSONFile file w.
Proof.
  unfold read_prog, readJSONFile. rewrite run_pbind. unfold io_bind. cbn [run].
  destruct (os_ReadFile file w) as [[b|e|] w']; try reflexivity.
  now destruct (Unmarshal b).
Qed.

Lemma run_write_prog name v w : run (write_prog name v) w = atomicWriteJSON name v w.
Proof.
  unfold write_prog, atomicWriteJSON, pbind, pcatch, io_bind, io_catch, of_result, ret, fail.
  destruct (MarshalIndent v) as [b|e|]; cbn [andThen run]; try reflexivity.
  destruct (os_WriteFile (name ++ ".tmp") b w) as [[u|e|] w1]; cbn [andThen run]; try reflexivity.
  destruct (os_Rename (name ++ ".tmp") name w1) as [[u'|e|] w2]; cbn [andThen run]; try reflexivity.
  now destruct (os_Remove (name ++ ".tmp") w2) as [[u''|e'|] w3].
Qed.

Lemma run_read_all_prog fs : forall w, run (read_all_prog fs) w = read_all fs w.
Proof.
  induction fs as [|f fs IH]; intros w; cbn [read_all_prog read_all]; [reflexivity|].
  rewrite run_andThen, run_read_prog.
  destruct (readJSONFile f w) as [[v|e|] w1]; [|apply IH|reflexivity].
  rewrite run_pbind. unfold io_bind. now rewrite IH.
Qed.

Lemma run_list_prog pre w :
  run (list_prog pre) w = (fs <~ filepath_Glob (pre ++ "*.json") ;; read_all (map file_of (sort_Strings fs))) w.
Proof.
  unfold list_prog. rewrite run_pbind. unfold io_bind. cbn [run].
  destruct (filepath_Glob (pre ++ "*.json") w) as [[fs|e|] w1]; try reflexivity.
  apply run_read_all_prog.
Qed.
End Programs.

(** * The operations *)

Section Concurrent.
Context {F : Type} {GF : GoFloat F} {DD : DataDir}.
Context {RC : RecordCodec F (Recipe F)} {CC : RecordCodec F (CycleRecord F)}.

Inductive op :=
| OSaveRecipe (r : Recipe F)
| OGetRecipe (name : string)
| OListRecipes
| OSaveCycle (r : CycleRecord F)
| OGetCycle (name : string)
| OListCycles.

(** What an operation returns besides its error. *)
Inductive resp :=
| Done
| ARecipe (r : Recipe F)
| Recipes (l : list (Recipe F))
| ACycle (r : CycleRecord F)
| Cycles (l : list (CycleRecord F)).

(** The operation as [Store] has it. *)
Definition seq_op (o : op) : io F resp :=
  match o with
  | OSaveRecipe r => check~ SaveRecipe r ;; ret Done
  | OGetRecipe n => r <~ GetRecipe n ;; ret (ARecipe r)
  | OListRecipes => l <~ ListRecipes ;; ret (Recipes l)
  | OSaveCycle r => check~ SaveCycle r ;; ret Done
  | OGetCycle n => r <~ GetCycle n ;; ret (ACycle r)
  | OListCycles => l <~ ListCycles ;; ret (Cycles l)
  end.

(** What it checks before [s.mu.Lock()]. *)
Definition pre (o : op) : result F unit :=
  match o with
  | OSaveRecipe r => check (Recipe_Validate r) ;; checkName (Recipe_Name r)
  | OGetRecipe n | OGetCycle n => checkName n
  | OListRecipes | OListCycles => Ok tt
  | OSaveCycle r => check (CycleRecord_Validate r) ;; checkName (CR_Name r)
  end.

(** [if err := ...; err != nil { return err }] *)
Definition checked {A} (c : result F unit) (p : prog F A) : prog F A := pbind (Ret c) (fun _ => p).

Definition pmap {A} (f : A -> resp) (p : prog F A) : prog F resp :=
  pbind p (fun a => Ret (Ok (f a))).

(** The six operations, each with its own use of the mutex. *)
Definition SaveRecipe_prog (r : Recipe F) : prog F resp :=
  checked (Recipe_Validate r) (
  checked (checkName (Recipe_Name r)) (
  Lock (defer_Unlock (
  pmap (fun _ => Done) (write_prog (recipe_file (Recipe_Name r)) r))))).

Definition GetRecipe_prog (n : string) : prog F resp :=
  checked (checkName n) (
  Lock (defer_Unlock (
  pmap ARecipe (pcatch (read_prog (recipe_file n)) (fun err =>
    if errors_Is err ErrNotExist then
      Ret (Err (ErrorfW [FmtW; Lit ": 配方 "; FmtQ n] (Sentinel ErrNotFound)))
    else Ret (Err err)))))).

Definition ListRecipes_prog : prog F resp :=
  Lock (defer_Unlock (pmap Recipes (list_prog "recipe_"))).

Definition SaveCycle_prog (r : CycleRecord F) : prog F resp :=
  checked (CycleRecord_Validate r) (
  checked (checkName (CR_Name r)) (
  Lock (defer_Unlock (
  pmap (fun _ => Done) (write_prog (cycle_file (CR_Name r)) r))))).

Definition GetCycle_prog (n : string) : prog F resp :=
  checked (checkName n) (
  Lock (defer_Unlock (
  pmap ACycle (pcatch (read_prog (cycle_file n)) (fun err =>
    if errors_Is err ErrNotExist then
      Ret (Err (ErrorfW [FmtW; Lit ": 循环档 "; FmtQ n] (Sentinel ErrNotFound)))
    else Ret (Err err)))))).

Definition ListCycles_prog : prog F resp :=
  Lock (defer_Unlock (pmap Cycles (list_prog "cycle_"))).

Definition op_prog (o : op) : prog F resp :=
  match o with
  | OSaveRecipe r => SaveRecipe_prog r
  | OGetRecipe n => GetRecipe_prog n
  | OListRecipes => ListRecipes_prog
  | OSaveCycle r => SaveCycle_prog r
  | OGetCycle n => GetCycle_prog n
  | OListCycles => ListCycles_prog
  end.

Lemma run_pmap {A} (f : A -> resp) (p : prog F A) w :
  run (pmap f p) w = io_bind (run p) (fun a => ret (f a)) w.
Proof. unfold pmap. rewrite run_pbind. unfold io_bind. now destruct (run p w) as [[a|e|] w']. Qed.

(** Run without interruption, the program is the operation. *)
Lemma seq_op_program o w : run (op_prog o) w = seq_op o w.
Proof.
  destruct o as [r|n| |r|n|]; cbn [seq_op op_prog];
    unfold SaveRecipe_prog, GetRecipe_prog, ListRecipes_prog, SaveCycle_prog, GetCycle_prog,
      ListCycles_prog, SaveRecipe, GetRecipe, ListRecipes, SaveCycle, GetCycle, ListCycles,
      checked, io_bind, io_catch, of_result, bind;
    try (destruct (Recipe_Validate r) as [[]|e|]); try (destruct (CycleRecord_Validate r) as [[]|e|]);
    try (destruct (checkName _) as [[]|e|]); try reflexivity;
    cbn [pbind andThen run]; rewrite run_defer_Unlock, run_pmap; unfold io_bind;
    rewrite ?run_pcatch; unfold io_catch; rewrite ?run_write_prog, ?run_read_prog, ?run_list_prog;
    try reflexivity.
  - destruct (readJSONFile (recipe_file n) w) as [[v|e|] w1]; try reflexivity.
    now destruct (errors_Is e ErrNotExist).
  - destruct (readJSONFile (cycle_file n) w) as [[v|e|] w1]; try reflexivity.
    now destruct (errors_Is e ErrNotExist).
Qed.

(** An operation that refuses its arguments returns without the mutex, any other first
    asks for it. *)
Lemma op_prog_pre o :
  match pre o with
  | Ok _ => exists p, op_prog o = Lock p
  | Err e => op_prog o = Ret (Err e)
  | Panic => op_prog o = Ret Panic
  end.
Proof.
  destruct o as [r|n| |r|n|]; cbn [pre op_prog]; try (now eexists);
    unfold SaveRecipe_prog, GetRecipe_prog, SaveCycle_prog, GetCycle_prog, checked, bind;
    try (destruct (Recipe_Validate r) as [[]|e|]); try (destruct (CycleRecord_Validate r) as [[]|e|]);
    try (destruct (checkName _) as [[]|e|]); cbn [pbind andThen]; try reflexivity; now eexists.
Qed.

Lemma op_prog_Lock o p : op_prog o = Lock p -> pre o = Ok tt.
Proof.
  intros E. pose proof (op_prog_pre o) as H. destruct (pre o) as [[]|e|]; [reflexivity|congruence..].
Qed.

Lemma op_prog_Ret o r : op_prog o = Ret r -> pre o <> Ok tt.
Proof. intros E Hp. pose proof (op_prog_pre o) as H. rewrite Hp in H. destruct H. congruence. Qed.

(** * Steps *)

(** Where the goroutine that holds the mutex is: before a call, or in the middle of
    writing a file, with [rest] still to be written. *)
Inductive control :=
| At (p : prog F resp)
| Writing (path rest : string) (k : result F unit -> prog F resp).

(** One system call, or one piece of a write, by any program.  A call that is not a write takes one
    outcome [f] from the environment. *)
Inductive call : control * gmap string string -> control * gmap string string -> Prop :=
| call_read path k m f r w :
    os_ReadFile path (mkFS m [f]) = (r, w) -> call (At (ReadFile path k), m) (At (k r), files w)
| call_rename old new k m f r w :
    os_Rename old new (mkFS m [f]) = (r, w) ->
    call (At (Rename old new k), m) (At (k r), files w)
| call_remove path k m f r w :
    os_Remove path (mkFS m [f]) = (r, w) -> call (At (Remove path k), m) (At (k r), files w)
| call_glob name k m f r w :
    filepath_Glob name (mkFS m [f]) = (r, w) ->
    call (At (Glob name k), m) (At (k r), files w)
| call_open_fails path d k m e :
    call (At (WriteFile path d k), m) (At (k (Err (PathError "open" path e))), m)
| call_open path d k m :
    call (At (WriteFile path d k), m) (Writing path d k, <[path := ""]> m)
| call_write path a b k m w :
    a <> "" -> m !! path = Some w ->
    call (Writing path (a ++ b) k, m) (Writing path b k, <[path := w ++ a]> m)
| call_write_fails path rest k m e :
    call (Writing path rest k, m) (At (k (Err (PathError "write" path e))), m)
| call_written path k m :
    call (Writing path "" k, m) (At (k (Ok tt)), m).

(** What the clients and the operator see, in the order it happens. *)
Inductive event :=
| Invoked (t : nat) (o : op)
| Returned (t : nat) (o : op) (r : result F resp)
| Crashed.

Record state := mkState {
  disk : gmap string string;
  waiting : gmap nat op;                       (* goroutines blocked in s.mu.Lock() *)
  inside : option (nat * op * control);        (* the one that holds s.mu *)
  history : list event
}.

Definition start (m : gmap string string) : state := mkState m ∅ None [].

(** A goroutine runs up to [s.mu.Lock()] or to its end, waits until nobody holds the
    mutex, makes its calls, and holds the mutex until its program says [s.mu.Unlock()];
    what is left then is to return. *)
Inductive step : state -> state -> Prop :=
| step_invoke m ws i h t o p :
    ws !! t = None -> op_prog o = Lock p ->
    step (mkState m ws i h) (mkState m (<[t := o]> ws) i (h ++ [Invoked t o])%list)
| step_reject m ws i h t o r :
    op_prog o = Ret r ->
    step (mkState m ws i h) (mkState m ws i (h ++ [Returned t o r])%list)
| step_lock m ws h t o p :
    ws !! t = Some o -> op_prog o = Lock p ->
    step (mkState m ws None h) (mkState m (delete t ws) (Some (t, o, At p)) h)
| step_call m ws h t o c m' c' :
    call (c, m) (c', m') ->
    step (mkState m ws (Some (t, o, c)) h) (mkState m' ws (Some (t, o, c')) h)
| step_unlock m ws h t o r :
    step (mkState m ws (Some (t, o, At (Unlock (Ret r)))) h)
         (mkState m ws None (h ++ [Returned t o r])%list)
| step_crash m ws i h :
    step (mkState m ws i h) (mkState m ∅ None (h ++ [Crashed])%list).

Inductive reach (m0 : gmap string string) : state -> Prop :=
| reach_start : reach m0 (start m0)
| reach_step s s' : reach m0 s -> step s s' -> reach m0 s'.

(** * What a critical section has done so far *)

(** The record files are as before. *)
Definition kept_records (m m' : gmap string string) : Prop :=
  forall p n, m' !! record_file p n = m !! record_file p n.

(** From [m] the section came to [c] and the disk to [m']: some outcomes of the calls
    lead there. *)
Definition reached (p : prog F resp) (m : gmap string string) (c : control)
    (m' : gmap string string) : Prop :=
  match c with
  | At q => exists fl, forall rest, run p (mkFS m (fl ++ rest)%list) = run q (mkFS m' rest)
  | Writing path rst k =>
      exists fl m1 w, m' = <[path := w]> m1 /\
        forall rest, run p (mkFS m (fl ++ rest)%list) = run (WriteFile path (w ++ rst) k) (mkFS m1 rest)
  end.

Lemma reached_refl p m : reached p m (At p) m.
Proof. now exists []. Qed.

(** A call takes one outcome, whatever comes after. *)
Lemma os_ReadFile_frame path m f rest r w :
  os_ReadFile (F := F) path (mkFS m [f]) = (r, w) ->
  os_ReadFile (F := F) path (mkFS m (f :: rest)) = (r, mkFS (files w) rest).
Proof.
  unfold os_ReadFile, next_fault. cbn. destruct f; [|destruct (m !! path)];
    intros Q; injection Q as <- <-; reflexivity.
Qed.

Lemma os_Rename_frame old new m f rest r w :
  os_Rename (F := F) old new (mkFS m [f]) = (r, w) ->
  os_Rename (F := F) old new (mkFS m (f :: rest)) = (r, mkFS (files w) rest).
Proof.
  unfold os_Rename, next_fault, set_files. cbn. destruct f; [|destruct (m !! old)];
    intros Q; injection Q as <- <-; reflexivity.
Qed.

Lemma os_Remove_frame path m f rest r w :
  os_Remove (F := F) path (mkFS m [f]) = (r, w) ->
  os_Remove (F := F) path (mkFS m (f :: rest)) = (r, mkFS (files w) rest).
Proof.
  unfold os_Remove, next_fault, set_files. cbn. destruct f; [|destruct (m !! path)];
    intros Q; injection Q as <- <-; reflexivity.
Qed.

Lemma filepath_Glob_frame name m f rest r w :
  filepath_Glob (F := F) name (mkFS m [f]) = (r, w) ->
  filepath_Glob (F := F) name (mkFS m (f :: rest)) = (r, mkFS (files w) rest).
Proof.
  unfold filepath_Glob. cbn [next_fault faults files].
  destruct (Glob.Join _) as [pattern|]; [destruct (Glob.Glob _ _ pattern)|];
    intros Q; injection Q as <- <-; reflexivity.
Qed.

Lemma snoc_cons {X} (l : list X) x rest : ((l ++ [x]) ++ rest = l ++ x :: rest)%list.
Proof. now rewrite <- app_assoc. Qed.

Lemma call_reached p m c m1 c' m2 :
  reached p m c m1 -> call (c, m1) (c', m2) -> reached p m c' m2.
Proof.
  intros Hr Hc. inversion Hc; subst; cbn [reached] in *.
  - destruct Hr as [fl Hr]. exists (fl ++ [f])%list. intros rest.
    rewrite snoc_cons, Hr. cbn [run]. erewrite os_ReadFile_frame by eassumption. reflexivity.
  - destruct Hr as [fl Hr]. exists (fl ++ [f])%list. intros rest.
    rewrite snoc_cons, Hr. cbn [run]. erewrite os_Rename_frame by eassumption. reflexivity.
  - destruct Hr as [fl Hr]. exists (fl ++ [f])%list. intros rest.
    rewrite snoc_cons, Hr. cbn [run]. erewrite os_Remove_frame by eassumption. reflexivity.
  - destruct Hr as [fl Hr]. exists (fl ++ [f])%list. intros rest.
    rewrite snoc_cons, Hr. cbn [run]. erewrite filepath_Glob_frame by eassumption. reflexivity.
  - destruct Hr as [fl Hr]. exists (fl ++ [Some (mkFault e None)])%list. intros rest.
    rewrite snoc_cons, Hr. reflexivity.
  - destruct Hr as [fl Hr]. exists fl, m1, "". split; [reflexivity|]. exact Hr.
  - destruct Hr as (fl & m3 & w0 & -> & Hr). exists fl, m3, (w ++ a).
    match goal with Hl : _ !! path = Some w |- _ => rewrite lookup_insert_eq in Hl; injection Hl as -> end.
    split; [apply insert_insert_eq|]. intros rest. now rewrite sapp_assoc.
  - destruct Hr as (fl & m3 & w0 & -> & Hr).
    exists (fl ++ [Some (mkFault e (Some (String.length w0)))])%list. intros rst.
    rewrite snoc_cons, Hr. cbn [run]. unfold os_WriteFile, next_fault, set_files.
    cbn [faults files]. now rewrite substring_prefix.
  - destruct Hr as (fl & m3 & w0 & -> & Hr). exists (fl ++ [None])%list. intros rst.
    rewrite snoc_cons, Hr. cbn [run]. unfold os_WriteFile, next_fault, set_files.
    cbn [faults files]. now rewrite sapp_nil.
Qed.

(** * Record files are touched by one call only *)

Definition no_record (path : string) : Prop := forall p n, path <> record_file p n.

(** Nothing but a successful rename changes a record file, and it is the last call
    under the mutex, which every way to the end releases. *)
Fixpoint tidy {A} (p : prog F A) : Prop :=
  match p with
  | Ret _ | Lock _ => False
  | Unlock k => exists r, k = Ret r
  | ReadFile _ k => forall r, tidy (k r)
  | WriteFile path _ k => no_record path /\ forall r, tidy (k r)
  | Rename old _ k =>
      no_record old /\ (exists r, k (Ok tt) = Unlock (Ret r)) /\ forall r, tidy (k r)
  | Remove path k => no_record path /\ forall r, tidy (k r)
  | Glob _ k => forall r, tidy (k r)
  end.

(** Programs that change nothing at all. *)
Fixpoint reads_only {A} (p : prog F A) : Prop :=
  match p with
  | Ret _ => True
  | ReadFile _ k => forall r, reads_only (k r)
  | Glob _ k => forall r, reads_only (k r)
  | _ => False
  end.

Lemma reads_only_tidy {A} (p : prog F A) : reads_only p -> tidy (defer_Unlock p).
Proof. unfold defer_Unlock. induction p; cbn; intros; try contradiction; eauto. Qed.

Lemma reads_only_andThen {A B} (p : prog F A) (h : result F A -> prog F B) :
  reads_only p -> (forall r, reads_only (h r)) -> reads_only (andThen p h).
Proof. intros Hp Hh. induction p; cbn in *; try contradiction; auto. Qed.

Lemma read_prog_reads {A} {_ : RecordCodec F A} file : reads_only (read_prog (A := A) file).
Proof. cbn. intros [b|e|]; cbn; try exact I. now destruct (Unmarshal b). Qed.

Lemma read_all_prog_reads {A} {_ : RecordCodec F A} fs : reads_only (read_all_prog (A := A) fs).
Proof.
  induction fs as [|f fs IH]; [exact I|]. apply reads_only_andThen; [apply read_prog_reads|].
  intros [v|e|]; [|exact IH|exact I]. apply reads_only_andThen; [exact IH|].
  intros [rs|e|]; exact I.
Qed.

Lemma pmap_reads {A} (f : A -> resp) p : reads_only p -> reads_only (pmap f p).
Proof. intros Hp. apply reads_only_andThen; [exact Hp|]. intros [a|e|]; exact I. Qed.

Lemma list_prog_reads {A} {_ : RecordCodec F A} pr : reads_only (list_prog (A := A) pr).
Proof. cbn. intros [fs|e|]; try exact I. apply read_all_prog_reads. Qed.

Lemma lookup_reads {A} {_ : RecordCodec F A} file (f : A -> resp) (test : error F -> bool) e1 :
  reads_only (pmap f (pcatch (read_prog (A := A) file) (fun e =>
    if test e then Ret (Err e1) else Ret (Err e)))).
Proof.
  apply pmap_reads, reads_only_andThen; [apply read_prog_reads|].
  intros [v|e|]; try exact I. now destruct (test e).
Qed.

Lemma save_prog_tidy {A} {_ : RecordCodec F A} pr name (v : A) :
  tidy (defer_Unlock (pmap (fun _ => Done) (write_prog (record_file pr name) v))).
Proof.
  unfold write_prog. destruct (MarshalIndent v) as [b|e|]; [|now eexists..]. cbn.
  assert (N : no_record (record_file pr name ++ ".tmp"))
    by (intros p n E; exact (record_file_not_tmp p n _ (eq_sym E))).
  split; [exact N|]. intros [[]|e|]; [|now eexists..]. cbn. split; [exact N|].
  split; [now eexists|]. intros [[]|e|]; [now eexists| |now eexists]. cbn. split; [exact N|].
  intros [[]|e'|]; now eexists.
Qed.

(** What an operation does under the mutex: it saves, or it only reads. *)
Lemma op_prog_section o p : op_prog o = Lock p ->
  match o with OSaveRecipe _ | OSaveCycle _ => True | _ => exists q, p = defer_Unlock q /\ reads_only q end
  /\ tidy p.
Proof.
  destruct o as [r|n| |r|n|]; cbn [op_prog];
    unfold SaveRecipe_prog, GetRecipe_prog, ListRecipes_prog, SaveCycle_prog, GetCycle_prog,
      ListCycles_prog, checked;
    try (destruct (Recipe_Validate r) as [[]|e|]; try discriminate);
    try (destruct (CycleRecord_Validate r) as [[]|e|]; try discriminate);
    try (destruct (checkName _) as [[]|e|]; try discriminate);
    cbn [pbind andThen]; intros Q; injection Q as <-.
  - split; [exact I|apply (save_prog_tidy "recipe_")].
  - split; [eexists; split; [reflexivity|]|apply reads_only_tidy]; apply lookup_reads.
  - split; [eexists; split; [reflexivity|]|apply reads_only_tidy]; apply pmap_reads, list_prog_reads.
  - split; [exact I|apply (save_prog_tidy "cycle_")].
  - split; [eexists; split; [reflexivity|]|apply reads_only_tidy]; apply lookup_reads.
  - split; [eexists; split; [reflexivity|]|apply reads_only_tidy]; apply pmap_reads, list_prog_reads.
Qed.

(** The section has not touched a record file, or its work is done. *)
Definition untouched (m : gmap string string) (c : control) (m' : gmap string string) : Prop :=
  (kept_records m m' /\
   match c with
   | At p => tidy p
   | Writing path _ k => no_record path /\ forall r, tidy (k r)
   end) \/ exists r, c = At (Unlock (Ret r)).

Lemma kept_insert m m1 path x :
  kept_records m m1 -> no_record path -> kept_records m (<[path := x]> m1).
Proof. intros Hk Hn p n. rewrite lookup_insert_ne by apply Hn. apply Hk. Qed.

Lemma kept_delete m m1 path :
  kept_records m m1 -> no_record path -> kept_records m (delete path m1).
Proof. intros Hk Hn p n. rewrite lookup_delete_ne by apply Hn. apply Hk. Qed.

Lemma call_untouched m c m1 c' m2 :
  untouched m c m1 -> call (c, m1) (c', m2) -> untouched m c' m2.
Proof.
  intros [[Hk Ht]|[r ->]] Hc; [|inversion Hc]. inversion Hc; subst; cbn [tidy] in Ht.
  - left. match goal with E : os_ReadFile _ _ = _ |- _ => unfold os_ReadFile, next_fault in E; cbn in E end.
    destruct f; [|destruct (m1 !! path)];
      match goal with E : (_, _) = _ |- _ => injection E as <- <- end; split; auto.
  - destruct Ht as (Hn & (r0 & Hr0) & Hk').
    match goal with E : os_Rename _ _ _ = _ |- _ =>
      unfold os_Rename, next_fault, set_files in E; cbn in E end.
    destruct f; [|destruct (m1 !! old)];
      match goal with E : (_, _) = _ |- _ => injection E as <- <- end.
    + left. split; auto.
    + right. exists r0. now rewrite Hr0.
    + left. split; auto.
  - destruct Ht as (Hn & Hk'). left.
    match goal with E : os_Remove _ _ = _ |- _ =>
      unfold os_Remove, next_fault, set_files in E; cbn in E end.
    destruct f; [|destruct (m1 !! path)];
      match goal with E : (_, _) = _ |- _ => injection E as <- <- end;
      (split; [|apply Hk']); auto. now apply kept_delete.
  - left. match goal with E : filepath_Glob ?n ?w = _ |- _ =>
      pose proof (filepath_Glob_files (F := F) n w) as Hf; rewrite E in Hf; cbn [snd files] in Hf end.
    rewrite Hf. split; auto.
  - destruct Ht as [Hn Hk']. left. split; auto.
  - destruct Ht as [Hn Hk']. left. split; [now apply kept_insert|]. auto.
  - destruct Ht as [Hn Hk']. left. split; [now apply kept_insert|]. auto.
  - destruct Ht as [Hn Hk']. left. split; auto.
  - destruct Ht as [Hn Hk']. left. split; auto.
Qed.

(** * Linearizability *)

(** The events, one after the other on the disk: an operation returns what [Store]'s
    definition of it returns on the disk as it then is, for some failures of its
    calls, and was invoked before unless its arguments are refused; a crash keeps all record files, or comes after the work of one invoked
    operation was done and before it returned. *)
Inductive seq_run (m0 : gmap string string) : list event -> gmap string string -> Prop :=
| seq_start : seq_run m0 [] m0
| seq_invoked h m t o : seq_run m0 h m -> seq_run m0 (h ++ [Invoked t o])%list m
| seq_returned h m t o fl r m' :
    seq_run m0 h m -> (pre o = Ok tt -> In (Invoked t o) h) ->
    seq_op o (mkFS m fl) = (r, mkFS m' []) ->
    seq_run m0 (h ++ [Returned t o r])%list m'
| seq_crashed h m m' :
    seq_run m0 h m ->
    (kept_records m m' \/
     exists t o fl r, In (Invoked t o) h /\ seq_op o (mkFS m fl) = (r, mkFS m' [])) ->
    seq_run m0 (h ++ [Crashed])%list m'.

(** A goroutine in the critical section: what it was asked, and how far it is. *)
Definition working (h : list event) (t : nat) (o : op) (m : gmap string string) (c : control)
    (m' : gmap string string) : Prop :=
  In (Invoked t o) h /\ (exists p, op_prog o = Lock p /\ reached p m c m') /\ untouched m c m'.

Definition asked (h : list event) (ws : gmap nat op) : Prop :=
  forall t o, ws !! t = Some o -> In (Invoked t o) h /\ pre o = Ok tt.

Definition sound (m0 : gmap string string) (s : state) : Prop :=
  asked (history s) (waiting s) /\
  exists m, seq_run m0 (history s) m /\
    match inside s with
    | None => disk s = m
    | Some (t, o, c) => working (history s) t o m c (disk s)
    end.

Lemma working_mono h e t o m c m' : working h t o m c m' -> working (h ++ [e])%list t o m c m'.
Proof. intros (Hin & H). split; [apply in_or_app; now left|exact H]. Qed.

Lemma asked_mono h e ws : asked h ws -> asked (h ++ [e])%list ws.
Proof. intros H t o Ht. destruct (H t o Ht). split; [apply in_or_app; now left|assumption]. Qed.

(** A section that came to its end returns what the operation returns. *)
Lemma working_done h t o m r m' :
  working h t o m (At (Unlock (Ret r))) m' -> exists fl, seq_op o (mkFS m fl) = (r, mkFS m' []).
Proof.
  intros (_ & (p & Hp & fl & Hr) & _). exists fl. specialize (Hr []). rewrite app_nil_r in Hr.
  now rewrite <- seq_op_program, Hp.
Qed.

Lemma step_sound m0 s s' : sound m0 s -> step s s' -> sound m0 s'.
Proof.
  intros (Ha & m & Hs & Hi) Hstep. inversion Hstep; subst; unfold sound; cbn [history waiting inside disk] in *.
  - split.
    + intros t' o' Ht'. apply lookup_insert_Some in Ht' as [[<- <-]|[_ Ht']].
      * split; [apply in_or_app; right; now left|eapply op_prog_Lock; eassumption].
      * exact (asked_mono _ _ _ Ha t' o' Ht').
    + exists m. split; [now constructor|].
      destruct i as [[[t' o'] c]|]; [now apply working_mono|exact Hi].
  - split; [now apply asked_mono|]. exists m. split.
    + match goal with E : op_prog o = _ |- _ => rename E into Ep end.
      apply (seq_returned m0 h m t o [] _ m Hs).
      * intros Hp. now destruct (op_prog_Ret _ _ Ep).
      * now rewrite <- seq_op_program, Ep.
    + destruct i as [[[t' o'] c]|]; [now apply working_mono|exact Hi].
  - subst m1. split.
    + intros t' o' Ht'. apply Ha. apply lookup_delete_Some in Ht'. tauto.
    + exists m. split; [exact Hs|]. destruct (Ha t o) as [Hin _]; [assumption|].
      split; [exact Hin|]. split; [eexists; split; [eassumption|apply reached_refl]|].
      left. split; [now intros ? ?|]. eapply op_prog_section; eassumption.
  - split; [exact Ha|]. exists m. split; [exact Hs|].
    destruct Hi as (Hin & (p & Hp & Hr) & Hu). split; [exact Hin|]. split; [|eapply call_untouched; eassumption].
    exists p. split; [exact Hp|eapply call_reached; eassumption].
  - split; [now apply asked_mono|]. exists m1. split; [|reflexivity].
    destruct (working_done _ _ _ _ _ _ Hi) as [fl E]. 
    apply (seq_returned m0 h m t o fl r _ Hs); [intros _; apply Hi|exact E].
  - split; [intros t' o' Ht'; now rewrite lookup_empty in Ht'|].
    exists m1. split; [|reflexivity]. apply (seq_crashed m0 h m); [exact Hs|].
    destruct i as [[[t o] c]|]; [|left; subst; now intros p n].
    pose proof Hi as (Hin & _ & [[Hk _]|[r ->]]); [now left|].
    right. destruct (working_done _ _ _ _ _ _ Hi) as [fl E]. eauto 6.
Qed.

Lemma reach_sound m0 s : reach m0 s -> sound m0 s.
Proof.
  induction 1 as [|s s' _ IH Hs]; [|eapply step_sound; eassumption].
  split; [intros t o Ht; cbn in Ht; now rewrite lookup_empty in Ht|].
  exists m0. split; [constructor|reflexivity].
Qed.


(** * No torn record *)












(** * No deadlock *)

Abbreviation steps := (rtc step).

Lemma write_all path d k m :
  d <> "" -> m !! path = Some "" ->
  call (Writing path d k, m) (Writing path "" k, <[path := d]> m).
Proof. intros Hd Hm. pose proof (call_write path d "" k m "" Hd Hm) as H. now rewrite sapp_nil in H. Qed.

(** The holder of the lock can always come to its end by its own steps; when no call
    fails, with the result of the uninterrupted run. *)
Lemma run_to_end (p : prog F resp) : tidy p -> forall m ws t o h, exists r m',
  run p (mkFS m []) = (r, mkFS m' []) /\
  steps (mkState m ws (Some (t, o, At p)) h) (mkState m' ws (Some (t, o, At (Unlock (Ret r)))) h).
Proof.
  induction p as [r|path k IH|path d k IH|old new k IH|path k IH|name k IH|k IH|k IH];
    cbn [tidy]; intros Ht m ws t o h; try contradiction.
  - destruct (os_ReadFile (F := F) path (mkFS m [None])) as [r0 w] eqn:E.
    destruct (IH r0 ltac:(apply Ht) (files w) ws t o h) as (r & m' & Hr & Hs). exists r, m'. split.
    + cbn [run]. rewrite <- Hr. revert E. unfold os_ReadFile, next_fault. cbn.
      destruct (m !! path); intros Q; injection Q as <- <-; reflexivity.
    + eapply rtc_l; [apply step_call; eapply call_read; exact E|exact Hs].
  - destruct (IH (Ok tt) ltac:(apply Ht) (<[path := d]> m) ws t o h) as (r & m' & Hr & Hs). exists r, m'.
    split; [exact Hr|].
    eapply rtc_l; [apply step_call; apply call_open|].
    destruct (String.eqb_spec d "") as [->|Hd].
    + eapply rtc_l; [apply step_call; apply call_written|exact Hs].
    + eapply rtc_l; [apply step_call, write_all; [exact Hd|apply lookup_insert_eq]|].
      eapply rtc_l; [apply step_call; apply call_written|].
      rewrite insert_insert_eq. exact Hs.
  - destruct (os_Rename (F := F) old new (mkFS m [None])) as [r0 w] eqn:E.
    destruct (IH r0 ltac:(apply Ht) (files w) ws t o h) as (r & m' & Hr & Hs). exists r, m'. split.
    + cbn [run]. rewrite <- Hr. revert E. unfold os_Rename, next_fault, set_files. cbn.
      destruct (m !! old); intros Q; injection Q as <- <-; reflexivity.
    + eapply rtc_l; [apply step_call; eapply call_rename; exact E|exact Hs].
  - destruct (os_Remove (F := F) path (mkFS m [None])) as [r0 w] eqn:E.
    destruct (IH r0 ltac:(apply Ht) (files w) ws t o h) as (r & m' & Hr & Hs). exists r, m'. split.
    + cbn [run]. rewrite <- Hr. revert E. unfold os_Remove, next_fault, set_files. cbn.
      destruct (m !! path); intros Q; injection Q as <- <-; reflexivity.
    + eapply rtc_l; [apply step_call; eapply call_remove; exact E|exact Hs].
  - destruct (filepath_Glob (F := F) name (mkFS m [None])) as [r0 w] eqn:E.
    destruct (IH r0 ltac:(apply Ht) (files w) ws t o h) as (r & m' & Hr & Hs). exists r, m'. split.
    + cbn [run]. rewrite <- Hr. revert E. unfold filepath_Glob. cbn [next_fault faults files].
      destruct (Glob.Join _) as [pattern|]; [destruct (Glob.Glob _ _ pattern)|];
        intros Q; injection Q as <- <-; reflexivity.
    + eapply rtc_l; [apply step_call; eapply call_glob; exact E|exact Hs].
  - destruct Ht as [r ->]. exists r, m. split; [reflexivity|apply rtc_refl].
Qed.

Lemma release m0 m ws t o c h : untouched m0 c m -> exists r m',
  steps (mkState m ws (Some (t, o, c)) h) (mkState m' ws None (h ++ [Returned t o r])%list).
Proof.
  intros [[_ Ht]|[r ->]]; [|exists r, m; apply rtc_once, step_unlock].
  destruct c as [p|path rst k].
  - destruct (run_to_end p Ht m ws t o h) as (r & m' & _ & Hs). exists r, m'.
    eapply rtc_r; [exact Hs|apply step_unlock].
  - destruct (run_to_end (k (Err (PathError "write" path EIO))) ltac:(apply Ht) m ws t o h)
      as (r & m' & _ & Hs).
    exists r, m'. eapply rtc_l; [apply step_call; apply call_write_fails|].
    eapply rtc_r; [exact Hs|apply step_unlock].
Qed.

(** What happens until the mutex is free: its holder, if there is one, returns. *)
Definition holder_returns (s : state) (h : list event) : Prop :=
  match inside s with
  | None => h = []
  | Some (t, o, _) => exists r, h = [Returned t o r]
  end.

Lemma acquire m0 (s : state) : sound m0 s -> exists s1,
  steps s s1 /\ inside s1 = None /\ waiting s1 = waiting s /\
  exists h, holder_returns s h /\ history s1 = (history s ++ h)%list.
Proof.
  destruct s as [m ws [[[t o] c]|] h].
  - intros (_ & m1 & _ & _ & _ & Hu). destruct (release m1 m ws t o c h Hu) as (r & m' & Hs).
    eexists. split; [exact Hs|]. repeat split. exists [Returned t o r]. now split; [exists r|].
  - intros _. eexists. split; [apply rtc_refl|]. repeat split. exists []. cbn. now rewrite app_nil_r.
Qed.

(** C25: no request is locked out.  From every reachable state a waiting request can
    still be answered, whoever holds the mutex: without a restart, after no other answer
    than the holder's, with the others still waiting, and with the answer the operation
    gives on the disk of the moment when nothing fails. *)
Theorem waiting_can_be_served (m0 : gmap string string) (s : state) t o :
  reach m0 s -> waiting s !! t = Some o ->
  exists s1 s' r, steps s s1 /\ steps s1 s' /\
    seq_op o (mkFS (disk s1) []) = (r, mkFS (disk s') []) /\
    inside s' = None /\ waiting s' = delete t (waiting s) /\
    exists h, holder_returns s h /\ history s' = (history s ++ h ++ [Returned t o r])%list.
Proof.
  intros Hr Ht. pose proof (reach_sound _ _ Hr) as Hsd. destruct (proj1 Hsd t o Ht) as [_ Hp].
  pose proof (op_prog_pre o) as Hl. rewrite Hp in Hl. destruct Hl as [p Hl].
  pose proof (proj2 (op_prog_section _ _ Hl)) as Htidy.
  destruct (acquire m0 s Hsd) as (s1 & Hs1 & Hi & Hw & h & Hb & Hh).
  destruct s1 as [m1 ws1 i1 h1]. cbn [inside waiting history disk] in *. subst i1 ws1 h1.
  destruct (run_to_end p Htidy m1 (delete t (waiting s)) t o (history s ++ h)%list)
    as (r & m' & Hrun & Hs).
  eexists _, (mkState m' (delete t (waiting s)) None _), r. split; [exact Hs1|]. split; [|split].
  - eapply rtc_l; [apply (step_lock _ _ _ _ _ p Ht Hl)|]. eapply rtc_r; [exact Hs|apply step_unlock].
  - cbn [disk]. now rewrite <- seq_op_program, Hl.
  - repeat split. exists h. cbn [history]. now rewrite <- app_assoc.
Qed.
End Concurrent.

(** * The theorems at a concrete moment *)

(** A save is in the middle of writing its temporary file, a lookup waits. *)
Section Moment.
#[local] Instance sample_dir : DataDir := plain_dir.
#[local] Instance sample_RC : RecordCodec float64 (Recipe float64) := one_record sample_recipe.
#[local] Instance sample_CC : RecordCodec float64 (CycleRecord float64) := one_record sample_record.

Definition saving : op (F := float64) := OSaveRecipe sample_recipe.
Definition looking : op (F := float64) := OGetRecipe "cycloid-lift".
Definition tmp_file : string := "recipe_cycloid-lift.json.tmp".

Definition midway : state (F := float64) :=
  mkState (<[tmp_file := "" ++ "{"]> (<[tmp_file := ""]> ∅))
    (delete 1%nat (<[2%nat := looking]> (<[1%nat := saving]> ∅)))
    (Some (1%nat, saving, match op_prog saving with
                          | Lock (WriteFile path _ k) => Writing path "}" k
                          | p => At p
                          end))
    [Invoked 1 saving; Invoked 2 looking].

Lemma midway_reach : reach ∅ midway.
Proof.
  unfold midway. eapply reach_step; [|apply step_call].
  2: { apply (call_write _ "{" "}"); [discriminate|apply lookup_insert_eq]. }
  eapply reach_step; [|apply step_call; apply (call_open _ "{}")].
  apply (reach_step _ (mkState ∅ (<[2%nat := looking]> (<[1%nat := saving]> ∅)) None
                         [Invoked 1 saving; Invoked 2 looking])).
  2: { refine (step_lock ∅ (<[2%nat := looking]> (<[1%nat := saving]> ∅))
                 [Invoked 1 saving; Invoked 2 looking] 1%nat saving _ eq_refl _). reflexivity. }
  apply (reach_step _ (mkState ∅ (<[1%nat := saving]> ∅) None [Invoked 1 saving])).
  2: { eapply (step_invoke ∅ _ None [Invoked 1 saving] 2%nat looking); reflexivity. }
  apply (reach_step _ (start ∅)); [apply reach_start|].
  eapply (step_invoke ∅ ∅ None [] 1%nat saving); reflexivity.
Qed.



Lemma waiting_can_be_served_witness :
  reach ∅ midway /\ waiting midway !! 2%nat = Some looking /\
  exists s1 s' r, rtc step midway s1 /\ rtc step s1 s' /\
    seq_op looking (mkFS (disk s1) []) = (r, mkFS (disk s') []) /\
    inside s' = None /\ waiting s' = delete 2%nat (waiting midway) /\
    exists h, holder_returns midway h /\
      history s' = (history midway ++ h ++ [Returned 2 looking r])%list.
Proof.
  split; [apply midway_reach|]. split; [vm_compute; reflexivity|].
  apply (waiting_can_be_served ∅ midway 2%nat looking midway_reach). vm_compute. reflexivity.
Defined.
End Moment.
