(* ===== verification/Float64Spec.v ===== *)
(** Theorems about the service in binary64 arithmetic, and instances of the generic
    theorems evaluated in it.

    The layout of a turn, the grids of the two curves and their end points, bit for
    bit, by the rounding lemmas of [Rounding]. *)
From Stdlib Require Import ZArith Reals Lra Lia String Bool List SpecFloat.
From S2P Require Import Prelude GoFloat Float64 Rounding.
From S2P Require Law Kinematics KinematicsSpec Cycle CycleSpec HandlersSpec.
Import ListNotations.
Local Open Scope string_scope.

(** * Numbers the code tests *)

Lemma val_of_Z z : (0 <= z < 2 ^ 53)%Z -> val (of_Z z) = IZR z.
Proof. apply of_Z_exact. Qed.

Lemma lit_0 : lit 0%const = of_Z 0.
Proof. vm_compute. reflexivity. Qed.
Lemma lit_360 : lit 360%const = of_Z 360.
Proof. vm_compute. reflexivity. Qed.

(** The checks on a length, an angle or a speed leave a positive finite number. *)
Lemma positive_nonneg (x : float64) :
  valid x = true -> Kinematics.not_positive x = false -> nonneg x /\ (0 < val x)%R.
Proof.
  unfold Kinematics.not_positive. cbn [IsNaN IsInf0 fleb of_const Binary64]. rewrite lit_0.
  intros Hv [[Hn Hi]%orb_false_iff Hp]%orb_false_iff.
  destruct x as [s|s| |s m e]; try discriminate.
  - destruct s; discriminate.
  - destruct s; [discriminate|]. split; [now repeat split|].
    cbn [val]. pose proof (bp_pos e). assert (0 < IZR (Zpos m))%R by (apply IZR_lt; lia). nra.
Qed.

(** A dwell's angle is a nonnegative number or a zero of either sign. *)
Lemma dwell_nonneg (x : float64) :
  valid x = true -> IsNaN x = false -> IsInf0 x = false -> fltb x (of_const 0%const) = false ->
  (exists s, x = S754_zero s) \/ (nonneg x /\ (0 < val x)%R).
Proof.
  cbn [IsNaN IsInf0 fltb of_const Binary64]. rewrite lit_0. intros Hv Hn Hi Hp.
  destruct x as [s|s| |s m e]; try discriminate; [eauto|destruct s; discriminate|].
  destruct s; [discriminate|]. right. split; [now repeat split|].
  cbn [val]. pose proof (bp_pos e). assert (0 < IZR (Zpos m))%R by (apply IZR_lt; lia). nra.
Qed.

(** A quotient of integers in order is a number in [0, c]. *)
Lemma ratio_range a b c x :
  rounded x (div a b) -> (0 <= x <= IZR c)%R -> (0 <= c < 2 ^ 53)%Z ->
  nonneg (div a b) /\ (0 <= val (div a b) <= IZR c)%R.
Proof.
  intros Hr Hx Hc. destruct (rounded_nonneg _ _ _ Hr (rep_IZR c Hc)) as [Hn Hle]; [lra|].
  split; [exact Hn|]. split; [apply val_nonneg, Hn|exact Hle].
Qed.

Lemma frac_range i n :
  (0 <= i < n)%Z -> (2 <= n)%Z -> (0 <= IZR i / IZR (n - 1) <= 1)%R.
Proof.
  intros Hi Hn. assert (0 < IZR (n - 1))%R by (apply IZR_lt; lia).
  assert (0 <= IZR i)%R by (apply IZR_le; lia).
  assert (IZR i <= IZR (n - 1))%R by (apply IZR_le; lia).
  split; [apply Rmult_le_pos; [assumption|apply Rlt_le, Rinv_0_lt_compat; assumption]|].
  apply (Rmult_le_reg_r (IZR (n - 1))); [assumption|].
  replace (IZR i / IZR (n - 1) * IZR (n - 1))%R with (IZR i) by (field; lra). lra.
Qed.

(** * The grid of a turn *)

Section TurnAngle.
Variables n i : Z.
Hypothesis Hn : (2 <= n <= Kinematics.MaxPoints)%Z.
Hypothesis Hi : (0 <= i < n)%Z.

(** The angle of a grid index, [360*float64(i)/float64(points-1)]. *)
Definition turn_angle : float64 := div (mul (lit 360%const) (of_Z i)) (of_Z (n - 1)).

Lemma turn_angle_rounded : rounded (360 * IZR i / IZR (n - 1))%R turn_angle.
Proof.
  unfold Kinematics.MaxPoints in Hn. unfold turn_angle. rewrite lit_360.
  pose proof (mul_rounded _ _ (nonneg_of_Z 360 ltac:(lia)) (nonneg_of_Z i ltac:(lia))) as Hm.
  rewrite !val_of_Z, <- mult_IZR in Hm by lia.
  destruct (rounded_exact _ _ Hm (rep_IZR (360 * i) ltac:(lia))) as [Nm Vm].
  pose proof (div_rounded _ _ Nm (nonneg_of_Z (n - 1) ltac:(lia))) as Hd.
  rewrite Vm, val_of_Z, mult_IZR in Hd by lia. apply Hd, IZR_lt. lia.
Qed.

Lemma turn_angle_range : nonneg turn_angle /\ (0 <= val turn_angle <= 360)%R.
Proof.
  unfold turn_angle. apply (ratio_range _ _ 360 _ turn_angle_rounded); [|lia].
  replace (360 * IZR i / IZR (n - 1))%R with (360 * (IZR i / IZR (n - 1)))%R
    by (field; apply not_0_IZR; lia).
  pose proof (frac_range i n Hi ltac:(lia)). lra.
Qed.

Lemma turn_angle_first : i = 0%Z -> turn_angle = of_Z 0.
Proof.
  intros E. apply val_inj; [apply turn_angle_range|now apply nonneg_of_Z|].
  pose proof turn_angle_rounded as H. rewrite E in H.
  replace (360 * 0 / IZR (n - 1))%R with 0%R in H by (field; apply not_0_IZR; lia).
  destruct (rounded_exact _ _ H rep_0) as [_ ->]. now rewrite val_of_Z.
Qed.

Lemma turn_angle_last : i = (n - 1)%Z -> turn_angle = of_Z 360.
Proof.
  intros E. apply val_inj; [apply turn_angle_range|now apply nonneg_of_Z|].
  pose proof turn_angle_rounded as H. rewrite E in H.
  replace (360 * IZR (n - 1) / IZR (n - 1))%R with (IZR 360) in H
    by (field; apply not_0_IZR; lia).
  destruct (rounded_exact _ _ H (rep_IZR 360 ltac:(lia))) as [_ ->]. now rewrite val_of_Z.
Qed.

Lemma turn_angle_accepted :
  fltb turn_angle (of_const 0%const) = false /\ fltb (of_const 360%const) turn_angle = false /\
  fltb (of_const (360 + 1 / 1000000000)%const) turn_angle = false.
Proof.
  destruct turn_angle_range as [N R]. cbn [fltb of_const Binary64]. rewrite lit_0, lit_360.
  assert (Nl : nonneg (lit (360 + 1 / 1000000000)%const)) by (vm_compute; auto).
  assert (Hl : SFleb (of_Z 360) (lit (360 + 1 / 1000000000)%const) = true) by (vm_compute; reflexivity).
  destruct (SFleb_val _ _ (nonneg_of_Z 360 ltac:(lia)) Nl) as [Hle|]; [|discriminate].
  rewrite val_of_Z in Hle by lia.
  repeat split.
  - destruct (SFltb_val _ _ N (nonneg_of_Z 0 ltac:(lia))) as [H|]; [|reflexivity].
    rewrite val_of_Z in H by lia. lra.
  - destruct (SFltb_val _ _ (nonneg_of_Z 360 ltac:(lia)) N) as [H|]; [|reflexivity].
    rewrite val_of_Z in H by lia. lra.
  - destruct (SFltb_val _ _ Nl N) as [H|]; [lra|reflexivity].
Qed.
End TurnAngle.

(** The handlers' theorems about curve requests hold in binary64 as well. *)
#[export] Instance TurnGrid_64 : HandlersSpec.TurnGrid float64.
Proof.
  intros n i Hn Hi theta. destruct (turn_angle_accepted n i Hn Hi) as (H0 & _ & H1).
  apply orb_false_iff. split; [exact H0|exact H1].
Qed.

(** * The layout of a turn *)

(** The fields of a configuration are float64s. *)
Definition wf_config (c : Cycle.Config float64) : Prop :=
  valid (Cycle.H c) = true /\ valid (Cycle.Omega c) = true /\
  valid (Cycle.RiseAngle c) = true /\ valid (Cycle.OuterDwell c) = true /\
  valid (Cycle.ReturnAngle c) = true /\ valid (Cycle.InnerDwell c) = true.

Lemma below_full (x : float64) :
  nonneg x -> fleb Kinematics.FullTurn x = false -> (val x <= 360)%R.
Proof.
  unfold Kinematics.FullTurn. cbn [fleb of_const Binary64]. rewrite lit_360. intros N.
  destruct (SFleb_val _ _ (nonneg_of_Z 360 ltac:(lia)) N) as [|H]; [discriminate|].
  rewrite val_of_Z in H by lia. lra.
Qed.

Lemma rep_max : rep (IZR (2 ^ 53 - 1)).
Proof. apply rep_IZR. lia. Qed.

(** Adding an angle moves a position forward, by at most what the sum can hold. *)
Lemma add_forward a b :
  nonneg a -> nonneg b -> (val a + val b <= 1048576)%R ->
  nonneg (add a b) /\ (val a <= val (add a b))%R.
Proof.
  intros Na Nb Hs. pose proof (add_rounded a b Na Nb) as Hr.
  destruct (rounded_nonneg _ _ _ Hr (rep_IZR 1048576 ltac:(lia)) Hs) as [N _].
  split; [exact N|]. apply (rounded_ge _ _ _ Hr N (val_rep a Na)).
  pose proof (val_nonneg b (proj1 (proj2 Nb))). lra.
Qed.

Lemma add_bounded a b k :
  nonneg a -> nonneg b -> (0 <= k < 2 ^ 53)%Z -> (val a + val b <= IZR k)%R ->
  (val (add a b) <= IZR k)%R.
Proof.
  intros Na Nb Hk Hs. now apply (rounded_nonneg _ _ _ (add_rounded a b Na Nb) (rep_IZR k Hk)).
Qed.

Lemma add_zero_l a : nonneg a -> (0 < val a)%R -> add (lit 0%const) a = a.
Proof.
  rewrite lit_0. intros (Va & Sa & Fa) P. destruct a; try discriminate; [cbn in P; lra|reflexivity].
Qed.

Lemma add_zero_r a s : nonneg a -> (0 < val a)%R -> add a (S754_zero s) = a.
Proof. intros (Va & Sa & Fa) P. destruct a; try discriminate; [cbn in P; lra|reflexivity]. Qed.

(** A step of the layout: the angle of a dwell may be a zero, which is left out. *)
Definition step_angle (x : float64) : Prop :=
  (exists s, x = S754_zero s) \/ (nonneg x /\ (0 < val x <= 360)%R).

Lemma after_step pos x k :
  nonneg pos -> (0 < val pos <= IZR k)%R -> (0 <= k <= 1080)%Z -> step_angle x ->
  CycleSpec.after pos x = add pos x /\ nonneg (add pos x) /\
  (val pos <= val (add pos x) <= IZR (k + 360))%R.
Proof.
  intros N P Hk [[s ->]|[Nx Px]].
  - rewrite add_zero_r by (auto || lra). rewrite plus_IZR.
    split; [destruct s; reflexivity|]. split; [exact N|]. lra.
  - pose proof (IZR_le k 1080 ltac:(lia)) as Hk'.
    destruct (add_forward pos x N Nx ltac:(lra)) as [Na Hle].
    split; [|split; [exact Na|split; [exact Hle|]]].
    + unfold CycleSpec.after. cbn [fleb of_const Binary64]. rewrite lit_0.
      destruct (SFleb_val _ _ Nx (nonneg_of_Z 0 ltac:(lia))) as [H|]; [|reflexivity].
      rewrite val_of_Z in H by lia. lra.
    + apply add_bounded; auto; [lia|]. rewrite plus_IZR. lra.
Qed.

Section Layout64.
Variable c : Cycle.Config float64.
Hypothesis Hw : wf_config c.
Hypothesis Hv : Cycle.Validate c = Ok tt.

Lemma rise_angle_64 : nonneg (Cycle.RiseAngle c) /\ (0 < val (Cycle.RiseAngle c) <= 360)%R.
Proof.
  pose proof (CycleSpec.Validate_accepts c tt Hv) as A.
  destruct (positive_nonneg (Cycle.RiseAngle c)) as [N P]; [apply Hw|apply A|].
  split; [exact N|]. split; [exact P|]. apply below_full; [exact N|apply A].
Qed.

Lemma return_angle_64 : nonneg (Cycle.ReturnAngle c) /\ (0 < val (Cycle.ReturnAngle c) <= 360)%R.
Proof.
  pose proof (CycleSpec.Validate_accepts c tt Hv) as A.
  destruct (positive_nonneg (Cycle.ReturnAngle c)) as [N P]; [apply Hw|apply A|].
  split; [exact N|]. split; [exact P|]. apply below_full; [exact N|apply A].
Qed.

Lemma dwell_angles_64 : step_angle (Cycle.OuterDwell c) /\ step_angle (Cycle.InnerDwell c).
Proof.
  assert (E : forall x, valid x = true ->
     IsNaN x = false /\ IsInf0 x = false /\ fltb x (of_const 0%const) = false /\
     fleb Kinematics.FullTurn x = false -> step_angle x).
  { intros x Hx (Hn & Hi & H0 & Hf).
    destruct (dwell_nonneg x Hx Hn Hi H0) as [|[N P]]; [now left|right].
    split; [exact N|]. split; [exact P|]. now apply below_full. }
  destruct (CycleSpec.Validate_dwells c tt Hv) as [Ho Hi].
  split; apply E; try (apply Hw); assumption.
Qed.

(** The four positions, each the exact float sum the validation forms. *)
Lemma positions_64 :
  CycleSpec.p1 c = Cycle.RiseAngle c /\
  CycleSpec.p2 c = add (CycleSpec.p1 c) (Cycle.OuterDwell c) /\
  CycleSpec.p3 c = add (CycleSpec.p2 c) (Cycle.ReturnAngle c) /\
  CycleSpec.p4 c = add (CycleSpec.p3 c) (Cycle.InnerDwell c) /\
  nonneg (CycleSpec.p1 c) /\ nonneg (CycleSpec.p2 c) /\ nonneg (CycleSpec.p3 c) /\
  nonneg (CycleSpec.p4 c) /\
  (0 < val (CycleSpec.p1 c) <= val (CycleSpec.p2 c))%R /\
  (val (CycleSpec.p2 c) <= val (CycleSpec.p3 c) <= val (CycleSpec.p4 c))%R.
Proof.
  destruct rise_angle_64 as [N1 P1]. destruct return_angle_64 as [NR PR].
  destruct dwell_angles_64 as [SO SI].
  assert (E1 : CycleSpec.p1 c = Cycle.RiseAngle c)
    by (apply add_zero_l; [exact N1|lra]).
  destruct (after_step (CycleSpec.p1 c) _ 360 ltac:(now rewrite E1) ltac:(rewrite E1; lra)
              ltac:(lia) SO) as (E2 & N2 & R2).
  fold (CycleSpec.p2 c) in E2. rewrite <- E2 in N2, R2.
  change (360 + 360)%Z with 720%Z in R2. rewrite E1 in R2 at 1.
  destruct (after_step (CycleSpec.p2 c) (Cycle.ReturnAngle c) 720 N2
              ltac:(lra) ltac:(lia) (or_intror (conj NR PR))) as (_ & N3 & R3).
  change (720 + 360)%Z with 1080%Z in R3.
  change (add (CycleSpec.p2 c) (Cycle.ReturnAngle c)) with (CycleSpec.p3 c) in N3, R3.
  destruct (after_step (CycleSpec.p3 c) _ 1080 N3 ltac:(lra) ltac:(lia) SI)
    as (E4 & N4 & R4).
  fold (CycleSpec.p4 c) in E4. rewrite <- E4 in N4, R4.
  rewrite E1 in *. repeat (split; [first [reflexivity|assumption|lra]|]). lra.
Qed.
Lemma segments_64 :
  Forall (fun sg => nonneg (Cycle.Start sg) /\ nonneg (Cycle.End_ sg) /\
            (val (Cycle.Start sg) <= val (Cycle.End_ sg))%R) (CycleSpec.layout c).
Proof.
  destruct positions_64 as (E1 & E2 & E3 & E4 & N1 & N2 & N3 & N4 & R1 & R2).
  assert (N0 : nonneg (lit 0%const)) by (rewrite lit_0; now apply nonneg_of_Z).
  assert (V0 : val (lit 0%const) = 0%R) by (rewrite lit_0; now apply val_of_Z).
  apply CycleSpec.layout_cases; intros; cbn [Cycle.Start Cycle.End_ CycleSpec.seg fadd of_const Binary64].
  - change (add (lit 0%const) (Cycle.RiseAngle c)) with (CycleSpec.p1 c). rewrite V0.
    split; [assumption|split; [assumption|lra]].
  - rewrite <- E2. split; [assumption|split; [assumption|lra]].
  - rewrite <- E3. split; [assumption|split; [assumption|lra]].
  - rewrite <- E4. split; [assumption|split; [assumption|lra]].
Qed.
End Layout64.

(** A search of the half-open segments that fails leaves the angle to the last one. *)
Lemma last_segment_covers pos (l : list (Cycle.Segment float64)) fin theta sg :
  CycleSpec.contiguous pos l fin ->
  Forall (fun sg => nonneg (Cycle.Start sg) /\ nonneg (Cycle.End_ sg) /\
            (val (Cycle.Start sg) <= val (Cycle.End_ sg))%R) l ->
  nonneg theta -> (val pos <= val theta <= val fin)%R ->
  find (fun sg => fleb (Cycle.Start sg) theta && fltb theta (Cycle.End_ sg)) l = None ->
  last_option l = Some sg ->
  (val (Cycle.Start sg) <= val theta <= val (Cycle.End_ sg))%R.
Proof.
  revert pos. induction l as [|s0 l IH]; intros pos Hc Hf Nt Ht Hnone Hlast; [discriminate|].
  destruct Hc as (Es & Ee & Hc). inversion Hf as [|x y (Ns & Ne & _) Hf']; subst x y.
  cbn [find fleb fltb Binary64] in Hnone.
  destruct (SFleb_val _ _ Ns Nt) as [|Hlt]; [|rewrite Es in Hlt; lra].
  destruct (SFltb_val _ _ Nt Ne) as [|Hge]; [discriminate|]. cbn [andb] in Hnone.
  destruct l as [|s1 l].
  - injection Hlast as <-. cbn in Hc. rewrite Es, Hc. exact Ht.
  - apply (IH (Cycle.End_ s0)); auto. lra.
Qed.

(** C17: in binary64, the turn ends exactly at the sum the validation compared with a
    full turn, to the bit, whether or not dwells are left out; the segments run
    forward; and [locate] answers an angle below 360 and within the turn with a
    segment that contains it. *)
Theorem turn_layout_64 (c : Cycle.Config float64) b :
  wf_config c -> Cycle.Build c = Ok b ->
  Cycle.TotalAngle b = Cycle.angle_sum c /\
  Forall (fun sg => nonneg (Cycle.Start sg) /\ nonneg (Cycle.End_ sg) /\
            (val (Cycle.Start sg) <= val (Cycle.End_ sg))%R) (Cycle.All b) /\
  forall theta, nonneg theta -> (val theta < 360)%R ->
    (val theta <= val (Cycle.TotalAngle b))%R ->
    exists sg, Cycle.locate b theta = Some sg /\ In sg (Cycle.All b) /\
      (val (Cycle.Start sg) <= val theta <= val (Cycle.End_ sg))%R.
Proof.
  intros Hw Hb. apply CycleSpec.Build_inv in Hb as [Hv ->]. cbn [Cycle.TotalAngle Cycle.All].
  pose proof (positions_64 c Hw Hv) as (E1 & E2 & E3 & E4 & _).
  pose proof (segments_64 c Hw Hv) as Hf.
  split; [|split; [exact Hf|]].
  - now rewrite E4, E3, E2, E1.
  - intros theta Nt Hlt Htot.
    destruct (CycleSpec.locate_In c theta) as (sg & Hl & Hin). exists sg.
    split; [exact Hl|]. split; [exact Hin|]. revert Hl. unfold Cycle.locate.
    cbn [Cycle.All fleb fltb Binary64]. unfold Kinematics.FullTurn. cbn [of_const Binary64].
    rewrite lit_360.
    destruct (SFleb_val _ _ (nonneg_of_Z 360 ltac:(lia)) Nt) as [H360|_];
      [rewrite val_of_Z in H360 by lia; lra|].
    pose proof (proj1 (Forall_forall _ _) Hf sg Hin) as (Ns & Ne & _).
    destruct (find _ (CycleSpec.layout c)) as [x|] eqn:F1.
    { intros [= ->]. apply find_some in F1 as [_ F1]. apply andb_true_iff in F1 as [F1 F2].
      apply andb_true_iff in F1 as [_ F1].
      destruct (SFleb_val _ _ Ns Nt); [|discriminate].
      destruct (SFleb_val _ _ Nt Ne); [|discriminate]. auto. }
    destruct (find (fun sg => SFleb (Cycle.Start sg) theta && SFltb theta (Cycle.End_ sg))
                (CycleSpec.layout c)) as [x|] eqn:F2.
    { intros [= ->]. apply find_some in F2 as [_ F2]. apply andb_true_iff in F2 as [F2 F3].
      destruct (SFleb_val _ _ Ns Nt); [|discriminate].
      destruct (SFltb_val _ _ Nt Ne); [|discriminate]. lra. }
    intros Hlast.
    apply (last_segment_covers _ _ _ theta sg (CycleSpec.layout_contiguous c) Hf Nt); auto.
    cbn [of_const Binary64]. rewrite lit_0, val_of_Z by lia.
    split; [apply val_nonneg, Nt|exact Htot].
Qed.

(** A configuration with a zero dwell of either sign and inexact sums. *)
Definition thirds64 : Cycle.Config float64 :=
  Cycle.mkConfig Law.Cosine Law.Cycloid (of_Z 10) (div (of_Z 361) (of_Z 3)) (S754_zero true)
    (div (of_Z 359) (of_Z 3)) (of_Z 120) (of_Z 360).

Lemma turn_layout_64_witness :
  exists b, Cycle.Build thirds64 = Ok b /\ length (Cycle.All b) = 3%nat /\
    Cycle.TotalAngle b = Cycle.angle_sum thirds64 /\
    exists sg, Cycle.locate b (of_Z 200) = Some sg /\
      (val (Cycle.Start sg) <= val (of_Z 200) <= val (Cycle.End_ sg))%R.
Proof.
  destruct (Cycle.Build thirds64) as [b|e|] eqn:Hb; [|vm_compute in Hb; discriminate Hb..].
  exists b. split; [reflexivity|].
  destruct (turn_layout_64 thirds64 b) as (Ht & _ & Hl);
    [vm_compute; tauto|exact Hb|].
  assert (N2 : nonneg (of_Z 200)) by (apply nonneg_of_Z; lia).
  destruct (Hl (of_Z 200) N2) as (sg & Hs & _ & Hr).
  - rewrite val_of_Z by lia. lra.
  - assert (Nt : nonneg (Cycle.TotalAngle b))
      by (vm_compute in Hb; injection Hb as <-; vm_compute; auto).
    destruct (SFleb_val _ _ N2 Nt) as [|Hn]; [assumption|exfalso].
    assert (E : SFleb (of_Z 200) (Cycle.TotalAngle b) = true)
      by (vm_compute in Hb; injection Hb as <-; vm_compute; reflexivity).
    destruct (SFleb_val _ _ N2 Nt); [contradiction|discriminate].
  - split; [vm_compute in Hb; injection Hb as <-; reflexivity|]. split; [exact Ht|]. eauto.
Defined.

(** * The curve of a turn *)

(** Where the turn starts and where it closes, in binary64. *)
Definition closes_64 (c : Cycle.Config float64) (first last : Cycle.CurveSample float64) : Prop :=
  Kinematics.Theta (Cycle.cs_Motion first) = of_Z 0 /\
  Kinematics.Theta (Cycle.cs_Motion last) = of_Z 360 /\
  Cycle.cs_Segment first = "rise" /\ Kinematics.S_ (Cycle.cs_Motion first) = of_Z 0 /\
  if SFleb (Cycle.InnerDwell c) (of_Z 0) then Cycle.cs_Segment last = "return"
  else Cycle.cs_Segment last = "inner_dwell" /\ Kinematics.S_ (Cycle.cs_Motion last) = of_Z 0.

Section Curve64.
Variable c : Cycle.Config float64.
Hypothesis Hw : wf_config c.
Hypothesis Hv : Cycle.Validate c = Ok tt.

Abbreviation b64 := (Cycle.mkSegments (CycleSpec.layout c) (CycleSpec.p4 c)).

Lemma curve_point_64 n i :
  (2 <= n <= Kinematics.MaxPoints)%Z -> (0 <= i < n)%Z ->
  exists s sg, Cycle.curve_point b64 n i = Ok s /\
    Cycle.locate b64 (turn_angle n i) = Some sg /\ In sg (CycleSpec.layout c) /\
    Cycle.sideMotion b64 sg (turn_angle n i) (of_const 0%const) = Ok (Cycle.cs_Motion s) /\
    Cycle.cs_Segment s = Cycle.Kind sg /\ Kinematics.Theta (Cycle.cs_Motion s) = turn_angle n i.
Proof.
  intros Hn Hi. destruct (turn_angle_accepted n i Hn Hi) as (H0 & Hf & H1).
  destruct (CycleSpec.Point_located c Hv (turn_angle n i)) as (sg & m & Hl & Hin & Hs & Hm);
    [now rewrite H0, H1|].
  unfold Kinematics.FullTurn in Hl, Hs. rewrite Hf in Hl, Hs.
  exists (Cycle.mkCurveSample (Cycle.Kind sg) m), sg.
  split; [|split; [exact Hl|split; [exact Hin|split; [exact Hs|split; [reflexivity|]]]]].
  - unfold Cycle.curve_point, Kinematics.FullTurn.
    cbn [of_const of_int fmul fdiv Binary64]. fold (turn_angle n i).
    rewrite Hm. cbn [bind]. now rewrite Hl.
  - now destruct (CycleSpec.sideMotion_Time c sg _ _ _ Hv Hin Hs).
Qed.

(** A quantity times an exact zero. *)
Lemma mul_zero a : nonneg a -> mul a (of_Z 0) = of_Z 0.
Proof. intros (_ & Ha & Fa). destruct a as [s| | |s m e]; try discriminate; cbn in *; now subst. Qed.

Lemma zero_div a : nonneg a -> (0 < val a)%R -> div (of_Z 0) a = of_Z 0.
Proof.
  intros (_ & Ha & Fa) P. destruct a as [s| | |s m e]; try discriminate; cbn in *; [lra|now subst].
Qed.

(** Every law is exactly 0 at 0 and exactly 1 at 1. *)
Lemma law_ends tp :
  Law.Known tp = true ->
  (exists w, Law.EvalSide tp (of_Z 0) (of_const 0%const) = Ok w /\ Law.Y w = of_Z 0) /\
  (exists w, Law.EvalSide tp (of_Z 1) (of_const 0%const) = Ok w /\ Law.Y w = of_Z 1).
Proof.
  revert tp. apply Law.Known_cases; split; eexists;
    (split; [unfold Law.EvalSide; cbn [String.eqb Ascii.eqb Bool.eqb]; reflexivity
            |vm_compute; reflexivity]).
Qed.

Lemma locate_zero : Cycle.locate b64 (of_Z 0) = head (CycleSpec.layout c).
Proof.
  destruct (positions_64 c Hw Hv) as (E1 & E2 & E3 & E4 & N1 & N2 & N3 & N4 & R1 & R2).
  assert (N0 : nonneg (of_Z 0)) by (now apply nonneg_of_Z).
  assert (V0 : val (of_Z 0) = 0%R) by (now apply val_of_Z).
  assert (L : forall p, nonneg p -> (0 < val p)%R -> SFleb p (of_Z 0) = false).
  { intros p Np Pp. destruct (SFleb_val p _ Np N0); [lra|reflexivity]. }
  unfold Cycle.locate. cbn [fleb fltb of_const Binary64 Cycle.All].
  replace (SFleb Kinematics.FullTurn (of_Z 0)) with false by (vm_compute; reflexivity).
  assert (D : forall l, Forall (fun sg => Cycle.isDwell (Cycle.Kind sg) = true ->
                         SFleb (Cycle.Start sg) (of_Z 0) = false) l ->
            find (fun sg => Cycle.isDwell (Cycle.Kind sg) && SFleb (Cycle.Start sg) (of_Z 0)
                            && SFleb (of_Z 0) (Cycle.End_ sg)) l = None).
  { induction 1 as [|sg l Hsg _ IH]; [reflexivity|]. cbn [find].
    destruct (Cycle.isDwell (Cycle.Kind sg)); [rewrite Hsg by reflexivity|]; exact IH. }
  rewrite D.
  - unfold CycleSpec.layout. cbn [find Cycle.Start Cycle.End_ CycleSpec.seg of_const fadd Binary64 app head].
    change (add (lit 0%const) (Cycle.RiseAngle c)) with (CycleSpec.p1 c).
    replace (SFleb (lit 0%const) (of_Z 0)) with true by (vm_compute; reflexivity).
    destruct (SFltb_val _ _ N0 N1); [reflexivity|lra].
  - apply CycleSpec.layout_cases; intros;
      cbn [Cycle.isDwell Cycle.Kind CycleSpec.seg Cycle.Start] in *; try discriminate;
      apply L; try assumption; lra.
Qed.

Lemma closes_curve_64 n first last :
  (2 <= n <= Kinematics.MaxPoints)%Z ->
  Cycle.curve_point b64 n 0 = Ok first -> Cycle.curve_point b64 n (n - 1) = Ok last ->
  closes_64 c first last.
Proof.
  intros Hn Hf Hl.
  pose proof (CycleSpec.Validate_accepts c tt Hv) as A.
  destruct (positive_nonneg (Cycle.H c)) as [NH _]; [apply Hw|apply A|].
  destruct (rise_angle_64 c Hw Hv) as [NR PR].
  destruct (curve_point_64 n 0 Hn ltac:(lia)) as (s & sg & Es & Lo & In1 & Sd & Kd & Th).
  destruct (curve_point_64 n (n - 1) Hn ltac:(lia)) as (s' & sg' & Es' & Lo' & In2 & Sd' & Kd' & Th').
  rewrite Hf in Es. injection Es as <-. rewrite Hl in Es'. injection Es' as <-.
  rewrite turn_angle_first in * by (auto; lia). rewrite turn_angle_last in * by (auto; lia).
  rewrite locate_zero in Lo. injection Lo as <-.
  split; [exact Th|]. split; [exact Th'|]. split; [exact Kd|]. split.
  - unfold Cycle.sideMotion in Sd. rewrite (CycleSpec.turn_omega_built c) in Sd.
    cbn [bind Cycle.Kind CycleSpec.seg String.eqb Ascii.eqb Bool.eqb Cycle.seg_Spec Cycle.Start] in Sd.
    destruct (Kinematics.SampleSide_Ok _ (lit 0%const) (of_Z 0)
                (fdiv (lit 0%const) (Cycle.Omega c)) false (of_const 0%const)
                (CycleSpec.rise_spec_valid c Hv)) as (w & Hev & E).
    rewrite E in Sd. injection Sd as <-. cbn [Kinematics.Type_ Kinematics.Beta] in Hev.
    destruct (law_ends _ (CycleSpec.ok_rise_law c A)) as [(w0 & Hw0 & Y0) _].
    cbn [fsub fdiv of_const Binary64] in Hev. rewrite lit_0 in Hev.
    change (sub (of_Z 0) (of_Z 0)) with (of_Z 0) in Hev. rewrite zero_div in Hev by (auto; lra).
    cbn [of_const Binary64] in Hw0. rewrite lit_0 in Hw0.
    rewrite Hw0 in Hev. injection Hev as <-.
    cbn [Kinematics.restore Kinematics.S_ Kinematics.H fmul Binary64]. rewrite Y0. now apply mul_zero.
  - unfold Cycle.locate in Lo'. cbn [fleb Binary64] in Lo'.
    replace (SFleb Kinematics.FullTurn (of_Z 360)) with true in Lo' by (vm_compute; reflexivity).
    cbn [Cycle.All] in Lo'. rewrite (CycleSpec.layout_last c) in Lo'.
    cbn [fleb of_const Binary64] in Lo'. rewrite lit_0 in Lo'.
    match type of Lo' with Some ?x = Some _ => assert (x = sg') by congruence end. clear Lo'.
    destruct (SFleb (Cycle.InnerDwell c) (of_Z 0)); subst sg'; [exact Kd'|].
    split; [exact Kd'|]. unfold Cycle.sideMotion in Sd'.
    rewrite (CycleSpec.turn_omega_built c) in Sd'.
    cbn [bind Cycle.Kind CycleSpec.seg String.eqb Ascii.eqb Bool.eqb] in Sd'.
    injection Sd' as <-. exact lit_0.
Qed.
End Curve64.

(** C16: the curve of a turn in binary64.  For every admissible number of points the
    request succeeds with exactly one sample per grid index; all angles are
    nonnegative numbers not above 360, rounded from [360*i/(n-1)]; the first is
    exactly 0, on the rise, with displacement exactly 0; the last is exactly 360, on
    the segment that closes the turn, with displacement exactly 0 when that is a
    dwell. *)
Theorem turn_curve_64 (c : Cycle.Config float64) b points :
  wf_config c -> Cycle.Build c = Ok b -> (points <= Kinematics.MaxPoints)%Z ->
  let n := Kinematics.grid_points points in
  exists out, Cycle.Curve b points = Ok out /\ length out = Z.to_nat n /\
    (forall i, (0 <= i < n)%Z -> exists s sg, nth_error out (Z.to_nat i) = Some s /\
       rounded (360 * IZR i / IZR (n - 1)) (Kinematics.Theta (Cycle.cs_Motion s)) /\
       (0 <= val (Kinematics.Theta (Cycle.cs_Motion s)) <= 360)%R /\
       Cycle.locate b (Kinematics.Theta (Cycle.cs_Motion s)) = Some sg /\
       Cycle.cs_Segment s = Cycle.Kind sg) /\
    exists first last, head out = Some first /\ last_option out = Some last /\
      closes_64 c first last.
Proof.
  intros Hw Hb Hp n. apply CycleSpec.Build_inv in Hb as [Hv ->].
  assert (Hn : (2 <= n <= Kinematics.MaxPoints)%Z)
    by (unfold n, Kinematics.grid_points, Kinematics.MinPoints, Kinematics.MaxPoints in *; lia).
  unfold Cycle.Curve. rewrite Kinematics.clamp_points, Z.gtb_ltb. fold n.
  destruct (Z.ltb_spec Kinematics.MaxPoints n); [lia|].
  set (b := Cycle.mkSegments (CycleSpec.layout c) (CycleSpec.p4 c)).
  destruct (mapM_exists (Cycle.curve_point b n) (fun _ _ => True) (range n)) as (out & Ho & _).
  { intros i Hi%range_In. destruct (curve_point_64 c Hv n i Hn Hi) as (s & _ & E & _). eauto. }
  assert (Hlen : length out = Z.to_nat n) by (rewrite (mapM_length _ _ _ Ho); apply range_length).
  assert (Hpt : forall i, (0 <= i < n)%Z -> exists s, nth_error out (Z.to_nat i) = Some s /\
             Cycle.curve_point b n i = Ok s).
  { intros i Hi. exact (mapM_nth_error _ _ _ _ _ Ho (range_nth n i Hi)). }
  exists out. split; [exact Ho|]. split; [exact Hlen|]. split.
  - intros i Hi. destruct (Hpt i Hi) as (s & Hs & Es).
    destruct (curve_point_64 c Hv n i Hn Hi) as (s' & sg & Es' & Lo & _ & _ & Kd & Th).
    fold b in Es', Lo. rewrite Es in Es'. injection Es' as <-. exists s, sg. rewrite Th.
    pose proof (turn_angle_range n i Hn Hi) as [_ R].
    split; [exact Hs|]. split; [now apply turn_angle_rounded|]. auto.
  - destruct (Hpt 0%Z ltac:(lia)) as (f & Hf & Ef).
    destruct (Hpt (n - 1)%Z ltac:(lia)) as (l & Hl & El).
    exists f, l. split; [destruct out; [discriminate|exact Hf]|]. split.
    + apply last_option_nth. now replace (length out - 1)%nat with (Z.to_nat (n - 1)) by lia.
    + exact (closes_curve_64 c Hw Hv n f l Hn Ef El).
Qed.

(** * The curve of a lift *)

Definition wf_spec (s : Kinematics.Spec float64) : Prop :=
  valid (Kinematics.H s) = true /\ valid (Kinematics.Beta s) = true /\
  valid (Kinematics.Omega s) = true.

Section Lift64.
Variable s : Kinematics.Spec float64.
Hypothesis Hw : wf_spec s.
Hypothesis Hv : Kinematics.Validate s = Ok tt.

Lemma spec_64 :
  Law.Known (Kinematics.Type_ s) = true /\ nonneg (Kinematics.H s) /\
  (nonneg (Kinematics.Beta s) /\ (0 < val (Kinematics.Beta s))%R) /\
  (nonneg (Kinematics.Omega s) /\ (0 < val (Kinematics.Omega s))%R).
Proof.
  destruct Hw as (W1 & W2 & W3). pose proof (proj1 (Kinematics.Validate_ok_iff s) Hv) as A.
  unfold Kinematics.accepted in A. repeat rewrite andb_true_iff in A.
  destruct A as ((((Hk & A1%negb_true_iff) & A2%negb_true_iff) & _) & A3%negb_true_iff).
  split; [exact Hk|]. split; [now apply positive_nonneg|].
  split; now apply positive_nonneg.
Qed.

(** The dimensionless time of a grid index, [float64(i)/float64(points-1)]. *)
Definition grid_time (n i : Z) : float64 := div (of_Z i) (of_Z (n - 1)).

Lemma grid_time_rounded n i :
  (2 <= n <= Kinematics.MaxPoints)%Z -> (0 <= i < n)%Z ->
  rounded (IZR i / IZR (n - 1)) (grid_time n i).
Proof.
  unfold Kinematics.MaxPoints. intros Hn Hi.
  pose proof (div_rounded _ _ (nonneg_of_Z i ltac:(lia)) (nonneg_of_Z (n - 1) ltac:(lia))) as H.
  rewrite !val_of_Z in H by lia. apply H, IZR_lt. lia.
Qed.

Lemma grid_time_range n i :
  (2 <= n <= Kinematics.MaxPoints)%Z -> (0 <= i < n)%Z ->
  nonneg (grid_time n i) /\ (0 <= val (grid_time n i) <= 1)%R.
Proof.
  intros Hn Hi. apply (ratio_range _ _ 1 _ (grid_time_rounded n i Hn Hi)); [|lia].
  apply frac_range; lia.
Qed.

Lemma grid_time_first n : (2 <= n <= Kinematics.MaxPoints)%Z -> grid_time n 0 = of_Z 0.
Proof.
  unfold Kinematics.MaxPoints. intros Hn. apply zero_div; [apply nonneg_of_Z; lia|].
  rewrite val_of_Z by lia. apply IZR_lt. lia.
Qed.

Lemma grid_time_last n : (2 <= n <= Kinematics.MaxPoints)%Z -> grid_time n (n - 1) = of_Z 1.
Proof.
  intros Hn. apply val_inj; [apply grid_time_range; lia|now apply nonneg_of_Z|].
  pose proof (grid_time_rounded n (n - 1) Hn ltac:(lia)) as H.
  replace (IZR (n - 1) / IZR (n - 1))%R with (IZR 1) in H by (field; apply not_0_IZR; lia).
  destruct (rounded_exact _ _ H (rep_IZR 1 ltac:(lia))) as [_ ->]. now rewrite val_of_Z.
Qed.

(** One is neutral, to the bit. *)
Lemma mul_one_r a : nonneg a -> mul a (of_Z 1) = a.
Proof.
  intros Na. pose proof (mul_rounded a _ Na (nonneg_of_Z 1 ltac:(lia))) as H.
  rewrite val_of_Z, Rmult_1_r in H by lia.
  destruct (rounded_exact _ _ H (val_rep a Na)) as [N V]. now apply val_inj.
Qed.

Lemma mul_one_l a : nonneg a -> mul (of_Z 1) a = a.
Proof.
  intros Na. pose proof (mul_rounded _ a (nonneg_of_Z 1 ltac:(lia)) Na) as H.
  rewrite val_of_Z, Rmult_1_l in H by lia.
  destruct (rounded_exact _ _ H (val_rep a Na)) as [N V]. now apply val_inj.
Qed.

Lemma zero_mul a : nonneg a -> mul (of_Z 0) a = of_Z 0.
Proof. intros (_ & Ha & Fa). destruct a as [z| | |z m e]; try discriminate; cbn in *; now subst. Qed.

(** What the loop computes at an index. *)
Lemma lift_point_64 n i m :
  Kinematics.curve_point s n i = Ok m ->
  exists w, Law.EvalSide (Kinematics.Type_ s) (grid_time n i) (of_const 0%const) = Ok w /\
    Kinematics.Theta m = mul (grid_time n i) (Kinematics.Beta s) /\
    Kinematics.Time m = div (Kinematics.Theta m) (Kinematics.Omega s) /\
    Kinematics.S_ m = mul (Kinematics.H s) (Law.Y w).
Proof.
  unfold Kinematics.curve_point, Law.Eval. cbn [of_int fdiv fmul Binary64].
  fold (grid_time n i).
  destruct (Law.EvalSide_Known (Kinematics.Type_ s) (grid_time n i) (of_const 0%const))
    as [w Hev]; [apply spec_64|].
  rewrite Hev. cbn [bind]. intros [= <-]. exists w. now repeat split.
Qed.

Lemma lift_angle_range n i :
  (2 <= n <= Kinematics.MaxPoints)%Z -> (0 <= i < n)%Z ->
  nonneg (mul (grid_time n i) (Kinematics.Beta s)) /\
  (0 <= val (mul (grid_time n i) (Kinematics.Beta s)) <= val (Kinematics.Beta s))%R.
Proof.
  intros Hn Hi. destruct spec_64 as (_ & _ & (NB & PB) & _).
  destruct (grid_time_range n i Hn Hi) as [NT RT].
  pose proof (mul_rounded _ _ NT NB) as H.
  destruct (rounded_nonneg _ _ _ H (val_rep _ NB)) as [N L]; [nra|].
  split; [exact N|]. split; [apply val_nonneg, N|exact L].
Qed.
End Lift64.

(** C15: the curve of a lift in binary64, to the bit.  It starts at angle 0, time 0 and
    displacement 0 and ends at the angle [beta], the time [beta/omega] and the
    displacement [h] of the request, exactly, for each of the laws, although sine,
    cosine and pi are approximations; no angle in between leaves [0, beta]. *)
Theorem lift_curve_64 (s : Kinematics.Spec float64) points :
  wf_spec s -> Kinematics.Validate s = Ok tt -> (points <= Kinematics.MaxPoints)%Z ->
  exists out p, Kinematics.Curve s points = Ok (out, p) /\
    Forall (fun m => nonneg (Kinematics.Theta m) /\
              (0 <= val (Kinematics.Theta m) <= val (Kinematics.Beta s))%R) out /\
    exists first last, head out = Some first /\ last_option out = Some last /\
      Kinematics.Theta first = of_Z 0 /\ Kinematics.Time first = of_Z 0 /\
      Kinematics.S_ first = of_Z 0 /\
      Kinematics.Theta last = Kinematics.Beta s /\
      Kinematics.Time last = div (Kinematics.Beta s) (Kinematics.Omega s) /\
      Kinematics.S_ last = Kinematics.H s.
Proof.
  intros Hw Hv Hp. set (n := Kinematics.grid_points points).
  assert (Hn : (2 <= n <= Kinematics.MaxPoints)%Z)
    by (unfold n, Kinematics.grid_points, Kinematics.MinPoints, Kinematics.MaxPoints in *; lia).
  destruct (spec_64 s Hw Hv) as (Hk & NH & (NB & PB) & (NO & PO)).
  destruct (KinematicsSpec.curve_valid s points Hv Hp) as (out & p & Hc & _ & Hl & Hi).
  fold n in Hl, Hi. exists out, p. split; [exact Hc|]. split.
  - apply Forall_forall. intros m [k Hk']%In_nth_error.
    assert (Hr : (0 <= Z.of_nat k < n)%Z).
    { assert (k < length out)%nat by (apply nth_error_Some; congruence). lia. }
    destruct (Hi _ Hr) as (m' & Hm & Hcp). rewrite Nat2Z.id, Hk' in Hm. injection Hm as <-.
    destruct (lift_point_64 s Hw Hv _ _ _ Hcp) as (w & _ & -> & _).
    now apply lift_angle_range.
  - destruct (Hi 0%Z ltac:(lia)) as (f & Hf & Ef). destruct (Hi (n - 1)%Z ltac:(lia)) as (l & Hl' & El).
    exists f, l. split; [destruct out; [discriminate|exact Hf]|].
    split; [apply last_option_nth; now replace (length out - 1)%nat with (Z.to_nat (n - 1)) by lia|].
    destruct (lift_point_64 s Hw Hv _ _ _ Ef) as (w & Hev & Th & Tm & Sd).
    destruct (lift_point_64 s Hw Hv _ _ _ El) as (w' & Hev' & Th' & Tm' & Sd').
    rewrite grid_time_first in * by exact Hn. rewrite grid_time_last in * by exact Hn.
    rewrite zero_mul in Th by exact NB. rewrite mul_one_l in Th' by exact NB.
    destruct (law_ends _ Hk) as [(w0 & E0 & Y0) (w1 & E1 & Y1)].
    rewrite E0 in Hev. injection Hev as <-. rewrite E1 in Hev'. injection Hev' as <-.
    rewrite Tm, Tm', Sd, Sd', Th, Th', Y0, Y1, zero_div by (exact NO || exact PO).
    rewrite mul_zero, mul_one_r by exact NH. auto 10.
Qed.

(** A request whose angle and height are not representable decimals. *)
Definition tenths64 : Kinematics.Spec float64 :=
  Kinematics.mkSpec Law.Cycloid (div (of_Z 1) (of_Z 10)) (div (of_Z 701) (of_Z 10)) (of_Z 360).

Lemma lift_curve_64_witness :
  exists out p first last, Kinematics.Curve tenths64 361 = Ok (out, p) /\
    head out = Some first /\ last_option out = Some last /\
    Kinematics.S_ first = of_Z 0 /\ Kinematics.Theta last = div (of_Z 701) (of_Z 10) /\
    Kinematics.S_ last = div (of_Z 1) (of_Z 10).
Proof.
  destruct (lift_curve_64 tenths64 361) as
    (out & p & Hc & _ & f & l & Hf & Hl & _ & _ & Sf & Tl & _ & Sl);
    [vm_compute; auto|vm_compute; reflexivity|unfold Kinematics.MaxPoints; lia|].
  exists out, p, f, l. auto 10.
Defined.

Lemma turn_curve_64_witness :
  exists b out first last, Cycle.Build thirds64 = Ok b /\ Cycle.Curve b 361 = Ok out /\
    head out = Some first /\ last_option out = Some last /\
    Kinematics.Theta (Cycle.cs_Motion last) = of_Z 360 /\
    Kinematics.S_ (Cycle.cs_Motion last) = of_Z 0.
Proof.
  destruct (Cycle.Build thirds64) as [b|e|] eqn:Hb; [|vm_compute in Hb; discriminate Hb..].
  destruct (turn_curve_64 thirds64 b 361) as
    (out & Hc & _ & _ & f & l & Hf & Hl & (_ & Tl & _ & _ & Sl));
    [vm_compute; tauto|exact Hb|unfold Kinematics.MaxPoints; lia|].
  replace (SFleb (Cycle.InnerDwell thirds64) (of_Z 0)) with false in Sl by (vm_compute; reflexivity).
  exists b, out, f, l. split; [reflexivity|]. destruct Sl. auto.
Defined.

(** * Times *)

(** A turn at one revolution a second: rise 60, dwell 30, return 90, dwell 180. *)
Definition turn64 : Cycle.Config float64 :=
  Cycle.mkConfig Law.Cycloid Law.Parabolic (of_Z 10) (of_Z 60) (of_Z 30) (of_Z 90) (of_Z 180)
    (of_Z 360).

(** In the middle of the rise the time is 0, not 30/360. *)
Lemma turn_time_witness :
  exists b m, Cycle.Build turn64 = Ok b /\ Cycle.Point b (of_Z 30) = Ok m /\
    Kinematics.Theta m = of_Z 30 /\ Kinematics.Time m = of_Z 0 /\
    fdiv (of_Z 30) (of_Z 360) <> of_Z 0.
Proof.
  destruct (Cycle.Build turn64) as [b|e|] eqn:Hb; [|vm_compute in Hb; discriminate Hb..].
  destruct (Cycle.Point b (of_Z 30)) as [m|e|] eqn:Hm;
    [|vm_compute in Hb; injection Hb as <-; vm_compute in Hm; discriminate Hm..].
  exists b, m. split; [reflexivity|]. split; [exact Hm|].
  destruct (CycleSpec.turn_time turn64 b (of_Z 30) m Hb Hm) as (sg & Hl & Ht & Hs).
  vm_compute in Hb. injection Hb as <-.
  vm_compute in Hl. injection Hl as <-. rewrite Ht, Hs.
  split; [reflexivity|]. split; [vm_compute; reflexivity|]. vm_compute. discriminate.
Defined.
