(* ===== verification/Service64.v ===== *)
(** The service as it runs: from the request line, with float64 arithmetic, the JSON codec
    and the number parsing of the Go library, and no assumption left on any of them. *)
From stdpp Require Import gmap strings.
From Stdlib Require Import ZArith String Bool List SpecFloat.
From S2P Require Import Prelude GoFloat Float64 Strconv Scanner Atof JsonEncode Ftoa FtoaRoundtrip Store StoreSpec StoreGlob Handlers HandlersSpec JsonRecords JsonTyping JsonRoundtrip JsonFloat GoStrings Url UrlSpec PathClean HttpServe HttpSpec RequestSpec.
From S2P Require Law Mux.
Import ListNotations.
Local Open Scope string_scope.

(** * What a request can change *)

Section Frame.
Context {F : Type} {GF : GoFloat F} {GS : GoStrconv F} {DD : DataDir}.
Context {RC : RecordCodec F (Recipe F)} {CC : RecordCodec F (CycleRecord F)}.
Context {BR : BodyDecoder F (Recipe F)} {BC : BodyDecoder F (CycleRecord F)}.
Context {BL : BodyDecoder F (liftRequest F)} {BCC : BodyDecoder F (cycleCurveRequest F)}.

(** The handler leaves this file as it is, whatever fails. *)
Definition keeps (file : string) (h : handler F) : Prop := forall w, files (snd (h w)) !! file = files w !! file.

Lemma reads_keeps file (h : handler F) : reads h -> keeps file h.
Proof. intros H w. now rewrite H. Qed.

Lemma saved_keeps {A} {RA : RecordCodec F A} pre name (v : A) w res w' p n :
  saved_or_kept pre name v w res w' -> record_file p n <> record_file pre name ->
  files w' !! record_file p n = files w !! record_file p n.
Proof. intros [(_ & b & _ & _ & _ & H)|[_ H]] Hne; auto. Qed.

Lemma putRecipe_keeps p n (req : Handlers.Request) :
  (forall r : Recipe F, Decode (Body req) = Ok r -> record_file p n <> recipe_file (Recipe_Name r)) ->
  keeps (record_file p n) (putRecipe req).
Proof.
  intros Hne w. unfold putRecipe, decode. destruct (Decode (Body req)) as [r|e|] eqn:E; try reflexivity.
  unfold pure_call, store_call. destruct (Recipe_Validate r); try reflexivity.
  destruct (SaveRecipe r w) as [res w'] eqn:Es. apply SaveRecipe_spec in Es.
  pose proof (saved_keeps _ _ _ _ _ _ p n Es (Hne r eq_refl)) as H. now destruct res.
Qed.

Lemma putCycle_keeps p n (req : Handlers.Request) :
  (forall r : CycleRecord F, Decode (Body req) = Ok r -> record_file p n <> cycle_file (CR_Name r)) ->
  keeps (record_file p n) (putCycle req).
Proof.
  intros Hne w. unfold putCycle, decode. destruct (Decode (Body req)) as [r|e|] eqn:E; try reflexivity.
  unfold pure_call, store_call. destruct (CycleRecord_Validate r); try reflexivity.
  destruct (SaveCycle r w) as [res w'] eqn:Es. apply SaveCycle_spec in Es.
  pose proof (saved_keeps _ _ _ _ _ _ p n Es (Hne r eq_refl)) as H. now destruct res.
Qed.

Lemma with_name_reads pat matches (k : string -> handler F) : (forall n, reads (k n)) -> reads (with_name pat matches k).
Proof. intros H. unfold with_name. destruct (Mux.PathValue pat matches _); [apply H|apply reads_reply]. Qed.

(** A request touches a record only if its body is a record of that kind and name. *)
Lemma serve_line_keeps p n line hosts body :
  (forall r : Recipe F, Decode body = Ok r -> record_file p n <> recipe_file (Recipe_Name r)) ->
  (forall r : CycleRecord F, Decode body = Ok r -> record_file p n <> cycle_file (CR_Name r)) ->
  keeps (record_file p n) (serve_line (F := F) line hosts body).
Proof.
  intros Hr Hc. unfold serve_line. destruct (conn_readRequest line hosts) as [code|r]; [apply reads_keeps, reads_reply|].
  unfold serve. destruct (_ && _); [apply reads_keeps, reads_reply|].
  pose proof (reads_lists (F := F)) as [L1 L2].
  destruct (opt_bind routes_mux _) as [[e pat matches|loc code|allow| |]|]; cbn [dispatched];
    try (apply reads_keeps, reads_reply).
  destruct e; cbn [run]; try (now apply putRecipe_keeps); try (now apply putCycle_keeps);
    apply reads_keeps; try assumption; try (apply with_name_reads; intros name; apply reads_gets);
    first [apply reads_reply|apply reads_lift_get|apply reads_lift_post|apply reads_cycle_get|apply reads_cycle_post].
Qed.

(** A request as it arrives, and the failures it meets. *)
Record arrival := mkArrival {
  arr_line : list Z;
  arr_hosts : list (list Z);
  arr_body : string;
  arr_faults : list (option fault)
}.

(** The files after requests served one after the other. *)
Definition serve_all (l : list arrival) (m : gmap string string) : gmap string string :=
  fold_left (fun m a => files (snd (serve_line (F := F) (arr_line a) (arr_hosts a) (arr_body a) (mkFS m (arr_faults a))))) l m.

(** No body of these is a record of this name. *)
Definition no_recipe_named (name : string) (l : list arrival) : Prop :=
  Forall (fun a => forall r : Recipe F, Decode (arr_body a) = Ok r -> Recipe_Name r <> name) l.
Definition no_cycle_named (name : string) (l : list arrival) : Prop :=
  Forall (fun a => forall r : CycleRecord F, Decode (arr_body a) = Ok r -> CR_Name r <> name) l.

Lemma serve_all_recipe name l : no_recipe_named name l -> forall m,
  serve_all l m !! recipe_file name = m !! recipe_file name.
Proof.
  induction 1 as [|a l Ha _ IH]; intros m; [reflexivity|]. unfold serve_all in *. cbn [fold_left]. rewrite IH.
  apply (serve_line_keeps "recipe_" name); [|discriminate].
  intros r Er E. apply (Ha r Er). symmetry. exact (record_file_inj "recipe_" _ _ E).
Qed.

Lemma serve_all_cycle name l : no_cycle_named name l -> forall m,
  serve_all l m !! cycle_file name = m !! cycle_file name.
Proof.
  induction 1 as [|a l Ha _ IH]; intros m; [reflexivity|]. unfold serve_all in *. cbn [fold_left]. rewrite IH.
  apply (serve_line_keeps "cycle_" name); [discriminate|].
  intros r Er E. apply (Ha r Er). symmetry. exact (record_file_inj "cycle_" _ _ E).
Qed.

(** A lookup whose call does not fail. *)
Lemma getRecipe_found name b (v : Recipe F) w :
  checkName (F := F) name = Ok tt -> Recipe_Validate v = Ok tt ->
  files w !! recipe_file name = Some b -> Store.Unmarshal b = Ok v -> fst (next_fault w) = None ->
  getRecipe name w = (Reply StatusOK (Some (JObj [("recipe", json_Recipe v)])), snd (next_fault w)).
Proof.
  intros Hn Hv Hb Hu Hf. unfold getRecipe, store_call, GetRecipe, io_bind, of_result, io_catch. rewrite Hn, read_spec.
  unfold read_outcome. destruct (next_fault w) as [f w'] eqn:E. cbn [fst snd] in *. subst f.
  rewrite Hb, Hu. unfold reply_with, writeJSON, Handlers.Encode. cbn [encodable forallb snd]. now rewrite (Recipe_encodable v Hv).
Qed.

Lemma getCycle_found name b (v : CycleRecord F) w :
  checkName (F := F) name = Ok tt -> CycleRecord_Validate v = Ok tt ->
  files w !! cycle_file name = Some b -> Store.Unmarshal b = Ok v -> fst (next_fault w) = None ->
  getCycle name w = (Reply StatusOK (Some (JObj [("cycle", json_CycleRecord v)])), snd (next_fault w)).
Proof.
  intros Hn Hv Hb Hu Hf. unfold getCycle, store_call, GetCycle, io_bind, of_result, io_catch. rewrite Hn, read_spec.
  unfold read_outcome. destruct (next_fault w) as [f w'] eqn:E. cbn [fst snd] in *. subst f.
  rewrite Hb, Hu. unfold reply_with, writeJSON, Handlers.Encode. cbn [encodable forallb snd]. now rewrite (CycleRecord_encodable v Hv).
Qed.

(** A registration that was answered 201 left its text, any other answer nothing. *)
Lemma putRecipe_posted (req : Handlers.Request) r b w :
  Decode (Body req) = Ok r -> Recipe_Validate r = Ok tt -> MarshalIndent r = Ok b ->
  let posted := putRecipe req w in
  (fst posted = Reply StatusCreated (Some (JObj [("recipe", json_Recipe r)])) /\
     files (snd posted) !! recipe_file (Recipe_Name r) = Some b) \/
  ((exists e, fst posted = bad_request e) \/ fst posted = Crash) /\
     files (snd posted) !! recipe_file (Recipe_Name r) = files w !! recipe_file (Recipe_Name r).
Proof.
  intros Hd Hv Hm. unfold putRecipe, decode. rewrite Hd. unfold pure_call, store_call. rewrite Hv.
  destruct (SaveRecipe r w) as [res w'] eqn:Es. apply SaveRecipe_spec in Es.
  destruct Es as [(-> & b' & Hm' & Hb & _)|[Hres Hk]].
  - left. rewrite Hm in Hm'. injection Hm' as <-. unfold reply_with, writeJSON, Handlers.Encode. cbn [encodable forallb snd fst].
    rewrite (Recipe_encodable r Hv). auto.
  - right. destruct res as [[]|e|]; [contradiction|..]; (split; [|apply (Hk "recipe_")]); [left; eauto|now right].
Qed.

Lemma putCycle_posted (req : Handlers.Request) r b w :
  Decode (Body req) = Ok r -> CycleRecord_Validate r = Ok tt -> MarshalIndent r = Ok b ->
  let posted := putCycle req w in
  (fst posted = Reply StatusCreated (Some (JObj [("cycle", json_CycleRecord r)])) /\
     files (snd posted) !! cycle_file (CR_Name r) = Some b) \/
  ((exists e, fst posted = bad_request e) \/ fst posted = Crash) /\
     files (snd posted) !! cycle_file (CR_Name r) = files w !! cycle_file (CR_Name r).
Proof.
  intros Hd Hv Hm. unfold putCycle, decode. rewrite Hd. unfold pure_call, store_call. rewrite Hv.
  destruct (SaveCycle r w) as [res w'] eqn:Es. apply SaveCycle_spec in Es.
  destruct Es as [(-> & b' & Hm' & Hb & _)|[Hres Hk]].
  - left. rewrite Hm in Hm'. injection Hm' as <-. unfold reply_with, writeJSON, Handlers.Encode. cbn [encodable forallb snd fst].
    rewrite (CycleRecord_encodable r Hv). auto.
  - right. destruct res as [[]|e|]; [contradiction|..]; (split; [|apply (Hk "cycle_")]); [left; eauto|now right].
Qed.
End Frame.

(** * The service *)

Section Service.
Context {DD : DataDir}.

(** The request line of a record by its name. *)
Definition by_name (kind name : string) : list Z := request_line (bytes "GET") [bytes kind; bytes name] [].

(** The 200 reply to it. *)
Definition answers_recipe (host : list Z) (r : Recipe float64) (w : FS) : Prop :=
  serve_line (F := float64) (by_name "recipes" (Recipe_Name r)) [host] "" w =
  (Reply StatusOK (Some (JObj [("recipe", json_Recipe r)])), snd (next_fault w)).

Definition answers_cycle (host : list Z) (r : CycleRecord float64) (w : FS) : Prop :=
  serve_line (F := float64) (by_name "cycles" (CR_Name r)) [host] "" w =
  (Reply StatusOK (Some (JObj [("cycle", json_CycleRecord r)])), snd (next_fault w)).

Lemma name_is_segment name : checkName (F := float64) name = Ok tt -> segment_name (bytes name).
Proof.
  intros H. split; [apply bytes_range|].
  repeat split; intros E; apply (f_equal text) in E; rewrite text_bytes in E; rewrite E in H; discriminate H.
Qed.

(** A request line without a form. *)
Lemma serve_plain m (L : list string) (host : list Z) body :
  ValidHostHeader host = true -> In m [bytes "GET"; bytes "HEAD"; bytes "POST"] -> L <> [] -> Forall segment_name (map bytes L) ->
  serve_line (F := float64) (request_line m (map bytes L) []) [host] body =
  routes (mkRequest (method_of m) L [] body).
Proof.
  intros Hh Hm Hne HL.
  change (request_line m (map bytes L) []) with (request_line m (map bytes L) (Url.Encode ∅)).
  rewrite (written_routes m (map bytes L) ∅ host body Hh Hm);
    [|now destruct L|exact HL|apply map_Forall_empty].
  rewrite map_map, (map_ext _ (fun s => s)), map_id by apply text_bytes. reflexivity.
Qed.

Lemma serve_by_name kind name host :
  ValidHostHeader host = true -> In kind ["recipes"; "cycles"] -> checkName (F := float64) name = Ok tt ->
  serve_line (F := float64) (by_name kind name) [host] "" = routes (mkRequest GET [kind; name] [] "").
Proof.
  intros Hh Hk Hn. apply (serve_plain (bytes "GET") [kind; name]); [exact Hh|now left|discriminate|].
  constructor; [|constructor; [now apply name_is_segment|constructor]].
  apply name_is_segment. destruct Hk as [<-|[<-|[]]]; reflexivity.
Qed.

Lemma serve_post kind host body :
  ValidHostHeader host = true -> In kind ["recipes"; "cycles"] ->
  serve_line (F := float64) (request_line (bytes "POST") [bytes kind] []) [host] body =
  routes (mkRequest POST [kind] [] body).
Proof.
  intros Hh Hk. apply (serve_plain (bytes "POST") [kind]); [exact Hh|right; right; now left|discriminate|].
  constructor; [|constructor]. apply name_is_segment. destruct Hk as [<-|[<-|[]]]; reflexivity.
Qed.

(** The replies 201 with the record. *)
Definition recipe_created (r : Recipe float64) : reply float64 :=
  Reply StatusCreated (Some (JObj [("recipe", json_Recipe r)])).
Definition cycle_created (r : CycleRecord float64) : reply float64 :=
  Reply StatusCreated (Some (JObj [("cycle", json_CycleRecord r)])).

Lemma put_no_crash (req : Handlers.Request) (w : FS) :
  fst (putRecipe (F := float64) req w) <> Crash /\ fst (putCycle (F := float64) req w) <> Crash.
Proof.
  split; intros E.
  - pose proof (answers_put_recipe (F := float64) req w) as H. now rewrite E in H.
  - pose proof (answers_put_cycle (F := float64) req w) as H. now rewrite E in H.
Qed.

(** C5: What is posted is served.  The body of a POST /recipes or /cycles reads as a record
    that passes its checks.  When no system call fails the answer is 201 with the record;
    whatever fails it is that or a 400, and after a 400 the record's file is what it was.
    After a 201, and after any further requests, each with failures of its own, none of
    which has a body that is a record of the same kind and name, a GET by the name whose
    one system call does not fail answers 200 with the same record, every float the same
    float64: the request lines went through the URL parser, the path cleaning and the
    router, the body through the stream decoder and ParseFloat, the record through the
    encoder, the shortest printing and the file, and back. *)
Theorem posted_records_served (host : list Z) (body : string) (m : gmap string string) (fl : list (option fault)) :
  ValidHostHeader host = true ->
  (forall r : Recipe float64,
     Decode body = Ok r -> Recipe_Validate r = Ok tt -> checkName (F := float64) (Recipe_Name r) = Ok tt ->
     let posted := serve_line (F := float64) (request_line (bytes "POST") [bytes "recipes"] []) [host] body (mkFS m fl) in
     (fl = [] -> fst posted = recipe_created r) /\
     (fst posted = recipe_created r \/
      (exists e, fst posted = bad_request e) /\
      files (snd posted) !! recipe_file (Recipe_Name r) = m !! recipe_file (Recipe_Name r)) /\
     (fst posted = recipe_created r -> forall later w,
        no_recipe_named (F := float64) (Recipe_Name r) later ->
        files w = serve_all (F := float64) later (files (snd posted)) ->
        fst (next_fault w) = None -> answers_recipe host r w)) /\
  (forall r : CycleRecord float64,
     Decode body = Ok r -> CycleRecord_Validate r = Ok tt -> checkName (F := float64) (CR_Name r) = Ok tt ->
     let posted := serve_line (F := float64) (request_line (bytes "POST") [bytes "cycles"] []) [host] body (mkFS m fl) in
     (fl = [] -> fst posted = cycle_created r) /\
     (fst posted = cycle_created r \/
      (exists e, fst posted = bad_request e) /\
      files (snd posted) !! cycle_file (CR_Name r) = m !! cycle_file (CR_Name r)) /\
     (fst posted = cycle_created r -> forall later w,
        no_cycle_named (F := float64) (CR_Name r) later ->
        files w = serve_all (F := float64) later (files (snd posted)) ->
        fst (next_fault w) = None -> answers_cycle host r w)).
Proof.
  intros Hh. unfold answers_recipe, answers_cycle.
  split; intros r Hd Hv Hn; rewrite serve_post by (cbn; auto); cbv zeta.
  - destruct (decoded_recipe_valid body r Hd) as [V1 V2]. destruct (recipe_text r V1 V2 Hv Hn) as (s & E & Es).
    change (routes (mkRequest POST ["recipes"] [] body)) with (putRecipe (F := float64) (mkRequest POST ["recipes"] [] body)).
    pose proof (putRecipe_posted (mkRequest POST ["recipes"] [] body) r s (mkFS m fl) Hd Hv E) as Hp.
    pose proof (put_no_crash (mkRequest POST ["recipes"] [] body) (mkFS m fl)) as [Hc _]. cbv zeta in Hp.
    split; [|split].
    + intros ->. destruct (registered_recipe_served body s r m Hd Hv Hn E Es) as (m' & E' & _).
      change (routes (mkRequest POST ["recipes"] [] body)) with (putRecipe (F := float64) (mkRequest POST ["recipes"] [] body)) in E'.
      now rewrite E'.
    + destruct Hp as [[Hp _]|[[Hp|Hp] Hk]]; [now left|now right|contradiction].
    + intros Hok later w Hl Hw Hf. rewrite serve_by_name by (cbn; auto).
      rewrite routes_get_recipe by now apply (valid_name_not_slash (F := float64)). apply (getRecipe_found _ s); try assumption.
      rewrite Hw, serve_all_recipe by exact Hl. destruct Hp as [[_ Hp]|[[[e Hp]|Hp] _]]; [exact Hp|..];
        rewrite Hp in Hok; discriminate Hok.
  - pose proof (decoded_record_valid body r Hd) as V. destruct (record_text r V Hv Hn) as (s & E & Es).
    change (routes (mkRequest POST ["cycles"] [] body)) with (putCycle (F := float64) (mkRequest POST ["cycles"] [] body)).
    pose proof (putCycle_posted (mkRequest POST ["cycles"] [] body) r s (mkFS m fl) Hd Hv E) as Hp.
    pose proof (put_no_crash (mkRequest POST ["cycles"] [] body) (mkFS m fl)) as [_ Hc]. cbv zeta in Hp.
    split; [|split].
    + intros ->. destruct (registered_cycle_served body s r m Hd Hv Hn E Es) as (m' & E' & _).
      change (routes (mkRequest POST ["cycles"] [] body)) with (putCycle (F := float64) (mkRequest POST ["cycles"] [] body)) in E'.
      now rewrite E'.
    + destruct Hp as [[Hp _]|[[Hp|Hp] Hk]]; [now left|now right|contradiction].
    + intros Hok later w Hl Hw Hf. rewrite serve_by_name by (cbn; auto).
      rewrite routes_get_cycle by now apply (valid_name_not_slash (F := float64)). apply (getCycle_found _ s); try assumption.
      rewrite Hw, serve_all_cycle by exact Hl. destruct Hp as [[_ Hp]|[[[e Hp]|Hp] _]]; [exact Hp|..];
        rewrite Hp in Hok; discriminate Hok.
Qed.
End Service.

(** * At concrete requests *)

#[local] Existing Instance plain_dir.

(** A text with its quotes written as backquotes. *)
Definition quotes (s : string) : string := text (map (fun c => if (c =? 96)%Z then 34%Z else c) (bytes s)).

Definition posted_body : string := quotes "{`name`:`升程-1`,`type`:`cycloid`,`h`:1e-1,`beta_deg`:60.0}".
Definition posted_recipe : Recipe float64 := mkRecipe "升程-1" Law.Cycloid (lit (1 / 10)%const) (of_Z 60).

(** What comes between: another recipe, for which the disk has space for three bytes only,
    and a request line that is malformed. *)
Definition later_requests : list arrival :=
  [mkArrival (bytes "POST /recipes HTTP/1.1") [bytes "h"]
     (quotes "{`name`:`升程-2`,`type`:`cosine`,`h`:2,`beta_deg`:30}") [Some (mkFault ENOSPC (Some 3%nat))];
   mkArrival (bytes "GET  /") [] "" []].

(** A recipe whose stroke is 0.1 and whose name is not ASCII, posted to an empty store. *)
Lemma posted_records_served_witness :
  let posted := serve_line (F := float64) (request_line (bytes "POST") [bytes "recipes"] []) [bytes "localhost:8080"] posted_body (mkFS ∅ []) in
  by_name "recipes" "升程-1" = bytes "GET /recipes/%E5%8D%87%E7%A8%8B-1 HTTP/1.1" /\
  fst posted = recipe_created posted_recipe /\
  answers_recipe (bytes "localhost:8080") posted_recipe
    (mkFS (serve_all (F := float64) later_requests (files (snd posted))) []).
Proof.
  intros posted. split; [vm_compute; reflexivity|].
  destruct (proj1 (posted_records_served (bytes "localhost:8080") posted_body ∅ [] eq_refl) posted_recipe) as (H1 & _ & H2);
    [vm_compute; reflexivity..|].
  split; [now apply H1|]. apply (H2 (H1 eq_refl) later_requests); [|reflexivity..].
  repeat constructor; intros r E; vm_compute in E; [injection E as <-; discriminate|discriminate E].
Defined.
